(* ===== verification/_CoqProject ===== *)
-Q . S2P
Prelude.v
Bits.v
Packed.v
Headers.v
Packet.v
Wire.v
Rpc.v
Alloc.v
Tx.v
Table.v
Locking.v
Store.v
Handlers.v
HandlerSpecs.v
CommitSpecs.v
Bufs.v
Context.v
ContextSpecs.v
Ext.v
Task.v
Master.v
Sched.v
Dispatch.v
DispatchSpecs.v
Proxy.v
Client.v
DB.v
Programs.v
DBSpecs.v
ExtSpecs.v
Float.v
Kayak.v
KayakSpecs.v
Tao.v
Loaders.v
LoadersSpecs.v
DataSpecs.v
PushClient.v
PushSpecs.v
LoadSafety.v
Analysis.v
ExtHalting.v
StoreSafety.v
Ring.v
Mpsc.v
LoadClient.v
YcsbtWork.v
LoadSpecs.v
YcsbtSpecs.v
Ycsb.v
TaoClient.v
AggrClient.v
Reorder.v
ReorderSpecs.v
Tcp.v
Flow.v
Mergeable.v
Batch.v
BatchSpecs.v
Pipeline.v
PipelineSpecs.v
NetSched.v
Config.v
NetConfig.v
ClosedLoop.v
YtClient.v
PbClient.v
AuthClient.v
ChecksumClient.v
YcsbAbce.v
RateClients.v
ClosedSpecs.v
AuthSpecs.v
Lpm.v
Maglev.v
Nat.v
Acl.v
GroupBy.v
Watchdog.v
Server.v
