(* ===== verification/Prelude.v ===== *)
(** * A verification of the Kayak key-value store

    Kayak (Splinter) is an in-memory, multi-tenant key-value store.  Clients
    read and write objects over UDP, or install extensions (shared libraries)
    and invoke them next to the data.  An extension can be pushed back to its
    client, and a client decides request by request whether to ship the compute
    or the data.  This library models the server, from the Ethernet frame to the
    hash table and back, with the packet layer it uses; the extensions that ship
    with it and the data sets they run on; the part of the clients that takes
    over pushed-back extensions; the clients that generate load, with the two
    that balance it between server and client; and of the network framework,
    NetBricks, on which the server is built, the headers, packets, queues,
    per-flow state, pipelines of operators, schedulers, configuration and four of
    its test network functions; and the program that starts the server, with the
    watchdog that replaces stuck schedulers.  It proves what each part does.

    ** The program and its files

    A dispatch task polls the network port (db/src/dispatch.rs), checks the
    MAC, IP and UDP headers of each frame, allocates a response packet and asks
    the master (db/src/master.rs) for a task.  Gets, puts, multigets and commits
    become [Native] tasks, invocations become [Container] tasks that run an
    extension against a [Context].  A round-robin scheduler (db/src/sched.rs)
    runs the tasks; the responses of those that complete are sent by the next
    poll.  Objects live in tables of 128 locked buckets (db/src/table.rs);
    extensions read them as they run, collect what they read and wrote in a
    transaction (db/src/tx.rs), and the transaction is validated and installed
    when the extension ends, or shipped to the client when the extension is
    pushed back, to be committed from there with a commit request.

    The files, in dependency order:
    - [Prelude]: wrapping integers, bytes, the [outcome] of Rust code (a return,
      a panic, undefined behaviour), slices, automation.
    - [Bits], [Packed]: bit fields; packed structures and the [EndOffset] trait
      (net/framework/src/headers/mod.rs) as type classes with laws.
    - [Headers]: Ethernet, IPv4, UDP (net/framework/src/headers).
    - [Packet]: mbufs and typed packets over raw memory
      (native/zcsi/mbuf.rs, interface/packet.rs); [pkt_rep] is the abstract view
      of a packet against which every operation is specified.
    - [Wire]: RPC enums and the twelve message headers (db/src/wireformat.rs).
    - [Rpc]: parsers and request constructors (db/src/rpc.rs).
    - [Alloc]: the layout of objects (db/src/alloc.rs).
    - [Tx]: transactions (db/src/tx.rs).
    - [Table]: the versioned table and [validate] (db/src/table.rs), with the
      abstract specification [TableSpec] and its refinement.
    - [Locking]: a step relation for concurrent validations.
    - [Store]: tenants and their tables, tables shared by reference
      (db/src/tenant.rs, the tenant map of db/src/master.rs).
    - [Handlers], [HandlerSpecs], [CommitSpecs]: get, put, multiget, commit.
    - [Bufs]: the buffers extensions see (sandstorm/src/buf.rs).
    - [Context], [ContextSpecs]: an extension's view of the database, its commit
      and its pushback (db/src/context.rs).
    - [Ext]: the extension manager (sandstorm/src/ext.rs).
    - [Task]: native and container tasks (db/src/{task,native,container}.rs).
    - [Master]: invoke, install and the [Service] trait.
    - [Sched]: the scheduler, against the interface [TaskOps] of its tasks.
    - [Dispatch], [DispatchSpecs]: the dispatcher, and the instance of the
      scheduler's interface for the tasks of a server.
    - [Proxy]: the client's network stack and the database interface of a
      pushed-back extension (splinter/src/{dispatch,proxy}.rs).
    - [Client]: the client's containers and task manager
      (splinter/src/{container,sched}.rs).
    - [DB], [DBSpecs]: the database interface of extensions as a class
      (sandstorm/src/{db,null,mock,pack,macros}.rs), its instances for the
      server's [Context] and the client's [ProxyDB], and the laws that both
      keep.
    - [Programs], [ExtSpecs]: the extensions of ext/ other than TAO, as
      generators over any [DB].
    - [Float]: the single-precision arithmetic of the controllers.
    - [Kayak], [KayakSpecs]: the balancing client of the YCSB-T workload
      (splinter/src/bin/client/ycsb-t-kayak.rs) with its two controllers.
    - [Tao]: the social graph of ext/tao.
    - [Loaders], [LoadersSpecs], [DataSpecs]: the data sets and extensions a
      server starts with (db/src/master.rs), and the extensions on them.
    - [PushClient], [PushSpecs]: the balancing client of the pushback workload
      (pushback-kayak.rs, splinter/src/nativestate.rs).
    - [Analysis]: the extension that classifies records (ext/analysis) and the
      models that it applies (util/src/model.rs); [ExtHalting]: which extensions
      end, over all of them.
    - [LoadSafety], [StoreSafety]: the store stays well-formed, whatever is
      loaded into it and whatever is asked of it.
    - [Ring], [Mpsc], [Reorder], [ReorderSpecs]: NetBricks' ring buffer, its
      queue of mbufs with many producers, and the buffer that puts a stream of
      bytes back in order (net/framework/src/{state/ring_buffer,
      queues/mpsc_mbuf_queue,state/reordered_buffer}).
    - [LoadClient], [LoadSpecs]: the generic load generator, closed or open loop
      (splinter/src/bin/client/client.rs), over a class [Workload]; [YcsbtWork],
      [YcsbtSpecs]: its YCSB-T workload (ycsbt.rs).
    - [Ycsb], [TaoClient], [AggrClient]: the load generators of YCSB (ycsb.rs), of
      the social graph (tao.rs) and of the aggregation (aggregate.rs).
    - [Tcp], [Flow]: TCP headers (headers/tcp.rs), flows and address prefixes
      (utils/flow.rs).
    - [Mergeable]: the stores of per-flow values
      (state/{mergeable,dp_mergeable,cp_mergeable}.rs).
    - [Batch], [BatchSpecs], [Pipeline], [PipelineSpecs]: batches of packets, the
      operators on them and the virtual port (operators/,
      interface/port/virt_port.rs), then whole pipelines, composed of operators
      by the class [Batch].
    - [NetSched]: the scheduler of tasks with dependencies and
      the scheduler of a core (scheduler/{embedded,standalone}_scheduler.rs).
    - [Config], [NetConfig]: the configuration files of server and client
      (db/src/config.rs), those of NetBricks (config/) and its initialisation
      (scheduler/context.rs).
    - [ClosedLoop]: the closed loop of the remaining clients, over a class of what
      differs between them; [YtClient], [PbClient], [AuthClient],
      [ChecksumClient], [YcsbAbce]: its clients (ycsb-t.rs, pushback.rs, auth.rs,
      checksum.rs, ycsb-abce.rs); [RateClients]: the clients that send the
      extensions long and bad at a fixed rate (long.rs, bad.rs); [ClosedSpecs],
      [AuthSpecs]: what they promise.
    - [Lpm], [Maglev], [Nat], [Acl]: network functions on NetBricks
      (net/test/{lpm,maglev,nat,acl-fw}/src/nf.rs): routing by longest prefix,
      load balancing, address translation, a firewall; [GroupBy]: the operator
      that splits a batch into queues (operators/group_by.rs).
    - [Watchdog], [Server]: the server program (db/src/bin/server.rs) with the
      threads of NetBricks (scheduler/context.rs), and the race between its
      watchdog and the thread of a scheduler that is stuck.

    ** How state and operations correspond to the code

    A structure is a record with the fields of the source; a method that
    changes [self] returns the new record.  Interior mutability and [Arc]s are
    explicit: tables live in a heap of the [Store] and a tenant holds locations.
    Unsigned arithmetic wraps (release build).  Rust's [Option] is [option];
    [expect], [unwrap], indexing and [assert!] give [Panic]; a raw access out of
    bounds and an invalid discriminant give [Undef].  A generator is the data it
    captured, with a function that resumes it.  Locks are held for the length of
    a call: a method of a table is one atomic step, and [Locking] treats the
    interleaving of the acquisitions inside [validate].  Cargo features are off,
    except that "pushback" is an argument of the scheduler.

    What is not part of the repository is an interface: the [bytes] crate
    ([BytesCrate]), the dynamic loader and the file system ([Loader]), ports,
    the native mbuf pool and the time-stamp counter ([Network]), cryptography
    ([Crypto]), random numbers, distributions and order statistics ([Workloads],
    [Orders]).  The code of an extension is the argument [resume] of the server
    and of the client's task manager: an extension is loaded from a file.

    ** What the theorems show

    - Storage: the table refines one versioned map ([table_refines_spec]);
      committed transactions are serializable ([commit_serializable]); versions
      grow ([version_monotone]); objects are laid out and resolved faithfully
      ([resolve_object], [resolve_raw]); no sequence of loaders, requests and
      extensions leaves an ill-formed table behind ([store_stays_wf]), nor does
      what the server loads when it starts ([populated_store_wf]).
    - Requests: what a client builds the server parses
      ([client_request_roundtrip]); every handler answers as specified
      ([get_native_answers], [get_task_answers], [put_then_get],
      [multiget_native_answers], [commit_task_answers], [invoke_answers],
      [install_answers]); the two ways to serve a put agree
      ([put_paths_agree]).
    - The server: the dispatcher serves the valid frames of a batch in order
      ([poll_serves_batch]), answers to the sender ([response_returns_to_sender])
      and a get on the wire is answered with the object, or panics on an empty
      value ([get_served_end_to_end]); no task waits for ever
      ([every_task_is_scheduled]).
    - The extension mechanism: extensions belong to their tenant
      ([extensions_isolated]), cannot stop the scheduler
      ([container_run_contained]), record what they write
      ([alloc_write_put_records]), commit what they recorded
      ([extension_commit_validates]), and a pushback ships the transaction in
      the format of a commit ([pushback_roundtrip]).
    - The extensions: on any database all of them end but bad, which is a loop
      without end ([extensions_halt]);
      ycsbt transfers between its accounts ([ycsbt_transfers]); aggregate, auth
      and TAO find in the loaded data sets what they expect
      ([aggregate_lists_resolve], [auth_clients_authenticate],
      [tao_graph_served]), and so does the classifier of records
      ([analysis_classifies]); TAO's lists are read as they were written
      ([association_list_roundtrip]).
    - Pushback: the transaction that comes back with the client's commit is the
      one the server shipped ([pushed_back_transaction_returns]), extended by
      what the extension accessed on the client ([commit_payload_faithful]);
      the client's task manager loses no task ([execute_task_loses_nothing]).
    - Balancing: where the compute part of a request runs makes no difference
      to the transaction that is committed ([shipping_data_is_shipping_compute]
      for a transfer, [client_chain_is_server_chain] for a chain of dependent
      gets); the share of invocations stays a percentage and the window of
      outstanding requests open whatever the controllers measure
      ([share_stays_percentage], [window_never_closes],
      [push_controllers_bounded]); sending fills that window and ends
      ([send_fills_window]).
    - Locks: commits never deadlock ([commits_never_deadlock]).
    - The program: started, it has a dispatcher on every core and is about to poll
      ([server_starts]); its watchdog replaces exactly the schedulers that are late,
      or panics at one whose thread has died ([scan_replaces_late]), and of the tasks
      of a scheduler that is stuck only the one that runs is lost
      ([watchdog_loses_only_what_runs]).
    - Load generators: a closed loop fills its window, or spins for ever when the
      number of requests is reached first ([closed_load_fills_or_hangs]), an open
      loop sends on schedule ([open_load_keeps_schedule]); the other closed loops
      keep their window ([closed_clients_keep_window]); what they send is what
      the extensions understand ([ycsbt_requests_understood],
      [ycsb_invocation_is_request], [tao_client_keys]); an aborted transaction is
      started again ([aborted_transaction_restarts]), and the limits of that
      ([aborted_get_becomes_transfer], [tao_client_stops_early],
      [pushed_back_aggregate_fails], [second_request_of_burst_rejected]).
    - Queues and buffers: the ring buffer refines a bounded queue of bytes
      ([ring_refines_queue]); mbufs leave the concurrent queue in the order in
      which producers claimed slots, none lost and none invented ([mpsc_fifo],
      [mpsc_drains]), and no thread is stuck ([mpsc_never_stuck]); segments that
      arrive out of order are read as the stream they were cut from
      ([reorder_delivers_stream], [reorder_gap]), except across the wrap of the
      sequence numbers ([reorder_overlap_across_wrap]), and with one loop that does
      not end ([reorder_two_gaps_hang]).
    - Flows: [tcp_accessors], [prefix_matches_leading_bits]; a flow stamped onto
      a packet is extracted from it ([flow_stamped_is_extracted]); the stores of
      per-flow values behind a channel add updates up ([cp_store_adds_up]), those
      behind a lock and of the data path forget all but the last
      ([mergeable_shows_last], [dp_store_is_map]).
    - Pipelines: whatever operators a batch goes through, each mbuf that is
      received is sent once, freed once or kept once
      ([pipeline_conserves_mbufs]); a filter keeps what satisfies it, in order
      ([filter_keeps], [drop_packets_exact]); a merge takes its parents in turn
      ([merge_takes_turns]).
    - Schedulers: tasks run after what they depend on ([dependencies_run_first]);
      a core's scheduler refines a plain account of its commands and rounds
      ([scheduler_serves]), ends on a shutdown ([shutdown_ends_scheduler]) and
      charges all its time ([loop_time_is_charged]).
    - Network functions: a table routes by the longest prefix that matches
      ([table_routes_by_longest_prefix]), balancing gives every backend its share
      ([maglev_is_balanced]), answers to a translated flow come back to its sender
      ([nat_answers_come_back]), the firewall admits only connections that a rule
      opens ([firewall_admits_asked]), and a batch that is split is split completely, in
      order ([group_by_splits]).
    - Configuration: [mac_reads_back], [configuration_roundtrip]; the cores form
      a ring ([siblings_form_ring]).
    - Limits of the code, proved as they are: [validate_order_can_deadlock],
      [validate_absent_write_panics], [commit_trailing_bytes_panic],
      [panicked_extension_commits], [alloc_quota_ignores_values],
      [pushback_removes_prefix], [multiget_leaves_task_waiting],
      [csum_and_offset_not_read_back], [association_add_overwrites],
      [association_remove_keeps_length], [object_writes_rejected],
      [ip_header_flow_swaps_ports], [maglev_without_backends].

    ** Fuel and bounds

    Fuel: [chunks_fuel] takes the length of the list (every chunk consumes an
    element, see [chunks_fuel_enough]), [utf8_fuel] the length of the string,
    [list_deserialize] the length of the list (every association consumes
    bytes), [while_next] a turn more than there are values, and [mrb_drain], the
    reading loop of an extension, any number of turns from the number of values
    on ([multiread_visits_all]).  The sending loops of the clients are
    [while_loop]s with the number of requests missing to the window as fuel, and
    more changes nothing ([while_loop_turns]).  [poll_turns] runs the scheduler's
    endless loop for a given list of clock readings, [drive] resumes a generator
    a given number of times, and [native_dialogue] follows a chain for a given
    number of replies; the theorems about them give numbers that are enough.
    The loops over a batch have the number of its packets as fuel, those over
    segments the number of segments; [exec_task] needs no more than the handle of
    the task ([dependencies_run_first]); for the nested loops of a core's
    scheduler some fuel is enough whatever comes ([scheduler_serves]).  [cc_send]
    takes the 32 turns of its window, each of which adds an outstanding request;
    [generate_lut] runs as many rounds as its table has entries, and its search
    for a free slot the length of a permutation, both shown to be enough
    ([maglev_is_balanced]); [server_poll] follows the endless loop of a server for
    a number of turns, and [server_polls_on] says that it ends only on a mark of
    the watchdog; [bad_loop] has no number of turns that is enough
    ([bad_never_returns]).
    Packet theorems assume a buffer shorter than 2^16 bytes, which is the width
    of the mbuf's own fields.

    ** Assumptions

    - [Mpsc]: fewer than 2^64 mbufs pass through a queue, and a handle is used by
      one thread at a time; acquire and release are interleavings of atomic steps.
    - [Batch], [Pipeline]: ports and the pool of mbufs are classes with laws;
      closures are functions of what they capture.
    - [NetSched]: the commands that a scheduler receives are a script, [None] being
      a moment at which the channel is empty; closures only add tasks; the clock
      is no part of the world that tasks change.
    - [Config], [NetConfig]: what the crate toml reads from a file, and the ports
      and queues that DPDK gives, are arguments.
    - [AuthClient], [AuthSpecs]: the cipher is the class [AesEncrypt]; [ChecksumClient]:
      the digests are arguments.
    - [Lpm]: the order in which a hash map is iterated is an argument, any
      permutation; [Maglev]: the two hashes are arguments; [Acl]: closures keep
      their flows in a set; [GroupBy]: the queues keep the laws of [Mpsc].
    - [Watchdog]: a lock held for a statement and an atomic access are one step; the
      feature "pushback" is off.  [Server]: a thread is known by an identifier that
      is given to it once, and a configuration that is read again is the same.  Both
      have threads that died of a panic, whose channel for commands is closed, so that
      the unwrapped result of a send panics.
    - [Analysis]: deserializing and applying a classifier, and deserializing the
      numbers of a record, are classes ([Classifier], [Features]).  [ExtHalting]: that
      the calls of a database come back is a hypothesis, [comes_back].

    ** What is not modelled

    Statistics and logging, cycle counters, the signal handler and the installer's
    thread of the server, DPDK and the C bindings, event loops over sockets,
    allocators, training of machine-learning models, the client of the extension
    analysis, the clients sanity and setup, the programs that only measure (net_bench), the flags of the
    command line, the barrier, the joins and the test pipelines of
    NetBricksContext, the other test programs of NetBricks, and the casts of
    sandstorm/src/pack.rs: these are input and output, calls of libraries outside
    the repository, or printing.  Busy waits of extensions and clients touch nothing
    but the clock and are left out.  Freed mbufs are tracked by the dispatcher
    ([mbuf_free]) and the pipelines but not where the server's scheduler drops the
    request of a finished task. *)


From stdpp Require Export base list gmap numbers sorting relations.

Declare Scope kayak_scope.
Delimit Scope kayak_scope with kayak.
Open Scope Z_scope.

(** ** Machine integers

    The server is built with [--release], so unsigned arithmetic wraps. *)

Definition wrap (w : Z) (z : Z) : Z := z mod 2 ^ w.

Definition wadd (w a b : Z) : Z := wrap w (a + b).

Definition wsub (w a b : Z) : Z := wrap w (a - b).

Definition wmul (w a b : Z) : Z := wrap w (a * b).

Definition in_width (w z : Z) : Prop := 0 ≤ z < 2 ^ w.

#[export] Instance in_width_dec w z : Decision (in_width w z).
Proof. unfold in_width. apply _. Defined.

Notation "a +u64 b" := (wadd 64 a b) (at level 50, left associativity) : kayak_scope.
Notation "a -u64 b" := (wsub 64 a b) (at level 50, left associativity) : kayak_scope.
Notation "a +u32 b" := (wadd 32 a b) (at level 50, left associativity) : kayak_scope.
Notation "a -u32 b" := (wsub 32 a b) (at level 50, left associativity) : kayak_scope.
Open Scope kayak_scope.

(** ** Bytes *)

Abbreviation bytes := (list Z).

Definition is_bytes (bs : bytes) : Prop := Forall (in_width 8) bs.

#[export] Instance is_bytes_dec bs : Decision (is_bytes bs).
Proof. unfold is_bytes. apply _. Defined.

(** [len bs] is Rust's [bs.len()]. *)
Definition len {A} (l : list A) : Z := Z.of_nat (length l).

(** Little-endian (native order on x86-64) encoding of an [n]-byte integer. *)
Fixpoint le_bytes (n : nat) (v : Z) : bytes :=
  match n with
  | O => []
  | S n' => v mod 256 :: le_bytes n' (v / 256)
  end.

Fixpoint le_val (bs : bytes) : Z :=
  match bs with
  | [] => 0
  | b :: bs' => b + 256 * le_val bs'
  end.

(** ** Outcomes of a Rust computation

    [Ret] is a normal return, [Panic] an unwinding panic (failed assertion,
    index out of bounds, [expect] on [None]), [Undef] undefined behaviour
    reached through [unsafe] code (out-of-bounds memory access, an invalid
    enum discriminant). *)

Inductive outcome (A : Type) : Type :=
| Ret (a : A)
| Panic
| Undef.

Arguments Ret {_} _.
Arguments Panic {_}.
Arguments Undef {_}.

#[export] Instance outcome_ret : MRet outcome := λ A a, Ret a.

#[export] Instance outcome_bind : MBind outcome := λ A B f m,
  match m with Ret a => f a | Panic => Panic | Undef => Undef end.

#[export] Instance outcome_fmap : FMap outcome := λ A B f m,
  match m with Ret a => Ret (f a) | Panic => Panic | Undef => Undef end.

(** [Option::expect]/[unwrap], and [assert!]. *)
Definition expect {A} (o : option A) : outcome A :=
  match o with Some a => Ret a | None => Panic end.

Definition assert_ (P : Prop) `{Decision P} : outcome unit :=
  if decide P then Ret tt else Panic.

(** The value read through a raw pointer, undefined when out of bounds. *)
Definition unchecked {A} (o : option A) : outcome A :=
  match o with Some a => Ret a | None => Undef end.

(** A left fold whose body may panic: Rust's [for] loop over a collection. *)
Fixpoint ofold {A S} (f : S → A → outcome S) (s : S) (l : list A) : outcome S :=
  match l with
  | [] => Ret s
  | a :: l' => s' ← f s a; ofold f s' l'
  end.

(** [slice::split_at]: panics when the index is past the end. *)
Definition split_at {A} (l : list A) (n : Z) : outcome (list A * list A) :=
  if decide (0 ≤ n ≤ len l) then Ret (take (Z.to_nat n) l, drop (Z.to_nat n) l)
  else Panic.

(** [&l[a..b]]: panics unless [a <= b <= len]. *)
Definition slice {A} (l : list A) (a b : Z) : outcome (list A) :=
  if decide (0 ≤ a ≤ b ∧ b ≤ len l)
  then Ret (take (Z.to_nat (b - a)) (drop (Z.to_nat a) l))
  else Panic.

(** [v[i]] *)
Definition index {A} (l : list A) (i : Z) : outcome A :=
  if decide (0 ≤ i) then expect (l !! Z.to_nat i) else Panic.

(** [v[i] = x] *)
Definition set_index {A} (l : list A) (i : Z) (x : A) : outcome (list A) :=
  if decide (0 ≤ i < len l) then Ret (<[Z.to_nat i := x]> l) else Panic.

(** [l.chunks(n)] for [n > 0]; [chunks(0)] panics. The fuel is the length of
    the list: every chunk consumes at least one element. *)
Fixpoint chunks_fuel {A} (fuel : nat) (n : nat) (l : list A) : list (list A) :=
  match fuel, l with
  | S f, _ :: _ => take n l :: chunks_fuel f n (drop n l)
  | _, _ => []
  end.

Definition chunks {A} (l : list A) (n : Z) : outcome (list (list A)) :=
  if decide (0 < n) then Ret (chunks_fuel (length l) (Z.to_nat n) l) else Panic.

(** ** Automation *)

Create HintDb kayak discriminated.
Create Rewrite HintDb kayak_len.

(** Case analysis on the scrutinee of the goal's or a hypothesis' [match],
    keeping the equation. *)
Ltac split_match :=
  match goal with
  | |- context [match ?x with _ => _ end] => destruct x eqn:?
  | H : context [match ?x with _ => _ end] |- _ => destruct x eqn:?
  end; simplify_eq/=.

(** Decide every [decide] of the goal, closing arithmetic contradictions. *)
Ltac decide_all :=
  repeat (case_decide; simplify_eq/=; try lia; try (exfalso; naive_solver lia)).

(** Inversion of a successful [outcome] computation, one bind at a time. *)
Ltac inv_outcome :=
  repeat match goal with
  | H : Ret _ = Ret _ |- _ => injection H as H; try subst
  | H : Panic = Ret _ |- _ => discriminate H
  | H : Undef = Ret _ |- _ => discriminate H
  | H : (?m ≫= _) = Ret _ |- _ =>
      let E := fresh "E" in destruct m eqn:E; cbn in H; try discriminate H
  end.

(** Arithmetic on list lengths. *)
Ltac len_lia :=
  unfold len in *; rewrite ?length_app, ?length_take, ?length_drop,
    ?length_insert, ?length_replicate, ?length_cons in *; simpl in *; lia.

(** ** Generic lemmas *)

Lemma wrap_id w z : in_width w z → wrap w z = z.
Proof. intros. by apply Z.mod_small. Qed.

Lemma wrap_range w z : 0 ≤ w → in_width w (wrap w z).
Proof. intros. apply Z.mod_pos_bound. lia. Qed.

Lemma wadd_id w a b : in_width w (a + b) → wadd w a b = a + b.
Proof. apply wrap_id. Qed.

Lemma wsub_id w a b : 0 ≤ b ≤ a → in_width w a → wsub w a b = a - b.
Proof. intros. apply wrap_id. unfold in_width in *. lia. Qed.

Lemma len_app {A} (l1 l2 : list A) : len (l1 ++ l2) = len l1 + len l2.
Proof. unfold len. rewrite length_app. lia. Qed.

Lemma len_nonneg {A} (l : list A) : 0 ≤ len l.
Proof. unfold len. lia. Qed.

Lemma len_le_bytes n v : len (le_bytes n v) = Z.of_nat n.
Proof. unfold len. revert v. induction n as [|n IH]; intros v; simpl; [done|]. specialize (IH (v / 256)). lia. Qed.

Lemma is_bytes_app b1 b2 : is_bytes (b1 ++ b2) ↔ is_bytes b1 ∧ is_bytes b2.
Proof. apply Forall_app. Qed.

Lemma le_bytes_length n v : length (le_bytes n v) = n.
Proof. revert v. induction n; simpl; auto. Qed.

Lemma le_bytes_is_bytes n v : is_bytes (le_bytes n v).
Proof.
  revert v. induction n as [|n IH]; intros v; constructor; [|apply IH].
  unfold in_width. change (2 ^ 8) with 256. apply Z.mod_pos_bound. lia.
Qed.

Lemma le_val_bytes n v : le_val (le_bytes n v) = v mod 2 ^ (8 * Z.of_nat n).
Proof.
  revert v. induction n as [|n IH]; intros v; simpl.
  - change (2 ^ 0) with 1. by rewrite Z.mod_1_r.
  - rewrite IH. replace (8 * Z.of_nat (S n)) with (8 + 8 * Z.of_nat n) by lia.
    rewrite Z.pow_add_r by lia. change (2 ^ 8) with 256.
    rewrite Z.rem_mul_r by lia. lia.
Qed.

Lemma le_val_range bs : is_bytes bs → in_width (8 * len bs) (le_val bs).
Proof.
  unfold in_width, len. induction 1 as [|b bs Hb _ IH]; simpl; [lia|].
  replace (8 * Z.of_nat (S (length bs))) with (8 + 8 * Z.of_nat (length bs)) by lia.
  rewrite Z.pow_add_r by lia. unfold in_width in Hb. change (2 ^ 8) with 256 in *. nia.
Qed.

Lemma le_bytes_val bs : is_bytes bs → le_bytes (length bs) (le_val bs) = bs.
Proof.
  induction 1 as [|b bs Hb _ IH]; simpl; [done|].
  unfold in_width in Hb. change (2 ^ 8) with 256 in Hb.
  replace (b + 256 * le_val bs) with (le_val bs * 256 + b) by lia.
  rewrite Z.div_add_l, Z.div_small, Z.add_0_r, IH by lia.
  rewrite Z.add_comm, Z.mod_add, Z.mod_small by lia. done.
Qed.

Lemma split_at_app {A} (l1 l2 : list A) n :
  n = len l1 → split_at (l1 ++ l2) n = Ret (l1, l2).
Proof.
  intros ->. unfold split_at, len. rewrite length_app, decide_True by lia.
  by rewrite Nat2Z.id, take_app_length, drop_app_length.
Qed.

Lemma split_at_all {A} (l : list A) : split_at l (len l) = Ret (l, []).
Proof. rewrite <- (app_nil_r l) at 1. by apply split_at_app. Qed.

Lemma slice_app {A} (l1 l2 l3 : list A) a b :
  a = len l1 → b = a + len l2 → slice (l1 ++ l2 ++ l3) a b = Ret l2.
Proof.
  intros -> ->. unfold slice, len. rewrite !length_app, decide_True by lia.
  rewrite Nat2Z.id, drop_app_length, Z.add_simpl_l, Nat2Z.id, take_app_length. done.
Qed.

Lemma ofold_app {A S} (f : S → A → outcome S) s l1 l2 :
  ofold f s (l1 ++ l2) = (s' ← ofold f s l1; ofold f s' l2).
Proof.
  revert s. induction l1 as [|a l1 IH]; intros s; [done|]. cbn.
  destruct (f s a); cbn; auto.
Qed.

Lemma ofold_pure {A S} (f : S → A → outcome S) (g : S → A → S) s l :
  (∀ s a, a ∈ l → f s a = Ret (g s a)) → ofold f s l = Ret (foldl g s l).
Proof.
  revert s. induction l as [|a l IH]; intros s Hf; [done|]. cbn.
  rewrite Hf by set_solver. cbn. apply IH. set_solver.
Qed.

Lemma foldl_snoc_map {A B} (f : A → B) acc l : foldl (λ c a, c ++ [f a]) acc l = acc ++ (f <$> l).
Proof.
  revert acc. induction l as [|a l IH]; intros acc; cbn; [by rewrite app_nil_r|].
  by rewrite IH, <- (assoc_L (++)).
Qed.

(** An invariant of a loop's body holds after the loop. *)
Lemma ofold_inv {A S} (P : S → Prop) (f : S → A → outcome S) s l s' :
  (∀ s a s', P s → f s a = Ret s' → P s') → P s → ofold f s l = Ret s' → P s'.
Proof.
  intros Hf. revert s. induction l as [|a l IH]; intros s Hs; cbn; [by intros [= <-]|].
  destruct (f s a) as [s1| |] eqn:E; cbn; [|done..]. apply IH. by eapply Hf.
Qed.

(** A measure that every turn raises by [c]. *)
Lemma ofold_grows {A S} (P : Z → S → Prop) (c : Z) (f : S → A → outcome S) n s l s' :
  (∀ n s a s', P n s → f s a = Ret s' → P (n + c) s') → P n s → ofold f s l = Ret s' →
  P (n + c * Z.of_nat (length l)) s'.
Proof.
  intros Hf. revert n s. induction l as [|a l IH]; intros n s Hs; cbn.
  - intros [= <-]. by replace (n + _) with n by lia.
  - destruct (f s a) as [s1| |] eqn:E; cbn; [|done..]. intros Ho.
    replace (n + _) with (n + c + c * Z.of_nat (length l)) by lia.
    eapply IH; [|exact Ho]. by eapply Hf.
Qed.

(** [while guard { body }], with fuel: enough of it gives the turns that [room]
    counts. *)
Section while.
Context {K : Type} (guard : K → bool) (body : K → outcome K).

Fixpoint while_loop (fuel : nat) (k : K) : outcome K :=
  if guard k then
    match fuel with O => Undef | S fuel => k ← body k; while_loop fuel k end
  else Ret k.

Context (P : K → Prop) (room : K → nat).

Lemma while_loop_inv fuel k k' :
  (∀ k k', P k → body k = Ret k' → P k') → P k → while_loop fuel k = Ret k' → P k'.
Proof.
  intros Hb. revert k. induction fuel as [|fuel IH]; intros k Hk; cbn [while_loop];
    destruct (guard k); try done; try by intros [= <-].
  destruct (body k) as [k1| |] eqn:E; cbn [mbind outcome_bind]; [|done..]. eauto.
Qed.

Context (Hguard : ∀ k, P k → guard k = bool_decide (room k ≠ 0%nat)).
Context (Hbody : ∀ k k', P k → room k ≠ 0%nat → body k = Ret k' → P k' ∧ room k = S (room k')).

Lemma while_loop_turns fuel k :
  P k → (room k ≤ fuel)%nat → while_loop fuel k = ofold (λ k _, body k) k (seq 0 (room k)).
Proof.
  generalize 0%nat at 1. revert k. induction fuel as [|fuel IH]; intros k i Hk Hf; cbn [while_loop];
    rewrite Hguard by done; case_bool_decide as Hr; [lia| | |];
    try by replace (room k) with 0%nat by lia.
  destruct (room k) as [|n] eqn:En; [done|]. cbn [seq ofold].
  destruct (body k) as [k1| |] eqn:E; cbn [mbind outcome_bind]; [|done..].
  destruct (Hbody k k1) as [Hk1 Hn]; [done|lia|done|]. rewrite En in Hn. injection Hn as ->.
  apply IH; [done|lia].
Qed.
End while.

Lemma chunks_fuel_enough {A} (f n : nat) (l : list A) :
  (0 < n)%nat → (length l ≤ f)%nat → chunks_fuel f n l = chunks_fuel (length l) n l.
Proof.
  intros Hn. revert l. induction f as [f IH] using lt_wf_ind. intros l Hl.
  destruct f as [|f]; [by destruct l; simpl in *; [|lia]|].
  destruct l as [|x l]; [done|]. cbn [chunks_fuel length] in *. f_equal.
  assert (length (drop n (x :: l)) ≤ length l)%nat by (rewrite length_drop; simpl; lia).
  rewrite (IH f) by lia. symmetry. apply IH; lia.
Qed.

Lemma chunks_fuel_app {A} (f n : nat) (k l : list A) :
  k ≠ [] → length k = n → chunks_fuel (S f) n (k ++ l) = k :: chunks_fuel f n l.
Proof.
  intros Hk <-. destruct k as [|x k]; [done|]. cbn [chunks_fuel app].
  change (x :: k ++ l) with ((x :: k) ++ l). by rewrite take_app_length, drop_app_length.
Qed.

Lemma len_concat {A} (ks : list (list A)) n :
  Forall (λ k, len k = n) ks → len (concat ks) = n * Z.of_nat (length ks).
Proof.
  induction 1 as [|k ks Hk _ IH]; cbn [concat length]; [by rewrite Z.mul_0_r|].
  rewrite len_app. lia.
Qed.

(** Pieces of the chunk size come back as the chunks. *)
Lemma chunks_concat {A} (ks : list (list A)) (rest : list A) (n : Z) :
  0 < n → Forall (λ k, len k = n) ks →
  ∃ more, chunks (concat ks ++ rest) n = Ret (ks ++ more) ∧ chunks rest n = Ret more.
Proof.
  intros Hn Hks. unfold chunks. rewrite !decide_True by done.
  eexists. split; [|done]. f_equal. induction Hks as [|k ks Hk _ IH]; [done|].
  unfold len in Hk. cbn [concat app]. rewrite <- (assoc_L (++)), <- IH.
  assert (length (k ++ concat ks ++ rest) = S (pred (length k) + length (concat ks ++ rest))) as ->
    by (rewrite length_app; lia).
  rewrite chunks_fuel_app by (destruct k; simpl in *; (done || lia)). f_equal.
  apply chunks_fuel_enough; lia.
Qed.

(** The first element that fails a decidable predicate. *)
Lemma first_failing {A} (P : A → Prop) `{∀ x, Decision (P x)} l :
  ¬ Forall P l → ∃ l1 x l2, l = l1 ++ x :: l2 ∧ Forall P l1 ∧ ¬ P x.
Proof.
  induction l as [|x l IH]; intros Hl; [by destruct Hl; constructor|].
  destruct (decide (P x)) as [Hx|Hx]; [|by exists [], x, l].
  destruct IH as (l1 & y & l2 & -> & Hl1 & Hy).
  { intros ?. apply Hl. by constructor. }
  exists (x :: l1), y, l2. by repeat constructor.
Qed.

#[export] Hint Resolve le_bytes_is_bytes wrap_range : kayak.
#[export] Hint Rewrite @le_bytes_length @length_app @length_take @length_drop
  @length_insert : kayak_len.
