(* ===== verification/Bits.v ===== *)
(** * Bits: generic bit-field algebra

    Reading and writing a [w]-bit field at position [sh] of a word.  The
    accessors of the network headers are instances of [bf_get]/[bf_set]. *)

From S2P Require Import Prelude.

Definition bf_mask (sh w : Z) : Z := Z.shiftl (Z.ones w) sh.

Definition bf_get (sh w x : Z) : Z := Z.land (Z.shiftr x sh) (Z.ones w).

Definition bf_set (sh w x v : Z) : Z :=
  Z.lor (Z.ldiff x (bf_mask sh w)) (Z.shiftl v sh).

(** ** Bits of in-range values *)

Lemma in_width_testbit w z n : 0 ≤ w → in_width w z → w ≤ n → Z.testbit z n = false.
Proof.
  intros Hw [H0 Hz] Hn. destruct (decide (z = 0)) as [->|Hnz]; [apply Z.bits_0|].
  apply Z.bits_above_log2; [done|]. assert (Z.log2 z < w); [|lia].
  apply Z.log2_lt_pow2; lia.
Qed.

Lemma testbit_in_width w z :
  0 ≤ w → 0 ≤ z → (∀ n, w ≤ n → Z.testbit z n = false) → in_width w z.
Proof.
  intros Hw Hz Hb. split; [done|].
  assert (z mod 2 ^ w = z) as <-; [|apply Z.mod_pos_bound; lia].
  apply Z.bits_inj'. intros n Hn. rewrite Z.testbit_mod_pow2 by lia.
  destruct (Z.ltb_spec n w); [done|]. by rewrite Hb by lia.
Qed.

Lemma bf_mask_testbit sh w n :
  0 ≤ sh → 0 ≤ w → 0 ≤ n →
  Z.testbit (bf_mask sh w) n = bool_decide (sh ≤ n < sh + w).
Proof.
  intros. unfold bf_mask. rewrite Z.shiftl_spec by done.
  destruct (decide (sh ≤ n)).
  - rewrite Z.testbit_ones by lia. case_bool_decide; lia.
  - rewrite Z.testbit_neg_r by lia. symmetry. apply bool_decide_eq_false_2. lia.
Qed.

Lemma shiftl_testbit sh v n : 0 ≤ n → n < sh → Z.testbit (Z.shiftl v sh) n = false.
Proof. intros. rewrite Z.shiftl_spec by done. apply Z.testbit_neg_r. lia. Qed.

Ltac bit_ext n :=
  apply Z.bits_inj'; intros n ?;
  rewrite ?Z.land_spec, ?Z.shiftr_spec, ?Z.lor_spec, ?Z.ldiff_spec,
    ?bf_mask_testbit, ?Z.testbit_ones by lia.

Lemma bf_get_set_same sh w x v :
  0 ≤ sh → 0 ≤ w → in_width w v → bf_get sh w (bf_set sh w x v) = v.
Proof.
  intros Hs Hw Hv. unfold bf_get, bf_set. bit_ext n.
  rewrite Z.shiftl_spec, Z.add_simpl_r by lia.
  destruct (Z.ltb_spec n w).
  - rewrite bool_decide_eq_true_2 by lia. cbn.
    rewrite andb_false_r, andb_true_r by done. destruct (Z.leb_spec 0 n); [|lia].
    by rewrite andb_true_r.
  - rewrite andb_false_r, andb_false_r. symmetry. by apply (in_width_testbit w).
Qed.

Lemma bf_get_set_other sh w sh' w' x v :
  0 ≤ sh → 0 ≤ w → 0 ≤ sh' → 0 ≤ w' → in_width w v →
  sh + w ≤ sh' ∨ sh' + w' ≤ sh →
  bf_get sh' w' (bf_set sh w x v) = bf_get sh' w' x.
Proof.
  intros Hs Hw Hs' Hw' Hv Hd. unfold bf_get, bf_set. bit_ext n.
  destruct (Z.ltb_spec n w'); [|by rewrite !andb_false_r].
  rewrite bool_decide_eq_false_2 by lia. cbn. rewrite andb_true_r.
  enough (Z.testbit (Z.shiftl v sh) (n + sh') = false) as -> by by rewrite orb_false_r.
  destruct Hd; [|by apply shiftl_testbit; lia].
  rewrite Z.shiftl_spec by lia. apply (in_width_testbit w); [lia|done|lia].
Qed.

Lemma bf_set_width n sh w x v :
  0 ≤ sh → 0 ≤ w → sh + w ≤ n → in_width n x → in_width w v →
  in_width n (bf_set sh w x v).
Proof.
  intros Hs Hw Hn Hx Hv. apply testbit_in_width; [lia| |].
  - unfold bf_set. apply Z.lor_nonneg. split.
    + apply Z.ldiff_nonneg. left. apply Hx.
    + apply Z.shiftl_nonneg. apply Hv.
  - intros k Hk. unfold bf_set.
    rewrite Z.lor_spec, Z.ldiff_spec, Z.shiftl_spec by lia.
    rewrite (in_width_testbit n x), (in_width_testbit w v) by (done || lia). done.
Qed.

Lemma bf_get_width sh w x : 0 ≤ w → in_width w (bf_get sh w x).
Proof. intros. unfold bf_get. rewrite Z.land_ones by done. by apply wrap_range. Qed.

(** The source's spellings of a field read: mask then shift. *)
Lemma mask_shift_get sh w x :
  0 ≤ sh → 0 ≤ w → Z.shiftr (Z.land x (bf_mask sh w)) sh = bf_get sh w x.
Proof.
  intros. unfold bf_get. bit_ext n.
  rewrite Z.land_spec, bf_mask_testbit by lia. f_equal.
  apply eq_bool_prop_intro. rewrite bool_decide_spec, Is_true_true. lia.
Qed.

Lemma wrap_get k sh w x : 0 ≤ w ≤ k → wrap k (bf_get sh w x) = bf_get sh w x.
Proof.
  intros. apply wrap_id. pose proof (bf_get_width sh w x ltac:(lia)) as [? ?].
  split; [done|]. eapply Z.lt_le_trans; [done|]. apply Z.pow_le_mono_r; lia.
Qed.

Lemma bf_get_full w x : 0 ≤ w → in_width w x → bf_get 0 w x = x.
Proof. intros. unfold bf_get. rewrite Z.shiftr_0_r, Z.land_ones by done. by apply wrap_id. Qed.

Lemma bf_set_full w x v : 0 ≤ w → in_width w x → in_width w v → bf_set 0 w x v = v.
Proof.
  intros Hw Hx Hv. rewrite <- (bf_get_full w) at 1 by (done || by apply bf_set_width).
  by apply bf_get_set_same.
Qed.

(** Clearing a field with [x & !mask] on [u32]. *)
Lemma land_not32 x m : in_width 32 x → Z.land x (Z.lxor m 0xffffffff) = Z.ldiff x m.
Proof.
  intros Hx. change 0xffffffff with (Z.ones 32).
  bit_ext n. rewrite Z.lxor_spec, Z.testbit_ones by lia.
  destruct (Z.leb_spec 0 n); [cbn|lia].
  destruct (Z.ltb_spec n 32); [by rewrite xorb_true_r|].
  by rewrite (in_width_testbit 32 x) by (done || lia).
Qed.

Lemma land_ones_id w v : 0 ≤ w → in_width w v → Z.land v (Z.ones w) = v.
Proof. intros. rewrite Z.land_ones by done. by apply wrap_id. Qed.

Lemma bf_get_testbit sh w x n :
  0 ≤ sh → 0 ≤ w →
  Z.testbit (bf_get sh w x) n = bool_decide (0 ≤ n < w) && Z.testbit x (n + sh).
Proof.
  intros. destruct (decide (0 ≤ n)).
  - unfold bf_get. rewrite Z.land_spec, Z.shiftr_spec, Z.testbit_ones by lia.
    rewrite andb_comm. f_equal. apply eq_bool_prop_intro.
    rewrite bool_decide_spec, Is_true_true. lia.
  - rewrite Z.testbit_neg_r, bool_decide_eq_false_2 by lia. done.
Qed.

(** A word is the join of its two halves. *)
Lemma bf_join h x :
  0 ≤ h → in_width (h + h) x → bf_set h h (bf_get 0 h x) (bf_get h h x) = x.
Proof.
  intros Hh Hx. unfold bf_set. bit_ext n.
  rewrite Z.shiftl_spec, !bf_get_testbit by lia.
  rewrite Z.add_0_r, Z.sub_add.
  repeat case_bool_decide; try lia; cbn; rewrite ?andb_true_r, ?orb_false_r; try done.
  symmetry. apply (in_width_testbit (h + h)); [lia|done|lia].
Qed.

Lemma in_width_le w w' x : 0 ≤ w ≤ w' → in_width w x → in_width w' x.
Proof.
  intros ? [? ?]. split; [done|]. eapply Z.lt_le_trans; [done|]. apply Z.pow_le_mono_r; lia.
Qed.

(** The source's spelling of the high half. *)
Lemma bf_get_high h x : 0 ≤ h → in_width (h + h) x → Z.shiftr x h = bf_get h h x.
Proof.
  intros Hh Hx. unfold bf_get. rewrite land_ones_id; [done|done|].
  rewrite Z.shiftr_div_pow2 by done. unfold in_width in *. rewrite Z.pow_add_r in Hx by done.
  pose proof (Z.pow_pos_nonneg 2 h). split.
  - apply Z.div_pos; lia.
  - apply Z.div_lt_upper_bound; lia.
Qed.

(** Joining a low half that needs no clearing. *)
Lemma bf_set_low h x v :
  0 ≤ h → in_width h x → Z.lor (Z.shiftl v h) x = bf_set h h x v.
Proof.
  intros Hh Hx. unfold bf_set. rewrite Z.lor_comm. f_equal.
  symmetry. apply Z.bits_inj'. intros n Hn.
  rewrite Z.ldiff_spec, bf_mask_testbit by lia.
  case_bool_decide; [|by rewrite andb_true_r].
  rewrite andb_false_r. symmetry. apply (in_width_testbit h); [lia|done|lia].
Qed.

(** Joining disjoint halves is addition. *)
Lemma lor_shifted k a b :
  0 ≤ k → in_width k a → Z.lor a (Z.shiftl b k) = a + 2 ^ k * b.
Proof.
  intros Hk Ha. assert (Z.land a (Z.shiftl b k) = 0) as Hl.
  { apply Z.bits_inj'. intros n Hn. rewrite Z.land_spec, Z.bits_0.
    destruct (Z.ltb_spec n k); [rewrite shiftl_testbit by lia; apply andb_false_r|].
    by rewrite (in_width_testbit k a). }
  rewrite <- Z.lxor_lor, <- Z.add_nocarry_lxor by done.
  rewrite Z.shiftl_mul_pow2 by done. lia.
Qed.
