(* ===== verification/Packed.v ===== *)
(** * Packed: [#[repr(C, packed)]] structures and the [EndOffset] trait

    Every header of the program is a packed structure of unsigned integers.
    [Packed T] gives the widths (in bytes) of its fields in declaration order;
    [encode] and [decode] are then the structure's memory image and the view
    that casting a pointer to [*mut T] gives of it.  [EndOffset]
    (net/framework/src/headers/mod.rs) is the interface the packet code uses,
    and [Follows T2 T1] is [T2: EndOffset<PreviousHeader = T1>]. *)

From S2P Require Import Prelude.

(** ** Packed structures *)

Class Packed (T : Type) := {
  layout : list nat;
  to_fields : T → list Z;
  of_fields : list Z → T;
}.

Arguments layout T {_}.

(** Little-endian memory image of fields of the given widths. *)
Fixpoint pack_fields (ws : list nat) (vs : list Z) : bytes :=
  match ws, vs with
  | w :: ws', v :: vs' => le_bytes w v ++ pack_fields ws' vs'
  | _, _ => []
  end.

Fixpoint unpack_fields (ws : list nat) (bs : bytes) : list Z :=
  match ws with
  | [] => []
  | w :: ws' => le_val (take w bs) :: unpack_fields ws' (drop w bs)
  end.

(** [std::mem::size_of::<T>()]. *)
Definition size_of (T : Type) `{Packed T} : Z := Z.of_nat (sum_list (layout T)).

Definition encode {T} `{Packed T} (x : T) : bytes :=
  pack_fields (layout T) (to_fields x).

Definition decode {T} `{Packed T} (bs : bytes) : T :=
  of_fields (unpack_fields (layout T) bs).

(** A value whose fields fit their declared widths. *)
Definition packed_ok {T} `{Packed T} (x : T) : Prop :=
  Forall2 (λ w v, in_width (8 * Z.of_nat w) v) (layout T) (to_fields x).

#[export] Instance packed_ok_dec {T} `{Packed T} (x : T) : Decision (packed_ok x).
Proof. unfold packed_ok. apply _. Defined.

Class PackedLaws (T : Type) `{Packed T} := {
  of_to_fields : ∀ x : T, packed_ok x → of_fields (to_fields x) = x;
  to_of_fields : ∀ l, length l = length (layout T) → to_fields (of_fields l) = l;
}.

(** ** The EndOffset trait *)

Class EndOffset (T : Type) `{Packed T} := {
  (** [fn offset(&self) -> usize] *)
  offset : T → Z;
  (** [fn size() -> usize] *)
  hsize : Z;
  (** [fn payload_size(&self, hint: usize) -> usize] *)
  payload_size : T → Z → Z;
}.

Arguments hsize T {_ _}.

(** [T2: EndOffset<PreviousHeader = T1>] *)
Class Follows (T2 T1 : Type) := follows {}.

(** The headers whose [offset] is their own size, unconditionally. *)
Class FixedOffset (T : Type) `{EndOffset T} := {
  offset_size : ∀ h : T, offset h = size_of T;
  hsize_size : hsize T = size_of T;
}.

(** ** Encoding lemmas *)

Lemma pack_fields_length ws vs :
  length ws = length vs → length (pack_fields ws vs) = sum_list ws.
Proof.
  revert vs. induction ws as [|w ws IH]; intros [|v vs] Hl; simpl in *; try done.
  rewrite length_app, le_bytes_length, IH by lia. done.
Qed.

Lemma pack_fields_bytes ws vs : is_bytes (pack_fields ws vs).
Proof.
  revert vs. induction ws as [|w ws IH]; intros [|v vs]; simpl; try constructor.
  apply Forall_app; split; [apply le_bytes_is_bytes | apply IH].
Qed.

Lemma unpack_pack ws vs :
  Forall2 (λ w v, in_width (8 * Z.of_nat w) v) ws vs →
  unpack_fields ws (pack_fields ws vs) = vs.
Proof.
  induction 1 as [|w v ws vs Hv _ IH]; [done|]. cbn [pack_fields unpack_fields].
  rewrite take_app_length' by by rewrite le_bytes_length.
  rewrite drop_app_length' by by rewrite le_bytes_length.
  rewrite IH, le_val_bytes, Z.mod_small by exact Hv. done.
Qed.

Lemma unpack_fields_length ws bs : length (unpack_fields ws bs) = length ws.
Proof. revert bs. induction ws; intros bs; simpl; auto. Qed.

Lemma pack_unpack ws bs :
  is_bytes bs → length bs = sum_list ws →
  pack_fields ws (unpack_fields ws bs) = bs.
Proof.
  revert bs. induction ws as [|w ws IH]; intros bs Hb Hl; cbn in *.
  - by destruct bs.
  - rewrite IH; [|by apply Forall_drop | rewrite length_drop; lia].
    assert (length (take w bs) = w) as Hw by (rewrite length_take; lia).
    rewrite <- Hw at 1. rewrite le_bytes_val by by apply Forall_take.
    apply take_drop.
Qed.

Lemma unpack_fields_ok ws bs :
  is_bytes bs → length bs = sum_list ws →
  Forall2 (λ w v, in_width (8 * Z.of_nat w) v) ws (unpack_fields ws bs).
Proof.
  revert bs. induction ws as [|w ws IH]; intros bs Hb Hl; cbn in *; constructor.
  - assert (len (take w bs) = Z.of_nat w) as <- by (unfold len; rewrite length_take; lia).
    apply le_val_range. by apply Forall_take.
  - apply IH; [by apply Forall_drop | rewrite length_drop; lia].
Qed.

Section packed.
Context {T : Type} `{PackedLaws T}.

Lemma packed_ok_length (x : T) : packed_ok x → length (layout T) = length (to_fields x).
Proof. apply Forall2_length. Qed.

Lemma encode_length (x : T) : packed_ok x → len (encode x) = size_of T.
Proof.
  intros Hx. unfold len, encode, size_of.
  by rewrite pack_fields_length by by apply packed_ok_length.
Qed.

Lemma encode_bytes (x : T) : is_bytes (encode x).
Proof. apply pack_fields_bytes. Qed.

Lemma decode_encode (x : T) : packed_ok x → decode (encode x) = x.
Proof.
  intros Hx. unfold decode, encode. rewrite unpack_pack by exact Hx.
  by apply of_to_fields.
Qed.

Lemma encode_decode bs :
  is_bytes bs → len bs = size_of T → encode (decode bs : T) = bs.
Proof.
  intros Hb Hl. unfold encode, decode.
  rewrite to_of_fields by by rewrite unpack_fields_length.
  apply pack_unpack; [done|]. unfold len, size_of in Hl. lia.
Qed.

Lemma decode_ok bs :
  is_bytes bs → len bs = size_of T → packed_ok (decode bs : T).
Proof.
  intros Hb Hl. unfold packed_ok, decode.
  rewrite to_of_fields by by rewrite unpack_fields_length.
  apply unpack_fields_ok; [done|]. unfold len, size_of in Hl. lia.
Qed.

Lemma size_of_nonneg : 0 ≤ size_of T.
Proof. unfold size_of. lia. Qed.
End packed.

#[export] Hint Resolve encode_bytes size_of_nonneg : kayak.

(** Discharges the [PackedLaws] of a record given by its field list. *)
Ltac packed_laws :=
  split;
  [ let x := fresh in let Hx := fresh in
    intros x Hx; destruct x; reflexivity
  | let l := fresh in let Hl := fresh in
    intros l Hl; cbn in Hl;
    repeat (destruct l as [|? l]; try discriminate Hl); reflexivity ].
