(* ===== verification/Headers.v ===== *)
(** * Headers: the Ethernet, IPv4 and UDP headers of the network framework

    Models net/framework/src/headers/{null_header,mac,ip,udp}.rs: the packed
    structures, their [EndOffset] instances and every accessor.  Multi-byte
    fields hold the raw native-endian load of the big-endian wire bytes, as in
    the source; the accessors convert with [from_be]/[to_be]. *)

From S2P Require Import Prelude Bits Packed.

(** ** Byte swapping: [u16::from_be]/[to_be] and [u32::from_be]/[to_be] on x86-64 *)

Definition bswap16 (x : Z) : Z :=
  Z.lor (Z.shiftl (Z.land x 0xff) 8) (Z.shiftr (Z.land x 0xff00) 8).

Definition bswap32 (x : Z) : Z :=
  Z.lor (Z.shiftl (bswap16 (Z.land x 0xffff)) 16) (bswap16 (Z.shiftr x 16)).

(** [!m] on [u32]. *)
Definition not32 (m : Z) : Z := Z.lxor m 0xffffffff.

(** ** NullHeader *)

Record NullHeader := mkNullHeader {}.

#[export] Instance NullHeader_packed : Packed NullHeader :=
  {| layout := []; to_fields _ := []; of_fields _ := mkNullHeader |}.

#[export] Instance NullHeader_endoffset : EndOffset NullHeader :=
  {| offset _ := 0; hsize := 0; payload_size _ hint := hint |}.

#[export] Instance NullHeader_follows : Follows NullHeader NullHeader := {}.

(** ** MacAddress and MacHeader *)

(** [addr: [u8; 6]] *)
Record MacAddress := mkMacAddress {
  addr0 : Z; addr1 : Z; addr2 : Z; addr3 : Z; addr4 : Z; addr5 : Z;
}.

Definition MacAddress_default : MacAddress := mkMacAddress 0 0 0 0 0 0.

Definition MacAddress_new_from_slice (slice : bytes) : outcome MacAddress :=
  match slice with
  | a :: b :: c :: d :: e :: f :: _ => Ret (mkMacAddress a b c d e f)
  | _ => Panic
  end.

Definition copy_address (_self other : MacAddress) : MacAddress := other.

Record MacHeader := mkMacHeader {
  mac_dst : MacAddress;
  mac_src : MacAddress;
  mac_etype : Z;
}.

Definition mac_fields (a : MacAddress) : list Z :=
  [addr0 a; addr1 a; addr2 a; addr3 a; addr4 a; addr5 a].

#[export] Instance MacHeader_packed : Packed MacHeader := {|
  layout := replicate 12 1%nat ++ [2%nat];
  to_fields h := mac_fields (mac_dst h) ++ mac_fields (mac_src h) ++ [mac_etype h];
  of_fields l :=
    let f i := nth i l 0 in
    mkMacHeader (mkMacAddress (f 0%nat) (f 1%nat) (f 2%nat) (f 3%nat) (f 4%nat) (f 5%nat))
      (mkMacAddress (f 6%nat) (f 7%nat) (f 8%nat) (f 9%nat) (f 10%nat) (f 11%nat))
      (f 12%nat);
|}.

Definition HDR_SIZE : Z := 14.

Definition HDR_SIZE_802_1Q : Z := HDR_SIZE + 4.

Definition HDR_SIZE_802_1AD : Z := HDR_SIZE_802_1Q + 4.

(** The [performance] feature is off in the build. *)
Definition MacHeader_offset (h : MacHeader) : Z :=
  if decide (mac_etype h = 0x8100) then HDR_SIZE_802_1Q
  else if decide (mac_etype h = 0x9100) then HDR_SIZE_802_1AD
  else HDR_SIZE.

#[export] Instance MacHeader_endoffset : EndOffset MacHeader := {|
  offset := MacHeader_offset;
  hsize := HDR_SIZE;
  payload_size h hint := wsub 64 hint (MacHeader_offset h);
|}.

#[export] Instance MacHeader_follows : Follows MacHeader NullHeader := {}.

Definition MacHeader_new : MacHeader := mkMacHeader MacAddress_default MacAddress_default 0.

Definition etype (h : MacHeader) : Z := bswap16 (mac_etype h).

Definition set_etype (h : MacHeader) (e : Z) : MacHeader :=
  mkMacHeader (mac_dst h) (mac_src h) (bswap16 e).

Definition swap_addresses (h : MacHeader) : MacHeader :=
  let src := copy_address MacAddress_default (mac_src h) in
  mkMacHeader (copy_address (mac_dst h) src) (copy_address (mac_src h) (mac_dst h))
    (mac_etype h).

Definition set_mac_src (h : MacHeader) (a : MacAddress) : MacHeader :=
  mkMacHeader (mac_dst h) (copy_address (mac_src h) a) (mac_etype h).

Definition set_mac_dst (h : MacHeader) (a : MacAddress) : MacHeader :=
  mkMacHeader (copy_address (mac_dst h) a) (mac_src h) (mac_etype h).

(** ** IpHeader *)

Record IpHeader := mkIpHeader {
  version_to_len : Z;
  id_to_foffset : Z;
  ttl_to_csum : Z;
  src_ip : Z;
  dst_ip : Z;
}.

#[export] Instance IpHeader_packed : Packed IpHeader := {|
  layout := [4; 4; 4; 4; 4]%nat;
  to_fields h := [version_to_len h; id_to_foffset h; ttl_to_csum h; src_ip h; dst_ip h];
  of_fields l :=
    let f i := nth i l 0 in
    mkIpHeader (f 0%nat) (f 1%nat) (f 2%nat) (f 3%nat) (f 4%nat);
|}.

Definition with_version_to_len (h : IpHeader) (v : Z) : IpHeader :=
  mkIpHeader v (id_to_foffset h) (ttl_to_csum h) (src_ip h) (dst_ip h).

Definition with_id_to_foffset (h : IpHeader) (v : Z) : IpHeader :=
  mkIpHeader (version_to_len h) v (ttl_to_csum h) (src_ip h) (dst_ip h).

Definition with_ttl_to_csum (h : IpHeader) (v : Z) : IpHeader :=
  mkIpHeader (version_to_len h) (id_to_foffset h) v (src_ip h) (dst_ip h).

Definition IpHeader_new : IpHeader := mkIpHeader 0 0 0 0 0.

Definition ip_src (h : IpHeader) : Z := bswap32 (src_ip h).

Definition set_ip_src (h : IpHeader) (src : Z) : IpHeader :=
  mkIpHeader (version_to_len h) (id_to_foffset h) (ttl_to_csum h) (bswap32 src) (dst_ip h).

Definition ip_dst (h : IpHeader) : Z := bswap32 (dst_ip h).

Definition set_ip_dst (h : IpHeader) (dst : Z) : IpHeader :=
  mkIpHeader (version_to_len h) (id_to_foffset h) (ttl_to_csum h) (src_ip h) (bswap32 dst).

Definition ttl (h : IpHeader) : Z := wrap 8 (Z.land (ttl_to_csum h) 0xff).

Definition set_ttl (h : IpHeader) (t : Z) : IpHeader :=
  let blanked := Z.land (ttl_to_csum h) (not32 0xff) in
  with_ttl_to_csum h (Z.lor blanked t).

Definition protocol (h : IpHeader) : Z :=
  wrap 8 (Z.shiftr (Z.land (ttl_to_csum h) 0xff00) 8).

Definition set_protocol (h : IpHeader) (p : Z) : IpHeader :=
  let blanked := Z.land (ttl_to_csum h) (not32 0xff00) in
  with_ttl_to_csum h (Z.lor blanked (Z.shiftl p 8)).

Definition ip_csum (h : IpHeader) : Z :=
  wrap 16 (Z.shiftr (Z.land (ttl_to_csum h) 0xffff0000) 16).

Definition set_ip_csum (h : IpHeader) (csum : Z) : IpHeader :=
  let blanked := Z.land (ttl_to_csum h) (not32 0xffff0000) in
  with_ttl_to_csum h (Z.lor blanked (Z.shiftl (bswap16 csum) 16)).

Definition ip_id (h : IpHeader) : Z :=
  bswap16 (wrap 16 (Z.land (id_to_foffset h) 0xffff)).

Definition set_ip_id (h : IpHeader) (id : Z) : IpHeader :=
  let blanked := Z.land (id_to_foffset h) (not32 0xffff) in
  with_id_to_foffset h (Z.lor blanked (bswap16 id)).

Definition ip_flags (h : IpHeader) : Z :=
  let flag_fragment := wrap 16 (Z.shiftr (id_to_foffset h) 21) in
  wrap 8 (Z.land flag_fragment 0x7).

Definition set_ip_flags (h : IpHeader) (flags : Z) : IpHeader :=
  with_id_to_foffset h
    (Z.lor (Z.land (id_to_foffset h) (not32 0x00e00000)) (Z.shiftl (Z.land flags 0x7) (16 + 5))).

Definition fragment_offset (h : IpHeader) : Z :=
  let flag_fragment := wrap 16 (Z.land (id_to_foffset h) 0xffff) in
  bswap16 (Z.shiftr (Z.land flag_fragment (Z.lxor 0xe 0xffff)) 3).

Definition set_fragment_offset (h : IpHeader) (off : Z) : IpHeader :=
  let id_to_offset_le := bswap32 (id_to_foffset h) in
  with_id_to_foffset h (bswap32 (Z.lor (Z.land id_to_offset_le (not32 0x1fff)) off)).

Definition version (h : IpHeader) : Z :=
  Z.shiftr (wrap 8 (Z.land (version_to_len h) 0xf0)) 4.

Definition set_version (h : IpHeader) (v : Z) : IpHeader :=
  with_version_to_len h
    (Z.lor (Z.land (version_to_len h) (not32 0xf0)) (Z.shiftl (Z.land v 0xf) 4)).

Definition ihl (h : IpHeader) : Z := wrap 8 (Z.land (version_to_len h) 0x0f).

Definition set_ihl (h : IpHeader) (i : Z) : IpHeader :=
  with_version_to_len h
    (Z.lor (Z.land (version_to_len h) (not32 0x0f)) (Z.land i 0x0f)).

Definition dscp (h : IpHeader) : Z :=
  wrap 8 (Z.shiftr (Z.land (version_to_len h) 0xfc00) 10).

Definition set_dscp (h : IpHeader) (d : Z) : IpHeader :=
  with_version_to_len h
    (Z.lor (Z.land (version_to_len h) (not32 0xfc00)) (Z.shiftl (Z.land d 0x3f) 10)).

Definition ecn (h : IpHeader) : Z :=
  wrap 8 (Z.shiftr (Z.land (version_to_len h) 0x0300) 8).

Definition set_ecn (h : IpHeader) (e : Z) : IpHeader :=
  with_version_to_len h
    (Z.lor (Z.land (version_to_len h) (not32 0x0300)) (Z.shiftl (Z.land e 0x03) 8)).

Definition ip_length (h : IpHeader) : Z :=
  bswap16 (wrap 16 (Z.shiftr (Z.land (version_to_len h) 0xffff0000) 16)).

Definition set_ip_length (h : IpHeader) (l : Z) : IpHeader :=
  with_version_to_len h
    (Z.lor (Z.land (version_to_len h) (not32 0xffff0000)) (Z.shiftl (bswap16 l) 16)).

Definition IpHeader_offset (h : IpHeader) : Z := ihl h * 4.

#[export] Instance IpHeader_endoffset : EndOffset IpHeader := {|
  offset := IpHeader_offset;
  hsize := 20;
  payload_size h _ := wsub 64 (ip_length h) (IpHeader_offset h);
|}.

#[export] Instance IpHeader_follows : Follows IpHeader MacHeader := {}.

(** ** UdpHeader *)

Record UdpHeader := mkUdpHeader {
  udp_src_port : Z;
  udp_dst_port : Z;
  udp_len : Z;
  udp_csum : Z;
}.

#[export] Instance UdpHeader_packed : Packed UdpHeader := {|
  layout := [2; 2; 2; 2]%nat;
  to_fields h := [udp_src_port h; udp_dst_port h; udp_len h; udp_csum h];
  of_fields l :=
    let f i := nth i l 0 in mkUdpHeader (f 0%nat) (f 1%nat) (f 2%nat) (f 3%nat);
|}.

Definition UdpHeader_new : UdpHeader := mkUdpHeader 0 0 0 0.

Definition src_port (h : UdpHeader) : Z := bswap16 (udp_src_port h).

Definition dst_port (h : UdpHeader) : Z := bswap16 (udp_dst_port h).

Definition set_src_port (h : UdpHeader) (p : Z) : UdpHeader :=
  mkUdpHeader (bswap16 p) (udp_dst_port h) (udp_len h) (udp_csum h).

Definition set_dst_port (h : UdpHeader) (p : Z) : UdpHeader :=
  mkUdpHeader (udp_src_port h) (bswap16 p) (udp_len h) (udp_csum h).

Definition udp_length (h : UdpHeader) : Z := bswap16 (udp_len h).

Definition set_udp_length (h : UdpHeader) (l : Z) : UdpHeader :=
  mkUdpHeader (udp_src_port h) (udp_dst_port h) (bswap16 l) (udp_csum h).

Definition udp_checksum (h : UdpHeader) : Z := bswap16 (udp_csum h).

Definition set_udp_checksum (h : UdpHeader) (c : Z) : UdpHeader :=
  mkUdpHeader (udp_src_port h) (udp_dst_port h) (udp_len h) (bswap16 c).

#[export] Instance UdpHeader_endoffset : EndOffset UdpHeader := {|
  offset _ := 8;
  hsize := 8;
  payload_size h _ := wsub 64 (udp_length h) 8;
|}.

#[export] Instance UdpHeader_follows : Follows UdpHeader IpHeader := {}.

(** ** The structures satisfy the packed-layout laws *)

#[export] Instance NullHeader_laws : PackedLaws NullHeader.
Proof. split; [by intros [] | by intros []]. Qed.

#[export] Instance MacHeader_laws : PackedLaws MacHeader.
Proof. split; [by intros [[] [] ?] _ |]. intros l Hl. cbn in Hl.
  repeat (destruct l as [|? l]; try discriminate Hl). done. Qed.

#[export] Instance IpHeader_laws : PackedLaws IpHeader.
Proof. packed_laws. Qed.

#[export] Instance UdpHeader_laws : PackedLaws UdpHeader.
Proof. packed_laws. Qed.

#[export] Instance NullHeader_fixed : FixedOffset NullHeader.
Proof. by split. Qed.

#[export] Instance UdpHeader_fixed : FixedOffset UdpHeader.
Proof. by split. Qed.

(** ** Byte swapping is an involution on its width *)

Lemma bswap16_get x :
  in_width 16 x → bswap16 x = bf_set 8 8 (bf_get 8 8 x) (bf_get 0 8 x).
Proof.
  intros Hx. unfold bswap16. change 0xff00 with (bf_mask 8 8).
  rewrite mask_shift_get by lia. change 0xff with (Z.ones 8).
  rewrite <- (Z.shiftr_0_r x) at 1. fold (bf_get 0 8 x).
  apply bf_set_low; [lia|]. by apply bf_get_width.
Qed.

Lemma bswap16_width x : in_width 16 x → in_width 16 (bswap16 x).
Proof.
  intros Hx. rewrite bswap16_get by done. apply bf_set_width; try lia; [|by apply bf_get_width].
  apply (in_width_le 8); [lia|]. by apply bf_get_width.
Qed.

Lemma bswap16_involutive x : in_width 16 x → bswap16 (bswap16 x) = x.
Proof.
  intros Hx. rewrite (bswap16_get (bswap16 x)) by by apply bswap16_width.
  rewrite (bswap16_get x) by done.
  rewrite bf_get_set_same by (try lia; by apply bf_get_width).
  rewrite bf_get_set_other by (try lia; by apply bf_get_width).
  rewrite (bf_get_full 8 (bf_get 8 8 x)) by (try lia; by apply bf_get_width).
  by apply (bf_join 8).
Qed.

Lemma bswap32_get x :
  in_width 32 x →
  bswap32 x = bf_set 16 16 (bswap16 (bf_get 16 16 x)) (bswap16 (bf_get 0 16 x)).
Proof.
  intros Hx. unfold bswap32. change 0xffff with (Z.ones 16).
  rewrite <- (Z.shiftr_0_r x) at 1. fold (bf_get 0 16 x).
  rewrite (bf_get_high 16) by done. apply bf_set_low; [lia|].
  by apply bswap16_width, bf_get_width.
Qed.

Lemma bswap32_width x : in_width 32 x → in_width 32 (bswap32 x).
Proof.
  intros Hx. rewrite bswap32_get by done.
  apply bf_set_width; try lia; [|by apply bswap16_width, bf_get_width].
  apply (in_width_le 16); [lia|]. by apply bswap16_width, bf_get_width.
Qed.

Lemma bswap32_involutive x : in_width 32 x → bswap32 (bswap32 x) = x.
Proof.
  intros Hx. pose proof (bswap32_width x Hx) as Hw.
  rewrite (bswap32_get (bswap32 x)) by done. rewrite (bswap32_get x) by done.
  rewrite bf_get_set_same by (try lia; by apply bswap16_width, bf_get_width).
  rewrite bf_get_set_other by (try lia; by apply bswap16_width, bf_get_width).
  rewrite (bf_get_full 16 (bswap16 _)) by (try lia; by apply bswap16_width, bf_get_width).
  rewrite !bswap16_involutive by by apply bf_get_width.
  by apply (bf_join 16).
Qed.

(** ** Lens laws of the IPv4 accessors

    The fields whose getter and setter agree; the checksum and the fragment
    offset are treated separately below. *)

Inductive IpField :=
| FVersion | FIhl | FDscp | FEcn | FLength | FId | FFlags | FTtl | FProtocol | FSrc | FDst.

#[export] Instance IpField_eq_dec : EqDecision IpField.
Proof. solve_decision. Defined.

Definition ip_get (f : IpField) : IpHeader → Z :=
  match f with
  | FVersion => version | FIhl => ihl | FDscp => dscp | FEcn => ecn
  | FLength => ip_length | FId => ip_id | FFlags => ip_flags | FTtl => ttl
  | FProtocol => protocol | FSrc => ip_src | FDst => ip_dst
  end.

Definition ip_set (f : IpField) : IpHeader → Z → IpHeader :=
  match f with
  | FVersion => set_version | FIhl => set_ihl | FDscp => set_dscp | FEcn => set_ecn
  | FLength => set_ip_length | FId => set_ip_id | FFlags => set_ip_flags
  | FTtl => set_ttl | FProtocol => set_protocol | FSrc => set_ip_src | FDst => set_ip_dst
  end.

Definition ip_width (f : IpField) : Z :=
  match f with
  | FVersion | FIhl => 4 | FDscp => 6 | FEcn => 2 | FLength | FId => 16 | FFlags => 3
  | FTtl | FProtocol => 8 | FSrc | FDst => 32
  end.

(** Where the field lives: word, shift, and the byte order of its contents. *)
Definition ip_word (f : IpField) (h : IpHeader) : Z :=
  match f with
  | FVersion | FIhl | FDscp | FEcn | FLength => version_to_len h
  | FId | FFlags => id_to_foffset h
  | FTtl | FProtocol => ttl_to_csum h
  | FSrc => src_ip h
  | FDst => dst_ip h
  end.

Definition ip_with (f : IpField) (h : IpHeader) (v : Z) : IpHeader :=
  match f with
  | FVersion | FIhl | FDscp | FEcn | FLength => with_version_to_len h v
  | FId | FFlags => with_id_to_foffset h v
  | FTtl | FProtocol => with_ttl_to_csum h v
  | FSrc => mkIpHeader (version_to_len h) (id_to_foffset h) (ttl_to_csum h) v (dst_ip h)
  | FDst => mkIpHeader (version_to_len h) (id_to_foffset h) (ttl_to_csum h) (src_ip h) v
  end.

Definition ip_shift (f : IpField) : Z :=
  match f with
  | FVersion => 4 | FIhl => 0 | FDscp => 10 | FEcn => 8 | FLength => 16
  | FId => 0 | FFlags => 21 | FTtl => 0 | FProtocol => 8 | FSrc | FDst => 0
  end.

Definition ip_conv (f : IpField) (v : Z) : Z :=
  match f with
  | FLength | FId => bswap16 v
  | FSrc | FDst => bswap32 v
  | _ => v
  end.

Lemma ip_ok_word f h : packed_ok h → in_width 32 (ip_word f h).
Proof.
  intros Hh. unfold packed_ok in Hh. cbn in Hh.
  repeat match goal with H : Forall2 _ (_ :: _) _ |- _ => inversion_clear H end.
  by destruct f.
Qed.

Lemma ip_with_ok f h v : packed_ok h → in_width 32 v → packed_ok (ip_with f h v).
Proof.
  intros Hh Hv. unfold packed_ok in *. cbn in *.
  repeat match goal with H : Forall2 _ (_ :: _) _ |- _ => inversion_clear H end.
  destruct f; cbn; repeat (constructor; [assumption|]); constructor.
Qed.

Lemma ip_conv_width f v : in_width (ip_width f) v → in_width (ip_width f) (ip_conv f v).
Proof. destruct f; cbn; try done; [apply bswap16_width.. | |]; apply bswap32_width. Qed.

Lemma ip_conv_involutive f v :
  in_width (ip_width f) v → ip_conv f (ip_conv f v) = v.
Proof.
  destruct f; cbn; try done; try apply bswap16_involutive; apply bswap32_involutive.
Qed.

Lemma ip_shift_bounds f : 0 ≤ ip_shift f ∧ 0 ≤ ip_width f ∧ ip_shift f + ip_width f ≤ 32.
Proof. destruct f; cbn; lia. Qed.

Lemma flags_get x : wrap 8 (Z.land (wrap 16 (Z.shiftr x 21)) 0x7) = bf_get 21 3 x.
Proof.
  change 0x7 with (Z.ones 3). transitivity (wrap 8 (bf_get 21 3 x)).
  - f_equal. unfold bf_get, wrap. rewrite <- Z.land_ones by lia.
    rewrite <- Z.land_assoc. done.
  - by apply wrap_get.
Qed.

Lemma ip_get_bf f h :
  packed_ok h →
  ip_get f h = ip_conv f (bf_get (ip_shift f) (ip_width f) (ip_word f h)).
Proof.
  intros Hh. pose proof (ip_ok_word f h Hh) as Hw.
  destruct f; cbn [ip_get ip_conv ip_shift ip_width ip_word] in *;
    unfold version, ihl, dscp, ecn, ip_length, ip_id, ip_flags, ttl, protocol, ip_src, ip_dst;
    try (rewrite bf_get_full by (done || lia); done);
    try apply flags_get;
    match goal with |- context [Z.land ?x ?m] =>
      first
        [ change m with (bf_mask 4 4) | change m with (bf_mask 0 4)
        | change m with (bf_mask 10 6) | change m with (bf_mask 8 2)
        | change m with (bf_mask 16 16) | change m with (bf_mask 0 16)
        | change m with (bf_mask 0 8) | change m with (bf_mask 8 8) ] end.
  all: try (rewrite mask_shift_get by lia; rewrite wrap_get by lia; done).
  all: try (rewrite <- (Z.shiftr_0_r (Z.land _ _)), mask_shift_get by lia;
            rewrite wrap_get by lia; done).
  rewrite wrap_id; [by rewrite mask_shift_get by lia|].
  apply testbit_in_width; [lia| |].
  - apply Z.land_nonneg. left. apply Hw.
  - intros n Hn. rewrite Z.land_spec, bf_mask_testbit by lia.
    rewrite bool_decide_eq_false_2 by lia. apply andb_false_r.
Qed.

Lemma ip_set_bf f h v :
  packed_ok h → in_width (ip_width f) v →
  ip_set f h v =
  ip_with f h (bf_set (ip_shift f) (ip_width f) (ip_word f h) (ip_conv f v)).
Proof.
  intros Hh Hv. pose proof (ip_ok_word f h Hh) as Hw.
  pose proof (ip_conv_width f v Hv) as Hc.
  destruct f; cbn [ip_set ip_conv ip_shift ip_width ip_word ip_with] in *;
    try (rewrite bf_set_full by (done || lia); done);
    unfold set_version, set_ihl, set_dscp, set_ecn, set_ip_length, set_ip_id,
      set_ip_flags, set_ttl, set_protocol, not32, bf_set;
    rewrite land_not32 by done; f_equal; f_equal; try done;
    rewrite ?Z.shiftl_0_r; try done; try f_equal;
    first [ apply (land_ones_id 4); [lia|done] | apply (land_ones_id 6); [lia|done]
          | apply (land_ones_id 2); [lia|done] | apply (land_ones_id 3); [lia|done] ].
Qed.

Lemma ip_set_ok f h v :
  packed_ok h → in_width (ip_width f) v → packed_ok (ip_set f h v).
Proof.
  intros Hh Hv. rewrite ip_set_bf by done. apply ip_with_ok; [done|].
  pose proof (ip_shift_bounds f) as (?&?&?).
  apply bf_set_width; auto using ip_ok_word, ip_conv_width.
Qed.

Lemma ip_word_with f h x : ip_word f (ip_with f h x) = x.
Proof. by destruct f. Qed.

Lemma ip_word_with_cases f g h x :
  f ≠ g →
  ip_word g (ip_with f h x) = ip_word g h ∨
  (ip_word g (ip_with f h x) = x ∧ ip_word g h = ip_word f h ∧
   (ip_shift f + ip_width f ≤ ip_shift g ∨ ip_shift g + ip_width g ≤ ip_shift f)).
Proof.
  destruct f, g; intros Hfg; try done; cbn; (by left) || (right; repeat split; lia).
Qed.

Lemma ip_get_set f h v :
  packed_ok h → in_width (ip_width f) v → ip_get f (ip_set f h v) = v.
Proof.
  intros Hh Hv. pose proof (ip_shift_bounds f) as (?&?&?).
  rewrite ip_get_bf by by apply ip_set_ok. rewrite ip_set_bf by done.
  rewrite ip_word_with, bf_get_set_same by auto using ip_conv_width.
  by apply ip_conv_involutive.
Qed.

Lemma ip_get_set_ne f g h v :
  f ≠ g → packed_ok h → in_width (ip_width f) v → ip_get g (ip_set f h v) = ip_get g h.
Proof.
  intros Hfg Hh Hv. pose proof (ip_shift_bounds f) as (?&?&?).
  pose proof (ip_shift_bounds g) as (?&?&?).
  rewrite !ip_get_bf by (done || by apply ip_set_ok). rewrite ip_set_bf by done.
  f_equal. destruct (ip_word_with_cases f g h
    (bf_set (ip_shift f) (ip_width f) (ip_word f h) (ip_conv f v)) Hfg)
    as [-> | (-> & Hgf & ?)]; [done|].
  rewrite Hgf. apply bf_get_set_other; auto using ip_conv_width.
Qed.

Lemma etype_set_etype h e : in_width 16 e → etype (set_etype h e) = e.
Proof. apply bswap16_involutive. Qed.

Lemma udp_length_set h l : in_width 16 l → udp_length (set_udp_length h l) = l.
Proof. apply bswap16_involutive. Qed.

(** ** Properties *)

(** the IPv4 accessors address disjoint fields (headers/ip.rs).  Setting a
    field of a header (any but checksum and fragment offset) to a value of the
    field's width gives a header that still fits its layout, from which the
    field's getter reads that value and every other field reads as before. *)
Theorem ip_fields_independent f h v :
  packed_ok h → in_width (ip_width f) v →
  packed_ok (ip_set f h v) ∧ ip_get f (ip_set f h v) = v ∧
  ∀ g, g ≠ f → ip_get g (ip_set f h v) = ip_get g h.
Proof.
  intros Hh Hv. split_and!; [by apply ip_set_ok|by apply ip_get_set|].
  intros g Hg. by apply ip_get_set_ne.
Qed.

Lemma ip_fields_independent_witness :
  packed_ok (ip_set FTtl (set_ip_src IpHeader_new 7) 64) ∧
  ip_get FTtl (ip_set FTtl (set_ip_src IpHeader_new 7) 64) = 64 ∧
  ∀ g, g ≠ FTtl → ip_get g (ip_set FTtl (set_ip_src IpHeader_new 7) 64) =
                  ip_get g (set_ip_src IpHeader_new 7).
Proof.
  apply (ip_fields_independent FTtl (set_ip_src IpHeader_new 7) 64);
    apply (bool_decide_eq_true_1 _); by vm_compute.
Defined.

(** the checksum and the fragment offset are not read back as written
    (headers/ip.rs [csum], [fragment_offset]).  [set_csum] stores the checksum
    in network order and [csum] does not convert it back, so its bytes come out
    swapped; [fragment_offset] looks at the half of the word that holds the
    identification, so an offset just set reads as a function of the
    identification alone. *)
Theorem csum_and_offset_not_read_back h v :
  packed_ok h → in_width 16 v →
  ip_csum (set_ip_csum h v) = bswap16 v ∧
  fragment_offset h = bswap16 (Z.shiftr (Z.land (bswap16 (ip_id h)) 0xfff1) 3).
Proof.
  intros Hh Hv. assert (in_width 32 (ttl_to_csum h) ∧ in_width 32 (id_to_foffset h)) as [Ht Hi].
  { exact (conj (ip_ok_word FTtl h Hh) (ip_ok_word FId h Hh)). }
  pose proof (bswap16_width v Hv) as Hb. split.
  - unfold ip_csum, set_ip_csum. cbn [ttl_to_csum with_ttl_to_csum]. unfold not32.
    rewrite land_not32 by done. change 0xffff0000 with (bf_mask 16 16).
    fold (bf_set 16 16 (ttl_to_csum h) (bswap16 v)).
    rewrite mask_shift_get by lia. rewrite bf_get_set_same by (done || lia). by apply wrap_id.
  - unfold fragment_offset, ip_id.
    rewrite bswap16_involutive by (apply wrap_range; lia). done.
Qed.

Lemma csum_and_offset_not_read_back_witness :
  ip_csum (set_ip_csum (set_ip_id IpHeader_new 0x1234) 0x00ff) = 0xff00 ∧
  fragment_offset (set_ip_id IpHeader_new 0x1234) =
    bswap16 (Z.shiftr (Z.land (bswap16 (ip_id (set_ip_id IpHeader_new 0x1234))) 0xfff1) 3).
Proof.
  apply (csum_and_offset_not_read_back (set_ip_id IpHeader_new 0x1234) 0x00ff);
    apply (bool_decide_eq_true_1 _); by vm_compute.
Defined.
