(* ===== verification/Packet.v ===== *)
(** * Packet: message buffers and typed packets

    Models net/framework/src/native/zcsi/mbuf.rs ([MBuf]) and
    net/framework/src/interface/packet.rs ([Packet<T, M>]).  A pointer into
    the buffer is its distance from [buf_addr]; a load or store outside the
    buffer, and a [copy_nonoverlapping] between overlapping ranges, is [Undef].
    [MBuf] fields that the program never touches (port, hash, timestamps, ...)
    are left out, and so are the metadata slots, which Kayak's packets
    ([EmptyMetadata]) do not use. *)

From S2P Require Import Prelude Packed Headers.

(** ** Raw memory *)

Definition mem_read (b : bytes) (a n : Z) : outcome bytes :=
  if decide (0 ≤ a ∧ 0 ≤ n ∧ a + n ≤ len b)
  then Ret (take (Z.to_nat n) (drop (Z.to_nat a) b))
  else Undef.

Definition mem_write (b : bytes) (a : Z) (bs : bytes) : outcome bytes :=
  if decide (0 ≤ a ∧ a + len bs ≤ len b)
  then Ret (take (Z.to_nat a) b ++ bs ++ drop (Z.to_nat a + length bs) b)
  else Undef.

(** [ptr::copy_nonoverlapping(src, dst, n)] inside one buffer. *)
Definition copy_within (b : bytes) (src dst n : Z) : outcome bytes :=
  if decide (n = 0 ∨ src + n ≤ dst ∨ dst + n ≤ src)
  then bs ← mem_read b src n; mem_write b dst bs
  else Undef.

(** ** MBuf *)

Record MBuf := mkMBuf {
  data_off : Z;
  refcnt : Z;
  pkt_len : Z;
  data_len : Z;
  buf : bytes;
}.

Definition with_buf (m : MBuf) (b : bytes) : MBuf :=
  mkMBuf (data_off m) (refcnt m) (pkt_len m) (data_len m) b.

Definition data_address (m : MBuf) (off : Z) : Z := data_off m + off.

Definition buf_len (m : MBuf) : Z := len (buf m).

Definition pkt_headroom (m : MBuf) : Z := data_off m.

Definition pkt_tailroom (m : MBuf) : Z :=
  (buf_len m -u64 data_off m) -u64 data_len m.

Definition add_data_beginning (m : MBuf) (l : Z) : Z * MBuf :=
  if decide (l > pkt_headroom m) then (0, m)
  else (l, mkMBuf (wsub 16 (data_off m) l) (refcnt m) (wadd 32 (pkt_len m) l)
             (wadd 16 (data_len m) l) (buf m)).

Definition add_data_end (m : MBuf) (l : Z) : Z * MBuf :=
  if decide (l > pkt_tailroom m) then (0, m)
  else (l, mkMBuf (data_off m) (refcnt m) (wadd 32 (pkt_len m) l)
             (wadd 16 (data_len m) l) (buf m)).

Definition remove_data_beginning (m : MBuf) (l : Z) : Z * MBuf :=
  if decide (l > data_len m) then (0, m)
  else (l, mkMBuf (wadd 16 (data_off m) l) (refcnt m) (wsub 32 (pkt_len m) l)
             (wsub 16 (data_len m) l) (buf m)).

Definition remove_data_end (m : MBuf) (l : Z) : Z * MBuf :=
  if decide (l > data_len m) then (0, m)
  else (l, mkMBuf (data_off m) (refcnt m) (wsub 32 (pkt_len m) l)
             (wsub 16 (data_len m) l) (buf m)).

Definition reference (m : MBuf) : MBuf :=
  mkMBuf (data_off m) (wadd 16 (refcnt m) 1) (pkt_len m) (data_len m) (buf m).

(** ** Packet *)

Record Packet (T : Type) := create_packet {
  mbuf : MBuf;
  header : Z;
  pkt_offset : Z;
}.

Arguments create_packet {_} _ _ _.
Arguments mbuf {_} _.
Arguments header {_} _.
Arguments pkt_offset {_} _.

Definition packet_from_mbuf_no_increment (T : Type) (m : MBuf) (off : Z) : Packet T :=
  create_packet m (data_address m off) off.

Definition packet_from_mbuf (T : Type) (m : MBuf) (off : Z) : Packet T :=
  packet_from_mbuf_no_increment T (reference m) off.

(** [new_packet], given the result of the native [mbuf_alloc]. *)
Definition new_packet (alloc : option MBuf) : option (Packet NullHeader) :=
  match alloc with
  | None => None
  | Some m => Some (packet_from_mbuf_no_increment NullHeader m 0)
  end.

Definition with_mbuf {T} (p : Packet T) (m : MBuf) : Packet T :=
  create_packet m (header p) (pkt_offset p).

Definition get_header {T} `{Packed T} (p : Packet T) : outcome T :=
  bs ← mem_read (buf (mbuf p)) (header p) (size_of T); Ret (decode bs).

(** A store through [get_mut_header()]; also [replace_header]. *)
Definition set_header {T} `{Packed T} (p : Packet T) (h : T) : outcome (Packet T) :=
  b ← mem_write (buf (mbuf p)) (header p) (encode h);
  Ret (with_mbuf p (with_buf (mbuf p) b)).

Definition modify_header {T} `{Packed T} (p : Packet T) (f : T → T) : outcome (Packet T) :=
  h ← get_header p; set_header p (f h).

Definition payload_offset {T} `{EndOffset T} (p : Packet T) : outcome Z :=
  h ← get_header p; Ret (offset h).

Definition payload {T} `{EndOffset T} (p : Packet T) : outcome Z :=
  o ← payload_offset p; Ret (header p + o).

Definition pkt_payload_size {T} `{EndOffset T} (p : Packet T) : outcome Z :=
  o ← payload_offset p; Ret ((data_len (mbuf p) -u64 pkt_offset p) -u64 o).

Definition get_payload {T} `{EndOffset T} (p : Packet T) : outcome bytes :=
  n ← pkt_payload_size p; a ← payload p; mem_read (buf (mbuf p)) a n.

Definition push_header {T T2} `{EndOffset T} `{EndOffset T2} `{!Follows T2 T}
    (p : Packet T) (hdr : T2) : outcome (option (Packet T2)) :=
  let l := data_len (mbuf p) in
  let size := offset hdr in
  let '(added, m) := add_data_end (mbuf p) size in
  po ← payload_offset p;
  let off := wadd 64 (pkt_offset p) po in
  if decide (added >= size) then
    dst ← payload p;
    b ← (if decide (l ≠ off) then copy_within (buf m) dst (dst + size) (l -u64 off)
         else Ret (buf m));
    b' ← mem_write b dst (encode hdr);
    Ret (Some (create_packet (with_buf m b') dst off))
  else Ret None.

(** The [bool] is [Ok]/[Err]. *)
Definition remove_from_payload_head {T} (p : Packet T) (size : Z) : outcome (bool * Packet T) :=
  let src := data_address (mbuf p) 0 in
  b ← copy_within (buf (mbuf p)) src (src + size) size;
  let '(_, m) := remove_data_beginning (with_buf (mbuf p) b) size in
  Ret (true, with_mbuf p m).

Definition add_to_payload_head {T} `{EndOffset T} (p : Packet T) (size : Z) :
    outcome (bool * Packet T) :=
  let '(added, m) := add_data_end (mbuf p) size in
  if decide (added >= size) then
    src ← payload p;
    b ← copy_within (buf m) src (src + size) size;
    Ret (true, with_mbuf p (with_buf m b))
  else Ret (false, with_mbuf p m).

Definition remove_from_payload_tail {T} (p : Packet T) (size : Z) : outcome (bool * Packet T) :=
  let '(_, m) := remove_data_end (mbuf p) size in
  Ret (true, with_mbuf p m).

(** [&data[0]] panics on an empty slice; reading more than [data] holds is
    undefined. *)
Definition add_to_payload_tail {T} `{EndOffset T} (p : Packet T) (size : Z) (data : bytes) :
    outcome (bool * Packet T) :=
  pl ← get_payload p;
  let end_ := len pl in
  let '(added, m) := add_data_end (mbuf p) size in
  if decide (added >= size) then
    _ ← expect (data !! 0%nat);
    dst ← payload p;
    bs ← mem_read data 0 size;
    b ← mem_write (buf m) (dst + end_) bs;
    Ret (true, with_mbuf p (with_buf m b))
  else Ret (false, with_mbuf p m).

Definition write_header {T T2} `{EndOffset T} `{Packed T2} (p : Packet T) (h : T2) (off : Z) :
    outcome (bool * Packet T) :=
  n ← pkt_payload_size p;
  if decide (off > n) then Ret (false, p)
  else
    dst ← payload p;
    b ← mem_write (buf (mbuf p)) (dst + off) (encode h);
    Ret (true, with_mbuf p (with_buf (mbuf p) b)).

Definition parse_header {T} (T2 : Type) `{EndOffset T} `{EndOffset T2} `{!Follows T2 T}
    (p : Packet T) : outcome (Packet T2) :=
  n ← pkt_payload_size p;
  _ ← assert_ (n >= hsize T2);
  hdr ← payload p;
  po ← payload_offset p;
  Ret (create_packet (mbuf p) hdr (wadd 64 (pkt_offset p) po)).

Definition deparse_header {T2} (T : Type) `{!Follows T2 T} (p : Packet T2) (off : Z) : Packet T :=
  create_packet (mbuf p) (header p - off) (pkt_offset p -u64 off).

Definition reset {T} (p : Packet T) : Packet NullHeader :=
  create_packet (mbuf p) (data_address (mbuf p) 0) 0.

Definition increase_payload_size {T} (p : Packet T) (by_ : Z) : Z * Packet T :=
  let '(n, m) := add_data_end (mbuf p) by_ in (n, with_mbuf p m).

Definition trim_payload_size {T} (p : Packet T) (by_ : Z) : Z * Packet T :=
  let '(n, m) := remove_data_end (mbuf p) by_ in (n, with_mbuf p m).

(** ** The abstract view of a packet

    [pkt_rep p room pre h pl tail]: the buffer of [p] is the unused head room,
    the headers already parsed or pushed, the current header [h], its payload
    [pl] and the unused tail room, and the packet's cursors point at [h]. *)

Record pkt_rep {T} `{EndOffset T} (p : Packet T) (room pre : bytes) (h : T)
    (pl tail : bytes) : Prop := mk_pkt_rep {
  rep_buf : buf (mbuf p) = room ++ pre ++ encode h ++ pl ++ tail;
  rep_data_off : data_off (mbuf p) = len room;
  rep_data_len : data_len (mbuf p) = len pre + size_of T + len pl;
  rep_pkt_offset : pkt_offset p = len pre;
  rep_header : header p = len room + len pre;
  rep_ok : packed_ok h;
  rep_offset : offset h = size_of T;
  rep_bytes : is_bytes (buf (mbuf p));
  rep_cap : in_width 16 (buf_len (mbuf p));
}.

(** ** Memory lemmas *)

Lemma mem_read_app b1 b2 b3 a n :
  a = len b1 → n = len b2 → mem_read (b1 ++ b2 ++ b3) a n = Ret b2.
Proof.
  intros -> ->. unfold mem_read. rewrite !len_app.
  pose proof (len_nonneg b1). pose proof (len_nonneg b2). pose proof (len_nonneg b3).
  rewrite decide_True by lia. unfold len. rewrite !Nat2Z.id.
  by rewrite drop_app_length, take_app_length.
Qed.

Lemma mem_write_app b1 b2 b3 bs a :
  a = len b1 → length bs = length b2 →
  mem_write (b1 ++ b2 ++ b3) a bs = Ret (b1 ++ bs ++ b3).
Proof.
  intros -> Hl. unfold mem_write. rewrite !len_app.
  pose proof (len_nonneg b1). pose proof (len_nonneg b3).
  assert (len bs = len b2) as Hbs by (unfold len; lia).
  rewrite decide_True by lia. unfold len. rewrite !Nat2Z.id, take_app_length.
  by rewrite <- drop_drop, drop_app_length, Hl, drop_app_length.
Qed.

Lemma add_data_end_ok m l :
  0 ≤ l → 0 ≤ data_off m → 0 ≤ data_len m →
  data_off m + data_len m + l ≤ buf_len m → in_width 16 (buf_len m) →
  add_data_end m l =
    (l, mkMBuf (data_off m) (refcnt m) (wadd 32 (pkt_len m) l) (data_len m + l) (buf m)).
Proof.
  intros Hl Ho Hd Hb Hc. unfold in_width in Hc. unfold add_data_end, pkt_tailroom.
  rewrite (wsub_id 64 (buf_len m)) by (unfold in_width; lia).
  rewrite wsub_id by (unfold in_width; lia).
  rewrite decide_False by lia. rewrite (wadd_id 16) by (unfold in_width; lia). done.
Qed.

Lemma add_data_end_full m l :
  0 ≤ data_off m → 0 ≤ data_len m → data_off m + data_len m ≤ buf_len m →
  in_width 16 (buf_len m) → buf_len m < data_off m + data_len m + l →
  add_data_end m l = (0, m).
Proof.
  intros Ho Hd Hb Hc Hl. unfold in_width in Hc. unfold add_data_end, pkt_tailroom.
  rewrite (wsub_id 64 (buf_len m)) by (unfold in_width; lia).
  rewrite wsub_id by (unfold in_width; lia). by rewrite decide_True by lia.
Qed.

(** ** Operations on represented packets *)

Section rep.
Context {T : Type} `{EndOffset T} `{!PackedLaws T}.
Implicit Types (p : Packet T) (room pre pl tail : bytes) (h : T).

Lemma rep_fits p room pre h pl tail :
  pkt_rep p room pre h pl tail →
  buf_len (mbuf p) = data_off (mbuf p) + data_len (mbuf p) + len tail.
Proof.
  intros [Hb Ho Hl _ _ Hk _ _ _]. unfold buf_len. rewrite Hb, !len_app.
  rewrite encode_length by done. lia.
Qed.

Lemma rep_get_header p room pre h pl tail :
  pkt_rep p room pre h pl tail → get_header p = Ret h.
Proof.
  intros [Hb _ _ _ Hh Hk _ _ _]. unfold get_header. rewrite Hb, Hh, (assoc_L (++)).
  rewrite mem_read_app by (rewrite ?len_app, ?encode_length by done; done).
  cbn. by rewrite decode_encode.
Qed.

Lemma rep_payload_offset p room pre h pl tail :
  pkt_rep p room pre h pl tail → payload_offset p = Ret (size_of T).
Proof.
  intros Hp. unfold payload_offset. rewrite (rep_get_header _ _ _ _ _ _ Hp). cbn.
  by rewrite (rep_offset _ _ _ _ _ _ Hp).
Qed.

Lemma rep_payload p room pre h pl tail :
  pkt_rep p room pre h pl tail →
  payload p = Ret (len room + len pre + size_of T).
Proof.
  intros Hp. unfold payload. rewrite (rep_payload_offset _ _ _ _ _ _ Hp). cbn.
  by rewrite (rep_header _ _ _ _ _ _ Hp).
Qed.

Lemma rep_payload_size p room pre h pl tail :
  pkt_rep p room pre h pl tail → pkt_payload_size p = Ret (len pl).
Proof.
  intros Hp. pose proof (rep_fits _ _ _ _ _ _ Hp) as Hf.
  unfold pkt_payload_size. rewrite (rep_payload_offset _ _ _ _ _ _ Hp). cbn. f_equal.
  destruct Hp as [_ Ho Hl Hpo _ _ _ _ Hc]. rewrite Hl, Hpo.
  pose proof (len_nonneg pre). pose proof (len_nonneg pl). pose proof (size_of_nonneg (T:=T)).
  pose proof (len_nonneg room). pose proof (len_nonneg tail). unfold in_width in Hc.
  rewrite (wsub_id 64 (_ + _)) by (unfold in_width; lia).
  rewrite wsub_id by (unfold in_width; lia). lia.
Qed.

Lemma rep_get_payload p room pre h pl tail :
  pkt_rep p room pre h pl tail → get_payload p = Ret pl.
Proof.
  intros Hp. unfold get_payload.
  rewrite (rep_payload_size _ _ _ _ _ _ Hp). cbn.
  rewrite (rep_payload _ _ _ _ _ _ Hp). cbn.
  destruct Hp as [Hb _ _ _ _ Hk _ _ _]. rewrite Hb.
  replace (room ++ pre ++ encode h ++ pl ++ tail)
    with ((room ++ pre ++ encode h) ++ pl ++ tail) by by rewrite <- !(assoc_L (++)).
  apply mem_read_app; [|done].
  rewrite !len_app, encode_length by done. lia.
Qed.

Lemma rep_payload_bytes p room pre h pl tail :
  pkt_rep p room pre h pl tail → is_bytes pl ∧ is_bytes tail.
Proof.
  intros [Hb _ _ _ _ _ _ Hy _]. rewrite Hb in Hy.
  rewrite !is_bytes_app in Hy. by destruct Hy as (_&_&_&?&?).
Qed.

(** Writing a new header value in place. *)
Lemma rep_set_header p room pre h h' pl tail :
  pkt_rep p room pre h pl tail → packed_ok h' → offset h' = size_of T →
  ∃ p', set_header p h' = Ret p' ∧ pkt_rep p' room pre h' pl tail.
Proof.
  intros [Hb Ho Hl Hpo Hh Hk Hs Hy Hc] Hk' Hs'. unfold set_header.
  rewrite Hb, Hh, (assoc_L (++)).
  assert (length (encode h') = length (encode h)) as Hle.
  { pose proof (encode_length h Hk). pose proof (encode_length h' Hk'). unfold len in *. lia. }
  rewrite mem_write_app by (rewrite ?len_app; done). cbn.
  eexists. split; [done|]. split; cbn; try done.
  - by rewrite <- (assoc_L (++)).
  - rewrite Hb in Hy. rewrite !is_bytes_app in *.
    pose proof (encode_bytes h'). tauto.
  - unfold buf_len in *. cbn. rewrite Hb in Hc. rewrite !len_app in *.
    unfold len in *. rewrite Hle. unfold in_width in *. lia.
Qed.

Lemma rep_modify_header p room pre h (f : T → T) pl tail :
  pkt_rep p room pre h pl tail → packed_ok (f h) → offset (f h) = size_of T →
  ∃ p', modify_header p f = Ret p' ∧ pkt_rep p' room pre (f h) pl tail.
Proof.
  intros Hp Hk Hs. unfold modify_header. rewrite (rep_get_header _ _ _ _ _ _ Hp). cbn.
  eauto using rep_set_header.
Qed.

(** Appending to the payload while the tail room lasts. *)
Lemma rep_add_tail p room pre h pl data rest :
  data ≠ [] → is_bytes data →
  ∀ tail, pkt_rep p room pre h pl tail → drop (length data) tail = rest →
  len data ≤ len tail →
  ∃ p', add_to_payload_tail p (len data) data = Ret (true, p') ∧
        pkt_rep p' room pre h (pl ++ data) rest.
Proof.
  intros Hne Hd tail Hp Hrest Hle. pose proof (rep_fits _ _ _ _ _ _ Hp) as Hf.
  unfold add_to_payload_tail.
  rewrite (rep_get_payload _ _ _ _ _ _ Hp). cbn [mbind outcome_bind].
  rewrite (rep_payload _ _ _ _ _ _ Hp).
  destruct Hp as [Hb Ho Hl Hpo Hh Hk Hs Hy Hc].
  pose proof (len_nonneg pre). pose proof (len_nonneg pl). pose proof (size_of_nonneg (T:=T)).
  pose proof (len_nonneg room). pose proof (len_nonneg data).
  rewrite add_data_end_ok by (done || lia).
  rewrite decide_True by lia. destruct data as [|d data]; [done|]. cbn [lookup list_lookup expect mbind outcome_bind].
  assert (mem_read (d :: data) 0 (len (d :: data)) = Ret (d :: data)) as ->.
  { pose proof (mem_read_app [] (d :: data) [] 0 (len (d :: data)) eq_refl eq_refl) as Hr.
    rewrite app_nil_l, app_nil_r in Hr. done. }
  cbn [mbind outcome_bind]. cbn [buf]. rewrite Hb.
  rewrite <- (take_drop (length (d :: data)) tail), Hrest.
  assert (∀ mid, room ++ pre ++ encode h ++ pl ++ mid ++ rest
    = (room ++ pre ++ encode h ++ pl) ++ mid ++ rest) as Hassoc.
  { intros. by rewrite <- !(assoc_L (++)). }
  rewrite Hassoc, mem_write_app.
  - cbn [mbind outcome_bind]. eexists. split; [done|]. split; cbn [mbuf with_mbuf with_buf buf data_off data_len
      header pkt_offset]; try done.
    + by rewrite <- !(assoc_L (++)).
    + rewrite Hl, len_app. lia.
    + rewrite Hb, <- (take_drop (length (d :: data)) tail), Hrest in Hy.
      rewrite !is_bytes_app in *. tauto.
    + unfold buf_len in *. cbn [buf with_buf]. rewrite Hb in Hc.
      rewrite <- (take_drop (length (d :: data)) tail), Hrest in Hc.
      rewrite !len_app in *. unfold len in *. rewrite length_take in Hc.
      rewrite Nat.min_l in Hc by lia. unfold in_width in *. lia.
  - rewrite !len_app, encode_length by done. lia.
  - unfold len in Hle. rewrite length_take. lia.
Qed.

(** When the tail room is exhausted nothing changes and [Err] is returned. *)
Lemma rep_add_tail_full p room pre h pl tail data :
  pkt_rep p room pre h pl tail → len tail < len data →
  add_to_payload_tail p (len data) data = Ret (false, p).
Proof.
  intros Hp Hlt. pose proof (rep_fits _ _ _ _ _ _ Hp) as Hf.
  unfold add_to_payload_tail.
  rewrite (rep_get_payload _ _ _ _ _ _ Hp). cbn [mbind outcome_bind].
  destruct Hp as [Hb Ho Hl Hpo Hh Hk Hs Hy Hc].
  pose proof (len_nonneg pre). pose proof (len_nonneg pl). pose proof (size_of_nonneg (T:=T)).
  pose proof (len_nonneg room). pose proof (len_nonneg tail).
  rewrite add_data_end_full by (done || lia).
  rewrite decide_False by lia. destruct p as [[]]; done.
Qed.

(** Appending nothing panics: the first byte is looked at. *)
Lemma rep_add_nothing p room pre h pl tail :
  pkt_rep p room pre h pl tail → add_to_payload_tail p 0 [] = Panic.
Proof.
  intros Hp. pose proof (rep_fits _ _ _ _ _ _ Hp) as Hf. unfold add_to_payload_tail.
  rewrite (rep_get_payload _ _ _ _ _ _ Hp). cbn [mbind outcome_bind].
  destruct Hp as [Hb Ho Hl Hpo Hh Hk Hs Hy Hc].
  pose proof (len_nonneg tail). pose proof (len_nonneg pl). pose proof (len_nonneg pre).
  pose proof (len_nonneg room). pose proof (size_of_nonneg (T:=T)).
  rewrite add_data_end_ok by (done || lia). by rewrite decide_True by lia.
Qed.

(** Dropping the whole payload. *)
Lemma rep_clear_payload p room pre h pl tail :
  pkt_rep p room pre h pl tail →
  ∃ p', remove_from_payload_tail p (len pl) = Ret (true, p') ∧
        pkt_rep p' room pre h [] (pl ++ tail).
Proof.
  intros Hp. pose proof (rep_fits _ _ _ _ _ _ Hp) as Hf.
  destruct Hp as [Hb Ho Hl Hpo Hh Hk Hs Hy Hc].
  pose proof (len_nonneg pre). pose proof (len_nonneg pl). pose proof (size_of_nonneg (T:=T)).
  pose proof (len_nonneg room). pose proof (len_nonneg tail). unfold in_width in Hc.
  unfold remove_from_payload_tail, remove_data_end. rewrite decide_False by lia.
  eexists. split; [done|]. split; cbn; try done.
  rewrite wsub_id by (unfold in_width; lia). unfold len in *. cbn [length]. lia.
Qed.
End rep.

Section rep2.
Context {T T2 : Type} `{EndOffset T} `{!PackedLaws T} `{EndOffset T2} `{!PackedLaws T2}.
Context `{!Follows T2 T}.
Implicit Types (p : Packet T) (room pre pl tail : bytes).

Lemma sub_assoc_rep room pre (h : T) (h2 : T2) pl tail :
  room ++ pre ++ encode h ++ (encode h2 ++ pl) ++ tail =
  room ++ (pre ++ encode h) ++ encode h2 ++ pl ++ tail.
Proof. by rewrite <- !(assoc_L (++)). Qed.

(** Pushing a header onto a packet whose payload is still empty. *)
Lemma rep_push_header p room pre (h : T) (h2 : T2) tail :
  pkt_rep p room pre h [] tail → packed_ok h2 → offset h2 = size_of T2 →
  size_of T2 ≤ len tail →
  ∃ q, push_header p h2 = Ret (Some q) ∧
       pkt_rep q room (pre ++ encode h) h2 [] (drop (Z.to_nat (size_of T2)) tail).
Proof.
  intros Hp Hk2 Hs2 Hle. pose proof (rep_fits _ _ _ _ _ _ Hp) as Hf.
  unfold push_header.
  rewrite (rep_payload_offset _ _ _ _ _ _ Hp), (rep_payload _ _ _ _ _ _ Hp).
  destruct Hp as [Hb Ho Hl Hpo Hh Hk Hs Hy Hc].
  pose proof (len_nonneg pre). pose proof (size_of_nonneg (T:=T)).
  pose proof (size_of_nonneg (T:=T2)). pose proof (len_nonneg room).
  change (len []) with 0 in Hl. unfold in_width in Hc.
  rewrite Hs2, add_data_end_ok by (unfold in_width; lia).
  cbn [mbind outcome_bind].
  rewrite decide_True by lia. rewrite Hpo, (wadd_id 64) by (unfold in_width; lia).
  rewrite decide_False by lia. cbn [mbind outcome_bind buf].
  set (n := Z.to_nat (size_of T2)).
  pose proof (encode_length h Hk) as Hek. pose proof (encode_length h2 Hk2) as Hek2.
  assert (length (take n tail) = length (encode h2)) as Ht.
  { rewrite length_take. unfold len in *. lia. }
  rewrite Hb, app_nil_l, <- (take_drop n tail).
  replace (room ++ pre ++ encode h ++ take n tail ++ drop n tail)
    with ((room ++ pre ++ encode h) ++ take n tail ++ drop n tail)
    by by rewrite <- !(assoc_L (++)).
  rewrite mem_write_app; [|rewrite !len_app; lia|done].
  cbn [mbind outcome_bind]. eexists. split; [done|].
  assert (drop n (take n tail ++ drop n tail) = drop n tail) as Hd by by rewrite take_drop.
  rewrite Hd. split; cbn [mbuf with_buf buf data_off data_len header pkt_offset]; try done.
  - rewrite app_nil_l. by rewrite <- !(assoc_L (++)).
  - rewrite !len_app, Hl. change (len []) with 0. lia.
  - rewrite !len_app. lia.
  - rewrite !len_app. lia.
  - rewrite Hb, app_nil_l, <- (take_drop n tail) in Hy. rewrite !is_bytes_app in *.
    pose proof (encode_bytes h2). tauto.
  - unfold buf_len in *. cbn [buf with_buf] in *.
    rewrite Hb, app_nil_l, <- (take_drop n tail) in Hc. rewrite !len_app in *.
    unfold len in *. rewrite Ht in Hc. unfold in_width. lia.
Qed.

(** Parsing the next header off the payload. *)
Lemma rep_parse_header p room pre (h : T) (h2 : T2) pl tail :
  pkt_rep p room pre h (encode h2 ++ pl) tail → packed_ok h2 →
  offset h2 = size_of T2 → hsize T2 = size_of T2 →
  ∃ q, parse_header T2 p = Ret q ∧ pkt_rep q room (pre ++ encode h) h2 pl tail.
Proof.
  intros Hp Hk2 Hs2 Hh2. pose proof (rep_fits _ _ _ _ _ _ Hp) as Hf.
  unfold parse_header. rewrite (rep_payload_size _ _ _ _ _ _ Hp).
  rewrite (rep_payload_offset _ _ _ _ _ _ Hp), (rep_payload _ _ _ _ _ _ Hp).
  destruct Hp as [Hb Ho Hl Hpo Hh Hk Hs Hy Hc].
  pose proof (len_nonneg pre). pose proof (size_of_nonneg (T:=T)). pose proof (len_nonneg pl).
  pose proof (size_of_nonneg (T:=T2)). pose proof (len_nonneg room). pose proof (len_nonneg tail).
  pose proof (encode_length h Hk) as Hek. pose proof (encode_length h2 Hk2) as Hek2.
  rewrite len_app in *. unfold in_width in Hc.
  cbn [mbind outcome_bind]. unfold assert_. rewrite decide_True by lia.
  cbn [mbind outcome_bind]. eexists. split; [done|].
  split; cbn [mbuf header pkt_offset]; rewrite ?len_app; try done; try lia.
  - rewrite Hb. apply sub_assoc_rep.
  - rewrite (wadd_id 64) by (unfold in_width; lia). lia.
Qed.

(** Stepping back to the previous header. *)
Lemma rep_deparse_header (q : Packet T2) room pre (h : T) (h2 : T2) pl tail off :
  pkt_rep q room (pre ++ encode h) h2 pl tail → packed_ok h → offset h = size_of T →
  off = size_of T →
  pkt_rep (deparse_header T q off) room pre h (encode h2 ++ pl) tail.
Proof.
  intros Hq Hk Hs ->. pose proof (rep_fits _ _ _ _ _ _ Hq) as Hf.
  destruct Hq as [Hb Ho Hl Hpo Hh Hk2 Hs2 Hy Hc].
  pose proof (encode_length h Hk) as Hek. pose proof (encode_length h2 Hk2) as Hek2.
  pose proof (len_nonneg pre). pose proof (size_of_nonneg (T:=T)). pose proof (len_nonneg pl).
  pose proof (size_of_nonneg (T:=T2)). pose proof (len_nonneg room). pose proof (len_nonneg tail).
  rewrite !len_app in *. unfold in_width in Hc.
  split; cbn [mbuf header pkt_offset deparse_header]; rewrite ?len_app; try done; try lia.
  - rewrite Hb. symmetry. apply sub_assoc_rep.
  - rewrite wsub_id by (unfold in_width; lia). lia.
Qed.

(** A request that is too short for the header makes the parser panic. *)
Lemma rep_parse_header_short p room pre (h : T) pl tail :
  pkt_rep p room pre h pl tail → len pl < hsize T2 → parse_header T2 p = Panic.
Proof.
  intros Hp Hlt. unfold parse_header. rewrite (rep_payload_size _ _ _ _ _ _ Hp).
  cbn [mbind outcome_bind]. unfold assert_. by rewrite decide_False by lia.
Qed.
End rep2.

(** Any payload long enough decomposes into a header and the rest. *)
Lemma payload_decompose {T2} `{EndOffset T2} `{!PackedLaws T2} (pl : bytes) :
  is_bytes pl → size_of T2 ≤ len pl →
  ∃ (h2 : T2) rest, pl = encode h2 ++ rest ∧ packed_ok h2 ∧
    h2 = decode (take (Z.to_nat (size_of T2)) pl) ∧ rest = drop (Z.to_nat (size_of T2)) pl.
Proof.
  intros Hb Hl. set (n := Z.to_nat (size_of T2)).
  exists (decode (take n pl)), (drop n pl).
  assert (is_bytes (take n pl)) by by apply Forall_take.
  assert (len (take n pl) = size_of T2).
  { unfold len in *. rewrite length_take. pose proof (size_of_nonneg (T:=T2)). lia. }
  rewrite encode_decode, take_drop by done. auto using decode_ok.
Qed.
