(* ===== verification/Wire.v ===== *)
(** * Wire: the RPC wire format

    Models db/src/wireformat.rs: the service, opcode, status, generator and
    record-type enumerations with their [#[repr(u8)]] discriminants, the two
    common headers, the twelve request and response headers with their
    constructors and [EndOffset] instances.  An enum-typed field of a packed
    structure is stored as its discriminant byte, which is what is on the wire;
    the [*_of_u8] functions are the [transmute]s of db/src/rpc.rs, undefined on
    a byte that is not a discriminant. *)

From S2P Require Import Prelude Packed Headers.

(** ** Enumerations *)

Inductive Service := MasterService | InvalidService.

Definition Service_u8 (s : Service) : Z :=
  match s with MasterService => 0x01 | InvalidService => 0x02 end.

Inductive OpCode :=
| SandstormGetRpc | SandstormPutRpc | SandstormInvokeRpc | SandstormInstallRpc
| SandstormMultiGetRpc | SandstormCommitRpc | InvalidOperation.

Definition OpCode_u8 (o : OpCode) : Z :=
  match o with
  | SandstormGetRpc => 0x01 | SandstormPutRpc => 0x02 | SandstormInvokeRpc => 0x03
  | SandstormInstallRpc => 0x04 | SandstormMultiGetRpc => 0x05
  | SandstormCommitRpc => 0x06 | InvalidOperation => 0x07
  end.

Inductive RpcStatus :=
| StatusOk | StatusTenantDoesNotExist | StatusTableDoesNotExist
| StatusObjectDoesNotExist | StatusMalformedRequest | StatusInternalError
| StatusInvalidExtension | StatusInvalidOperation | StatusPushback | StatusTxAbort.

Definition RpcStatus_u8 (s : RpcStatus) : Z :=
  match s with
  | StatusOk => 0x01 | StatusTenantDoesNotExist => 0x02 | StatusTableDoesNotExist => 0x03
  | StatusObjectDoesNotExist => 0x04 | StatusMalformedRequest => 0x05
  | StatusInternalError => 0x06 | StatusInvalidExtension => 0x07
  | StatusInvalidOperation => 0x08 | StatusPushback => 0x09 | StatusTxAbort => 0x10
  end.

Inductive GetGenerator := SandstormClient | SandstormExtension | InvalidGenerator.

Definition GetGenerator_u8 (g : GetGenerator) : Z :=
  match g with SandstormClient => 0x1 | SandstormExtension => 0x2 | InvalidGenerator => 0x3 end.

Inductive OpType := SandstormRead | SandstormWrite | InvalidRecord.

Definition OpType_u8 (o : OpType) : Z :=
  match o with SandstormRead => 0x1 | SandstormWrite => 0x2 | InvalidRecord => 0x3 end.

#[export] Instance Service_eq_dec : EqDecision Service.
Proof. solve_decision. Defined.

#[export] Instance OpCode_eq_dec : EqDecision OpCode.
Proof. solve_decision. Defined.

#[export] Instance RpcStatus_eq_dec : EqDecision RpcStatus.
Proof. solve_decision. Defined.

#[export] Instance GetGenerator_eq_dec : EqDecision GetGenerator.
Proof. solve_decision. Defined.

#[export] Instance OpType_eq_dec : EqDecision OpType.
Proof. solve_decision. Defined.

(** The value a [transmute::<u8, E>] yields; [None] when the byte is not a
    discriminant of the enumeration. *)
Definition Service_of_u8 (b : Z) : option Service :=
  if decide (b = 0x01) then Some MasterService
  else if decide (b = 0x02) then Some InvalidService else None.

Definition OpCode_of_u8 (b : Z) : option OpCode :=
  if decide (b = 0x01) then Some SandstormGetRpc
  else if decide (b = 0x02) then Some SandstormPutRpc
  else if decide (b = 0x03) then Some SandstormInvokeRpc
  else if decide (b = 0x04) then Some SandstormInstallRpc
  else if decide (b = 0x05) then Some SandstormMultiGetRpc
  else if decide (b = 0x06) then Some SandstormCommitRpc
  else if decide (b = 0x07) then Some InvalidOperation else None.

Definition GetGenerator_of_u8 (b : Z) : option GetGenerator :=
  if decide (b = 0x1) then Some SandstormClient
  else if decide (b = 0x2) then Some SandstormExtension
  else if decide (b = 0x3) then Some InvalidGenerator else None.

Definition OpType_of_u8 (b : Z) : option OpType :=
  if decide (b = 0x1) then Some SandstormRead
  else if decide (b = 0x2) then Some SandstormWrite
  else if decide (b = 0x3) then Some InvalidRecord else None.

(** ** Common headers *)

Record RpcRequestHeader := mkRpcRequestHeader {
  service : Z;
  req_opcode : Z;
  req_tenant : Z;
  req_stamp : Z;
}.

Definition req_layout : list nat := [1; 1; 4; 8]%nat.

Definition req_fields (h : RpcRequestHeader) : list Z :=
  [service h; req_opcode h; req_tenant h; req_stamp h].

Definition req_of (l : list Z) : RpcRequestHeader :=
  let f i := nth i l 0 in mkRpcRequestHeader (f 0%nat) (f 1%nat) (f 2%nat) (f 3%nat).

Definition RpcRequestHeader_new (rpc_service : Service) (rpc_opcode : OpCode)
    (rpc_tenant rpc_stamp : Z) : RpcRequestHeader :=
  mkRpcRequestHeader (Service_u8 rpc_service) (OpCode_u8 rpc_opcode) rpc_tenant rpc_stamp.

Record RpcResponseHeader := mkRpcResponseHeader {
  status : Z;
  res_opcode : Z;
  res_tenant : Z;
  res_stamp : Z;
}.

Definition res_fields (h : RpcResponseHeader) : list Z :=
  [status h; res_opcode h; res_tenant h; res_stamp h].

Definition res_of (l : list Z) : RpcResponseHeader :=
  let f i := nth i l 0 in mkRpcResponseHeader (f 0%nat) (f 1%nat) (f 2%nat) (f 3%nat).

Definition RpcResponseHeader_new (stamp : Z) (opcode : OpCode) (tenant : Z) :
    RpcResponseHeader :=
  mkRpcResponseHeader (RpcStatus_u8 StatusOk) (OpCode_u8 opcode) tenant stamp.

(** [hdr.common_header.status = s] *)
Definition with_status (h : RpcResponseHeader) (s : RpcStatus) : RpcResponseHeader :=
  mkRpcResponseHeader (RpcStatus_u8 s) (res_opcode h) (res_tenant h) (res_stamp h).

(** ** Request and response headers *)

Record GetRequest := mkGetRequest {
  get_common : RpcRequestHeader;
  get_table_id : Z;
  get_key_length : Z;
  get_generator : Z;
}.

#[export] Instance GetRequest_packed : Packed GetRequest := {|
  layout := req_layout ++ [8; 2; 1]%nat;
  to_fields h := req_fields (get_common h) ++ [get_table_id h; get_key_length h; get_generator h];
  of_fields l := mkGetRequest (req_of l) (nth 4 l 0) (nth 5 l 0) (nth 6 l 0);
|}.

Definition GetRequest_new (req_tenant req_table_id req_key_length req_stamp : Z)
    (req_generator : GetGenerator) : GetRequest :=
  mkGetRequest
    (RpcRequestHeader_new MasterService SandstormGetRpc req_tenant req_stamp)
    req_table_id req_key_length (GetGenerator_u8 req_generator).

#[export] Instance GetRequest_endoffset : EndOffset GetRequest := {|
  offset _ := size_of GetRequest;
  hsize := size_of GetRequest;
  payload_size _ hint := wsub 64 hint (size_of GetRequest);
|}.

#[export] Instance GetRequest_follows : Follows GetRequest UdpHeader := {}.

Record GetResponse := mkGetResponse {
  getres_common : RpcResponseHeader;
  value_length : Z;
}.

#[export] Instance GetResponse_packed : Packed GetResponse := {|
  layout := req_layout ++ [4]%nat;
  to_fields h := res_fields (getres_common h) ++ [value_length h];
  of_fields l := mkGetResponse (res_of l) (nth 4 l 0);
|}.

Definition GetResponse_new (stamp : Z) (opcode : OpCode) (tenant : Z) : GetResponse :=
  mkGetResponse (RpcResponseHeader_new stamp opcode tenant) 0.

#[export] Instance GetResponse_endoffset : EndOffset GetResponse := {|
  offset _ := size_of GetResponse;
  hsize := size_of GetResponse;
  payload_size _ hint := wsub 64 hint (size_of GetResponse);
|}.

#[export] Instance GetResponse_follows : Follows GetResponse UdpHeader := {}.

Record PutRequest := mkPutRequest {
  put_common : RpcRequestHeader;
  put_table_id : Z;
  put_key_length : Z;
}.

#[export] Instance PutRequest_packed : Packed PutRequest := {|
  layout := req_layout ++ [8; 2]%nat;
  to_fields h := req_fields (put_common h) ++ [put_table_id h; put_key_length h];
  of_fields l := mkPutRequest (req_of l) (nth 4 l 0) (nth 5 l 0);
|}.

Definition PutRequest_new (req_tenant req_table req_key_len req_stamp : Z) : PutRequest :=
  mkPutRequest
    (RpcRequestHeader_new MasterService SandstormPutRpc req_tenant req_stamp)
    req_table req_key_len.

#[export] Instance PutRequest_endoffset : EndOffset PutRequest := {|
  offset _ := size_of PutRequest;
  hsize := size_of PutRequest;
  payload_size _ hint := wsub 64 hint (size_of PutRequest);
|}.

#[export] Instance PutRequest_follows : Follows PutRequest UdpHeader := {}.

Record PutResponse := mkPutResponse {
  putres_common : RpcResponseHeader;
}.

#[export] Instance PutResponse_packed : Packed PutResponse := {|
  layout := req_layout;
  to_fields h := res_fields (putres_common h);
  of_fields l := mkPutResponse (res_of l);
|}.

Definition PutResponse_new (stamp : Z) (opcode : OpCode) (tenant : Z) : PutResponse :=
  mkPutResponse (RpcResponseHeader_new stamp opcode tenant).

#[export] Instance PutResponse_endoffset : EndOffset PutResponse := {|
  offset _ := size_of PutResponse;
  hsize := size_of PutResponse;
  payload_size _ hint := wsub 64 hint (size_of PutResponse);
|}.

#[export] Instance PutResponse_follows : Follows PutResponse UdpHeader := {}.

Record InvokeRequest := mkInvokeRequest {
  invoke_common : RpcRequestHeader;
  invoke_name_length : Z;
  args_length : Z;
}.

#[export] Instance InvokeRequest_packed : Packed InvokeRequest := {|
  layout := req_layout ++ [4; 4]%nat;
  to_fields h := req_fields (invoke_common h) ++ [invoke_name_length h; args_length h];
  of_fields l := mkInvokeRequest (req_of l) (nth 4 l 0) (nth 5 l 0);
|}.

Definition InvokeRequest_new (tenant name_length args_len req_stamp : Z) : InvokeRequest :=
  mkInvokeRequest
    (RpcRequestHeader_new MasterService SandstormInvokeRpc tenant req_stamp)
    name_length args_len.

#[export] Instance InvokeRequest_endoffset : EndOffset InvokeRequest := {|
  offset _ := size_of InvokeRequest;
  hsize := size_of InvokeRequest;
  payload_size _ hint := wsub 64 hint (size_of InvokeRequest);
|}.

#[export] Instance InvokeRequest_follows : Follows InvokeRequest UdpHeader := {}.

Record InvokeResponse := mkInvokeResponse {
  invokeres_common : RpcResponseHeader;
}.

#[export] Instance InvokeResponse_packed : Packed InvokeResponse := {|
  layout := req_layout;
  to_fields h := res_fields (invokeres_common h);
  of_fields l := mkInvokeResponse (res_of l);
|}.

Definition InvokeResponse_new (stamp : Z) (opcode : OpCode) (tenant : Z) : InvokeResponse :=
  mkInvokeResponse (RpcResponseHeader_new stamp opcode tenant).

#[export] Instance InvokeResponse_endoffset : EndOffset InvokeResponse := {|
  offset _ := size_of InvokeResponse;
  hsize := size_of InvokeResponse;
  payload_size _ hint := wsub 64 hint (size_of InvokeResponse);
|}.

#[export] Instance InvokeResponse_follows : Follows InvokeResponse UdpHeader := {}.

Record InstallRequest := mkInstallRequest {
  install_common : RpcRequestHeader;
  install_name_length : Z;
  extn_length : Z;
}.

#[export] Instance InstallRequest_packed : Packed InstallRequest := {|
  layout := req_layout ++ [4; 4]%nat;
  to_fields h := req_fields (install_common h) ++ [install_name_length h; extn_length h];
  of_fields l := mkInstallRequest (req_of l) (nth 4 l 0) (nth 5 l 0);
|}.

Definition InstallRequest_new (tenant name_length extn_len req_stamp : Z) : InstallRequest :=
  mkInstallRequest
    (RpcRequestHeader_new MasterService SandstormInstallRpc tenant req_stamp)
    name_length extn_len.

#[export] Instance InstallRequest_endoffset : EndOffset InstallRequest := {|
  offset _ := size_of InstallRequest;
  hsize := size_of InstallRequest;
  payload_size _ hint := wsub 64 hint (size_of InstallRequest);
|}.

#[export] Instance InstallRequest_follows : Follows InstallRequest UdpHeader := {}.

Record InstallResponse := mkInstallResponse {
  installres_common : RpcResponseHeader;
}.

#[export] Instance InstallResponse_packed : Packed InstallResponse := {|
  layout := req_layout;
  to_fields h := res_fields (installres_common h);
  of_fields l := mkInstallResponse (res_of l);
|}.

Definition InstallResponse_new (stamp : Z) (opcode : OpCode) (tenant : Z) : InstallResponse :=
  mkInstallResponse (RpcResponseHeader_new stamp opcode tenant).

#[export] Instance InstallResponse_endoffset : EndOffset InstallResponse := {|
  offset _ := size_of InstallResponse;
  hsize := size_of InstallResponse;
  payload_size _ hint := wsub 64 hint (size_of InstallResponse);
|}.

#[export] Instance InstallResponse_follows : Follows InstallResponse UdpHeader := {}.

Record MultiGetRequest := mkMultiGetRequest {
  mget_common : RpcRequestHeader;
  mget_table_id : Z;
  mget_key_len : Z;
  num_keys : Z;
}.

#[export] Instance MultiGetRequest_packed : Packed MultiGetRequest := {|
  layout := req_layout ++ [8; 2; 4]%nat;
  to_fields h := req_fields (mget_common h) ++ [mget_table_id h; mget_key_len h; num_keys h];
  of_fields l := mkMultiGetRequest (req_of l) (nth 4 l 0) (nth 5 l 0) (nth 6 l 0);
|}.

Definition MultiGetRequest_new (tenant table k_len n_keys stamp : Z) : MultiGetRequest :=
  mkMultiGetRequest
    (RpcRequestHeader_new MasterService SandstormMultiGetRpc tenant stamp)
    table k_len n_keys.

#[export] Instance MultiGetRequest_endoffset : EndOffset MultiGetRequest := {|
  offset _ := size_of MultiGetRequest;
  hsize := size_of MultiGetRequest;
  payload_size _ hint := wsub 64 hint (size_of MultiGetRequest);
|}.

#[export] Instance MultiGetRequest_follows : Follows MultiGetRequest UdpHeader := {}.

Record MultiGetResponse := mkMultiGetResponse {
  mgetres_common : RpcResponseHeader;
  num_records : Z;
}.

#[export] Instance MultiGetResponse_packed : Packed MultiGetResponse := {|
  layout := req_layout ++ [4]%nat;
  to_fields h := res_fields (mgetres_common h) ++ [num_records h];
  of_fields l := mkMultiGetResponse (res_of l) (nth 4 l 0);
|}.

Definition MultiGetResponse_new (stamp : Z) (opcode : OpCode) (tenant n_records : Z) :
    MultiGetResponse :=
  mkMultiGetResponse (RpcResponseHeader_new stamp opcode tenant) n_records.

#[export] Instance MultiGetResponse_endoffset : EndOffset MultiGetResponse := {|
  offset _ := size_of MultiGetResponse;
  hsize := size_of MultiGetResponse;
  payload_size _ hint := wsub 64 hint (size_of MultiGetResponse);
|}.

#[export] Instance MultiGetResponse_follows : Follows MultiGetResponse UdpHeader := {}.

Record CommitRequest := mkCommitRequest {
  commit_common : RpcRequestHeader;
  commit_table_id : Z;
  commit_key_length : Z;
  commit_value_length : Z;
}.

#[export] Instance CommitRequest_packed : Packed CommitRequest := {|
  layout := req_layout ++ [8; 2; 2]%nat;
  to_fields h := req_fields (commit_common h) ++ [commit_table_id h; commit_key_length h; commit_value_length h];
  of_fields l := mkCommitRequest (req_of l) (nth 4 l 0) (nth 5 l 0) (nth 6 l 0);
|}.

Definition CommitRequest_new (tenant req_stamp table_id key_len val_len : Z) : CommitRequest :=
  mkCommitRequest
    (RpcRequestHeader_new MasterService SandstormCommitRpc tenant req_stamp)
    table_id key_len val_len.

#[export] Instance CommitRequest_endoffset : EndOffset CommitRequest := {|
  offset _ := size_of CommitRequest;
  hsize := size_of CommitRequest;
  payload_size _ hint := wsub 64 hint (size_of CommitRequest);
|}.

#[export] Instance CommitRequest_follows : Follows CommitRequest UdpHeader := {}.

Record CommitResponse := mkCommitResponse {
  commitres_common : RpcResponseHeader;
}.

#[export] Instance CommitResponse_packed : Packed CommitResponse := {|
  layout := req_layout;
  to_fields h := res_fields (commitres_common h);
  of_fields l := mkCommitResponse (res_of l);
|}.

Definition CommitResponse_new (stamp : Z) (opcode : OpCode) (tenant : Z) : CommitResponse :=
  mkCommitResponse (RpcResponseHeader_new stamp opcode tenant).

#[export] Instance CommitResponse_endoffset : EndOffset CommitResponse := {|
  offset _ := size_of CommitResponse;
  hsize := size_of CommitResponse;
  payload_size _ hint := wsub 64 hint (size_of CommitResponse);
|}.

#[export] Instance CommitResponse_follows : Follows CommitResponse UdpHeader := {}.

(** ** Layout laws *)

(** Destructs the common header first, then the list of raw fields. *)
Ltac wire_laws :=
  split;
  [ intros [[] ] _ || intros [[] ? ] _ || intros [[] ? ?] _ || intros [[] ? ? ?] _; reflexivity
  | let l := fresh in let Hl := fresh in intros l Hl; cbn in Hl;
    repeat (destruct l as [|? l]; try discriminate Hl); reflexivity ].

#[export] Instance GetRequest_laws : PackedLaws GetRequest.
Proof. wire_laws. Qed.

#[export] Instance GetRequest_fixed : FixedOffset GetRequest.
Proof. by split. Qed.

#[export] Instance GetResponse_laws : PackedLaws GetResponse.
Proof. wire_laws. Qed.

#[export] Instance GetResponse_fixed : FixedOffset GetResponse.
Proof. by split. Qed.

#[export] Instance PutRequest_laws : PackedLaws PutRequest.
Proof. wire_laws. Qed.

#[export] Instance PutRequest_fixed : FixedOffset PutRequest.
Proof. by split. Qed.

#[export] Instance PutResponse_laws : PackedLaws PutResponse.
Proof. wire_laws. Qed.

#[export] Instance PutResponse_fixed : FixedOffset PutResponse.
Proof. by split. Qed.

#[export] Instance InvokeRequest_laws : PackedLaws InvokeRequest.
Proof. wire_laws. Qed.

#[export] Instance InvokeRequest_fixed : FixedOffset InvokeRequest.
Proof. by split. Qed.

#[export] Instance InvokeResponse_laws : PackedLaws InvokeResponse.
Proof. wire_laws. Qed.

#[export] Instance InvokeResponse_fixed : FixedOffset InvokeResponse.
Proof. by split. Qed.

#[export] Instance InstallRequest_laws : PackedLaws InstallRequest.
Proof. wire_laws. Qed.

#[export] Instance InstallRequest_fixed : FixedOffset InstallRequest.
Proof. by split. Qed.

#[export] Instance InstallResponse_laws : PackedLaws InstallResponse.
Proof. wire_laws. Qed.

#[export] Instance InstallResponse_fixed : FixedOffset InstallResponse.
Proof. by split. Qed.

#[export] Instance MultiGetRequest_laws : PackedLaws MultiGetRequest.
Proof. wire_laws. Qed.

#[export] Instance MultiGetRequest_fixed : FixedOffset MultiGetRequest.
Proof. by split. Qed.

#[export] Instance MultiGetResponse_laws : PackedLaws MultiGetResponse.
Proof. wire_laws. Qed.

#[export] Instance MultiGetResponse_fixed : FixedOffset MultiGetResponse.
Proof. by split. Qed.

#[export] Instance CommitRequest_laws : PackedLaws CommitRequest.
Proof. wire_laws. Qed.

#[export] Instance CommitRequest_fixed : FixedOffset CommitRequest.
Proof. by split. Qed.

#[export] Instance CommitResponse_laws : PackedLaws CommitResponse.
Proof. wire_laws. Qed.

#[export] Instance CommitResponse_fixed : FixedOffset CommitResponse.
Proof. by split. Qed.
