(* ===== verification/Rpc.v ===== *)
(** * Rpc: building and dissecting RPC requests

    Models db/src/rpc.rs: the parsers of the service, opcode and record-type
    bytes, [fixup_header_length_fields], and the request constructors a client
    uses.  The mbuf a constructor allocates is the result of the native
    [mbuf_alloc], an argument here. *)

From S2P Require Import Prelude Bits Packed Headers Packet Wire.

(** ** Parsers *)

Definition parse_rpc_service (request : Packet UdpHeader) : outcome Service :=
  pl ← get_payload request;
  service ← expect (pl !! 0%nat);
  if decide (service < Service_u8 InvalidService)
  then unchecked (Service_of_u8 service)
  else Ret InvalidService.

Definition parse_rpc_opcode (request : Packet UdpHeader) : outcome OpCode :=
  pl ← get_payload request;
  opcode ← expect (pl !! 1%nat);
  if decide (opcode < OpCode_u8 InvalidOperation)
  then unchecked (OpCode_of_u8 opcode)
  else Ret InvalidOperation.

Definition parse_record_optype (record : bytes) : outcome OpType :=
  optype ← expect (record !! 0%nat);
  if decide (optype < OpType_u8 InvalidRecord)
  then unchecked (OpType_of_u8 optype)
  else Ret InvalidRecord.

(** ** Constructors *)

(** [Result::expect] on the result of a payload operation. *)
Definition expect_ok {A} (r : bool * A) : outcome A :=
  if r.1 then Ret r.2 else Panic.

Definition create_request (alloc : option MBuf) (mac : MacHeader) (ip : IpHeader)
    (udp : UdpHeader) (dst : Z) : outcome (Packet UdpHeader) :=
  p0 ← expect (new_packet alloc);
  p1 ← (push_header p0 mac ≫= expect);
  p2 ← (push_header p1 ip ≫= expect);
  p3 ← (push_header p2 udp ≫= expect);
  modify_header p3 (λ h, set_dst_port h dst).

Definition fixup_header_length_fields (request : Packet UdpHeader) : outcome (Packet IpHeader) :=
  pl ← get_payload request;
  let udp_len := wrap 16 (size_of UdpHeader + len pl) in
  request ← modify_header request (λ h, set_udp_length h udp_len);
  let request := deparse_header IpHeader request (size_of IpHeader) in
  modify_header request (λ h, set_ip_length h (wadd 16 (size_of IpHeader) udp_len)).

Definition create_get_rpc (alloc : option MBuf) (mac : MacHeader) (ip : IpHeader)
    (udp : UdpHeader) (tenant table_id : Z) (key : bytes) (id dst : Z)
    (generator : GetGenerator) : outcome (Packet IpHeader) :=
  if decide (len key > 65535) then Panic
  else
    request ← create_request alloc mac ip udp dst;
    request ← (push_header request
      (GetRequest_new tenant table_id (wrap 16 (len key)) id generator) ≫= expect);
    request ← (add_to_payload_tail request (len key) key ≫= expect_ok);
    fixup_header_length_fields (deparse_header UdpHeader request (size_of UdpHeader)).

Definition create_put_rpc (alloc : option MBuf) (mac : MacHeader) (ip : IpHeader)
    (udp : UdpHeader) (tenant table_id : Z) (key val : bytes) (id dst : Z) :
    outcome (Packet IpHeader) :=
  if decide (len key > 65535) then Panic
  else
    request ← create_request alloc mac ip udp dst;
    request ← (push_header request
      (PutRequest_new tenant table_id (wrap 16 (len key)) id) ≫= expect);
    let payload := key ++ val in
    request ← (add_to_payload_tail request (len payload) payload ≫= expect_ok);
    fixup_header_length_fields (deparse_header UdpHeader request (size_of UdpHeader)).

Definition create_multiget_rpc (alloc : option MBuf) (mac : MacHeader) (ip : IpHeader)
    (udp : UdpHeader) (tenant table_id key_len num_keys : Z) (keys : bytes) (id dst : Z) :
    outcome (Packet IpHeader) :=
  request ← create_request alloc mac ip udp dst;
  request ← (push_header request
    (MultiGetRequest_new tenant table_id key_len num_keys id) ≫= expect);
  request ← (add_to_payload_tail request (len keys) keys ≫= expect_ok);
  fixup_header_length_fields (deparse_header UdpHeader request (size_of UdpHeader)).

Definition create_invoke_rpc (alloc : option MBuf) (mac : MacHeader) (ip : IpHeader)
    (udp : UdpHeader) (tenant name_len : Z) (payload : bytes) (id dst : Z) :
    outcome (Packet IpHeader) :=
  if decide (len payload -u64 name_len > 4294967295) then Panic
  else
    request ← create_request alloc mac ip udp dst;
    request ← (push_header request
      (InvokeRequest_new tenant name_len (wrap 32 (len payload -u64 name_len)) id) ≫= expect);
    request ← (add_to_payload_tail request (len payload) payload ≫= expect_ok);
    fixup_header_length_fields (deparse_header UdpHeader request (size_of UdpHeader)).

Definition create_commit_rpc (alloc : option MBuf) (mac : MacHeader) (ip : IpHeader)
    (udp : UdpHeader) (tenant table_id : Z) (payload : bytes) (id dst key_len val_len : Z) :
    outcome (Packet IpHeader) :=
  if decide (key_len > 65535 ∧ val_len > 65535) then Panic
  else if decide (len payload > 1436) then Panic
  else
    request ← create_request alloc mac ip udp dst;
    request ← (push_header request
      (CommitRequest_new tenant id table_id key_len val_len) ≫= expect);
    request ← (add_to_payload_tail request (len payload) payload ≫= expect_ok);
    fixup_header_length_fields (deparse_header UdpHeader request (size_of UdpHeader)).

(** ** Assumptions on what a constructor is given *)

(** A buffer as [mbuf_alloc] hands it out: empty, with head and tail room. *)
Record fresh_mbuf (m : MBuf) (room tail : bytes) : Prop := {
  fresh_buf : buf m = room ++ tail;
  fresh_off : data_off m = len room;
  fresh_len : data_len m = 0;
  fresh_bytes : is_bytes (buf m);
  fresh_cap : in_width 16 (buf_len m);
}.

(** Transport headers without VLAN tags or IP options. *)
Record plain_headers (mac : MacHeader) (ip : IpHeader) (udp : UdpHeader) : Prop := {
  plain_mac : packed_ok mac;
  plain_mac_offset : offset mac = size_of MacHeader;
  plain_ip : packed_ok ip;
  plain_ip_ihl : ihl ip = 5;
  plain_udp : packed_ok udp;
}.

(** ** Lemmas *)

Lemma new_packet_rep m room tail :
  fresh_mbuf m room tail →
  ∃ p, new_packet (Some m) = Some p ∧ pkt_rep p room [] mkNullHeader [] tail.
Proof.
  intros [Hb Ho Hl Hy Hc]. eexists. split; [done|].
  split; cbn [mbuf header pkt_offset packet_from_mbuf_no_increment]; try done.
  - unfold data_address. rewrite Ho. unfold len. cbn. lia.
  - constructor.
Qed.

Lemma set_port_ok udp p : packed_ok udp → in_width 16 p →
  packed_ok (set_dst_port udp p) ∧ packed_ok (set_src_port udp p) ∧
  packed_ok (set_udp_length udp p).
Proof.
  intros Hu Hp. apply bswap16_width in Hp. unfold packed_ok in *. cbn in *.
  repeat match goal with H : Forall2 _ (_ :: _) _ |- _ => inversion_clear H end.
  repeat split; repeat (constructor; [assumption|]); constructor.
Qed.

Lemma set_ip_length_ok ip l : packed_ok ip → in_width 16 l → packed_ok (set_ip_length ip l).
Proof. apply (ip_set_ok FLength). Qed.

Lemma set_ip_length_ihl ip l :
  packed_ok ip → in_width 16 l → ihl (set_ip_length ip l) = ihl ip.
Proof. intros. by apply (ip_get_set_ne FLength FIhl). Qed.

Lemma create_request_rep m room tail mac ip udp dst :
  fresh_mbuf m room tail → plain_headers mac ip udp → in_width 16 dst →
  42 ≤ len tail →
  ∃ p, create_request (Some m) mac ip udp dst = Ret p ∧
    pkt_rep p room (encode mac ++ encode ip) (set_dst_port udp dst) [] (drop 42 tail).
Proof.
  intros Hm [Hmac Hmo Hip Hihl Hudp] Hdst Hl. unfold create_request.
  destruct (new_packet_rep _ _ _ Hm) as (p0 & -> & H0). cbn [expect mbind outcome_bind].
  destruct (rep_push_header (T2:=MacHeader) _ _ _ _ mac _ H0) as (p1 & -> & H1);
    [done..|change (size_of MacHeader) with 14; lia|].
  cbn [expect mbind outcome_bind].
  change (Z.to_nat (size_of MacHeader)) with 14%nat in H1.
  assert (offset ip = size_of IpHeader) as Hio.
  { cbn. unfold IpHeader_offset. by rewrite Hihl. }
  destruct (rep_push_header (T2:=IpHeader) _ _ _ _ ip _ H1) as (p2 & -> & H2); [done..| |].
  { change (size_of IpHeader) with 20. unfold len in *. rewrite length_drop. lia. }
  cbn [expect mbind outcome_bind].
  change (Z.to_nat (size_of IpHeader)) with 20%nat in H2.
  destruct (rep_push_header (T2:=UdpHeader) _ _ _ _ udp _ H2) as (p3 & -> & H3); [done..| |].
  { change (size_of UdpHeader) with 8. unfold len in *. rewrite !length_drop. lia. }
  cbn [expect mbind outcome_bind].
  change (Z.to_nat (size_of UdpHeader)) with 8%nat in H3. rewrite !drop_drop in H3.
  destruct (rep_modify_header _ _ _ _ (λ h, set_dst_port h dst) _ _ H3) as (p4 & -> & H4);
    [by apply set_port_ok|done|].
  eauto.
Qed.

Lemma fixup_rep p room (mac : MacHeader) ip udp pl tail :
  pkt_rep p room (encode mac ++ encode ip) udp pl tail → packed_ok ip → ihl ip = 5 →
  ∃ q, fixup_header_length_fields p = Ret q ∧
    pkt_rep q room (encode mac) (set_ip_length ip (28 + len pl))
      (encode (set_udp_length udp (8 + len pl)) ++ pl) tail.
Proof.
  intros Hp Hip Hihl. pose proof (rep_fits _ _ _ _ _ _ Hp) as Hf.
  pose proof (rep_data_len _ _ _ _ _ _ Hp) as Hl. pose proof (rep_data_off _ _ _ _ _ _ Hp) as Ho.
  pose proof (rep_cap _ _ _ _ _ _ Hp) as Hc. pose proof (rep_ok _ _ _ _ _ _ Hp) as Hudp.
  pose proof (len_nonneg room). pose proof (len_nonneg tail). pose proof (len_nonneg pl).
  pose proof (len_nonneg (encode mac)).
  rewrite len_app, (encode_length ip) in Hl by done.
  change (size_of UdpHeader) with 8 in *. change (size_of IpHeader) with 20 in *.
  unfold in_width in Hc.
  unfold fixup_header_length_fields. rewrite (rep_get_payload _ _ _ _ _ _ Hp).
  cbn [mbind outcome_bind]. change (size_of UdpHeader) with 8. change (size_of IpHeader) with 20.
  rewrite wrap_id by (unfold in_width; lia).
  destruct (rep_modify_header _ _ _ _ (λ h, set_udp_length h (8 + len pl)) _ _ Hp)
    as (p1 & -> & Hq1); [apply set_port_ok; [done|unfold in_width; lia]|done|].
  cbn [mbind outcome_bind].
  assert (offset ip = size_of IpHeader) as Hio by (cbn; unfold IpHeader_offset; by rewrite Hihl).
  pose proof (rep_deparse_header _ _ _ _ _ _ _ 20 Hq1 Hip Hio eq_refl) as Hq2.
  rewrite wadd_id by (unfold in_width; lia).
  replace (20 + (8 + len pl)) with (28 + len pl) by lia.
  assert (in_width 16 (28 + len pl)) as Hw by (unfold in_width; lia).
  eapply rep_modify_header in Hq2 as (q & -> & Hq).
  - exists q. split; [done|]. exact Hq.
  - by apply set_ip_length_ok.
  - cbn. unfold IpHeader_offset. rewrite set_ip_length_ihl by done. by rewrite Hihl.
Qed.

(** The tail of every constructor: push the RPC header, write the payload,
    step back to UDP and fix the length fields. *)
Lemma finish_request_rep {R} `{EndOffset R} `{!PackedLaws R} `{!FixedOffset R}
    `{!Follows R UdpHeader} p room (mac : MacHeader) ip udp (hdr : R) data tail :
  pkt_rep p room (encode mac ++ encode ip) udp [] tail →
  packed_ok ip → ihl ip = 5 → packed_ok hdr → data ≠ [] → is_bytes data →
  size_of R + len data ≤ len tail →
  ∃ q, (request ← (push_header p hdr ≫= expect);
        request ← (add_to_payload_tail request (len data) data ≫= expect_ok);
        fixup_header_length_fields (deparse_header UdpHeader request (size_of UdpHeader)))
       = Ret q ∧
    pkt_rep q room (encode mac) (set_ip_length ip (28 + len (encode hdr ++ data)))
      (encode (set_udp_length udp (8 + len (encode hdr ++ data))) ++ encode hdr ++ data)
      (drop (Z.to_nat (size_of R) + length data) tail).
Proof.
  intros Hp Hip Hihl Hh Hne Hd Hl.
  pose proof (rep_ok _ _ _ _ _ _ Hp) as Hudp. pose proof (size_of_nonneg (T:=R)).
  pose proof (len_nonneg data).
  destruct (rep_push_header _ _ _ _ hdr _ Hp) as (p1 & -> & Hq1);
    [done|apply offset_size|lia|].
  cbn [expect mbind outcome_bind].
  destruct (rep_add_tail p1 _ _ hdr [] data (drop (length data) (drop (Z.to_nat (size_of R)) tail))
    Hne Hd _ Hq1 eq_refl) as (p2 & -> & Hq2).
  { unfold len in *. rewrite length_drop. lia. }
  cbn [expect_ok fst snd mbind outcome_bind]. rewrite app_nil_l in Hq2. rewrite drop_drop in Hq2.
  pose proof (rep_deparse_header _ _ _ _ _ _ _ _ Hq2 Hudp eq_refl eq_refl) as Hq3.
  destruct (fixup_rep _ _ _ _ _ _ _ Hq3 Hip Hihl) as (q & -> & Hq). eauto.
Qed.

(** ** A client's request as the server sees it *)

Inductive ClientRequest :=
| CGet (tenant table_id : Z) (key : bytes) (id : Z) (generator : GetGenerator)
| CPut (tenant table_id : Z) (key val : bytes) (id : Z)
| CMultiGet (tenant table_id key_len nkeys : Z) (keys : bytes) (id : Z)
| CInvoke (tenant name_len : Z) (payload : bytes) (id : Z)
| CCommit (tenant table_id : Z) (payload : bytes) (id key_len val_len : Z).

Definition cr_create (alloc : option MBuf) mac ip udp dst (r : ClientRequest) :
    outcome (Packet IpHeader) :=
  match r with
  | CGet t tb key id g => create_get_rpc alloc mac ip udp t tb key id dst g
  | CPut t tb key val id => create_put_rpc alloc mac ip udp t tb key val id dst
  | CMultiGet t tb kl n keys id => create_multiget_rpc alloc mac ip udp t tb kl n keys id dst
  | CInvoke t nl pl id => create_invoke_rpc alloc mac ip udp t nl pl id dst
  | CCommit t tb pl id kl vl => create_commit_rpc alloc mac ip udp t tb pl id dst kl vl
  end.

Definition cr_opcode (r : ClientRequest) : OpCode :=
  match r with
  | CGet _ _ _ _ _ => SandstormGetRpc
  | CPut _ _ _ _ _ => SandstormPutRpc
  | CMultiGet _ _ _ _ _ _ => SandstormMultiGetRpc
  | CInvoke _ _ _ _ => SandstormInvokeRpc
  | CCommit _ _ _ _ _ _ => SandstormCommitRpc
  end.

Definition cr_data (r : ClientRequest) : bytes :=
  match r with
  | CGet _ _ key _ _ => key
  | CPut _ _ key val _ => key ++ val
  | CMultiGet _ _ _ _ keys _ => keys
  | CInvoke _ _ pl _ => pl
  | CCommit _ _ pl _ _ _ => pl
  end.

Definition cr_header (r : ClientRequest) : bytes :=
  match r with
  | CGet t tb key id g => encode (GetRequest_new t tb (len key) id g)
  | CPut t tb key _ id => encode (PutRequest_new t tb (len key) id)
  | CMultiGet t tb kl n _ id => encode (MultiGetRequest_new t tb kl n id)
  | CInvoke t nl pl id => encode (InvokeRequest_new t nl (len pl - nl) id)
  | CCommit t tb _ id kl vl => encode (CommitRequest_new t id tb kl vl)
  end.

(** What the constructors need of their arguments: typed integers, a
    non-empty payload, and the documented length limits. *)
Definition cr_ok (r : ClientRequest) : Prop :=
  cr_data r ≠ [] ∧ is_bytes (cr_data r) ∧
  match r with
  | CGet t tb key id _ => in_width 32 t ∧ in_width 64 tb ∧ in_width 64 id ∧ len key ≤ 65535
  | CPut t tb key _ id => in_width 32 t ∧ in_width 64 tb ∧ in_width 64 id ∧ len key ≤ 65535
  | CMultiGet t tb kl n _ id =>
      in_width 32 t ∧ in_width 64 tb ∧ in_width 16 kl ∧ in_width 32 n ∧ in_width 64 id
  | CInvoke t nl pl id =>
      in_width 32 t ∧ 0 ≤ nl ≤ len pl ∧ len pl < 2 ^ 32 ∧ in_width 64 id
  | CCommit t tb pl id kl vl =>
      in_width 32 t ∧ in_width 64 tb ∧ in_width 64 id ∧ in_width 16 kl ∧ in_width 16 vl ∧
      len pl ≤ 1436
  end.

(** The server's typed view of the request: the header fields and the payload
    that its handler reads. *)
Definition cr_parsed (u : Packet UdpHeader) (r : ClientRequest) : Prop :=
  match r with
  | CGet t tb key id g => ∃ p, parse_header GetRequest u = Ret p ∧
      get_header p = Ret (GetRequest_new t tb (len key) id g) ∧ get_payload p = Ret key
  | CPut t tb key val id => ∃ p, parse_header PutRequest u = Ret p ∧
      get_header p = Ret (PutRequest_new t tb (len key) id) ∧ get_payload p = Ret (key ++ val)
  | CMultiGet t tb kl n keys id => ∃ p, parse_header MultiGetRequest u = Ret p ∧
      get_header p = Ret (MultiGetRequest_new t tb kl n id) ∧ get_payload p = Ret keys
  | CInvoke t nl pl id => ∃ p, parse_header InvokeRequest u = Ret p ∧
      get_header p = Ret (InvokeRequest_new t nl (len pl - nl) id) ∧ get_payload p = Ret pl
  | CCommit t tb pl id kl vl => ∃ p, parse_header CommitRequest u = Ret p ∧
      get_header p = Ret (CommitRequest_new t id tb kl vl) ∧ get_payload p = Ret pl
  end.

Lemma parse_opcode_bytes (u : Packet UdpHeader) pl o :
  get_payload u = Ret pl → pl !! 0%nat = Some 1 → pl !! 1%nat = Some (OpCode_u8 o) →
  o ≠ InvalidOperation →
  parse_rpc_service u = Ret MasterService ∧ parse_rpc_opcode u = Ret o.
Proof.
  intros Hpl H0 H1 Ho. unfold parse_rpc_service, parse_rpc_opcode. rewrite Hpl.
  cbn [mbind outcome_bind]. rewrite H0, H1. by destruct o.
Qed.

Lemma rep_parse_typed {R} `{EndOffset R} `{!PackedLaws R} `{!FixedOffset R}
    `{!Follows R UdpHeader} u room pre udp (hdr : R) data tail :
  pkt_rep u room pre udp (encode hdr ++ data) tail → packed_ok hdr →
  ∃ p, parse_header R u = Ret p ∧ get_header p = Ret hdr ∧ get_payload p = Ret data.
Proof.
  intros Hu Hh.
  destruct (rep_parse_header _ _ _ _ hdr _ _ Hu Hh (offset_size hdr) hsize_size) as (p & -> & Hp).
  exists p. split; [done|]. eauto using rep_get_header, rep_get_payload.
Qed.

(** Field-by-field [packed_ok] of a literal header. *)
Ltac packed_fields :=
  unfold packed_ok; cbn -[in_width];
  repeat (constructor; [unfold in_width in *; cbn; lia|]); constructor.

Definition cr_wire (r : ClientRequest) : bytes := cr_header r ++ cr_data r.

(** All constructors have one shape, for the header of their request type. *)
Lemma cr_shape alloc mac ip udp dst r :
  cr_ok r →
  ∃ R (_ : Packed R) (_ : EndOffset R) (_ : PackedLaws R) (_ : FixedOffset R)
    (_ : Follows R UdpHeader) (hdr : R),
    cr_create alloc mac ip udp dst r =
      (request ← create_request alloc mac ip udp dst;
       request ← (push_header request hdr ≫= expect);
       request ← (add_to_payload_tail request (len (cr_data r)) (cr_data r) ≫= expect_ok);
       fixup_header_length_fields (deparse_header UdpHeader request (size_of UdpHeader))) ∧
    encode hdr = cr_header r ∧ packed_ok hdr.
Proof.
  intros (Hne & Hb & Hr). destruct r as [t tb key id g|t tb key val id|t tb kl n keys id
    |t nl pl id|t tb pl id kl vl]; cbn [cr_create cr_data cr_header] in *.
  - exists GetRequest, _, _, _, _, _, (GetRequest_new t tb (len key) id g).
    unfold create_get_rpc. pose proof (len_nonneg key).
    rewrite decide_False, wrap_id by (unfold in_width; lia). repeat split.
    destruct g; packed_fields.
  - exists PutRequest, _, _, _, _, _, (PutRequest_new t tb (len key) id).
    unfold create_put_rpc. pose proof (len_nonneg key).
    rewrite decide_False, wrap_id by (unfold in_width; lia). repeat split. packed_fields.
  - exists MultiGetRequest, _, _, _, _, _, (MultiGetRequest_new t tb kl n id).
    repeat split. packed_fields.
  - exists InvokeRequest, _, _, _, _, _, (InvokeRequest_new t nl (len pl - nl) id).
    unfold create_invoke_rpc. rewrite wsub_id by (unfold in_width; lia).
    rewrite decide_False, wrap_id by (unfold in_width; lia). repeat split. packed_fields.
  - exists CommitRequest, _, _, _, _, _, (CommitRequest_new t id tb kl vl).
    unfold create_commit_rpc. rewrite decide_False by (unfold in_width in *; lia).
    rewrite decide_False by lia. repeat split. packed_fields.
Qed.

Lemma cr_create_rep r m room tail mac ip udp dst :
  fresh_mbuf m room tail → plain_headers mac ip udp → in_width 16 dst → cr_ok r →
  42 + len (cr_wire r) ≤ len tail →
  ∃ q tail', cr_create (Some m) mac ip udp dst r = Ret q ∧
    pkt_rep q room (encode mac) (set_ip_length ip (28 + len (cr_wire r)))
      (encode (set_udp_length (set_dst_port udp dst) (8 + len (cr_wire r))) ++ cr_wire r) tail'.
Proof.
  intros Hm Hh Hdst Hr Hl. unfold cr_wire in *.
  destruct (cr_shape (Some m) mac ip udp dst r Hr) as (R & ? & ? & ? & ? & ? & hdr & -> & He & Hok).
  rewrite <- He in *.
  rewrite len_app, (encode_length hdr) in Hl by done. pose proof (size_of_nonneg (T:=R)).
  pose proof (len_nonneg (cr_data r)).
  destruct (create_request_rep m room tail mac ip udp dst Hm Hh Hdst) as (p & -> & Hp); [lia|].
  cbn [mbind outcome_bind]. destruct Hr as (Hne & Hb & _), Hh as [_ _ Hip Hihl _].
  destruct (finish_request_rep p room mac ip _ hdr (cr_data r) _ Hp Hip Hihl Hok Hne Hb)
    as (q & -> & Hq); [|eauto].
  unfold len in *. rewrite length_drop. lia.
Qed.

Lemma cr_wire_prefix r :
  cr_wire r !! 0%nat = Some 1 ∧ cr_wire r !! 1%nat = Some (OpCode_u8 (cr_opcode r)).
Proof. by destruct r. Qed.

Lemma cr_typed r u room pre udp tail :
  pkt_rep u room pre udp (cr_wire r) tail → cr_ok r → cr_parsed u r.
Proof.
  intros Hu (Hne & Hb & Hr). unfold cr_wire in Hu.
  destruct r as [t tb key id g|t tb key val id|t tb kl n keys id|t nl pl id|t tb pl id kl vl];
    cbn [cr_data cr_header cr_parsed] in *; (eapply rep_parse_typed; [exact Hu|]).
  - pose proof (len_nonneg key). destruct g; packed_fields.
  - pose proof (len_nonneg key). packed_fields.
  - packed_fields.
  - packed_fields.
  - packed_fields.
Qed.

(** ** Properties *)

(** C10: a request built by a client constructor is understood by the server.
    For every get, put, multiget, invoke and commit request with a payload that is
    not empty and within its length limits, and a buffer with enough tail room, the constructor succeeds; the
    resulting packet's IP and UDP length fields are the true lengths; the
    dispatcher's parsers read service [MasterService] and the request's own
    opcode; and parsing the typed header gives back exactly the arguments the
    client passed, with the key, value or arguments as payload. *)
Theorem client_request_roundtrip r m room tail mac ip udp dst :
  fresh_mbuf m room tail → plain_headers mac ip udp → in_width 16 dst → cr_ok r →
  42 + len (cr_wire r) ≤ len tail →
  ∃ q u, cr_create (Some m) mac ip udp dst r = Ret q ∧
    (∃ ip', get_header q = Ret ip' ∧ ip_length ip' = 28 + len (cr_wire r)) ∧
    parse_header UdpHeader q = Ret u ∧
    (∃ udp', get_header u = Ret udp' ∧ udp_length udp' = 8 + len (cr_wire r) ∧
             dst_port udp' = dst) ∧
    parse_rpc_service u = Ret MasterService ∧
    parse_rpc_opcode u = Ret (cr_opcode r) ∧
    cr_parsed u r.
Proof.
  intros Hm Hh Hdst Hr Hl.
  destruct (cr_create_rep _ _ _ _ _ _ _ _ Hm Hh Hdst Hr Hl) as (q & tail' & Hq & Hrep).
  pose proof (rep_fits _ _ _ _ _ _ Hrep) as Hf. pose proof (rep_cap _ _ _ _ _ _ Hrep) as Hc.
  pose proof (rep_data_len _ _ _ _ _ _ Hrep) as Hdl. rewrite len_app in Hdl.
  pose proof (rep_data_off _ _ _ _ _ _ Hrep) as Hdo.
  destruct Hh as [_ _ Hip Hihl Hudp].
  pose proof (len_nonneg room). pose proof (len_nonneg tail'). pose proof (len_nonneg (cr_wire r)).
  pose proof (len_nonneg (encode mac)). unfold in_width in Hc. change (size_of IpHeader) with 20 in Hdl.
  set (udp' := set_udp_length (set_dst_port udp dst) (8 + len (cr_wire r))) in *.
  assert (in_width 16 (28 + len (cr_wire r))) as Hw28.
  { pose proof (len_nonneg (encode udp')). unfold in_width.
    assert (len (encode udp') = 8) as Hl8; [|lia]. unfold len, encode.
    rewrite pack_fields_length by done. done. }
  assert (in_width 16 (8 + len (cr_wire r))) as Hw8 by (unfold in_width in *; lia).
  assert (packed_ok udp') as Hu' by (apply set_port_ok; [by apply set_port_ok|done]).
  destruct (rep_parse_header _ _ _ _ udp' _ _ Hrep Hu' (offset_size udp') hsize_size) as (u & Hu & Hurep).
  destruct (cr_wire_prefix r) as [Hp0 Hp1].
  destruct (parse_opcode_bytes u _ (cr_opcode r) (rep_get_payload _ _ _ _ _ _ Hurep) Hp0 Hp1)
    as [Hs Ho]; [by destruct r|].
  exists q, u. split_and!; [done| |done| |done|done|by eapply cr_typed].
  - eexists. split; [by eapply rep_get_header|]. by apply (ip_get_set FLength).
  - eexists. split; [by eapply rep_get_header|]. split.
    + by apply udp_length_set.
    + by apply bswap16_involutive.
Qed.

(** Concrete transport headers and a buffer for the witnesses. *)
Definition ex_mac : MacHeader :=
  set_etype (mkMacHeader (mkMacAddress 2 0 0 0 0 1) (mkMacAddress 2 0 0 0 0 2) 0) 0x0800.

Definition ex_ip : IpHeader :=
  set_protocol (set_ip_length (set_ihl (set_version (set_ttl
    (set_ip_dst (set_ip_src IpHeader_new 0x0a000001) 0x0a000002) 1) 4) 5) 28) 0x11.

Definition ex_udp : UdpHeader := set_udp_length (set_src_port UdpHeader_new 1234) 8.

Definition ex_room : bytes := replicate 16 0.

Definition ex_tail : bytes := replicate 200 0.

Definition ex_mbuf : MBuf := mkMBuf 16 1 0 0 (ex_room ++ ex_tail).

Lemma ex_fresh : fresh_mbuf ex_mbuf ex_room ex_tail.
Proof. split; try done; apply (bool_decide_eq_true_1 _); by vm_compute. Qed.

Lemma ex_plain : plain_headers ex_mac ex_ip ex_udp.
Proof. split; try done; apply (bool_decide_eq_true_1 _); by vm_compute. Qed.

Definition ex_request : ClientRequest := CGet 7 3 [1; 2; 3] 99 SandstormClient.

Lemma client_request_roundtrip_witness :
  ∃ q u, cr_create (Some ex_mbuf) ex_mac ex_ip ex_udp 5 ex_request = Ret q ∧
    (∃ ip', get_header q = Ret ip' ∧ ip_length ip' = 28 + len (cr_wire ex_request)) ∧
    parse_header UdpHeader q = Ret u ∧
    (∃ udp', get_header u = Ret udp' ∧ udp_length udp' = 8 + len (cr_wire ex_request) ∧
             dst_port udp' = 5) ∧
    parse_rpc_service u = Ret MasterService ∧
    parse_rpc_opcode u = Ret (cr_opcode ex_request) ∧
    cr_parsed u ex_request.
Proof.
  apply (client_request_roundtrip ex_request ex_mbuf ex_room ex_tail ex_mac ex_ip ex_udp 5).
  - apply ex_fresh.
  - apply ex_plain.
  - unfold in_width. lia.
  - split; [discriminate|]. split; [apply (bool_decide_eq_true_1 _); by vm_compute|].
    split_and!; try (unfold in_width; lia). vm_compute. discriminate.
  - vm_compute. discriminate.
Defined.
