(* ===== verification/Alloc.v ===== *)
(** * Alloc: object layout and the table heap

    Models db/src/alloc.rs.  The buffer type [BytesMut] of the third-party
    [bytes] crate is the interface [BytesCrate], with its documented behaviour
    in [BytesCrateLaws]; a [Bytes] is its contents.  Every object is
    tenant (4) | table (8) | key length (2) | key | value, little-endian. *)

From S2P Require Import Prelude.

(** ** The [bytes] crate *)

Class BytesCrate := {
  BytesMut : Type;
  bm_data : BytesMut → bytes;
  bm_capacity : BytesMut → Z;
  with_capacity : Z → BytesMut;
  put_slice : BytesMut → bytes → outcome BytesMut;
}.

(** [with_capacity] gives an empty buffer with at least the requested
    capacity; [put_slice] appends, and panics when the capacity is exceeded. *)
Class BytesCrateLaws `{BytesCrate} := {
  with_capacity_data : ∀ n, bm_data (with_capacity n) = [];
  with_capacity_capacity : ∀ n, n ≤ bm_capacity (with_capacity n);
  put_slice_fits : ∀ b s, len (bm_data b) + len s ≤ bm_capacity b →
    ∃ b', put_slice b s = Ret b' ∧ bm_data b' = bm_data b ++ s ∧
          bm_capacity b' = bm_capacity b;
  put_slice_full : ∀ b s, bm_capacity b < len (bm_data b) + len s → put_slice b s = Panic;
}.

(** A buffer of exactly the requested capacity, for the witnesses. *)
Definition exact_put (b : Z * bytes) (s : bytes) : outcome (Z * bytes) :=
  if decide (len b.2 + len s ≤ b.1) then Ret (b.1, b.2 ++ s) else Panic.

Definition exact_bytes : BytesCrate := {|
  BytesMut := Z * bytes;
  bm_data := snd;
  bm_capacity := fst;
  with_capacity n := (n, []);
  put_slice := exact_put;
|}.

(** [Bytes::slice] and [Bytes::slice_from] panic out of range. *)
Definition slice_from (b : bytes) (from : Z) : outcome bytes := slice b from (len b).

(** ** Allocator *)

Section allocator.
Context `{BytesCrate}.

Definition meta_size : Z := 4 + 8 + 2.

Definition alloc (tenant table key_len val_len : Z) : outcome BytesMut :=
  let size := (meta_size +u64 key_len) +u64 val_len in
  let object := with_capacity size in
  object ← put_slice object (le_bytes 4 tenant);
  object ← put_slice object (le_bytes 8 table);
  put_slice object (le_bytes 2 key_len).

Definition raw (tenant table : Z) (key : bytes) (val_len : Z) : outcome BytesMut :=
  object ← alloc tenant table (wrap 16 (len key)) val_len;
  put_slice object key.

(** The pair is the key handle and the whole object. *)
Definition object (tenant table : Z) (key val : bytes) : outcome (bytes * bytes) :=
  object ← alloc tenant table (wrap 16 (len key)) (len val);
  object ← put_slice object key;
  object ← put_slice object val;
  let object := bm_data object in
  let meta := meta_size in
  k ← slice object meta (meta + len key);
  Ret (k, object).

Definition resolve (object : bytes) : outcome (option (bytes * bytes)) :=
  let meta := meta_size in
  match object !! Z.to_nat (meta - 2), object !! Z.to_nat (meta - 1) with
  | Some lb, Some rb =>
      let key_len := wadd 16 lb (wmul 16 rb 256) in
      k ← slice object meta (meta + key_len);
      v ← slice_from object (meta + key_len);
      Ret (Some (k, v))
  | _, _ => Ret None
  end.

(** ** The layout *)

(** What [object] writes. *)
Definition obj_layout (tenant table : Z) (key val : bytes) : bytes :=
  le_bytes 4 tenant ++ le_bytes 8 table ++ le_bytes 2 (len key) ++ key ++ val.

Definition obj_meta (tenant table key_len : Z) : bytes :=
  le_bytes 4 tenant ++ le_bytes 8 table ++ le_bytes 2 key_len.

Lemma obj_meta_len tenant table key_len : len (obj_meta tenant table key_len) = meta_size.
Proof. unfold obj_meta, len. by autorewrite with kayak_len. Qed.

Context `{!BytesCrateLaws}.

Lemma alloc_spec tenant table key_len val_len :
  0 ≤ key_len → 0 ≤ val_len → meta_size + key_len + val_len < 2 ^ 64 →
  ∃ b, alloc tenant table key_len val_len = Ret b ∧
    bm_data b = obj_meta tenant table key_len ∧
    meta_size + key_len + val_len ≤ bm_capacity b.
Proof.
  intros Hk Hv Hs. unfold alloc, meta_size in *.
  rewrite (wadd_id 64 _ key_len), (wadd_id 64) by (unfold in_width; lia).
  set (n := 4 + 8 + 2 + key_len + val_len) in *.
  pose proof (with_capacity_data n) as Hd. pose proof (with_capacity_capacity n) as Hc.
  destruct (put_slice_fits (with_capacity n) (le_bytes 4 tenant)) as (b1 & -> & Hd1 & Hc1).
  { rewrite Hd, len_le_bytes. change (len []) with 0. lia. }
  cbn [mbind outcome_bind]. rewrite Hd, app_nil_l in Hd1.
  destruct (put_slice_fits b1 (le_bytes 8 table)) as (b2 & -> & Hd2 & Hc2).
  { rewrite Hd1, !len_le_bytes, Hc1. lia. }
  cbn [mbind outcome_bind]. rewrite Hd1 in Hd2.
  destruct (put_slice_fits b2 (le_bytes 2 key_len)) as (b3 & -> & Hd3 & Hc3).
  { rewrite Hd2. rewrite !len_app, !len_le_bytes, Hc2, Hc1. lia. }
  exists b3. split; [done|]. split; [by rewrite Hd3, Hd2, <- (assoc_L (++))|]. lia.
Qed.

Lemma meta_size_eq : meta_size = 14.
Proof. done. Qed.

(** [object] writes the layout, whatever the key and value, up to the key
    length that fits its two-byte field. *)
Lemma object_layout tenant table key val :
  len key < 2 ^ 16 → len val < 2 ^ 63 →
  object tenant table key val = Ret (key, obj_layout tenant table key val).
Proof.
  intros Hk Hv. pose proof (len_nonneg key). pose proof (len_nonneg val).
  unfold object. rewrite wrap_id by (unfold in_width; lia).
  destruct (alloc_spec tenant table (len key) (len val)) as (b & -> & Hd & Hc);
    [done..|rewrite meta_size_eq; lia|].
  cbn [mbind outcome_bind].
  destruct (put_slice_fits b key) as (b1 & -> & Hd1 & Hc1).
  { rewrite Hd, obj_meta_len. lia. }
  cbn [mbind outcome_bind].
  destruct (put_slice_fits b1 val) as (b2 & -> & Hd2 & Hc2).
  { rewrite Hd1, Hd. rewrite len_app, obj_meta_len. lia. }
  cbn [mbind outcome_bind]. rewrite Hd2, Hd1, Hd.
  rewrite <- (assoc_L (++)), slice_app by by rewrite ?obj_meta_len.
  cbn [mbind outcome_bind]. unfold obj_layout, obj_meta. by rewrite <- !(assoc_L (++)).
Qed.

Lemma le_bytes_2 v : 0 ≤ v < 2 ^ 16 →
  ∃ lb rb, le_bytes 2 v = [lb; rb] ∧ wadd 16 lb (wmul 16 rb 256) = v.
Proof.
  intros Hv. change (2 ^ 16) with 65536 in Hv.
  pose proof (Z.mod_pos_bound v 256 ltac:(lia)).
  pose proof (Z.mod_pos_bound (v / 256) 256 ltac:(lia)).
  assert ((v / 256) mod 256 = v / 256) as Hm.
  { apply Z.mod_small. split; [apply Z.div_pos; lia | apply Z.div_lt_upper_bound; lia]. }
  pose proof (Z.div_mod v 256 ltac:(lia)).
  eexists _, _. split; [done|]. unfold wmul. rewrite wrap_id, wadd_id, Hm.
  - lia.
  - unfold in_width. rewrite Hm. lia.
  - unfold in_width. lia.
Qed.

Lemma resolve_app (m : bytes) lb rb key val :
  length m = 12%nat → wadd 16 lb (wmul 16 rb 256) = len key →
  resolve (m ++ [lb; rb] ++ key ++ val) = Ret (Some (key, val)).
Proof.
  intros Hm Hw. unfold resolve.
  replace (Z.to_nat (meta_size - 2)) with (length m + 0)%nat by (rewrite Hm; done).
  replace (Z.to_nat (meta_size - 1)) with (length m + 1)%nat by (rewrite Hm; done).
  rewrite (lookup_app_r m _ (length m + 0)), (lookup_app_r m _ (length m + 1)) by lia.
  rewrite !(Nat.add_comm (length m)), !Nat.add_sub.
  cbn [lookup list_lookup app]. cbv zeta. rewrite Hw.
  change (m ++ lb :: rb :: key ++ val) with (m ++ [lb; rb] ++ key ++ val).
  rewrite (assoc_L (++) m). assert (len (m ++ [lb; rb]) = meta_size) as Hl.
  { unfold len. rewrite length_app, Hm. done. }
  rewrite slice_app by by rewrite ?Hl. cbn [mbind outcome_bind].
  unfold slice_from. set (pre := m ++ [lb; rb]) in *.
  replace (pre ++ key ++ val) with ((pre ++ key) ++ val ++ [])
    by by rewrite app_nil_r, <- (assoc_L (++)).
  rewrite slice_app; [done| |]; rewrite !len_app, Hl; [done|].
  change (len (@nil Z)) with 0. lia.
Qed.

Lemma resolve_layout tenant table key val :
  len key < 2 ^ 16 → resolve (obj_layout tenant table key val) = Ret (Some (key, val)).
Proof.
  intros Hk. pose proof (len_nonneg key).
  destruct (le_bytes_2 (len key)) as (lb & rb & He & Hw); [lia|].
  unfold obj_layout. rewrite He, (assoc_L (++)). apply resolve_app; [|done].
  rewrite length_app, !le_bytes_length. done.
Qed.
End allocator.

#[export] Instance exact_bytes_laws : @BytesCrateLaws exact_bytes.
Proof.
  split; cbn; intros; unfold exact_put; cbn; [done|lia| |].
  - rewrite decide_True by done. by eexists.
  - by rewrite decide_False by lia.
Qed.

(** ** Properties *)

(** [resolve] undoes [object].  For every tenant, table, value and key whose
    length fits the two-byte length field, [object] succeeds, the key handle it
    returns is the key, and [resolve] on the object it returns gives back
    exactly the key and the value. *)
Theorem resolve_object `{BytesCrateLaws} tenant table key val :
  len key < 2 ^ 16 → len val < 2 ^ 63 →
  ∃ obj, object tenant table key val = Ret (key, obj) ∧
         resolve obj = Ret (Some (key, val)).
Proof. intros. eexists. split; [by apply object_layout | by apply resolve_layout]. Qed.

Lemma resolve_object_witness :
  ∃ obj, @object exact_bytes 1 2 [3; 4] [5] = Ret ([3; 4], obj) ∧
         resolve obj = Ret (Some ([3; 4], [5])).
Proof. apply (@resolve_object exact_bytes _ 1 2 [3; 4] [5]); vm_compute; done. Defined.

(** an object allocated by [raw] and then filled by an extension resolves.
    [raw] writes the metadata and the key and reserves room for the value:
    any [val_len] bytes can be appended without a panic, and [resolve] on the
    result gives the key and those bytes. *)
Theorem resolve_raw `{BytesCrateLaws} tenant table key val :
  len key < 2 ^ 16 → len val < 2 ^ 63 →
  ∃ b b', raw tenant table key (len val) = Ret b ∧ put_slice b val = Ret b' ∧
          resolve (bm_data b') = Ret (Some (key, val)).
Proof.
  intros Hk Hv. pose proof (len_nonneg key). pose proof (len_nonneg val).
  unfold raw. rewrite wrap_id by (unfold in_width; lia).
  destruct (alloc_spec tenant table (len key) (len val)) as (b & -> & Hd & Hc);
    [done..|rewrite meta_size_eq; lia|].
  cbn [mbind outcome_bind].
  destruct (put_slice_fits b key) as (b1 & -> & Hd1 & Hc1).
  { rewrite Hd, obj_meta_len. lia. }
  destruct (put_slice_fits b1 val) as (b2 & Hp & Hd2 & Hc2).
  { rewrite Hd1, Hd. rewrite len_app, obj_meta_len. lia. }
  exists b1, b2. split_and!; [done..|].
  rewrite Hd2, Hd1, Hd. unfold obj_meta. rewrite <- !(assoc_L (++)).
  by apply resolve_layout.
Qed.

Lemma resolve_raw_witness :
  ∃ b b', @raw exact_bytes 1 2 [3; 4] 1 = Ret b ∧ @put_slice exact_bytes b [5] = Ret b' ∧
          resolve (@bm_data exact_bytes b') = Ret (Some ([3; 4], [5])).
Proof. apply (@resolve_raw exact_bytes _ 1 2 [3; 4] [5]); vm_compute; done. Defined.
