(* ===== verification/Tx.v ===== *)
(** * Tx: read-write sets

    Models db/src/tx.rs and the [Record] of db/src/wireformat.rs.  [Bytes] keys
    are ordered lexicographically; [Vec::sort_by_key] is a stable sort, written
    here as the insertion sort that any stable sort agrees with. *)

From S2P Require Import Prelude Packed Wire.

(** ** Ordering of keys *)

Fixpoint bytes_leb (a b : bytes) : bool :=
  match a, b with
  | [], _ => true
  | _ :: _, [] => false
  | x :: a', y :: b' => if x <? y then true else if y <? x then false else bytes_leb a' b'
  end.

(** ** Stable sorting by key *)

Section sort_by_key.
Context {A : Type} (key : A → bytes).

Fixpoint sort_insert (x : A) (l : list A) : list A :=
  match l with
  | [] => [x]
  | y :: l' => if bytes_leb (key x) (key y) then x :: l else y :: sort_insert x l'
  end.

Fixpoint sort_by_key (l : list A) : list A :=
  match l with
  | [] => []
  | x :: l' => sort_insert x (sort_by_key l')
  end.
End sort_by_key.

(** ** Records and transactions *)

(** [wireformat::Record]; a [Version] is its [u64]. *)
Record RwRecord := mkRwRecord {
  rec_optype : OpType;
  rec_version : Z;
  rec_key : bytes;
  rec_object : bytes;
}.

Definition Record_new (r_optype : OpType) (version : Z) (r_key r_object : bytes) : RwRecord :=
  mkRwRecord r_optype version r_key r_object.

Definition get_key (r : RwRecord) : bytes := rec_key r.

Record TX := mkTX {
  reads : list RwRecord;
  writes : list RwRecord;
}.

Definition TX_new : TX := mkTX [] [].

Definition tx_sort (tx : TX) : TX :=
  mkTX (sort_by_key get_key (reads tx)) (sort_by_key get_key (writes tx)).

Definition record_get (tx : TX) (r : RwRecord) : TX := mkTX (reads tx ++ [r]) (writes tx).

Definition record_put (tx : TX) (r : RwRecord) : TX := mkTX (reads tx) (writes tx ++ [r]).

(** ** The key order is a total order *)

Lemma bytes_leb_total a b : bytes_leb a b = true ∨ bytes_leb b a = true.
Proof.
  revert b. induction a as [|x a IH]; intros [|y b]; simpl; auto.
  destruct (Z.ltb_spec x y), (Z.ltb_spec y x); auto.
Qed.

Lemma bytes_leb_trans a b c : bytes_leb a b = true → bytes_leb b c = true → bytes_leb a c = true.
Proof.
  revert b c. induction a as [|x a IH]; intros [|y b] [|z c]; simpl; try done.
  destruct (Z.ltb_spec x y), (Z.ltb_spec y x), (Z.ltb_spec y z), (Z.ltb_spec z y),
    (Z.ltb_spec x z), (Z.ltb_spec z x); try done; try lia; eauto.
Qed.

Lemma bytes_leb_antisym a b : bytes_leb a b = true → bytes_leb b a = true → a = b.
Proof.
  revert b. induction a as [|x a IH]; intros [|y b]; simpl; try done.
  destruct (Z.ltb_spec x y), (Z.ltb_spec y x); try done; try lia.
  intros. f_equal; [lia|auto].
Qed.

(** ** Sorting is a stable permutation *)

Section sort_lemmas.
Context {A : Type} (key : A → bytes).
Abbreviation le x y := (bytes_leb (key x) (key y) = true).

Lemma sort_insert_perm x l : sort_insert key x l ≡ₚ x :: l.
Proof.
  induction l as [|y l IH]; simpl; [done|]. destruct (bytes_leb _ _); [done|].
  rewrite IH. apply Permutation_swap.
Qed.

Lemma sort_by_key_perm l : sort_by_key key l ≡ₚ l.
Proof. induction l as [|x l IH]; simpl; [done|]. by rewrite sort_insert_perm, IH. Qed.

Lemma sort_insert_sorted x l :
  StronglySorted (λ x y, le x y) l → StronglySorted (λ x y, le x y) (sort_insert key x l).
Proof.
  induction 1 as [|y l Hs IH Hall]; simpl; [repeat constructor|].
  destruct (bytes_leb (key x) (key y)) eqn:E.
  - constructor; [by constructor|]. constructor; [done|].
    eapply Forall_impl; [exact Hall|]. intros z ?. by eapply bytes_leb_trans.
  - constructor; [done|]. rewrite sort_insert_perm. constructor; [|done].
    destruct (bytes_leb_total (key x) (key y)); congruence.
Qed.

Lemma sort_by_key_sorted l : StronglySorted (λ x y, le x y) (sort_by_key key l).
Proof. induction l; simpl; [constructor | by apply sort_insert_sorted]. Qed.

Lemma sort_insert_filter x l k :
  filter (λ y, key y = k) (sort_insert key x l) = filter (λ y, key y = k) (x :: l).
Proof.
  induction l as [|y l IH]; [done|]. cbn [sort_insert].
  destruct (bytes_leb (key x) (key y)) eqn:E; [done|].
  rewrite filter_cons, IH, !filter_cons.
  repeat case_decide; try done. subst k.
  destruct (bytes_leb_total (key x) (key y)); congruence.
Qed.

(** Stability: records with one key keep their order. *)
Lemma sort_by_key_filter l k :
  filter (λ y, key y = k) (sort_by_key key l) = filter (λ y, key y = k) l.
Proof.
  induction l as [|x l IH]; [done|]. cbn [sort_by_key].
  rewrite sort_insert_filter, !filter_cons. by rewrite IH.
Qed.

Lemma sort_by_key_elem x l : x ∈ sort_by_key key l ↔ x ∈ l.
Proof. by rewrite sort_by_key_perm. Qed.
End sort_lemmas.
