(* ===== verification/Table.v ===== *)
(** * Table: the versioned hash table and transaction validation

    Models db/src/table.rs.  A table is an array of 128 maps, each behind a
    read-write lock, and the highest version ever deleted.  An operation here
    is one call that runs with its locks held; [validate] keeps the source's
    array of lock guards, and logs the locks it acquires for the concurrent
    model of [Locking].  The clock reading that versions a commit is an
    argument. *)

From S2P Require Import Prelude Packed Wire Alloc Tx.

(** ** Data *)

Definition N_BUCKETS : Z := 128.

Record Entry := mkEntry {
  entry_version : Z;
  entry_value : bytes;
}.

#[export] Instance Entry_eq_dec : EqDecision Entry.
Proof. solve_decision. Defined.

Abbreviation Map := (gmap bytes Entry).

Record Table := mkTable {
  maps : list Map;
  max_deleted_version : Z;
}.

(** [Result<(), ()>] with its two constants. *)
Inductive TxDecision := COMMIT | ABORT.

#[export] Instance TxDecision_eq_dec : EqDecision TxDecision.
Proof. solve_decision. Defined.

Definition Table_default : Table := mkTable (replicate (Z.to_nat N_BUCKETS) ∅) 0.

(** ** Single-key operations *)

Definition bucket (key : bytes) : outcome nat :=
  k0 ← expect (key !! 0%nat); Ret (Z.to_nat (Z.land k0 (N_BUCKETS - 1))).

Definition with_map (t : Table) (b : nat) (m : Map) : Table :=
  mkTable (<[b := m]> (maps t)) (max_deleted_version t).

Definition table_get (t : Table) (key : bytes) : outcome (option Entry) :=
  b ← bucket key; map ← expect (maps t !! b); Ret (map !! key).

Definition table_put (t : Table) (key value : bytes) : outcome (Table * option Entry) :=
  b ← bucket key;
  map ← expect (maps t !! b);
  match map !! key with
  | Some entry =>
      let entry := mkEntry (entry_version entry +u64 1) value in
      Ret (with_map t b (<[key := entry]> map), Some entry)
  | None =>
      let version := max_deleted_version t +u64 1 in
      Ret (with_map t b (<[key := mkEntry version value]> map), map !! key)
  end.

Definition table_delete (t : Table) (key : bytes) : outcome Table :=
  b ← bucket key;
  map ← expect (maps t !! b);
  match map !! key with
  | Some entry =>
      Ret (mkTable (<[b := delete key map]> (maps t))
             (Z.max (max_deleted_version t) (entry_version entry)))
  | None => Ret t
  end.

Definition table_version : Z := 0.

(** ** Transaction validation *)

Inductive Lock := Unlocked | ReadLocked | WriteLocked.

(** A lock acquisition, in the order [validate] performs them. *)
Inductive Acquire := AcqRead (b : nat) | AcqWrite (b : nat).

Definition Locks : Type := list Lock * list Acquire.

Definition no_locks : Locks := (replicate (Z.to_nat N_BUCKETS) Unlocked, []).

Definition acquire_write (s : Locks) (record : RwRecord) : outcome Locks :=
  b ← bucket (rec_key record);
  lock ← unchecked (s.1 !! b);
  match lock with
  | Unlocked => Ret (<[b := WriteLocked]> s.1, s.2 ++ [AcqWrite b])
  | WriteLocked => Ret s
  | ReadLocked => Panic
  end.

Definition record_version_ok (map : Map) (record : RwRecord) : TxDecision :=
  match map !! rec_key record with
  | Some entry => if decide (rec_version record = entry_version entry) then COMMIT else ABORT
  | None => ABORT
  end.

(** Collecting into a [Result] stops at the first error. *)
Fixpoint validate_reads (t : Table) (s : Locks) (rs : list RwRecord) :
    outcome (Locks * TxDecision) :=
  match rs with
  | [] => Ret (s, COMMIT)
  | record :: rs' =>
      b ← bucket (rec_key record);
      lock ← unchecked (s.1 !! b);
      map ← expect (maps t !! b);
      let s' := match lock with
                | Unlocked => (<[b := ReadLocked]> s.1, s.2 ++ [AcqRead b])
                | WriteLocked | ReadLocked => s
                end in
      match record_version_ok map record with
      | COMMIT => validate_reads t s' rs'
      | ABORT => Ret (s', ABORT)
      end
  end.

Section validate.
Context `{BytesCrate}.

Definition install_write (locks : list Lock) (tenant_id table_id version : Z)
    (t : Table) (record : RwRecord) : outcome Table :=
  let key := rec_key record in
  b ← bucket key;
  lock ← unchecked (locks !! b);
  match lock with
  | WriteLocked =>
      map ← expect (maps t !! b);
      match map !! key with
      | Some _ =>
          obj ← object tenant_id table_id key (rec_object record);
          Ret (with_map t b (<[key := mkEntry version obj.2]> map))
      | None => Panic
      end
  | Unlocked | ReadLocked => Panic
  end.

(** The writes installed before a panic stay in the table. *)
Fixpoint install_writes (locks : list Lock) (tenant_id table_id version : Z)
    (t : Table) (ws : list RwRecord) : Table * outcome unit :=
  match ws with
  | [] => (t, Ret tt)
  | record :: ws' =>
      match install_write locks tenant_id table_id version t record with
      | Ret t' => install_writes locks tenant_id table_id version t' ws'
      | Panic => (t, Panic)
      | Undef => (t, Undef)
      end
  end.

Definition acquire_all (t : Table) (tx : TX) : outcome (Locks * TxDecision) :=
  s ← ofold acquire_write no_locks (writes tx); validate_reads t s (reads tx).

Definition validate (t : Table) (tenant_id table_id : Z) (tx : TX) (rdtsc : Z) :
    Table * outcome TxDecision :=
  let tx := tx_sort tx in
  match acquire_all t tx with
  | Ret (s, COMMIT) =>
      let (t', r) := install_writes s.1 tenant_id table_id rdtsc t (writes tx) in
      (t', _ ← r; Ret COMMIT)
  | Ret (_, ABORT) => (t, Ret ABORT)
  | Panic => (t, Panic)
  | Undef => (t, Undef)
  end.
End validate.

(** ** Abstract specification

    One map from keys to entries, and the highest deleted version. *)

Record TableSpec := mkSpec {
  spec_map : gmap bytes Entry;
  spec_floor : Z;
}.

Definition spec_put (s : TableSpec) (key value : bytes) : TableSpec * option Entry :=
  match spec_map s !! key with
  | Some e =>
      let e' := mkEntry (entry_version e +u64 1) value in
      (mkSpec (<[key := e']> (spec_map s)) (spec_floor s), Some e')
  | None =>
      (mkSpec (<[key := mkEntry (spec_floor s +u64 1) value]> (spec_map s)) (spec_floor s), None)
  end.

Definition spec_delete (s : TableSpec) (key : bytes) : TableSpec :=
  mkSpec (delete key (spec_map s))
    (match spec_map s !! key with
     | Some e => Z.max (spec_floor s) (entry_version e) | None => spec_floor s end).

(** The version a read must have seen is the current one. *)
Definition read_current (m : gmap bytes Entry) (r : RwRecord) : Prop :=
  entry_version <$> m !! rec_key r = Some (rec_version r).

#[export] Instance read_current_dec m r : Decision (read_current m r).
Proof. unfold read_current. apply _. Defined.

(** A committed transaction writes its records in the order it issued them. *)
Definition spec_write (tenant table version : Z) (m : gmap bytes Entry) (r : RwRecord) :
    gmap bytes Entry :=
  <[rec_key r := mkEntry version (obj_layout tenant table (rec_key r) (rec_object r))]> m.

Definition spec_validate (s : TableSpec) (tenant table : Z) (tx : TX) (clock : Z) :
    TableSpec * TxDecision :=
  if decide (Forall (read_current (spec_map s)) (reads tx))
  then (mkSpec (foldl (spec_write tenant table clock) (spec_map s) (writes tx)) (spec_floor s),
        COMMIT)
  else (s, ABORT).

(** ** Well-formed tables and their flat view *)

Definition bucket_of (key : bytes) : nat := Z.to_nat (Z.land (hd 0 key) (N_BUCKETS - 1)).

Definition tview (t : Table) (key : bytes) : option Entry :=
  maps t !! bucket_of key ≫= λ m, m !! key.

Record table_wf (t : Table) : Prop := {
  wf_length : length (maps t) = Z.to_nat N_BUCKETS;
  wf_bucket : ∀ b m k e, maps t !! b = Some m → m !! k = Some e → k ≠ [] ∧ bucket_of k = b;
  wf_version : ∀ k e, tview t k = Some e → in_width 64 (entry_version e);
  wf_deleted : in_width 64 (max_deleted_version t);
}.

Record table_rel (t : Table) (s : TableSpec) : Prop := {
  rel_wf : table_wf t;
  rel_view : ∀ k, tview t k = spec_map s !! k;
  rel_floor : max_deleted_version t = spec_floor s;
}.

(** Keys and objects that the RPC length fields can carry. *)
Definition record_ok (r : RwRecord) : Prop :=
  rec_key r ≠ [] ∧ len (rec_key r) < 2 ^ 16 ∧ len (rec_object r) < 2 ^ 63.

Definition tx_ok (tx : TX) : Prop :=
  Forall (λ r, rec_key r ≠ []) (reads tx) ∧ Forall record_ok (writes tx).

Definition writes_present (m : gmap bytes Entry) (tx : TX) : Prop :=
  Forall (λ r, is_Some (m !! rec_key r)) (writes tx).

(** ** Buckets *)

Lemma bucket_ret k : k ≠ [] → bucket k = Ret (bucket_of k).
Proof. by destruct k. Qed.

Lemma bucket_of_lt k : (bucket_of k < Z.to_nat N_BUCKETS)%nat.
Proof.
  unfold bucket_of, N_BUCKETS. change (128 - 1) with (Z.ones 7).
  rewrite Z.land_ones by lia. pose proof (Z.mod_pos_bound (hd 0 k) (2 ^ 7) ltac:(lia)).
  change (2 ^ 7) with 128 in *. lia.
Qed.

Lemma wf_map t k :
  table_wf t → ∃ m, maps t !! bucket_of k = Some m ∧ tview t k = m !! k.
Proof.
  intros Hwf. destruct (lookup_lt_is_Some_2 (maps t) (bucket_of k)) as [m Hm].
  { rewrite (wf_length _ Hwf). apply bucket_of_lt. }
  exists m. unfold tview. by rewrite Hm.
Qed.

Lemma wf_view_nonempty t k e : table_wf t → tview t k = Some e → k ≠ [].
Proof.
  intros Hwf Hk. destruct (wf_map t k Hwf) as (m & Hm & Hv). rewrite Hv in Hk.
  by eapply wf_bucket.
Qed.

(** Changing one key of one bucket. *)
Lemma tview_alter t k m o d k' :
  maps t !! bucket_of k = Some m →
  tview (mkTable (<[bucket_of k := partial_alter (λ _, o) k m]> (maps t)) d) k' =
  if decide (k' = k) then o else tview t k'.
Proof.
  intros Hm. unfold tview. cbn [maps]. case_decide as Hk.
  - subst. rewrite list_lookup_insert_eq by by eapply lookup_lt_Some. cbn.
    apply lookup_partial_alter_eq.
  - destruct (decide (bucket_of k' = bucket_of k)) as [->|Hb].
    + rewrite list_lookup_insert_eq by by eapply lookup_lt_Some. rewrite Hm. cbn.
      by apply lookup_partial_alter_ne.
    + by rewrite list_lookup_insert_ne by done.
Qed.

Lemma wf_alter t k m o d :
  table_wf t → maps t !! bucket_of k = Some m → k ≠ [] → in_width 64 d →
  (∀ e, o = Some e → in_width 64 (entry_version e)) →
  table_wf (mkTable (<[bucket_of k := partial_alter (λ _, o) k m]> (maps t)) d).
Proof.
  intros Hwf Hm Hk Hd Ho. split; cbn [maps max_deleted_version].
  - rewrite length_insert. apply Hwf.
  - intros b m' k' e Hb He.
    destruct (decide (b = bucket_of k)) as [->|Hne].
    + rewrite list_lookup_insert_eq in Hb by by eapply lookup_lt_Some. simplify_eq.
      destruct (decide (k' = k)) as [->|]; [done|].
      rewrite lookup_partial_alter_ne in He by done. by eapply wf_bucket.
    + rewrite list_lookup_insert_ne in Hb by done. by eapply wf_bucket.
  - intros k' e He. rewrite tview_alter in He by done. case_decide; [by apply Ho|].
    by eapply wf_version.
  - done.
Qed.

Lemma wf_set t k m e :
  table_wf t → maps t !! bucket_of k = Some m → k ≠ [] → in_width 64 (entry_version e) →
  table_wf (with_map t (bucket_of k) (<[k := e]> m)).
Proof.
  intros Hwf Hm Hk He. apply wf_alter; [done..|apply Hwf|]. by intros ? [= <-].
Qed.

Lemma tview_set t k m e k' :
  maps t !! bucket_of k = Some m →
  tview (with_map t (bucket_of k) (<[k := e]> m)) k' =
  if decide (k' = k) then Some e else tview t k'.
Proof. apply tview_alter. Qed.

Lemma default_wf : table_wf Table_default.
Proof.
  assert (∀ b m, maps Table_default !! b = Some m → m = ∅) as Hm.
  { intros b m Hb. by apply lookup_replicate in Hb as [-> _]. }
  split; [done| | |done].
  - intros b m k e Hb He. apply Hm in Hb as ->. by rewrite lookup_empty in He.
  - intros k e. unfold tview. destruct (maps _ !! _) as [m|] eqn:Hb; cbn; [|done].
    apply Hm in Hb as ->. by rewrite lookup_empty.
Qed.

Lemma default_rel : table_rel Table_default (mkSpec ∅ 0).
Proof.
  split; [apply default_wf| |done]. intros k. cbn [spec_map]. rewrite lookup_empty.
  destruct (wf_map Table_default k default_wf) as (m & Hm & ->).
  apply lookup_replicate in Hm as [-> _]. apply lookup_empty.
Qed.

(** ** Single-key operations implement the specification *)

Lemma table_get_view t k : table_wf t → k ≠ [] → table_get t k = Ret (tview t k).
Proof.
  intros Hwf Hk. unfold table_get. rewrite bucket_ret by done.
  destruct (wf_map t k Hwf) as (m & Hm & ->). cbn. by rewrite Hm.
Qed.

Lemma table_put_view t k v :
  table_wf t → k ≠ [] →
  ∃ t' e, table_put t k v = Ret (t', (λ _, e) <$> tview t k) ∧ table_wf t' ∧
    max_deleted_version t' = max_deleted_version t ∧
    (∀ k', tview t' k' = if decide (k' = k) then Some e else tview t k') ∧
    e = mkEntry (match tview t k with Some e => entry_version e
                 | None => max_deleted_version t end +u64 1) v.
Proof.
  intros Hwf Hk. unfold table_put. rewrite bucket_ret by done.
  destruct (wf_map t k Hwf) as (m & Hm & ->). cbn [mbind outcome_bind]. rewrite Hm.
  cbn [expect mbind outcome_bind]. assert (∀ a, in_width 64 (a +u64 1)) by (intros; by apply wrap_range).
  destruct (m !! k) as [e|] eqn:He; cbn [fmap option_fmap option_map];
    (eexists _, (mkEntry _ v); split; [done|]);
    (split; [apply wf_set; cbn; auto|]); (split; [done|]); (split; [|done]);
    intros; by apply tview_set.
Qed.

Lemma table_delete_view t k :
  table_wf t → k ≠ [] →
  ∃ t', table_delete t k = Ret t' ∧ table_wf t' ∧
    max_deleted_version t' = match tview t k with
      | Some e => Z.max (max_deleted_version t) (entry_version e)
      | None => max_deleted_version t end ∧
    (∀ k', tview t' k' = if decide (k' = k) then None else tview t k').
Proof.
  intros Hwf Hk. unfold table_delete. rewrite bucket_ret by done.
  destruct (wf_map t k Hwf) as (m & Hm & Hv). cbn [mbind outcome_bind]. rewrite Hm.
  cbn [expect mbind outcome_bind]. rewrite Hv.
  destruct (m !! k) as [e|] eqn:He; eexists; (split; [done|]).
  - split; [|split; [done|intros; by apply tview_alter]].
    apply (wf_alter t k m None); [done..| |done].
    pose proof (wf_deleted _ Hwf). pose proof (wf_version _ Hwf k e Hv).
    unfold in_width in *. lia.
  - split; [done|]. split; [done|]. intros. case_decide; [congruence|done].
Qed.

(** ** The lock phase

    The array of guards agrees with the log of acquisitions, and no bucket is
    acquired twice: [validate] cannot deadlock with itself. *)

#[export] Instance Acquire_eq_dec : EqDecision Acquire.
Proof. solve_decision. Defined.

Definition acq_bucket (a : Acquire) : nat :=
  match a with AcqRead b | AcqWrite b => b end.

Definition acq_lock (a : Acquire) : Lock :=
  match a with AcqRead _ => ReadLocked | AcqWrite _ => WriteLocked end.

Record locks_inv (s : Locks) : Prop := {
  li_length : length s.1 = Z.to_nat N_BUCKETS;
  li_nodup : NoDup (acq_bucket <$> s.2);
  li_held : ∀ a, a ∈ s.2 → s.1 !! acq_bucket a = Some (acq_lock a);
  li_free : ∀ b l, s.1 !! b = Some l → l ≠ Unlocked → ∃ a, a ∈ s.2 ∧ acq_bucket a = b;
}.

Definition write_locked (s : Locks) (k : bytes) : Prop :=
  s.1 !! bucket_of k = Some WriteLocked.

Lemma no_locks_inv : locks_inv no_locks.
Proof.
  split; cbn [no_locks fst snd]; [done|constructor| |].
  { intros a Ha. by apply not_elem_of_nil in Ha. }
  intros b l Hl. by apply lookup_replicate in Hl as [-> _].
Qed.

Lemma locks_inv_acquire s a :
  locks_inv s → s.1 !! acq_bucket a = Some Unlocked →
  locks_inv (<[acq_bucket a := acq_lock a]> s.1, s.2 ++ [a]).
Proof.
  intros [Hl Hn Hh Hf] Hu.
  assert (∀ a', a' ∈ s.2 → acq_bucket a' ≠ acq_bucket a) as Hne.
  { intros a' Ha' He. apply Hh in Ha'. rewrite He, Hu in Ha'. by destruct a'. }
  split; cbn [fst snd].
  - by rewrite length_insert.
  - rewrite fmap_app. apply NoDup_app. split; [done|]. split; [|apply NoDup_singleton].
    intros b Hb. apply list_elem_of_fmap in Hb as (a' & -> & Ha'). cbn.
    rewrite list_elem_of_singleton. by apply Hne.
  - intros a' Ha'. apply elem_of_app in Ha' as [Ha' | Ha'].
    + rewrite list_lookup_insert_ne by (apply Hne in Ha'; congruence). by apply Hh.
    + apply list_elem_of_singleton in Ha' as ->.
      apply list_lookup_insert_eq. by eapply lookup_lt_Some.
  - intros b l Hb Hlu. destruct (decide (b = acq_bucket a)) as [->|]; [exists a; set_solver|].
    rewrite list_lookup_insert_ne in Hb by done.
    destruct (Hf _ _ Hb Hlu) as (a' & ? & ?). exists a'. set_solver.
Qed.

Lemma write_locked_acquire s a k :
  s.1 !! acq_bucket a = Some Unlocked → write_locked s k →
  write_locked (<[acq_bucket a := acq_lock a]> s.1, s.2 ++ [a]) k.
Proof.
  unfold write_locked. cbn [fst]. intros Hu Hk.
  rewrite list_lookup_insert_ne; [done|]. intros He. rewrite He in Hu. congruence.
Qed.

Lemma locks_lookup s k : locks_inv s → ∃ l, s.1 !! bucket_of k = Some l.
Proof.
  intros Hs. apply lookup_lt_is_Some_2. rewrite (li_length _ Hs). apply bucket_of_lt.
Qed.

Definition only_writes (s : Locks) : Prop := ∀ a, a ∈ s.2 → acq_lock a = WriteLocked.

Lemma acquire_write_spec s r :
  locks_inv s → only_writes s → rec_key r ≠ [] →
  ∃ s', acquire_write s r = Ret s' ∧ locks_inv s' ∧ only_writes s' ∧
    write_locked s' (rec_key r) ∧ ∀ k, write_locked s k → write_locked s' k.
Proof.
  intros Hs Ho Hk. unfold acquire_write. rewrite bucket_ret by done.
  destruct (locks_lookup s (rec_key r) Hs) as [l Hl].
  cbn [mbind outcome_bind]. rewrite Hl. cbn [unchecked mbind outcome_bind].
  set (a := AcqWrite (bucket_of (rec_key r))).
  destruct l.
  - eexists. split; [done|]. split_and!.
    + by apply (locks_inv_acquire s a).
    + intros a'. cbn [snd]. rewrite elem_of_app, list_elem_of_singleton. intros [?| ->]; [by apply Ho|done].
    + unfold write_locked. apply list_lookup_insert_eq. by eapply lookup_lt_Some.
    + intros k. by apply (write_locked_acquire s a).
  - destruct (li_free _ Hs _ _ Hl) as (a' & Ha' & Hb); [done|].
    pose proof (li_held _ Hs _ Ha') as Hh. rewrite Hb, Hl, (Ho _ Ha') in Hh. done.
  - exists s. by split_and!.
Qed.

Lemma acquire_writes_spec s ws :
  locks_inv s → only_writes s → Forall (λ r, rec_key r ≠ []) ws →
  ∃ s', ofold acquire_write s ws = Ret s' ∧ locks_inv s' ∧
    Forall (λ r, write_locked s' (rec_key r)) ws ∧
    ∀ k, write_locked s k → write_locked s' k.
Proof.
  intros Hs Ho Hws. revert s Hs Ho. induction Hws as [|r ws Hr _ IH]; intros s Hs Ho.
  { exists s. by split_and!. }
  destruct (acquire_write_spec s r Hs Ho Hr) as (s1 & He & Hs1 & Ho1 & Hw & Hm).
  destruct (IH s1 Hs1 Ho1) as (s2 & He2 & Hs2 & Hws2 & Hm2).
  exists s2. cbn. rewrite He. cbn. split_and!; [done..|constructor; auto|auto].
Qed.

Definition reads_current (t : Table) (rs : list RwRecord) : Prop :=
  Forall (λ r, entry_version <$> tview t (rec_key r) = Some (rec_version r)) rs.

#[export] Instance reads_current_dec t rs : Decision (reads_current t rs).
Proof. unfold reads_current. apply _. Defined.

Lemma record_version_ok_spec t m r :
  m !! rec_key r = tview t (rec_key r) →
  record_version_ok m r =
  if decide (entry_version <$> tview t (rec_key r) = Some (rec_version r)) then COMMIT else ABORT.
Proof.
  intros Hm. unfold record_version_ok. rewrite Hm.
  destruct (tview t (rec_key r)) as [e|]; cbn; repeat case_decide; congruence.
Qed.

Lemma validate_reads_spec t s rs :
  table_wf t → locks_inv s → Forall (λ r, rec_key r ≠ []) rs →
  ∃ s', validate_reads t s rs =
      Ret (s', if decide (reads_current t rs) then COMMIT else ABORT) ∧
    locks_inv s' ∧ ∀ k, write_locked s k → write_locked s' k.
Proof.
  intros Ht Hs Hrs. revert s Hs. induction Hrs as [|r rs Hr _ IH]; intros s Hs.
  { exists s. rewrite decide_True by constructor. by split_and!. }
  cbn [validate_reads]. rewrite bucket_ret by done.
  destruct (locks_lookup s (rec_key r) Hs) as [l Hl].
  destruct (wf_map t (rec_key r) Ht) as (m & Hm & Hv).
  cbn [mbind outcome_bind]. rewrite Hl, Hm. cbn [unchecked expect mbind outcome_bind].
  set (a := AcqRead (bucket_of (rec_key r))).
  set (s1 := match l with
             | Unlocked => (<[bucket_of (rec_key r) := ReadLocked]> s.1, s.2 ++ [a])
             | _ => s end).
  assert (locks_inv s1 ∧ ∀ k, write_locked s k → write_locked s1 k) as [Hs1 Hm1].
  { destruct l; [|by split..]. split; [by apply (locks_inv_acquire s a)|].
    intros k. by apply (write_locked_acquire s a). }
  rewrite (record_version_ok_spec t) by done.
  destruct (IH s1 Hs1) as (s2 & He & Hs2 & Hm2).
  destruct (decide (entry_version <$> tview t (rec_key r) = Some (rec_version r))) as [Hc|Hc].
  - exists s2. rewrite He. split; [|auto]. do 2 f_equal.
    apply decide_ext. unfold reads_current. rewrite Forall_cons. tauto.
  - exists s1. split; [|done]. rewrite decide_False; [done|].
    unfold reads_current. rewrite Forall_cons. tauto.
Qed.

(** ** The install phase *)

Lemma spec_write_lookup tenant table version m r k :
  spec_write tenant table version m r !! k =
  if decide (k = rec_key r)
  then Some (mkEntry version (obj_layout tenant table (rec_key r) (rec_object r)))
  else m !! k.
Proof.
  unfold spec_write. case_decide; [subst; apply lookup_insert_eq | by apply lookup_insert_ne].
Qed.

(** The last write of each key wins. *)
Lemma spec_writes_lookup tenant table version m ws k :
  foldl (spec_write tenant table version) m ws !! k =
  match last (filter (λ r, rec_key r = k) ws) with
  | Some r => Some (mkEntry version (obj_layout tenant table k (rec_object r)))
  | None => m !! k
  end.
Proof.
  induction ws as [|r ws IH] using rev_ind; [done|].
  rewrite foldl_app, filter_app. cbn [foldl]. rewrite spec_write_lookup, filter_cons.
  change (filter (λ r, rec_key r = k) []) with (@nil RwRecord).
  case_decide as Hk; case_decide as Hk'; try congruence.
  - by rewrite last_snoc, Hk.
  - by rewrite app_nil_r.
Qed.

Lemma spec_writes_sort tenant table version m ws :
  foldl (spec_write tenant table version) m (sort_by_key get_key ws) =
  foldl (spec_write tenant table version) m ws.
Proof.
  apply map_eq. intros k. rewrite !spec_writes_lookup.
  pose proof (sort_by_key_filter get_key ws k) as He. unfold get_key in *. by rewrite He.
Qed.

Lemma spec_write_present tenant table version m r k :
  is_Some (m !! k) → is_Some (spec_write tenant table version m r !! k).
Proof. intros ?. rewrite spec_write_lookup. by case_decide. Qed.

Section install.
Context `{BytesCrateLaws}.

Lemma install_write_spec (s : Locks) tenant table version t m r :
  table_wf t → (∀ k, tview t k = m !! k) → in_width 64 version →
  write_locked s (rec_key r) → record_ok r → is_Some (m !! rec_key r) →
  ∃ t', install_write s.1 tenant table version t r = Ret t' ∧ table_wf t' ∧
    max_deleted_version t' = max_deleted_version t ∧
    ∀ k, tview t' k = spec_write tenant table version m r !! k.
Proof.
  intros Ht Hv Hver Hl (Hk & Hk16 & Ho) Hp. unfold install_write. rewrite bucket_ret by done.
  cbn [mbind outcome_bind]. rewrite Hl. cbn [unchecked mbind outcome_bind].
  destruct (wf_map t (rec_key r) Ht) as (mp & Hmp & Hvm). rewrite Hmp.
  cbn [expect mbind outcome_bind]. rewrite <- Hvm, Hv. destruct Hp as [e ->].
  rewrite object_layout by done. cbn [mbind outcome_bind snd].
  eexists. split; [done|]. split; [by apply wf_set|]. split; [done|].
  intros k. rewrite tview_set, spec_write_lookup by done. by case_decide.
Qed.

Lemma install_writes_spec (s : Locks) tenant table version t m ws :
  table_wf t → (∀ k, tview t k = m !! k) → in_width 64 version →
  Forall (λ r, write_locked s (rec_key r)) ws → Forall record_ok ws →
  Forall (λ r, is_Some (m !! rec_key r)) ws →
  ∃ t', install_writes s.1 tenant table version t ws = (t', Ret tt) ∧ table_wf t' ∧
    max_deleted_version t' = max_deleted_version t ∧
    ∀ k, tview t' k = foldl (spec_write tenant table version) m ws !! k.
Proof.
  intros Ht Hv Hver Hl Ho Hp. revert t m Ht Hv Hp.
  induction ws as [|r ws IH]; intros t m Ht Hv Hp; [by exists t|].
  apply Forall_cons in Hl as [Hl Hls], Ho as [Ho Hos], Hp as [Hp Hps].
  destruct (install_write_spec s tenant table version t m r) as (t1 & He & Ht1 & Hd1 & Hv1); try done.
  destruct (IH Hls Hos t1 (spec_write tenant table version m r)) as (t2 & He2 & Ht2 & Hd2 & Hv2);
    [done|done| |].
  { eapply Forall_impl; [exact Hps|]. intros; by apply spec_write_present. }
  exists t2. cbn. rewrite He. split_and!; [done..|congruence|done].
Qed.

(** The locks are taken, without a panic, whatever the table holds. *)
Lemma acquire_all_spec t tx :
  table_wf t → tx_ok tx →
  ∃ s, acquire_all t tx =
      Ret (s, if decide (reads_current t (reads tx)) then COMMIT else ABORT) ∧
    locks_inv s ∧ Forall (λ r, write_locked s (rec_key r)) (writes tx).
Proof.
  intros Ht [Hr Hw]. unfold acquire_all.
  destruct (acquire_writes_spec no_locks (writes tx)) as (s1 & -> & Hs1 & Hl1 & _).
  { apply no_locks_inv. } { intros a Ha. by apply not_elem_of_nil in Ha. }
  { eapply Forall_impl; [exact Hw|]. by intros ? [? _]. }
  cbn [mbind outcome_bind].
  destruct (validate_reads_spec t s1 (reads tx) Ht Hs1 Hr) as (s2 & -> & Hs2 & Hm2).
  exists s2. split_and!; [done..|]. eapply Forall_impl; [exact Hl1|]. auto.
Qed.

Lemma tx_sort_ok tx : tx_ok tx → tx_ok (tx_sort tx).
Proof. unfold tx_ok, tx_sort. cbn. by rewrite !sort_by_key_perm. Qed.

Lemma reads_current_sort t tx : reads_current t (reads (tx_sort tx)) ↔ reads_current t (reads tx).
Proof. unfold reads_current, tx_sort. cbn. by rewrite sort_by_key_perm. Qed.

Lemma validate_view t s tenant table tx clock :
  table_rel t s → tx_ok tx → writes_present (spec_map s) tx → in_width 64 clock →
  ∃ t', validate t tenant table tx clock =
          (t', Ret (spec_validate s tenant table tx clock).2) ∧
    table_rel t' (spec_validate s tenant table tx clock).1.
Proof.
  intros [Ht Hv Hd] Htx Hp Hc. unfold validate, spec_validate.
  pose proof (tx_sort_ok tx Htx) as Hst.
  destruct (acquire_all_spec t (tx_sort tx) Ht Hst) as (l & -> & Hl & Hw).
  rewrite (decide_ext _ _ _ _ (reads_current_sort t tx)).
  assert (reads_current t (reads tx) ↔ Forall (read_current (spec_map s)) (reads tx)) as Hr.
  { unfold reads_current, read_current. apply Forall_iff. intros r. by rewrite Hv. }
  rewrite (decide_ext _ _ _ _ Hr). case_decide; [|exists t; by split].
  destruct (install_writes_spec l tenant table clock t (spec_map s) (writes (tx_sort tx)))
    as (t' & -> & Ht' & Hd' & Hv'); try done.
  { apply Hst. } { cbn. by rewrite sort_by_key_perm. }
  exists t'. split; [done|]. split; cbn [fst spec_map spec_floor]; [done| |congruence].
  intros k. rewrite Hv'. cbn. by rewrite spec_writes_sort.
Qed.
End install.

(** ** Sequences of operations *)

Inductive TableOp :=
| OpGet (key : bytes)
| OpPut (key value : bytes)
| OpDelete (key : bytes)
| OpValidate (tenant table : Z) (tx : TX) (rdtsc : Z).

Inductive TableRes :=
| ResEntry (e : option Entry)
| ResUnit
| ResDecision (d : TxDecision).

Section exec.
Context `{BytesCrate}.

Definition table_run (t : Table) (op : TableOp) : Table * outcome TableRes :=
  match op with
  | OpGet k => (t, ResEntry <$> table_get t k)
  | OpPut k v =>
      match table_put t k v with
      | Ret (t', r) => (t', Ret (ResEntry r))
      | Panic => (t, Panic)
      | Undef => (t, Undef)
      end
  | OpDelete k =>
      match table_delete t k with
      | Ret t' => (t', Ret ResUnit)
      | Panic => (t, Panic)
      | Undef => (t, Undef)
      end
  | OpValidate tenant table tx rdtsc =>
      let (t', r) := validate t tenant table tx rdtsc in (t', ResDecision <$> r)
  end.

Fixpoint table_exec (t : Table) (ops : list TableOp) : Table * outcome (list TableRes) :=
  match ops with
  | [] => (t, Ret [])
  | op :: ops' =>
      let (t', r) := table_run t op in
      match r with
      | Ret x => let (t'', rs) := table_exec t' ops' in (t'', cons x <$> rs)
      | Panic => (t', Panic)
      | Undef => (t', Undef)
      end
  end.
End exec.

Definition spec_run (s : TableSpec) (op : TableOp) : TableSpec * TableRes :=
  match op with
  | OpGet k => (s, ResEntry (spec_map s !! k))
  | OpPut k v => let (s', r) := spec_put s k v in (s', ResEntry r)
  | OpDelete k => (spec_delete s k, ResUnit)
  | OpValidate tenant table tx clock =>
      let (s', d) := spec_validate s tenant table tx clock in (s', ResDecision d)
  end.

Fixpoint spec_exec (s : TableSpec) (ops : list TableOp) : TableSpec * list TableRes :=
  match ops with
  | [] => (s, [])
  | op :: ops' =>
      let (s', x) := spec_run s op in let (s'', xs) := spec_exec s' ops' in (s'', x :: xs)
  end.

(** Non-empty keys, and transactions that write keys the table holds. *)
Definition op_ok (s : TableSpec) (op : TableOp) : Prop :=
  match op with
  | OpGet k | OpPut k _ | OpDelete k => k ≠ []
  | OpValidate _ _ tx clock => tx_ok tx ∧ writes_present (spec_map s) tx ∧ in_width 64 clock
  end.

Fixpoint ops_ok (s : TableSpec) (ops : list TableOp) : Prop :=
  match ops with
  | [] => True
  | op :: ops' => op_ok s op ∧ ops_ok (spec_run s op).1 ops'
  end.

#[export] Instance record_ok_dec r : Decision (record_ok r).
Proof. unfold record_ok. apply _. Defined.

#[export] Instance op_ok_dec s op : Decision (op_ok s op).
Proof. destruct op; cbn; unfold tx_ok, writes_present; apply _. Defined.

#[export] Instance ops_ok_dec s ops : Decision (ops_ok s ops).
Proof. revert s. induction ops; intros s; cbn; apply _. Defined.

Section refinement.
Context `{BytesCrateLaws}.

Lemma put_rel t s k v :
  table_rel t s → k ≠ [] →
  ∃ t', table_put t k v = Ret (t', (spec_put s k v).2) ∧ table_rel t' (spec_put s k v).1.
Proof.
  intros [Ht Hv Hd] Hk.
  destruct (table_put_view t k v Ht Hk) as (t' & e & -> & Ht' & Hd' & Hv' & ->).
  exists t'. unfold spec_put. rewrite <- Hv, Hd in *.
  destruct (tview t k) as [e|] eqn:He; (split; [done|]);
    (split; cbn [fst spec_map spec_floor]; [done| |done]);
    intros k'; rewrite Hv'; case_decide;
    [subst; by rewrite lookup_insert_eq | by rewrite lookup_insert_ne
    |subst; by rewrite lookup_insert_eq | by rewrite lookup_insert_ne].
Qed.

Lemma delete_rel t s k :
  table_rel t s → k ≠ [] →
  ∃ t', table_delete t k = Ret t' ∧ table_rel t' (spec_delete s k).
Proof.
  intros [Ht Hv Hd] Hk.
  destruct (table_delete_view t k Ht Hk) as (t' & -> & Ht' & Hd' & Hv').
  exists t'. split; [done|]. split; cbn [spec_delete spec_map spec_floor]; [done| |].
  - intros k'. rewrite Hv'. case_decide; [subst; by rewrite lookup_delete_eq|].
    by rewrite lookup_delete_ne.
  - by rewrite Hd', Hv, Hd.
Qed.

Lemma table_run_rel t s op :
  table_rel t s → op_ok s op →
  ∃ t', table_run t op = (t', Ret (spec_run s op).2) ∧ table_rel t' (spec_run s op).1.
Proof.
  intros Hr Hok. destruct op as [k|k v|k|tenant table tx clock]; cbn [table_run spec_run op_ok] in *.
  - exists t. rewrite table_get_view by (done || apply Hr). by rewrite (rel_view _ _ Hr).
  - destruct (put_rel t s k v Hr Hok) as (t' & -> & Hr'). exists t'. by destruct (spec_put s k v).
  - destruct (delete_rel t s k Hr Hok) as (t' & -> & Hr'). by exists t'.
  - destruct Hok as (? & ? & ?).
    destruct (validate_view t s tenant table tx clock) as (t' & -> & Hr'); [done..|].
    exists t'. by destruct (spec_validate s tenant table tx clock).
Qed.

Lemma table_exec_rel t s ops :
  table_rel t s → ops_ok s ops →
  ∃ t', table_exec t ops = (t', Ret (spec_exec s ops).2) ∧ table_rel t' (spec_exec s ops).1.
Proof.
  revert t s. induction ops as [|op ops IH]; intros t s Hr; cbn [ops_ok table_exec spec_exec].
  { by exists t. }
  intros [Hop Hops]. destruct (table_run_rel t s op Hr Hop) as (t1 & -> & Hr1).
  destruct (spec_run s op) as [s1 x]. destruct (IH t1 s1 Hr1 Hops) as (t2 & He & Hr2).
  exists t2. cbn [fst snd] in *. rewrite He. by destruct (spec_exec s1 ops).
Qed.

(** *** Every well-formed table has a flat view *)

Lemma union_lookup (l : list Map) k b :
  (∀ i m e, l !! i = Some m → m !! k = Some e → i = b) →
  foldr (∪) (∅ : Map) l !! k = l !! b ≫= λ m, m !! k.
Proof.
  revert b. induction l as [|m l IH]; intros b Hb; cbn [foldr].
  { by rewrite lookup_empty, lookup_nil. }
  destruct (m !! k) as [e|] eqn:Hm.
  - rewrite (lookup_union_Some_l _ _ _ _ Hm).
    assert (0%nat = b) as <- by by eapply (Hb 0%nat). cbn. done.
  - rewrite lookup_union_r by done. destruct b as [|b].
    + cbn. rewrite Hm, (IH (length l)).
      * by rewrite (lookup_ge_None_2 l (length l)).
      * intros i m' e Hi He. by specialize (Hb (S i) m' e Hi He).
    + apply IH. intros i m' e Hi He. specialize (Hb (S i) m' e Hi He). lia.
Qed.

Lemma wf_flatten t : table_wf t → ∃ s, table_rel t s.
Proof.
  intros Ht. exists (mkSpec (foldr (∪) ∅ (maps t)) (max_deleted_version t)).
  split; [done| |done]. intros k. cbn [spec_map]. symmetry. apply union_lookup.
  intros i m e Hi He. by destruct (wf_bucket _ Ht _ _ _ _ Hi He).
Qed.

(** *** Missing keys *)

Lemma install_write_absent (l : Locks) tenant table version t r :
  table_wf t → write_locked l (rec_key r) → rec_key r ≠ [] → tview t (rec_key r) = None →
  install_write l.1 tenant table version t r = Panic.
Proof.
  intros Ht Hl Hk Hn. unfold install_write. rewrite bucket_ret by done.
  cbn [mbind outcome_bind]. rewrite Hl. cbn [unchecked mbind outcome_bind].
  destruct (wf_map t (rec_key r) Ht) as (m & Hm & Hv). rewrite Hm.
  cbn [expect mbind outcome_bind]. by rewrite <- Hv, Hn.
Qed.

Lemma install_writes_app locks tenant table version t ws1 ws2 :
  install_writes locks tenant table version t (ws1 ++ ws2) =
  (let (t', r) := install_writes locks tenant table version t ws1 in
   match r with
   | Ret _ => install_writes locks tenant table version t' ws2
   | Panic => (t', Panic)
   | Undef => (t', Undef)
   end).
Proof.
  revert t. induction ws1 as [|r ws1 IH]; intros t; [done|].
  cbn [app install_writes]. by destruct (install_write _ _ _ _ t r).
Qed.

(** A write to an absent key panics after the writes sorted before it. *)
Lemma validate_absent t tenant table tx clock m ws1 r ws2 :
  table_wf t → tx_ok tx → in_width 64 clock → reads_current t (reads tx) →
  (∀ k, tview t k = m !! k) →
  writes (tx_sort tx) = ws1 ++ r :: ws2 →
  Forall (λ r, is_Some (m !! rec_key r)) ws1 → m !! rec_key r = None →
  ∃ t', validate t tenant table tx clock = (t', Panic) ∧ table_wf t' ∧
    ∀ k, tview t' k = foldl (spec_write tenant table clock) m ws1 !! k.
Proof.
  intros Ht Htx Hc Hr Hv Hws Hp Hn. unfold validate.
  pose proof (tx_sort_ok tx Htx) as Hst.
  destruct (acquire_all_spec t (tx_sort tx) Ht Hst) as (l & -> & Hl & Hw).
  rewrite (decide_ext _ _ _ _ (reads_current_sort t tx)), decide_True by done.
  destruct Hst as [_ Hst]. rewrite Hws in *. apply Forall_app in Hw as [Hw1 Hw2], Hst as [Hs1 Hs2].
  apply Forall_cons in Hw2 as [Hw2 _], Hs2 as [Hs2 _].
  destruct (install_writes_spec l tenant table clock t m ws1) as (t' & He & Ht' & _ & Hv'); [done..|].
  exists t'. rewrite install_writes_app, He. cbn [install_writes].
  rewrite install_write_absent; [done..|by destruct Hs2|].
  rewrite Hv', spec_writes_lookup.
  destruct (last _) as [r'|] eqn:Hlast; [|done].
  apply last_Some_elem_of, list_elem_of_filter in Hlast as [Hk Hin].
  rewrite Forall_forall in Hp. apply Hp in Hin as [e He']. congruence.
Qed.

(** Every terminating call of [validate] is an abort that changes nothing or
    a commit whose writes were all present. *)
Lemma validate_inv t tenant table tx clock t' d :
  table_wf t → tx_ok tx → in_width 64 clock →
  validate t tenant table tx clock = (t', Ret d) →
  (d = ABORT ∧ t' = t ∧ ¬ reads_current t (reads tx)) ∨
  (d = COMMIT ∧ reads_current t (reads tx) ∧ table_wf t' ∧
   max_deleted_version t' = max_deleted_version t ∧
   Forall (λ r, is_Some (tview t (rec_key r))) (writes tx) ∧
   ∀ k, tview t' k =
     match last (filter (λ r, rec_key r = k) (writes tx)) with
     | Some r => Some (mkEntry clock (obj_layout tenant table k (rec_object r)))
     | None => tview t k
     end).
Proof.
  intros Ht Htx Hc Hval. destruct (wf_flatten t Ht) as [s Hs].
  pose proof (rel_view _ _ Hs) as Hv.
  assert (∀ r, entry_version <$> tview t (rec_key r) = Some (rec_version r)
    ↔ read_current (spec_map s) r) as Hcur by (intros; unfold read_current; by rewrite Hv).
  destruct (decide (reads_current t (reads tx))) as [Hr|Hr].
  2:{ left. unfold validate in Hval.
      destruct (acquire_all_spec t (tx_sort tx) Ht (tx_sort_ok tx Htx)) as (l & He & _).
      rewrite He in Hval. rewrite (decide_ext _ _ _ _ (reads_current_sort t tx)) in Hval.
      rewrite decide_False in Hval by done. by simplify_eq. }
  right. destruct (decide (writes_present (spec_map s) (tx_sort tx))) as [Hp|Hp].
  - assert (writes_present (spec_map s) tx) as Hp'.
    { unfold writes_present, tx_sort in *. cbn in Hp. by rewrite sort_by_key_perm in Hp. }
    destruct (validate_view t s tenant table tx clock Hs Htx Hp' Hc) as (t1 & He & Hrel).
    rewrite He in Hval. unfold spec_validate in *.
    rewrite decide_True in * by (eapply Forall_impl; [exact Hr|]; intros; by apply Hcur).
    cbn [fst snd] in *. simplify_eq. split_and!; [done|done|apply Hrel| | |].
    + by rewrite (rel_floor _ _ Hrel), (rel_floor _ _ Hs).
    + eapply Forall_impl; [exact Hp'|]. intros r. by rewrite Hv.
    + intros k. rewrite (rel_view _ _ Hrel). cbn [spec_map]. by rewrite spec_writes_lookup, Hv.
  - apply first_failing in Hp as (ws1 & r & ws2 & Hws & Hp1 & Hn); [|apply _].
    apply eq_None_not_Some in Hn.
    destruct (validate_absent t tenant table tx clock (spec_map s) ws1 r ws2)
      as (t1 & He & _); try done. rewrite He in Hval. discriminate.
Qed.
End refinement.

(** ** Versions never repeat

    The floor of a key is its version, or the highest deleted version when the
    key is absent: the next version the key gets is above it. *)

Definition version_floor (t : Table) (k : bytes) : Z :=
  match tview t k with Some e => entry_version e | None => max_deleted_version t end.

(** One operation on a table, away from the top of the version range, and
    committing with a clock ahead of the versions it replaces. *)
Inductive tstep `{BytesCrate} (t : Table) : Table → Prop :=
| ts_put k v t' o :
    table_put t k v = Ret (t', o) → version_floor t k < 2 ^ 64 - 1 → tstep t t'
| ts_delete k t' : table_delete t k = Ret t' → tstep t t'
| ts_validate tenant table tx clock t' d :
    validate t tenant table tx clock = (t', Ret d) → tx_ok tx → in_width 64 clock →
    (∀ r e, r ∈ writes tx → tview t (rec_key r) = Some e → entry_version e < clock) →
    tstep t t'.

(** What an operation, and then any sequence of them, does to a key. *)
Definition key_advances (t t' : Table) (k : bytes) : Prop :=
  version_floor t k ≤ version_floor t' k ∧
  (version_floor t k = version_floor t' k → ∀ e, tview t' k = Some e → tview t k = Some e).

Lemma key_advances_refl t k : key_advances t t k.
Proof. by split. Qed.

Lemma key_advances_trans t1 t2 t3 k :
  key_advances t1 t2 k → key_advances t2 t3 k → key_advances t1 t3 k.
Proof. intros [H1 H1'] [H2 H2']. split; [lia|]. intros. apply H1'; [lia|]. apply H2'; [lia|done]. Qed.

(** Keys an operation leaves alone advance as long as deletions do. *)
Lemma key_advances_same t t' k :
  tview t' k = tview t k → max_deleted_version t ≤ max_deleted_version t' →
  key_advances t t' k.
Proof.
  unfold key_advances, version_floor. intros -> Hd. destruct (tview t k); split; try done; lia.
Qed.

Section versions.
Context `{BytesCrateLaws}.

Lemma tstep_advances t t' :
  table_wf t → tstep t t' → table_wf t' ∧ ∀ k, key_advances t t' k.
Proof.
  intros Ht Hstep. destruct Hstep as [k v t' o Hput Hmax|k t' Hdel|tenant table tx clock t' d Hval Htx Hc Hck].
  - assert (k ≠ []) as Hk by by intros ->.
    destruct (table_put_view t k v Ht Hk) as (t1 & e & He & Ht1 & Hd & Hv & ->).
    rewrite He in Hput. simplify_eq. split; [done|]. intros k'.
    destruct (decide (k' = k)) as [->|Hne].
    + unfold key_advances, version_floor in *. rewrite Hv, decide_True by done. cbn [entry_version].
      pose proof (wf_deleted _ Ht). pose proof (wf_version _ Ht k) as Hkv.
      unfold in_width in *. rewrite wadd_id.
      * split; [destruct (tview t k); lia|]. intros. destruct (tview t k); lia.
      * unfold in_width. destruct (tview t k) as [e|]; [specialize (Hkv e eq_refl)|]; lia.
    + apply key_advances_same; [by rewrite Hv, decide_False|lia].
  - assert (k ≠ []) as Hk by by intros ->.
    destruct (table_delete_view t k Ht Hk) as (t1 & He & Ht1 & Hd & Hv).
    rewrite He in Hdel. simplify_eq. split; [done|]. intros k'.
    destruct (decide (k' = k)) as [->|Hne].
    + unfold key_advances, version_floor. rewrite Hv, decide_True, Hd by done.
      destruct (tview t k); (split; [lia|done]).
    + apply key_advances_same; [by rewrite Hv, decide_False|]. destruct (tview t k); lia.
  - destruct (validate_inv t tenant table tx clock t' d) as
      [(-> & -> & _)|(-> & _ & Ht' & Hd & Hp & Hv)]; [done..| |].
    { split; [done|]. intros. apply key_advances_refl. }
    split; [done|]. intros k. specialize (Hv k).
    destruct (last (filter (λ r, rec_key r = k) (writes tx))) as [r|] eqn:Hlast;
      [|apply key_advances_same; [done|lia]].
    apply last_Some_elem_of, list_elem_of_filter in Hlast as [<- Hin].
    rewrite Forall_forall in Hp. destruct (Hp r Hin) as [e He].
    specialize (Hck r e Hin He). unfold key_advances, version_floor. rewrite Hv, He. cbn.
    split; [lia|]. lia.
Qed.

Lemma tsteps_advance t t' :
  table_wf t → rtc tstep t t' → table_wf t' ∧ ∀ k, key_advances t t' k.
Proof.
  intros Ht Hr. induction Hr as [t|t1 t2 t3 Hs _ IH].
  - split; [done|]. intros. apply key_advances_refl.
  - destruct (tstep_advances t1 t2 Ht Hs) as [Ht2 H12]. destruct (IH Ht2) as [Ht3 H23].
    split; [done|]. intros k. by eapply key_advances_trans.
Qed.
End versions.

(** ** Properties *)

(** C2: the table implements one versioned map.  Any sequence of gets, puts,
    deletes and transaction validations that runs on a fresh 128-bucket table,
    with non-empty keys and transactions that write existing keys, completes
    without a panic and returns exactly what the abstract specification
    returns: a put bumps the key's version or starts above every deleted
    version, and a validation commits exactly when every read version is
    current, then installing its writes in the order they were issued although
    the code sorts them by key. *)
Theorem table_refines_spec `{BytesCrateLaws} ops :
  ops_ok (mkSpec ∅ 0) ops →
  ∃ t', table_exec Table_default ops = (t', Ret (spec_exec (mkSpec ∅ 0) ops).2) ∧
        table_rel t' (spec_exec (mkSpec ∅ 0) ops).1.
Proof. apply table_exec_rel, default_rel. Qed.

(** Two writes of one key, the second winning; a stale transaction aborting. *)
Definition ex_tx1 : TX :=
  mkTX [mkRwRecord SandstormRead 1 [7] []]
       [mkRwRecord SandstormWrite 0 [200] [1]; mkRwRecord SandstormWrite 0 [7] [2];
        mkRwRecord SandstormWrite 0 [200] [3]].

Definition ex_ops : list TableOp :=
  [OpPut [7] [70]; OpPut [200] [71]; OpValidate 1 2 ex_tx1 1000; OpGet [200];
   OpValidate 1 2 ex_tx1 2000; OpDelete [7]; OpPut [7] [72]; OpGet [7]].

Lemma table_refines_spec_witness :
  ∃ t', @table_exec exact_bytes Table_default ex_ops =
          (t', Ret (spec_exec (mkSpec ∅ 0) ex_ops).2) ∧
        table_rel t' (spec_exec (mkSpec ∅ 0) ex_ops).1.
Proof.
  apply (@table_refines_spec exact_bytes _ ex_ops).
  apply (bool_decide_eq_true_1 _). vm_compute. reflexivity.
Defined.

(** C1: committed transactions are serializable at their commit point.  Suppose
    every read of a transaction saw, at some earlier state of the table, the
    version it recorded.  If [validate] then commits, every key it read still
    holds the very entry that was read, value included, whatever puts, deletes
    and commits came in between; every key it wrote holds its last write,
    stamped with the commit clock, and no other key changed. *)
Theorem commit_serializable `{BytesCrateLaws} t t' tenant table tx clock
    (seen : RwRecord → Entry) :
  table_wf t → tx_ok tx → in_width 64 clock →
  (∀ r, r ∈ reads tx → ∃ t0, table_wf t0 ∧ rtc tstep t0 t ∧
     tview t0 (rec_key r) = Some (seen r) ∧ entry_version (seen r) = rec_version r) →
  validate t tenant table tx clock = (t', Ret COMMIT) →
  (∀ r, r ∈ reads tx → tview t (rec_key r) = Some (seen r)) ∧
  ∀ k, tview t' k =
    match last (filter (λ r, rec_key r = k) (writes tx)) with
    | Some r => Some (mkEntry clock (obj_layout tenant table k (rec_object r)))
    | None => tview t k
    end.
Proof.
  intros Ht Htx Hc Hseen Hval.
  destruct (validate_inv _ _ _ _ _ _ _ Ht Htx Hc Hval) as [(?&_)|(_ & Hr & _ & _ & _ & Hv)]; [done|].
  split; [|done]. intros r Hin. destruct (Hseen r Hin) as (t0 & Ht0 & Hsteps & Hv0 & Hver).
  unfold reads_current in Hr. rewrite Forall_forall in Hr. specialize (Hr r Hin).
  destruct (tview t (rec_key r)) as [e|] eqn:He; cbn in Hr; [|done]. simplify_eq.
  destruct (tsteps_advance t0 t Ht0 Hsteps) as [_ Hadv].
  destruct (Hadv (rec_key r)) as [_ Heq]. unfold version_floor in Heq. rewrite Hv0, He in Heq.
  rewrite <- Hv0. symmetry. rewrite Hv0. apply Heq; congruence.
Qed.

Definition ex_table : Table :=
  (@table_exec exact_bytes Table_default [OpPut [7] [70]; OpPut [200] [71]]).1.

Lemma ex_table_wf : table_wf ex_table.
Proof.
  destruct (@table_exec_rel exact_bytes _ Table_default _ [OpPut [7] [70]; OpPut [200] [71]]
    default_rel) as (t' & He & Hr).
  - apply (bool_decide_eq_true_1 _). vm_compute. reflexivity.
  - unfold ex_table. rewrite He. apply Hr.
Qed.

Lemma commit_serializable_witness :
  (∀ r, r ∈ reads ex_tx1 → tview ex_table (rec_key r) = Some (mkEntry 1 [70])) ∧
  ∀ k, tview (@validate exact_bytes ex_table 1 2 ex_tx1 1000).1 k =
    match last (filter (λ r, rec_key r = k) (writes ex_tx1)) with
    | Some r => Some (mkEntry 1000 (obj_layout 1 2 k (rec_object r)))
    | None => tview ex_table k
    end.
Proof.
  apply (@commit_serializable exact_bytes _ ex_table _ 1 2 ex_tx1 1000 (λ _, mkEntry 1 [70])).
  - apply ex_table_wf.
  - split; apply (bool_decide_eq_true_1 _); vm_compute; reflexivity.
  - unfold in_width. lia.
  - intros r Hr. apply list_elem_of_singleton in Hr as ->. exists ex_table.
    split; [apply ex_table_wf|]. split; [apply rtc_refl|]. split; vm_compute; reflexivity.
  - vm_compute. reflexivity.
Defined.

(** versions only grow.  Along any sequence of puts, deletes and
    validations, the version floor of a key never decreases, and a key whose
    version is unchanged holds the same entry: a version names one value. *)
Theorem version_monotone `{BytesCrateLaws} t t' k :
  table_wf t → rtc tstep t t' →
  version_floor t k ≤ version_floor t' k ∧
  (∀ e e', tview t k = Some e → tview t' k = Some e' →
     entry_version e = entry_version e' → e = e').
Proof.
  intros Ht Hs. destruct (tsteps_advance t t' Ht Hs) as [_ Hk].
  destruct (Hk k) as [Hle Heq]. split; [done|]. intros e e' He He' Hv.
  unfold version_floor in Heq. rewrite He, He' in Heq.
  specialize (Heq Hv e' eq_refl). congruence.
Qed.

Lemma version_monotone_witness :
  version_floor Table_default [7] ≤ version_floor ex_table [7] ∧
  (∀ e e', tview Table_default [7] = Some e → tview ex_table [7] = Some e' →
     entry_version e = entry_version e' → e = e').
Proof.
  apply (@version_monotone exact_bytes _ Table_default ex_table [7]).
  - apply default_wf.
  - eapply rtc_l; [|eapply rtc_l; [|apply rtc_refl]].
    + eapply (ts_put _ [7] [70]); vm_compute; reflexivity.
    + eapply (ts_put _ [200] [71]); vm_compute; reflexivity.
Defined.

(** a transaction that writes a key the table does not hold does not abort.
    When its reads are current, [validate] panics at the first absent key in
    key order, and the writes that sort before it stay installed. *)
Theorem validate_absent_write_panics `{BytesCrateLaws} t s tenant table tx clock ws1 r ws2 :
  table_rel t s → tx_ok tx → in_width 64 clock → reads_current t (reads tx) →
  sort_by_key get_key (writes tx) = ws1 ++ r :: ws2 →
  Forall (λ r, is_Some (spec_map s !! rec_key r)) ws1 → spec_map s !! rec_key r = None →
  ∃ t', validate t tenant table tx clock = (t', Panic) ∧
    ∀ k, tview t' k = foldl (spec_write tenant table clock) (spec_map s) ws1 !! k.
Proof.
  intros [Ht Hv _] Htx Hc Hr Hws Hp Hn.
  destruct (validate_absent t tenant table tx clock (spec_map s) ws1 r ws2)
    as (t' & ? & _ & ?); try done. by exists t'.
Qed.

Definition ex_absent : TX :=
  mkTX [] [mkRwRecord SandstormWrite 0 [9] [1]; mkRwRecord SandstormWrite 0 [7] [2]].

Lemma validate_absent_write_panics_witness :
  ∃ s t', table_rel ex_table s ∧
    @validate exact_bytes ex_table 1 2 ex_absent 1000 = (t', Panic) ∧
    ∀ k, tview t' k =
      foldl (spec_write 1 2 1000) (spec_map s) [mkRwRecord SandstormWrite 0 [7] [2]] !! k.
Proof.
  destruct (wf_flatten ex_table ex_table_wf) as [s Hs].
  destruct (@validate_absent_write_panics exact_bytes _ ex_table s 1 2 ex_absent 1000
    [mkRwRecord SandstormWrite 0 [7] [2]] (mkRwRecord SandstormWrite 0 [9] [1]) [])
    as (t' & ? & ?); [done|..].
  - split; apply (bool_decide_eq_true_1 _); vm_compute; reflexivity.
  - unfold in_width. lia.
  - constructor.
  - reflexivity.
  - constructor; [|constructor]. rewrite <- (rel_view _ _ Hs). exists (mkEntry 1 [70]).
    vm_compute. reflexivity.
  - rewrite <- (rel_view _ _ Hs). vm_compute. reflexivity.
  - by exists s, t'.
Defined.
