(* ===== verification/Locking.v ===== *)
(** * Locking: concurrent validations

    The locks that concurrent calls of [Table::validate] take, interleaved: one
    read-write lock per bucket, and the tenant's table map, which the commit
    handlers hold exclusively around the call (db/src/tenant.rs [lock_table];
    db/src/master.rs [commit]; db/src/context.rs [commit]).  A thread's program
    is the log of acquisitions that the model of [validate] in [Table]
    produces; it releases everything when it returns. *)

From S2P Require Import Prelude Packed Wire Alloc Tx Table.

(** ** Locks and threads *)

Inductive LockId := TenantLock | BucketLock (b : nat).

#[export] Instance LockId_eq_dec : EqDecision LockId.
Proof. solve_decision. Defined.

(** A lock and whether it is taken exclusively. *)
Definition Acq : Type := LockId * bool.

Definition acq_of (a : Acquire) : Acq :=
  match a with
  | AcqRead b => (BucketLock b, false)
  | AcqWrite b => (BucketLock b, true)
  end.

(** Two threads may not hold a lock together unless both read. *)
Definition conflicts (a a' : Acq) : bool := bool_decide (a.1 = a'.1) && (a.2 || a'.2).

Record Thread := mkThread {
  todo : list Acq;
  held : list Acq;
}.

Abbreviation Threads := (list Thread).

(** The locks one call of [validate] acquires, in order. *)
Definition acquisitions (t : Table) (tx : TX) : list Acq :=
  match acquire_all t (tx_sort tx) with
  | Ret (s, _) => acq_of <$> s.2
  | _ => []
  end.

(** [if let Some(table) = tenant.lock_table().get(..) { table.validate(..) }] *)
Definition commit_acquisitions (t : Table) (tx : TX) : list Acq :=
  (TenantLock, true) :: acquisitions t tx.

Definition start (program : list Acq) : Thread := mkThread program [].

Definition free_for (ths : Threads) (i : nat) (a : Acq) : Prop :=
  ∀ j th, ths !! j = Some th → j ≠ i → ∀ a', a' ∈ held th → conflicts a a' = false.

Inductive lstep (ths : Threads) : Threads → Prop :=
| ls_acquire i a rest h :
    ths !! i = Some (mkThread (a :: rest) h) → free_for ths i a →
    lstep ths (<[i := mkThread rest (a :: h)]> ths)
| ls_release i h :
    ths !! i = Some (mkThread [] h) → h ≠ [] →
    lstep ths (<[i := mkThread [] []]> ths).

Definition finished (ths : Threads) : Prop := Forall (λ th, todo th = [] ∧ held th = []) ths.

Definition deadlocked (ths : Threads) : Prop := ¬ finished ths ∧ ∀ ths', ¬ lstep ths ths'.

(** ** Threads behind one exclusive lock *)

Definition guarded (th : Thread) : Prop :=
  match held th with
  | [] => match todo th with [] => True | a :: _ => a = (TenantLock, true) end
  | _ :: _ => (TenantLock, true) ∈ held th
  end.

Record guarded_inv (ths : Threads) : Prop := {
  gi_guarded : Forall guarded ths;
  gi_unique : ∀ i j th th', ths !! i = Some th → ths !! j = Some th' →
    held th ≠ [] → held th' ≠ [] → i = j;
}.

Lemma free_alone ths i th a :
  guarded_inv ths → ths !! i = Some th → held th ≠ [] → free_for ths i a.
Proof.
  intros Hinv Hi Hh j th' Hj Hne a' Ha'. destruct Hne.
  eapply (gi_unique _ Hinv j i th' th); try done. intros He. rewrite He in Ha'.
  by apply not_elem_of_nil in Ha'.
Qed.

Lemma guarded_inv_step ths ths' : guarded_inv ths → lstep ths ths' → guarded_inv ths'.
Proof.
  intros Hinv Hs. pose proof (gi_guarded _ Hinv) as Hg. rewrite Forall_lookup in Hg.
  destruct Hs as [i a rest h Hi Hf | i h Hi Hh].
  - pose proof (Hg _ _ Hi) as Hgi. unfold guarded in Hgi. cbn in Hgi.
    assert ((TenantLock, true) ∈ a :: h) as Ht.
    { destruct h; [subst; by left | by right]. }
    split.
    + apply Forall_insert; [apply Hinv|done].
    + assert (∀ j th, ths !! j = Some th → held th ≠ [] → j = i) as Honly.
      { intros j th Hj Hth. destruct (decide (j = i)) as [|Hne]; [done|].
        destruct h as [|a0 h].
        - subst a. pose proof (Hg _ _ Hj) as Hgj. unfold guarded in Hgj.
          destruct (held th) as [|b hs] eqn:He; [done|].
          rewrite <- He in Hgj. specialize (Hf j th Hj Hne _ Hgj). done.
        - by apply (gi_unique _ Hinv j i th (mkThread (a :: rest) (a0 :: h))). }
      intros j1 j2 th1 th2 H1 H2 Hh1 Hh2.
      apply list_lookup_insert_Some in H1 as [(<- & _)|(Hn1 & H1)];
        apply list_lookup_insert_Some in H2 as [(<- & _)|(Hn2 & H2)]; try done;
        rewrite ?(Honly j1 th1), ?(Honly j2 th2) by done; done.
  - split; [by apply Forall_insert; [apply Hinv|]|].
    intros j1 j2 th1 th2 H1 H2 Hh1 Hh2.
    apply list_lookup_insert_Some in H1 as [(_ & <- & _)|(Hn1 & H1)]; [done|].
    apply list_lookup_insert_Some in H2 as [(_ & <- & _)|(Hn2 & H2)]; [done|].
    by eapply (gi_unique _ Hinv).
Qed.

Lemma guarded_inv_progress ths :
  guarded_inv ths → finished ths ∨ ∃ ths', lstep ths ths'.
Proof.
  intros Hinv. pose proof (gi_guarded _ Hinv) as Hg. rewrite Forall_lookup in Hg.
  destruct (decide (Forall (λ th, held th = []) ths)) as [Hnone|Hsome].
  - destruct (decide (Forall (λ th, todo th = []) ths)) as [Hdone|Htodo].
    { left. unfold finished. by apply Forall_and. }
    right. apply first_failing in Htodo as (l1 & th & l2 & -> & _ & Ht); [|apply _].
    set (i := length l1). assert ((l1 ++ th :: l2) !! i = Some th) as Hi by by apply list_lookup_middle.
    rewrite Forall_lookup in Hnone. destruct th as [[|a rest] h]; [done|].
    exists (<[i := mkThread rest (a :: h)]> (l1 ++ mkThread (a :: rest) h :: l2)).
    apply ls_acquire; [done|]. intros j th' Hj _ a' Ha'.
    rewrite (Hnone _ _ Hj) in Ha'. by apply not_elem_of_nil in Ha'.
  - right. apply first_failing in Hsome as (l1 & th & l2 & -> & _ & Hh); [|apply _].
    set (i := length l1). assert ((l1 ++ th :: l2) !! i = Some th) as Hi by by apply list_lookup_middle.
    destruct th as [[|a rest] h].
    + eexists. by apply (ls_release _ i h).
    + eexists. apply (ls_acquire _ i a rest h); [done|]. by eapply free_alone.
Qed.

Lemma guarded_start (progs : list (list Acq)) :
  Forall (λ p, head p = Some (TenantLock, true)) progs → guarded_inv (start <$> progs).
Proof.
  intros Hp. split.
  - apply Forall_fmap. eapply Forall_impl; [exact Hp|]. intros [|a p]; [done|]. by intros [= ->].
  - intros i j th th' Hi _ Hh. rewrite list_lookup_fmap in Hi.
    destruct (progs !! i); [|done]. by injection Hi as <-.
Qed.

(** ** Properties *)

(** commits that hold the tenant's table map cannot deadlock.  However many
    commits run at once, each taking the tenant lock exclusively and then the
    bucket locks that [validate] takes for its transaction, every reachable
    state is finished or some thread can move. *)
Theorem commits_never_deadlock (calls : list (Table * TX)) ths :
  rtc lstep (start <$> ((λ c, commit_acquisitions c.1 c.2) <$> calls)) ths →
  ¬ deadlocked ths.
Proof.
  intros Hr [Hnf Hns]. assert (guarded_inv ths) as Hinv.
  { remember (start <$> _) as ths0 eqn:H0. assert (guarded_inv ths0) as Hg.
    { subst. apply guarded_start, Forall_fmap, Forall_true. done. }
    clear H0. induction Hr; eauto using guarded_inv_step. }
  destruct (guarded_inv_progress ths Hinv) as [|[ths' Hs]]; [done|]. by eapply Hns.
Qed.

Definition wr (k : bytes) : RwRecord := mkRwRecord SandstormWrite 0 k [].

(** Keys [1] and [128] sort in this order, and fall into buckets 1 and 0. *)
Definition dl_tx1 : TX := mkTX [] [wr [128]; wr [1]].

Definition dl_tx2 : TX := mkTX [] [wr [1]; wr [0]].

Lemma commits_never_deadlock_witness :
  ∃ ths, rtc lstep (start <$> ((λ c, commit_acquisitions c.1 c.2) <$>
           [(Table_default, dl_tx1); (Table_default, dl_tx2)])) ths ∧
    ths ≠ start <$> ((λ c, commit_acquisitions c.1 c.2) <$>
           [(Table_default, dl_tx1); (Table_default, dl_tx2)]) ∧ ¬ deadlocked ths.
Proof.
  set (ths0 := start <$> _).
  assert (lstep ths0 [mkThread [(BucketLock 1, true); (BucketLock 0, true)] [(TenantLock, true)];
    start (commit_acquisitions Table_default dl_tx2)]) as Hs.
  { apply (ls_acquire ths0 0 (TenantLock, true) [(BucketLock 1, true); (BucketLock 0, true)] []).
    - reflexivity.
    - intros [|[|j]] th Hj Hne a' Ha'; cbn in Hj; simplify_eq; cbn in Ha';
        by apply not_elem_of_nil in Ha'. }
  eexists. split; [eapply rtc_once, Hs|]. split; [discriminate|].
  apply (commits_never_deadlock [(Table_default, dl_tx1); (Table_default, dl_tx2)]).
  eapply rtc_once, Hs.
Defined.

(** sorting the read and write sets does not order the bucket locks.  Two
    validations of well-formed transactions that only take the bucket locks can
    reach a state in which neither can ever move: the order of keys is not the
    order of buckets. *)
Theorem validate_order_can_deadlock :
  tx_ok dl_tx1 ∧ tx_ok dl_tx2 ∧
  ∃ ths, rtc lstep [start (acquisitions Table_default dl_tx1);
                    start (acquisitions Table_default dl_tx2)] ths ∧ deadlocked ths.
Proof.
  split; [split; apply (bool_decide_eq_true_1 _); by vm_compute|].
  split; [split; apply (bool_decide_eq_true_1 _); by vm_compute|].
  replace (acquisitions Table_default dl_tx1) with [(BucketLock 1, true); (BucketLock 0, true)]
    by by vm_compute.
  replace (acquisitions Table_default dl_tx2) with [(BucketLock 0, true); (BucketLock 1, true)]
    by by vm_compute.
  eexists. split.
  - eapply rtc_l.
    { apply (ls_acquire _ 0 (BucketLock 1, true) [(BucketLock 0, true)] []); [done|].
      intros [|[|j]] th Hj Hne a' Ha'; cbn in Hj; simplify_eq; by apply not_elem_of_nil in Ha'. }
    eapply rtc_once.
    apply (ls_acquire _ 1 (BucketLock 0, true) [(BucketLock 1, true)] []); [done|].
    intros [|[|j]] th Hj Hne a' Ha'; cbn in Hj; simplify_eq; cbn in Ha'.
    by apply list_elem_of_singleton in Ha' as ->.
  - split.
    + intros Hf. apply Forall_cons in Hf as [[? _] _]. discriminate.
    + intros ths' Hs. inversion Hs as [i a rest h Hi Hf | i h Hi Hh]; subst.
      * destruct i as [|[|i]]; cbn in Hi; simplify_eq.
        -- specialize (Hf 1%nat _ eq_refl ltac:(done) (BucketLock 0, true)).
           cbn in Hf. discriminate (Hf ltac:(by left)).
        -- specialize (Hf 0%nat _ eq_refl ltac:(done) (BucketLock 1, true)).
           cbn in Hf. discriminate (Hf ltac:(by left)).
      * destruct i as [|[|i]]; cbn in Hi; simplify_eq.
Qed.
