(* ===== verification/Store.v ===== *)
(** * Store: tenants, their tables, and the shared heap

    Models db/src/tenant.rs and the tenant map of db/src/master.rs
    ([get_tenant], [insert_tenant], [fill_test]).  An [Arc<Table>] is a location
    in the heap of tables, so that a handle taken before [create_table]
    replaces a table keeps naming the old one; a tenant's own map changes only
    before the tenant is shared, so an [Arc<Tenant>] is its value. *)

From S2P Require Import Prelude Packed Wire Alloc Tx Table.

(** ** Data *)

Abbreviation loc := nat.

Record Tenant := mkTenant {
  tenant_id : Z;
  tables : gmap Z loc;
}.

Definition TENANT_BUCKETS : Z := 32.

Record Store := mkStore {
  heap : list Table;
  tenants : list (gmap Z Tenant);
}.

Definition Store_new : Store := mkStore [] (replicate (Z.to_nat TENANT_BUCKETS) ∅).

(** ** Tenant *)

Definition Tenant_new (id : Z) : Tenant := mkTenant id ∅.

Definition create_table (s : Store) (tn : Tenant) (table_id : Z) : Store * Tenant :=
  (mkStore (heap s ++ [Table_default]) (tenants s),
   mkTenant (tenant_id tn) (<[table_id := length (heap s)]> (tables tn))).

Definition get_table (tn : Tenant) (table_id : Z) : option loc := tables tn !! table_id.

(** ** The tenant map *)

Definition tenant_bucket (id : Z) : nat :=
  Z.to_nat (Z.land (Z.land id 0xff) (TENANT_BUCKETS - 1)).

Definition get_tenant (s : Store) (id : Z) : outcome (option Tenant) :=
  map ← expect (tenants s !! tenant_bucket id); Ret (map !! id).

Definition insert_tenant (s : Store) (tn : Tenant) : outcome Store :=
  map ← expect (tenants s !! tenant_bucket (tenant_id tn));
  Ret (mkStore (heap s)
        (<[tenant_bucket (tenant_id tn) := <[tenant_id tn := tn]> map]> (tenants s))).

(** Dereferencing an [Arc<Table>], and the effect of a call on it. *)
Definition table_at (s : Store) (l : loc) : outcome Table := unchecked (heap s !! l).

Definition with_table (s : Store) (l : loc) (t : Table) : Store :=
  mkStore (<[l := t]> (heap s)) (tenants s).

(** ** Loading a test table *)

Section fill.
Context `{BytesCrate}.

(** The key and value of record [i] of [num]: 30 and 100 bytes, little-endian
    counters followed by zeroes. *)
Definition fill_test_object (tenant table num i : Z) : outcome (bytes * bytes) :=
  let value := le_bytes 4 (wadd 32 i 1 mod wadd 32 num 1) in
  let temp := le_bytes 4 i in
  object tenant table (temp ++ replicate 26 0) (value ++ replicate 96 0).

Definition fill_test_step (tenant table num : Z) (t : Table) (i : Z) : outcome Table :=
  obj ← fill_test_object tenant table num i;
  '(t, _) ← table_put t obj.1 obj.2;
  Ret t.

(** [for i in 1..(num + 1)]: empty when [num + 1] wraps to zero. *)
Definition fill_test (s : Store) (tenant_id table_id num : Z) : outcome Store :=
  let (s, tn) := create_table s (Tenant_new tenant_id) table_id in
  l ← expect (get_table tn table_id);
  t ← table_at s l;
  t ← ofold (fill_test_step tenant_id table_id num) t (seqZ 1 (wadd 32 num 1 - 1));
  insert_tenant (with_table s l t) tn.
End fill.

(** ** What a lookup finds *)

Inductive Found :=
| NoTenant
| NoTable
| NoObject
| FoundEntry (e : Entry).

Definition tenant_of (s : Store) (id : Z) : option Tenant :=
  tenants s !! tenant_bucket id ≫= λ m, m !! id.

Definition store_find (s : Store) (tenant table : Z) (key : bytes) : Found :=
  match tenant_of s tenant with
  | None => NoTenant
  | Some tn =>
      match get_table tn table ≫= λ l, heap s !! l with
      | None => NoTable
      | Some t => match tview t key with None => NoObject | Some e => FoundEntry e end
      end
  end.

(** Every entry holds an object laid out for its key. *)
Definition entry_ok (k : bytes) (e : Entry) : Prop :=
  ∃ v, resolve (entry_value e) = Ret (Some (k, v)) ∧ is_bytes k ∧ is_bytes v.

Definition table_ok (t : Table) : Prop :=
  table_wf t ∧ ∀ k e, tview t k = Some e → entry_ok k e.

(** Tenants sit in their buckets under their own identifier, their tables are
    well-formed, and no two of them share a table. *)
Record store_wf (s : Store) : Prop := {
  sw_length : length (tenants s) = Z.to_nat TENANT_BUCKETS;
  sw_tables : ∀ id tn tb l, tenant_of s id = Some tn → get_table tn tb = Some l →
    ∃ t, heap s !! l = Some t ∧ table_ok t;
  sw_distinct : ∀ id1 tn1 tb1 id2 tn2 tb2 l,
    tenant_of s id1 = Some tn1 → get_table tn1 tb1 = Some l →
    tenant_of s id2 = Some tn2 → get_table tn2 tb2 = Some l →
    id1 = id2 ∧ tb1 = tb2;
}.

(** ** Lemmas *)

(** Putting an object laid out for its key. *)
Lemma table_put_ok t tenant table key val :
  table_ok t → key ≠ [] → len key < 2 ^ 16 → is_bytes key → is_bytes val →
  ∃ t' r, table_put t key (obj_layout tenant table key val) = Ret (t', r) ∧ table_ok t' ∧
    (∃ e, tview t' key = Some e ∧ resolve (entry_value e) = Ret (Some (key, val))) ∧
    ∀ k, k ≠ key → tview t' k = tview t k.
Proof.
  intros [Hwf Hok] Hk Hk16 Hkb Hvb.
  destruct (table_put_view t key (obj_layout tenant table key val) Hwf Hk)
    as (t' & e & -> & Hwf' & _ & Hv & He).
  assert (resolve (entry_value e) = Ret (Some (key, val))) as Hr
    by (subst e; by apply resolve_layout).
  eexists _, _. split; [done|]. split_and!.
  - split; [done|]. intros k e' Hke. rewrite Hv in Hke. case_decide as Hd; [|by apply Hok].
    subst k. injection Hke as <-. by exists val.
  - exists e. by rewrite Hv, decide_True.
  - intros k Hne. by rewrite Hv, decide_False.
Qed.

Lemma default_ok : table_ok Table_default.
Proof.
  split; [apply default_wf|]. intros k e Hk.
  rewrite (rel_view _ _ default_rel) in Hk. cbn in Hk. by rewrite lookup_empty in Hk.
Qed.

Lemma tenant_bucket_lt id : (tenant_bucket id < Z.to_nat TENANT_BUCKETS)%nat.
Proof.
  unfold tenant_bucket, TENANT_BUCKETS. change (32 - 1) with (Z.ones 5).
  rewrite Z.land_ones by lia. pose proof (Z.mod_pos_bound (Z.land id 255) (2 ^ 5) ltac:(lia)).
  change (2 ^ 5) with 32 in *. lia.
Qed.

Lemma tenant_map s id :
  length (tenants s) = Z.to_nat TENANT_BUCKETS →
  ∃ m, tenants s !! tenant_bucket id = Some m ∧ tenant_of s id = m !! id.
Proof.
  intros Hl. destruct (lookup_lt_is_Some_2 (tenants s) (tenant_bucket id)) as [m Hm].
  { rewrite Hl. apply tenant_bucket_lt. }
  exists m. unfold tenant_of. by rewrite Hm.
Qed.

Lemma get_tenant_of s id :
  length (tenants s) = Z.to_nat TENANT_BUCKETS → get_tenant s id = Ret (tenant_of s id).
Proof.
  intros Hl. unfold get_tenant. destruct (tenant_map s id Hl) as (m & Hm & ->). by rewrite Hm.
Qed.

Lemma insert_tenant_spec s tn :
  length (tenants s) = Z.to_nat TENANT_BUCKETS →
  ∃ s', insert_tenant s tn = Ret s' ∧ heap s' = heap s ∧
    length (tenants s') = Z.to_nat TENANT_BUCKETS ∧
    ∀ id, tenant_of s' id = if decide (id = tenant_id tn) then Some tn else tenant_of s id.
Proof.
  intros Hl. unfold insert_tenant. destruct (tenant_map s (tenant_id tn) Hl) as (m & Hm & _).
  rewrite Hm. cbn [expect mbind outcome_bind]. eexists. split; [done|].
  split; [done|]. split; [by rewrite <- Hl; cbn; rewrite length_insert|].
  intros id. unfold tenant_of. cbn [tenants].
  destruct (decide (tenant_bucket id = tenant_bucket (tenant_id tn))) as [He|Hne].
  - rewrite He, list_lookup_insert_eq by by eapply lookup_lt_Some. cbn.
    case_decide; [subst; by rewrite lookup_insert_eq|]. by rewrite lookup_insert_ne, Hm by done.
  - rewrite list_lookup_insert_ne by done. rewrite decide_False; [done|]. by intros ->.
Qed.

(** A change of one well-formed table of a well-formed store. *)
Section with_table.
Context (s : Store) (tenant table : Z) (tn : Tenant) (l : loc) (t t' : Table).
Context (Hwf : store_wf s) (Htn : tenant_of s tenant = Some tn)
  (Hl : get_table tn table = Some l) (Ht : heap s !! l = Some t).

Lemma with_table_wf : table_ok t' → store_wf (with_table s l t').
Proof.
  intros Ht'. split; [apply Hwf| |apply Hwf].
  intros id tn' tb l' Hid Hl'. cbn [with_table heap].
  destruct (decide (l' = l)) as [->|Hne].
  - exists t'. split; [|done]. apply list_lookup_insert_eq. by eapply lookup_lt_Some.
  - rewrite list_lookup_insert_ne by done. by eapply sw_tables.
Qed.

Lemma with_table_find tenant' table' k :
  store_find (with_table s l t') tenant' table' k =
  if decide (tenant' = tenant ∧ table' = table)
  then match tview t' k with None => NoObject | Some e => FoundEntry e end
  else store_find s tenant' table' k.
Proof.
  unfold store_find. change (tenant_of (with_table s l t')) with (tenant_of s).
  case_decide as Hd.
  - destruct Hd as [-> ->]. rewrite Htn, Hl. cbn.
    by rewrite list_lookup_insert_eq by by eapply lookup_lt_Some.
  - destruct (tenant_of s tenant') as [tn'|] eqn:Htn'; [|done].
    destruct (get_table tn' table') as [l'|] eqn:Hl'; cbn; [|done].
    rewrite list_lookup_insert_ne; [done|]. intros <-.
    destruct Hd. by eapply (sw_distinct _ Hwf).
Qed.
End with_table.

Lemma Store_new_tenant id : tenant_of Store_new id = None.
Proof.
  unfold tenant_of. destruct (tenants Store_new !! tenant_bucket id) as [m|] eqn:Hm; [|done].
  cbn in Hm. apply (lookup_replicate_1 32 (∅ : gmap Z Tenant)) in Hm as [-> _].
  apply lookup_empty.
Qed.

Lemma Store_new_wf : store_wf Store_new.
Proof. split; [done|..]; intros; by rewrite Store_new_tenant in *. Qed.

(** Adding a tenant with one freshly created table. *)
Lemma insert_fresh_wf s tenant table t :
  store_wf s → table_ok t → tenant_of s tenant = None →
  let tn := (create_table s (Tenant_new tenant) table).2 in
  ∃ s', insert_tenant (mkStore (heap s ++ [t]) (tenants s)) tn = Ret s' ∧ store_wf s' ∧
    tenant_of s' tenant = Some tn ∧ heap s' !! length (heap s) = Some t.
Proof.
  intros Hs Ht Hnone tn.
  destruct (insert_tenant_spec (mkStore (heap s ++ [t]) (tenants s)) tn) as (s' & He & Hh & Hlen & Hof).
  { apply Hs. }
  cbn [heap] in Hh. change (tenant_of (mkStore (heap s ++ [t]) (tenants s))) with (tenant_of s) in Hof.
  assert (∀ id tn' tb l, tenant_of s' id = Some tn' → get_table tn' tb = Some l →
    (id = tenant ∧ tb = table ∧ l = length (heap s)) ∨
    (tenant_of s id = Some tn' ∧ get_table tn' tb = Some l ∧ (l < length (heap s))%nat)) as Hcase.
  { intros id tn' tb l Hid Hl. rewrite Hof in Hid. case_decide as Hd.
    - left. split; [done|]. injection Hid as <-. unfold tn, get_table in Hl. cbn in Hl.
      apply lookup_insert_Some in Hl as [[-> ->]|[_ Hl]]; [done|]. by rewrite lookup_empty in Hl.
    - right. split_and!; [done..|]. destruct (sw_tables _ Hs _ _ _ _ Hid Hl) as (t0 & Ht0 & _).
      by eapply lookup_lt_Some. }
  exists s'. split; [done|]. split_and!.
  - split; [done| |].
    + intros id tn' tb l Hid Hl. rewrite Hh.
      destruct (Hcase _ _ _ _ Hid Hl) as [(-> & -> & ->)|(H1 & H2 & Hlt)].
      * exists t. split; [|done]. rewrite lookup_app_r, Nat.sub_diag by done. done.
      * rewrite lookup_app_l by done. by eapply sw_tables.
    + intros id1 tn1 tb1 id2 tn2 tb2 l H1 H1' H2 H2'.
      destruct (Hcase _ _ _ _ H1 H1') as [(-> & -> & ->)|(? & ? & ?)],
        (Hcase _ _ _ _ H2 H2') as [(-> & -> & Hx)|(? & ? & ?)]; try done; try lia.
      by eapply (sw_distinct _ Hs).
  - rewrite Hof. by rewrite decide_True.
  - rewrite Hh, lookup_app_r, Nat.sub_diag by done. done.
Qed.
