(* ===== verification/Handlers.v ===== *)
(** * Handlers: the get, put, multiget and commit RPCs

    Models the data handlers of db/src/master.rs.  [get], [put], [multiget] and
    [commit] parse the request, push a response header and return a task whose
    generator does the work when it is first resumed; the [*_native] handlers
    do the same work in place.  A generator is a value of [NativeGen] holding
    what the closure captures, and [run_gen] is its body. *)

From S2P Require Import Prelude Packed Headers Packet Wire Rpc Alloc Tx Table Store.

(** ** Responses *)

Definition PACKET_UDP_LEN : Z := 8.

Definition udp {T} `{!Follows T UdpHeader} (p : Packet T) : Packet UdpHeader :=
  deparse_header UdpHeader p PACKET_UDP_LEN.

Definition Pkts : Type := Packet UdpHeader * Packet UdpHeader.

(** [Result<A, (Packet, Packet)>] *)
Inductive Result (A : Type) :=
| Ok (a : A)
| Err (pkts : Pkts).

Arguments Ok {_} _.
Arguments Err {_} _.

(** The response headers share [common_header]. *)
Class HasCommon (R : Type) := {
  common_header : R → RpcResponseHeader;
  with_common : R → RpcResponseHeader → R;
}.

#[export] Instance GetResponse_common : HasCommon GetResponse := {|
  common_header := getres_common;
  with_common h c := mkGetResponse c (value_length h);
|}.

#[export] Instance PutResponse_common : HasCommon PutResponse := {|
  common_header := putres_common;
  with_common _ c := mkPutResponse c;
|}.

#[export] Instance MultiGetResponse_common : HasCommon MultiGetResponse := {|
  common_header := mgetres_common;
  with_common h c := mkMultiGetResponse c (num_records h);
|}.

#[export] Instance InvokeResponse_common : HasCommon InvokeResponse := {|
  common_header := invokeres_common;
  with_common _ c := mkInvokeResponse c;
|}.

#[export] Instance CommitResponse_common : HasCommon CommitResponse := {|
  common_header := commitres_common;
  with_common _ c := mkCommitResponse c;
|}.

Definition status_header {R} `{HasCommon R} (st : RpcStatus) (h : R) : R :=
  with_common h (with_status (common_header h) st).

(** [res.get_mut_header().common_header.status = st] *)
Definition set_status {R} `{Packed R} `{HasCommon R} (res : Packet R) (st : RpcStatus) :
    outcome (Packet R) :=
  modify_header res (status_header st).

(** ** Shared steps *)

(** [tenant.and_then(|tenant| tenant.get_table(table_id))], with its status. *)
Definition find_table (s : Store) (tenant : option Tenant) (table_id : Z) :
    outcome (RpcStatus + loc) :=
  match tenant with
  | None => Ret (inl StatusTenantDoesNotExist)
  | Some tenant =>
      match get_table tenant table_id with
      | None => Ret (inl StatusTableDoesNotExist)
      | Some l => Ret (inr l)
      end
  end.

(** The lookup chain of [get] and [get_native]. *)
Definition find_entry (s : Store) (tenant : option Tenant) (table_id key_length : Z)
    (req : Packet GetRequest) : outcome (RpcStatus + Entry) :=
  r ← find_table s tenant table_id;
  match r with
  | inl st => Ret (inl st)
  | inr l =>
      table ← table_at s l;
      pl ← get_payload req;
      '(key, _) ← split_at pl key_length;
      o ← table_get table key;
      Ret (match o with None => inl StatusObjectDoesNotExist | Some e => inr e end)
  end.

(** The [match outcome] that ends [get] and [get_native]. *)
Definition finish_get (res : Packet GetResponse) (ok : bool) (st : RpcStatus) :
    outcome (Packet GetResponse) :=
  if ok then
    pl ← get_payload res;
    modify_header res (λ h, mkGetResponse (with_status (getres_common h) st) (wrap 32 (len pl)))
  else set_status res st.

(** ** Get *)

Definition OPTYPE_READ : bytes := [0x1].

(** Writing a found object to the response: type, version, key, then value.
    Only the result for the key and the value is looked at. *)
Definition get_emit (res : Packet GetResponse) (entry : Entry) :
    outcome (Packet GetResponse * bool * RpcStatus) :=
  opt ← resolve (entry_value entry);
  match opt with
  | None => Ret (res, false, StatusInternalError)
  | Some (k, value) =>
      '(_, res) ← add_to_payload_tail res 1 OPTYPE_READ;
      '(_, res) ← add_to_payload_tail res 8 (le_bytes 8 (entry_version entry));
      '(fits, res) ← add_to_payload_tail res (len k) k;
      if (fits : bool) then
        '(ok, res) ← add_to_payload_tail res (len value) value;
        Ret (res, ok, if (ok : bool) then StatusOk else StatusInternalError)
      else Ret (res, true, StatusOk)
  end.

Definition get_native_emit (req_generator : GetGenerator) (res : Packet GetResponse)
    (object : Entry) : outcome (Packet GetResponse * bool * RpcStatus) :=
  opt ← resolve (entry_value object);
  match opt with
  | None => Ret (res, false, StatusInternalError)
  | Some (k, value) =>
      '(fits, res) ← (if decide (req_generator = SandstormExtension)
                      then add_to_payload_tail res (len k) k else Ret (true, res));
      if (fits : bool) then
        '(ok, res) ← add_to_payload_tail res (len value) value;
        Ret (res, ok, if (ok : bool) then StatusOk else StatusInternalError)
      else Ret (res, true, StatusOk)
  end.

Definition get_gen (s : Store) (req : Packet GetRequest) (res : Packet GetResponse)
    (tenant : option Tenant) (table_id key_length : Z) : outcome Pkts :=
  r ← find_entry s tenant table_id key_length req;
  '(res, ok, st) ← match r with
                    | inl st => Ret (res, false, st)
                    | inr entry => get_emit res entry
                    end;
  res ← finish_get res ok st;
  Ret (udp req, udp res).

Definition get_native (s : Store) (req res : Packet UdpHeader) : outcome (Result Pkts) :=
  req ← parse_header GetRequest req;
  hdr ← get_header req;
  let tenant_id := req_tenant (get_common hdr) in
  let table_id := get_table_id hdr in
  let key_length := get_key_length hdr in
  let rpc_stamp := req_stamp (get_common hdr) in
  req_generator ← unchecked (GetGenerator_of_u8 (get_generator hdr));
  res ← (push_header res (GetResponse_new rpc_stamp SandstormGetRpc tenant_id) ≫= expect);
  pl ← get_payload req;
  if decide (len pl < key_length) then
    res ← set_status res StatusMalformedRequest; Ret (Err (udp req, udp res))
  else
    tenant ← get_tenant s tenant_id;
    r ← find_entry s tenant table_id key_length req;
    '(res, ok, st) ← match r with
                      | inl st => Ret (res, false, st)
                      | inr object => get_native_emit req_generator res object
                      end;
    res ← finish_get res ok st;
    Ret (Ok (udp req, udp res)).

(** ** Put *)

Section put.
Context `{BytesCrate}.

(** The body that [put] and [put_native] share. *)
Definition put_body (s : Store) (req : Packet PutRequest) (tenant : option Tenant)
    (tenant_id table_id key_length : Z) : outcome (Store * RpcStatus) :=
  r ← find_table s tenant table_id;
  match r with
  | inl st => Ret (s, st)
  | inr l =>
      pl ← get_payload req;
      '(key, val) ← split_at pl key_length;
      if decide (len val > 0) then
        obj ← object tenant_id table_id key val;
        table ← table_at s l;
        '(table, _) ← table_put table obj.1 obj.2;
        Ret (with_table s l table, StatusOk)
      else Ret (s, StatusMalformedRequest)
  end.

Definition put_gen (s : Store) (req : Packet PutRequest) (res : Packet PutResponse)
    (tenant : option Tenant) (tenant_id table_id key_length : Z) : outcome (Store * Pkts) :=
  '(s, st) ← put_body s req tenant tenant_id table_id key_length;
  res ← set_status res st;
  Ret (s, (udp req, udp res)).

Definition put_native (s : Store) (req res : Packet UdpHeader) :
    outcome (Store * Result Pkts) :=
  req ← parse_header PutRequest req;
  hdr ← get_header req;
  let tenant_id := req_tenant (put_common hdr) in
  let table_id := put_table_id hdr in
  let key_length := put_key_length hdr in
  let rpc_stamp := req_stamp (put_common hdr) in
  res ← (push_header res (PutResponse_new rpc_stamp SandstormPutRpc tenant_id) ≫= expect);
  pl ← get_payload req;
  if decide (len pl < key_length) then
    res ← set_status res StatusMalformedRequest; Ret (s, Err (udp req, udp res))
  else
    tenant ← get_tenant s tenant_id;
    '(s, st) ← put_body s req tenant tenant_id table_id key_length;
    res ← set_status res st;
    Ret (s, Ok (udp req, udp res)).
End put.

(** ** Multiget *)

(** The type, version, key and value of one record; the outcome of the first
    three writes is ignored. *)
Definition multiget_emit (res : Packet MultiGetResponse) (version : Z) (k value : bytes) :
    outcome (bool * Packet MultiGetResponse) :=
  '(_, res) ← add_to_payload_tail res 1 OPTYPE_READ;
  '(_, res) ← add_to_payload_tail res 8 (le_bytes 8 version);
  '(_, res) ← add_to_payload_tail res (len k) k;
  add_to_payload_tail res (len value) value.

Definition multiget_native_emit (res : Packet MultiGetResponse) (version : Z) (k value : bytes) :
    outcome (bool * Packet MultiGetResponse) :=
  add_to_payload_tail res (len value) value.

Section multiget.
Context (emit : Packet MultiGetResponse → Z → bytes → bytes →
                outcome (bool * Packet MultiGetResponse)).

Fixpoint multiget_loop (table : Table) (key_length num_keys n n_recs : Z)
    (res : Packet MultiGetResponse) (keys : list bytes) :
    outcome (Z * Packet MultiGetResponse) :=
  match keys with
  | [] => Ret (n_recs, res)
  | key :: keys' =>
      let n := wadd 32 n 1 in
      if decide (n > num_keys ∨ len key ≠ key_length) then Ret (n_recs, res)
      else
        o ← table_get table key;
        match o with
        | None => Ret (n_recs, res)
        | Some entry =>
            opt ← resolve (entry_value entry);
            match opt with
            | None => Ret (n_recs, res)
            | Some (k, value) =>
                '(ok, res) ← emit res (entry_version entry) k value;
                if (ok : bool)
                then multiget_loop table key_length num_keys n (wadd 32 n_recs 1) res keys'
                else Ret (n_recs, res)
            end
        end
  end.

(** From the table lookup to the response header. *)
Definition multiget_body (s : Store) (req : Packet MultiGetRequest)
    (res : Packet MultiGetResponse) (tenant : option Tenant) (table_id key_length num_keys : Z) :
    outcome (Packet MultiGetResponse) :=
  r ← find_table s tenant table_id;
  '(n_recs, st, res) ←
    match r with
    | inl st => Ret (0, st, res)
    | inr l =>
        table ← table_at s l;
        pl ← get_payload req;
        keys ← chunks pl key_length;
        '(n_recs, res) ← multiget_loop table key_length num_keys 0 0 res keys;
        Ret (n_recs, if decide (n_recs = num_keys) then StatusOk else StatusObjectDoesNotExist,
             res)
    end;
  res ← set_status res st;
  if decide (st = StatusOk)
  then modify_header res (λ h, mkMultiGetResponse (mgetres_common h) n_recs)
  else Ret res.
End multiget.

Definition multiget_gen (s : Store) (req : Packet MultiGetRequest)
    (res : Packet MultiGetResponse) (tenant : option Tenant) (table_id key_length num_keys : Z) :
    outcome Pkts :=
  res ← multiget_body multiget_emit s req res tenant table_id key_length num_keys;
  Ret (udp req, udp res).

Definition multiget_native (s : Store) (req res : Packet UdpHeader) : outcome (Result Pkts) :=
  req ← parse_header MultiGetRequest req;
  hdr ← get_header req;
  let tenant_id := req_tenant (mget_common hdr) in
  let table_id := mget_table_id hdr in
  let key_length := mget_key_len hdr in
  let num_keys := num_keys hdr in
  let rpc_stamp := req_stamp (mget_common hdr) in
  res ← (push_header res (MultiGetResponse_new rpc_stamp SandstormMultiGetRpc tenant_id 0)
         ≫= expect);
  pl ← get_payload req;
  if decide (len pl < wmul 32 key_length num_keys) then
    res ← set_status res StatusMalformedRequest; Ret (Err (udp req, udp res))
  else
    tenant ← get_tenant s tenant_id;
    res ← multiget_body multiget_native_emit s req res tenant table_id key_length num_keys;
    Ret (Ok (udp req, udp res)).

(** ** Commit *)

(** One record of the payload: type, version, key, value. *)
Definition split_record (key_len : Z) (record : bytes) :
    outcome (bytes * Z * bytes * bytes) :=
  '(optype, rem) ← split_at record 1;
  '(version, rem) ← split_at rem 8;
  '(key, value) ← split_at rem key_len;
  Ret (optype, le_val version, key, value).

Definition commit_record (key_len : Z) (tx : TX) (record : bytes) : outcome TX :=
  '(optype, version, key, value) ← split_record key_len record;
  op ← parse_record_optype optype;
  Ret match op with
      | SandstormRead => record_get tx (Record_new SandstormRead version key value)
      | SandstormWrite => record_put tx (Record_new SandstormWrite version key value)
      | InvalidRecord => tx
      end.

(** On an abort the keys of the read set go into the response. *)
Definition commit_abort_record (key_len : Z) (res : Packet CommitResponse) (record : bytes) :
    outcome (Packet CommitResponse) :=
  '(optype, _, key, _) ← split_record key_len record;
  op ← parse_record_optype optype;
  match op with
  | SandstormRead => '(_, res) ← add_to_payload_tail res (len key) key; Ret res
  | _ => Ret res
  end.

Section commit.
Context `{BytesCrate}.

Definition commit_body (s : Store) (req : Packet CommitRequest) (res : Packet CommitResponse)
    (tenant : option Tenant) (tenant_id table_id key_len val_len rdtsc : Z) :
    Store * outcome (Packet CommitResponse * RpcStatus) :=
  let record_len := 1 + 8 + key_len + val_len in
  match tenant with
  | None => (s, Ret (res, StatusTenantDoesNotExist))
  | Some tenant =>
      match get_table tenant table_id with
      | None => (s, Ret (res, StatusTableDoesNotExist))
      | Some l =>
          let r :=
            table ← table_at s l;
            records ← get_payload req;
            if decide (len records < record_len) then Ret None
            else
              chs ← chunks records record_len;
              tx ← ofold (commit_record key_len) TX_new chs;
              Ret (Some (table, chs, tx)) in
          match r with
          | Ret None => (s, Ret (res, StatusMalformedRequest))
          | Ret (Some (table, chs, tx)) =>
              let (table, d) := validate table tenant_id table_id tx rdtsc in
              (with_table s l table,
               d ← d;
               match d with
               | COMMIT => Ret (res, StatusOk)
               | ABORT =>
                   res ← ofold (commit_abort_record key_len) res chs; Ret (res, StatusTxAbort)
               end)
          | Panic => (s, Panic)
          | Undef => (s, Undef)
          end
      end
  end.

(** The table keeps what a panicking validation installed. *)
Definition commit_gen (s : Store) (req : Packet CommitRequest) (res : Packet CommitResponse)
    (tenant : option Tenant) (tenant_id table_id key_len val_len rdtsc : Z) :
    Store * outcome Pkts :=
  let (s, r) := commit_body s req res tenant tenant_id table_id key_len val_len rdtsc in
  (s, '(res, st) ← r; res ← set_status res st; Ret (udp req, udp res)).
End commit.

(** ** Tasks of the data handlers *)

(** What each generator closure captures. *)
Inductive NativeGen :=
| GenGet (req : Packet GetRequest) (res : Packet GetResponse) (tenant : option Tenant)
    (table_id key_length : Z)
| GenPut (req : Packet PutRequest) (res : Packet PutResponse) (tenant : option Tenant)
    (tenant_id table_id key_length : Z)
| GenMultiGet (req : Packet MultiGetRequest) (res : Packet MultiGetResponse)
    (tenant : option Tenant) (table_id key_length num_keys : Z)
| GenCommit (req : Packet CommitRequest) (res : Packet CommitResponse) (tenant : option Tenant)
    (tenant_id table_id key_len val_len : Z).

Definition get (s : Store) (req res : Packet UdpHeader) : outcome (Result NativeGen) :=
  req ← parse_header GetRequest req;
  hdr ← get_header req;
  let tenant_id := req_tenant (get_common hdr) in
  let table_id := get_table_id hdr in
  let key_length := get_key_length hdr in
  let rpc_stamp := req_stamp (get_common hdr) in
  res ← (push_header res (GetResponse_new rpc_stamp SandstormGetRpc tenant_id) ≫= expect);
  pl ← get_payload req;
  if decide (len pl < key_length) then
    res ← set_status res StatusMalformedRequest; Ret (Err (udp req, udp res))
  else
    tenant ← get_tenant s tenant_id;
    Ret (Ok (GenGet req res tenant table_id key_length)).

Definition put (s : Store) (req res : Packet UdpHeader) : outcome (Result NativeGen) :=
  req ← parse_header PutRequest req;
  hdr ← get_header req;
  let tenant_id := req_tenant (put_common hdr) in
  let table_id := put_table_id hdr in
  let key_length := put_key_length hdr in
  let rpc_stamp := req_stamp (put_common hdr) in
  res ← (push_header res (PutResponse_new rpc_stamp SandstormPutRpc tenant_id) ≫= expect);
  pl ← get_payload req;
  if decide (len pl < key_length) then
    res ← set_status res StatusMalformedRequest; Ret (Err (udp req, udp res))
  else
    tenant ← get_tenant s tenant_id;
    Ret (Ok (GenPut req res tenant tenant_id table_id key_length)).

Definition multiget (s : Store) (req res : Packet UdpHeader) : outcome (Result NativeGen) :=
  req ← parse_header MultiGetRequest req;
  hdr ← get_header req;
  let tenant_id := req_tenant (mget_common hdr) in
  let table_id := mget_table_id hdr in
  let key_length := mget_key_len hdr in
  let num_keys := num_keys hdr in
  let rpc_stamp := req_stamp (mget_common hdr) in
  res ← (push_header res (MultiGetResponse_new rpc_stamp SandstormMultiGetRpc tenant_id 0)
         ≫= expect);
  pl ← get_payload req;
  if decide (len pl < wmul 32 key_length num_keys) then
    res ← set_status res StatusMalformedRequest; Ret (Err (udp req, udp res))
  else
    tenant ← get_tenant s tenant_id;
    Ret (Ok (GenMultiGet req res tenant table_id key_length num_keys)).

Definition commit (s : Store) (req res : Packet UdpHeader) : outcome (Result NativeGen) :=
  req ← parse_header CommitRequest req;
  hdr ← get_header req;
  let tenant_id := req_tenant (commit_common hdr) in
  let rpc_stamp := req_stamp (commit_common hdr) in
  let table_id := commit_table_id hdr in
  let key_len := commit_key_length hdr in
  let val_len := commit_value_length hdr in
  res ← (push_header res (CommitResponse_new rpc_stamp SandstormCommitRpc tenant_id) ≫= expect);
  tenant ← get_tenant s tenant_id;
  Ret (Ok (GenCommit req res tenant tenant_id table_id key_len val_len)).

Definition run_gen `{BytesCrate} (s : Store) (g : NativeGen) (rdtsc : Z) :
    Store * outcome Pkts :=
  match g with
  | GenGet req res tenant table_id key_length =>
      (s, get_gen s req res tenant table_id key_length)
  | GenPut req res tenant tenant_id table_id key_length =>
      match put_gen s req res tenant tenant_id table_id key_length with
      | Ret (s', pkts) => (s', Ret pkts)
      | Panic => (s, Panic)
      | Undef => (s, Undef)
      end
  | GenMultiGet req res tenant table_id key_length num_keys =>
      (s, multiget_gen s req res tenant table_id key_length num_keys)
  | GenCommit req res tenant tenant_id table_id key_len val_len =>
      commit_gen s req res tenant tenant_id table_id key_len val_len rdtsc
  end.
