(* ===== verification/HandlerSpecs.v ===== *)
(** * HandlerSpecs: what the data handlers answer

    The handlers of [Handlers] at the level of packets: a request packet that
    carries a well-formed request, and a response packet with headers up to
    UDP and some tail room, give back the request unchanged and a response
    whose payload is stated as a function of the store. *)

From S2P Require Import Prelude Packed Headers Packet Wire Rpc Alloc Tx Table Store Handlers.

(** ** Packets that carry a UDP payload *)

Definition carries (p : Packet UdpHeader) (pl : bytes) (space : Z) : Prop :=
  ∃ room pre u tail, pkt_rep p room pre u pl tail ∧ len tail = space.

(** Appending to a payload of bounded size: all or nothing. *)
Definition try_add (st : bytes * Z) (data : bytes) : bool * (bytes * Z) :=
  if decide (len data ≤ st.2) then (true, (st.1 ++ data, st.2 - len data)) else (false, st).

(** ** Abstract replies *)

Definition found_status (f : Found) : RpcStatus :=
  match f with
  | NoTenant => StatusTenantDoesNotExist
  | NoTable => StatusTableDoesNotExist
  | NoObject => StatusObjectDoesNotExist
  | FoundEntry _ => StatusInternalError
  end.

(** Key and value of an entry of a well-formed table. *)
Definition entry_kv (e : Entry) : bytes * bytes :=
  match resolve (entry_value e) with Ret (Some kv) => kv | _ => ([], []) end.

Definition get_native_reply (g : GetGenerator) (f : Found) (space : Z) :
    RpcStatus * (bytes * Z) :=
  match f with
  | FoundEntry e =>
      let '(k, v) := entry_kv e in
      let '(fits, st) := if decide (g = SandstormExtension) then try_add ([], space) k
                         else (true, ([], space)) in
      if (fits : bool) then
        let '(ok, st) := try_add st v in
        (if (ok : bool) then StatusOk else StatusInternalError, st)
      else (StatusOk, st)
  | _ => (found_status f, ([], space))
  end.

Definition get_reply (f : Found) (space : Z) : RpcStatus * (bytes * Z) :=
  match f with
  | FoundEntry e =>
      let '(k, v) := entry_kv e in
      let st := (try_add ([], space) OPTYPE_READ).2 in
      let st := (try_add st (le_bytes 8 (entry_version e))).2 in
      let '(fits, st) := try_add st k in
      if (fits : bool) then
        let '(ok, st) := try_add st v in
        (if (ok : bool) then StatusOk else StatusInternalError, st)
      else (StatusOk, st)
  | _ => (found_status f, ([], space))
  end.

(** The response header: the length is filled in on success only. *)
Definition get_response (hdr : GetRequest) (st : RpcStatus) (data : bytes) : GetResponse :=
  mkGetResponse
    (with_status (RpcResponseHeader_new (req_stamp (get_common hdr)) SandstormGetRpc
                    (req_tenant (get_common hdr))) st)
    (if decide (st = StatusOk) then len data else 0).

Definition put_response (hdr : PutRequest) (st : RpcStatus) : PutResponse :=
  mkPutResponse
    (with_status (RpcResponseHeader_new (req_stamp (put_common hdr)) SandstormPutRpc
                    (req_tenant (put_common hdr))) st).

Definition commit_response (hdr : CommitRequest) (st : RpcStatus) : CommitResponse :=
  mkCommitResponse
    (with_status (RpcResponseHeader_new (req_stamp (commit_common hdr)) SandstormCommitRpc
                    (req_tenant (commit_common hdr))) st).

(** The handlers write no empty values: an append of nothing panics. *)
Definition found_ok (f : Found) : Prop :=
  match f with FoundEntry e => (entry_kv e).2 ≠ [] | _ => True end.

(** Where a get panics: the value is empty, and all that comes before it fits. *)
Definition get_panics (f : Found) (space : Z) : Prop :=
  match f with
  | FoundEntry e =>
      (entry_kv e).2 = [] ∧
      (try_add (try_add (try_add ([], space) OPTYPE_READ).2 (le_bytes 8 (entry_version e))).2 (entry_kv e).1).1 = true
  | _ => False
  end.

Lemma found_ok_reads f space : found_ok f → ¬ get_panics f space.
Proof. destruct f as [| | |e]; cbn; [tauto..|]. by intros Hne [? _]. Qed.

(** ** Status updates keep a header well-formed *)

Class CommonLaws (R : Type) `{EndOffset R, HasCommon R} := {
  status_header_ok : ∀ (h : R) st, packed_ok h → packed_ok (status_header st h);
}.

Lemma status_u8_width st : in_width 8 (RpcStatus_u8 st).
Proof. unfold in_width. destruct st; cbn; lia. Qed.

Ltac common_laws :=
  split; intros h st Hh; unfold packed_ok in *; cbn in *; unfold req_layout, res_fields in *;
  repeat match goal with H : Forall2 _ (_ :: _) _ |- _ => inversion_clear H end;
  constructor; [apply status_u8_width|]; repeat (constructor; [assumption|]); constructor.

#[export] Instance GetResponse_common_laws : CommonLaws GetResponse.
Proof. common_laws. Qed.

#[export] Instance PutResponse_common_laws : CommonLaws PutResponse.
Proof. common_laws. Qed.

#[export] Instance MultiGetResponse_common_laws : CommonLaws MultiGetResponse.
Proof. common_laws. Qed.

#[export] Instance InvokeResponse_common_laws : CommonLaws InvokeResponse.
Proof. common_laws. Qed.

#[export] Instance CommitResponse_common_laws : CommonLaws CommitResponse.
Proof. common_laws. Qed.

(** ** Packet steps *)

Section steps.
Context {R : Type} `{EndOffset R} `{!PackedLaws R} `{!FixedOffset R} `{!Follows R UdpHeader}.
Implicit Types (p : Packet R) (u : UdpHeader).

Lemma rep_try_add p room pre (h : R) pl tail data :
  pkt_rep p room pre h pl tail → data ≠ [] → is_bytes data →
  ∃ p' tail', add_to_payload_tail p (len data) data = Ret ((try_add (pl, len tail) data).1, p') ∧
    pkt_rep p' room pre h (try_add (pl, len tail) data).2.1 tail' ∧
    len tail' = (try_add (pl, len tail) data).2.2.
Proof.
  intros Hp Hne Hd. unfold try_add. cbn [fst snd]. case_decide as Hl; cbn [fst snd].
  - destruct (rep_add_tail _ _ _ _ _ data _ Hne Hd tail Hp eq_refl Hl) as (p' & -> & Hp').
    exists p', (drop (length data) tail). split_and!; [done..|].
    unfold len in *. rewrite length_drop. lia.
  - rewrite (rep_add_tail_full _ _ _ _ _ _ _ Hp) by lia. by exists p, tail.
Qed.

Lemma rep_udp p room pre u (h : R) pl tail :
  pkt_rep p room (pre ++ encode u) h pl tail → packed_ok u →
  pkt_rep (udp p) room pre u (encode h ++ pl) tail.
Proof. intros Hp Hu. by apply rep_deparse_header. Qed.

Lemma rep_set_status `{!HasCommon R} `{!CommonLaws R} p room pre (h : R) pl tail st :
  pkt_rep p room pre h pl tail →
  ∃ p', set_status p st = Ret p' ∧ pkt_rep p' room pre (status_header st h) pl tail.
Proof.
  intros Hp. apply rep_modify_header; [done| |apply offset_size].
  apply status_header_ok, (rep_ok _ _ _ _ _ _ Hp).
Qed.

Lemma carries_parse (req : Packet UdpHeader) (hdr : R) pl space :
  carries req (encode hdr ++ pl) space → packed_ok hdr →
  ∃ p room pre u tail, parse_header R req = Ret p ∧
    pkt_rep p room (pre ++ encode u) hdr pl tail ∧ packed_ok u ∧ len tail = space.
Proof.
  intros (room & pre & u & tail & Hp & Hs) Hh.
  destruct (rep_parse_header _ _ _ _ hdr _ _ Hp Hh (offset_size hdr) hsize_size) as (p & -> & Hq).
  exists p, room, pre, u, tail. split_and!; [done..|apply Hp|done].
Qed.

Lemma carries_push (res : Packet UdpHeader) (hdr : R) space :
  carries res [] space → packed_ok hdr → size_of R ≤ space →
  ∃ p room pre u tail, push_header res hdr = Ret (Some p) ∧
    pkt_rep p room (pre ++ encode u) hdr [] tail ∧ packed_ok u ∧ len tail = space - size_of R.
Proof.
  intros (room & pre & u & tail & Hp & Hs) Hh Hl.
  destruct (rep_push_header _ _ _ _ hdr _ Hp Hh (offset_size hdr)) as (q & -> & Hq); [lia|].
  exists q, room, pre, u, (drop (Z.to_nat (size_of R)) tail).
  split_and!; [done..|apply Hp|]. pose proof (size_of_nonneg (T:=R)).
  unfold len in *. rewrite length_drop. lia.
Qed.

Lemma carries_udp p room pre u (h : R) pl tail :
  pkt_rep p room (pre ++ encode u) h pl tail → packed_ok u →
  carries (udp p) (encode h ++ pl) (len tail).
Proof. intros Hp Hu. exists room, pre, u, tail. split; [by apply rep_udp|done]. Qed.
End steps.

Lemma entry_ok_kv k e :
  entry_ok k e → ∃ v, resolve (entry_value e) = Ret (Some (k, v)) ∧ entry_kv e = (k, v) ∧
    is_bytes k ∧ is_bytes v.
Proof. intros (v & Hv & Hk & Hb). exists v. unfold entry_kv. by rewrite Hv. Qed.

(** ** Lookups *)

Lemma find_table_spec s tenant table_id key :
  store_wf s →
  match find_table s (tenant_of s tenant) table_id with
  | Ret (inl st) => ∃ f, (f = NoTenant ∨ f = NoTable) ∧
      store_find s tenant table_id key = f ∧ st = found_status f
  | Ret (inr l) => ∃ tn t, tenant_of s tenant = Some tn ∧ get_table tn table_id = Some l ∧
      heap s !! l = Some t ∧ table_ok t ∧
      store_find s tenant table_id key =
        match tview t key with None => NoObject | Some e => FoundEntry e end
  | _ => False
  end.
Proof.
  intros Hs. unfold find_table, store_find.
  destruct (tenant_of s tenant) as [tn|] eqn:Htn; [|by exists NoTenant; auto].
  destruct (get_table tn table_id) as [l|] eqn:Hl; [|by exists NoTable; auto].
  destruct (sw_tables _ Hs _ _ _ _ Htn Hl) as (t & Ht & Hok).
  exists tn, t. cbn. rewrite Ht. by split_and!.
Qed.

Lemma split_at_key (key rest : bytes) n : n = len key → split_at (key ++ rest) n = Ret (key, rest).
Proof. apply split_at_app. Qed.

Lemma find_entry_spec s tenant table_id key rest p room pre (hdr : GetRequest) tail n :
  store_wf s → pkt_rep p room pre hdr (key ++ rest) tail → n = len key → key ≠ [] →
  find_entry s (tenant_of s tenant) table_id n p =
  Ret match store_find s tenant table_id key with
      | FoundEntry e => inr e
      | f => inl (found_status f)
      end ∧
  ∀ e, store_find s tenant table_id key = FoundEntry e → entry_ok key e.
Proof.
  intros Hs Hp -> Hk. unfold find_entry.
  pose proof (find_table_spec s tenant table_id key Hs) as Hf.
  destruct (find_table _ _ _) as [[st|l]| |]; [..|done|done]; cbn [mbind outcome_bind].
  - by destruct Hf as (f & [-> | ->] & -> & ->).
  - destruct Hf as (tn & t & _ & _ & Ht & [Hwf Hok] & ->). unfold table_at. rewrite Ht.
    cbn [unchecked mbind outcome_bind]. rewrite (rep_get_payload _ _ _ _ _ _ Hp).
    cbn [mbind outcome_bind]. rewrite split_at_app by done. cbn [mbind outcome_bind].
    rewrite table_get_view by done. cbn [mbind outcome_bind].
    split; [by destruct (tview t key)|]. intros e. destruct (tview t key) eqn:Hv; [|done].
    intros [= <-]. by apply Hok.
Qed.

(** ** Get *)

Lemma get_native_emit_spec g p room pre (h : GetResponse) tail key e :
  pkt_rep p room pre h [] tail → entry_ok key e → key ≠ [] → (entry_kv e).2 ≠ [] →
  let r := get_native_reply g (FoundEntry e) (len tail) in
  ∃ p' tail', get_native_emit g p e = Ret (p', bool_decide (r.1 = StatusOk), r.1) ∧
    pkt_rep p' room pre h r.2.1 tail' ∧ len tail' = r.2.2.
Proof.
  intros Hp He Hk Hv. destruct (entry_ok_kv _ _ He) as (v & Hr & Hkv & Hkb & Hvb).
  rewrite Hkv in Hv. cbn [snd] in Hv. unfold get_native_emit, get_native_reply. rewrite Hkv, Hr.
  cbn [mbind outcome_bind]. case_decide as Hg.
  - destruct (rep_try_add _ _ _ _ _ _ key Hp Hk Hkb) as (p1 & t1 & -> & Hp1 & Ht1).
    destruct (try_add ([], len tail) key) as [fits [d1 s1]]. cbn [fst snd] in *.
    cbn [mbind outcome_bind]. destruct fits.
    + destruct (rep_try_add _ _ _ _ _ _ v Hp1 Hv Hvb) as (p2 & t2 & -> & Hp2 & Ht2).
      rewrite Ht1 in *. destruct (try_add (d1, s1) v) as [ok [d2 s2]]. cbn [fst snd] in *.
      exists p2, t2. cbn. by destruct ok.
    + exists p1, t1. cbn. by split_and!.
  - cbn [mbind outcome_bind].
    destruct (rep_try_add _ _ _ _ _ _ v Hp Hv Hvb) as (p2 & t2 & -> & Hp2 & Ht2).
    destruct (try_add ([], len tail) v) as [ok [d2 s2]]. cbn [fst snd] in *.
    exists p2, t2. cbn. by destruct ok.
Qed.

Lemma le_bytes_8_bytes v : is_bytes (le_bytes 8 v) ∧ len (le_bytes 8 v) = 8 ∧ le_bytes 8 v ≠ [].
Proof. split_and!; [apply le_bytes_is_bytes | by rewrite len_le_bytes | done]. Qed.

(** The head of a record, up to its key. *)
Lemma get_emit_head p room pre (h : GetResponse) tail key e :
  pkt_rep p room pre h [] tail → entry_ok key e → key ≠ [] →
  ∃ v p' tail', entry_kv e = (key, v) ∧ is_bytes v ∧
    let st := try_add (try_add (try_add ([], len tail) OPTYPE_READ).2 (le_bytes 8 (entry_version e))).2 key in
    get_emit p e =
      (if st.1 then '(ok, res) ← add_to_payload_tail p' (len v) v;
         Ret (res, ok, if (ok : bool) then StatusOk else StatusInternalError)
       else Ret (p', true, StatusOk)) ∧
    pkt_rep p' room pre h st.2.1 tail' ∧ len tail' = st.2.2.
Proof.
  intros Hp He Hk. destruct (entry_ok_kv _ _ He) as (v & Hr & Hkv & Hkb & Hvb). exists v.
  unfold get_emit. rewrite Hr. cbn [mbind outcome_bind].
  destruct (rep_try_add _ _ _ _ _ _ OPTYPE_READ Hp) as (p1 & t1 & He1 & Hp1 & Ht1);
    [done|apply (bool_decide_eq_true_1 _); by vm_compute|].
  change (len OPTYPE_READ) with 1 in He1. rewrite He1. cbn [mbind outcome_bind].
  destruct (le_bytes_8_bytes (entry_version e)) as (Hb8 & Hl8 & Hn8).
  destruct (rep_try_add _ _ _ _ _ _ _ Hp1 Hn8 Hb8) as (p2 & t2 & He2 & Hp2 & Ht2).
  rewrite Hl8 in He2. rewrite He2. cbn [mbind outcome_bind].
  destruct (rep_try_add _ _ _ _ _ _ key Hp2 Hk Hkb) as (p3 & t3 & -> & Hp3 & Ht3).
  rewrite Ht2, Ht1 in *. rewrite <- !surjective_pairing in *. cbn [mbind outcome_bind].
  by exists p3, t3.
Qed.

Lemma get_emit_spec p room pre (h : GetResponse) tail key e :
  pkt_rep p room pre h [] tail → entry_ok key e → key ≠ [] → ¬ get_panics (FoundEntry e) (len tail) →
  let r := get_reply (FoundEntry e) (len tail) in
  ∃ p' tail', get_emit p e = Ret (p', bool_decide (r.1 = StatusOk), r.1) ∧
    pkt_rep p' room pre h r.2.1 tail' ∧ len tail' = r.2.2.
Proof.
  intros Hp He Hk Hv. destruct (get_emit_head _ _ _ _ _ _ _ Hp He Hk) as (v & p3 & t3 & Hkv & Hvb & -> & Hp3 & Ht3).
  unfold get_panics, get_reply in *. rewrite Hkv in *. cbn [fst snd] in *.
  destruct (try_add _ key) as [fits [d3 s3]]. cbn [fst snd] in *. destruct fits.
  - assert (v ≠ []) as Hne by (intros ->; by apply Hv).
    destruct (rep_try_add _ _ _ _ _ _ v Hp3 Hne Hvb) as (p4 & t4 & -> & Hp4 & Ht4).
    rewrite Ht3 in *. destruct (try_add (d3, s3) v) as [ok [d4 s4]]. cbn [fst snd] in *.
    exists p4, t4. cbn. by destruct ok.
  - exists p3, t3. cbn. by split_and!.
Qed.

Lemma get_emit_panics p room pre (h : GetResponse) tail key e :
  pkt_rep p room pre h [] tail → entry_ok key e → key ≠ [] → get_panics (FoundEntry e) (len tail) →
  get_emit p e = Panic.
Proof.
  intros Hp He Hk Hv. destruct (get_emit_head _ _ _ _ _ _ _ Hp He Hk) as (v & p3 & t3 & Hkv & _ & -> & Hp3 & _).
  unfold get_panics in Hv. rewrite Hkv in Hv. cbn [fst snd] in Hv. destruct Hv as [-> ->].
  change (len (@nil Z)) with 0. by rewrite (rep_add_nothing _ _ _ _ _ _ Hp3).
Qed.

Lemma get_response_ok hdr st data :
  packed_ok hdr → in_width 32 (len data) → packed_ok (get_response hdr st data).
Proof.
  intros Hh Hl. unfold packed_ok in *. cbn in *. unfold req_layout, req_fields in *.
  repeat match goal with H : Forall2 _ (_ :: _) _ |- _ => inversion_clear H end.
  constructor; [apply status_u8_width|]. constructor; [unfold in_width; cbn; lia|].
  repeat (constructor; [assumption|]). constructor; [|constructor].
  case_decide; [done|]. unfold in_width; cbn; lia.
Qed.

Lemma carries_len p pl space : carries p pl space → in_width 16 (len pl).
Proof.
  intros (room & pre & u & tail & Hp & Hs). pose proof (rep_fits _ _ _ _ _ _ Hp).
  pose proof (rep_cap _ _ _ _ _ _ Hp) as Hc. pose proof (rep_data_len _ _ _ _ _ _ Hp).
  pose proof (rep_data_off _ _ _ _ _ _ Hp). pose proof (len_nonneg room).
  pose proof (len_nonneg pre). pose proof (len_nonneg tail). pose proof (len_nonneg pl).
  pose proof (size_of_nonneg (T:=UdpHeader)). unfold in_width in *. lia.
Qed.

Lemma finish_get_spec p room pre hdr data tail st :
  pkt_rep p room pre (GetResponse_new (req_stamp (get_common hdr)) SandstormGetRpc
                        (req_tenant (get_common hdr))) data tail →
  packed_ok hdr →
  ∃ p', finish_get p (bool_decide (st = StatusOk)) st = Ret p' ∧
    pkt_rep p' room pre (get_response hdr st data) data tail.
Proof.
  intros Hp Hh. pose proof (rep_fits _ _ _ _ _ _ Hp). pose proof (rep_cap _ _ _ _ _ _ Hp) as Hc.
  pose proof (rep_data_len _ _ _ _ _ _ Hp). pose proof (rep_data_off _ _ _ _ _ _ Hp).
  pose proof (len_nonneg room). pose proof (len_nonneg pre). pose proof (len_nonneg tail).
  pose proof (len_nonneg data). pose proof (size_of_nonneg (T:=GetResponse)).
  assert (in_width 32 (len data)) as Hl by (unfold in_width in *; lia).
  pose proof (get_response_ok hdr st data Hh Hl) as Hok.
  unfold finish_get. case_bool_decide as Hst.
  - rewrite (rep_get_payload _ _ _ _ _ _ Hp). cbn [mbind outcome_bind]. rewrite wrap_id by done.
    unfold get_response in *. rewrite decide_True in * by done. 
    by apply (rep_modify_header _ _ _ _
      (λ h, mkGetResponse (with_status (getres_common h) st) (len data)) _ _ Hp).
  - unfold get_response in *. rewrite decide_False in * by done.
    destruct (rep_set_status _ _ _ _ _ _ st Hp) as (p' & He & Hp'). by exists p'.
Qed.

Section get.
Context (s : Store) (hdr : GetRequest) (key rest : bytes).
Context (Hs : store_wf s) (Hh : packed_ok hdr) (Hlen : get_key_length hdr = len key)
  (Hkey : key ≠ []).

Definition get_found : Found :=
  store_find s (req_tenant (get_common hdr)) (get_table_id hdr) key.

Lemma new_get_ok : packed_ok (GetResponse_new (req_stamp (get_common hdr)) SandstormGetRpc
                        (req_tenant (get_common hdr))).
Proof. by apply (get_response_ok hdr StatusOk []). Qed.

Lemma get_native_carries req res g space rspace :
  carries req (encode hdr ++ key ++ rest) rspace → carries res [] space →
  GetGenerator_of_u8 (get_generator hdr) = Some g → size_of GetResponse ≤ space →
  found_ok get_found →
  let r := get_native_reply g get_found (space - size_of GetResponse) in
  ∃ req' res', get_native s req res = Ret (Ok (req', res')) ∧
    carries req' (encode hdr ++ key ++ rest) rspace ∧
    carries res' (encode (get_response hdr r.1 r.2.1) ++ r.2.1) r.2.2.
Proof.
  intros Hreq Hres Hg Hsp Hok.
  destruct (carries_parse req hdr _ _ Hreq Hh) as (p & rm & pre & u & tl & Hparse & Hp & Hu & Htl).
  destruct (carries_push res _ _ Hres new_get_ok Hsp) as (q & rm' & pre' & u' & tl' & Hpush & Hq & Hu' & Htl').
  rewrite <- Htl'. intros r. unfold get_native. rewrite Hparse. cbn [mbind outcome_bind].
  rewrite (rep_get_header _ _ _ _ _ _ Hp). cbn [mbind outcome_bind]. rewrite Hg.
  cbn [unchecked mbind outcome_bind]. rewrite Hpush. cbn [expect mbind outcome_bind].
  rewrite (rep_get_payload _ _ _ _ _ _ Hp). cbn [mbind outcome_bind].
  pose proof (len_nonneg rest). rewrite decide_False by (rewrite len_app; lia).
  rewrite get_tenant_of by apply Hs. cbn [mbind outcome_bind].
  destruct (find_entry_spec s (req_tenant (get_common hdr)) (get_table_id hdr) key rest
    p _ _ hdr tl _ Hs Hp Hlen Hkey) as [-> Hent].
  cbn [mbind outcome_bind]. fold get_found in *.
  assert (∃ q1 tl1, match match get_found with FoundEntry e => inr e | f => inl (found_status f) end with
      | inl st => Ret (q, false, st) | inr object => get_native_emit g q object end
    = Ret (q1, bool_decide (r.1 = StatusOk), r.1) ∧
    pkt_rep q1 rm' (pre' ++ encode u') (GetResponse_new (req_stamp (get_common hdr)) SandstormGetRpc
                        (req_tenant (get_common hdr))) r.2.1 tl1 ∧ len tl1 = r.2.2)
    as (q1 & tl1 & -> & Hq1 & Htl1).
  { destruct get_found as [| | |e] eqn:Hf; try by exists q, tl'.
    apply (get_native_emit_spec g _ _ _ _ _ key); try done. by apply Hent. }
  cbn [mbind outcome_bind].
  destruct (finish_get_spec _ _ _ hdr _ _ r.1 Hq1 Hh) as (q2 & -> & Hq2).
  cbn [mbind outcome_bind]. eexists _, _. split; [done|]. split.
  - rewrite <- Htl. by eapply carries_udp.
  - rewrite <- Htl1. by eapply carries_udp.
Qed.
End get.

Section get_task.
Context (s s' : Store) (hdr : GetRequest) (key rest : bytes).
Context (Hs : store_wf s) (Hs' : store_wf s') (Hh : packed_ok hdr)
  (Hlen : get_key_length hdr = len key) (Hkey : key ≠ [])
  (Hsame : tenant_of s' (req_tenant (get_common hdr)) = tenant_of s (req_tenant (get_common hdr))).

Lemma get_task_carries `{BytesCrate} req res space rspace :
  carries req (encode hdr ++ key ++ rest) rspace → carries res [] space →
  size_of GetResponse ≤ space →
  let found := get_found s' hdr key in
  let r := get_reply found (space - size_of GetResponse) in
  ∃ g, get s req res = Ret (Ok g) ∧
    (¬ get_panics found (space - size_of GetResponse) → ∀ clock, ∃ req' res',
      run_gen s' g clock = (s', Ret (req', res')) ∧
      carries req' (encode hdr ++ key ++ rest) rspace ∧
      carries res' (encode (get_response hdr r.1 r.2.1) ++ r.2.1) r.2.2) ∧
    (get_panics found (space - size_of GetResponse) → ∀ clock, run_gen s' g clock = (s', Panic)).
Proof.
  intros Hreq Hres Hsp.
  destruct (carries_parse req hdr _ _ Hreq Hh) as (p & rm & pre & u & tl & Hparse & Hp & Hu & Htl).
  destruct (carries_push res _ _ Hres (new_get_ok hdr Hh) Hsp)
    as (q & rm' & pre' & u' & tl' & Hpush & Hq & Hu' & Htl').
  rewrite <- Htl'. intros found r. unfold get. rewrite Hparse. cbn [mbind outcome_bind].
  rewrite (rep_get_header _ _ _ _ _ _ Hp). cbn [mbind outcome_bind].
  rewrite Hpush. cbn [expect mbind outcome_bind].
  rewrite (rep_get_payload _ _ _ _ _ _ Hp). cbn [mbind outcome_bind].
  pose proof (len_nonneg rest). rewrite decide_False by (rewrite len_app; lia).
  rewrite get_tenant_of by apply Hs. cbn [mbind outcome_bind]. rewrite <- Hsame.
  unfold run_gen, get_gen.
  destruct (find_entry_spec s' (req_tenant (get_common hdr)) (get_table_id hdr) key rest
    p _ _ hdr tl _ Hs' Hp Hlen Hkey) as [Hfind Hent].
  fold (get_found s' hdr key) in *. fold found in Hfind, Hent.
  eexists. split; [done|]. cbn beta iota. rewrite Hfind. cbn [mbind outcome_bind]. split.
  - intros Hok clock.
    assert (∃ q1 tl1, match match found with
          | NoTenant => inl (found_status NoTenant) | NoTable => inl (found_status NoTable)
          | NoObject => inl (found_status NoObject) | FoundEntry e => inr e end with
        | inl st => Ret (q, false, st) | inr entry => get_emit q entry end
      = Ret (q1, bool_decide (r.1 = StatusOk), r.1) ∧
      pkt_rep q1 rm' (pre' ++ encode u') (GetResponse_new (req_stamp (get_common hdr)) SandstormGetRpc
                          (req_tenant (get_common hdr))) r.2.1 tl1 ∧ len tl1 = r.2.2)
      as (q1 & tl1 & -> & Hq1 & Htl1).
    { subst r. destruct found as [| | |e]; try by exists q, tl'.
      apply (get_emit_spec _ _ _ _ _ key); try done. by apply Hent. }
    cbn [mbind outcome_bind].
    destruct (finish_get_spec _ _ _ hdr _ _ r.1 Hq1 Hh) as (q2 & -> & Hq2).
    cbn [mbind outcome_bind]. eexists _, _. split; [done|]. split.
    + rewrite <- Htl. by eapply carries_udp.
    + rewrite <- Htl1. by eapply carries_udp.
  - intros Hpan clock. clear r. destruct found as [| | |e]; [done..|].
    by rewrite (get_emit_panics _ _ _ _ _ _ _ Hq (Hent _ eq_refl) Hkey Hpan).
Qed.
End get_task.

(** ** Put *)

Definition put_reply (f : Found) (val : bytes) : RpcStatus :=
  match f with
  | NoTenant => StatusTenantDoesNotExist
  | NoTable => StatusTableDoesNotExist
  | _ => if decide (val = []) then StatusMalformedRequest else StatusOk
  end.

(** What a successful put does to the store: one key of one table changes. *)
Record stored (s s' : Store) (tenant table : Z) (key val : bytes) : Prop := {
  stored_wf : store_wf s';
  stored_tenants : ∀ id, tenant_of s' id = tenant_of s id;
  stored_key : ∃ e, store_find s' tenant table key = FoundEntry e ∧ entry_kv e = (key, val);
  stored_others : ∀ tenant' table' key',
    (tenant', table', key') ≠ (tenant, table, key) →
    store_find s' tenant' table' key' = store_find s tenant' table' key';
}.

Section put.
Context `{BytesCrateLaws}.
Context (s : Store) (hdr : PutRequest) (key val : bytes).
Context (Hs : store_wf s) (Hh : packed_ok hdr) (Hlen : put_key_length hdr = len key)
  (Hkey : key ≠ []).

Abbreviation tenant := (req_tenant (put_common hdr)).
Abbreviation table := (put_table_id hdr).

Definition put_found : Found := store_find s tenant table key.

Lemma put_key_width : len key < 2 ^ 16.
Proof.
  unfold packed_ok in Hh. cbn in Hh. unfold req_layout, req_fields in Hh.
  repeat match goal with H : Forall2 _ (_ :: _) _ |- _ => inversion_clear H end.
  rewrite <- Hlen. unfold in_width in *. change (2 ^ (8 * Z.of_nat 2)) with (2 ^ 16) in *. lia.
Qed.

Lemma put_body_spec p room pre tail :
  pkt_rep p room pre hdr (key ++ val) tail →
  let st := put_reply put_found val in
  ∃ s', put_body s p (tenant_of s tenant) tenant table (put_key_length hdr) = Ret (s', st) ∧
    (st = StatusOk → stored s s' tenant table key val) ∧ (st ≠ StatusOk → s' = s).
Proof.
  intros Hp st. unfold put_body. pose proof (find_table_spec s tenant table key Hs) as Hf.
  pose proof put_key_width as Hk16. unfold st, put_found.
  destruct (rep_payload_bytes _ _ _ _ _ _ Hp) as [[Hkb Hvb]%is_bytes_app _].
  destruct (find_table _ _ _) as [[fs|l]| |]; [..|done|done]; cbn [mbind outcome_bind].
  { exists s. by destruct Hf as (f & [-> | ->] & -> & ->). }
  destruct Hf as (tn & t & Htn & Hl & Ht & [Hwf Hok] & Hfind).
  assert (put_reply (store_find s tenant table key) val =
          if decide (val = []) then StatusMalformedRequest else StatusOk) as ->.
  { rewrite Hfind. by destruct (tview t key). }
  rewrite (rep_get_payload _ _ _ _ _ _ Hp). cbn [mbind outcome_bind].
  rewrite split_at_app by done. cbn [mbind outcome_bind].
  destruct (decide (val = [])) as [->|Hv].
  { rewrite decide_False by (change (len (@nil Z)) with 0; lia). by exists s. }
  rewrite decide_True by (destruct val; [done|unfold len; cbn; lia]).
  assert (len val < 2 ^ 63) as Hv63.
  { pose proof (rep_fits _ _ _ _ _ _ Hp). pose proof (rep_cap _ _ _ _ _ _ Hp) as Hc.
    pose proof (rep_data_len _ _ _ _ _ _ Hp) as Hd. rewrite len_app in Hd.
    pose proof (rep_data_off _ _ _ _ _ _ Hp). pose proof (len_nonneg room).
    pose proof (len_nonneg pre). pose proof (len_nonneg tail). pose proof (len_nonneg key).
    pose proof (size_of_nonneg (T:=PutRequest)). unfold in_width in Hc. lia. }
  rewrite object_layout by done. cbn [mbind outcome_bind fst snd]. unfold table_at. rewrite Ht.
  cbn [unchecked mbind outcome_bind].
  destruct (table_put_ok t tenant table key val (conj Hwf Hok) Hkey Hk16 Hkb Hvb)
    as (t' & r & -> & Hok' & (e & He & Hr) & Hoth).
  cbn [mbind outcome_bind]. eexists. split; [done|]. split; [intros _|done]. split.
  - eapply with_table_wf; eauto.
  - done.
  - exists e. rewrite (with_table_find s tenant table tn l t t' Hs Htn Hl Ht).
    rewrite decide_True, He by done. split; [done|]. unfold entry_kv. by rewrite Hr.
  - intros tenant' table' key' Hne.
    rewrite (with_table_find s tenant table tn l t t' Hs Htn Hl Ht).
    case_decide as Hd; [|done]. destruct Hd as [-> ->]. rewrite Hoth by congruence.
    unfold store_find. by rewrite Htn, Hl; cbn; rewrite Ht.
Qed.

Lemma put_response_ok st : packed_ok (put_response hdr st).
Proof.
  unfold packed_ok in *. cbn in *. unfold req_layout, req_fields, res_fields in *.
  repeat match goal with H : Forall2 _ (_ :: _) _ |- _ => inversion_clear H end.
  constructor; [apply status_u8_width|]. constructor; [unfold in_width; cbn; lia|].
  repeat (constructor; [assumption|]). constructor.
Qed.

Lemma put_native_carries req res space rspace :
  carries req (encode hdr ++ key ++ val) rspace → carries res [] space →
  size_of PutResponse ≤ space →
  let st := put_reply put_found val in
  ∃ s' req' res', put_native s req res = Ret (s', Ok (req', res')) ∧
    carries req' (encode hdr ++ key ++ val) rspace ∧
    carries res' (encode (put_response hdr st)) (space - size_of PutResponse) ∧
    (st = StatusOk → stored s s' tenant table key val) ∧ (st ≠ StatusOk → s' = s).
Proof.
  intros Hreq Hres Hsp st.
  destruct (carries_parse req hdr _ _ Hreq Hh) as (p & rm & pre & u & tl & Hparse & Hp & Hu & Htl).
  destruct (carries_push res _ _ Hres (put_response_ok StatusOk) Hsp)
    as (q & rm' & pre' & u' & tl' & Hpush & Hq & Hu' & Htl').
  unfold put_native. rewrite Hparse. cbn [mbind outcome_bind].
  rewrite (rep_get_header _ _ _ _ _ _ Hp). cbn [mbind outcome_bind].
  change (PutResponse_new _ SandstormPutRpc _) with (put_response hdr StatusOk).
  rewrite Hpush. cbn [expect mbind outcome_bind].
  rewrite (rep_get_payload _ _ _ _ _ _ Hp). cbn [mbind outcome_bind].
  pose proof (len_nonneg val). rewrite decide_False by (rewrite len_app; lia).
  rewrite get_tenant_of by apply Hs. cbn [mbind outcome_bind].
  destruct (put_body_spec _ _ _ _ Hp) as (s' & -> & Hok & Hne). cbn [mbind outcome_bind].
  destruct (rep_set_status _ _ _ _ _ _ st Hq) as (q1 & Hst & Hq1).
  fold st. rewrite Hst. cbn [mbind outcome_bind]. eexists _, _, _. split; [done|].
  split; [rewrite <- Htl; by eapply carries_udp|]. split; [|done].
  rewrite <- Htl', <- (app_nil_r (encode _)). by eapply carries_udp.
Qed.
End put.

(** ** Multiget *)

(** What one record adds to a reply. *)
Definition mget_native_add (st : bytes * Z) (version : Z) (k v : bytes) : bool * (bytes * Z) :=
  try_add st v.

Definition mget_add (st : bytes * Z) (version : Z) (k v : bytes) : bool * (bytes * Z) :=
  let st := (try_add st OPTYPE_READ).2 in
  let st := (try_add st (le_bytes 8 version)).2 in
  let st := (try_add st k).2 in
  try_add st v.

Section mget_reply.
Context (add : bytes * Z → Z → bytes → bytes → bool * (bytes * Z)) (find : bytes → Found).

(** Keys are looked up in order until one is missing or does not fit. *)
Fixpoint mget_records (n : Z) (st : bytes * Z) (keys : list bytes) : Z * (bytes * Z) :=
  match keys with
  | [] => (n, st)
  | key :: keys' =>
      match find key with
      | FoundEntry e =>
          let '(k, v) := entry_kv e in
          let '(ok, st') := add st (entry_version e) k v in
          if (ok : bool) then mget_records (n + 1) st' keys' else (n, st')
      | _ => (n, st)
      end
  end.

Definition mget_reply (keys : list bytes) (space : Z) : RpcStatus * (Z * (bytes * Z)) :=
  match find [] with
  | NoTenant => (StatusTenantDoesNotExist, (0, ([], space)))
  | NoTable => (StatusTableDoesNotExist, (0, ([], space)))
  | _ =>
      let r := mget_records 0 ([], space) keys in
      (if decide (r.1 = Z.of_nat (length keys)) then StatusOk else StatusObjectDoesNotExist, r)
  end.
End mget_reply.

Definition mget_response (hdr : MultiGetRequest) (st : RpcStatus) (n : Z) : MultiGetResponse :=
  mkMultiGetResponse
    (with_status (RpcResponseHeader_new (req_stamp (mget_common hdr)) SandstormMultiGetRpc
                    (req_tenant (mget_common hdr))) st)
    (if decide (st = StatusOk) then n else 0).

Section multiget.
Context (emit : Packet MultiGetResponse → Z → bytes → bytes →
                outcome (bool * Packet MultiGetResponse)).
Context (add : bytes * Z → Z → bytes → bytes → bool * (bytes * Z)).

(** The interface between the two ways of writing a record and the loop. *)
Definition emit_adds : Prop :=
  ∀ p room pre (h : MultiGetResponse) pl tail ver k v,
    pkt_rep p room pre h pl tail → k ≠ [] → v ≠ [] → is_bytes k → is_bytes v →
    ∃ p' tail', emit p ver k v = Ret ((add (pl, len tail) ver k v).1, p') ∧
      pkt_rep p' room pre h (add (pl, len tail) ver k v).2.1 tail' ∧
      len tail' = (add (pl, len tail) ver k v).2.2.

Context (Hemit : emit_adds).
Context (t : Table) (find : bytes → Found) (Ht : table_ok t)
  (Hfind : ∀ k, find k = match tview t k with None => NoObject | Some e => FoundEntry e end)
  (Hfok : ∀ k, found_ok (find k)).
Context (room pre : bytes) (h : MultiGetResponse) (num key_length : Z).

Lemma multiget_loop_spec keys more n n_recs p pl tail :
  pkt_rep p room pre h pl tail →
  Forall (λ k, k ≠ [] ∧ len k = key_length) keys →
  0 ≤ n → 0 ≤ n_recs ≤ n → num = n + Z.of_nat (length keys) → num < 2 ^ 32 - 1 →
  ∃ p' tail',
    multiget_loop emit t key_length num n n_recs p (keys ++ more) =
      Ret ((mget_records add find n_recs (pl, len tail) keys).1, p') ∧
    pkt_rep p' room pre h (mget_records add find n_recs (pl, len tail) keys).2.1 tail' ∧
    len tail' = (mget_records add find n_recs (pl, len tail) keys).2.2.
Proof.
  intros Hp Hks. revert n n_recs p pl tail Hp.
  induction Hks as [|k keys [Hk Hl] _ IH]; intros n n_recs p pl tail Hp Hn Hr Hnum Hlt.
  - exists p, tail. cbn [app mget_records fst snd]. split_and!; [|done..].
    destruct more as [|k more]; [done|]. cbn [multiget_loop].
    rewrite (wadd_id 32) by (unfold in_width; cbn in *; lia).
    rewrite decide_True; [done|]. left. cbn in Hnum. lia.
  - cbn [app multiget_loop mget_records]. cbn [length] in Hnum.
    rewrite (wadd_id 32 n) by (unfold in_width; lia). rewrite decide_False by lia.
    destruct Ht as [Hwf Hok]. rewrite table_get_view by done. cbn [mbind outcome_bind].
    pose proof (Hfok k) as Hfo. rewrite Hfind in *.
    destruct (tview t k) as [e|] eqn:Hv; [|by exists p, tail].
    destruct (entry_ok_kv _ _ (Hok _ _ Hv)) as (v & -> & Hkv & Hkb & Hvb).
    cbn [mbind outcome_bind found_ok] in *. rewrite Hkv in *. cbn [snd] in Hfo.
    destruct (Hemit p room pre h pl tail (entry_version e) k v) as (p1 & t1 & -> & Hp1 & Ht1);
      [done..|].
    cbn [mbind outcome_bind]. destruct (add (pl, len tail) (entry_version e) k v) as [ok [d1 s1]].
    cbn [fst snd] in *. destruct ok; [|by exists p1, t1].
    rewrite (wadd_id 32 n_recs) by (unfold in_width; lia).
    subst s1. apply (IH (n + 1)); [done|lia|lia|lia|lia].
Qed.
End multiget.

Lemma multiget_native_emit_adds : emit_adds multiget_native_emit mget_native_add.
Proof. intros p room pre h pl tail ver k v Hp Hk Hv Hkb Hvb. by eapply rep_try_add. Qed.

Lemma multiget_emit_adds : emit_adds multiget_emit mget_add.
Proof.
  intros p room pre h pl tail ver k v Hp Hk Hv Hkb Hvb. unfold multiget_emit, mget_add.
  destruct (rep_try_add _ _ _ _ _ _ OPTYPE_READ Hp) as (p1 & t1 & He1 & Hp1 & Ht1);
    [done|apply (bool_decide_eq_true_1 _); by vm_compute|].
  change (len OPTYPE_READ) with 1 in He1. rewrite He1. cbn [mbind outcome_bind].
  destruct (le_bytes_8_bytes ver) as (Hb8 & Hl8 & Hn8).
  destruct (rep_try_add _ _ _ _ _ _ _ Hp1 Hn8 Hb8) as (p2 & t2 & He2 & Hp2 & Ht2).
  rewrite Hl8 in He2. rewrite He2. cbn [mbind outcome_bind].
  destruct (rep_try_add _ _ _ _ _ _ k Hp2 Hk Hkb) as (p3 & t3 & -> & Hp3 & Ht3).
  rewrite Ht2, Ht1 in *. rewrite <- !surjective_pairing in *. cbn [mbind outcome_bind].
  destruct (rep_try_add _ _ _ _ _ _ v Hp3 Hv Hvb) as (p4 & t4 & -> & Hp4 & Ht4).
  rewrite Ht3 in *. rewrite <- !surjective_pairing in *. by exists p4, t4.
Qed.

Lemma mget_response_ok hdr st n :
  packed_ok hdr → in_width 32 n → packed_ok (mget_response hdr st n).
Proof.
  intros Hh Hl. unfold packed_ok in *. cbn in *. unfold req_layout, req_fields in *.
  repeat match goal with H : Forall2 _ (_ :: _) _ |- _ => inversion_clear H end.
  constructor; [apply status_u8_width|]. constructor; [unfold in_width; cbn; lia|].
  repeat (constructor; [assumption|]). constructor; [|constructor].
  case_decide; [done|]. unfold in_width; cbn; lia.
Qed.

Lemma mget_records_bound add find n st keys :
  n ≤ (mget_records add find n st keys).1 ≤ n + Z.of_nat (length keys).
Proof.
  revert n st. induction keys as [|k keys IH]; intros n st; cbn [mget_records length fst]; [lia|].
  destruct (find k) as [| | |e]; cbn [fst]; try lia.
  destruct (entry_kv e) as [k' v]. destruct (add st (entry_version e) k' v) as [ok st'].
  destruct ok; cbn [fst]; [|lia]. specialize (IH (n + 1) st'). lia.
Qed.

Lemma store_find_empty_key s tenant table t l tn :
  tenant_of s tenant = Some tn → get_table tn table = Some l → heap s !! l = Some t →
  table_wf t → store_find s tenant table [] = NoObject.
Proof.
  intros Htn Hl Ht Hwf. unfold store_find. rewrite Htn, Hl. cbn. rewrite Ht.
  destruct (tview t []) as [e|] eqn:He; [|done]. by apply (wf_view_nonempty _ _ _ Hwf) in He.
Qed.

Section multiget_body.
Context (emit : Packet MultiGetResponse → Z → bytes → bytes →
                outcome (bool * Packet MultiGetResponse)).
Context (add : bytes * Z → Z → bytes → bytes → bool * (bytes * Z)).
Context (Hemit : emit_adds emit add).
Context (s : Store) (hdr : MultiGetRequest) (keys : list bytes) (rest : bytes).

Definition mget_find : bytes → Found :=
  store_find s (req_tenant (mget_common hdr)) (mget_table_id hdr).

Context (Hs : store_wf s) (Hh : packed_ok hdr)
  (Hkeys : Forall (λ k, len k = mget_key_len hdr) keys) (Hkl : 0 < mget_key_len hdr)
  (Hnum : num_keys hdr = Z.of_nat (length keys)) (Hfok : ∀ k, found_ok (mget_find k)).

Lemma multiget_body_spec p rm pre tl q room pre' tail :
  pkt_rep p rm pre hdr (concat keys ++ rest) tl →
  pkt_rep q room pre' (mget_response hdr StatusOk 0) [] tail →
  let r := mget_reply add mget_find keys (len tail) in
  ∃ q' tail', multiget_body emit s p q (tenant_of s (req_tenant (mget_common hdr)))
      (mget_table_id hdr) (mget_key_len hdr) (num_keys hdr) = Ret q' ∧
    pkt_rep q' room pre' (mget_response hdr r.1 r.2.1) r.2.2.1 tail' ∧ len tail' = r.2.2.2.
Proof.
  intros Hp Hq. unfold multiget_body, mget_reply, mget_find.
  pose proof (find_table_spec s (req_tenant (mget_common hdr)) (mget_table_id hdr) [] Hs) as Hf.
  destruct (find_table _ _ _) as [[fs|l]| |]; [..|done|done]; cbn [mbind outcome_bind].
  { destruct Hf as (f & Hf & He & ->). rewrite He.
    destruct (rep_set_status _ _ _ _ _ _ (found_status f) Hq) as (q1 & He1 & Hq1).
    exists q1, tail. rewrite He1. by destruct Hf as [-> | ->]. }
  destruct Hf as (tn & t & Htn & Hl & Ht & Hok & Hfind).
  rewrite (store_find_empty_key _ _ _ _ _ _ Htn Hl Ht (proj1 Hok)).
  unfold table_at. rewrite Ht. cbn [unchecked mbind outcome_bind].
  rewrite (rep_get_payload _ _ _ _ _ _ Hp). cbn [mbind outcome_bind].
  destruct (chunks_concat keys rest (mget_key_len hdr) Hkl Hkeys) as (more & -> & _).
  cbn [mbind outcome_bind].
  assert (Z.of_nat (length keys) < 2 ^ 16) as Hsmall.
  { pose proof (rep_fits _ _ _ _ _ _ Hp). pose proof (rep_cap _ _ _ _ _ _ Hp) as Hc.
    pose proof (rep_data_len _ _ _ _ _ _ Hp) as Hd. rewrite len_app in Hd.
    pose proof (rep_data_off _ _ _ _ _ _ Hp). pose proof (len_nonneg rm).
    pose proof (len_nonneg pre). pose proof (len_nonneg tl). pose proof (len_nonneg rest).
    pose proof (size_of_nonneg (T:=MultiGetRequest)). unfold in_width in Hc.
    pose proof (len_concat _ _ Hkeys). nia. }
  destruct (multiget_loop_spec emit add Hemit t mget_find Hok) with (keys := keys) (more := more)
    (n := 0) (n_recs := 0) (num := num_keys hdr) (key_length := mget_key_len hdr)
    (room := room) (pre := pre') (h := mget_response hdr StatusOk 0) (p := q) (pl := @nil Z)
    (tail := tail) as (q1 & t1 & He & Hq1 & Ht1); try done; try lia.
  { intros k. unfold mget_find, store_find. rewrite Htn, Hl. cbn. by rewrite Ht. }
  { eapply Forall_impl; [exact Hkeys|]. intros k Hk. split; [|done]. intros ->.
    change (len (@nil Z)) with 0 in Hk. lia. }
  rewrite He. cbn [mbind outcome_bind]. rewrite Hnum.
  pose proof (mget_records_bound add mget_find 0 ([], len tail) keys) as Hb.
  unfold mget_find in *. set (rr := mget_records _ _ 0 _ keys) in *.
  set (st := if decide (rr.1 = Z.of_nat (length keys)) then StatusOk else StatusObjectDoesNotExist) in *.
  destruct (rep_set_status _ _ _ _ _ _ st Hq1) as (q2 & Hst & Hq2). rewrite Hst.
  cbn [mbind outcome_bind]. cbn [fst snd].
  assert (packed_ok (mget_response hdr st rr.1)) as Hok2
    by (apply mget_response_ok; [done|unfold in_width; lia]).
  unfold mget_response in *. destruct (decide (st = StatusOk)) as [Hst'|].
  - destruct (rep_modify_header _ _ _ _ (λ h, mkMultiGetResponse (mgetres_common h) rr.1) _ _ Hq2)
      as (q3 & He3 & Hq3); [done..|]. by exists q3, t1.
  - by exists q2, t1.
Qed.
End multiget_body.

Section multiget_native.
Context (s : Store) (hdr : MultiGetRequest) (keys : list bytes) (rest : bytes).
Context (Hs : store_wf s) (Hh : packed_ok hdr)
  (Hkeys : Forall (λ k, len k = mget_key_len hdr) keys) (Hkl : 0 < mget_key_len hdr)
  (Hnum : num_keys hdr = Z.of_nat (length keys)) (Hfok : ∀ k, found_ok (mget_find s hdr k)).

Lemma multiget_native_carries req res space rspace :
  carries req (encode hdr ++ concat keys ++ rest) rspace → carries res [] space →
  size_of MultiGetResponse ≤ space →
  let r := mget_reply mget_native_add (mget_find s hdr) keys (space - size_of MultiGetResponse) in
  ∃ req' res', multiget_native s req res = Ret (Ok (req', res')) ∧
    carries req' (encode hdr ++ concat keys ++ rest) rspace ∧
    carries res' (encode (mget_response hdr r.1 r.2.1) ++ r.2.2.1) r.2.2.2.
Proof.
  intros Hreq Hres Hsp. pose proof (carries_len _ _ _ Hreq) as Hw.
  destruct (carries_parse req hdr _ _ Hreq Hh) as (p & rm & pre & u & tl & Hparse & Hp & Hu & Htl).
  assert (packed_ok (mget_response hdr StatusOk 0)) as Hnew
    by (apply mget_response_ok; [done|unfold in_width; lia]).
  destruct (carries_push res _ _ Hres Hnew Hsp)
    as (q & rm' & pre' & u' & tl' & Hpush & Hq & Hu' & Htl').
  rewrite <- Htl'. intros r. unfold multiget_native. rewrite Hparse. cbn [mbind outcome_bind].
  rewrite (rep_get_header _ _ _ _ _ _ Hp). cbn [mbind outcome_bind].
  change (MultiGetResponse_new _ SandstormMultiGetRpc _ 0) with (mget_response hdr StatusOk 0).
  rewrite Hpush. cbn [expect mbind outcome_bind].
  rewrite (rep_get_payload _ _ _ _ _ _ Hp). cbn [mbind outcome_bind].
  pose proof (len_concat _ _ Hkeys) as Hlc. rewrite !len_app in Hw.
  pose proof (len_nonneg rest). pose proof (len_nonneg (encode hdr)). unfold in_width in Hw.
  unfold wmul. rewrite wrap_id by (unfold in_width; nia).
  rewrite decide_False by (rewrite len_app; nia).
  rewrite get_tenant_of by apply Hs. cbn [mbind outcome_bind].
  destruct (multiget_body_spec multiget_native_emit mget_native_add multiget_native_emit_adds
    s hdr keys rest Hs Hh Hkeys Hkl Hnum Hfok _ _ _ _ _ _ _ _ Hp Hq) as (q1 & tl1 & -> & Hq1 & Htl1).
  cbn [mbind outcome_bind]. eexists _, _. split; [done|]. split.
  - rewrite <- Htl. by eapply carries_udp.
  - fold r in Hq1, Htl1. rewrite <- Htl1. by eapply carries_udp.
Qed.
End multiget_native.

(** ** A concrete store and concrete packets *)

Definition ret_or {A} (d : A) (o : outcome A) : A := match o with Ret a => a | _ => d end.

(** Tenant 7 with table 3 holding [42; 43] under [1; 2; 3]. *)
Definition ex_tbl : Table :=
  (ret_or (Table_default, None)
     (table_put Table_default [1; 2; 3] (obj_layout 7 3 [1; 2; 3] [42; 43]))).1.

Definition ex_store : Store :=
  ret_or Store_new
    (insert_tenant (mkStore [ex_tbl] (tenants Store_new))
       (create_table Store_new (Tenant_new 7) 3).2).

Lemma ex_tbl_ok : table_ok ex_tbl.
Proof.
  destruct (table_put_ok Table_default 7 3 [1; 2; 3] [42; 43]) as (t' & r & He & Hok & _);
    try (apply default_ok || done); try (apply (bool_decide_eq_true_1 _); by vm_compute).
  unfold ex_tbl. by rewrite He.
Qed.

Lemma ex_store_wf : store_wf ex_store.
Proof.
  destruct (insert_fresh_wf Store_new 7 3 ex_tbl Store_new_wf ex_tbl_ok (Store_new_tenant 7))
    as (s' & He & Hs & _).
  unfold ex_store. change [ex_tbl] with (heap Store_new ++ [ex_tbl]). by rewrite He.
Qed.

Definition dummy_packet : Packet UdpHeader := create_packet ex_mbuf 0 0.

(** A request as the dispatcher hands it to a handler. *)
Definition ex_req (r : ClientRequest) : Packet UdpHeader :=
  ret_or dummy_packet
    (q ← cr_create (Some ex_mbuf) ex_mac ex_ip ex_udp 5 r; parse_header UdpHeader q).

Definition ex_res : Packet UdpHeader :=
  ret_or dummy_packet (create_request (Some ex_mbuf) ex_mac ex_ip ex_udp 5).

Lemma ex_req_carries r :
  cr_ok r → len (cr_wire r) ≤ 158 → ∃ space, carries (ex_req r) (cr_wire r) space.
Proof.
  intros Hr Hl. unfold ex_req.
  assert (in_width 16 5) as H5 by (unfold in_width; lia).
  assert (len ex_tail = 200) as Ht by done.
  destruct (cr_create_rep r ex_mbuf ex_room ex_tail ex_mac ex_ip ex_udp 5 ex_fresh ex_plain H5 Hr)
    as (q & tail' & -> & Hq); [lia|].
  cbn [mbind outcome_bind].
  set (u := set_udp_length (set_dst_port ex_udp 5) (8 + len (cr_wire r))) in *.
  assert (packed_ok u) as Hu.
  { apply set_port_ok; [apply set_port_ok; [apply ex_plain|done]|].
    pose proof (len_nonneg (cr_wire r)). unfold in_width. lia. }
  destruct (rep_parse_header _ _ _ _ u _ _ Hq Hu (offset_size u) hsize_size) as (p & -> & Hp).
  by eexists _, _, _, _, _.
Qed.

Lemma ex_res_carries : carries ex_res [] 158.
Proof.
  destruct (create_request_rep ex_mbuf ex_room ex_tail ex_mac ex_ip ex_udp 5 ex_fresh ex_plain)
    as (p & He & Hp); [unfold in_width; lia|done|].
  unfold ex_res. rewrite He. by eexists _, _, _, _.
Qed.

Lemma ex_request_ok : cr_ok ex_request.
Proof.
  split; [discriminate|]. split; [apply (bool_decide_eq_true_1 _); by vm_compute|].
  split_and!; try (unfold in_width; lia). vm_compute. discriminate.
Qed.

Lemma ex_put_ok : cr_ok (CPut 7 3 [1; 2; 3] [50; 51; 52] 98).
Proof.
  split; [discriminate|]. split; [apply (bool_decide_eq_true_1 _); by vm_compute|].
  split_and!; try (unfold in_width; lia). vm_compute. discriminate.
Qed.

Lemma ex_mget_ok : cr_ok (CMultiGet 7 3 3 2 [1; 2; 3; 4; 5; 6] 97).
Proof.
  split; [discriminate|]. split; [apply (bool_decide_eq_true_1 _); by vm_compute|].
  split_and!; unfold in_width; lia.
Qed.

(** Entries of the concrete store hold non-empty values. *)
Lemma ex_found_ok tenant table k : found_ok (store_find ex_store tenant table k).
Proof.
  destruct (store_find ex_store tenant table k) as [| | |e] eqn:Hf; try done.
  unfold store_find in Hf. destruct (tenant_of ex_store tenant) as [tn|] eqn:Htn; [|done].
  assert (tn = (create_table Store_new (Tenant_new 7) 3).2) as ->.
  { unfold ex_store in Htn.
    destruct (insert_tenant_spec (mkStore [ex_tbl] (tenants Store_new))
      (create_table Store_new (Tenant_new 7) 3).2 eq_refl) as (s' & He & _ & _ & Hof).
    rewrite He in Htn. cbn [ret_or] in Htn. rewrite Hof in Htn. case_decide; [congruence|].
    change (tenant_of Store_new tenant = Some tn) in Htn. by rewrite Store_new_tenant in Htn. }
  destruct (get_table _ table) as [l|] eqn:Hl; [|done]. cbn in Hf.
  unfold get_table, create_table in Hl. cbn [snd tables Tenant_new] in Hl.
  apply lookup_insert_Some in Hl as [[_ <-]|[_ Hl]]; [|by rewrite lookup_empty in Hl].
  change (heap ex_store !! length (heap Store_new)) with (Some ex_tbl) in Hf. cbn in Hf.
  destruct (table_put_view Table_default [1; 2; 3] (obj_layout 7 3 [1; 2; 3] [42; 43]) default_wf)
    as (t' & e' & He & _ & _ & Hv & He'); [done|].
  unfold ex_tbl in Hf. rewrite He in Hf. cbn [ret_or fst] in Hf. rewrite Hv in Hf.
  case_decide; [|by rewrite (rel_view _ _ default_rel) in Hf; cbn in Hf; rewrite lookup_empty in Hf].
  injection Hf as <-. subst e'. by vm_compute.
Qed.

(** ** Properties *)

(** the native get handler answers every well-formed request as specified.
    It leaves the request packet as it was, and the response carries the
    tenant's, table's or object's absence as its status with no data; for an
    object that is found, the value (preceded by its key when an extension
    asked) with status [StatusOk] and its length, [StatusInternalError] when
    the value does not fit, and, when the key does not fit, [StatusOk] with
    no data at all. *)
Theorem get_native_answers s hdr key rest req res g space rspace :
  store_wf s → packed_ok hdr → get_key_length hdr = len key → key ≠ [] →
  carries req (encode hdr ++ key ++ rest) rspace → carries res [] space →
  GetGenerator_of_u8 (get_generator hdr) = Some g → size_of GetResponse ≤ space →
  found_ok (get_found s hdr key) →
  let r := get_native_reply g (get_found s hdr key) (space - size_of GetResponse) in
  ∃ req' res', get_native s req res = Ret (Ok (req', res')) ∧
    carries req' (encode hdr ++ key ++ rest) rspace ∧
    carries res' (encode (get_response hdr r.1 r.2.1) ++ r.2.1) r.2.2.
Proof. intros. by apply get_native_carries. Qed.

Definition ex_get : GetRequest := GetRequest_new 7 3 3 99 SandstormClient.

Lemma get_native_answers_witness :
  ∃ rspace, let r := get_native_reply SandstormClient (get_found ex_store ex_get [1; 2; 3])
              (158 - size_of GetResponse) in
  ∃ req' res', get_native ex_store (ex_req ex_request) ex_res = Ret (Ok (req', res')) ∧
    carries req' (encode ex_get ++ [1; 2; 3] ++ []) rspace ∧
    carries res' (encode (get_response ex_get r.1 r.2.1) ++ r.2.1) r.2.2.
Proof.
  destruct (ex_req_carries ex_request) as [rspace Hreq]; [apply ex_request_ok|by vm_compute|].
  exists rspace.
  apply (get_native_answers ex_store ex_get [1; 2; 3] [] (ex_req ex_request) ex_res
    SandstormClient 158 rspace).
  - apply ex_store_wf.
  - apply (bool_decide_eq_true_1 _). by vm_compute.
  - reflexivity.
  - discriminate.
  - exact Hreq.
  - apply ex_res_carries.
  - reflexivity.
  - by vm_compute.
  - apply ex_found_ok.
Defined.

(** a get is served by a task whose answer depends on the store when the
    task runs.  [get] parses the request and returns a generator; running it
    later, on any well-formed store in which the tenant still has the same
    tables, answers with the record type, the version, the key and the value
    of the object as it is at that time, or with the status that explains
    its absence, and does not change the store. *)
Theorem get_task_answers `{BytesCrate} s s' hdr key rest req res space rspace clock :
  store_wf s → store_wf s' → packed_ok hdr → get_key_length hdr = len key → key ≠ [] →
  tenant_of s' (req_tenant (get_common hdr)) = tenant_of s (req_tenant (get_common hdr)) →
  carries req (encode hdr ++ key ++ rest) rspace → carries res [] space →
  size_of GetResponse ≤ space → ¬ get_panics (get_found s' hdr key) (space - size_of GetResponse) →
  let r := get_reply (get_found s' hdr key) (space - size_of GetResponse) in
  ∃ g req' res', get s req res = Ret (Ok g) ∧ run_gen s' g clock = (s', Ret (req', res')) ∧
    carries req' (encode hdr ++ key ++ rest) rspace ∧
    carries res' (encode (get_response hdr r.1 r.2.1) ++ r.2.1) r.2.2.
Proof.
  intros Hs Hs' Hh Hlen Hkey Hsame Hreq Hres Hsp Hok.
  destruct (get_task_carries s s' hdr key rest Hs Hs' Hh Hlen Hkey Hsame req res space rspace
    Hreq Hres Hsp) as (g & Hg & Hrun & _).
  destruct (Hrun Hok clock) as (req' & res' & ?). by exists g, req', res'.
Qed.

Lemma get_task_answers_witness :
  ∃ rspace, let r := get_reply (get_found ex_store ex_get [1; 2; 3]) (158 - size_of GetResponse) in
  ∃ g req' res', get ex_store (ex_req ex_request) ex_res = Ret (Ok g) ∧
    @run_gen exact_bytes ex_store g 0 = (ex_store, Ret (req', res')) ∧
    carries req' (encode ex_get ++ [1; 2; 3] ++ []) rspace ∧
    carries res' (encode (get_response ex_get r.1 r.2.1) ++ r.2.1) r.2.2.
Proof.
  destruct (ex_req_carries ex_request) as [rspace Hreq]; [apply ex_request_ok|by vm_compute|].
  exists rspace.
  apply (@get_task_answers exact_bytes ex_store ex_store ex_get [1; 2; 3] [] (ex_req ex_request)
    ex_res 158 rspace 0).
  - apply ex_store_wf.
  - apply ex_store_wf.
  - apply (bool_decide_eq_true_1 _). by vm_compute.
  - reflexivity.
  - discriminate.
  - reflexivity.
  - exact Hreq.
  - apply ex_res_carries.
  - by vm_compute.
  - apply found_ok_reads, ex_found_ok.
Defined.

(** C6: a put that succeeds is visible to the next get, and touches nothing
    else.  Once [put_native] has answered [StatusOk] for a tenant, table, key
    and value, [get_native] of a client (not of an extension) for the same key,
    with a response that has room for the value, answers [StatusOk] with exactly
    that value, every other (tenant, table, key) reads as before, and the
    store is still well-formed; a put that fails leaves the store alone. *)
Theorem put_then_get `{BytesCrateLaws} s phdr key val preq pres pspace prspace
    ghdr greq gres gspace grspace rest :
  store_wf s → packed_ok phdr → packed_ok ghdr → key ≠ [] →
  put_key_length phdr = len key → get_key_length ghdr = len key →
  req_tenant (get_common ghdr) = req_tenant (put_common phdr) →
  get_table_id ghdr = put_table_id phdr →
  GetGenerator_of_u8 (get_generator ghdr) = Some SandstormClient →
  carries preq (encode phdr ++ key ++ val) prspace → carries pres [] pspace →
  carries greq (encode ghdr ++ key ++ rest) grspace → carries gres [] gspace →
  size_of PutResponse ≤ pspace → size_of GetResponse + len val ≤ gspace →
  ∃ s' preq' pres' pst,
    put_native s preq pres = Ret (s', Ok (preq', pres')) ∧
    carries pres' (encode (put_response phdr pst)) (pspace - size_of PutResponse) ∧
    (pst ≠ StatusOk → s' = s) ∧
    (pst = StatusOk →
      store_wf s' ∧
      (∀ tenant' table' key',
        (tenant', table', key') ≠ (req_tenant (put_common phdr), put_table_id phdr, key) →
        store_find s' tenant' table' key' = store_find s tenant' table' key') ∧
      ∃ greq' gres', get_native s' greq gres = Ret (Ok (greq', gres')) ∧
        carries gres' (encode (get_response ghdr StatusOk val) ++ val)
          (gspace - size_of GetResponse - len val)).
Proof.
  intros Hs Hph Hgh Hk Hpl Hgl Ht Htb Hg Hpreq Hpres Hgreq Hgres Hps Hgs.
  destruct (put_native_carries s phdr key val Hs Hph Hpl Hk preq pres pspace prspace Hpreq Hpres Hps)
    as (s' & preq' & pres' & Hput & _ & Hpres' & Hok & Hne).
  eexists s', preq', pres', _. split; [done|]. split; [done|]. split; [done|]. intros Hst.
  assert (val ≠ []) as Hval.
  { intros ->. unfold put_reply in Hst. by destruct (put_found s phdr key). }
  destruct (Hok Hst) as [Hwf _ (e & He & Hkv) Hoth]. split; [done|]. split; [done|].
  destruct (get_native_carries s' ghdr key rest Hwf Hgh Hgl Hk greq gres SandstormClient gspace grspace)
    as (greq' & gres' & Hget & _ & Hres'); try done.
  - pose proof (len_nonneg val). lia.
  - unfold get_found. rewrite Ht, Htb, He. cbn. by rewrite Hkv.
  - exists greq', gres'. split; [done|]. unfold get_found in Hres'. rewrite Ht, Htb, He in Hres'.
    unfold get_native_reply in Hres'. rewrite Hkv in Hres'.
    rewrite decide_False in Hres' by done. unfold try_add in Hres'. cbn [fst snd] in Hres'.
    rewrite decide_True in Hres' by lia. by cbn [fst snd app] in Hres'.
Qed.

Definition ex_put : PutRequest := PutRequest_new 7 3 3 98.

Definition ex_put_request : ClientRequest := CPut 7 3 [1; 2; 3] [50; 51; 52] 98.

Lemma put_then_get_witness :
  ∃ s' preq' pres' pst,
    @put_native exact_bytes ex_store (ex_req ex_put_request) ex_res = Ret (s', Ok (preq', pres')) ∧
    carries pres' (encode (put_response ex_put pst)) (158 - size_of PutResponse) ∧
    (pst ≠ StatusOk → s' = ex_store) ∧
    (pst = StatusOk →
      store_wf s' ∧
      (∀ tenant' table' key', (tenant', table', key') ≠ (7, 3, [1; 2; 3]) →
        store_find s' tenant' table' key' = store_find ex_store tenant' table' key') ∧
      ∃ greq' gres', get_native s' (ex_req ex_request) ex_res = Ret (Ok (greq', gres')) ∧
        carries gres' (encode (get_response ex_get StatusOk [50; 51; 52]) ++ [50; 51; 52])
          (158 - size_of GetResponse - len [50; 51; 52])).
Proof.
  destruct (ex_req_carries ex_request) as [grspace Hgreq]; [apply ex_request_ok|by vm_compute|].
  destruct (ex_req_carries ex_put_request) as [prspace Hpreq]; [apply ex_put_ok|by vm_compute|].
  apply (@put_then_get exact_bytes _ ex_store ex_put [1; 2; 3] [50; 51; 52]
    (ex_req ex_put_request) ex_res 158 prspace ex_get (ex_req ex_request) ex_res 158 grspace []);
    try done; try (apply ex_store_wf || apply ex_res_carries);
    try (apply (bool_decide_eq_true_1 _); by vm_compute).
Defined.

(** the native multiget handler looks keys up in request order.  For a
    request of [num_keys] keys of one length, the response holds the values of
    the longest prefix of keys that are present and fit; its status is
    [StatusOk] with the record count exactly when that prefix is all the keys,
    and [StatusObjectDoesNotExist] (or the missing tenant or table) otherwise. *)
Theorem multiget_native_answers s hdr keys rest req res space rspace :
  store_wf s → packed_ok hdr → Forall (λ k, len k = mget_key_len hdr) keys →
  0 < mget_key_len hdr → num_keys hdr = Z.of_nat (length keys) →
  (∀ k, found_ok (mget_find s hdr k)) →
  carries req (encode hdr ++ concat keys ++ rest) rspace → carries res [] space →
  size_of MultiGetResponse ≤ space →
  let r := mget_reply mget_native_add (mget_find s hdr) keys (space - size_of MultiGetResponse) in
  ∃ req' res', multiget_native s req res = Ret (Ok (req', res')) ∧
    carries req' (encode hdr ++ concat keys ++ rest) rspace ∧
    carries res' (encode (mget_response hdr r.1 r.2.1) ++ r.2.2.1) r.2.2.2.
Proof. intros. by apply multiget_native_carries. Qed.

Definition ex_mget : MultiGetRequest := MultiGetRequest_new 7 3 3 2 97.

Definition ex_mget_request : ClientRequest := CMultiGet 7 3 3 2 [1; 2; 3; 4; 5; 6] 97.

Lemma multiget_native_answers_witness :
  ∃ rspace,
  let r := mget_reply mget_native_add (mget_find ex_store ex_mget) [[1; 2; 3]; [4; 5; 6]]
             (158 - size_of MultiGetResponse) in
  ∃ req' res', multiget_native ex_store (ex_req ex_mget_request) ex_res = Ret (Ok (req', res')) ∧
    carries req' (encode ex_mget ++ concat [[1; 2; 3]; [4; 5; 6]] ++ []) rspace ∧
    carries res' (encode (mget_response ex_mget r.1 r.2.1) ++ r.2.2.1) r.2.2.2.
Proof.
  destruct (ex_req_carries ex_mget_request) as [rspace Hreq]; [apply ex_mget_ok|by vm_compute|].
  exists rspace.
  apply (multiget_native_answers ex_store ex_mget [[1; 2; 3]; [4; 5; 6]] []
    (ex_req ex_mget_request) ex_res 158 rspace).
  - apply ex_store_wf.
  - apply (bool_decide_eq_true_1 _). by vm_compute.
  - apply (bool_decide_eq_true_1 _). by vm_compute.
  - done.
  - reflexivity.
  - intros k. apply ex_found_ok.
  - exact Hreq.
  - apply ex_res_carries.
  - by vm_compute.
Defined.
