(* ===== verification/CommitSpecs.v ===== *)
(** * CommitSpecs: the commit RPC

    A commit request carries the read and write set of a transaction as fixed
    size records.  These lemmas tie the handler of [Handlers] to [validate] of
    [Table]: the task decodes exactly the transaction that was encoded,
    validates it under the tenant's lock, and reports the decision. *)

From S2P Require Import Prelude Packed Headers Packet Wire Rpc Alloc Tx Table Store Handlers.
From S2P Require Import HandlerSpecs.

(** ** Records on the wire *)

Definition encode_record (r : RwRecord) : bytes :=
  OpType_u8 (rec_optype r) :: le_bytes 8 (rec_version r) ++ rec_key r ++ rec_object r.

Record record_wire (key_len val_len : Z) (r : RwRecord) : Prop := {
  rw_key : len (rec_key r) = key_len;
  rw_object : len (rec_object r) = val_len;
  rw_version : in_width 64 (rec_version r);
  rw_key_bytes : is_bytes (rec_key r);
  rw_object_bytes : is_bytes (rec_object r);
}.

Definition tx_add (tx : TX) (r : RwRecord) : TX :=
  match rec_optype r with
  | SandstormRead => record_get tx r
  | SandstormWrite => record_put tx r
  | InvalidRecord => tx
  end.

(** The transaction a list of records stands for. *)
Definition tx_of (rs : list RwRecord) : TX := foldl tx_add TX_new rs.

(** The keys an abort reports, as far as they fit. *)
Definition abort_add (st : bytes * Z) (r : RwRecord) : bytes * Z :=
  match rec_optype r with
  | SandstormRead => (try_add st (rec_key r)).2
  | _ => st
  end.

Definition decision_status (d : TxDecision) : RpcStatus :=
  match d with COMMIT => StatusOk | ABORT => StatusTxAbort end.

Definition commit_data (d : TxDecision) (rs : list RwRecord) (space : Z) : bytes * Z :=
  match d with COMMIT => ([], space) | ABORT => foldl abort_add ([], space) rs end.

(** ** Decoding *)

Lemma parse_optype_u8 o rest : parse_record_optype (OpType_u8 o :: rest) = Ret o.
Proof. by destruct o. Qed.

Lemma split_record_encode kl vl r :
  record_wire kl vl r →
  split_record kl (encode_record r) =
    Ret ([OpType_u8 (rec_optype r)], rec_version r, rec_key r, rec_object r).
Proof.
  intros [Hk Ho Hv _ _]. unfold split_record, encode_record.
  change (OpType_u8 (rec_optype r) :: le_bytes 8 (rec_version r) ++ rec_key r ++ rec_object r)
    with ([OpType_u8 (rec_optype r)] ++ le_bytes 8 (rec_version r) ++ rec_key r ++ rec_object r).
  rewrite split_at_app by done. cbn [mbind outcome_bind].
  rewrite split_at_app by by rewrite len_le_bytes. cbn [mbind outcome_bind].
  rewrite split_at_app by done. cbn [mbind outcome_bind].
  by rewrite le_val_bytes, Z.mod_small by exact Hv.
Qed.

Lemma commit_record_encode kl vl tx r :
  record_wire kl vl r → commit_record kl tx (encode_record r) = Ret (tx_add tx r).
Proof.
  intros Hr. unfold commit_record. rewrite (split_record_encode _ _ _ Hr).
  cbn [mbind outcome_bind]. rewrite parse_optype_u8. cbn [mbind outcome_bind].
  unfold tx_add, Record_new. destruct r as [[] v k o]; done.
Qed.

Lemma commit_records_encode kl vl tx rs :
  Forall (record_wire kl vl) rs →
  ofold (commit_record kl) tx (encode_record <$> rs) = Ret (foldl tx_add tx rs).
Proof.
  intros Hrs. revert tx. induction Hrs as [|r rs Hr _ IH]; intros tx; [done|].
  cbn. rewrite (commit_record_encode _ _ _ _ Hr). cbn. apply IH.
Qed.

Lemma encode_record_len kl vl r : record_wire kl vl r → len (encode_record r) = 1 + 8 + kl + vl.
Proof.
  intros [<- <- _ _ _]. unfold encode_record.
  match goal with |- len (?x :: ?l) = _ => change (x :: l) with ([x] ++ l) end.
  rewrite !len_app, len_le_bytes. change (len [OpType_u8 (rec_optype r)]) with 1. lia.
Qed.

(** A list of records, concatenated, is cut back into its records. *)
Lemma records_chunks kl vl rs :
  Forall (record_wire kl vl) rs → 0 ≤ kl → 0 ≤ vl →
  chunks (concat (encode_record <$> rs)) (1 + 8 + kl + vl) = Ret (encode_record <$> rs).
Proof.
  intros Hwire Hkl Hvl.
  destruct (chunks_concat (encode_record <$> rs) [] (1 + 8 + kl + vl)) as (more & Hch & Hmore);
    [lia| |].
  { apply Forall_fmap. eapply Forall_impl; [exact Hwire|]. intros. by apply encode_record_len. }
  assert (more = []) as ->.
  { unfold chunks in Hmore. rewrite decide_True in Hmore by lia. cbn in Hmore. congruence. }
  by rewrite !app_nil_r in Hch.
Qed.

Lemma tx_add_reads rs tx :
  Forall (λ r, rec_optype r = SandstormRead) rs →
  foldl tx_add tx rs = mkTX (reads tx ++ rs) (writes tx).
Proof.
  intros Hrs. revert tx. induction Hrs as [|r rs Hr _ IH]; intros tx; cbn [foldl].
  - by rewrite app_nil_r; destruct tx.
  - rewrite IH. unfold tx_add. rewrite Hr. cbn. by rewrite <- (assoc_L (++)).
Qed.

Lemma tx_add_writes rs tx :
  Forall (λ r, rec_optype r = SandstormWrite) rs →
  foldl tx_add tx rs = mkTX (reads tx) (writes tx ++ rs).
Proof.
  intros Hrs. revert tx. induction Hrs as [|r rs Hr _ IH]; intros tx; cbn [foldl].
  - by rewrite app_nil_r; destruct tx.
  - rewrite IH. unfold tx_add. rewrite Hr. cbn. by rewrite <- (assoc_L (++)).
Qed.

(** Reads before writes: the order in which a transaction is shipped. *)
Lemma tx_of_split tx :
  Forall (λ r, rec_optype r = SandstormRead) (reads tx) →
  Forall (λ r, rec_optype r = SandstormWrite) (writes tx) →
  tx_of (reads tx ++ writes tx) = tx.
Proof.
  intros Hr Hw. unfold tx_of. rewrite foldl_app, (tx_add_reads (reads tx)), tx_add_writes by done.
  by destruct tx.
Qed.

Lemma tx_add_elem tx r0 r :
  (r ∈ reads (tx_add tx r0) → r ∈ reads tx ∨ r = r0) ∧
  (r ∈ writes (tx_add tx r0) → r ∈ writes tx ∨ r = r0).
Proof.
  unfold tx_add. destruct (rec_optype r0); cbn; rewrite ?elem_of_app, ?list_elem_of_singleton; tauto.
Qed.

Lemma tx_of_elem rs r : r ∈ reads (tx_of rs) ∨ r ∈ writes (tx_of rs) → r ∈ rs.
Proof.
  unfold tx_of. induction rs as [|r0 rs IH] using rev_ind.
  { by intros [Hr%not_elem_of_nil|Hr%not_elem_of_nil]. }
  rewrite foldl_app. cbn [foldl]. pose proof (tx_add_elem (foldl tx_add TX_new rs) r0 r).
  rewrite elem_of_app, list_elem_of_singleton. tauto.
Qed.

Lemma tx_of_ok kl vl rs :
  Forall (record_wire kl vl) rs → 0 < kl < 2 ^ 16 → vl < 2 ^ 16 → tx_ok (tx_of rs).
Proof.
  intros Hrs Hk Hv. rewrite Forall_forall in Hrs.
  assert (∀ r, r ∈ rs → rec_key r ≠ []) as Hne.
  { intros r Hr Hn. pose proof (rw_key _ _ _ (Hrs r Hr)) as Hl. rewrite Hn in Hl.
    change (len (@nil Z)) with 0 in Hl. lia. }
  split; apply Forall_forall; intros r Hr; specialize (tx_of_elem rs r) as Hin.
  - auto.
  - pose proof (Hrs r ltac:(auto)) as [Hl Ho _ _ _]. split_and!; [auto|lia|lia].
Qed.

(** ** Aborts *)

Lemma commit_abort_record_encode kl vl p r :
  record_wire kl vl r →
  commit_abort_record kl p (encode_record r) =
  match rec_optype r with
  | SandstormRead => '(_, p) ← add_to_payload_tail p (len (rec_key r)) (rec_key r); Ret p
  | _ => Ret p
  end.
Proof.
  intros Hr. unfold commit_abort_record. rewrite (split_record_encode _ _ _ Hr).
  cbn [mbind outcome_bind]. rewrite parse_optype_u8. by destruct (rec_optype r).
Qed.

Lemma abort_records_spec kl vl rs p room pre (h : CommitResponse) pl tail :
  pkt_rep p room pre h pl tail → Forall (record_wire kl vl) rs → 0 < kl →
  ∃ p' tail', ofold (commit_abort_record kl) p (encode_record <$> rs) = Ret p' ∧
    pkt_rep p' room pre h (foldl abort_add (pl, len tail) rs).1 tail' ∧
    len tail' = (foldl abort_add (pl, len tail) rs).2.
Proof.
  intros Hp Hrs Hkl. revert p pl tail Hp.
  induction Hrs as [|r rs Hr _ IH]; intros p pl tail Hp; [by exists p, tail|].
  cbn [fmap list_fmap ofold foldl].
  rewrite (commit_abort_record_encode _ _ _ _ Hr). unfold abort_add at 2 4.
  destruct (rec_optype r); [|by apply IH..].
  pose proof (rw_key _ _ _ Hr) as Hl.
  destruct (rep_try_add _ _ _ _ _ _ (rec_key r) Hp) as (p1 & t1 & -> & Hp1 & Ht1).
  { intros Hn. rewrite Hn in Hl. change (len (@nil Z)) with 0 in Hl. lia. }
  { apply Hr. }
  cbn [mbind outcome_bind]. destruct (IH _ _ _ Hp1) as (p' & t' & He & Hp' & Ht').
  rewrite Ht1, <- surjective_pairing in *. by exists p', t'.
Qed.

(** ** The task *)

Section commit.
Context `{BytesCrateLaws}.
Context (s s' : Store) (hdr : CommitRequest) (rs : list RwRecord) (tn : Tenant) (l : loc)
  (t : Table) (clock : Z).
Abbreviation tenant := (req_tenant (commit_common hdr)).
Abbreviation table := (commit_table_id hdr).
Abbreviation payload := (concat (encode_record <$> rs)).
Context (Hs : store_wf s) (Hs' : store_wf s') (Hh : packed_ok hdr)
  (Hsame : tenant_of s' tenant = tenant_of s tenant)
  (Htn : tenant_of s' tenant = Some tn) (Hl : get_table tn table = Some l)
  (Ht : heap s' !! l = Some t)
  (Hrs : Forall (record_wire (commit_key_length hdr) (commit_value_length hdr)) rs)
  (Hkl : 0 < commit_key_length hdr).

Lemma commit_header_widths :
  in_width 16 (commit_key_length hdr) ∧ in_width 16 (commit_value_length hdr).
Proof.
  unfold packed_ok in Hh. cbn in Hh. unfold req_layout, req_fields in Hh.
  by repeat match goal with H : Forall2 _ (_ :: _) _ |- _ => inversion_clear H end.
Qed.

Lemma commit_response_ok st : packed_ok (commit_response hdr st).
Proof.
  unfold packed_ok in *. cbn in *. unfold req_layout, req_fields, res_fields in *.
  repeat match goal with H : Forall2 _ (_ :: _) _ |- _ => inversion_clear H end.
  constructor; [apply status_u8_width|]. constructor; [unfold in_width; cbn; lia|].
  repeat (constructor; [assumption|]). constructor.
Qed.

Lemma commit_tx_ok : tx_ok (tx_of rs).
Proof.
  destruct commit_header_widths as [Hk Hv]. unfold in_width in *.
  by eapply tx_of_ok; [exact Hrs|lia..].
Qed.

(** A validated table stays well-formed. *)
Lemma commit_store_wf t' d :
  in_width 64 clock → validate t tenant table (tx_of rs) clock = (t', Ret d) →
  store_wf (with_table s' l t').
Proof.
  intros Hc Hval. eapply with_table_wf; eauto.
  destruct (sw_tables _ Hs' _ _ _ _ Htn Hl) as (t0 & Ht0 & Hok). simplify_eq.
  pose proof commit_tx_ok as Htx.
  destruct (validate_inv _ _ _ _ _ _ _ (proj1 Hok) Htx Hc Hval)
    as [(_ & -> & _)|(_ & _ & Hwf & _ & _ & Hv)]; [done|].
  split; [done|]. intros k e He. rewrite Hv in He.
  destruct (last _) as [r|] eqn:Hlast; [|by apply Hok].
  apply last_Some_elem_of, list_elem_of_filter in Hlast as [<- Hin].
  injection He as <-. exists (rec_object r).
  pose proof Hrs as Hrs'. rewrite Forall_forall in Hrs'.
  destruct (Hrs' r ltac:(apply tx_of_elem; auto)) as [? ? ? ? ?].
  destruct Htx as [_ Hw]. rewrite Forall_forall in Hw. destruct (Hw r Hin) as (_ & ? & _).
  cbn [entry_value]. by rewrite resolve_layout by done.
Qed.

Lemma commit_task_carries req res space rspace t' d :
  rs ≠ [] → carries req (encode hdr ++ payload) rspace → carries res [] space →
  size_of CommitResponse ≤ space →
  validate t tenant table (tx_of rs) clock = (t', Ret d) →
  let r := commit_data d rs (space - size_of CommitResponse) in
  ∃ g req' res', commit s req res = Ret (Ok g) ∧
    run_gen s' g clock = (with_table s' l t', Ret (req', res')) ∧
    carries req' (encode hdr ++ payload) rspace ∧
    carries res' (encode (commit_response hdr (decision_status d)) ++ r.1) r.2.
Proof.
  intros Hne Hreq Hres Hsp Hval.
  destruct (carries_parse req hdr _ _ Hreq Hh) as (p & rm & pre & u & tl & Hparse & Hp & Hu & Htl).
  destruct (carries_push res _ _ Hres (commit_response_ok StatusOk) Hsp)
    as (q & rm' & pre' & u' & tl' & Hpush & Hq & Hu' & Htl').
  rewrite <- Htl'. intros r. unfold commit. rewrite Hparse. cbn [mbind outcome_bind].
  rewrite (rep_get_header _ _ _ _ _ _ Hp). cbn [mbind outcome_bind].
  change (CommitResponse_new _ SandstormCommitRpc _) with (commit_response hdr StatusOk).
  rewrite Hpush. cbn [expect mbind outcome_bind].
  rewrite get_tenant_of by apply Hs. cbn [mbind outcome_bind]. rewrite <- Hsame, Htn.
  assert (∃ q1 tl1, match d with
      | COMMIT => Ret (q, StatusOk)
      | ABORT => res ← ofold (commit_abort_record (commit_key_length hdr)) q (encode_record <$> rs);
                 Ret (res, StatusTxAbort) end = Ret (q1, decision_status d) ∧
    pkt_rep q1 rm' (pre' ++ encode u') (commit_response hdr StatusOk) r.1 tl1 ∧ len tl1 = r.2)
    as (q1 & tl1 & Hd & Hq1 & Htl1).
  { subst r. destruct d; [by exists q, tl'|].
    destruct (abort_records_spec _ _ _ _ _ _ _ _ _ Hq Hrs Hkl) as (q1 & t1 & -> & Hq1 & Ht1).
    by exists q1, t1. }
  destruct (rep_set_status _ _ _ _ _ _ (decision_status d) Hq1) as (q2 & Hst & Hq2).
  eexists (GenCommit _ _ _ _ _ _ _), _, _. split; [done|].
  unfold run_gen, commit_gen, commit_body. rewrite Hl. unfold table_at. rewrite Ht.
  cbn [unchecked mbind outcome_bind]. rewrite (rep_get_payload _ _ _ _ _ _ Hp).
  cbn [mbind outcome_bind].
  set (n := 1 + 8 + commit_key_length hdr + commit_value_length hdr).
  destruct commit_header_widths as [Hkw Hvw]. unfold in_width in Hkw, Hvw.
  assert (Forall (λ c, len c = n) (encode_record <$> rs)) as Hlen.
  { apply Forall_fmap. eapply Forall_impl; [exact Hrs|]. intros. by apply encode_record_len. }
  rewrite decide_False.
  2:{ rewrite (len_concat _ n) by done. rewrite length_fmap. destruct rs; [done|cbn [length]; nia]. }
  rewrite <- (app_nil_r payload).
  destruct (chunks_concat (encode_record <$> rs) [] n) as (more & -> & Hmore); [lia|done|].
  assert (more = []) as ->.
  { unfold chunks in Hmore. rewrite decide_True in Hmore by lia. cbn in Hmore. congruence. }
  rewrite !app_nil_r. cbn [mbind outcome_bind].
  rewrite (commit_records_encode _ _ _ _ Hrs). cbn [mbind outcome_bind]. fold (tx_of rs).
  cbn beta iota zeta. rewrite Hval. cbn [mbind outcome_bind].
  rewrite Hd. cbn [mbind outcome_bind]. rewrite Hst. cbn [mbind outcome_bind].
  split; [done|]. split.
  - rewrite <- Htl. by eapply carries_udp.
  - rewrite <- Htl1. by eapply carries_udp.
Qed.
End commit.

(** ** Trailing bytes *)

Lemma split_at_short {A} (l : list A) n : len l < n → split_at l n = Panic.
Proof. intros. unfold split_at. by rewrite decide_False by lia. Qed.

Lemma split_at_long {A} (l : list A) n :
  0 ≤ n ≤ len l → ∃ l1 l2, split_at l n = Ret (l1, l2) ∧ len l2 = len l - n.
Proof.
  intros. unfold split_at. rewrite decide_True by done. eexists _, _. split; [done|].
  unfold len in *. rewrite length_drop. lia.
Qed.

Lemma split_record_short kl extra :
  0 ≤ kl → len extra < 9 + kl → split_record kl extra = Panic.
Proof.
  intros Hk Hl. unfold split_record.
  destruct (decide (len extra < 1)); [by rewrite split_at_short by lia|].
  destruct (split_at_long extra 1) as (? & l1 & -> & Hl1); [lia|]. cbn [mbind outcome_bind].
  destruct (decide (len l1 < 8)); [by rewrite split_at_short by lia|].
  destruct (split_at_long l1 8) as (? & l2 & -> & Hl2); [lia|]. cbn [mbind outcome_bind].
  by rewrite split_at_short by lia.
Qed.

Lemma chunks_short {A} (l : list A) n :
  0 < len l ≤ n → chunks l n = Ret [l].
Proof.
  intros Hl. unfold chunks. rewrite decide_True by lia. unfold len in Hl.
  destruct l as [|x l]; [simpl in *; lia|]. cbn [length chunks_fuel].
  rewrite take_ge, drop_ge by lia. by destruct (length l).
Qed.

(** ** Properties *)

(** C7: the commit RPC validates exactly the transaction that was sent.  For a
    request of encoded read and write records, [commit] returns a task; when
    it runs, the table it finds ends up as [validate] leaves it for the decoded
    transaction and the clock reading, the store is well-formed again, the
    request is unchanged, and the response says [StatusOk] on a commit, or
    [StatusTxAbort] with the keys of the read set that fit on an abort.  The
    decision is to commit exactly when every read version is current. *)
Theorem commit_task_answers `{BytesCrateLaws} s s' hdr rs tn l t clock req res space rspace t' d :
  store_wf s → store_wf s' → packed_ok hdr →
  tenant_of s' (req_tenant (commit_common hdr)) = tenant_of s (req_tenant (commit_common hdr)) →
  tenant_of s' (req_tenant (commit_common hdr)) = Some tn →
  get_table tn (commit_table_id hdr) = Some l → heap s' !! l = Some t →
  Forall (record_wire (commit_key_length hdr) (commit_value_length hdr)) rs →
  0 < commit_key_length hdr → in_width 64 clock → rs ≠ [] →
  carries req (encode hdr ++ concat (encode_record <$> rs)) rspace → carries res [] space →
  size_of CommitResponse ≤ space →
  validate t (req_tenant (commit_common hdr)) (commit_table_id hdr) (tx_of rs) clock = (t', Ret d) →
  let r := commit_data d rs (space - size_of CommitResponse) in
  (d = COMMIT ↔ reads_current t (reads (tx_of rs))) ∧
  store_wf (with_table s' l t') ∧
  ∃ g req' res', commit s req res = Ret (Ok g) ∧
    run_gen s' g clock = (with_table s' l t', Ret (req', res')) ∧
    carries req' (encode hdr ++ concat (encode_record <$> rs)) rspace ∧
    carries res' (encode (commit_response hdr (decision_status d)) ++ r.1) r.2.
Proof.
  intros Hs Hs' Hh Hsame Htn Hl Ht Hrs Hkl Hc Hne Hreq Hres Hsp Hval r.
  destruct (sw_tables _ Hs' _ _ _ _ Htn Hl) as (t0 & Ht0 & Hok). simplify_eq.
  split_and!.
  - destruct (validate_inv _ _ _ _ _ _ _ (proj1 Hok) (commit_tx_ok hdr rs Hh Hrs Hkl) Hc Hval)
      as [(-> & _ & ?)|(-> & ? & _)]; by split.
  - by eapply (commit_store_wf s' hdr rs tn).
  - by eapply (commit_task_carries s s' hdr rs tn l).
Qed.

(** A read of the stored object and an overwrite of it. *)
Definition ex_records : list RwRecord :=
  [mkRwRecord SandstormRead 1 [1; 2; 3] [42; 43];
   mkRwRecord SandstormWrite 0 [1; 2; 3] [60; 61]].

Definition ex_commit : CommitRequest := CommitRequest_new 7 96 3 3 2.

Definition ex_commit_request : ClientRequest :=
  CCommit 7 3 (concat (encode_record <$> ex_records)) 96 3 2.

Definition ex_tenant : Tenant := (create_table Store_new (Tenant_new 7) 3).2.

Lemma ex_commit_ok : cr_ok ex_commit_request.
Proof.
  split; [discriminate|]. split; [apply (bool_decide_eq_true_1 _); by vm_compute|].
  split_and!; try (unfold in_width; lia). vm_compute. discriminate.
Qed.

Lemma ex_records_wire : Forall (record_wire 3 2) ex_records.
Proof.
  repeat constructor; try done; cbn; unfold in_width; lia.
Qed.

Lemma commit_task_answers_witness :
  ∃ rspace, let t' := (@validate exact_bytes ex_tbl 7 3 (tx_of ex_records) 500).1 in
  let r := commit_data COMMIT ex_records (158 - size_of CommitResponse) in
  (COMMIT = COMMIT ↔ reads_current ex_tbl (reads (tx_of ex_records))) ∧
  store_wf (with_table ex_store 0%nat t') ∧
  ∃ g req' res', commit ex_store (ex_req ex_commit_request) ex_res = Ret (Ok g) ∧
    @run_gen exact_bytes ex_store g 500 = (with_table ex_store 0%nat t', Ret (req', res')) ∧
    carries req' (encode ex_commit ++ concat (encode_record <$> ex_records)) rspace ∧
    carries res' (encode (commit_response ex_commit (decision_status COMMIT)) ++ r.1) r.2.
Proof.
  destruct (ex_req_carries ex_commit_request) as [rspace Hreq]; [apply ex_commit_ok|by vm_compute|].
  exists rspace.
  apply (@commit_task_answers exact_bytes _ ex_store ex_store ex_commit ex_records ex_tenant 0%nat
    ex_tbl 500 (ex_req ex_commit_request) ex_res 158 rspace _ COMMIT).
  - apply ex_store_wf.
  - apply ex_store_wf.
  - apply (bool_decide_eq_true_1 _). by vm_compute.
  - reflexivity.
  - by vm_compute.
  - by vm_compute.
  - by vm_compute.
  - apply ex_records_wire.
  - done.
  - unfold in_width. lia.
  - discriminate.
  - exact Hreq.
  - apply ex_res_carries.
  - by vm_compute.
  - by vm_compute.
Defined.

(** a commit whose payload is not a whole number of records crashes.  If the
    records are followed by bytes too few to hold a type, a version and a key,
    the request is accepted, and its task panics on the last chunk instead of
    answering [StatusMalformedRequest]; the store is as it was. *)
Theorem commit_trailing_bytes_panic `{BytesCrate} s s' hdr rs extra tn l t clock req res space rspace :
  store_wf s → store_wf s' → packed_ok hdr →
  tenant_of s' (req_tenant (commit_common hdr)) = tenant_of s (req_tenant (commit_common hdr)) →
  tenant_of s' (req_tenant (commit_common hdr)) = Some tn →
  get_table tn (commit_table_id hdr) = Some l → heap s' !! l = Some t →
  Forall (record_wire (commit_key_length hdr) (commit_value_length hdr)) rs → rs ≠ [] →
  0 < len extra < 9 + commit_key_length hdr →
  carries req (encode hdr ++ concat (encode_record <$> rs) ++ extra) rspace →
  carries res [] space → size_of CommitResponse ≤ space →
  ∃ g, commit s req res = Ret (Ok g) ∧ run_gen s' g clock = (s', Panic).
Proof.
  intros Hs Hs' Hh Hsame Htn Hl Ht Hrs Hne Hex Hreq Hres Hsp.
  destruct (carries_parse req hdr _ _ Hreq Hh) as (p & rm & pre & u & tl & Hparse & Hp & Hu & Htl).
  destruct (carries_push res _ _ Hres (commit_response_ok hdr Hh StatusOk) Hsp)
    as (q & rm' & pre' & u' & tl' & Hpush & Hq & Hu' & Htl').
  unfold commit. rewrite Hparse. cbn [mbind outcome_bind].
  rewrite (rep_get_header _ _ _ _ _ _ Hp). cbn [mbind outcome_bind].
  change (CommitResponse_new _ SandstormCommitRpc _) with (commit_response hdr StatusOk).
  rewrite Hpush. cbn [expect mbind outcome_bind].
  rewrite get_tenant_of by apply Hs. cbn [mbind outcome_bind]. rewrite <- Hsame, Htn.
  eexists (GenCommit _ _ _ _ _ _ _). split; [done|].
  unfold run_gen, commit_gen, commit_body. rewrite Hl. unfold table_at. rewrite Ht.
  cbn [unchecked mbind outcome_bind]. rewrite (rep_get_payload _ _ _ _ _ _ Hp).
  cbn [mbind outcome_bind].
  set (n := 1 + 8 + commit_key_length hdr + commit_value_length hdr).
  destruct (commit_header_widths hdr Hh) as [Hkw Hvw]. unfold in_width in Hkw, Hvw.
  assert (Forall (λ c, len c = n) (encode_record <$> rs)) as Hlen.
  { apply Forall_fmap. eapply Forall_impl; [exact Hrs|]. intros. by apply encode_record_len. }
  rewrite decide_False.
  2:{ rewrite len_app, (len_concat _ n) by done. rewrite length_fmap.
      destruct rs; [done|cbn [length]; nia]. }
  destruct (chunks_concat (encode_record <$> rs) extra n) as (more & -> & Hmore); [lia|done|].
  rewrite chunks_short in Hmore by lia. injection Hmore as <-.
  cbn [mbind outcome_bind]. rewrite ofold_app, (commit_records_encode _ _ _ _ Hrs).
  cbn [mbind outcome_bind ofold]. unfold commit_record at 1.
  by rewrite split_record_short by lia.
Qed.

Definition ex_trailing_request : ClientRequest :=
  CCommit 7 3 (concat (encode_record <$> ex_records) ++ [1; 2; 3; 4]) 96 3 2.

Lemma ex_trailing_ok : cr_ok ex_trailing_request.
Proof.
  split; [discriminate|]. split; [apply (bool_decide_eq_true_1 _); by vm_compute|].
  split_and!; try (unfold in_width; lia). vm_compute. discriminate.
Qed.

Lemma commit_trailing_bytes_panic_witness :
  ∃ g, commit ex_store (ex_req ex_trailing_request) ex_res = Ret (Ok g) ∧
    @run_gen exact_bytes ex_store g 500 = (ex_store, Panic).
Proof.
  destruct (ex_req_carries ex_trailing_request) as [rspace Hreq];
    [apply ex_trailing_ok|by vm_compute|].
  apply (@commit_trailing_bytes_panic exact_bytes ex_store ex_store ex_commit ex_records [1; 2; 3; 4]
    ex_tenant 0%nat ex_tbl 500 (ex_req ex_trailing_request) ex_res 158 rspace).
  - apply ex_store_wf.
  - apply ex_store_wf.
  - apply (bool_decide_eq_true_1 _). by vm_compute.
  - reflexivity.
  - by vm_compute.
  - by vm_compute.
  - by vm_compute.
  - apply ex_records_wire.
  - discriminate.
  - by vm_compute.
  - exact Hreq.
  - apply ex_res_carries.
  - by vm_compute.
Defined.
