(* ===== verification/Bufs.v ===== *)
(** * Bufs: the buffers an extension reads and writes

    Models sandstorm/src/buf.rs: [ReadBuf] and [MultiReadBuf] over immutable
    values, and [WriteBuf] over an allocation whose metadata and key are
    already written. *)

From S2P Require Import Prelude Alloc.

(** ** ReadBuf *)

Record ReadBuf := mkReadBuf { rb_inner : bytes }.

Definition rb_len (b : ReadBuf) : Z := len (rb_inner b).

Definition rb_is_empty (b : ReadBuf) : bool := bool_decide (rb_inner b = []).

Definition rb_read (b : ReadBuf) : bytes := rb_inner b.

(** ** WriteBuf *)

(** Big-endian image of an [n]-byte integer. *)
Definition be_bytes (n : nat) (v : Z) : bytes := rev (le_bytes n v).

Section writebuf.
Context `{BytesCrate}.

Record WriteBuf := mkWriteBuf {
  wb_table : Z;
  wb_inner : BytesMut;
  wb_meta_len : Z;
}.

Definition WriteBuf_new (table : Z) (buffer : BytesMut) : WriteBuf :=
  mkWriteBuf table buffer (len (bm_data buffer)).

Definition wb_len (b : WriteBuf) : Z := wsub 64 (len (bm_data (wb_inner b))) (wb_meta_len b).

Definition wb_capacity (b : WriteBuf) : Z := wsub 64 (bm_capacity (wb_inner b)) (wb_meta_len b).

Definition write_slice (b : WriteBuf) (data : bytes) : outcome WriteBuf :=
  inner ← put_slice (wb_inner b) data; Ret (mkWriteBuf (wb_table b) inner (wb_meta_len b)).

Definition write_u8 (b : WriteBuf) (data : Z) : outcome WriteBuf := write_slice b [data].

Definition write_u16 (b : WriteBuf) (data : Z) (le : bool) : outcome WriteBuf :=
  write_slice b (if le then le_bytes 2 data else be_bytes 2 data).

Definition write_u32 (b : WriteBuf) (data : Z) (le : bool) : outcome WriteBuf :=
  write_slice b (if le then le_bytes 4 data else be_bytes 4 data).

Definition write_u64 (b : WriteBuf) (data : Z) (le : bool) : outcome WriteBuf :=
  write_slice b (if le then le_bytes 8 data else be_bytes 8 data).

Definition wb_freeze (b : WriteBuf) : Z * bytes := (wb_table b, bm_data (wb_inner b)).
End writebuf.

(** ** MultiReadBuf *)

Record MultiReadBuf := mkMultiReadBuf {
  mrb_inner : list bytes;
  mrb_index : Z;
  mrb_panic : bool;
}.

Definition MultiReadBuf_new (l : list bytes) : MultiReadBuf := mkMultiReadBuf l 0 false.

Definition mrb_num (b : MultiReadBuf) : Z := len (mrb_inner b).

Definition mrb_read (b : MultiReadBuf) : outcome bytes :=
  if mrb_panic b then Panic else expect (mrb_inner b !! Z.to_nat (mrb_index b)).

Definition mrb_len (b : MultiReadBuf) : outcome Z :=
  if mrb_panic b then Panic else len <$> expect (mrb_inner b !! Z.to_nat (mrb_index b)).

(** [self.inner.len() - 1] wraps for an empty list. *)
Definition mrb_next (b : MultiReadBuf) : bool * MultiReadBuf :=
  let curr := mrb_index b in
  if decide (curr >= wsub 64 (len (mrb_inner b)) 1)
  then (false, mkMultiReadBuf (mrb_inner b) curr true)
  else (true, mkMultiReadBuf (mrb_inner b) (wadd 64 curr 1) (mrb_panic b)).

Definition mrb_prev (b : MultiReadBuf) : bool * MultiReadBuf :=
  let curr := mrb_index b in
  if decide (curr = 0)
  then (false, mkMultiReadBuf (mrb_inner b) curr true)
  else (true, mkMultiReadBuf (mrb_inner b) (curr - 1) (mrb_panic b)).

(** The loop extensions write: read, and go on while [next] says so. *)
Fixpoint mrb_drain (fuel : nat) (b : MultiReadBuf) : outcome (list bytes * MultiReadBuf) :=
  match fuel with
  | O => Ret ([], b)
  | S f =>
      v ← mrb_read b;
      let (more, b) := mrb_next b in
      if (more : bool) then '(vs, b) ← mrb_drain f b; Ret (v :: vs, b) else Ret ([v], b)
  end.

(** ** Lemmas *)

Lemma mrb_drain_from (pre l : list bytes) fuel :
  l ≠ [] → (length l ≤ fuel)%nat → len (pre ++ l) < 2 ^ 64 →
  mrb_drain fuel (mkMultiReadBuf (pre ++ l) (len pre) false) =
    Ret (l, mkMultiReadBuf (pre ++ l) (len (pre ++ l) - 1) true).
Proof.
  revert pre fuel. induction l as [|v l IH]; intros pre fuel Hne Hf Hlen; [done|].
  destruct fuel as [|fuel]; [cbn in Hf; lia|].
  assert (len (pre ++ v :: l) = len pre + 1 + len l) as Hl.
  { rewrite len_app. unfold len. cbn [length]. lia. }
  pose proof (len_nonneg pre). pose proof (len_nonneg l).
  cbn [mrb_drain]. unfold mrb_read. cbn [mrb_panic mrb_inner mrb_index].
  assert ((pre ++ v :: l) !! Z.to_nat (len pre) = Some v) as ->.
  { unfold len. rewrite Nat2Z.id. by apply list_lookup_middle. }
  cbn [expect mbind outcome_bind]. unfold mrb_next. cbn [mrb_inner mrb_index mrb_panic].
  rewrite wsub_id by (unfold in_width; lia).
  destruct l as [|v2 l].
  - change (len (@nil bytes)) with 0 in *. rewrite decide_True by lia.
    rewrite Hl. do 3 f_equal. lia.
  - assert (len (v2 :: l) = 1 + len l) as Hl2 by (unfold len; cbn [length]; lia).
    pose proof (len_nonneg l). rewrite decide_False by lia. rewrite wadd_id by (unfold in_width; lia).
    specialize (IH (pre ++ [v]) fuel). rewrite <- (assoc_L (++)) in IH. cbn [app] in IH.
    replace (len pre + 1) with (len (pre ++ [v])) by by rewrite len_app.
    rewrite IH; [done|done|cbn in *; lia|done].
Qed.

Lemma mrb_next_empty : mrb_next (MultiReadBuf_new []) = (true, mkMultiReadBuf [] 1 false).
Proof. done. Qed.

(** ** Properties *)

(** reading a [MultiReadBuf] with [read] and [next] visits every value once,
    in order, for any non-empty list; [next] then returns [false] and poisons
    the buffer, so that reading again (even after stepping back) panics. *)
Theorem multiread_visits_all l fuel :
  l ≠ [] → (length l ≤ fuel)%nat → len l < 2 ^ 64 →
  ∃ b, mrb_drain fuel (MultiReadBuf_new l) = Ret (l, b) ∧
    mrb_read b = Panic ∧ mrb_read (mrb_prev b).2 = Panic.
Proof.
  intros Hne Hf Hl. eexists. split; [by apply (mrb_drain_from [])|].
  split; [done|]. unfold mrb_prev. by case_decide.
Qed.

Lemma multiread_visits_all_witness :
  ∃ b, mrb_drain 3 (MultiReadBuf_new [[1]; [2; 3]; [4]]) = Ret ([[1]; [2; 3]; [4]], b) ∧
    mrb_read b = Panic ∧ mrb_read (mrb_prev b).2 = Panic.
Proof. apply (multiread_visits_all [[1]; [2; 3]; [4]] 3); [discriminate|cbn; lia|by vm_compute]. Defined.
