(* ===== verification/Context.v ===== *)
(** * Context: the database interface of an extension

    Models db/src/context.rs.  The methods of the [DB] trait take the store and
    the context explicitly; [start] and [stop] are the two [rdtsc] readings a
    method takes.  The ML model handle is left out: it is only passed through. *)

From S2P Require Import Prelude Packed Headers Packet Wire Rpc Alloc Tx Table Store Handlers.
From S2P Require Import Bufs.

(** ** Data *)

Definition MAX_ALLOC : Z := 10240.

Definition GET_CREDIT : Z := 0.

Definition PUT_CREDIT : Z := 0.

Definition MULTIGET_CREDIT : Z := 0.

Record Context := mkContext {
  request : Packet InvokeRequest;
  args_offset : Z;
  ctx_args_length : Z;
  response : Packet InvokeResponse;
  ctx_tenant : Tenant;
  allocs : Z;
  ctx_tx : TX;
  ctx_db_credit : Z;
}.

Definition Context_new (req : Packet InvokeRequest) (args_off args_len : Z)
    (res : Packet InvokeResponse) (tenant : Tenant) : Context :=
  mkContext req args_off args_len res tenant 0 TX_new 0.

Definition with_response (c : Context) (res : Packet InvokeResponse) : Context :=
  mkContext (request c) (args_offset c) (ctx_args_length c) res (ctx_tenant c) (allocs c)
    (ctx_tx c) (ctx_db_credit c).

Definition with_allocs (c : Context) (n : Z) : Context :=
  mkContext (request c) (args_offset c) (ctx_args_length c) (response c) (ctx_tenant c) n
    (ctx_tx c) (ctx_db_credit c).

Definition with_tx (c : Context) (tx : TX) : Context :=
  mkContext (request c) (args_offset c) (ctx_args_length c) (response c) (ctx_tenant c) (allocs c)
    tx (ctx_db_credit c).

(** [*self.db_credit.borrow_mut() += rdtsc() - start + credit] *)
Definition earn (c : Context) (start stop credit : Z) : Context :=
  mkContext (request c) (args_offset c) (ctx_args_length c) (response c) (ctx_tenant c) (allocs c)
    (ctx_tx c) (ctx_db_credit c +u64 (stop -u64 start +u64 credit)).

(** ** Reads *)

Definition ctx_get (s : Store) (c : Context) (table_id : Z) (key : bytes) (start stop : Z) :
    outcome (Context * option ReadBuf) :=
  match get_table (ctx_tenant c) table_id with
  | None => Ret (c, None)
  | Some l =>
      table ← table_at s l;
      o ← table_get table key;
      match o with
      | None => Ret (c, None)
      | Some entry =>
          opt ← resolve (entry_value entry);
          match opt with
          | Some (k, v) =>
              let tx := record_get (ctx_tx c)
                          (Record_new SandstormRead (entry_version entry) k v) in
              Ret (earn (with_tx c tx) start stop GET_CREDIT, Some (mkReadBuf v))
          | None => Ret (earn c start stop GET_CREDIT, None)
          end
      end
  end.

Fixpoint ctx_multiget_loop (table : Table) (key_len : Z) (c : Context) (objs : list bytes)
    (keys : list bytes) : outcome (Context * option (list bytes)) :=
  match keys with
  | [] => Ret (c, Some objs)
  | key :: keys' =>
      if decide (len key ≠ key_len) then Ret (c, Some objs)
      else
        o ← table_get table key;
        match o with
        | None => Ret (c, None)
        | Some entry =>
            opt ← resolve (entry_value entry);
            match opt with
            | None => Ret (c, None)
            | Some (k, v) =>
                let tx := record_get (ctx_tx c)
                            (Record_new SandstormRead (entry_version entry) k v) in
                ctx_multiget_loop table key_len (with_tx c tx) (objs ++ [v]) keys'
            end
        end
  end.

Definition ctx_multiget (s : Store) (c : Context) (table_id key_len : Z) (keys : bytes)
    (start stop : Z) : outcome (Context * option MultiReadBuf) :=
  match get_table (ctx_tenant c) table_id with
  | None => Ret (earn c start stop MULTIGET_CREDIT, None)
  | Some l =>
      table ← table_at s l;
      chs ← chunks keys key_len;
      '(c, r) ← ctx_multiget_loop table key_len c [] chs;
      Ret (earn c start stop MULTIGET_CREDIT, option_map MultiReadBuf_new r)
  end.

(** ** Writes *)

Section writes.
Context `{BytesCrate}.

Definition ctx_alloc (c : Context) (table_id : Z) (key : bytes) (val_len : Z) :
    outcome (Context * option WriteBuf) :=
  if decide (allocs c >= MAX_ALLOC) then Ret (c, None)
  else
    match get_table (ctx_tenant c) table_id with
    | None => Ret (c, None)
    | Some _ =>
        buf ← raw (tenant_id (ctx_tenant c)) table_id key val_len;
        Ret (with_allocs c (allocs c +u64 len (bm_data buf)), Some (WriteBuf_new table_id buf))
    end.

Definition ctx_put (c : Context) (buf : WriteBuf) (start stop : Z) : outcome (Context * bool) :=
  let (table_id, buf) := wb_freeze buf in
  match get_table (ctx_tenant c) table_id with
  | Some _ =>
      opt ← resolve buf;
      match opt with
      | None => Ret (c, false)
      | Some (k, v) =>
          let tx := record_put (ctx_tx c) (Record_new SandstormWrite table_version k v) in
          Ret (earn (with_tx c tx) start stop PUT_CREDIT, true)
      end
  | None => Ret (earn c start stop PUT_CREDIT, false)
  end.

Definition ctx_del (s : Store) (c : Context) (table_id : Z) (key : bytes) : outcome Store :=
  match get_table (ctx_tenant c) table_id with
  | None => Ret s
  | Some l =>
      table ← table_at s l; table ← table_delete table key; Ret (with_table s l table)
  end.

(** ** Arguments and response *)

Definition ctx_args (c : Context) : outcome bytes :=
  pl ← get_payload (request c);
  '(_, rest) ← split_at pl (args_offset c);
  '(args, _) ← split_at rest (ctx_args_length c);
  Ret args.

Definition ctx_resp (c : Context) (data : bytes) : outcome Context :=
  res ← (add_to_payload_tail (response c) (len data) data ≫= expect_ok);
  Ret (with_response c res).

Definition db_credit (c : Context) : Z := ctx_db_credit c.

(** ** The end of an extension *)

(** [table_id |= ( *e as u64) << (idx << 3)], over the first eight bytes. *)
Fixpoint or_bytes (acc : Z) (idx : Z) (bs : bytes) : Z :=
  match bs with
  | [] => acc
  | e :: bs' => or_bytes (Z.lor acc (Z.shiftl e (Z.shiftl idx 3))) (idx + 1) bs'
  end.

(** On an abort the request's payload replaces the response's; the store keeps
    what a panicking validation installed. *)
Definition ctx_commit (s : Store) (c : Context) (rdtsc : Z) :
    Store * outcome (Packet InvokeRequest * Packet InvokeResponse) :=
  let r :=
    args ← ctx_args c;
    '(table, _) ← split_at args 8;
    let table_id := or_bytes 0 0 table in
    match get_table (ctx_tenant c) table_id with
    | None => Ret None
    | Some l => table ← table_at s l; Ret (Some (l, table, table_id))
    end in
  match r with
  | Ret None => (s, Ret (request c, response c))
  | Ret (Some (l, table, table_id)) =>
      let (table, d) := validate table (tenant_id (ctx_tenant c)) table_id (ctx_tx c) rdtsc in
      (with_table s l table,
       d ← d;
       match d with
       | COMMIT => Ret (request c, response c)
       | ABORT =>
           pl ← get_payload (response c);
           '(_, res) ← remove_from_payload_tail (response c) (len pl);
           rpl ← get_payload (request c);
           '(_, res) ← add_to_payload_tail res (len rpl) rpl;
           res ← set_status res StatusTxAbort;
           Ret (request c, res)
       end)
  | Panic => (s, Panic)
  | Undef => (s, Undef)
  end.

Definition pushback_record (res : Packet InvokeResponse) (r : RwRecord) :
    outcome (Packet InvokeResponse) :=
  let optype := [OpType_u8 (rec_optype r)] in
  res ← (add_to_payload_tail res (len optype) optype ≫= expect_ok);
  let version := le_bytes 8 (rec_version r) in
  res ← (add_to_payload_tail res (len version) version ≫= expect_ok);
  res ← (add_to_payload_tail res (len (rec_key r)) (rec_key r) ≫= expect_ok);
  add_to_payload_tail res (len (rec_object r)) (rec_object r) ≫= expect_ok.

Definition prepare_for_pushback (c : Context) :
    outcome (Packet InvokeRequest * Packet InvokeResponse) :=
  res ← set_status (response c) StatusPushback;
  pl ← get_payload res;
  '(_, res) ← remove_from_payload_tail res (len pl);
  res ← ofold pushback_record res (reads (ctx_tx c));
  res ← ofold pushback_record res (writes (ctx_tx c));
  Ret (request c, res).
End writes.
