(* ===== verification/ContextSpecs.v ===== *)
(** * ContextSpecs: what an extension's context guarantees

    Reads are recorded with the version they saw, writes are buffered until the
    commit, the commit is [validate] of the recorded sets, and a pushback ships
    the sets to the client in the format the commit RPC reads back. *)

From S2P Require Import Prelude Bits Packed Headers Packet Wire Rpc Alloc Tx Table Store.
From S2P Require Import Handlers HandlerSpecs CommitSpecs Bufs Context.

(** ** The table identifier of a commit *)

Lemma or_bytes_val acc idx bs :
  is_bytes bs → in_width (8 * idx) acc → 0 ≤ idx →
  or_bytes acc idx bs = acc + 2 ^ (8 * idx) * le_val bs.
Proof.
  intros Hb. revert acc idx. induction Hb as [|b bs Hb _ IH]; intros acc idx Ha Hi.
  { cbn. lia. }
  cbn [or_bytes le_val].
  assert (Z.shiftl idx 3 = 8 * idx) as -> by (rewrite Z.shiftl_mul_pow2 by lia; lia).
  rewrite lor_shifted by (done || lia).
  unfold in_width in *. change (2 ^ 8) with 256 in *.
  assert (2 ^ (8 * (idx + 1)) = 2 ^ (8 * idx) * 256) as Hp.
  { replace (8 * (idx + 1)) with (8 * idx + 8) by lia. rewrite Z.pow_add_r by lia. lia. }
  rewrite IH; [rewrite Hp; lia| |lia]. rewrite Hp.
  pose proof (Z.pow_pos_nonneg 2 (8 * idx)). nia.
Qed.

Lemma or_bytes_le bs : is_bytes bs → or_bytes 0 0 bs = le_val bs.
Proof.
  intros Hb. rewrite or_bytes_val by (done || unfold in_width; lia).
  change (2 ^ (8 * 0)) with 1. lia.
Qed.

(** ** Contexts whose packets are in a known state *)

(** The request's arguments lie inside its payload, and the response carries
    [out] with [space] bytes to spare. *)
Record ctx_rep (c : Context) (ihdr : InvokeRequest) (name args extra : bytes)
    (rhdr : InvokeResponse) (out : bytes) (space : Z) : Prop := {
  cr_request : ∃ room pre tail, pkt_rep (request c) room pre ihdr (name ++ args ++ extra) tail;
  cr_offset : args_offset c = len name;
  cr_length : ctx_args_length c = len args;
  cr_response : ∃ room pre tail, pkt_rep (response c) room pre rhdr out tail ∧ len tail = space;
}.

Lemma ctx_args_spec c ihdr name args extra rhdr out space :
  ctx_rep c ihdr name args extra rhdr out space → ctx_args c = Ret args.
Proof.
  intros [(rm & pre & tl & Hp) Ho Hl _]. unfold ctx_args.
  rewrite (rep_get_payload _ _ _ _ _ _ Hp), Ho, Hl. cbn [mbind outcome_bind].
  rewrite split_at_app by done. cbn [mbind outcome_bind].
  by rewrite split_at_app by done.
Qed.

(** ** Commit *)

Definition abort_response (h : InvokeResponse) : InvokeResponse := status_header StatusTxAbort h.

Section commit.
Context `{BytesCrateLaws}.
Context (s : Store) (c : Context) (ihdr : InvokeRequest) (name tbl more extra : bytes)
  (rhdr : InvokeResponse) (out : bytes) (space clock : Z) (l : loc) (t t' : Table) (d : TxDecision).
Abbreviation payload := (name ++ (tbl ++ more) ++ extra).
Context (Hc : ctx_rep c ihdr name (tbl ++ more) extra rhdr out space)
  (Htbl : len tbl = 8) (Hl : get_table (ctx_tenant c) (le_val tbl) = Some l)
  (Ht : heap s !! l = Some t)
  (Hval : validate t (tenant_id (ctx_tenant c)) (le_val tbl) (ctx_tx c) clock = (t', Ret d)).

Lemma ctx_commit_carries :
  payload ≠ [] →
  let r := match d with
           | COMMIT => (rhdr, (out, space))
           | ABORT => (abort_response rhdr, (try_add ([], len out + space) payload).2)
           end in
  ∃ req res, ctx_commit s c clock = (with_table s l t', Ret (req, res)) ∧ req = request c ∧
    ∃ room pre tail, pkt_rep res room pre r.1 r.2.1 tail ∧ len tail = r.2.2.
Proof.
  intros Hne r. pose proof Hc as [(rm & pre & tl & Hp) _ _ (rm' & pre' & tl' & Hq & Htl)].
  destruct (rep_payload_bytes _ _ _ _ _ _ Hp) as [Hpb _].
  assert (is_bytes tbl) as Htb by (rewrite !is_bytes_app in Hpb; tauto).
  unfold ctx_commit. rewrite (ctx_args_spec _ _ _ _ _ _ _ _ Hc). cbn [mbind outcome_bind].
  rewrite split_at_app by done. cbn [mbind outcome_bind].
  rewrite or_bytes_le by done. rewrite Hl. unfold table_at. rewrite Ht.
  cbn [unchecked mbind outcome_bind]. rewrite Hval. cbn [mbind outcome_bind].
  destruct d.
  { eexists _, _. split; [done|]. split; [done|]. by exists rm', pre', tl'. }
  rewrite (rep_get_payload _ _ _ _ _ _ Hq). cbn [mbind outcome_bind].
  destruct (rep_clear_payload _ _ _ _ _ _ Hq) as (q1 & -> & Hq1). cbn [mbind outcome_bind].
  rewrite (rep_get_payload _ _ _ _ _ _ Hp). cbn [mbind outcome_bind].
  destruct (rep_try_add _ _ _ _ _ _ payload Hq1 Hne Hpb) as (q2 & t2 & -> & Hq2 & Ht2).
  rewrite len_app, Htl in *. cbn [mbind outcome_bind].
  destruct (rep_set_status _ _ _ _ _ _ StatusTxAbort Hq2) as (q3 & -> & Hq3).
  cbn [mbind outcome_bind]. eexists _, _. split; [done|]. split; [done|].
  by exists rm', pre', t2.
Qed.
End commit.

(** ** Pushback *)

Lemma add_fits {R} `{EndOffset R} `{!PackedLaws R} (p : Packet R) room pre h pl tail data :
  pkt_rep p room pre h pl tail → data ≠ [] → is_bytes data → len data ≤ len tail →
  ∃ p' tail', (add_to_payload_tail p (len data) data ≫= expect_ok) = Ret p' ∧
    pkt_rep p' room pre h (pl ++ data) tail' ∧ len tail' = len tail - len data.
Proof.
  intros Hp Hne Hd Hl.
  destruct (rep_add_tail p room pre h pl data _ Hne Hd tail Hp eq_refl Hl) as (p' & -> & Hp').
  eexists p', _. split; [done|]. split; [done|]. unfold len in *. rewrite length_drop. lia.
Qed.

Definition pushable (r : RwRecord) : Prop :=
  rec_key r ≠ [] ∧ rec_object r ≠ [] ∧ is_bytes (rec_key r) ∧ is_bytes (rec_object r).

Lemma pushback_record_spec p room pre (h : InvokeResponse) pl tail r :
  pkt_rep p room pre h pl tail → pushable r → len (encode_record r) ≤ len tail →
  ∃ p' tail', pushback_record p r = Ret p' ∧
    pkt_rep p' room pre h (pl ++ encode_record r) tail' ∧
    len tail' = len tail - len (encode_record r).
Proof.
  intros Hp (Hk & Ho & Hkb & Hob) Hl.
  assert (encode_record r = [OpType_u8 (rec_optype r)] ++ le_bytes 8 (rec_version r) ++
    rec_key r ++ rec_object r) as He by done.
  rewrite He in *. rewrite !len_app in *. unfold pushback_record.
  pose proof (len_nonneg (rec_key r)). pose proof (len_nonneg (rec_object r)).
  pose proof (len_nonneg (le_bytes 8 (rec_version r))).
  destruct (add_fits _ _ _ _ _ _ [OpType_u8 (rec_optype r)] Hp) as (p1 & t1 & -> & Hp1 & Ht1);
    [done| |lia|].
  { constructor; [|constructor]. unfold in_width. destruct (rec_optype r); cbn; lia. }
  cbn [mbind outcome_bind].
  destruct (add_fits _ _ _ _ _ _ (le_bytes 8 (rec_version r)) Hp1) as (p2 & t2 & -> & Hp2 & Ht2);
    [done|apply le_bytes_is_bytes|lia|]. cbn [mbind outcome_bind].
  destruct (add_fits _ _ _ _ _ _ (rec_key r) Hp2) as (p3 & t3 & -> & Hp3 & Ht3); [done..|lia|].
  cbn [mbind outcome_bind].
  destruct (add_fits _ _ _ _ _ _ (rec_object r) Hp3) as (p4 & t4 & -> & Hp4 & Ht4); [done..|lia|].
  exists p4, t4. rewrite <- !(assoc_L (++)) in Hp4. split; [done|]. split; [done|]. lia.
Qed.

Lemma pushback_records_spec rs p room pre (h : InvokeResponse) pl tail :
  pkt_rep p room pre h pl tail → Forall pushable rs →
  len (concat (encode_record <$> rs)) ≤ len tail →
  ∃ p' tail', ofold pushback_record p rs = Ret p' ∧
    pkt_rep p' room pre h (pl ++ concat (encode_record <$> rs)) tail' ∧
    len tail' = len tail - len (concat (encode_record <$> rs)).
Proof.
  intros Hp Hrs. revert p pl tail Hp.
  induction Hrs as [|r rs Hr _ IH]; intros p pl tail Hp Hl.
  { exists p, tail. cbn [fmap list_fmap concat]. rewrite app_nil_r.
    change (len (@nil Z)) with 0. split_and!; [done..|lia]. }
  cbn [fmap list_fmap concat ofold] in *. rewrite len_app in *.
  pose proof (len_nonneg (concat (encode_record <$> rs))).
  destruct (pushback_record_spec _ _ _ _ _ _ _ Hp Hr) as (p1 & t1 & -> & Hp1 & Ht1);
    [unfold fmap in *; lia|].
  cbn [mbind outcome_bind]. destruct (IH _ _ _ Hp1) as (p2 & t2 & -> & Hp2 & Ht2).
  { unfold fmap in *. lia. }
  exists p2, t2. rewrite <- (assoc_L (++)) in Hp2. split; [done|]. split; [done|].
  unfold fmap in *. lia.
Qed.

(** ** Allocation *)

Section alloc.
Context `{BytesCrateLaws}.

Lemma raw_spec tenant table key val_len :
  len key < 2 ^ 16 → 0 ≤ val_len < 2 ^ 63 →
  ∃ b, raw tenant table key val_len = Ret b ∧
    bm_data b = obj_meta tenant table (len key) ++ key ∧
    meta_size + len key + val_len ≤ bm_capacity b.
Proof.
  intros Hk Hv. pose proof (len_nonneg key). unfold raw.
  rewrite wrap_id by (unfold in_width; lia).
  destruct (alloc_spec tenant table (len key) val_len) as (b & -> & Hd & Hc);
    [done|lia|rewrite meta_size_eq; lia|].
  cbn [mbind outcome_bind].
  destruct (put_slice_fits b key) as (b1 & -> & Hd1 & Hc1).
  { rewrite Hd, obj_meta_len. lia. }
  exists b1. rewrite Hd1, Hd, Hc1. split_and!; [done..|lia].
Qed.

Lemma ctx_alloc_spec c table key val_len l :
  allocs c < MAX_ALLOC → get_table (ctx_tenant c) table = Some l →
  len key < 2 ^ 16 → 0 ≤ val_len < 2 ^ 63 → 0 ≤ allocs c →
  ∃ wb, ctx_alloc c table key val_len =
      Ret (with_allocs c (allocs c + (14 + len key)), Some wb) ∧
    wb_table wb = table ∧
    bm_data (wb_inner wb) = obj_meta (tenant_id (ctx_tenant c)) table (len key) ++ key ∧
    14 + len key + val_len ≤ bm_capacity (wb_inner wb).
Proof.
  intros Ha Hl Hk Hv Hpos. unfold ctx_alloc. rewrite decide_False by lia. rewrite Hl.
  destruct (raw_spec (tenant_id (ctx_tenant c)) table key val_len Hk Hv) as (b & -> & Hd & Hc).
  cbn [mbind outcome_bind]. pose proof (len_nonneg key). unfold MAX_ALLOC in Ha.
  rewrite Hd, len_app, obj_meta_len, meta_size_eq in *.
  rewrite wadd_id by (unfold in_width; lia). by eexists.
Qed.
End alloc.

(** An extension that may still allocate. *)
Definition below_quota (c : Context) : Prop := 0 ≤ allocs c < MAX_ALLOC.

(** Only the transaction grew, by one write. *)
Record wrote (c c' : Context) (key val : bytes) : Prop := {
  wrote_tx : ctx_tx c' = record_put (ctx_tx c) (mkRwRecord SandstormWrite 0 key val);
  wrote_request : request c' = request c;
  wrote_response : response c' = response c;
  wrote_tenant : ctx_tenant c' = ctx_tenant c;
}.

(** The records of a transaction as they travel: reads, then writes. *)
Definition shipped (tx : TX) : bytes := concat (encode_record <$> (reads tx ++ writes tx)).

(** ** Properties *)

(** the quota on an extension's allocations does not count values.  Below
    the quota, an extension gets a buffer with room for a value of any size,
    while its count grows only by the fourteen bytes of metadata and the key. *)
Theorem alloc_quota_ignores_values `{BytesCrateLaws} c table key val_len l :
  below_quota c → get_table (ctx_tenant c) table = Some l →
  len key < 2 ^ 16 → 0 ≤ val_len < 2 ^ 63 →
  ∃ c' wb, ctx_alloc c table key val_len = Ret (c', Some wb) ∧
    allocs c' = allocs c + 14 + len key ∧
    val_len ≤ bm_capacity (wb_inner wb) - len (bm_data (wb_inner wb)).
Proof.
  intros [Ha Ha'] Hl Hk Hv. destruct (ctx_alloc_spec c table key val_len l) as (wb & He & _ & Hd & Hc);
    [lia|done|done|done|lia|].
  eexists _, wb. split; [done|]. cbn [with_allocs allocs].
  rewrite Hd, len_app, obj_meta_len, meta_size_eq. lia.
Qed.

Definition ex_ctx : Context :=
  Context_new (ret_or (create_packet ex_mbuf 0 0)
                 (parse_header InvokeRequest (ex_req (CInvoke 7 1 (116 :: le_bytes 8 3) 95))))
    1 8
    (ret_or (create_packet ex_mbuf 0 0)
       (push_header ex_res (InvokeResponse_new 95 SandstormInvokeRpc 7) ≫= expect))
    ex_tenant.

Lemma alloc_quota_ignores_values_witness :
  ∃ c' wb, @ctx_alloc exact_bytes ex_ctx 3 [1; 2; 3] 1000000000 = Ret (c', Some wb) ∧
    allocs c' = allocs ex_ctx + 14 + len [1; 2; 3] ∧
    1000000000 ≤ @bm_capacity exact_bytes (@wb_inner exact_bytes wb) -
                 len (@bm_data exact_bytes (@wb_inner exact_bytes wb)).
Proof.
  apply (@alloc_quota_ignores_values exact_bytes _ ex_ctx 3 [1; 2; 3] 1000000000 0%nat).
  - unfold below_quota. change (allocs ex_ctx) with 0. unfold MAX_ALLOC. lia.
  - by vm_compute.
  - by vm_compute.
  - lia.
Defined.

(** what an extension writes is what its transaction records.  Allocating an
    object, filling it with a value of the reserved size and passing it to
    [put] succeeds and appends exactly one write record, with the key that was
    allocated, the value that was written and version 0, leaving the read set,
    the packets and the store alone. *)
Theorem alloc_write_put_records `{BytesCrateLaws} c table key val start stop l :
  below_quota c → get_table (ctx_tenant c) table = Some l →
  len key < 2 ^ 16 → len val < 2 ^ 63 →
  ∃ c1 wb wb', ctx_alloc c table key (len val) = Ret (c1, Some wb) ∧
    write_slice wb val = Ret wb' ∧
    ∃ c2, ctx_put c1 wb' start stop = Ret (c2, true) ∧
      wrote c c2 key val.
Proof.
  intros [Ha Ha'] Hl Hk Hv. pose proof (len_nonneg val).
  destruct (ctx_alloc_spec c table key (len val) l) as (wb & He & Htb & Hd & Hc);
    [lia|done|done|lia|lia|].
  destruct (put_slice_fits (wb_inner wb) val) as (inner & Hp & Hdi & _).
  { rewrite Hd, len_app, obj_meta_len, meta_size_eq. lia. }
  eexists _, wb, _. split; [done|]. unfold write_slice. rewrite Hp.
  cbn [mbind outcome_bind]. split; [done|]. unfold ctx_put, wb_freeze.
  cbn [wb_table wb_inner]. rewrite Htb. cbn [with_allocs ctx_tenant]. rewrite Hl, Hdi, Hd.
  rewrite <- (assoc_L (++)). unfold obj_meta. rewrite <- !(assoc_L (++)).
  pose proof (resolve_layout (tenant_id (ctx_tenant c)) table key val Hk) as Hr.
  unfold obj_layout in Hr. rewrite Hr. cbn [mbind outcome_bind]. eexists. by split_and!.
Qed.

Lemma alloc_write_put_records_witness :
  ∃ c1 wb wb', @ctx_alloc exact_bytes ex_ctx 3 [1; 2; 3] 2 = Ret (c1, Some wb) ∧
    @write_slice exact_bytes wb [9; 9] = Ret wb' ∧
    ∃ c2, @ctx_put exact_bytes c1 wb' 10 20 = Ret (c2, true) ∧
      wrote ex_ctx c2 [1; 2; 3] [9; 9].
Proof.
  apply (@alloc_write_put_records exact_bytes _ ex_ctx 3 [1; 2; 3] [9; 9] 10 20 0%nat).
  - unfold below_quota. change (allocs ex_ctx) with 0. unfold MAX_ALLOC. lia.
  - by vm_compute.
  - by vm_compute.
  - by vm_compute.
Defined.

(** an extension commits by validating what it recorded.  When an extension
    whose arguments start with a little-endian table identifier ends, its
    context runs [validate] on that table of its tenant with the recorded sets;
    a commit keeps the response it wrote, and an abort replaces it by
    [StatusTxAbort] and the request's payload (when that fits). *)
Theorem extension_commit_validates `{BytesCrateLaws} s c ihdr name tbl more extra rhdr out space
    clock l t t' d :
  ctx_rep c ihdr name (tbl ++ more) extra rhdr out space → len tbl = 8 →
  get_table (ctx_tenant c) (le_val tbl) = Some l → heap s !! l = Some t →
  validate t (tenant_id (ctx_tenant c)) (le_val tbl) (ctx_tx c) clock = (t', Ret d) →
  let r := match d with
           | COMMIT => (rhdr, (out, space))
           | ABORT => (abort_response rhdr,
                       (try_add ([], len out + space) (name ++ (tbl ++ more) ++ extra)).2)
           end in
  ∃ req res, ctx_commit s c clock = (with_table s l t', Ret (req, res)) ∧ req = request c ∧
    ∃ room pre tail, pkt_rep res room pre r.1 r.2.1 tail ∧ len tail = r.2.2.
Proof.
  intros Hc Htbl Hl Ht Hval. eapply ctx_commit_carries; eauto.
  intros Hn. apply app_eq_nil in Hn as [_ [Hn _]%app_eq_nil].
  apply app_eq_nil in Hn as [-> _]. discriminate Htbl.
Qed.

Lemma ex_invoke_ok : cr_ok (CInvoke 7 1 (116 :: le_bytes 8 3) 95).
Proof.
  split; [discriminate|]. split; [apply (bool_decide_eq_true_1 _); by vm_compute|].
  split_and!; by vm_compute.
Qed.

Lemma ex_ctx_rep :
  ctx_rep ex_ctx (InvokeRequest_new 7 1 8 95) [116] (le_bytes 8 3 ++ []) []
    (InvokeResponse_new 95 SandstormInvokeRpc 7) [] 144.
Proof.
  destruct (ex_req_carries (CInvoke 7 1 (116 :: le_bytes 8 3) 95) ex_invoke_ok) as [sp Hreq];
    [by vm_compute|].
  assert (packed_ok (InvokeRequest_new 7 1 8 95)) as Hi
    by (apply (bool_decide_eq_true_1 _); by vm_compute).
  assert (packed_ok (InvokeResponse_new 95 SandstormInvokeRpc 7)) as Hr
    by (apply (bool_decide_eq_true_1 _); by vm_compute).
  destruct (carries_parse _ (InvokeRequest_new 7 1 8 95) _ _ Hreq Hi)
    as (p & rm & pre & u & tl & Hparse & Hp & _).
  destruct (carries_push ex_res (InvokeResponse_new 95 SandstormInvokeRpc 7) 158 ex_res_carries Hr)
    as (q & rm' & pre' & u' & tl' & Hpush & Hq & _ & Htl'); [by vm_compute|].
  split.
  - exists rm, (pre ++ encode u), tl. unfold ex_ctx. rewrite Hparse. exact Hp.
  - done.
  - done.
  - exists rm', (pre' ++ encode u'), tl'. unfold ex_ctx. rewrite Hpush. split; [exact Hq|exact Htl'].
Qed.

Definition ex_ctx_read : Context :=
  with_tx ex_ctx (mkTX [mkRwRecord SandstormRead 1 [1; 2; 3] [42; 43]]
                       [mkRwRecord SandstormWrite 0 [1; 2; 3] [9; 9]]).

Lemma ex_ctx_read_rep :
  ctx_rep ex_ctx_read (InvokeRequest_new 7 1 8 95) [116] (le_bytes 8 3 ++ []) []
    (InvokeResponse_new 95 SandstormInvokeRpc 7) [] 144.
Proof. by destruct ex_ctx_rep. Qed.

Lemma extension_commit_validates_witness :
  let t' := (@validate exact_bytes ex_tbl 7 3 (ctx_tx ex_ctx_read) 500).1 in
  ∃ req res, @ctx_commit exact_bytes ex_store ex_ctx_read 500 =
      (with_table ex_store 0%nat t', Ret (req, res)) ∧ req = request ex_ctx_read ∧
    ∃ room pre tail, pkt_rep res room pre (InvokeResponse_new 95 SandstormInvokeRpc 7) [] tail ∧
      len tail = 144.
Proof.
  apply (@extension_commit_validates exact_bytes _ ex_store ex_ctx_read _ [116] (le_bytes 8 3) [] []
    (InvokeResponse_new 95 SandstormInvokeRpc 7) [] 144 500 0%nat ex_tbl _ COMMIT ex_ctx_read_rep).
  - reflexivity.
  - by vm_compute.
  - by vm_compute.
  - by vm_compute.
Defined.

(** a pushback ships the transaction in the format a commit reads back.
    [prepare_for_pushback] replaces the response's payload by its read records
    and then its write records under [StatusPushback], and the record parser
    of the commit handler recovers from those bytes exactly the transaction. *)
Theorem pushback_roundtrip c rhdr out room pre tail kl vl :
  pkt_rep (response c) room pre rhdr out tail →
  Forall (λ r, rec_optype r = SandstormRead) (reads (ctx_tx c)) →
  Forall (λ r, rec_optype r = SandstormWrite) (writes (ctx_tx c)) →
  Forall (record_wire kl vl) (reads (ctx_tx c) ++ writes (ctx_tx c)) → 0 < kl → 0 < vl →
  len (shipped (ctx_tx c)) ≤ len out + len tail →
  ∃ res tail', prepare_for_pushback c = Ret (request c, res) ∧
    pkt_rep res room pre (status_header StatusPushback rhdr) (shipped (ctx_tx c)) tail' ∧
    (chs ← chunks (shipped (ctx_tx c)) (1 + 8 + kl + vl);
     ofold (commit_record kl) TX_new chs) = Ret (ctx_tx c).
Proof.
  intros Hp Hrd Hwr Hwire Hkl Hvl Hl. unfold shipped in *. unfold prepare_for_pushback.
  destruct (rep_set_status _ _ _ _ _ _ StatusPushback Hp) as (p1 & -> & Hp1).
  cbn [mbind outcome_bind]. rewrite (rep_get_payload _ _ _ _ _ _ Hp1). cbn [mbind outcome_bind].
  destruct (rep_clear_payload _ _ _ _ _ _ Hp1) as (p2 & -> & Hp2). cbn [mbind outcome_bind].
  assert (Forall pushable (reads (ctx_tx c) ++ writes (ctx_tx c))) as Hpush.
  { eapply Forall_impl; [exact Hwire|]. intros r [Hk Ho _ Hkb Hob].
    split_and!; [intros Hn|intros Hn|done|done]; rewrite Hn in *;
      change (len (@nil Z)) with 0 in *; lia. }
  destruct (pushback_records_spec _ _ _ _ _ _ _ Hp2 Hpush) as (p3 & t3 & He & Hp3 & _).
  { rewrite len_app. lia. }
  rewrite ofold_app in He.
  destruct (ofold pushback_record p2 (reads (ctx_tx c))) as [p4| |]; cbn in He; try discriminate.
  cbn [mbind outcome_bind]. rewrite He. cbn [mbind outcome_bind].
  eexists _, _. split; [done|]. split; [exact Hp3|].
  rewrite (records_chunks _ _ _ Hwire) by lia. cbn [mbind outcome_bind].
  rewrite (commit_records_encode _ _ _ _ Hwire). f_equal. by apply tx_of_split.
Qed.

Lemma pushback_roundtrip_witness :
  ∃ room pre res tail', prepare_for_pushback ex_ctx_read = Ret (request ex_ctx_read, res) ∧
    pkt_rep res room pre (status_header StatusPushback (InvokeResponse_new 95 SandstormInvokeRpc 7))
      (concat (encode_record <$> (reads (ctx_tx ex_ctx_read) ++ writes (ctx_tx ex_ctx_read)))) tail' ∧
    (chs ← chunks (concat (encode_record <$>
             (reads (ctx_tx ex_ctx_read) ++ writes (ctx_tx ex_ctx_read)))) (1 + 8 + 3 + 2);
     ofold (commit_record 3) TX_new chs) = Ret (ctx_tx ex_ctx_read).
Proof.
  destruct (cr_response _ _ _ _ _ _ _ _ ex_ctx_read_rep) as (room & pre & tail & Hp & Ht).
  exists room, pre.
  apply (pushback_roundtrip ex_ctx_read _ [] room pre tail 3 2 Hp).
  - repeat constructor.
  - repeat constructor.
  - repeat constructor; try done; cbn; unfold in_width; lia.
  - lia.
  - lia.
  - rewrite Ht. by vm_compute.
Defined.
