(* ===== verification/Ext.v ===== *)
(** * Ext: the extension manager

    Models sandstorm/src/ext.rs.  Loading a shared object goes through the
    third-party [libloading] and the file system, the interface [Loader]; a
    [String] is its UTF-8 bytes, checked by [utf8_valid] as
    [String::from_utf8] does. *)

From S2P Require Import Prelude.

(** ** UTF-8 *)

Definition is_cont (b : Z) : bool := (0x80 <=? b) && (b <=? 0xbf).

(** The sequences [str::from_utf8] accepts: no overlong forms, no surrogates,
    nothing above U+10FFFF. One unit of fuel per byte is enough. *)
Fixpoint utf8_fuel (fuel : nat) (s : bytes) : bool :=
  match fuel, s with
  | _, [] => true
  | O, _ => false
  | S f, a :: s =>
      if a <=? 0x7f then utf8_fuel f s
      else match s with
      | b :: s =>
          if (0xc2 <=? a) && (a <=? 0xdf) then is_cont b && utf8_fuel f s
          else match s with
          | c :: s =>
              if (0xe0 <=? a) && (a <=? 0xef) then
                is_cont b && is_cont c && negb ((a =? 0xe0) && (b <? 0xa0)) &&
                negb ((a =? 0xed) && (0xa0 <=? b)) && utf8_fuel f s
              else match s with
              | d :: s =>
                  (0xf0 <=? a) && (a <=? 0xf4) && is_cont b && is_cont c && is_cont d &&
                  negb ((a =? 0xf0) && (b <? 0x90)) && negb ((a =? 0xf4) && (0x90 <=? b)) &&
                  utf8_fuel f s
              | [] => false
              end
          | [] => false
          end
      | [] => false
      end
  end.

Definition utf8_valid (s : bytes) : bool := utf8_fuel (length s) s.

(** ** Loading shared objects *)

Class Loader := {
  Extension : Type;
  FS : Type;
  (** [File::create], [write_all], [sync_all]; a failure panics. *)
  fs_write : FS → bytes → bytes → outcome FS;
  (** [Extension::load]: the library opens and has an [init] symbol. *)
  ext_load : FS → bytes → option Extension;
}.

(** ** ExtensionManager *)

Definition EXT_BUCKETS : Z := 32.

Section manager.
Context `{Loader}.

Abbreviation ExtMap := (gmap (Z * bytes) Extension).

Definition ExtensionManager : Type := list ExtMap.

Definition ExtensionManager_new : ExtensionManager := replicate (Z.to_nat EXT_BUCKETS) ∅.

Definition ext_bucket (tenant : Z) : nat :=
  Z.to_nat (Z.land (Z.land tenant 0xff) (EXT_BUCKETS - 1)).

Definition em_insert (em : ExtensionManager) (tenant : Z) (name : bytes) (ext : Extension) :
    outcome ExtensionManager :=
  m ← expect ((em : list ExtMap) !! ext_bucket tenant);
  Ret (<[ext_bucket tenant := <[(tenant, name) := ext]> m]> (em : list ExtMap)).

Definition em_load (fs : FS) (em : ExtensionManager) (path : bytes) (tenant : Z) (name : bytes) :
    outcome (ExtensionManager * bool) :=
  match ext_load fs path with
  | Some ext => em ← em_insert em tenant name ext; Ret (em, true)
  | None => Ret (em, false)
  end.

Definition em_get (em : ExtensionManager) (tenant : Z) (name : bytes) :
    outcome (option Extension) :=
  m ← expect ((em : list ExtMap) !! ext_bucket tenant); Ret ((m : ExtMap) !! (tenant, name)).

Definition em_share (em : ExtensionManager) (owner share : Z) (name : bytes) :
    outcome (ExtensionManager * bool) :=
  o ← em_get em owner name;
  match o with
  | Some ext => em ← em_insert em share name ext; Ret (em, true)
  | None => Ret (em, false)
  end.

(** ** Lemmas *)

Definition em_wf (em : ExtensionManager) : Prop := length (em : list ExtMap) = Z.to_nat EXT_BUCKETS.

(** The extension a tenant sees under a name. *)
Definition em_find (em : ExtensionManager) (tenant : Z) (name : bytes) : option Extension :=
  (em : list ExtMap) !! ext_bucket tenant ≫= λ m : ExtMap, m !! (tenant, name).

Lemma ext_bucket_lt tenant : (ext_bucket tenant < Z.to_nat EXT_BUCKETS)%nat.
Proof.
  unfold ext_bucket, EXT_BUCKETS. change (32 - 1) with (Z.ones 5).
  rewrite Z.land_ones by lia. pose proof (Z.mod_pos_bound (Z.land tenant 255) (2 ^ 5) ltac:(lia)).
  change (2 ^ 5) with 32 in *. lia.
Qed.

Lemma em_bucket em tenant :
  em_wf em → ∃ m, (em : list ExtMap) !! ext_bucket tenant = Some m.
Proof.
  intros Hw. apply lookup_lt_is_Some_2. unfold em_wf in Hw. rewrite Hw. apply ext_bucket_lt.
Qed.

Lemma em_get_find em tenant name : em_wf em → em_get em tenant name = Ret (em_find em tenant name).
Proof.
  intros Hw. unfold em_get, em_find. destruct (em_bucket em tenant Hw) as [m Hm]. by rewrite Hm.
Qed.

Lemma em_insert_find em tenant name ext :
  em_wf em →
  ∃ em', em_insert em tenant name ext = Ret em' ∧ em_wf em' ∧
    ∀ t n, em_find em' t n =
      if decide (t = tenant ∧ n = name) then Some ext else em_find em t n.
Proof.
  intros Hw. unfold em_insert. destruct (em_bucket em tenant Hw) as [m Hm]. rewrite Hm.
  cbn [expect mbind outcome_bind]. eexists. split; [done|]. split.
  { unfold em_wf in *. by rewrite length_insert. }
  intros t n. unfold em_find.
  destruct (decide (ext_bucket t = ext_bucket tenant)) as [He|Hne].
  - rewrite He, list_lookup_insert_eq, Hm by by eapply lookup_lt_Some. cbn.
    case_decide as Hd; [destruct Hd as [-> ->]; apply lookup_insert_eq|].
    apply lookup_insert_ne. intros [= -> ->]. by apply Hd.
  - rewrite list_lookup_insert_ne by done. rewrite decide_False; [done|]. by intros [-> _].
Qed.

Lemma em_new_wf : em_wf ExtensionManager_new.
Proof. done. Qed.
End manager.

(** A loader that accepts every file, for the witnesses. *)
Definition any_loader : Loader := {|
  Extension := bytes;
  FS := gmap bytes bytes;
  fs_write fs path data := Ret (<[path := data]> fs);
  ext_load fs path := fs !! path;
|}.

(** ** Properties *)

(** extensions belong to the tenant that loaded them until they are shared.
    Loading makes the extension visible to that tenant under that name, and
    changes what no other tenant and no other name sees; sharing succeeds
    exactly when the owner has the extension, and then shows the same
    extension to the other tenant, and nothing else changes. *)
Theorem extensions_isolated `{Loader} em fs path tenant name ext owner other :
  em_wf em → ext_load fs path = Some ext →
  ∃ em', em_load fs em path tenant name = Ret (em', true) ∧ em_wf em' ∧
    (∀ t n, em_find em' t n = if decide (t = tenant ∧ n = name) then Some ext else em_find em t n) ∧
    ∃ em'', em_share em' owner other name = Ret (em'', bool_decide (is_Some (em_find em' owner name))) ∧
      em_wf em'' ∧
      ∀ t n, em_find em'' t n =
        if decide (t = other ∧ n = name ∧ is_Some (em_find em' owner name))
        then em_find em' owner name else em_find em' t n.
Proof.
  intros Hw Hload. unfold em_load. rewrite Hload.
  destruct (em_insert_find em tenant name ext Hw) as (em' & -> & Hw' & Hf).
  exists em'. split; [done|]. split; [done|]. split; [done|].
  unfold em_share. rewrite em_get_find by done. cbn [mbind outcome_bind].
  destruct (em_find em' owner name) as [e|] eqn:He.
  - destruct (em_insert_find em' other name e Hw') as (em'' & -> & Hw'' & Hf'').
    exists em''. split; [done|]. split; [done|]. intros t n. rewrite Hf''.
    apply decide_ext. split; [intros [-> ->]; split_and!; eauto | tauto].
  - exists em'. rewrite bool_decide_eq_false_2 by (by intros [? ?]).
    split; [done|]. split; [done|]. intros t n. rewrite decide_False; [done|].
    intros (_ & _ & [? ?]). done.
Qed.

Lemma extensions_isolated_witness :
  ∃ em', @em_load any_loader {[ [47; 97] := [1] ]} (@ExtensionManager_new any_loader) [47; 97] 5 [116]
      = Ret (em', true) ∧ @em_wf any_loader em' ∧
    (∀ t n, @em_find any_loader em' t n =
       if decide (t = 5 ∧ n = [116]) then Some [1] else @em_find any_loader ExtensionManager_new t n) ∧
    ∃ em'', @em_share any_loader em' 5 6 [116] =
        Ret (em'', bool_decide (is_Some (@em_find any_loader em' 5 [116]))) ∧
      @em_wf any_loader em'' ∧
      ∀ t n, @em_find any_loader em'' t n =
        if decide (t = 6 ∧ n = [116] ∧ is_Some (@em_find any_loader em' 5 [116]))
        then @em_find any_loader em' 5 [116] else @em_find any_loader em' t n.
Proof.
  apply (@extensions_isolated any_loader (@ExtensionManager_new any_loader) {[ [47; 97] := [1] ]}
    [47; 97] 5 [116] [1] 5 6); [apply em_new_wf | by vm_compute].
Defined.
