(* ===== verification/Task.v ===== *)
(** * Task: the tasks a scheduler runs

    Models db/src/task.rs (states, priorities and the [Task] trait),
    db/src/native.rs ([Native]) and db/src/container.rs ([Container]).  A
    generator is a value with a resume function; the one of an extension also
    works on the store and on its context, and may panic.  [start] and [stop]
    are the [rdtsc] readings around a run. *)

From S2P Require Import Prelude Packed Headers Packet Wire Rpc Alloc Tx Table Store Handlers.
From S2P Require Import Bufs Context.

(** ** States and priorities *)

Inductive TaskState := INITIALIZED | RUNNING | YIELDED | COMPLETED | STOPPED | WAITING.

Inductive TaskPriority := DISPATCH | REQUEST.

#[export] Instance TaskState_eq_dec : EqDecision TaskState.
Proof. solve_decision. Defined.

#[export] Instance TaskPriority_eq_dec : EqDecision TaskPriority.
Proof. solve_decision. Defined.

Definition runnable (st : TaskState) : bool :=
  bool_decide (st = INITIALIZED) || bool_decide (st = YIELDED).

(** ** Native *)

(** What resuming a native generator yields, with the store it leaves. *)
Inductive NativeStep (G : Type) :=
| Yielded (time : Z) (gen : G)
| Complete (pkts : option Pkts).

Arguments Yielded {_} _ _.
Arguments Complete {_} _.

Section native.
Context {G : Type} (resume : Store → G → Store * outcome (NativeStep G)).

Record Native := mkNative {
  n_state : TaskState;
  n_time : Z;
  n_db_time : Z;
  n_priority : TaskPriority;
  n_gen : G;
  n_res : option Pkts;
}.

Definition Native_new (prio : TaskPriority) (generator : G) : Native :=
  mkNative INITIALIZED 0 0 prio generator None.

(** The result keeps the store apart: a panic unwinds through [run]. *)
Definition native_run (s : Store) (n : Native) (start stop : Z) :
    Store * outcome (Native * (TaskState * Z)) :=
  let exec := stop -u64 start in
  let fin n := (mkNative (n_state n) (n_time n +u64 exec) (n_db_time n) (n_priority n) (n_gen n)
                  (n_res n), (n_state n, exec)) in
  if runnable (n_state n) then
    let (s, r) := resume s (n_gen n) in
    (s, r ← r;
     Ret (fin match r with
              | Yielded time gen =>
                  mkNative YIELDED (n_time n) (n_db_time n +u64 time) (n_priority n) gen (n_res n)
              | Complete pkts =>
                  mkNative COMPLETED (n_time n) (n_db_time n) (n_priority n) (n_gen n) pkts
              end))
  else (s, Ret (fin n)).

Definition native_tear (n : Native) : Native * option Pkts :=
  (mkNative (n_state n) (n_time n) (n_db_time n) (n_priority n) (n_gen n) None, n_res n).

Definition native_set_state (n : Native) (st : TaskState) : Native :=
  mkNative st (n_time n) (n_db_time n) (n_priority n) (n_gen n) (n_res n).
End native.

Arguments Native : clear implicits.

(** The generators of the data handlers run to completion in one go. *)
Definition resume_handler `{BytesCrate} (rdtsc : Z) (s : Store) (g : NativeGen) :
    Store * outcome (NativeStep NativeGen) :=
  let (s, r) := run_gen s g rdtsc in (s, (λ pkts, Complete (Some pkts)) <$> r).

(** ** Container *)

(** What resuming an extension does: it may have changed the store and its
    context in every case, a panic included. *)
Inductive ExtStep (G : Type) :=
| ExtYielded (s : Store) (c : Context) (gen : G)
| ExtComplete (s : Store) (c : Context)
| ExtPanicked (s : Store) (c : Context).

Arguments ExtYielded {_} _ _ _.
Arguments ExtComplete {_} _ _.
Arguments ExtPanicked {_} _ _.

Section container.
Context {G : Type} (resume : Store → Context → G → ExtStep G).

Record Container := mkContainer {
  c_state : TaskState;
  c_priority : TaskPriority;
  c_time : Z;
  c_db_time : Z;
  c_db : option Context;
  c_gen : option G;
}.

Definition Container_new (prio : TaskPriority) (context : Context) (gen : G) : Container :=
  mkContainer INITIALIZED prio 0 0 (Some context) (Some gen).

(** Panics of the extension are caught and complete the task.  A container
    whose context was torn away has no generator either. *)
Definition container_run (s : Store) (k : Container) (start stop : Z) :
    Store * Container * (TaskState * Z) :=
  let exec := stop -u64 start in
  let fin s k := (s, mkContainer (c_state k) (c_priority k) (c_time k +u64 exec) (c_db_time k)
                       (c_db k) (c_gen k), (c_state k, exec)) in
  if runnable (c_state k) then
    match c_gen k, c_db k with
    | Some gen, Some db =>
        match resume s db gen with
        | ExtYielded s db gen =>
            fin s (mkContainer YIELDED (c_priority k) (c_time k) (db_credit db) (Some db) (Some gen))
        | ExtComplete s db =>
            fin s (mkContainer COMPLETED (c_priority k) (c_time k) (db_credit db) (Some db)
                     (Some gen))
        | ExtPanicked s db =>
            fin s (mkContainer COMPLETED (c_priority k) (c_time k) (c_db_time k) (Some db)
                     (Some gen))
        end
    | _, _ => fin s (mkContainer COMPLETED (c_priority k) (c_time k) (c_db_time k) (c_db k) (c_gen k))
    end
  else fin s k.

Definition container_set_state (k : Container) (st : TaskState) : Container :=
  mkContainer st (c_priority k) (c_time k) (c_db_time k) (c_db k) (c_gen k).

(** Dropping the generator leaves the container the only owner of the context. *)
Definition container_tear `{BytesCrate} (s : Store) (k : Container) (rdtsc : Z) :
    Store * outcome (Container * Pkts) :=
  let k' := mkContainer (c_state k) (c_priority k) (c_time k) (c_db_time k) None None in
  match c_db k with
  | None => (s, Panic)
  | Some context =>
      if decide (c_state k = STOPPED) then
        (s, '(req, res) ← prepare_for_pushback context; Ret (k', (udp req, udp res)))
      else
        let (s, r) := ctx_commit s context rdtsc in
        (s, '(req, res) ← r; Ret (k', (udp req, udp res)))
  end.
End container.

Arguments Container : clear implicits.

(** ** Lemmas *)

Lemma runnable_iff st : runnable st = true ↔ st = INITIALIZED ∨ st = YIELDED.
Proof. unfold runnable. rewrite orb_true_iff, !bool_decide_eq_true. done. Qed.

(** The states a task moves through when it is run. *)
Definition run_moves (st st' : TaskState) : Prop :=
  if runnable st then st' = YIELDED ∨ st' = COMPLETED else st' = st.

(** ** Properties *)

(** an extension cannot take the scheduler down, and a panic completes it.
    Whatever an extension does when it is resumed, running its container
    returns normally; the state becomes [YIELDED] or [COMPLETED] from a
    runnable state and stays otherwise; a task that is not runnable is not
    resumed, so neither the store nor its context changes; and a panic leads
    to [COMPLETED] with everything the extension had recorded still in the
    context. *)
Theorem container_run_contained {G} (resume : Store → Context → G → ExtStep G) s k start stop :
  let '(s', k', (st, exec)) := container_run resume s k start stop in
  st = c_state k' ∧ run_moves (c_state k) st ∧
  c_time k' = c_time k +u64 exec ∧
  (runnable (c_state k) = false → s' = s ∧ c_db k' = c_db k) ∧
  (∀ gen db s1 db1, runnable (c_state k) = true → c_gen k = Some gen → c_db k = Some db →
     resume s db gen = ExtPanicked s1 db1 → st = COMPLETED ∧ s' = s1 ∧ c_db k' = Some db1).
Proof.
  unfold container_run, run_moves. destruct (runnable (c_state k)) eqn:Hr; [|by split_and!].
  destruct (c_gen k) as [gen|]; [destruct (c_db k) as [db|]|];
    [|split_and!; [done|by right|done|done|intros; congruence]..].
  destruct (resume s db gen) as [s1 c1 g1|s1 c1|s1 c1] eqn:He; cbn;
    (split_and!; [done|first [by left|by right]|done|done|]); intros; simplify_eq; try congruence; split_and!; congruence.
Qed.

(** a panicking extension's transaction is still committed.  A container
    whose extension panicked is torn down like one that finished: its context
    is committed, and the client gets the outcome of that commit. *)
Theorem panicked_extension_commits `{BytesCrate} {G} (resume : Store → Context → G → ExtStep G)
    s prio gen db s1 db1 start stop clock :
  resume s db gen = ExtPanicked s1 db1 →
  let '(s', k', (st, _)) := container_run resume s (Container_new prio db gen) start stop in
  st = COMPLETED ∧
  container_tear s' k' clock =
    (let (s2, r) := ctx_commit s1 db1 clock in
     (s2, '(req, res) ← r;
          Ret (mkContainer COMPLETED prio (c_time k') (c_db_time k') None None, (udp req, udp res)))).
Proof.
  intros Hres. unfold container_run. cbn [Container_new c_state c_gen c_db runnable].
  change (runnable INITIALIZED) with true. cbn match. rewrite Hres. by split.
Qed.

Definition panicking_resume (s : Store) (c : Context) (g : unit) : ExtStep unit :=
  ExtPanicked s (with_tx c (record_put (ctx_tx c) (mkRwRecord SandstormWrite 0 [1] [2]))).

Definition ex_db : Context :=
  Context_new (create_packet ex_mbuf 0 0) 0 0 (create_packet ex_mbuf 0 0) (Tenant_new 7).

Lemma panicked_extension_commits_witness :
  let '(s', k', (st, _)) :=
    container_run panicking_resume Store_new (Container_new REQUEST ex_db tt) 0 5 in
  st = COMPLETED ∧
  @container_tear unit exact_bytes s' k' 9 =
    (let (s2, r) := @ctx_commit exact_bytes Store_new
       (with_tx ex_db (record_put (ctx_tx ex_db) (mkRwRecord SandstormWrite 0 [1] [2]))) 9 in
     (s2, '(req, res) ← r;
          Ret (mkContainer COMPLETED REQUEST (c_time k') (c_db_time k') None None,
               (udp req, udp res)))).
Proof.
  by apply (@panicked_extension_commits exact_bytes unit panicking_resume Store_new REQUEST tt ex_db
    Store_new _ 0 5 9).
Defined.
