(* ===== verification/Master.v ===== *)
(** * Master: the service behind the dispatcher

    Models the rest of db/src/master.rs: [invoke], [install], and the [Service]
    implementation that routes an opcode to its handler, either as a task
    ([dispatch]) or in place ([service_native]).  Calling an extension's [init]
    is the argument [ext_gen]; its generator's type is abstract. *)

From S2P Require Import Prelude Packed Headers Packet Wire Rpc Alloc Tx Table Store Handlers.
From S2P Require Import HandlerSpecs Bufs Context Ext Task.

(** ** The service *)

(** ["/tmp/"] and [".so"]. *)
Definition TMP : bytes := [47; 116; 109; 112; 47].

Definition DOT_SO : bytes := [46; 115; 111].

(** [transmute] of the packed response into its bytes. *)
Definition install_reply (h : InstallResponse) (st : RpcStatus) : bytes :=
  encode (mkInstallResponse (with_status (installres_common h) st)).

Section master.
Context `{BytesCrate} `{Loader} {G : Type} (ext_gen : Extension → Context → G).

Record Master := mkMaster {
  m_store : Store;
  m_extensions : ExtensionManager;
  m_fs : FS;
}.

Definition with_store (m : Master) (s : Store) : Master :=
  mkMaster s (m_extensions m) (m_fs m).

Inductive ServerTask :=
| TNative (n : Native NativeGen)
| TContainer (k : Container G).

Definition invoke (m : Master) (req res : Packet UdpHeader) : outcome (Result (Container G)) :=
  req ← parse_header InvokeRequest req;
  hdr ← get_header req;
  let tenant_id := req_tenant (invoke_common hdr) in
  let name_length := invoke_name_length hdr in
  let args_length := args_length hdr in
  let rpc_stamp := req_stamp (invoke_common hdr) in
  res ← (push_header res (InvokeResponse_new rpc_stamp SandstormInvokeRpc tenant_id) ≫= expect);
  pl ← get_payload req;
  if decide (len pl < name_length +u64 args_length) then
    res ← set_status res StatusMalformedRequest; Ret (Err (udp req, udp res))
  else
    '(name, _) ← split_at pl name_length;
    _ ← assert_ (utf8_valid name = true);
    tenant ← get_tenant (m_store m) tenant_id;
    match tenant with
    | Some tenant =>
        ext ← em_get (m_extensions m) tenant_id name;
        match ext with
        | Some ext =>
            let db := Context_new req name_length args_length res tenant in
            Ret (Ok (Container_new REQUEST db (ext_gen ext db)))
        | None =>
            res ← set_status res StatusInvalidExtension; Ret (Err (udp req, udp res))
        end
    | None => res ← set_status res StatusTenantDoesNotExist; Ret (Err (udp req, udp res))
    end.

(** The header is read through a raw pointer, before any length check. *)
Definition install (m : Master) (buf : bytes) : outcome (Master * bytes) :=
  h ← mem_read buf 0 (size_of InstallRequest);
  let hdr : InstallRequest := decode h in
  let tenant := req_tenant (install_common hdr) in
  let name_l := install_name_length hdr in
  let extn_l := extn_length hdr in
  let tstamp := req_stamp (install_common hdr) in
  let res := InstallResponse_new tstamp SandstormInstallRpc tenant in
  if decide (len buf ≠ (size_of InstallRequest +u64 name_l) +u64 extn_l)
  then Ret (m, install_reply res StatusMalformedRequest)
  else
    tn ← get_tenant (m_store m) tenant;
    match tn with
    | None => Ret (m, install_reply res StatusTenantDoesNotExist)
    | Some _ =>
        '(_, payload) ← split_at buf (size_of InstallRequest);
        '(name, payload) ← split_at payload name_l;
        '(extn, _) ← split_at payload extn_l;
        if utf8_valid name then
          let path := TMP ++ name ++ DOT_SO in
          fs ← fs_write (m_fs m) path extn;
          '(em, ok) ← em_load fs (m_extensions m) path tenant name;
          Ret (mkMaster (m_store m) em fs,
               install_reply res (if (ok : bool) then StatusOk else StatusInternalError))
        else Ret (m, install_reply res StatusInternalError)
    end.

(** ** The Service trait *)

Definition native_task (r : Result NativeGen) : Result ServerTask :=
  match r with Ok g => Ok (TNative (Native_new REQUEST g)) | Err pkts => Err pkts end.

Definition dispatch (m : Master) (op : OpCode) (req res : Packet UdpHeader) :
    outcome (Result ServerTask) :=
  match op with
  | SandstormGetRpc => native_task <$> get (m_store m) req res
  | SandstormPutRpc => native_task <$> put (m_store m) req res
  | SandstormMultiGetRpc => native_task <$> multiget (m_store m) req res
  | SandstormInvokeRpc =>
      (λ r, match r with Ok k => Ok (TContainer k) | Err pkts => Err pkts end) <$> invoke m req res
  | SandstormCommitRpc => native_task <$> commit (m_store m) req res
  | _ => Ret (Err (req, res))
  end.

Definition dispatch_invoke (m : Master) (req res : Packet UdpHeader) :
    outcome (Result (Container G)) :=
  invoke m req res.

Definition service_native (m : Master) (op : OpCode) (req res : Packet UdpHeader) :
    outcome (Master * Result Pkts) :=
  match op with
  | SandstormGetRpc => r ← get_native (m_store m) req res; Ret (m, r)
  | SandstormPutRpc => '(s, r) ← put_native (m_store m) req res; Ret (with_store m s, r)
  | SandstormMultiGetRpc => r ← multiget_native (m_store m) req res; Ret (m, r)
  | _ => Ret (m, Err (req, res))
  end.
End master.

Arguments Master {_}.
Arguments mkMaster {_} _ _ _.
Arguments ServerTask : clear implicits.
Arguments TNative {_} _.
Arguments TContainer {_} _.

(** ** Lemmas *)

Definition invoke_response (hdr : InvokeRequest) (st : RpcStatus) : InvokeResponse :=
  status_header st
    (InvokeResponse_new (req_stamp (invoke_common hdr)) SandstormInvokeRpc
       (req_tenant (invoke_common hdr))).

Lemma invoke_response_ok hdr st : packed_ok hdr → packed_ok (invoke_response hdr st).
Proof.
  intros Hh. unfold packed_ok in *. cbn in *. unfold req_layout, req_fields, res_fields in *.
  repeat match goal with H : Forall2 _ (_ :: _) _ |- _ => inversion_clear H end.
  constructor; [apply status_u8_width|]. constructor; [unfold in_width; cbn; lia|].
  repeat (constructor; [assumption|]). constructor.
Qed.

(** What an invocation leads to. *)
Inductive Invoked (E : Type) := InvokeRefused (st : RpcStatus) | Invoke (tn : Tenant) (ext : E).

Arguments InvokeRefused {_} _.
Arguments Invoke {_} _ _.

Definition invoke_spec `{Loader} (m : Master) (tenant : Z) (name : bytes) : Invoked Extension :=
  match tenant_of (m_store m) tenant with
  | None => InvokeRefused StatusTenantDoesNotExist
  | Some tn =>
      match em_find (m_extensions m) tenant name with
      | None => InvokeRefused StatusInvalidExtension
      | Some ext => Invoke tn ext
      end
  end.

(** ** Properties *)

(** an invoke request starts the extension of the tenant that sent it.  For
    a request whose name is valid UTF-8 and whose lengths match its payload, a
    missing tenant or extension is answered with its status and the request
    unchanged; otherwise the result is a fresh container, whose context sees
    exactly the request's arguments, has an empty transaction and no credit,
    belongs to the requesting tenant, and holds a response header of status
    [StatusOk] with an empty payload. *)
Theorem invoke_answers `{BytesCrate} `{Loader} {G} (ext_gen : Extension → Context → G)
    m hdr name args extra req res space rspace :
  length (tenants (m_store m)) = Z.to_nat TENANT_BUCKETS → em_wf (m_extensions m) →
  packed_ok hdr → invoke_name_length hdr = len name → args_length hdr = len args →
  utf8_valid name = true →
  carries req (encode hdr ++ name ++ args ++ extra) rspace → carries res [] space →
  size_of InvokeResponse ≤ space →
  match invoke_spec m (req_tenant (invoke_common hdr)) name with
  | InvokeRefused st => ∃ req' res', invoke ext_gen m req res = Ret (Err (req', res')) ∧
      carries req' (encode hdr ++ name ++ args ++ extra) rspace ∧
      carries res' (encode (invoke_response hdr st)) (space - size_of InvokeResponse)
  | Invoke tn ext => ∃ db, invoke ext_gen m req res =
        Ret (Ok (Container_new REQUEST db (ext_gen ext db))) ∧
      ctx_args db = Ret args ∧ ctx_tx db = TX_new ∧ allocs db = 0 ∧ db_credit db = 0 ∧
      ctx_tenant db = tn ∧
      get_header (response db) = Ret (invoke_response hdr StatusOk) ∧
      get_payload (response db) = Ret []
  end.
Proof.
  intros Hlen Hem Hh Hnl Hal Hutf Hreq Hres Hsp.
  pose proof (carries_len _ _ _ Hreq) as Hw. rewrite !len_app in Hw.
  destruct (carries_parse req hdr _ _ Hreq Hh) as (p & rm & pre & u & tl & Hparse & Hp & Hu & Htl).
  destruct (carries_push res (invoke_response hdr StatusOk) _ Hres
    (invoke_response_ok hdr StatusOk Hh) Hsp) as (q & rm' & pre' & u' & tl' & Hpush & Hq & Hu' & Htl').
  pose proof (len_nonneg name). pose proof (len_nonneg args). pose proof (len_nonneg extra).
  pose proof (len_nonneg (encode hdr)). unfold in_width in Hw.
  unfold invoke_spec.
  destruct (rep_set_status _ _ _ _ _ _ StatusTenantDoesNotExist Hq) as (q1 & Hst1 & Hq1).
  destruct (rep_set_status _ _ _ _ _ _ StatusInvalidExtension Hq) as (q2 & Hst2 & Hq2).
  assert (carries (udp p) (encode hdr ++ name ++ args ++ extra) rspace) as Hcp
    by (rewrite <- Htl; by eapply carries_udp).
  unfold invoke. rewrite Hparse. cbn [mbind outcome_bind].
  rewrite (rep_get_header _ _ _ _ _ _ Hp). cbn [mbind outcome_bind].
  change (InvokeResponse_new _ SandstormInvokeRpc _) with (invoke_response hdr StatusOk).
  rewrite Hpush. cbn [expect mbind outcome_bind].
  rewrite (rep_get_payload _ _ _ _ _ _ Hp), Hnl, Hal. cbn [mbind outcome_bind].
  rewrite wadd_id by (unfold in_width; lia).
  rewrite decide_False by (rewrite !len_app; lia).
  rewrite split_at_app by done. cbn [mbind outcome_bind]. unfold assert_.
  rewrite decide_True by done. cbn [mbind outcome_bind].
  rewrite get_tenant_of by done. cbn [mbind outcome_bind].
  destruct (tenant_of (m_store m) (req_tenant (invoke_common hdr))) as [tn|].
  - rewrite em_get_find by done. cbn [mbind outcome_bind].
    destruct (em_find _ _ name) as [ext|].
    + eexists. split; [done|]. split_and!; try done.
      * unfold ctx_args. cbn [request Context_new args_offset ctx_args_length].
        rewrite (rep_get_payload _ _ _ _ _ _ Hp). cbn [mbind outcome_bind].
        rewrite split_at_app by done. cbn [mbind outcome_bind]. by rewrite split_at_app by done.
      * by apply (rep_get_header _ _ _ _ _ _ Hq).
      * by apply (rep_get_payload _ _ _ _ _ _ Hq).
    + rewrite Hst2. cbn [mbind outcome_bind]. eexists _, _. split; [done|]. split; [done|].
      rewrite <- Htl', <- (app_nil_r (encode _)). by eapply carries_udp.
  - rewrite Hst1. cbn [mbind outcome_bind]. eexists _, _. split; [done|]. split; [done|].
    rewrite <- Htl', <- (app_nil_r (encode _)). by eapply carries_udp.
Qed.

(** Extension "t" of tenant 7. *)
Definition ex_em : @ExtensionManager any_loader :=
  ret_or (@ExtensionManager_new any_loader)
    (@em_insert any_loader (@ExtensionManager_new any_loader) 7 [116] [1; 2]).

Definition ex_master : @Master any_loader := @mkMaster any_loader ex_store ex_em ∅.

Definition ex_invoke : InvokeRequest := InvokeRequest_new 7 1 8 95.

Definition ex_invoke_request : ClientRequest := CInvoke 7 1 (116 :: le_bytes 8 3) 95.

Lemma ex_invoke_request_ok : cr_ok ex_invoke_request.
Proof.
  split; [discriminate|]. split; [apply (bool_decide_eq_true_1 _); by vm_compute|].
  split_and!; by vm_compute.
Qed.

Definition unit_gen (ext : @Extension any_loader) (db : Context) : unit := tt.

Lemma invoke_answers_witness :
  ∃ db, @invoke any_loader unit unit_gen ex_master (ex_req ex_invoke_request) ex_res =
        Ret (Ok (Container_new REQUEST db tt)) ∧
      ctx_args db = Ret (le_bytes 8 3) ∧ ctx_tx db = TX_new ∧ allocs db = 0 ∧ db_credit db = 0 ∧
      ctx_tenant db = (create_table Store_new (Tenant_new 7) 3).2 ∧
      get_header (response db) = Ret (invoke_response ex_invoke StatusOk) ∧
      get_payload (response db) = Ret [].
Proof.
  destruct (ex_req_carries ex_invoke_request) as [rspace Hreq];
    [apply ex_invoke_request_ok|by vm_compute|].
  apply (@invoke_answers exact_bytes any_loader unit unit_gen ex_master ex_invoke [116] (le_bytes 8 3)
    [] (ex_req ex_invoke_request) ex_res 158 rspace).
  - reflexivity.
  - by vm_compute.
  - apply (bool_decide_eq_true_1 _). by vm_compute.
  - reflexivity.
  - reflexivity.
  - by vm_compute.
  - exact Hreq.
  - apply ex_res_carries.
  - by vm_compute.
Defined.

(** the two ways of serving a put agree.  Whatever the request,
    [service_native] has exactly the effect and the answer of [dispatch]
    followed at once by a run and the teardown of the task it created: the same
    store, the same packets, the same panics. *)
Theorem put_paths_agree `{BytesCrate} `{Loader} {G} (ext_gen : Extension → Context → G)
    m req res clock start stop :
  service_native m SandstormPutRpc req res =
  (r ← dispatch ext_gen m SandstormPutRpc req res;
   match r with
   | Err pkts => Ret (m, Err pkts)
   | Ok (TContainer _) => Undef
   | Ok (TNative n) =>
       let (s, r) := native_run (resume_handler clock) (m_store m) n start stop in
       '(n, _) ← r;
       pkts ← expect (native_tear n).2;
       Ret (with_store m s, Ok pkts)
   end).
Proof.
  cbn [service_native dispatch]. unfold put_native, put.
  destruct (parse_header PutRequest req) as [p| |]; [|done..]. cbn [mbind outcome_bind].
  destruct (get_header p) as [hdr| |]; [|done..]. cbn [mbind outcome_bind].
  destruct (push_header res _ ≫= expect) as [q| |]; [|done..]. cbn [mbind outcome_bind].
  destruct (get_payload p) as [pl| |]; [|done..]. cbn [mbind outcome_bind].
  case_decide.
  { destruct (set_status q StatusMalformedRequest) as [q'| |]; [|done..]. by destruct m. }
  destruct (get_tenant (m_store m) _) as [tn| |]; [|done..].
  cbn [mbind outcome_bind fmap outcome_fmap native_task]. unfold native_run, resume_handler.
  cbn [n_state n_gen Native_new run_gen]. unfold put_gen.
  destruct (put_body (m_store m) p tn _ _ _) as [[s' st]| |]; [|done..].
  cbn [mbind outcome_bind]. by destruct (set_status q st).
Qed.

(** install checks the lengths, then the tenant, then loads.  For a buffer
    that holds an install header, a wrong total length is answered
    [StatusMalformedRequest] and an unknown tenant [StatusTenantDoesNotExist],
    with nothing changed; otherwise the extension's bytes are written to
    /tmp/<name>.so and, when they load, that extension and no other becomes
    visible to the tenant under its name. *)
Theorem install_answers `{Loader} m hdr name extn rest :
  length (tenants (m_store m)) = Z.to_nat TENANT_BUCKETS → em_wf (m_extensions m) →
  packed_ok hdr → install_name_length hdr = len name → extn_length hdr = len extn →
  len rest < 2 ^ 32 → utf8_valid name = true →
  let tenant := req_tenant (install_common hdr) in
  let reply := install_reply (InstallResponse_new (req_stamp (install_common hdr))
                 SandstormInstallRpc tenant) in
  let path := TMP ++ name ++ DOT_SO in
  (rest ≠ [] → install m (encode hdr ++ name ++ extn ++ rest) = Ret (m, reply StatusMalformedRequest)) ∧
  (tenant_of (m_store m) tenant = None →
   install m (encode hdr ++ name ++ extn) = Ret (m, reply StatusTenantDoesNotExist)) ∧
  (∀ tn fs, tenant_of (m_store m) tenant = Some tn → fs_write (m_fs m) path extn = Ret fs →
   ∃ m', install m (encode hdr ++ name ++ extn) =
       Ret (m', reply (match ext_load fs path with Some _ => StatusOk | None => StatusInternalError end)) ∧
     m_store m' = m_store m ∧ m_fs m' = fs ∧ em_wf (m_extensions m') ∧
     ∀ t n, em_find (m_extensions m') t n =
       match ext_load fs path with
       | Some ext => if decide (t = tenant ∧ n = name) then Some ext else em_find (m_extensions m) t n
       | None => em_find (m_extensions m) t n
       end).
Proof.
  intros Hlen Hem Hh Hnl Hel Hrest Hutf tenant reply path.
  pose proof (len_nonneg name). pose proof (len_nonneg extn). pose proof (len_nonneg rest).
  pose proof (encode_length hdr Hh) as Henc.
  assert (in_width 32 (len name) ∧ in_width 32 (len extn)) as [Hn32 He32].
  { rewrite <- Hnl, <- Hel. unfold packed_ok in Hh. cbn in Hh. unfold req_layout, req_fields in Hh.
    by repeat match goal with H : Forall2 _ (_ :: _) _ |- _ => inversion_clear H end. }
  unfold in_width in Hn32, He32. change (size_of InstallRequest) with 22 in *.
  assert (∀ more, mem_read (encode hdr ++ more) 0 22 = Ret (encode hdr)) as Hread.
  { intros more. by apply (mem_read_app [] (encode hdr) more). }
  assert (∀ more, len (encode hdr ++ name ++ extn ++ more) = 22 + len name + len extn + len more) as Htot.
  { intros. rewrite !len_app. lia. }
  split_and!.
  - intros Hne. assert (0 < len rest) by (destruct rest; [done|unfold len; cbn; lia]).
    unfold install. change (size_of InstallRequest) with 22. rewrite Hread.
    cbn [mbind outcome_bind]. rewrite decode_encode, Hnl, Hel by done.
    rewrite !wadd_id by (unfold in_width; rewrite ?wadd_id; unfold in_width; lia).
    rewrite decide_True; [done|]. rewrite Htot. lia.
  - intros Hnone. unfold install. change (size_of InstallRequest) with 22. rewrite Hread.
    cbn [mbind outcome_bind]. rewrite decode_encode, Hnl, Hel by done.
    rewrite !wadd_id by (unfold in_width; rewrite ?wadd_id; unfold in_width; lia).
    rewrite decide_False by (rewrite !len_app; lia).
    rewrite get_tenant_of by done. cbn [mbind outcome_bind]. fold tenant. by rewrite Hnone.
  - intros tn fs Htn Hfs. unfold install. change (size_of InstallRequest) with 22. rewrite Hread.
    cbn [mbind outcome_bind]. rewrite decode_encode, Hnl, Hel by done.
    rewrite !wadd_id by (unfold in_width; rewrite ?wadd_id; unfold in_width; lia).
    rewrite decide_False by (rewrite !len_app; lia).
    rewrite get_tenant_of by done. cbn [mbind outcome_bind]. fold tenant. rewrite Htn.
    rewrite split_at_app by done. cbn [mbind outcome_bind].
    rewrite split_at_app by done. cbn [mbind outcome_bind].
    rewrite split_at_all. cbn [mbind outcome_bind]. rewrite Hutf. fold path. rewrite Hfs.
    cbn [mbind outcome_bind]. unfold em_load.
    destruct (ext_load fs path) as [ext|].
    + destruct (em_insert_find (m_extensions m) tenant name ext Hem) as (em' & -> & Hw & Hf).
      cbn [mbind outcome_bind]. eexists. by split_and!.
    + cbn [mbind outcome_bind]. eexists. by split_and!.
Qed.

Definition ex_install : InstallRequest := InstallRequest_new 7 1 2 94.

Lemma install_answers_witness :
  let reply := install_reply (InstallResponse_new 94 SandstormInstallRpc 7) in
  let path := TMP ++ [117] ++ DOT_SO in
  ([0] ≠ [] → @install any_loader ex_master (encode ex_install ++ [117] ++ [8; 9] ++ [0])
              = Ret (ex_master, reply StatusMalformedRequest)) ∧
  (tenant_of ex_store 7 = None → @install any_loader ex_master (encode ex_install ++ [117] ++ [8; 9])
              = Ret (ex_master, reply StatusTenantDoesNotExist)) ∧
  (∀ tn fs, tenant_of ex_store 7 = Some tn →
   @fs_write any_loader ∅ path [8; 9] = Ret fs →
   ∃ m', @install any_loader ex_master (encode ex_install ++ [117] ++ [8; 9]) =
       Ret (m', reply (match @ext_load any_loader fs path with
                       | Some _ => StatusOk | None => StatusInternalError end)) ∧
     m_store m' = ex_store ∧ m_fs m' = fs ∧ em_wf (m_extensions m') ∧
     ∀ t n, em_find (m_extensions m') t n =
       match @ext_load any_loader fs path with
       | Some ext => if decide (t = 7 ∧ n = [117]) then Some ext else em_find ex_em t n
       | None => em_find ex_em t n
       end).
Proof.
  apply (@install_answers any_loader ex_master ex_install [117] [8; 9] [0]).
  - reflexivity.
  - by vm_compute.
  - apply (bool_decide_eq_true_1 _). by vm_compute.
  - reflexivity.
  - reflexivity.
  - by vm_compute.
  - by vm_compute.
Defined.
