(* ===== verification/Sched.v ===== *)
(** * Sched: the round-robin scheduler

    Models db/src/sched.rs.  The scheduler is written against the interface
    [TaskOps], the [Task] trait; running a task may itself use the scheduler
    (the dispatch task enqueues work and takes responses).  [poll_iter] is one
    turn of the loop of [poll]; the build feature "pushback" is an argument,
    the statistics of the feature "execution" are left out.  The time-stamp
    and the credit are arguments. *)

From S2P Require Import Prelude Packed Headers Packet Wire Rpc Alloc Tx Table Store Handlers.
From S2P Require Import Bufs Context Task Master.

(** ** Data *)

Definition MAX_RX_PACKETS : Z := 32.

Record RoundRobin (T : Type) := mkRoundRobin {
  latest : Z;
  compromised : bool;
  thread : Z;
  core : Z;
  waiting : list T;
  responses : list (Packet IpHeader);
}.

Arguments mkRoundRobin {_} _ _ _ _ _ _.
Arguments latest {_} _.
Arguments compromised {_} _.
Arguments thread {_} _.
Arguments core {_} _.
Arguments waiting {_} _.
Arguments responses {_} _.

Section queue.
Context {T : Type}.
Implicit Types (rr : RoundRobin T).

Definition RoundRobin_new (rdtsc thread core : Z) : RoundRobin T :=
  mkRoundRobin rdtsc false thread core [] [].

Definition with_waiting rr (q : list T) : RoundRobin T :=
  mkRoundRobin (latest rr) (compromised rr) (thread rr) (core rr) q (responses rr).

Definition with_responses rr (rs : list (Packet IpHeader)) : RoundRobin T :=
  mkRoundRobin (latest rr) (compromised rr) (thread rr) (core rr) (waiting rr) rs.

Definition enqueue rr (task : T) : RoundRobin T := with_waiting rr (waiting rr ++ [task]).

Definition enqueue_many rr (tasks : list T) : RoundRobin T :=
  with_waiting rr (waiting rr ++ tasks).

Definition dequeue_all rr : list T * RoundRobin T := (waiting rr, with_waiting rr []).

Definition take_responses rr : list (Packet IpHeader) * RoundRobin T :=
  (responses rr, with_responses rr []).

Definition append_resps rr (resps : list (Packet IpHeader)) : RoundRobin T :=
  with_responses rr (responses rr ++ resps).

Definition set_compromised rr : RoundRobin T :=
  mkRoundRobin (latest rr) true (thread rr) (core rr) (waiting rr) (responses rr).

Definition set_latest rr (current : Z) : RoundRobin T :=
  mkRoundRobin current (compromised rr) (thread rr) (core rr) (waiting rr) (responses rr).
End queue.

(** ** The task interface *)

(** [W] is the rest of the server's state. *)
Class TaskOps (W T : Type) := {
  t_run : W → RoundRobin T → T → outcome (W * RoundRobin T * T * TaskState);
  t_tear : W → T → outcome (W * option Pkts);
  t_set_state : T → TaskState → T;
  t_state : T → TaskState;
  t_time : T → Z;
  t_db_time : T → Z;
  t_priority : T → TaskPriority;
}.

(** Running a task uses the scheduler only to add tasks at the back of the
    queue and to take or add responses. *)
Class TaskLaws (W T : Type) `{TaskOps W T} := {
  run_appends : ∀ w rr t w' rr' t' st, t_run w rr t = Ret (w', rr', t', st) →
    (∃ new, waiting rr' = waiting rr ++ new) ∧ compromised rr' = compromised rr;
}.

(** ** Poll *)

Inductive Control := Continue | Return.

Section poll.
Context {W T : Type} `{TaskOps W T} (pushback : bool) (credit : Z).

Definition time_trigger : Z := 2000 * credit.

(** Enqueueing the response of a task that was torn down.  Its request packet
    is freed, which has no effect on the state modelled here. *)
Definition respond (rr : RoundRobin T) (pkts : option Pkts) : outcome (RoundRobin T) :=
  match pkts with
  | None => Ret rr
  | Some (_, res) =>
      res ← fixup_header_length_fields res; Ret (with_responses rr (responses rr ++ [res]))
  end.

(** A yielded task that used more than its credit outside the database. *)
Definition over_credit (t : T) : bool :=
  bool_decide (t_state t = YIELDED) && (credit <? wsub 64 (t_time t) (t_db_time t)).

(** [for _i in 0..queue_length]: a task that is kept goes back to the front. *)
Fixpoint pushback_loop (n : nat) (w : W) (rr : RoundRobin T) : outcome (W * RoundRobin T) :=
  match n with
  | O => Ret (w, rr)
  | S n =>
      match waiting rr with
      | [] => Panic
      | t :: q =>
          if over_credit t then
            '(w, pkts) ← t_tear w (t_set_state t STOPPED);
            rr ← respond (with_waiting rr q) pkts;
            pushback_loop n w rr
          else pushback_loop n w (with_waiting rr (t :: q))
      end
  end.

Definition poll_iter (w : W) (rr : RoundRobin T) (previous current : Z) :
    outcome (W * RoundRobin T * Z * Control) :=
  let rr := set_latest rr current in
  if compromised rr then Ret (w, rr, previous, Return)
  else
    match waiting rr with
    | [] => Ret (w, rr, previous, Continue)
    | task :: q =>
        let rr := with_waiting rr q in
        let '(is_dispatcher, queue_length, difference, previous) :=
          match t_priority task with
          | DISPATCH => (true, len q, wsub 64 current previous, current)
          | REQUEST => (false, 0, 0, previous)
          end in
        '(w, rr, task, st) ← t_run w rr task;
        if decide (st = COMPLETED) then
          '(w, pkts) ← t_tear w task;
          rr ← respond rr pkts;
          Ret (w, rr, previous, Continue)
        else
          '(w, rr) ←
            (if pushback && (is_dispatcher : bool) &&
                ((MAX_RX_PACKETS / 8 <=? queue_length) || (time_trigger <? difference)) &&
                (0 <? wsub 64 (len (waiting rr)) queue_length)
             then pushback_loop (Z.to_nat queue_length) w rr
             else Ret (w, rr));
          Ret (w, with_waiting rr (waiting rr ++ [task]), previous, Continue)
    end.

(** Turns of [poll] at the given readings of the clock, none of which returns. *)
Fixpoint poll_turns (w : W) (rr : RoundRobin T) (previous : Z) (clock : list Z) :
    outcome (W * RoundRobin T * Z) :=
  match clock with
  | [] => Ret (w, rr, previous)
  | current :: clock =>
      '(w, rr, previous, ctl) ← poll_iter w rr previous current;
      match ctl with
      | Continue => poll_turns w rr previous clock
      | Return => Ret (w, rr, previous)
      end
  end.
End poll.

(** ** The order of the queue *)

Section order.
Context {W T : Type} `{TaskLaws W T} (credit : Z).
Implicit Types (w : W) (rr : RoundRobin T) (t : T).

(** Tearing down the tasks [ts] in order, each one's response enqueued. *)
Fixpoint push_back_all (ts : list T) (w : W) (rr : RoundRobin T) : outcome (W * RoundRobin T) :=
  match ts with
  | [] => Ret (w, rr)
  | t :: ts =>
      '(w, pkts) ← t_tear w (t_set_state t STOPPED);
      rr ← respond rr pkts;
      push_back_all ts w rr
  end.

(** The longest prefix of tasks that used more than their credit. *)
Fixpoint over_prefix (ts : list T) : nat :=
  match ts with
  | [] => O
  | t :: ts => if over_credit credit t then S (over_prefix ts) else O
  end.

Lemma respond_queue rr pkts rr' :
  respond rr pkts = Ret rr' → waiting rr' = waiting rr ∧ compromised rr' = compromised rr.
Proof.
  destruct pkts as [[req res]|]; cbn; [|by intros [= <-]].
  destruct (fixup_header_length_fields res); cbn; [|done..]. by intros [= <-].
Qed.

Lemma respond_with_waiting rr q pkts :
  respond (with_waiting rr q) pkts = rr' ← respond rr pkts; Ret (with_waiting rr' q).
Proof.
  destruct pkts as [[req res]|]; cbn; [|done].
  by destruct (fixup_header_length_fields res).
Qed.

Lemma with_waiting_idem rr q q' : with_waiting (with_waiting rr q) q' = with_waiting rr q'.
Proof. done. Qed.

Lemma with_waiting_eta rr : with_waiting rr (waiting rr) = rr.
Proof. by destruct rr. Qed.

(** Once the head of the queue is within its credit, the loop spins on it. *)
Lemma pushback_loop_spins n w rr t q :
  waiting rr = t :: q → over_credit credit t = false →
  pushback_loop credit n w rr = Ret (w, rr).
Proof.
  intros Hq Ht. induction n as [|n IH]; [done|]. cbn.
  rewrite Hq, Ht, <-Hq, with_waiting_eta. done.
Qed.

Lemma pushback_loop_prefix ys new w rr :
  pushback_loop credit (length ys) w (with_waiting rr (ys ++ new)) =
  '(w', rr') ← push_back_all (take (over_prefix ys) ys) w rr;
  Ret (w', with_waiting rr' (drop (over_prefix ys) ys ++ new)).
Proof.
  revert w rr. induction ys as [|t ys IH]; intros w rr; [done|].
  cbn [over_prefix]. destruct (over_credit credit t) eqn:Ht.
  - cbn. rewrite Ht. destruct (t_tear _ _) as [[w1 pkts]| |]; cbn; [|done..].
    rewrite with_waiting_idem, respond_with_waiting.
    destruct (respond rr pkts) as [rr1| |]; cbn; [|done..]. apply IH.
  - by apply (pushback_loop_spins _ _ _ t (ys ++ new)).
Qed.

Lemma push_back_all_queue ts w rr w' rr' :
  push_back_all ts w rr = Ret (w', rr') →
  waiting rr' = waiting rr ∧ compromised rr' = compromised rr.
Proof.
  revert w rr. induction ts as [|t ts IH]; intros w rr; cbn; [by intros [= _ <-]|].
  destruct (t_tear _ _) as [[w1 pkts]| |]; cbn; [|done..].
  destruct (respond rr pkts) as [rr1| |] eqn:Hr; cbn; [|done..].
  intros Ht. apply IH in Ht as [-> ->]. by eapply respond_queue.
Qed.

(** What a turn does to the queue: a prefix of it is gone (run, or pushed
    back), the rest keeps its order, and everything new is behind it. *)
Lemma poll_iter_order pushback w rr previous current w' rr' previous' ctl :
  compromised rr = false →
  poll_iter pushback credit w rr previous current = Ret (w', rr', previous', ctl) →
  ctl = Continue ∧ compromised rr' = false ∧
  ∃ k new, waiting rr' = drop k (waiting rr) ++ new ∧ (1 ≤ k)%nat ∧
    (pushback = false → k = 1%nat).
Proof.
  intros Hc. unfold poll_iter.
  change (compromised (set_latest rr current)) with (compromised rr). rewrite Hc.
  change (waiting (set_latest rr current)) with (waiting rr).
  destruct (waiting rr) as [|t q] eqn:Hq.
  { intros [= _ <- _ <-]. split_and!; [done..|]. exists 1%nat, []. cbn. by rewrite Hq. }
  destruct (match t_priority t with DISPATCH => _ | REQUEST => _ end)
    as [[[isd n] diff] prev] eqn:Hprio.
  destruct (t_run w _ t) as [[[[w1 rr1] t1] st]| |] eqn:Hrun; cbn [mbind outcome_bind]; [|done..].
  apply run_appends in Hrun as [[new Hnew] Hcomp]. cbn in Hnew, Hcomp.
  destruct (decide _) as [->|Hst].
  - destruct (t_tear w1 t1) as [[w2 pkts]| |]; cbn; [|done..].
    destruct (respond rr1 pkts) as [rr2| |] eqn:Hresp; cbn; [|done..].
    intros [= _ <- _ <-]. apply respond_queue in Hresp as [-> ->].
    split_and!; [done|congruence|]. exists 1%nat, new. by rewrite Hnew.
  - destruct (pushback && isd && _ && _) eqn:Hgo; cbn.
    + apply andb_prop in Hgo as [Hgo _]. apply andb_prop in Hgo as [Hgo _].
      apply andb_prop in Hgo as [-> ->].
      assert (Z.to_nat n = length q) as ->.
      { destruct (t_priority t); simplify_eq. unfold len. lia. }
      rewrite <-(with_waiting_eta rr1), Hnew, pushback_loop_prefix.
      destruct (push_back_all _ w1 _) as [[w2 rr2]| |] eqn:Hp; cbn; [|done..].
      intros [= _ <- _ <-]. apply push_back_all_queue in Hp as [_ Hc2].
      split_and!; [done|cbn; congruence|].
      exists (S (over_prefix q)), (new ++ [t1]). cbn. rewrite app_assoc. split_and!; [done|lia|done].
    + intros [= _ <- _ <-]. split_and!; [done|cbn; congruence|].
      exists 1%nat, (new ++ [t1]). cbn. by rewrite Hnew, <-app_assoc.
Qed.

Lemma poll_turns_order pushback w rr previous clock w' rr' previous' :
  compromised rr = false →
  poll_turns pushback credit w rr previous clock = Ret (w', rr', previous') →
  compromised rr' = false ∧
  ∃ k new, waiting rr' = drop k (waiting rr) ++ new ∧ (length clock ≤ k)%nat ∧
    (pushback = false → k = length clock).
Proof.
  revert w rr previous. induction clock as [|c clock IH]; intros w rr previous Hc; cbn.
  { intros [= _ <- _]. split; [done|]. exists O, []. by rewrite app_nil_r. }
  destruct (poll_iter _ _ w rr previous c) as [[[[w1 rr1] p1] ctl]| |] eqn:Hi; cbn; [|done..].
  apply poll_iter_order in Hi as (-> & Hc1 & k1 & new1 & Hq1 & Hk1 & Hf1); [|done].
  intros Ht. apply IH in Ht as (Hc' & k & new & Hq & Hk & Hf); [|done].
  split; [done|]. exists (k1 + k)%nat, (drop (k - length (drop k1 (waiting rr))) new1 ++ new).
  rewrite Hq, Hq1, drop_app, drop_drop, <-app_assoc. split_and!; [done|lia|].
  intros E. rewrite (Hf1 E), (Hf E). lia.
Qed.

(** The task at the head of the queue comes back from its run and, when it is
    completed, from its teardown, and its response can be sent. *)
Definition head_returns (w : W) (rr : RoundRobin T) : Prop :=
  match waiting rr with
  | [] => True
  | t :: q => ∃ w1 rr1 t1 st, t_run w (with_waiting rr q) t = Ret (w1, rr1, t1, st) ∧
      (st = COMPLETED → ∃ w2 pkts rr2, t_tear w1 t1 = Ret (w2, pkts) ∧ respond rr1 pkts = Ret rr2)
  end.

(** The tasks that these turns run come back. *)
Fixpoint tasks_return (w : W) (rr : RoundRobin T) (previous : Z) (clock : list Z) : Prop :=
  match clock with
  | [] => True
  | current :: clock =>
      head_returns w (set_latest rr current) ∧
      ∀ w' rr' previous', poll_iter false credit w rr previous current = Ret (w', rr', previous', Continue) →
        tasks_return w' rr' previous' clock
  end.

Lemma poll_iter_returns w rr previous current :
  head_returns w (set_latest rr current) → ∃ r, poll_iter false credit w rr previous current = Ret r.
Proof.
  unfold poll_iter, head_returns. intros Hh. destruct (compromised _); [by eexists|].
  destruct (waiting _) as [|t q]; [by eexists|].
  destruct (match t_priority t with DISPATCH => _ | REQUEST => _ end) as [[[isd n] diff] prev].
  destruct Hh as (w1 & rr1 & t1 & st & -> & Htear). cbn. destruct (decide _) as [Hst|]; [|by eexists].
  destruct (Htear Hst) as (w2 & pkts & rr2 & -> & Hr). cbn. rewrite Hr. by eexists.
Qed.

Lemma poll_turns_return w rr previous clock :
  tasks_return w rr previous clock → ∃ r, poll_turns false credit w rr previous clock = Ret r.
Proof.
  revert w rr previous. induction clock as [|c clock IH]; intros w rr previous; [by eexists|].
  cbn. intros [Hh Hn]. destruct (poll_iter_returns w rr previous c Hh) as [[[[w1 rr1] p1] ctl] E].
  rewrite E. cbn. destruct ctl; [by apply IH, Hn|by eexists].
Qed.

(** Tasks that always come back do. *)
Lemma always_return :
  (∀ w rr t, ∃ r, t_run w rr t = Ret r) →
  (∀ w rr t, ∃ w' pkts rr', t_tear w t = Ret (w', pkts) ∧ respond rr pkts = Ret rr') →
  ∀ w rr previous clock, tasks_return w rr previous clock.
Proof.
  intros Hrun Htear w rr previous clock. revert w rr previous.
  induction clock as [|c clock IH]; intros w rr previous; cbn; [done|]. split; [|by intros; apply IH].
  unfold head_returns. destruct (waiting _) as [|t q]; [done|].
  destruct (Hrun w (with_waiting (set_latest rr c) q) t) as [[[[w1 rr1] t1] st] E].
  exists w1, rr1, t1, st. split; [done|]. intros _. apply Htear.
Qed.

(** C18: No task waits for ever (db/src/sched.rs [poll], built without the
    feature "pushback", when the tasks that these turns run come back): on a
    scheduler that was not compromised, a task with [length pre] tasks in front of it is at
    the head of the queue after exactly [length pre] turns, whatever the tasks
    before it do and enqueue; those behind it keep their order and everything
    new is behind them. *)
Theorem every_task_is_scheduled w rr previous clock pre t post :
  tasks_return w rr previous clock → compromised rr = false →
  waiting rr = pre ++ t :: post → length clock = length pre →
  ∃ w' rr' previous' new,
    poll_turns false credit w rr previous clock = Ret (w', rr', previous') ∧
    waiting rr' = t :: post ++ new ∧ compromised rr' = false.
Proof.
  intros Hret Hc Hq Hlen.
  destruct (poll_turns_return w rr previous clock Hret) as [[[w' rr'] previous'] Ht].
  destruct (poll_turns_order _ _ _ _ _ _ _ _ Hc Ht) as (Hc' & k & new & Hq' & _ & Hk).
  exists w', rr', previous', new. split_and!; [done| |done].
  rewrite Hq', Hk, Hlen, Hq, drop_app_length by done. done.
Qed.

(** What pushback removes (db/src/sched.rs [poll], feature "pushback"):
    the dispatcher [d] yields with new tasks in the queue, behind the [ys] that
    were there before, and [ys] is long enough or the last dispatch long enough
    ago.  Exactly the longest prefix of over-credit tasks of [ys] is torn down,
    in order, their responses enqueued: the loop returns the first task that is
    within its credit to the front of the queue and meets it again on each of
    its remaining turns, so the over-credit tasks behind it are not looked at.
    The others, the new tasks and the dispatcher are kept in that order. *)
Theorem pushback_removes_prefix w rr previous current d ys w1 rr1 d' st new w2 rr2 :
  compromised rr = false → waiting rr = d :: ys → t_priority d = DISPATCH →
  t_run w (with_waiting (set_latest rr current) ys) d = Ret (w1, rr1, d', st) →
  st ≠ COMPLETED → waiting rr1 = ys ++ new → new ≠ [] → len (ys ++ new) < 2 ^ 64 →
  4 ≤ len ys ∨ time_trigger credit < wsub 64 current previous →
  push_back_all (take (over_prefix ys) ys) w1 rr1 = Ret (w2, rr2) →
  poll_iter true credit w rr previous current =
    Ret (w2, with_waiting rr2 (drop (over_prefix ys) ys ++ new ++ [d']), current, Continue).
Proof.
  intros Hc Hq Hd Hrun Hst Hq1 Hnew Hlen Htrig Hpush. unfold poll_iter.
  change (compromised (set_latest rr current)) with (compromised rr). rewrite Hc.
  change (waiting (set_latest rr current)) with (waiting rr). rewrite Hq, Hd, Hrun. cbn.
  rewrite decide_False by done.
  assert (wsub 64 (len (waiting rr1)) (len ys) = len new) as ->.
  { rewrite Hq1. unfold wsub, wrap, len in *. rewrite length_app in *.
    rewrite Z.mod_small; lia. }
  assert (((MAX_RX_PACKETS / 8 <=? len ys) || (time_trigger credit <? wsub 64 current previous))
    && (0 <? len new) = true) as ->.
  { apply andb_true_intro. split.
    - destruct Htrig; apply orb_true_iff; [left; apply Z.leb_le|right; by apply Z.ltb_lt]. done.
    - apply Z.ltb_lt. unfold len. destruct new; [done|]. cbn. lia. }
  unfold len. rewrite Nat2Z.id, <-(with_waiting_eta rr1), Hq1, pushback_loop_prefix, Hpush.
  cbn. by rewrite <-app_assoc.
Qed.
End order.

(** ** Concrete tasks *)

(** A dispatcher that enqueues one request a turn; requests that took a time
    and always yield. *)
Definition sample_task : Type := TaskPriority * TaskState * Z.

#[local] Instance sample_ops : TaskOps unit sample_task := {|
  t_run w rr t :=
    match t.1.1 with
    | DISPATCH => Ret (w, enqueue rr (REQUEST, INITIALIZED, 0), (DISPATCH, YIELDED, t.2), YIELDED)
    | REQUEST => Ret (w, rr, (REQUEST, YIELDED, t.2), YIELDED)
    end;
  t_tear w t := Ret (w, None);
  t_set_state t st := (t.1.1, st, t.2);
  t_state t := t.1.2;
  t_time t := t.2;
  t_db_time t := 0;
  t_priority t := t.1.1;
|}.

#[local] Instance sample_laws : TaskLaws unit sample_task.
Proof.
  split. intros w rr [[[|] s] z] w' rr' t' st; cbn; intros [= _ <- _ _]; (split; [|done]).
  - by eexists.
  - exists []. by rewrite app_nil_r.
Qed.

Lemma sample_tasks_return (w : unit) rr previous clock : tasks_return (W := unit) (T := sample_task) 10 w rr previous clock.
Proof.
  apply always_return.
  - intros w1 rr1 [[[|] s] z]; by eexists.
  - intros w1 rr1 t. by exists w1, None, rr1.
Qed.

Definition sample_request (time : Z) : sample_task := (REQUEST, YIELDED, time).
Definition sample_dispatch : sample_task := (DISPATCH, YIELDED, 0).

Definition sample_sched (q : list sample_task) : RoundRobin sample_task :=
  with_waiting (RoundRobin_new 0 0 0) q.

Lemma every_task_is_scheduled_witness :
  ∃ w' rr' previous' new,
    poll_turns false 10 tt (sample_sched
      [sample_dispatch; sample_request 1; sample_request 2; sample_request 3]) 0 [5; 6] =
      Ret (w', rr', previous') ∧
    waiting rr' = sample_request 2 :: [sample_request 3] ++ new ∧ compromised rr' = false.
Proof.
  apply (every_task_is_scheduled 10 tt _ 0 [5; 6] [sample_dispatch; sample_request 1]);
    [apply sample_tasks_return|reflexivity..].
Defined.

(** Of the tasks with times 30, 20, 1, 40 and credit 10, the last one is over
    its credit too, and stays. *)
Lemma pushback_removes_prefix_witness :
  ∃ rr', poll_iter true 10 tt (sample_sched (sample_dispatch ::
      [sample_request 30; sample_request 20; sample_request 1; sample_request 40])) 0 5 =
    Ret (tt, rr', 5, Continue) ∧
  waiting rr' = [sample_request 1; sample_request 40; (REQUEST, INITIALIZED, 0); sample_dispatch].
Proof.
  eexists. split.
  - apply (pushback_removes_prefix 10 tt _ 0 5 sample_dispatch
      [sample_request 30; sample_request 20; sample_request 1; sample_request 40]
      tt (with_waiting (set_latest (sample_sched []) 5)
            ([sample_request 30; sample_request 20; sample_request 1; sample_request 40] ++
             [(REQUEST, INITIALIZED, 0)]))
      sample_dispatch YIELDED [(REQUEST, INITIALIZED, 0)]);
      first [reflexivity|discriminate|left; vm_compute; discriminate].
  - reflexivity.
Defined.
