(* ===== verification/Dispatch.v ===== *)
(** * Dispatch: the request dispatcher, and the server as a whole

    Models db/src/dispatch.rs and ties the components together: the dispatch
    task receives frames from a network port, checks their headers, allocates
    a response packet for each and hands both to the master; what the master
    makes of them is enqueued on the scheduler.  [server_ops] is the [Task]
    interface of the scheduler for the three kinds of tasks a server runs.

    The network port, the sibling port it steals from, the native mbuf
    allocator (DPDK) and the time-stamp counter are the interface [Network].
    The build feature "dispatch" (statistics) and log messages are left out. *)

From S2P Require Import Prelude Bits Packed Headers Packet Wire Rpc Alloc Tx Table Store.
From S2P Require Import Handlers HandlerSpecs Bufs Context Ext Task Master Sched.

(** ** Constants (sandstorm/src/common.rs) *)

Definition PACKET_UDP_CHECKSUM : Z := 0.
Definition PACKET_IP_TTL : Z := 1.
Definition PACKET_IP_VER : Z := 4.
Definition PACKET_IP_IHL : Z := 5.
Definition PACKET_IP_LEN : Z := 20 + PACKET_UDP_LEN.
Definition PACKET_ETYPE : Z := 0x0800.
Definition IP_HDR_LEN : Z := 20.
Definition MAC_HDR_LEN : Z := 14.
Definition CLIENT_UDP_PORT : Z := 0.

Definition FAST_PATH : bool := false.

(** ** The outside of the server *)

Class Network := {
  Net : Type;
  (** [PacketRx::recv]: [None] is an error. *)
  net_recv : Z → Net → option (list MBuf) * Net;
  (** [recv] on the sibling's port *)
  net_steal : Z → Net → option (list MBuf) * Net;
  (** [PacketTx::send]: the number sent, or an error *)
  net_send : list MBuf → Net → option Z * Net;
  mbuf_alloc : Net → option MBuf * Net;
  mbuf_free : MBuf → Net → Net;
  rdtsc : Net → Z * Net;
}.

(** ** Data *)

Record Dispatch := mkDispatch {
  network_ip_addr : Z;
  max_rx_packets : Z;
  resp_udp_header : UdpHeader;
  resp_ip_header : IpHeader;
  resp_mac_header : MacHeader;
  responses_sent : Z;
  measurement_start : Z;
  measurement_stop : Z;
  d_state : TaskState;
  d_time : Z;
  d_priority : TaskPriority;
  d_id : Z;
}.

(** The addresses are the parsed ones of the configuration. *)
Definition Dispatch_new (udp_port ip_src_addr ip_dst_addr : Z) (mac_src_addr mac_dst_addr : MacAddress)
    (id rdtsc : Z) : Dispatch :=
  let rx_batch_size := 32 in
  let udp_header := set_src_port UdpHeader_new udp_port in
  let udp_header := set_dst_port udp_header CLIENT_UDP_PORT in
  let udp_header := set_udp_length udp_header PACKET_UDP_LEN in
  let udp_header := set_udp_checksum udp_header PACKET_UDP_CHECKSUM in
  let ip_header := set_ip_src IpHeader_new ip_src_addr in
  let ip_header := set_ip_dst ip_header ip_dst_addr in
  let ip_header := set_ttl ip_header PACKET_IP_TTL in
  let ip_header := set_version ip_header PACKET_IP_VER in
  let ip_header := set_ihl ip_header PACKET_IP_IHL in
  let ip_header := set_ip_length ip_header PACKET_IP_LEN in
  let ip_header := set_protocol ip_header 0x11 in
  let mac_header := mkMacHeader mac_dst_addr mac_src_addr (mac_etype MacHeader_new) in
  let mac_header := set_etype mac_header PACKET_ETYPE in
  mkDispatch ip_src_addr rx_batch_size udp_header ip_header mac_header 0 rdtsc 0
    INITIALIZED 0 DISPATCH id.

Definition with_headers (d : Dispatch) (ip : IpHeader) (mac : MacHeader) : Dispatch :=
  mkDispatch (network_ip_addr d) (max_rx_packets d) (resp_udp_header d) ip mac
    (responses_sent d) (measurement_start d) (measurement_stop d) (d_state d) (d_time d)
    (d_priority d) (d_id d).

Definition with_measurement (d : Dispatch) (sent start stop : Z) : Dispatch :=
  mkDispatch (network_ip_addr d) (max_rx_packets d) (resp_udp_header d) (resp_ip_header d)
    (resp_mac_header d) sent start stop (d_state d) (d_time d) (d_priority d) (d_id d).

Definition with_run (d : Dispatch) (st : TaskState) (time : Z) : Dispatch :=
  mkDispatch (network_ip_addr d) (max_rx_packets d) (resp_udp_header d) (resp_ip_header d)
    (resp_mac_header d) (responses_sent d) (measurement_start d) (measurement_stop d) st time
    (d_priority d) (d_id d).

(** ** Operations *)

(** The tasks of a server. *)
Inductive AnyTask (G : Type) :=
| ADispatch (d : Dispatch)
| AServer (t : ServerTask G).

Arguments ADispatch {_} _.
Arguments AServer {_} _.

Section net.
Context `{Network}.

(** The packets of a successful, non-empty [recv]. *)
Definition wrap_mbufs (r : option (list MBuf)) : option (list (Packet NullHeader)) :=
  match r with
  | Some ((_ :: _) as ms) =>
      Some ((λ m, packet_from_mbuf_no_increment NullHeader m 0) <$> ms)
  | _ => None
  end.

Definition try_receive_packets (d : Dispatch) (net : Net) :
    option (list (Packet NullHeader)) * Net :=
  let (r, net) := net_recv (max_rx_packets d) net in (wrap_mbufs r, net).

Definition try_steal_packets (d : Dispatch) (net : Net) :
    option (list (Packet NullHeader)) * Net :=
  let (r, net) := net_steal (max_rx_packets d) net in (wrap_mbufs r, net).

Definition try_send_packets (d : Dispatch) (packets : list (Packet IpHeader)) (net : Net) :
    Dispatch * Net :=
  let mbufs := mbuf <$> rev packets in
  let (r, net) := net_send mbufs net in
  let d := match r with
           | Some _ => with_measurement d (responses_sent d +u64 len mbufs)
                         (measurement_start d) (measurement_stop d)
           | None => d
           end in
  if 1000000 <=? responses_sent d then
    let (now, net) := rdtsc net in (with_measurement d 0 now now, net)
  else (d, net).

Definition free_packets {S} (packets : list (Packet S)) (net : Net) : Net :=
  foldl (λ net p, mbuf_free (mbuf p) net) net (rev packets).

(** [while let Some(packet) = packets.pop()]: parse the next header and sort
    the packet by the validity of that header. *)
Fixpoint parse_loop {T} (T2 : Type) `{EndOffset T} `{EndOffset T2} `{!Follows T2 T}
    (valid : T2 → bool) (pops : list (Packet T)) (parsed ignored : list (Packet T2)) :
    outcome (list (Packet T2) * list (Packet T2)) :=
  match pops with
  | [] => Ret (parsed, ignored)
  | packet :: pops =>
      packet ← parse_header T2 packet;
      hdr ← get_header packet;
      if valid hdr then parse_loop T2 valid pops (parsed ++ [packet]) ignored
      else parse_loop T2 valid pops parsed (ignored ++ [packet])
  end.

Definition parse_mac_headers (packets : list (Packet NullHeader)) (net : Net) :
    outcome (list (Packet MacHeader) * Net) :=
  '(parsed, ignored) ← parse_loop MacHeader (λ h, PACKET_ETYPE =? etype h) (rev packets) [] [];
  Ret (parsed, free_packets ignored net).

Definition valid_ip (addr : Z) (h : IpHeader) : bool :=
  (version h =? 4) && (0 <? ttl h) && (PACKET_IP_LEN + 2 <=? ip_length h) && (ip_dst h =? addr).

Definition parse_ip_headers (d : Dispatch) (packets : list (Packet MacHeader)) (net : Net) :
    outcome (list (Packet IpHeader) * Net) :=
  '(parsed, ignored) ← parse_loop IpHeader (valid_ip (network_ip_addr d)) (rev packets) [] [];
  Ret (parsed, free_packets ignored net).

Definition valid_udp (h : UdpHeader) : bool := PACKET_UDP_LEN + 2 <=? udp_length h.

Definition parse_udp_headers (packets : list (Packet IpHeader)) (net : Net) :
    outcome (list (Packet UdpHeader) * Net) :=
  '(parsed, ignored) ← parse_loop UdpHeader valid_udp (rev packets) [] [];
  Ret (parsed, free_packets ignored net).

(** The three parsers in a row, as [poll] calls them on a batch. *)
Definition parse_headers (d : Dispatch) (packets : list (Packet NullHeader)) (net : Net) :
    outcome (list (Packet UdpHeader) * Net) :=
  '(packets, net) ← parse_mac_headers packets net;
  '(packets, net) ← parse_ip_headers d packets net;
  parse_udp_headers packets net.
End net.

Section dispatch.
Context `{Network} `{BytesCrate} `{Loader} {G : Type} (ext_gen : Extension → Context → G).
Context (fast_path : bool).

(** The state of the loop of [dispatch_requests]. *)
Record Dispatching := mkDispatching {
  dg_master : Master;
  dg_dispatch : Dispatch;
  dg_sched : RoundRobin (AnyTask G);
  dg_net : Net;
  dg_ignore : list (Packet UdpHeader);
  dg_native : list (Packet IpHeader);
}.

Definition with_task (x : Dispatching) (t : ServerTask G) : Dispatching :=
  mkDispatching (dg_master x) (dg_dispatch x) (enqueue (dg_sched x) (AServer t)) (dg_net x)
    (dg_ignore x) (dg_native x).

Definition with_ignored (x : Dispatching) (req res : Packet UdpHeader) : Dispatching :=
  mkDispatching (dg_master x) (dg_dispatch x) (dg_sched x) (dg_net x)
    (dg_ignore x ++ [req; res]) (dg_native x).

(** The response headers address the client; the request is reparsed. *)
Definition address_response (d : Dispatch) (request : Packet UdpHeader) :
    outcome (Dispatch * Packet UdpHeader) :=
  let ip := deparse_header IpHeader request IP_HDR_LEN in
  h ← get_header ip;
  let resp_ip := set_ip_dst (set_ip_src (resp_ip_header d) (ip_dst h)) (ip_src h) in
  let mac := deparse_header MacHeader ip MAC_HDR_LEN in
  h ← get_header mac;
  let resp_mac := set_mac_dst (set_mac_src (resp_mac_header d) (mac_dst h)) (mac_src h) in
  ip ← parse_header IpHeader mac;
  request ← parse_header UdpHeader ip;
  Ret (with_headers d resp_ip resp_mac, request).

(** A response packet with MAC, IP and UDP headers, its ports those of the
    request swapped. *)
Definition new_response (d : Dispatch) (response : Packet NullHeader) (request : Packet UdpHeader) :
    outcome (Packet UdpHeader) :=
  response ← (push_header response (resp_mac_header d) ≫= expect);
  response ← (push_header response (resp_ip_header d) ≫= expect);
  response ← (push_header response (resp_udp_header d) ≫= expect);
  u ← get_header request;
  response ← modify_header response (λ h, set_src_port h (dst_port u));
  modify_header response (λ h, set_dst_port h (src_port u)).

(** A request with its response packet, by the opcode. *)
Definition route (x : Dispatching) (request response : Packet UdpHeader) : outcome Dispatching :=
  service ← parse_rpc_service request;
  if decide (service = MasterService) then
    opcode ← parse_rpc_opcode request;
    if negb fast_path then
      r ← dispatch ext_gen (dg_master x) opcode request response;
      Ret (match r with
           | Ok task => with_task x task
           | Err (req, res) => with_ignored x req res
           end)
    else
      match opcode with
      | SandstormInvokeRpc =>
          r ← dispatch_invoke ext_gen (dg_master x) request response;
          Ret (match r with
               | Ok k => with_task x (TContainer k)
               | Err (req, res) => with_ignored x req res
               end)
      | SandstormGetRpc | SandstormPutRpc | SandstormMultiGetRpc =>
          '(m, r) ← service_native (dg_master x) opcode request response;
          match r with
          | Ok (req, res) =>
              res ← fixup_header_length_fields res;
              Ret (mkDispatching m (dg_dispatch x) (dg_sched x) (mbuf_free (mbuf req) (dg_net x))
                     (dg_ignore x) (dg_native x ++ [res]))
          | Err (req, res) =>
              Ret (with_ignored (mkDispatching m (dg_dispatch x) (dg_sched x) (dg_net x)
                                   (dg_ignore x) (dg_native x)) req res)
          end
      | _ => Ret (with_ignored x request response)
      end
  else Ret (with_ignored x request response).

(** One iteration.  Without a response packet the request is dropped. *)
Definition dispatch_request (x : Dispatching) (request : Packet UdpHeader) : outcome Dispatching :=
  '(d, request) ← address_response (dg_dispatch x) request;
  let (r, net) := mbuf_alloc (dg_net x) in
  let x := mkDispatching (dg_master x) d (dg_sched x) net (dg_ignore x) (dg_native x) in
  match new_packet r with
  | Some response => response ← new_response d response request; route x request response
  | None => Ret x
  end.

(** The requests are popped off the vector. *)
Definition dispatch_requests (m : Master) (d : Dispatch) (rr : RoundRobin (AnyTask G)) (net : Net)
    (requests : list (Packet UdpHeader)) :
    outcome (Master * Dispatch * RoundRobin (AnyTask G) * Net) :=
  x ← ofold dispatch_request (mkDispatching m d rr net [] []) (rev requests);
  Ret (dg_master x, dg_dispatch x, append_resps (dg_sched x) (dg_native x),
       free_packets (dg_ignore x) (dg_net x)).

(** Send the pending responses, then receive from the port, or else steal from
    the sibling; the number of valid packets is the result. *)
Definition poll (m : Master) (d : Dispatch) (rr : RoundRobin (AnyTask G)) (net : Net) :
    outcome (Master * Dispatch * RoundRobin (AnyTask G) * Net * Z) :=
  let (responses, rr) := take_responses rr in
  let (d, net) := match responses with
                  | [] => (d, net)
                  | _ => try_send_packets d responses net
                  end in
  let (packets, net) := try_receive_packets d net in
  match packets with
  | Some packets =>
      '(packets, net) ← parse_headers d packets net;
      r ← dispatch_requests m d rr net packets;
      Ret (r, len packets)
  | None =>
      let (stolen, net) := try_steal_packets d net in
      match stolen with
      | Some stolen =>
          '(stolen, net) ← parse_headers d stolen net;
          r ← dispatch_requests m d rr net stolen;
          Ret (r, len stolen)
      | None => Ret (m, d, rr, net, 0)
      end
  end.

(** [Task::run] of the dispatcher. *)
Definition dispatch_run (m : Master) (d : Dispatch) (rr : RoundRobin (AnyTask G)) (net : Net) :
    outcome (Master * Dispatch * RoundRobin (AnyTask G) * Net * TaskState) :=
  let (start, net) := rdtsc net in
  let d := with_run d RUNNING (d_time d) in
  '(m, d, rr, net, _) ← poll m d rr net;
  let d := with_run d YIELDED (d_time d) in
  let (now, net) := rdtsc net in
  let exec := now -u64 start in
  Ret (m, with_run d (d_state d) (d_time d +u64 exec), rr, net, d_state d).

(** [Drop]: the pending responses are sent. *)
Definition dispatch_drop (d : Dispatch) (rr : RoundRobin (AnyTask G)) (net : Net) :
    RoundRobin (AnyTask G) * Net :=
  let (responses, rr) := take_responses rr in
  match responses with
  | [] => (rr, net)
  | _ => (rr, (try_send_packets d responses net).2)
  end.
End dispatch.

(** ** The tasks of a server *)

Section server.
Context `{Network} `{BytesCrate} `{Loader} {G : Type}.
Context (ext_gen : Extension → Context → G) (resume : Store → Context → G → ExtStep G).

(** The clock is read at the start and at the end of a run and, when the task
    needs the time, in between. *)
Definition server_task_run (s : Store) (net : Net) (t : ServerTask G) :
    Store * outcome (Net * ServerTask G * TaskState) :=
  let (start, net) := rdtsc net in
  let (now, net) := rdtsc net in
  let (stop, net) := rdtsc net in
  match t with
  | TNative n =>
      let (s, r) := native_run (resume_handler now) s n start stop in
      (s, '(n, (st, _)) ← r; Ret (net, TNative n, st))
  | TContainer k =>
      let '(s, k, (st, _)) := container_run resume s k start stop in
      (s, Ret (net, TContainer k, st))
  end.

Definition server_run (w : Master * Net) (rr : RoundRobin (AnyTask G)) (t : AnyTask G) :
    outcome (Master * Net * RoundRobin (AnyTask G) * AnyTask G * TaskState) :=
  match t with
  | ADispatch d =>
      '(m, d, rr, net, st) ← dispatch_run ext_gen FAST_PATH w.1 d rr w.2;
      Ret (m, net, rr, ADispatch d, st)
  | AServer t =>
      let (s, r) := server_task_run (m_store w.1) w.2 t in
      '(net, t, st) ← r; Ret (with_store w.1 s, net, rr, AServer t, st)
  end.

Definition server_tear (w : Master * Net) (t : AnyTask G) :
    outcome (Master * Net * option Pkts) :=
  match t with
  | ADispatch _ => Ret (w, None)
  | AServer (TNative n) => Ret (w, (native_tear n).2)
  | AServer (TContainer k) =>
      let (now, net) := rdtsc w.2 in
      let (s, r) := container_tear (m_store w.1) k now in
      '(_, pkts) ← r; Ret (with_store w.1 s, net, Some pkts)
  end.

Definition server_set_state (t : AnyTask G) (st : TaskState) : AnyTask G :=
  match t with
  | ADispatch d => ADispatch (with_run d st (d_time d))
  | AServer (TNative n) => AServer (TNative (native_set_state n st))
  | AServer (TContainer k) => AServer (TContainer (container_set_state k st))
  end.

#[export] Instance server_ops : TaskOps (Master * Net) (AnyTask G) := {|
  t_run := server_run;
  t_tear := server_tear;
  t_set_state := server_set_state;
  t_state t := match t with
               | ADispatch d => d_state d
               | AServer (TNative n) => n_state n
               | AServer (TContainer k) => c_state k
               end;
  t_time t := match t with
              | ADispatch d => d_time d
              | AServer (TNative n) => n_time n
              | AServer (TContainer k) => c_time k
              end;
  t_db_time t := match t with
                 | ADispatch _ => 0
                 | AServer (TNative n) => n_db_time n
                 | AServer (TContainer k) => c_db_time k
                 end;
  t_priority t := match t with
                  | ADispatch d => d_priority d
                  | AServer (TNative n) => n_priority n
                  | AServer (TContainer k) => c_priority k
                  end;
|}.

(** *** The scheduler's interface is met *)

(** What a batch of requests does to the queue: it grows at the back. *)
Definition grows (rr rr' : RoundRobin (AnyTask G)) : Prop :=
  (∃ new, waiting rr' = waiting rr ++ new) ∧ compromised rr' = compromised rr.

#[local] Instance grows_preorder : PreOrder grows.
Proof.
  split.
  - intros rr. split; [|done]. exists []. by rewrite app_nil_r.
  - intros r1 r2 r3 [[n1 H1'] C1] [[n2 H2'] C2]. split; [|congruence].
    exists (n1 ++ n2). by rewrite H2', H1', app_assoc.
Qed.

Lemma grows_enqueue rr t : grows rr (enqueue rr t).
Proof. split; [by eexists|done]. Qed.

Lemma grows_responses rr rs : grows rr (with_responses rr rs).
Proof. split; [|done]. exists []. by rewrite app_nil_r. Qed.

Lemma route_grows fast x req res x' :
  route ext_gen fast x req res = Ret x' → grows (dg_sched x) (dg_sched x').
Proof.
  unfold route. intros Hr. destruct (parse_rpc_service req); cbn in Hr; [|done..].
  case_decide; [|injection Hr as <-; cbn; reflexivity].
  destruct (parse_rpc_opcode req) as [op| |]; cbn in Hr; [|done..].
  destruct fast; cbn in Hr.
  - unfold mbind, outcome_bind in Hr.
    repeat match type of Hr with context [match ?m with _ => _ end] => destruct m end;
      simplify_eq; first [reflexivity|apply grows_enqueue].
  - destruct (dispatch _ _ _ _ _) as [[t|[q1 q2]]| |]; cbn in Hr; simplify_eq; cbn;
      first [reflexivity|apply grows_enqueue].
Qed.

Lemma dispatch_request_grows fast x req x' :
  dispatch_request ext_gen fast x req = Ret x' → grows (dg_sched x) (dg_sched x').
Proof.
  unfold dispatch_request. destruct (address_response _ _) as [[d q]| |]; cbn; [|done..].
  destruct (mbuf_alloc _) as [r net]. destruct (new_packet r) as [p|]; [|by intros [= <-]].
  destruct (new_response _ _ _) as [res| |]; cbn; [|done..]. intros Hr.
  apply route_grows in Hr. done.
Qed.

Lemma dispatch_requests_grows fast m d rr net reqs m' d' rr' net' :
  dispatch_requests ext_gen fast m d rr net reqs = Ret (m', d', rr', net') → grows rr rr'.
Proof.
  unfold dispatch_requests.
  assert (∀ l x x', ofold (dispatch_request ext_gen fast) x l = Ret x' →
    grows (dg_sched x) (dg_sched x')) as Hl.
  { induction l as [|a l IH]; intros x x'; cbn; [intros [= <-]; reflexivity|].
    destruct (dispatch_request _ _ x a) as [x1| |] eqn:E; cbn; [|done..].
    intros Hx. etrans; [by eapply dispatch_request_grows|by apply IH]. }
  destruct (ofold _ _ _) as [x| |] eqn:E; cbn; [|done..]. intros [= _ _ <- _].
  apply Hl in E. etrans; [exact E|apply grows_responses].
Qed.

Lemma dispatch_run_grows fast m d rr net m' d' rr' net' st :
  dispatch_run ext_gen fast m d rr net = Ret (m', d', rr', net', st) → grows rr rr'.
Proof.
  unfold dispatch_run, poll. destruct (rdtsc net) as [t0 net0]. cbn [take_responses].
  set (rr0 := with_responses rr []). assert (grows rr rr0) as Hg by apply grows_responses.
  destruct (match responses rr with [] => _ | _ => _ end) as [d0 net1].
  destruct (try_receive_packets d0 net1) as [[ps|] net2].
  - destruct (parse_headers d0 ps net2) as [[qs net3]| |]; cbn; [|done..].
    destruct (dispatch_requests _ _ m d0 rr0 net3 qs) as [[[[m1 d1] rr1] net4]| |] eqn:E; cbn; [|done..].
    destruct (rdtsc net4). intros [= _ _ <- _ _]. etrans; [done|by eapply dispatch_requests_grows].
  - destruct (try_steal_packets d0 net2) as [[ps|] net3].
    + destruct (parse_headers d0 ps net3) as [[qs net4]| |]; cbn; [|done..].
      destruct (dispatch_requests _ _ m d0 rr0 net4 qs) as [[[[m1 d1] rr1] net5]| |] eqn:E; cbn; [|done..].
      destruct (rdtsc net5). intros [= _ _ <- _ _]. etrans; [done|by eapply dispatch_requests_grows].
    + cbn. destruct (rdtsc net3). intros [= _ _ <- _ _]. done.
Qed.

#[export] Instance server_laws : TaskLaws (Master * Net) (AnyTask G).
Proof.
  split. intros [m net] rr [d|t] w' rr' t' st; cbn.
  - destruct (dispatch_run _ _ m d rr net) as [[[[[m1 d1] rr1] net1] st1]| |] eqn:E; cbn; [|done..].
    intros [= _ <- _ _]. by eapply dispatch_run_grows.
  - destruct (server_task_run (m_store m) net t) as [s [[[net1 t1] st1]| |]]; cbn; [|done..].
    intros [= _ <- _ _]. change (grows rr rr). reflexivity.
Qed.
End server.
