(* ===== verification/DispatchSpecs.v ===== *)
(** * DispatchSpecs: what the dispatcher does with the frames it receives

    The dispatcher of [Dispatch] at the level of Ethernet frames: which frames
    of a batch it accepts and in which order it serves them, and what the
    master is handed for one of them. *)

From S2P Require Import Prelude Bits Packed Headers Packet Wire Rpc Alloc Tx Table Store.
From S2P Require Import Handlers HandlerSpecs Bufs Context Ext Task Master Sched Dispatch.

(** ** Frames *)

(** A frame in the mbuf it was received in, with the mbuf's unused room. *)
Record Frame := mkFrame {
  f_mbuf : MBuf;
  f_mac : MacHeader;
  f_ip : IpHeader;
  f_udp : UdpHeader;
  f_payload : bytes;
  f_room : bytes;
  f_tail : bytes;
}.

(** The mbuf holds an Ethernet, an IPv4 and a UDP header (no VLAN tag, no IP
    options), whatever their fields say, and then the payload. *)
Record frame_ok (f : Frame) : Prop := {
  frame_rep : pkt_rep (packet_from_mbuf_no_increment NullHeader (f_mbuf f) 0) (f_room f) []
    mkNullHeader (encode (f_mac f) ++ encode (f_ip f) ++ encode (f_udp f) ++ f_payload f) (f_tail f);
  frame_headers : plain_headers (f_mac f) (f_ip f) (f_udp f);
}.

(** What the dispatcher serves: IPv4 with hops left, addressed to the server,
    whose IP and UDP lengths leave room for a service and an opcode byte. *)
Definition accepts (d : Dispatch) (f : Frame) : bool :=
  bool_decide (etype (f_mac f) = 0x0800 ∧ version (f_ip f) = 4 ∧ 0 < ttl (f_ip f) ∧
    20 + 8 + 2 ≤ ip_length (f_ip f) ∧ ip_dst (f_ip f) = network_ip_addr d ∧
    8 + 2 ≤ udp_length (f_udp f)).

Lemma accepts_checks d f :
  accepts d f =
  (PACKET_ETYPE =? etype (f_mac f)) && (valid_ip (network_ip_addr d) (f_ip f) && valid_udp (f_udp f)).
Proof.
  unfold accepts, valid_ip, valid_udp, PACKET_ETYPE, PACKET_IP_LEN, PACKET_UDP_LEN.
  apply eq_true_iff_eq.
  rewrite bool_decide_eq_true, !andb_true_iff, !Z.eqb_eq, Z.ltb_lt, !Z.leb_le. lia.
Qed.

(** The frame's mbuf as a packet whose header is [o] bytes in. *)
Definition packet_at (T : Type) (o : Z) (f : Frame) : Packet T :=
  create_packet (f_mbuf f) (data_off (f_mbuf f) + o) o.

Lemma parse_at {T T2} `{EndOffset T} `{!PackedLaws T} `{EndOffset T2} `{!PackedLaws T2}
    `{!Follows T2 T} f o room pre (h : T) (h2 : T2) pl tail :
  pkt_rep (packet_at T o f) room pre h (encode h2 ++ pl) tail → packed_ok h2 →
  offset h2 = size_of T2 → hsize T2 = size_of T2 →
  parse_header T2 (packet_at T o f) = Ret (packet_at T2 (o + size_of T) f) ∧
  pkt_rep (packet_at T2 (o + size_of T) f) room (pre ++ encode h) h2 pl tail.
Proof.
  intros Hp Hk Ho Hs. destruct (rep_parse_header _ _ _ _ h2 _ _ Hp Hk Ho Hs) as (q & Hq & Hrep).
  assert (q = packet_at T2 (o + size_of T) f) as ->; [|done].
  pose proof (rep_pkt_offset _ _ _ _ _ _ Hrep) as E1. pose proof (rep_header _ _ _ _ _ _ Hrep) as E2.
  pose proof (rep_pkt_offset _ _ _ _ _ _ Hp) as E3. pose proof (rep_data_off _ _ _ _ _ _ Hp) as E4.
  cbn in E3, E4. rewrite len_app, (encode_length h) in E1, E2 by apply Hp.
  revert Hq. unfold parse_header.
  destruct (pkt_payload_size _); cbn; [|done..]. destruct (assert_ _); cbn; [|done..].
  destruct (payload _); cbn; [|done..]. destruct (payload_offset _); cbn; [|done..].
  intros [= <-]. cbn in E1, E2. unfold packet_at. cbn. f_equal; lia.
Qed.

(** The three views of a frame on the way up. *)
Lemma frame_views f :
  frame_ok f →
  (parse_header MacHeader (packet_at NullHeader 0 f) = Ret (packet_at MacHeader 0 f) ∧
   pkt_rep (packet_at MacHeader 0 f) (f_room f) [] (f_mac f)
     (encode (f_ip f) ++ encode (f_udp f) ++ f_payload f) (f_tail f)) ∧
  (parse_header IpHeader (packet_at MacHeader 0 f) = Ret (packet_at IpHeader 14 f) ∧
   pkt_rep (packet_at IpHeader 14 f) (f_room f) (encode (f_mac f)) (f_ip f)
     (encode (f_udp f) ++ f_payload f) (f_tail f)) ∧
  (parse_header UdpHeader (packet_at IpHeader 14 f) = Ret (packet_at UdpHeader 34 f) ∧
   pkt_rep (packet_at UdpHeader 34 f) (f_room f) (encode (f_mac f) ++ encode (f_ip f)) (f_udp f)
     (f_payload f) (f_tail f)).
Proof.
  intros [Hrep [Hmac Hmo Hip Hihl Hudp]].
  assert (packet_from_mbuf_no_increment NullHeader (f_mbuf f) 0 = packet_at NullHeader 0 f) as E by done.
  rewrite E in Hrep.
  destruct (parse_at (T2 := MacHeader) _ _ _ _ _ _ _ _ Hrep Hmac Hmo eq_refl) as [P1 R1].
  assert (offset (f_ip f) = size_of IpHeader) as Hio by (cbn; unfold IpHeader_offset; by rewrite Hihl).
  destruct (parse_at (T2 := IpHeader) _ _ _ _ _ _ _ _ R1 Hip Hio eq_refl) as [P2 R2].
  destruct (parse_at (T2 := UdpHeader) _ _ _ _ _ _ _ _ R2 Hudp (offset_size _) hsize_size) as [P3 R3].
  by split_and!.
Qed.

(** ** The filter *)

Lemma parse_loop_filter {T T2} `{EndOffset T} `{EndOffset T2} `{!Follows T2 T}
    (valid : T2 → bool) (hdr : Frame → T2) o o2 fs parsed ignored :
  Forall (λ f, parse_header T2 (packet_at T o f) = Ret (packet_at T2 o2 f) ∧
               get_header (packet_at T2 o2 f) = Ret (hdr f)) fs →
  parse_loop T2 valid (packet_at T o <$> fs) parsed ignored =
  Ret (parsed ++ (packet_at T2 o2 <$> List.filter (λ f, valid (hdr f)) fs),
       ignored ++ (packet_at T2 o2 <$> List.filter (λ f, negb (valid (hdr f))) fs)).
Proof.
  intros Hfs. revert parsed ignored. induction Hfs as [|f fs [Hp Hh] _ IH]; intros parsed ignored.
  { cbn. by rewrite !app_nil_r. }
  cbn. rewrite Hp. cbn. rewrite Hh. cbn.
  destruct (valid (hdr f)); cbn; rewrite IH, <-(assoc_L (++)); done.
Qed.

Lemma free_packets_at `{Network} {T} o fs net :
  free_packets (packet_at T o <$> fs) net =
  foldl (λ net m, mbuf_free m net) net (f_mbuf <$> rev fs).
Proof.
  unfold free_packets, fmap, list_fmap. rewrite <-(map_rev (packet_at T o)).
  generalize (rev fs). clear fs. intros fs. revert net. induction fs; intros net; cbn; auto.
Qed.

Lemma fmap_rev {A B} (f : A → B) l : f <$> rev l = rev (f <$> l).
Proof. apply map_rev. Qed.

(** Sorting out in three steps is sorting out at once. *)
Lemma filter3_rejected {A} (p q r : A → bool) l :
  List.filter (λ x, negb (p x)) l ++
  rev (List.filter (λ x, negb (q x)) (List.filter p l)) ++
  List.filter (λ x, negb (r x)) (List.filter q (List.filter p l)) ≡ₚ
  List.filter (λ x, negb (p x && (q x && r x))) l.
Proof.
  induction l as [|x l IH]; [done|]. cbn.
  destruct (p x); cbn; [|by apply perm_skip]. destruct (q x); cbn.
  - destruct (r x); cbn; [done|]. etrans; [|apply perm_skip, IH].
    by rewrite !(assoc_L (++)), <-Permutation_middle.
  - etrans; [|apply perm_skip, IH].
    rewrite <-(assoc_L (++) (rev _)). cbn. by rewrite !(assoc_L (++)), <-Permutation_middle.
Qed.

Lemma filter3_accepted {A} (p q r : A → bool) l :
  List.filter r (List.filter q (List.filter p l)) = List.filter (λ x, p x && (q x && r x)) l.
Proof.
  induction l as [|x l IH]; [done|]. cbn.
  destruct (p x); cbn; [|done]. destruct (q x); cbn; [|done]. destruct (r x); by rewrite IH.
Qed.

Section filter.
Context `{Network} (d : Dispatch).

Definition etype_ok (f : Frame) : bool := PACKET_ETYPE =? etype (f_mac f).
Definition ip_ok (f : Frame) : bool := valid_ip (network_ip_addr d) (f_ip f).
Definition udp_ok (f : Frame) : bool := valid_udp (f_udp f).

(** The frames that go, in the order they are freed. *)
Definition rejected (fs : list Frame) : list Frame :=
  List.filter (λ f, negb (etype_ok f)) fs ++
  rev (List.filter (λ f, negb (ip_ok f)) (List.filter etype_ok fs)) ++
  List.filter (λ f, negb (udp_ok f)) (List.filter ip_ok (List.filter etype_ok fs)).

Lemma rejected_permutation fs :
  rejected fs ≡ₚ List.filter (λ f, negb (accepts d f)) fs.
Proof.
  unfold rejected. rewrite filter3_rejected. apply reflexive_eq, filter_ext.
  intros f. by rewrite accepts_checks.
Qed.

Lemma Forall_filter (P : Frame → Prop) p fs : Forall P fs → Forall P (List.filter p fs).
Proof. induction 1 as [|f fs Hf _ IH]; cbn; [constructor|]. destruct (p f); auto. Qed.

Lemma filter_rev' (p : Frame → bool) fs : List.filter p (rev fs) = rev (List.filter p fs).
Proof. by rewrite List.filter_rev. Qed.

(** The batch goes in as received, and comes out reversed. *)
Lemma parse_headers_filter fs net :
  Forall frame_ok fs →
  parse_headers d (packet_at NullHeader 0 <$> fs) net =
  Ret (packet_at UdpHeader 34 <$> rev (List.filter (accepts d) fs),
       foldl (λ net m, mbuf_free m net) net (f_mbuf <$> rejected fs)).
Proof.
  intros Hfs. unfold parse_headers, parse_mac_headers, parse_ip_headers, parse_udp_headers.
  rewrite <-fmap_rev.
  rewrite (parse_loop_filter _ f_mac 0 0).
  2: { apply Forall_rev. eapply Forall_impl; [exact Hfs|]. intros f Hf.
       destruct (frame_views f Hf) as ((Hp & Hr) & _). split; [done|by eapply rep_get_header]. }
  cbn [mbind outcome_bind]. rewrite !app_nil_l, !filter_rev', free_packets_at, rev_involutive.
  rewrite <-fmap_rev, rev_involutive.
  set (fs1 := List.filter (λ f, PACKET_ETYPE =? etype (f_mac f)) fs).
  assert (Forall frame_ok fs1) as Hfs1 by by apply Forall_filter.
  rewrite (parse_loop_filter _ f_ip 0 14).
  2: { eapply Forall_impl; [exact Hfs1|]. intros f Hf.
       destruct (frame_views f Hf) as (_ & (Hp & Hr) & _). split; [done|by eapply rep_get_header]. }
  cbn [mbind outcome_bind]. rewrite !app_nil_l, free_packets_at.
  set (fs2 := List.filter (λ f, valid_ip (network_ip_addr d) (f_ip f)) fs1).
  assert (Forall frame_ok fs2) as Hfs2 by by apply Forall_filter.
  rewrite <-fmap_rev.
  rewrite (parse_loop_filter _ f_udp 14 34).
  2: { apply Forall_rev. eapply Forall_impl; [exact Hfs2|]. intros f Hf.
       destruct (frame_views f Hf) as (_ & _ & Hp & Hr). split; [done|by eapply rep_get_header]. }
  cbn [mbind outcome_bind]. rewrite !app_nil_l, !filter_rev', free_packets_at, rev_involutive.
  subst fs2 fs1. unfold rejected. rewrite !fmap_app, !foldl_app.
  do 3 f_equal. rewrite filter3_accepted. f_equal.
  apply filter_ext. intros f. by rewrite accepts_checks.
Qed.
End filter.

(** ** One request *)

(** The response headers for a frame: the cached ones, with the frame's
    addresses and ports swapped. *)
Definition reply_mac (d : Dispatch) (f : Frame) : MacHeader :=
  mkMacHeader (mac_src (f_mac f)) (mac_dst (f_mac f)) (mac_etype (resp_mac_header d)).

Definition reply_ip (d : Dispatch) (f : Frame) : IpHeader :=
  mkIpHeader (version_to_len (resp_ip_header d)) (id_to_foffset (resp_ip_header d))
    (ttl_to_csum (resp_ip_header d)) (dst_ip (f_ip f)) (src_ip (f_ip f)).

Definition reply_udp (d : Dispatch) (f : Frame) : UdpHeader :=
  mkUdpHeader (udp_dst_port (f_udp f)) (udp_src_port (f_udp f))
    (udp_len (resp_udp_header d)) (udp_csum (resp_udp_header d)).

Lemma reply_ip_swap d f :
  packed_ok (f_ip f) →
  set_ip_dst (set_ip_src (resp_ip_header d) (ip_dst (f_ip f))) (ip_src (f_ip f)) = reply_ip d f.
Proof.
  intros Hk. unfold set_ip_dst, set_ip_src, ip_dst, ip_src, reply_ip. cbn.
  unfold packed_ok in Hk. cbn in Hk.
  repeat match goal with H : Forall2 _ (_ :: _) _ |- _ => inversion_clear H end.
  by rewrite !bswap32_involutive.
Qed.

Lemma reply_plain d f :
  plain_headers (resp_mac_header d) (resp_ip_header d) (resp_udp_header d) → frame_ok f →
  plain_headers (reply_mac d f) (reply_ip d f) (reply_udp d f).
Proof.
  intros [Hm Hmo Hi Hihl Hu] [_ [Fm _ Fi _ Fu]].
  destruct d as [? ? [] [] [[] [] ?] ? ? ? ? ? ? ?], f as [? [[] [] ?] [] [] ? ? ?].
  unfold packed_ok in *. cbn -[in_width] in *.
  repeat match goal with H : Forall2 _ (_ :: _) _ |- _ => inversion_clear H end.
  split; try done; unfold packed_ok; cbn -[in_width];
    repeat (constructor; [assumption|]); constructor.
Qed.

Lemma address_response_frame d f :
  frame_ok f →
  address_response d (packet_at UdpHeader 34 f) =
  Ret (with_headers d (reply_ip d f) (reply_mac d f), packet_at UdpHeader 34 f).
Proof.
  intros Hf. destruct (frame_views f Hf) as ((_ & R1) & (P2 & R2) & (P3 & R3)).
  pose proof (rep_data_len _ _ _ _ _ _ R3) as Hl. pose proof (rep_fits _ _ _ _ _ _ R3) as Hc.
  unfold address_response.
  assert (deparse_header IpHeader (packet_at UdpHeader 34 f) IP_HDR_LEN = packet_at IpHeader 14 f) as ->.
  { unfold deparse_header, packet_at, IP_HDR_LEN. cbn. f_equal. lia. }
  rewrite (rep_get_header _ _ _ _ _ _ R2). cbn [mbind outcome_bind].
  assert (deparse_header MacHeader (packet_at IpHeader 14 f) MAC_HDR_LEN = packet_at MacHeader 0 f) as ->.
  { unfold deparse_header, packet_at, MAC_HDR_LEN. cbn. f_equal. lia. }
  rewrite (rep_get_header _ _ _ _ _ _ R1). cbn [mbind outcome_bind].
  rewrite P2. cbn [mbind outcome_bind]. rewrite P3. cbn [mbind outcome_bind].
  by rewrite reply_ip_swap by apply Hf.
Qed.

Lemma new_response_rep d b room tail f :
  fresh_mbuf b room tail → 42 ≤ len tail → frame_ok f →
  plain_headers (reply_mac d f) (reply_ip d f) (reply_udp d f) →
  packed_ok (resp_udp_header d) →
  ∃ res, new_response (with_headers d (reply_ip d f) (reply_mac d f))
      (packet_from_mbuf_no_increment NullHeader b 0) (packet_at UdpHeader 34 f) = Ret res ∧
    pkt_rep res room (encode (reply_mac d f) ++ encode (reply_ip d f)) (reply_udp d f) []
      (drop 42 tail).
Proof.
  intros Hb Hl Hf [Hmac Hmo Hip Hihl Hudp] Hu.
  destruct (frame_views f Hf) as (_ & _ & (_ & R3)).
  destruct (new_packet_rep _ _ _ Hb) as (p0 & [= <-] & H0). unfold new_response.
  cbn [resp_mac_header resp_ip_header resp_udp_header with_headers].
  destruct (rep_push_header (T2:=MacHeader) _ _ _ _ (reply_mac d f) _ H0) as (p1 & -> & H1);
    [done..|change (size_of MacHeader) with 14; lia|].
  cbn [expect mbind outcome_bind]. change (Z.to_nat (size_of MacHeader)) with 14%nat in H1.
  assert (offset (reply_ip d f) = size_of IpHeader) as Hio.
  { cbn. unfold IpHeader_offset. by rewrite Hihl. }
  destruct (rep_push_header (T2:=IpHeader) _ _ _ _ (reply_ip d f) _ H1) as (p2 & -> & H2); [done..| |].
  { change (size_of IpHeader) with 20. unfold len in *. rewrite length_drop. lia. }
  cbn [expect mbind outcome_bind]. change (Z.to_nat (size_of IpHeader)) with 20%nat in H2.
  destruct (rep_push_header (T2:=UdpHeader) _ _ _ _ (resp_udp_header d) _ H2) as (p3 & -> & H3);
    [done|apply offset_size| |].
  { change (size_of UdpHeader) with 8. unfold len in *. rewrite !length_drop. lia. }
  cbn [expect mbind outcome_bind]. change (Z.to_nat (size_of UdpHeader)) with 8%nat in H3.
  rewrite !drop_drop in H3. rewrite (rep_get_header _ _ _ _ _ _ R3). cbn [mbind outcome_bind].
  assert (in_width 16 (udp_dst_port (f_udp f)) ∧ in_width 16 (udp_src_port (f_udp f))) as [Hd Hs].
  { destruct Hf as [_ [_ _ _ _ Fu]]. unfold packed_ok in Fu. cbn -[in_width] in Fu.
    by repeat match goal with H : Forall2 _ (_ :: _) _ |- _ => inversion_clear H end. }
  destruct (rep_modify_header _ _ _ _ (λ h, set_src_port h (dst_port (f_udp f))) _ _ H3)
    as (p4 & -> & H4); [apply set_port_ok; [done|by apply bswap16_width]|done|].
  cbn [mbind outcome_bind].
  destruct (rep_modify_header _ _ _ _ (λ h, set_dst_port h (src_port (f_udp f))) _ _ H4)
    as (p5 & -> & H5); [apply set_port_ok; [apply set_port_ok; [done|]|]; by apply bswap16_width|done|].
  exists p5. split; [done|].
  assert (set_dst_port (set_src_port (resp_udp_header d) (dst_port (f_udp f)))
            (src_port (f_udp f)) = reply_udp d f) as <-; [|exact H5].
  unfold set_dst_port, set_src_port, dst_port, src_port, reply_udp. cbn.
  by rewrite !bswap16_involutive.
Qed.

(** ** Properties *)

Section served.
Context `{Network} `{BytesCrate} `{Loader} {G : Type} (ext_gen : Extension → Context → G).
Implicit Types (x : Dispatching (G := G)).

(** The dispatcher's state after the headers and the response packet of a
    request were seen to. *)
Definition addressed x (f : Frame) (net : Net) : Dispatching (G := G) :=
  mkDispatching (dg_master x) (with_headers (dg_dispatch x) (reply_ip (dg_dispatch x) f)
    (reply_mac (dg_dispatch x) f)) (dg_sched x) net (dg_ignore x) (dg_native x).

Lemma dispatch_request_frame x f r op b room tail net :
  frame_ok f → f_payload f = Service_u8 MasterService :: OpCode_u8 op :: r → op ≠ InvalidOperation →
  plain_headers (resp_mac_header (dg_dispatch x)) (resp_ip_header (dg_dispatch x))
    (resp_udp_header (dg_dispatch x)) →
  mbuf_alloc (dg_net x) = (Some b, net) → fresh_mbuf b room tail → 42 ≤ len tail →
  ∃ res,
    pkt_rep res room (encode (reply_mac (dg_dispatch x) f) ++ encode (reply_ip (dg_dispatch x) f))
      (reply_udp (dg_dispatch x) f) [] (drop 42 tail) ∧
    carries (packet_at UdpHeader 34 f) (f_payload f) (len (f_tail f)) ∧
    carries res [] (len tail - 42) ∧
    dispatch_request ext_gen false x (packet_at UdpHeader 34 f) =
    (r ← dispatch ext_gen (dg_master x) op (packet_at UdpHeader 34 f) res;
     Ret (match r with
          | Ok task => with_task (addressed x f net) task
          | Err (req', res') => with_ignored (addressed x f net) req' res'
          end)).
Proof.
  intros Hf Hpl Hop Hplain Halloc Hb Hl.
  destruct (frame_views f Hf) as (_ & _ & (_ & R3)).
  destruct (new_response_rep (dg_dispatch x) b room tail f Hb Hl Hf
    (reply_plain _ _ Hplain Hf) (plain_udp _ _ _ Hplain)) as (res & Hnew & Hres).
  exists res. split_and!; [done|by eexists _, _, _, _|eexists _, _, _, _; split; [done|]|].
  { unfold len in *. rewrite length_drop. lia. }
  unfold dispatch_request. rewrite address_response_frame by done. cbn [mbind outcome_bind].
  rewrite Halloc. cbn [new_packet]. rewrite Hnew. cbn [mbind outcome_bind]. unfold route.
  destruct (parse_opcode_bytes (packet_at UdpHeader 34 f) (f_payload f) op
    (rep_get_payload _ _ _ _ _ _ R3)) as [-> ->]; [by rewrite Hpl..|done|].
  cbn [mbind outcome_bind]. rewrite decide_True by done. done.
Qed.

(** C12: the dispatcher serves the valid frames of a batch, in the order they
    arrived, and frees the others (db/src/dispatch.rs [poll] and the three
    header parsers, which each reverse the batch).  For a batch of frames with
    plain headers, received when no responses are pending, a poll runs
    [dispatch_request] once on every frame whose ethertype, IP version, TTL,
    length, destination address and UDP length are the expected ones, first
    come first served; the mbufs of all others, and only these, are freed
    first; the result is the number of frames served.  The comments of the
    source promise other things in two places: that a frame for another UDP
    port than the server's is dropped, but the port is not looked at and such
    a frame is served; and that the result is the number of packets received,
    but those that were freed are not counted. *)
Theorem poll_serves_batch fast m d rr net net1 fs :
  responses rr = [] → fs ≠ [] → Forall frame_ok fs →
  net_recv (max_rx_packets d) net = (Some (f_mbuf <$> fs), net1) →
  ∃ freed, freed ≡ₚ f_mbuf <$> List.filter (λ f, negb (accepts d f)) fs ∧
  let served := List.filter (accepts d) fs in
  poll ext_gen fast m d rr net =
  (x ← ofold (dispatch_request ext_gen fast)
         (mkDispatching m d rr (foldl (λ net b, mbuf_free b net) net1 freed) [] [])
         (packet_at UdpHeader 34 <$> served);
   Ret (dg_master x, dg_dispatch x, append_resps (dg_sched x) (dg_native x),
        free_packets (dg_ignore x) (dg_net x), len served)).
Proof.
  intros Hrr Hne Hfs Hrecv. exists (f_mbuf <$> rejected d fs).
  split; [by rewrite rejected_permutation|]. intros served.
  unfold poll, take_responses. rewrite Hrr. unfold try_receive_packets. rewrite Hrecv.
  assert (wrap_mbufs (Some (f_mbuf <$> fs)) = Some (packet_at NullHeader 0 <$> fs)) as ->.
  { destruct fs as [|f fs]; [done|]. cbn. do 2 f_equal. by rewrite <-list_fmap_compose. }
  rewrite parse_headers_filter by done. cbn [mbind outcome_bind].
  assert (with_responses rr [] = rr) as -> by (unfold with_responses; rewrite <-Hrr; by destruct rr).
  unfold dispatch_requests. rewrite fmap_rev, rev_involutive.
  assert (len (rev (packet_at UdpHeader 34 <$> served)) = len served) as Hl.
  { unfold len. by rewrite length_rev, length_fmap. }
  unfold served in Hl. rewrite Hl. unfold served.
  destruct (ofold _ _ _) as [x| |]; done.
Qed.

(** the response to a frame goes back to its sender
    (db/src/dispatch.rs [dispatch_requests]).  For an accepted frame whose
    payload asks the master for a known opcode, when a response packet can be
    allocated, [Master::dispatch] is called once, with the frame as it was
    received and an empty response whose MAC, IP and UDP headers are the
    server's with the frame's source and destination addresses and ports
    swapped; its task is enqueued behind all others, and when it is refused
    both packets are put aside to be freed. *)
Theorem response_returns_to_sender x f r op b room tail net :
  frame_ok f → f_payload f = Service_u8 MasterService :: OpCode_u8 op :: r → op ≠ InvalidOperation →
  plain_headers (resp_mac_header (dg_dispatch x)) (resp_ip_header (dg_dispatch x))
    (resp_udp_header (dg_dispatch x)) →
  mbuf_alloc (dg_net x) = (Some b, net) → fresh_mbuf b room tail → 42 ≤ len tail →
  ∃ res mac ip udp,
    pkt_rep res room (encode mac ++ encode ip) udp [] (drop 42 tail) ∧
    mac_src mac = mac_dst (f_mac f) ∧ mac_dst mac = mac_src (f_mac f) ∧
    ip_src ip = ip_dst (f_ip f) ∧ ip_dst ip = ip_src (f_ip f) ∧
    src_port udp = dst_port (f_udp f) ∧ dst_port udp = src_port (f_udp f) ∧
    etype mac = etype (resp_mac_header (dg_dispatch x)) ∧
    (∀ fld, fld ≠ FSrc → fld ≠ FDst → ip_get fld ip = ip_get fld (resp_ip_header (dg_dispatch x))) ∧
    dispatch_request ext_gen false x (packet_at UdpHeader 34 f) =
    (r ← dispatch ext_gen (dg_master x) op (packet_at UdpHeader 34 f) res;
     Ret (match r with
          | Ok task => with_task (addressed x f net) task
          | Err (req', res') => with_ignored (addressed x f net) req' res'
          end)).
Proof.
  intros Hf Hpl Hop Hplain Halloc Hb Hl.
  destruct (dispatch_request_frame x f r op b room tail net Hf Hpl Hop Hplain Halloc Hb Hl)
    as (res & Hres & _ & _ & Hd).
  exists res, (reply_mac (dg_dispatch x) f), (reply_ip (dg_dispatch x) f), (reply_udp (dg_dispatch x) f).
  split_and!; try done. by intros [].
Qed.

(** C5: a get on the wire is answered with the object, or panics on an empty
    one.  A frame that carries a client's get request is turned into one task
    at the back of the queue.  When the scheduler runs it, on any well-formed
    store in which the tenant has the same tables, it completes in one run
    without touching the store, and tearing it down gives the response that
    [get_reply] specifies for the object's state at that time: the object, or
    the status that explains its absence.  The one exception is an object
    whose value is empty (a transaction may commit one) and whose version and
    key fit the response: the append of the value indexes an empty slice, and
    the run panics. *)
Theorem get_served_end_to_end x f tenant table key id g s' b room tail net :
  let hdr := GetRequest_new tenant table (len key) id g in
  frame_ok f → f_payload f = cr_wire (CGet tenant table key id g) →
  cr_ok (CGet tenant table key id g) →
  plain_headers (resp_mac_header (dg_dispatch x)) (resp_ip_header (dg_dispatch x))
    (resp_udp_header (dg_dispatch x)) →
  mbuf_alloc (dg_net x) = (Some b, net) → fresh_mbuf b room tail →
  42 + size_of GetResponse ≤ len tail →
  store_wf (m_store (dg_master x)) → store_wf s' →
  tenant_of s' tenant = tenant_of (m_store (dg_master x)) tenant →
  let found := get_found s' hdr key in
  let space := len tail - 42 - size_of GetResponse in
  let r := get_reply found space in
  ∃ n, dispatch_request ext_gen false x (packet_at UdpHeader 34 f) =
         Ret (with_task (addressed x f net) (TNative n)) ∧
    (¬ get_panics found space → ∀ now start stop, ∃ n' n'' req' res',
      native_run (resume_handler now) s' n start stop =
        (s', Ret (n', (COMPLETED, stop -u64 start))) ∧
      native_tear n' = (n'', Some (req', res')) ∧
      carries req' (f_payload f) (len (f_tail f)) ∧
      carries res' (encode (get_response hdr r.1 r.2.1) ++ r.2.1) r.2.2) ∧
    (get_panics found space → ∀ now start stop,
      native_run (resume_handler now) s' n start stop = (s', Panic)).
Proof.
  intros hdr Hf Hpl Hcr Hplain Halloc Hb Hl Hs Hs' Hsame found space r.
  pose proof Hcr as (Hne & _ & Ht & Htb & Hid & Hk).
  assert (packed_ok hdr) as Hh.
  { pose proof (len_nonneg key). subst hdr. destruct g; packed_fields. }
  assert (f_payload f = Service_u8 MasterService :: OpCode_u8 SandstormGetRpc ::
            drop 2 (f_payload f)) as Hpl2.
  { rewrite Hpl. done. }
  pose proof (size_of_nonneg (T:=GetResponse)).
  destruct (dispatch_request_frame x f _ SandstormGetRpc b room tail net Hf Hpl2
    ltac:(done) Hplain Halloc Hb ltac:(lia)) as (res & _ & Hreq & Hres & ->).
  rewrite Hpl in Hreq. unfold cr_wire, cr_header, cr_data in Hreq. fold hdr in Hreq.
  rewrite <-(app_nil_r key) in Hreq.
  destruct (get_task_carries (m_store (dg_master x)) s' hdr key [] Hs Hs' Hh eq_refl Hne Hsame
    (packet_at UdpHeader 34 f) res (len tail - 42) (len (f_tail f)) Hreq Hres ltac:(lia))
    as (gen & Hgen & Hans & Hpan).
  exists (Native_new REQUEST gen). split; [cbn [dispatch]; by rewrite Hgen|].
  unfold native_run, resume_handler. cbn [n_state n_gen Native_new].
  change (runnable INITIALIZED) with true. cbn match. split.
  - intros Hok now start stop. destruct (Hans Hok now) as (req' & res' & -> & Hq & Ha). cbn.
    eexists _, _, req', res'. split; [done|]. split; [done|]. rewrite app_nil_r in Hq.
    rewrite Hpl. done.
  - intros Hp now start stop. by rewrite (Hpan Hp now).
Qed.
End served.

(** ** Concrete frames *)

(** A network that has received one batch, hands out fresh mbufs and remembers
    what it is given back. *)
Definition test_net : Network := {|
  Net := list MBuf * list MBuf;
  net_recv _ n := (Some n.1, ([], n.2));
  net_steal _ n := (None, n);
  net_send ms n := (Some (len ms), n);
  mbuf_alloc n := (Some ex_mbuf, n);
  mbuf_free m n := (n.1, m :: n.2);
  rdtsc n := (0, n);
|}.

Definition ex_frame (ip : IpHeader) (udp : UdpHeader) (payload : bytes) : Frame :=
  mkFrame (mkMBuf 16 1 (42 + len payload) (42 + len payload)
             (ex_room ++ encode ex_mac ++ encode ip ++ encode udp ++ payload ++ ex_tail))
    ex_mac ip udp payload ex_room ex_tail.

Definition ex_wire : bytes := cr_wire ex_request.

(** A get request, and the same with the TTL used up. *)
Definition ex_get_frame : Frame :=
  ex_frame (set_ip_length ex_ip (28 + len ex_wire)) (set_udp_length ex_udp (8 + len ex_wire)) ex_wire.

Definition ex_dead_frame : Frame :=
  ex_frame (set_ttl (set_ip_length ex_ip 60) 0) (set_udp_length ex_udp 40) [].

Definition ex_dispatch : Dispatch :=
  Dispatch_new 5 0x0a000002 0x0a000001 (mkMacAddress 2 0 0 0 0 1) (mkMacAddress 2 0 0 0 0 2) 0 0.

Lemma ex_get_frame_ok : frame_ok ex_get_frame.
Proof.
  split; split; first [reflexivity|solve [constructor]|apply (bool_decide_eq_true_1 _); by vm_compute].
Qed.

Lemma ex_dead_frame_ok : frame_ok ex_dead_frame.
Proof.
  split; split; first [reflexivity|solve [constructor]|apply (bool_decide_eq_true_1 _); by vm_compute].
Qed.

Lemma ex_dispatch_plain :
  plain_headers (resp_mac_header ex_dispatch) (resp_ip_header ex_dispatch)
    (resp_udp_header ex_dispatch).
Proof. split; try reflexivity; apply (bool_decide_eq_true_1 _); by vm_compute. Qed.

Example ex_accepts : accepts ex_dispatch ex_get_frame = true ∧ accepts ex_dispatch ex_dead_frame = false.
Proof. by vm_compute. Qed.

Lemma poll_serves_batch_witness :
  ∃ freed, freed ≡ₚ f_mbuf <$> List.filter (λ f, negb (accepts ex_dispatch f))
                       [ex_dead_frame; ex_get_frame] ∧
  let served := List.filter (accepts ex_dispatch) [ex_dead_frame; ex_get_frame] in
  @poll test_net exact_bytes any_loader unit unit_gen false ex_master ex_dispatch
    (RoundRobin_new 0 0 0) (f_mbuf <$> [ex_dead_frame; ex_get_frame], []) =
  (x ← ofold (@dispatch_request test_net exact_bytes any_loader unit unit_gen false)
         (@mkDispatching test_net any_loader unit ex_master ex_dispatch (RoundRobin_new 0 0 0)
            (foldl (λ net b, @mbuf_free test_net b net) ([], []) freed) [] [])
         (packet_at UdpHeader 34 <$> served);
   Ret (dg_master x, dg_dispatch x, append_resps (dg_sched x) (dg_native x),
        @free_packets test_net _ (dg_ignore x) (dg_net x), len served)).
Proof.
  apply (@poll_serves_batch test_net exact_bytes any_loader unit unit_gen false ex_master ex_dispatch
    (RoundRobin_new 0 0 0) (f_mbuf <$> [ex_dead_frame; ex_get_frame], []) ([], [])).
  - reflexivity.
  - discriminate.
  - exact (Forall_cons_2 _ _ _ ex_dead_frame_ok (Forall_cons_2 _ _ _ ex_get_frame_ok (Forall_nil_2 _))).
  - reflexivity.
Defined.

Definition ex_dispatching : @Dispatching test_net any_loader unit :=
  @mkDispatching test_net any_loader unit ex_master ex_dispatch (RoundRobin_new 0 0 0) ([], []) [] [].

Lemma response_returns_to_sender_witness :
  ∃ res mac ip udp,
    pkt_rep res ex_room (encode mac ++ encode ip) udp [] (drop 42 ex_tail) ∧
    mac_src mac = mac_dst ex_mac ∧ mac_dst mac = mac_src ex_mac ∧
    ip_src ip = 0x0a000002 ∧ ip_dst ip = 0x0a000001 ∧
    src_port udp = dst_port ex_udp ∧ dst_port udp = 1234 ∧
    etype mac = 0x0800 ∧
    (∀ fld, fld ≠ FSrc → fld ≠ FDst → ip_get fld ip = ip_get fld (resp_ip_header ex_dispatch)) ∧
    @dispatch_request test_net exact_bytes any_loader unit unit_gen false ex_dispatching
      (packet_at UdpHeader 34 ex_get_frame) =
    (r ← @dispatch any_loader unit unit_gen ex_master SandstormGetRpc
           (packet_at UdpHeader 34 ex_get_frame) res;
     Ret (match r with
          | Ok task => with_task (addressed ex_dispatching ex_get_frame ([], [])) task
          | Err (req', res') => with_ignored (addressed ex_dispatching ex_get_frame ([], [])) req' res'
          end)).
Proof.
  apply (@response_returns_to_sender test_net exact_bytes any_loader unit unit_gen ex_dispatching
    ex_get_frame (drop 2 ex_wire) SandstormGetRpc ex_mbuf ex_room ex_tail ([], [])).
  - apply ex_get_frame_ok.
  - reflexivity.
  - discriminate.
  - apply ex_dispatch_plain.
  - reflexivity.
  - apply ex_fresh.
  - vm_compute. discriminate.
Defined.

(** The store of the examples with an empty value for the same key. *)
Definition ex_hollow_tbl : Table :=
  match table_put Table_default [1; 2; 3] (obj_layout 7 3 [1; 2; 3] []) with
  | Ret (t, _) => t | _ => Table_default end.

Definition ex_hollow_store : Store := mkStore [ex_hollow_tbl] (tenants ex_store).

Lemma ex_hollow_tbl_ok : table_ok ex_hollow_tbl.
Proof.
  destruct (table_put_ok Table_default 7 3 [1; 2; 3] []) as (t' & r & He & Hok & _);
    try (apply default_ok || done); try (apply (bool_decide_eq_true_1 _); by vm_compute).
  unfold ex_hollow_tbl. by rewrite He.
Qed.

Lemma ex_hollow_store_wf : store_wf ex_hollow_store.
Proof.
  destruct (insert_fresh_wf Store_new 7 3 ex_hollow_tbl Store_new_wf ex_hollow_tbl_ok (Store_new_tenant 7))
    as (s' & He & Hs & _).
  assert (ex_hollow_store = s') as ->; [|done].
  change (ret_or Store_new
    (insert_tenant (mkStore [ex_hollow_tbl] (tenants Store_new)) (create_table Store_new (Tenant_new 7) 3).2)
    = s').
  change [ex_hollow_tbl] with (heap Store_new ++ [ex_hollow_tbl]). by rewrite He.
Qed.

Lemma ex_hollow_panics space :
  space = 200 - 42 - size_of GetResponse → get_panics (get_found ex_hollow_store ex_get [1; 2; 3]) space.
Proof. intros ->. split; by vm_compute. Qed.

(** The object is answered; were its value empty, the task would panic. *)
Lemma get_served_end_to_end_witness :
  let r := get_reply (get_found ex_store ex_get [1; 2; 3]) (200 - 42 - size_of GetResponse) in
  let served n := @dispatch_request test_net exact_bytes any_loader unit unit_gen false ex_dispatching
         (packet_at UdpHeader 34 ex_get_frame) =
         Ret (with_task (addressed ex_dispatching ex_get_frame ([], [])) (TNative n)) in
  (∃ n, served n ∧
    ∀ now start stop, ∃ n' n'' req' res',
      native_run (@resume_handler exact_bytes now) ex_store n start stop =
        (ex_store, Ret (n', (COMPLETED, stop -u64 start))) ∧
      native_tear n' = (n'', Some (req', res')) ∧
      carries req' ex_wire 200 ∧
      carries res' (encode (get_response ex_get r.1 r.2.1) ++ r.2.1) r.2.2) ∧
  (∃ n, served n ∧
    ∀ now start stop,
      native_run (@resume_handler exact_bytes now) ex_hollow_store n start stop =
        (ex_hollow_store, Panic)).
Proof.
  split.
  - destruct (@get_served_end_to_end test_net exact_bytes any_loader unit unit_gen ex_dispatching
      ex_get_frame 7 3 [1; 2; 3] 99 SandstormClient ex_store ex_mbuf ex_room ex_tail ([], []))
      as (n & Hn & Ha & _).
    + apply ex_get_frame_ok.
    + reflexivity.
    + apply ex_request_ok.
    + apply ex_dispatch_plain.
    + reflexivity.
    + apply ex_fresh.
    + vm_compute. discriminate.
    + apply ex_store_wf.
    + apply ex_store_wf.
    + reflexivity.
    + exists n. split; [exact Hn|]. apply Ha, found_ok_reads, ex_found_ok.
  - destruct (@get_served_end_to_end test_net exact_bytes any_loader unit unit_gen ex_dispatching
      ex_get_frame 7 3 [1; 2; 3] 99 SandstormClient ex_hollow_store ex_mbuf ex_room ex_tail ([], []))
      as (n & Hn & _ & Hp).
    + apply ex_get_frame_ok.
    + reflexivity.
    + apply ex_request_ok.
    + apply ex_dispatch_plain.
    + reflexivity.
    + apply ex_fresh.
    + vm_compute. discriminate.
    + apply ex_store_wf.
    + apply ex_hollow_store_wf.
    + reflexivity.
    + exists n. split; [exact Hn|]. apply Hp, ex_hollow_panics. reflexivity.
Defined.
