(* ===== verification/Proxy.v ===== *)
(** * Proxy: the database as a pushed-back extension sees it on the client

    Models splinter/src/proxy.rs and the [Sender] and [Receiver] of
    splinter/src/dispatch.rs.
    A pushed-back extension runs at the client against [ProxyDB]: reads are
    served from the read set, or requested from the server and awaited; every
    record read or written is kept in the payload of the commit request that
    ends the transaction.  The port, the mbuf pool and the clock are
    [Network]; the machine-learning model of an extension and the build feature
    "checksum" are left out. *)

From S2P Require Import Prelude Packed Headers Packet Wire Rpc Alloc Tx Bufs Context Dispatch.

(** ** Sender *)

Record Sender := mkSender {
  req_udp_header : UdpHeader;
  req_ip_header : IpHeader;
  req_mac_header : MacHeader;
  requests_sent : Z;
  dst_ports : Z;
}.

(** [txq] is the transmit queue of the port; the addresses are the parsed ones
    of the configuration. *)
Definition Sender_new (txq ip_src_addr ip_dst_addr : Z) (mac_src_addr mac_dst_addr : MacAddress)
    (dst_ports : Z) : Sender :=
  let udp_header := set_src_port UdpHeader_new (wrap 16 txq) in
  let udp_header := set_dst_port udp_header 0 in
  let udp_header := set_udp_length udp_header 8 in
  let udp_header := set_udp_checksum udp_header 0 in
  let ip_header := set_ip_src IpHeader_new ip_src_addr in
  let ip_header := set_ip_dst ip_header ip_dst_addr in
  let ip_header := set_ttl ip_header 128 in
  let ip_header := set_version ip_header 4 in
  let ip_header := set_ihl ip_header 5 in
  let ip_header := set_ip_length ip_header 20 in
  let ip_header := set_protocol ip_header 0x11 in
  let mac_header := mkMacHeader mac_dst_addr mac_src_addr (mac_etype MacHeader_new) in
  let mac_header := set_etype mac_header 0x0800 in
  mkSender udp_header ip_header mac_header 0 dst_ports.

Definition get_dst_port (s : Sender) (tenant : Z) : Z :=
  Z.land (wrap 16 (Z.land tenant 0xffff)) (wsub 16 (dst_ports s) 1).

Section sender.
Context `{Network}.

(** The sender and what it sends through. *)
Definition Link : Type := Sender * Net.

(** An error of the port panics; a packet that is not sent is only logged. *)
Definition send_req (w : Link) (request : Packet IpHeader) : outcome Link :=
  let (sent, net) := net_send [mbuf request] w.2 in
  _ ← expect sent;
  let s := w.1 in
  Ret (mkSender (req_udp_header s) (req_ip_header s) (req_mac_header s)
         (wadd 64 (requests_sent s) 1) (dst_ports s), net).

(** Build a request from a fresh mbuf and send it. *)
Definition with_request (w : Link)
    (create : option MBuf → MacHeader → IpHeader → UdpHeader → outcome (Packet IpHeader)) :
    outcome Link :=
  let (alloc, net) := mbuf_alloc w.2 in
  request ← create alloc (req_mac_header w.1) (req_ip_header w.1) (req_udp_header w.1);
  send_req (w.1, net) request.

Definition send_get (w : Link) (tenant table : Z) (key : bytes) (id : Z) : outcome Link :=
  with_request w (λ a mac ip udp,
    create_get_rpc a mac ip udp tenant table key id (get_dst_port w.1 tenant) SandstormClient).

Definition send_get_from_extension (w : Link) (tenant table : Z) (key : bytes) (id : Z) :
    outcome Link :=
  with_request w (λ a mac ip udp,
    create_get_rpc a mac ip udp tenant table key id (get_dst_port w.1 tenant) SandstormExtension).

Definition send_put (w : Link) (tenant table : Z) (key val : bytes) (id : Z) : outcome Link :=
  with_request w (λ a mac ip udp,
    create_put_rpc a mac ip udp tenant table key val id (get_dst_port w.1 tenant)).

Definition send_multiget (w : Link) (tenant table k_len n_keys : Z) (keys : bytes) (id : Z) :
    outcome Link :=
  with_request w (λ a mac ip udp,
    create_multiget_rpc a mac ip udp tenant table k_len n_keys keys id (get_dst_port w.1 tenant)).

Definition send_invoke (w : Link) (tenant name_len : Z) (payload : bytes) (id : Z) : outcome Link :=
  with_request w (λ a mac ip udp,
    create_invoke_rpc a mac ip udp tenant name_len payload id (get_dst_port w.1 tenant)).

Definition send_commit (w : Link) (tenant table_id : Z) (payload : bytes) (id key_len val_len : Z) :
    outcome Link :=
  with_request w (λ a mac ip udp,
    create_commit_rpc a mac ip udp tenant table_id payload id (get_dst_port w.1 tenant)
      key_len val_len).
End sender.

(** ** Receiver *)

Record Receiver := mkReceiver {
  recv_max_rx_packets : Z;
  responses_recv : Z;
}.

Definition Receiver_new : Receiver := mkReceiver 32 0.

(** All packets of a burst, parsed up to UDP without any check; the counter
    counts bursts. *)
Definition recv_res `{Network} (r : Receiver) (net : Net) :
    outcome (Receiver * Net * option (list (Packet UdpHeader))) :=
  let (mbufs, net) := net_recv (recv_max_rx_packets r) net in
  mbufs ← expect mbufs;
  match mbufs with
  | [] => Ret (r, net, None)
  | _ =>
      packets ← ofold (λ packets m,
        p ← parse_header MacHeader (packet_from_mbuf_no_increment NullHeader m 0);
        p ← parse_header IpHeader p;
        p ← parse_header UdpHeader p;
        Ret (packets ++ [p])) [] mbufs;
      Ret (mkReceiver (recv_max_rx_packets r) (wadd 64 (responses_recv r) 1), net, Some packets)
  end.

(** ** ProxyDB *)

Record KV := mkKV {
  kv_version : bytes;
  kv_key : bytes;
  kv_value : bytes;
}.

Record ProxyDB := mkProxyDB {
  p_tenant : Z;
  p_parent_id : Z;
  p_req : bytes;
  p_args_offset : Z;
  p_waiting : bool;
  p_readset : list KV;
  p_writeset : list KV;
  p_db_credit : Z;
  p_commit_payload : bytes;
}.

Definition ProxyDB_new (tenant_id id : Z) (request : bytes) (name_length : Z) : ProxyDB :=
  mkProxyDB tenant_id id request name_length false [] [] 0 [].

Definition set_waiting (p : ProxyDB) (value : bool) : ProxyDB :=
  mkProxyDB (p_tenant p) (p_parent_id p) (p_req p) (p_args_offset p) value (p_readset p)
    (p_writeset p) (p_db_credit p) (p_commit_payload p).

Definition with_sets (p : ProxyDB) (rs ws : list KV) (payload : bytes) : ProxyDB :=
  mkProxyDB (p_tenant p) (p_parent_id p) (p_req p) (p_args_offset p) (p_waiting p) rs ws
    (p_db_credit p) payload.

Definition proxy_earn (p : ProxyDB) (start stop : Z) : ProxyDB :=
  mkProxyDB (p_tenant p) (p_parent_id p) (p_req p) (p_args_offset p) (p_waiting p) (p_readset p)
    (p_writeset p) (p_db_credit p +u64 (stop -u64 start)) (p_commit_payload p).

(** A record without its type byte: version, key, value. *)
Definition split_kv (record : bytes) (keylen : Z) : outcome KV :=
  '(version, entry) ← split_at record 8;
  '(key, value) ← split_at entry keylen;
  Ret (mkKV version key value).

Definition set_read_record (p : ProxyDB) (record : bytes) (keylen : Z) : outcome ProxyDB :=
  kv ← split_kv record keylen;
  Ret (with_sets p (p_readset p ++ [kv]) (p_writeset p)
         (p_commit_payload p ++ [OpType_u8 SandstormRead] ++ record)).

Definition set_write_record (p : ProxyDB) (record : bytes) (keylen : Z) : outcome ProxyDB :=
  kv ← split_kv record keylen;
  Ret (with_sets p (p_readset p) (p_writeset p ++ [kv])
         (p_commit_payload p ++ [OpType_u8 SandstormWrite] ++ record)).

(** The index of the first record with the key, or 1024. *)
Fixpoint search_cache_from (i : Z) (list : list KV) (key : bytes) : Z :=
  match list with
  | [] => 1024
  | kv :: list => if decide (kv_key kv = key) then i else search_cache_from (i + 1) list key
  end.

Definition search_cache (list : list KV) (key : bytes) : Z := search_cache_from 0 list key.

Definition proxy_args (p : ProxyDB) : outcome bytes :=
  '(_, args) ← split_at (p_req p) (p_args_offset p); Ret args.

(** [readset[index]] *)
Definition read_at (p : ProxyDB) (index : Z) : outcome bytes :=
  kv ← expect (p_readset p !! Z.to_nat index); Ret (kv_value kv).

Definition proxy_get (p : ProxyDB) (key : bytes) (start stop : Z) : outcome (ProxyDB * ReadBuf) :=
  let p := set_waiting p false in
  value ← read_at p (search_cache (p_readset p) key);
  Ret (proxy_earn p start stop, mkReadBuf value).

Fixpoint proxy_multiget_loop (p : ProxyDB) (key_len : Z) (keys : list bytes) (objs : list bytes) :
    outcome (list bytes) :=
  match keys with
  | [] => Ret objs
  | key :: keys =>
      if decide (len key ≠ key_len) then Ret objs
      else
        let index := search_cache (p_readset p) key in
        if decide (index ≠ 1024) then
          value ← read_at p index; proxy_multiget_loop p key_len keys (objs ++ [value])
        else proxy_multiget_loop p key_len keys objs
  end.

Definition proxy_multiget (p : ProxyDB) (key_len : Z) (keys : bytes) : outcome MultiReadBuf :=
  ks ← chunks keys key_len;
  objs ← proxy_multiget_loop p key_len ks [];
  Ret (MultiReadBuf_new objs).

Definition proxy_alloc `{BytesCrate} (table : Z) (key : bytes) (val_len : Z) : outcome WriteBuf :=
  let writebuf := WriteBuf_new table (with_capacity ((8 +u64 len key) +u64 val_len)) in
  writebuf ← write_slice writebuf (replicate 8 0);
  write_slice writebuf key.

Definition proxy_put `{BytesCrate} (p : ProxyDB) (buf : WriteBuf) : outcome (ProxyDB * bool) :=
  let (_, buf) := wb_freeze buf in
  _ ← assert_ (len buf = 138);
  p ← set_write_record p buf 30;
  Ret (p, true).

Section proxy.
Context `{Network}.

(** The pair is (on the server, found); the extension yields when not found. *)
Definition search_get_in_cache (w : Link) (p : ProxyDB) (table : Z) (key : bytes) (start stop : Z) :
    outcome (Link * ProxyDB * (bool * bool * option ReadBuf)) :=
  let index := search_cache (p_readset p) key in
  if decide (index ≠ 1024) then
    value ← read_at p index;
    Ret (w, proxy_earn p start stop, (false, true, Some (mkReadBuf value)))
  else
    let p := set_waiting p true in
    w ← send_get_from_extension w (p_tenant p) table key (p_parent_id p);
    Ret (w, proxy_earn p start stop, (false, false, None)).

Fixpoint search_multiget_loop (w : Link) (p : ProxyDB) (table key_len : Z) (keys objs : list bytes)
    (start stop : Z) : outcome (Link * ProxyDB * (bool * bool * option MultiReadBuf)) :=
  match keys with
  | [] => Ret (w, proxy_earn p start stop, (false, true, Some (MultiReadBuf_new objs)))
  | key :: keys =>
      if decide (len key ≠ key_len) then Ret (w, p, (false, false, None))
      else
        let index := search_cache (p_readset p) key in
        if decide (index ≠ 1024) then
          value ← read_at p index;
          search_multiget_loop w p table key_len keys (objs ++ [value]) start stop
        else
          let p := set_waiting p true in
          w ← send_get_from_extension w (p_tenant p) table key (p_parent_id p);
          Ret (w, proxy_earn p start stop, (false, false, None))
  end.

Definition search_multiget_in_cache (w : Link) (p : ProxyDB) (table key_len : Z) (keys : bytes)
    (start stop : Z) : outcome (Link * ProxyDB * (bool * bool * option MultiReadBuf)) :=
  ks ← chunks keys key_len; search_multiget_loop w p table key_len ks [] start stop.

(** The table is the first eight bytes of the arguments; the lengths are those
    of the first record read, or else written. *)
Definition proxy_commit (w : Link) (p : ProxyDB) : outcome Link :=
  if decide (p_readset p = [] ∧ p_writeset p = []) then Ret w
  else
    args ← proxy_args p;
    '(table, _) ← split_at args 8;
    let table_id := or_bytes 0 0 table in
    let '(key_len, val_len) :=
      match p_readset p with
      | kv :: _ => (len (kv_key kv), len (kv_value kv))
      | [] => (0, 0)
      end in
    let '(key_len, val_len) :=
      match p_writeset p with
      | kv :: _ => if decide (key_len = 0) then (len (kv_key kv), len (kv_value kv))
                   else (key_len, val_len)
      | [] => (key_len, val_len)
      end in
    send_commit w (p_tenant p) table_id (p_commit_payload p) (p_parent_id p)
      (wrap 16 key_len) (wrap 16 val_len).
End proxy.
