(* ===== verification/Client.v ===== *)
(** * Client: running pushed-back extensions on the client

    Models splinter/src/container.rs and splinter/src/sched.rs.  An extension is
    the argument [ext_gen] (its [init], which gives a generator) and [resume];
    what it does to its [ProxyDB] and to the network is its result.  A task of
    the client is always such a container.  The [Cell<Option<..>>] that holds
    the context is never empty between calls. *)

From S2P Require Import Prelude Packed Headers Packet Wire Rpc Alloc Tx Store Handlers.
From S2P Require Import HandlerSpecs CommitSpecs Bufs Context ContextSpecs Ext Task Dispatch.
From S2P Require Import DispatchSpecs Proxy.

(** What resuming an extension on the client does, a panic included. *)
Inductive ClientStep (L G : Type) :=
| CliYielded (w : L) (p : ProxyDB) (gen : G)
| CliComplete (w : L) (p : ProxyDB)
| CliPanicked (w : L) (p : ProxyDB).

Arguments CliYielded {_ _} _ _ _.
Arguments CliComplete {_ _} _ _.
Arguments CliPanicked {_ _} _ _.

Section client.
Context `{Network} `{Loader} {G : Type}.
Context (ext_gen : Extension → ProxyDB → G) (resume : Link → ProxyDB → G → ClientStep Link G).

(** ** Container *)

(** [cl_gen] is [None] for the dummy generator. *)
Record CliContainer := mkCliContainer {
  cl_state : TaskState;
  cl_priority : TaskPriority;
  cl_time : Z;
  cl_db_time : Z;
  cl_db : ProxyDB;
  cl_ext : Extension;
  cl_gen : option G;
  cl_id : Z;
}.

Definition CliContainer_new (prio : TaskPriority) (context : ProxyDB) (ext : Extension) (id : Z) :
    CliContainer :=
  mkCliContainer INITIALIZED prio 0 0 context ext None id.

Definition cli_with (k : CliContainer) (st : TaskState) (db_time : Z) (db : ProxyDB)
    (gen : option G) : CliContainer :=
  mkCliContainer st (cl_priority k) (cl_time k) db_time db (cl_ext k) gen (cl_id k).

Definition cli_runnable (st : TaskState) : bool := runnable st || bool_decide (st = WAITING).

(** Resuming the dummy generator: a first [resume] yields, which a container
    that was initialized never does. *)
Definition cli_run (w : Link) (k : CliContainer) (start stop : Z) :
    Link * CliContainer * (TaskState * Z) :=
  let gen := if decide (cl_state k = INITIALIZED) then Some (ext_gen (cl_ext k) (cl_db k))
             else cl_gen k in
  let k := cli_with k (cl_state k) (cl_db_time k) (cl_db k) gen in
  let '(w, k) :=
    if cli_runnable (cl_state k) then
      match gen with
      | Some gen =>
          match resume w (cl_db k) gen with
          | CliYielded w p gen =>
              (w, cli_with k (if p_waiting p then WAITING else YIELDED) (p_db_credit p) p (Some gen))
          | CliComplete w p => (w, cli_with k COMPLETED (p_db_credit p) p (Some gen))
          | CliPanicked w p => (w, cli_with k COMPLETED (cl_db_time k) p (Some gen))
          end
      | None =>
          (w, cli_with k (if p_waiting (cl_db k) then WAITING else YIELDED) (p_db_credit (cl_db k))
                (cl_db k) None)
      end
    else (w, k) in
  let exec := stop -u64 start in
  (w, mkCliContainer (cl_state k) (cl_priority k) (cl_time k +u64 exec) (cl_db_time k) (cl_db k)
        (cl_ext k) (cl_gen k) (cl_id k), (cl_state k, exec)).

Definition cli_tear (w : Link) (k : CliContainer) : outcome (Link * CliContainer) :=
  w ← proxy_commit w (cl_db k); Ret (w, cli_with k (cl_state k) (cl_db_time k) (cl_db k) None).

Definition cli_set_state (k : CliContainer) (st : TaskState) : CliContainer :=
  cli_with k st (cl_db_time k) (cl_db k) (cl_gen k).

(** What [Container::update_cache] does to the container's [ProxyDB]. *)
Definition update_cache (p : ProxyDB) (record : bytes) (keylen : Z) : outcome ProxyDB :=
  op ← parse_record_optype record;
  match op with
  | SandstormRead => '(_, rem) ← split_at record 1; set_read_record p rem keylen
  | SandstormWrite => '(_, rem) ← split_at record 1; set_write_record p rem keylen
  | InvalidRecord => Ret p
  end.

Definition cli_update_cache (k : CliContainer) (record : bytes) (keylen : Z) : outcome CliContainer :=
  p ← update_cache (cl_db k) record keylen;
  Ret (cli_with k (cl_state k) (cl_db_time k) p (cl_gen k)).

(** ** TaskManager *)

Record TaskManager := mkTaskManager {
  tm_extensions : ExtensionManager;
  tm_ready : list CliContainer;
  tm_waiting : gmap Z CliContainer;
}.

Definition TaskManager_new (extensions : ExtensionManager) : TaskManager :=
  mkTaskManager extensions [] ∅.

(** Without the extension nothing happens (a log message). *)
Definition create_task (m : TaskManager) (id : Z) (req : bytes) (tenant name_length : Z) :
    outcome TaskManager :=
  '(name, _) ← split_at req name_length;
  _ ← assert_ (utf8_valid name = true);
  ext ← em_get (tm_extensions m) tenant name;
  Ret match ext with
      | Some ext =>
          let db := ProxyDB_new tenant id req name_length in
          mkTaskManager (tm_extensions m) (tm_ready m)
            (<[id := CliContainer_new REQUEST db ext id]> (tm_waiting m))
      | None => m
      end.

Definition delete_task (m : TaskManager) (id : Z) : TaskManager :=
  mkTaskManager (tm_extensions m) (tm_ready m) (delete id (tm_waiting m)).

Definition get_queue_len (m : TaskManager) : Z := len (tm_ready m).

Definition update_rwset (m : TaskManager) (id : Z) (records : bytes) (recordlen keylen : Z) :
    outcome TaskManager :=
  match tm_waiting m !! id with
  | Some task =>
      rs ← chunks records recordlen;
      task ← ofold (λ task record, cli_update_cache task record keylen) task rs;
      Ret (mkTaskManager (tm_extensions m) (tm_ready m ++ [task]) (delete id (tm_waiting m)))
  | None => Ret m
  end.

Definition execute_task (w : Link) (m : TaskManager) (start stop : Z) :
    outcome (Link * TaskManager * (TaskState * Z)) :=
  match tm_ready m with
  | [] => Ret (w, m, (INITIALIZED, 0))
  | task :: ready =>
      let '(w, task, (st, _)) := cli_run w task start stop in
      let with_tasks ready waiting := mkTaskManager (tm_extensions m) ready waiting in
      if decide (st = COMPLETED) then
        '(w, task) ← cli_tear w task;
        Ret (w, with_tasks ready (tm_waiting m), (cl_state task, cl_time task))
      else if decide (cl_state task = YIELDED) then
        Ret (w, with_tasks (ready ++ [task]) (tm_waiting m), (cl_state task, cl_time task))
      else if decide (cl_state task = WAITING) then
        Ret (w, with_tasks ready (<[cl_id task := task]> (tm_waiting m)), (cl_state task, cl_time task))
      else Ret (w, with_tasks ready (tm_waiting m), (cl_state task, cl_time task))
  end.
End client.

(** * What the client does *)

(** ** Records in the cache *)

Definition kv_of (r : RwRecord) : KV := mkKV (le_bytes 8 (rec_version r)) (rec_key r) (rec_object r).

(** What the sets and the commit payload are for the records [rs]. *)
Record cached (rs : list RwRecord) (p : ProxyDB) : Prop := {
  cached_payload : p_commit_payload p = concat (encode_record <$> rs);
  cached_reads : p_readset p = kv_of <$> reads (tx_of rs);
  cached_writes : p_writeset p = kv_of <$> writes (tx_of rs);
}.

(** The fields that a record does not touch. *)
Definition same_context (p p' : ProxyDB) : Prop :=
  p_tenant p' = p_tenant p ∧ p_parent_id p' = p_parent_id p ∧ p_req p' = p_req p ∧
  p_args_offset p' = p_args_offset p.

#[local] Instance same_context_preorder : PreOrder same_context.
Proof. split; [by intros p|]. unfold same_context. intros p q r. intuition congruence. Qed.

Lemma tx_of_snoc rs r : tx_of (rs ++ [r]) = tx_add (tx_of rs) r.
Proof. unfold tx_of. by rewrite foldl_app. Qed.

Lemma split_kv_encode kl vl r :
  record_wire kl vl r →
  split_kv (le_bytes 8 (rec_version r) ++ rec_key r ++ rec_object r) kl = Ret (kv_of r).
Proof.
  intros [Hk Ho Hv _ _]. unfold split_kv.
  rewrite split_at_app by by rewrite len_le_bytes. cbn [mbind outcome_bind].
  by rewrite split_at_app by done.
Qed.

Lemma update_cache_encode kl vl rs p r :
  cached rs p → record_wire kl vl r → rec_optype r ≠ InvalidRecord →
  ∃ p', update_cache p (encode_record r) kl = Ret p' ∧ cached (rs ++ [r]) p' ∧
    same_context p p' ∧ p_waiting p' = p_waiting p.
Proof.
  intros [Hp Hr Hw] Hwire Ho. unfold update_cache, encode_record.
  rewrite parse_optype_u8. cbn [mbind outcome_bind].
  change (OpType_u8 (rec_optype r) :: ?l) with ([OpType_u8 (rec_optype r)] ++ l).
  rewrite split_at_app by done. cbn [mbind outcome_bind].
  unfold set_read_record, set_write_record. rewrite (split_kv_encode _ _ _ Hwire).
  cbn [mbind outcome_bind].
  destruct (rec_optype r) eqn:E; [..|done]; (eexists; split; [done|]; split; [|done]);
    (split; cbn;
     [rewrite Hp, fmap_app, concat_app; cbn; unfold encode_record; rewrite E, app_nil_r; done|
      rewrite Hr, tx_of_snoc; unfold tx_add; rewrite E; cbn; by rewrite ?fmap_app|
      rewrite Hw, tx_of_snoc; unfold tx_add; rewrite E; cbn; by rewrite ?fmap_app]).
Qed.

Lemma update_cache_all kl vl new rs p :
  cached rs p → Forall (record_wire kl vl) new →
  Forall (λ r, rec_optype r ≠ InvalidRecord) new →
  ∃ p', ofold (λ p r, update_cache p r kl) p (encode_record <$> new) = Ret p' ∧
    cached (rs ++ new) p' ∧ same_context p p' ∧ p_waiting p' = p_waiting p.
Proof.
  intros Hc Hnew Ho. revert rs p Hc. induction Hnew as [|r new Hr _ IH]; intros rs p Hc.
  { exists p. rewrite app_nil_r. by split_and!. }
  inversion_clear Ho as [|?? Hor Hon]. rewrite fmap_cons. cbn [ofold].
  destruct (update_cache_encode kl vl rs p r Hc Hr Hor) as (p1 & -> & Hc1 & Hs1 & Hw1).
  cbn [mbind outcome_bind].
  destruct (IH Hon _ p1 Hc1) as (p' & -> & Hc' & Hs' & Hw'). exists p'.
  rewrite <- (assoc_L (++)) in Hc'. split_and!; [done|done|by etrans|congruence].
Qed.

(** ** Every record of the right length is some record *)

Lemma record_decompose kl vl bs :
  is_bytes bs → len bs = 1 + 8 + kl + vl → 0 ≤ kl → 0 ≤ vl →
  ∃ b r, bs = b :: le_bytes 8 (rec_version r) ++ rec_key r ++ rec_object r ∧
    record_wire kl vl r ∧ ∀ o, record_wire kl vl (mkRwRecord o (rec_version r) (rec_key r) (rec_object r)).
Proof.
  intros Hb Hl Hk Hv. destruct bs as [|b bs]; [unfold len in Hl; cbn in Hl; lia|].
  inversion_clear Hb as [|?? Hb0 Hbs].
  assert (len bs = 8 + kl + vl) as Hlb by (unfold len in *; cbn in Hl; lia).
  set (v := take 8 bs). set (k := take (Z.to_nat kl) (drop 8 bs)).
  set (o := drop (Z.to_nat kl) (drop 8 bs)).
  assert (length v = 8%nat) as Hlv.
  { unfold v. rewrite length_take. unfold len in Hlb. lia. }
  assert (is_bytes v) as Hvb by by apply Forall_take.
  assert (∀ op, record_wire kl vl (mkRwRecord op (le_val v) k o)) as Hwire.
  { intros op. split; cbn.
    - unfold k, len in *. rewrite length_take, length_drop. lia.
    - unfold o, len in *. rewrite !length_drop. lia.
    - pose proof (le_val_range v Hvb) as Hr. unfold len in Hr. by rewrite Hlv in Hr.
    - by apply Forall_take, Forall_drop.
    - by apply Forall_drop, Forall_drop. }
  exists b, (mkRwRecord SandstormRead (le_val v) k o). cbn [rec_version rec_key rec_object]. split_and!; [|apply Hwire|apply Hwire].
  assert (le_bytes 8 (le_val v) = v) as -> by (rewrite <- Hlv at 1; by apply le_bytes_val).
  unfold v, k, o. by rewrite take_drop, take_drop.
Qed.

Lemma update_cache_any kl vl rs p bs keylen p' :
  cached rs p → Forall (record_wire kl vl) rs → is_bytes bs → len bs = 1 + 8 + kl + vl →
  0 ≤ kl → 0 ≤ vl → keylen = kl → update_cache p bs keylen = Ret p' →
  ∃ rs', cached rs' p' ∧ Forall (record_wire kl vl) rs' ∧ same_context p p'.
Proof.
  intros Hc Hrs Hb Hl Hk Hv -> Hu.
  destruct (record_decompose kl vl bs Hb Hl Hk Hv) as (b & r & -> & _ & Hwire).
  unfold update_cache in Hu. destruct (parse_record_optype _) as [op| |] eqn:Hop;
    cbn [mbind outcome_bind] in Hu; [|done..].
  set (r' := mkRwRecord op (rec_version r) (rec_key r) (rec_object r)).
  destruct (decide (op = InvalidRecord)) as [->|Hne].
  { injection Hu as <-. exists rs. by split_and!. }
  destruct (update_cache_encode kl vl rs p r' Hc (Hwire op) Hne) as (p1 & Hp1 & Hc1 & Hs1 & _).
  assert (p1 = p') as <-.
  { unfold update_cache, encode_record in Hp1. rewrite parse_optype_u8 in Hp1.
    cbn [mbind outcome_bind] in Hp1. change (rec_optype r') with op in Hp1.
    assert (∀ (x : Z) (l : bytes), split_at (x :: l) 1 = Ret ([x], l)) as Hsplit.
    { intros x l. by apply (split_at_app [x]). }
    rewrite Hsplit in Hu, Hp1. cbn [mbind outcome_bind] in Hu, Hp1.
    destruct op; [..|done]; unfold r' in Hp1; cbn [rec_version rec_key rec_object] in Hp1;
      congruence. }
  exists (rs ++ [r']). split_and!; [done| |done]. apply Forall_app. split; [done|].
  constructor; [apply Hwire|constructor].
Qed.

(** ** Steps of a pushed-back extension *)

Section steps.
Context `{Network} `{BytesCrate} (kl vl : Z).

(** What can happen to the [ProxyDB] of an extension whose records have keys of
    [kl] and values of [vl] bytes. *)
Inductive ProxyStep : ProxyDB → ProxyDB → Prop :=
| step_update p record p' :
    is_bytes record → len record = 1 + 8 + kl + vl → update_cache p record kl = Ret p' →
    ProxyStep p p'
| step_put p buf p' b :
    is_bytes (bm_data (wb_inner buf)) → kl = 30 → vl = 100 → proxy_put p buf = Ret (p', b) →
    ProxyStep p p'
| step_get p key start stop p' b :
    proxy_get p key start stop = Ret (p', b) → ProxyStep p p'
| step_search_get w p table key start stop w' p' r :
    search_get_in_cache w p table key start stop = Ret (w', p', r) → ProxyStep p p'
| step_search_multiget w p table key_len keys start stop w' p' r :
    search_multiget_in_cache w p table key_len keys start stop = Ret (w', p', r) →
    ProxyStep p p'.

(** Reads leave the sets and the payload alone. *)
Definition same_sets (p p' : ProxyDB) : Prop :=
  p_commit_payload p' = p_commit_payload p ∧ p_readset p' = p_readset p ∧
  p_writeset p' = p_writeset p.

Lemma cached_same rs p p' : cached rs p → same_sets p p' → cached rs p'.
Proof. intros [] (?&?&?). split; congruence. Qed.

Lemma search_multiget_loop_sets w p table key_len keys objs start stop w' p' r :
  search_multiget_loop w p table key_len keys objs start stop = Ret (w', p', r) →
  same_sets p p' ∧ (r.1.2 = true → w' = w ∧ p_waiting p' = p_waiting p).
Proof.
  revert objs. induction keys as [|key keys IH]; intros objs; cbn.
  { by intros [= <- <- <-]. }
  case_decide; [by intros [= <- <- <-]|]. case_decide.
  - destruct (read_at _ _); cbn; [|done..]. apply IH.
  - destruct (send_get_from_extension _ _ _ _ _); cbn; [|done..]. by intros [= <- <- <-].
Qed.

Lemma step_cached rs p p' :
  0 ≤ kl → 0 ≤ vl → cached rs p → Forall (record_wire kl vl) rs → ProxyStep p p' →
  ∃ rs', cached rs' p' ∧ Forall (record_wire kl vl) rs'.
Proof.
  intros Hk Hv Hc Hrs Hstep.
  assert (same_sets p p' → ∃ rs', cached rs' p' ∧ Forall (record_wire kl vl) rs') as Hsame.
  { intros Hs. exists rs. split; [by eapply cached_same|done]. }
  destruct Hstep as [p record p' Hb Hl Hu|p buf p' b Hb -> -> Hput|p key start stop p' b Hget
    |w p table key start stop w' p' r Hs|w p table key_len keys start stop w' p' r Hs].
  - destruct (update_cache_any kl vl rs p record kl p') as (rs' & Hc' & Hrs' & _); eauto.
  - unfold proxy_put, wb_freeze, assert_ in Hput.
    destruct (decide _) as [Hl|]; cbn [mbind outcome_bind] in Hput; [|done].
    destruct (set_write_record _ _ _) as [p1| |] eqn:Hw; cbn in Hput; [|done..].
    injection Hput as -> _.
    destruct (update_cache_any 30 100 rs p (2 :: bm_data (wb_inner buf)) 30 p')
      as (rs' & Hc' & Hrs' & _); eauto.
    + constructor; [unfold in_width; lia|done].
    + unfold len in *. cbn [length]. lia.
    + unfold update_cache. change (parse_record_optype (2 :: ?l)) with (Ret SandstormWrite).
      cbn [mbind outcome_bind].
      rewrite (split_at_app [2] (bm_data (wb_inner buf)) 1 eq_refl : split_at (2 :: _) 1 = _). done.
  - apply Hsame. unfold proxy_get in Hget. destruct (read_at _ _); cbn in Hget; [|done..].
    by injection Hget as <- _.
  - apply Hsame. unfold search_get_in_cache in Hs. case_decide.
    + destruct (read_at _ _); cbn in Hs; [|done..]. by injection Hs as _ <- _.
    + destruct (send_get_from_extension _ _ _ _ _); cbn in Hs; [|done..].
      by injection Hs as _ <- _.
  - apply Hsame. unfold search_multiget_in_cache in Hs.
    destruct (chunks keys key_len); cbn in Hs; [|done..].
    by apply search_multiget_loop_sets in Hs as [? _].
Qed.

(** the commit request of a pushed-back extension carries exactly what it
    accessed (splinter/src/proxy.rs).  After any sequence of cache updates,
    puts and reads on a fresh [ProxyDB], the server's record parser recovers
    from the commit payload a transaction whose reads and writes are the
    read set and the write set of the extension, in order. *)
Theorem commit_payload_faithful tenant id req name_length p :
  0 ≤ kl → 0 ≤ vl → rtc ProxyStep (ProxyDB_new tenant id req name_length) p →
  ∃ tx, (chs ← chunks (p_commit_payload p) (1 + 8 + kl + vl);
         ofold (commit_record kl) TX_new chs) = Ret tx ∧
    p_readset p = kv_of <$> reads tx ∧ p_writeset p = kv_of <$> writes tx.
Proof.
  intros Hk Hv Hsteps.
  assert (∃ rs, cached rs p ∧ Forall (record_wire kl vl) rs) as (rs & [Hp Hr Hw] & Hwire).
  { revert Hsteps. set (p0 := ProxyDB_new _ _ _ _). intros Hsteps.
    assert (∃ rs, cached rs p0 ∧ Forall (record_wire kl vl) rs) as H0'.
    { exists []. by repeat split. }
    induction Hsteps as [|p0 p1 p2 Hstep _ IH]; [done|]. apply IH.
    destruct H0' as (rs & Hc & Hrs). by eapply step_cached. }
  exists (tx_of rs). rewrite Hp, (records_chunks kl vl) by done. cbn [mbind outcome_bind].
  by rewrite (commit_records_encode kl vl).
Qed.
End steps.

(** ** The task manager *)

Section manager.
Context `{Network} `{Loader} {G : Type}.
Context (ext_gen : Extension → ProxyDB → G) (resume : Link → ProxyDB → G → ClientStep Link G).
Implicit Types (m : TaskManager (G := G)) (k : CliContainer (G := G)).

Lemma cli_update_all k rs keylen :
  ofold (λ k record, cli_update_cache k record keylen) k rs =
  p ← ofold (λ p record, update_cache p record keylen) (cl_db k) rs;
  Ret (cli_with k (cl_state k) (cl_db_time k) p (cl_gen k)).
Proof.
  revert k. induction rs as [|r rs IH]; intros k; [by destruct k|]. cbn [ofold].
  change (cli_update_cache k r keylen) with (p ← update_cache (cl_db k) r keylen;
    Ret (cli_with k (cl_state k) (cl_db_time k) p (cl_gen k))).
  destruct (update_cache (cl_db k) r keylen) as [p| |].
  2-3: reflexivity.
  cbn [mbind outcome_bind]. rewrite IH. reflexivity.
Qed.

Lemma commit_lengths kl vl tx w p tbl more :
  Forall (record_wire kl vl) (reads tx ++ writes tx) → 0 < kl < 2 ^ 16 → 0 ≤ vl < 2 ^ 16 →
  reads tx ++ writes tx ≠ [] → proxy_args p = Ret (tbl ++ more) → len tbl = 8 → is_bytes tbl →
  p_readset p = kv_of <$> reads tx → p_writeset p = kv_of <$> writes tx →
  proxy_commit w p =
  send_commit w (p_tenant p) (le_val tbl) (p_commit_payload p) (p_parent_id p) kl vl.
Proof.
  intros Hwire Hk Hv Hne Ha Ht Htb Hr Hw. unfold proxy_commit. rewrite Hr, Hw.
  apply Forall_app in Hwire as [Hwr Hww].
  assert (∀ op v key o, record_wire kl vl (mkRwRecord op v key o) →
    len key = kl ∧ len o = vl) as Hl by (by intros ???? []).
  rewrite decide_False.
  2: { intros [E1%fmap_nil_inv E2%fmap_nil_inv]. by rewrite E1, E2 in Hne. }
  rewrite Ha. cbn [mbind outcome_bind]. rewrite split_at_app by done. cbn [mbind outcome_bind].
  rewrite or_bytes_le by done.
  assert (wrap 16 kl = kl ∧ wrap 16 vl = vl) as [Ek Ev].
  { split; apply wrap_id; unfold in_width; lia. }
  destruct (reads tx) as [|[op1 v1 key1 o1] rest1], (writes tx) as [|[op2 v2 key2 o2] rest2];
    [done|inversion_clear Hww as [|?? H2 _]|inversion_clear Hwr as [|?? H1 _]
    |inversion_clear Hwr as [|?? H1 _]; inversion_clear Hww as [|?? H2 _]]; cbn -[wrap send_commit].
  - destruct (Hl _ _ _ _ H2) as [E1 E2]. rewrite decide_True by done. by rewrite E1, E2, Ek, Ev.
  - destruct (Hl _ _ _ _ H1) as [E1 E2]. by rewrite E1, E2, Ek, Ev.
  - destruct (Hl _ _ _ _ H1) as [E1 E2]. rewrite decide_False by lia. by rewrite E1, E2, Ek, Ev.
Qed.

(** C40: a transaction survives a pushback.  When the records that the server
    shipped for a transaction (see [ContextSpecs.pushback_roundtrip]) reach the
    client's task manager, the waiting extension becomes ready with exactly
    that read set and write set in its cache; and if it ends without further
    accesses, tearing it down sends one commit request for the table of its
    arguments, with the records' lengths and the very bytes that the server
    had shipped, which the server's record parser decodes to the transaction. *)
Theorem pushed_back_transaction_returns tx kl vl m id k w tbl more :
  Forall (λ r, rec_optype r = SandstormRead) (reads tx) →
  Forall (λ r, rec_optype r = SandstormWrite) (writes tx) →
  Forall (record_wire kl vl) (reads tx ++ writes tx) → 0 < kl < 2 ^ 16 → 0 ≤ vl < 2 ^ 16 →
  reads tx ++ writes tx ≠ [] →
  tm_waiting m !! id = Some k → cached [] (cl_db k) →
  proxy_args (cl_db k) = Ret (tbl ++ more) → len tbl = 8 → is_bytes tbl →
  ∃ k', update_rwset m id (shipped tx) (1 + 8 + kl + vl) kl =
      Ret (mkTaskManager (tm_extensions m) (tm_ready m ++ [k']) (delete id (tm_waiting m))) ∧
    cl_state k' = cl_state k ∧ cl_gen k' = cl_gen k ∧
    p_readset (cl_db k') = kv_of <$> reads tx ∧ p_writeset (cl_db k') = kv_of <$> writes tx ∧
    cli_tear w k' =
      (w ← send_commit w (p_tenant (cl_db k)) (le_val tbl) (shipped tx) (p_parent_id (cl_db k)) kl vl;
       Ret (w, cli_with k' (cl_state k') (cl_db_time k') (cl_db k') None)) ∧
    (chs ← chunks (shipped tx) (1 + 8 + kl + vl); ofold (commit_record kl) TX_new chs) = Ret tx.
Proof.
  intros Hrd Hwr Hwire Hk Hv Hne Hm Hc Ha Ht Htb.
  assert (Forall (λ r, rec_optype r ≠ InvalidRecord) (reads tx ++ writes tx)) as Hvalid.
  { apply Forall_app. split; eapply Forall_impl; [exact Hrd| |exact Hwr|]; congruence. }
  destruct (update_cache_all kl vl (reads tx ++ writes tx) [] (cl_db k) Hc Hwire Hvalid)
    as (p & Hp & [Hpay Hr Hw] & (Etn & Epid & Ereq & Eoff) & _).
  rewrite app_nil_l, tx_of_split in * by done.
  exists (cli_with k (cl_state k) (cl_db_time k) p (cl_gen k)).
  unfold update_rwset, shipped. rewrite Hm, (records_chunks kl vl) by (done || lia).
  cbn [mbind outcome_bind]. rewrite cli_update_all, Hp. cbn [mbind outcome_bind].
  split_and!; [done..| |].
  - unfold cli_tear. cbn [cl_db cli_with].
    rewrite (commit_lengths kl vl tx w p tbl more); try done; [by rewrite Hpay, Etn, Epid|].
    unfold proxy_args in *. by rewrite Ereq, Eoff.
  - rewrite (commit_records_encode kl vl) by done. f_equal. by apply tx_of_split.
Qed.

(** Where a task belongs after a run: [q] is the rest of the ready queue. *)
Definition settled m (q : list (CliContainer (G := G))) k : TaskManager (G := G) :=
  match cl_state k with
  | YIELDED => mkTaskManager (tm_extensions m) (q ++ [k]) (tm_waiting m)
  | WAITING => mkTaskManager (tm_extensions m) q (<[cl_id k := k]> (tm_waiting m))
  | _ => mkTaskManager (tm_extensions m) q (tm_waiting m)
  end.

(** the client's task manager loses no task (splinter/src/sched.rs
    [execute_task]).  A run of the task at the head of the ready queue ends
    completed, yielded or waiting.  The other tasks stay where they are; a task
    that yielded goes to the back of the ready queue, one that waits for a
    response waits under its own identifier, and only one that completed is
    torn down and leaves. *)
Theorem execute_task_loses_nothing w m k q start stop :
  tm_ready m = k :: q → cli_runnable (cl_state k) = true →
  let '(w1, k1, (st, exec)) := cli_run ext_gen resume w k start stop in
  cl_id k1 = cl_id k ∧ cl_state k1 = st ∧ (st = COMPLETED ∨ st = YIELDED ∨ st = WAITING) ∧
  execute_task ext_gen resume w m start stop =
    (w2 ← (if decide (st = COMPLETED) then '(w2, _) ← cli_tear w1 k1; Ret w2 else Ret w1);
     Ret (w2, settled m q k1, (st, cl_time k1))).
Proof.
  intros Hq Hst. unfold execute_task. rewrite Hq.
  destruct (cli_run ext_gen resume w k start stop) as [[w1 k1] [st exec]] eqn:Hrun.
  assert (cl_id k1 = cl_id k ∧ cl_state k1 = st ∧ (st = COMPLETED ∨ st = YIELDED ∨ st = WAITING))
    as (Hid & Hs & Hcases).
  { revert Hrun. unfold cli_run. cbn. rewrite Hst.
    destruct (if decide (cl_state k = INITIALIZED) then _ else _) as [gen|];
      [destruct (resume w (cl_db k) gen) as [w' p' g'|w' p'|w' p']|];
      try destruct (p_waiting _); intros [= <- <- <- <-]; cbn; auto. }
  split_and!; [done..|]. unfold settled. rewrite Hs.
  destruct Hcases as [-> | [-> | ->]]; cbn; rewrite ?Hs; [|done..].
  unfold cli_tear. destruct (proxy_commit w1 (cl_db k1)); cbn; [|done..]. by rewrite Hs.
Qed.

(** an extension that awaited a multiget waits again without a reason.  The
    waiting flag is set when a key is missing and cleared by [get] only, so
    after a [multiget] that finds all its keys it is still set; when such an
    extension next yields, no request is outstanding, yet the task manager
    takes it for a waiting task, out of the ready queue. *)
Theorem multiget_leaves_task_waiting w m k q gen gen' table key_len keys t0 t1 p1 objs start stop :
  tm_ready m = k :: q → cl_state k = WAITING → cl_gen k = Some gen → p_waiting (cl_db k) = true →
  search_multiget_in_cache w (cl_db k) table key_len keys t0 t1 = Ret (w, p1, (false, true, Some objs)) →
  resume w (cl_db k) gen = CliYielded w p1 gen' →
  ∃ k1, cl_state k1 = WAITING ∧ cl_db k1 = p1 ∧
    execute_task ext_gen resume w m start stop = Ret (w, settled m q k1, (WAITING, cl_time k1)).
Proof.
  intros Hq Hst Hgen Hwait Hsearch Hres.
  assert (p_waiting p1 = true) as Hw1.
  { unfold search_multiget_in_cache in Hsearch.
    destruct (chunks keys key_len); cbn in Hsearch; [|done..].
    apply search_multiget_loop_sets in Hsearch as [_ Hfound].
    destruct (Hfound eq_refl) as [_ ->]. done. }
  unfold execute_task, cli_run. rewrite Hq, Hst, Hgen, decide_False by done. cbn.
  change (cli_runnable WAITING) with true. cbn match. rewrite Hres. cbn. rewrite Hw1. cbn.
  rewrite !decide_False, decide_True by done.
  by exists (mkCliContainer WAITING (cl_priority k) (cl_time k +u64 (stop -u64 start))
    (p_db_credit p1) p1 (cl_ext k) (Some gen') (cl_id k)).
Qed.
End manager.

(** ** Concrete clients *)

(** A read and a write with keys of 3 and values of 2 bytes. *)
Definition ex_tx : TX :=
  mkTX [mkRwRecord SandstormRead 5 [1; 2; 3] [7; 7]] [mkRwRecord SandstormWrite 0 [1; 2; 3] [8; 8]].

Definition ex_sender : Sender :=
  Sender_new 0 0x0a000001 0x0a000002 (mkMacAddress 2 0 0 0 0 1) (mkMacAddress 2 0 0 0 0 2) 4.

(** Extension "t" was invoked with table 3 and pushed back under identifier 95. *)
Definition ex_proxy : ProxyDB := ProxyDB_new 7 95 (116 :: le_bytes 8 3) 1.

Definition ex_container (st : TaskState) (p : ProxyDB) : @CliContainer any_loader unit :=
  @mkCliContainer any_loader unit st REQUEST 0 0 p [1; 2] (Some tt) 95.

Definition ex_manager (ready : list (@CliContainer any_loader unit))
    (waiting : gmap Z (@CliContainer any_loader unit)) : @TaskManager any_loader unit :=
  @mkTaskManager any_loader unit (@ExtensionManager_new any_loader) ready waiting.

Definition ex_link : @Link test_net := (ex_sender, ([], [])).

Lemma ex_tx_wire : Forall (record_wire 3 2) (reads ex_tx ++ writes ex_tx).
Proof.
  repeat constructor; apply (bool_decide_eq_true_1 _); by vm_compute.
Qed.

Lemma pushed_back_transaction_returns_witness :
  let m := ex_manager [] {[95 := ex_container INITIALIZED ex_proxy]} in
  let k := ex_container INITIALIZED ex_proxy in
  ∃ k', update_rwset m 95 (shipped ex_tx) (1 + 8 + 3 + 2) 3 =
      Ret (mkTaskManager (tm_extensions m) (tm_ready m ++ [k']) (delete 95 (tm_waiting m))) ∧
    cl_state k' = cl_state k ∧ cl_gen k' = cl_gen k ∧
    p_readset (cl_db k') = kv_of <$> reads ex_tx ∧ p_writeset (cl_db k') = kv_of <$> writes ex_tx ∧
    @cli_tear test_net any_loader unit ex_link k' =
      (w ← @send_commit test_net ex_link 7 (le_val (le_bytes 8 3)) (shipped ex_tx) 95 3 2;
       Ret (w, cli_with k' (cl_state k') (cl_db_time k') (cl_db k') None)) ∧
    (chs ← chunks (shipped ex_tx) (1 + 8 + 3 + 2); ofold (commit_record 3) TX_new chs) = Ret ex_tx.
Proof.
  intros m k. apply (@pushed_back_transaction_returns test_net any_loader unit ex_tx 3 2 m 95 k ex_link
    (le_bytes 8 3) []).
  - by repeat constructor.
  - by repeat constructor.
  - apply ex_tx_wire.
  - lia.
  - lia.
  - discriminate.
  - reflexivity.
  - by split.
  - reflexivity.
  - reflexivity.
  - apply le_bytes_is_bytes.
Defined.

Definition ex_cached : ProxyDB :=
  ret_or ex_proxy (update_cache ex_proxy (encode_record (mkRwRecord SandstormRead 5 [1; 2; 3] [7; 7])) 3).

Lemma commit_payload_faithful_witness :
  ∃ tx, (chs ← chunks (p_commit_payload ex_cached) (1 + 8 + 3 + 2);
         ofold (commit_record 3) TX_new chs) = Ret tx ∧
    p_readset ex_cached = kv_of <$> reads tx ∧ p_writeset ex_cached = kv_of <$> writes tx.
Proof.
  apply (@commit_payload_faithful test_net exact_bytes 3 2 7 95 (116 :: le_bytes 8 3) 1 ex_cached).
  - lia.
  - lia.
  - apply rtc_once. refine (step_update 3 2 ex_proxy
      (encode_record (mkRwRecord SandstormRead 5 [1; 2; 3] [7; 7])) ex_cached _ _ _).
    + apply (bool_decide_eq_true_1 _). by vm_compute.
    + reflexivity.
    + reflexivity.
Defined.

Definition waiting_resume (w : @Link test_net) (p : ProxyDB) (g : unit) :
    ClientStep (@Link test_net) unit := CliYielded w p tt.

Lemma execute_task_loses_nothing_witness :
  let k := ex_container YIELDED ex_cached in
  let m := ex_manager [k] ∅ in
  let '(w1, k1, (st, exec)) :=
    @cli_run test_net any_loader unit (λ _ _, tt) waiting_resume ex_link k 0 5 in
  cl_id k1 = cl_id k ∧ cl_state k1 = st ∧ (st = COMPLETED ∨ st = YIELDED ∨ st = WAITING) ∧
  @execute_task test_net any_loader unit (λ _ _, tt) waiting_resume ex_link m 0 5 =
    (w2 ← (if decide (st = COMPLETED) then '(w2, _) ← cli_tear w1 k1; Ret w2 else Ret w1);
     Ret (w2, settled m [] k1, (st, cl_time k1))).
Proof.
  intros k m. apply (@execute_task_loses_nothing test_net any_loader unit (λ _ _, tt) waiting_resume
    ex_link m k [] 0 5); reflexivity.
Defined.

(** The extension awaited the key it now finds. *)
Lemma multiget_leaves_task_waiting_witness :
  let p := set_waiting ex_cached true in
  let k := ex_container WAITING p in
  let m := ex_manager [k] ∅ in
  ∃ k1, cl_state k1 = WAITING ∧ cl_db k1 = proxy_earn p 3 4 ∧
    @execute_task test_net any_loader unit (λ _ _, tt)
      (λ w p g, CliYielded w (proxy_earn p 3 4) tt) ex_link m 0 5 =
    Ret (ex_link, settled m [] k1, (WAITING, cl_time k1)).
Proof.
  intros p k m.
  apply (@multiget_leaves_task_waiting test_net any_loader unit (λ _ _, tt)
    (λ w p g, CliYielded w (proxy_earn p 3 4) tt) ex_link m k [] tt tt 3 3 [1; 2; 3] 3 4
    (proxy_earn p 3 4) (MultiReadBuf_new [[7; 7]]) 0 5); reflexivity.
Defined.
