(* ===== verification/DB.v ===== *)
(** * DB: the interface between extensions and the database

    Models the [DB] trait of sandstorm/src/db.rs as a class, its two
    implementations as instances ([Context] on the server, [ProxyDB] on the
    client), the macros of sandstorm/src/macros.rs, [pack] of
    sandstorm/src/pack.rs and the helpers that extensions share.

    The methods of the trait take [&self] and change the database underneath, so
    an extension is a computation over a state that survives a panic
    ([ext_m]).  A method that panics is taken to leave the state as it was.
    An extension is a generator: the points where it can be suspended form a
    data type, with a function that resumes it ([gen_step]). *)

From stdpp Require Import strings.
From S2P Require Import Prelude Packed Headers Packet Wire Rpc Alloc Tx Table Store Handlers.
From S2P Require Import Bufs Context Task Dispatch Proxy Client.

(** ** Computations of an extension *)

Definition ext_m (D A : Type) : Type := D → D * outcome A.

#[export] Instance ext_ret {D} : MRet (ext_m D) := λ A a d, (d, Ret a).

#[export] Instance ext_bind {D} : MBind (ext_m D) := λ A B f m d,
  match m d with
  | (d, Ret a) => f a d
  | (d, Panic) => (d, Panic)
  | (d, Undef) => (d, Undef)
  end.

#[export] Instance ext_fmap {D} : FMap (ext_m D) := λ A B f m d,
  match m d with
  | (d, Ret a) => (d, Ret (f a))
  | (d, Panic) => (d, Panic)
  | (d, Undef) => (d, Undef)
  end.

(** A computation that does not involve the database. *)
Definition lift {D A} (m : outcome A) : ext_m D A := λ d, (d, m).

(** The loop [for x in l] with local state [s]. *)
Fixpoint efold {D S A} (f : S → A → ext_m D S) (s : S) (l : list A) : ext_m D S :=
  match l with
  | [] => mret s
  | a :: l => s ← f s a; efold f s l
  end.

(** What resuming a generator gives: it was suspended at [g], or returned. *)
Inductive gen_step (G : Type) :=
| GYield (g : G)
| GReturn (v : Z).

Arguments GYield {_} _.
Arguments GReturn {_} _.

(** ** The DB trait *)

Class DB `{BytesCrate} (D : Type) := {
  db_get : Z → bytes → ext_m D (option ReadBuf);
  db_multiget : Z → Z → bytes → ext_m D (option MultiReadBuf);
  db_alloc : Z → bytes → Z → ext_m D (option WriteBuf);
  db_put : WriteBuf → ext_m D bool;
  db_del : Z → bytes → ext_m D unit;
  db_args : ext_m D bytes;
  db_resp : bytes → ext_m D unit;
  db_search_get : Z → bytes → ext_m D (bool * bool * option ReadBuf);
  db_search_multiget : Z → Z → bytes → ext_m D (bool * bool * option MultiReadBuf);
}.

(** ** Helpers of the extensions *)

(** The bytes of a string literal. *)
Definition str (s : String.string) : bytes := (λ a, Z.of_N (Ascii.N_of_ascii a)) <$> String.list_ascii_of_string s.

Arguments str _%_string.

(** [pack(&x)] of an unsigned integer of [n] bytes. *)
Definition pack (n : nat) (x : Z) : bytes := le_bytes n x.

(** [dst[a..b].copy_from_slice(src)] *)
Definition copy_from_slice (dst : bytes) (a b : Z) (src : bytes) : outcome bytes :=
  if decide (0 ≤ a ≤ b ∧ b ≤ len dst ∧ b - a = len src)
  then Ret (take (Z.to_nat a) dst ++ src ++ drop (Z.to_nat b) dst)
  else Panic.

Section helpers.
Context `{DB D}.

(** Report an error and return [code]. *)
Definition fail_with (error : String.string) (code : Z) {G} : ext_m D (gen_step G) :=
  _ ← db_resp (str error); mret (GReturn code).

(** The [GET!] macro up to its [yield]: [None] says that the extension yields
    and then calls [db_get]. *)
Definition GET (table : Z) (key : bytes) : ext_m D (option (option ReadBuf)) :=
  '(server, found, val) ← db_search_get table key;
  if server : bool then Some <$> db_get table key
  else if found : bool then mret (Some val) else mret None.

(** The [GET1!] and [MULTIGET1!] macros of the aggregate and checksum
    extensions, which do not yield. *)
Definition GET1 (table : Z) (key : bytes) : ext_m D (option ReadBuf) :=
  '(server, _, val) ← db_search_get table key;
  if server : bool then db_get table key else mret val.

Definition MULTIGET1 (table key_len : Z) (keys : bytes) : ext_m D (option MultiReadBuf) :=
  '(server, _, val) ← db_search_multiget table key_len keys;
  if server : bool then db_multiget table key_len keys else mret val.
End helpers.


(** ** The server's database *)

(** An extension runs on the server against its [Context] over the store.
    [sv_clock] counts the readings of the time-stamp counter [tsc]. *)
Record ServerDB := mkServerDB { sv_store : Store; sv_ctx : Context; sv_clock : nat }.

Section server.
Context `{BytesCrate} (tsc : nat → Z).

(** A method of [Context] that changes the context and reads the clock twice. *)
Definition sv_call {A} (f : Store → Context → Z → Z → outcome (Context * A)) : ext_m ServerDB A :=
  λ d, match f (sv_store d) (sv_ctx d) (tsc (sv_clock d)) (tsc (S (sv_clock d))) with
       | Ret (c, a) => (mkServerDB (sv_store d) c (S (S (sv_clock d))), Ret a)
       | Panic => (d, Panic)
       | Undef => (d, Undef)
       end.

Definition sv_del (table : Z) (key : bytes) : ext_m ServerDB unit := λ d,
  match ctx_del (sv_store d) (sv_ctx d) table key with
  | Ret s => (mkServerDB s (sv_ctx d) (sv_clock d), Ret tt)
  | Panic => (d, Panic)
  | Undef => (d, Undef)
  end.

#[export] Instance server_db : DB ServerDB := {|
  db_get table key := sv_call (λ s c, ctx_get s c table key);
  db_multiget table key_len keys := sv_call (λ s c, ctx_multiget s c table key_len keys);
  db_alloc table key val_len := sv_call (λ _ c _ _, ctx_alloc c table key val_len);
  db_put buf := sv_call (λ _ c, ctx_put c buf);
  db_del := sv_del;
  db_args d := (d, ctx_args (sv_ctx d));
  db_resp data := sv_call (λ _ c _ _, c ← ctx_resp c data; Ret (c, tt));
  db_search_get _ _ := mret (true, false, None);
  db_search_multiget _ _ _ := mret (true, false, None);
|}.

(** The resume function of a [Container]. *)
Definition server_resume {G} (run : G → ext_m ServerDB (gen_step G)) (s : Store) (c : Context)
    (g : G) : ExtStep G :=
  match run g (mkServerDB s c 0) with
  | (d, Ret (GYield g)) => ExtYielded (sv_store d) (sv_ctx d) g
  | (d, Ret (GReturn _)) => ExtComplete (sv_store d) (sv_ctx d)
  | (d, _) => ExtPanicked (sv_store d) (sv_ctx d)
  end.
End server.

(** ** The client's database *)

(** A pushed-back extension runs against its [ProxyDB] and the network. *)
Section client.
Context `{BytesCrate} `{Network} (tsc : nat → Z).

Record ClientDB := mkClientDB { cd_link : Link; cd_proxy : ProxyDB; cd_clock : nat }.

Definition cd_call {A} (f : Link → ProxyDB → Z → Z → outcome (Link * ProxyDB * A)) :
    ext_m ClientDB A :=
  λ d, match f (cd_link d) (cd_proxy d) (tsc (cd_clock d)) (tsc (S (cd_clock d))) with
       | Ret (w, p, a) => (mkClientDB w p (S (S (cd_clock d))), Ret a)
       | Panic => (d, Panic)
       | Undef => (d, Undef)
       end.

#[export] Instance client_db : DB ClientDB := {|
  db_get table key := cd_call (λ w p start stop,
    '(p, v) ← proxy_get p key start stop; Ret (w, p, Some v));
  db_multiget table key_len keys := cd_call (λ w p _ _,
    v ← proxy_multiget p key_len keys; Ret (w, p, Some v));
  db_alloc table key val_len := cd_call (λ w p _ _,
    b ← proxy_alloc table key val_len; Ret (w, p, Some b));
  db_put buf := cd_call (λ w p _ _, '(p, b) ← proxy_put p buf; Ret (w, p, b));
  db_del _ _ := mret tt;
  db_args d := (d, proxy_args (cd_proxy d));
  db_resp _ := mret tt;
  db_search_get table key := cd_call (λ w p, search_get_in_cache w p table key);
  db_search_multiget table key_len keys := cd_call (λ w p,
    search_multiget_in_cache w p table key_len keys);
|}.

(** The resume function of a client's container. *)
Definition client_resume {G} (run : G → ext_m ClientDB (gen_step G)) (w : Link) (p : ProxyDB)
    (g : G) : ClientStep Link G :=
  match run g (mkClientDB w p 0) with
  | (d, Ret (GYield g)) => CliYielded (cd_link d) (cd_proxy d) g
  | (d, Ret (GReturn _)) => CliComplete (cd_link d) (cd_proxy d)
  | (d, _) => CliPanicked (cd_link d) (cd_proxy d)
  end.
End client.

(** ** The databases for tests *)

Section tests.
Context `{BytesCrate}.

(** sandstorm/src/null.rs: nothing is there, and nothing is kept. *)
Inductive NullDB := NullDB_new.

#[export] Instance null_db : DB NullDB := {|
  db_get _ _ := mret None;
  db_multiget _ _ _ := mret None;
  db_alloc _ _ _ := mret None;
  db_put _ := mret false;
  db_del _ _ := mret tt;
  db_args := mret [];
  db_resp _ := mret tt;
  db_search_get _ _ := mret (false, false, None);
  db_search_multiget _ _ _ := mret (false, false, None);
|}.

(** sandstorm/src/mock.rs: every call is logged.  A message is the call it
    reports. *)
Inductive Message :=
| MsgGet (table : Z) (key : bytes)
| MsgMultiget (table : Z) (keys : bytes) (key_len : Z)
| MsgAlloc (table : Z) (key : bytes) (val_len : Z)
| MsgPut (buf : bytes)
| MsgDel (table : Z) (key : bytes)
| MsgArgs
| MsgResp (data : bytes)
| MsgSearchGet (table : Z) (key : bytes)
| MsgLog (message : bytes).

#[export] Instance Message_eq_dec : EqDecision Message.
Proof. solve_decision. Defined.

Record MockDB := mkMockDB { messages : list Message; mock_args : bytes }.

Definition MockDB_new : MockDB := mkMockDB [] (replicate 30 97).

Definition assert_messages (d : MockDB) (msgs : list Message) : outcome unit :=
  assert_ (msgs = messages d).

Definition clear_messages (d : MockDB) : MockDB := mkMockDB [] (mock_args d).

Definition log (m : Message) {A} (a : A) : ext_m MockDB A := λ d,
  (mkMockDB (messages d ++ [m]) (mock_args d), Ret a).

Definition mock_debug_log (message : bytes) : ext_m MockDB unit := log (MsgLog message) tt.

#[export] Instance mock_db : DB MockDB := {|
  db_get table key := log (MsgGet table key) (Some (mkReadBuf []));
  db_multiget table key_len keys :=
    log (MsgMultiget table keys key_len) (Some (MultiReadBuf_new []));
  db_alloc table key val_len :=
    log (MsgAlloc table key val_len) (Some (WriteBuf_new table (with_capacity 0)));
  db_put buf := log (MsgPut (wb_freeze buf).2) true;
  db_del table key := log (MsgDel table key) tt;
  db_args d := log MsgArgs (mock_args d) d;
  db_resp data := log (MsgResp data) tt;
  db_search_get table key := log (MsgSearchGet table key) (false, false, Some (mkReadBuf []));
  db_search_multiget table key_len keys :=
    log (MsgMultiget table keys key_len) (false, false, Some (MultiReadBuf_new []));
|}.
End tests.
