(* ===== verification/Programs.v ===== *)
(** * Programs: the extensions that ship with the system

    Models the extensions of ext/ other than TAO: [init] of each as the function
    that resumes its generator, over any [DB].  The generator's type lists the
    points where it can be suspended, with the locals that live across them.
    Busy waits ([while rdtsc() - start < n {}]) touch nothing but the clock and
    are left out; the points where they end in a [yield] are kept.  Cryptography
    comes from crates outside the repository and is the interface [Crypto]. *)

From stdpp Require Import strings.
From S2P Require Import Prelude Bufs Alloc Context DB.

(** ** Loops over the values of a multiget *)

(** [while vals.next() { body }]: a value list of [n] elements gives at most [n]
    turns (an empty one lets the first [next] succeed). *)
Fixpoint while_next {D S} (fuel : nat) (body : S → MultiReadBuf → ext_m D S) (s : S)
    (vals : MultiReadBuf) : ext_m D (S * MultiReadBuf) :=
  match fuel with
  | O => mret (s, vals)
  | Datatypes.S fuel =>
      let (more, vals) := mrb_next vals in
      if more : bool then s ← body s vals; while_next fuel body s vals else mret (s, vals)
  end.

Definition turns (vals : MultiReadBuf) : nat := Datatypes.S (length (mrb_inner vals)).

(** ** get and put *)

Section get_put.
Context `{DB D}.

Definition ext_get (_ : unit) : ext_m D (gen_step unit) :=
  args ← db_args;
  if decide (len args <= 8) then fail_with "Invalid args" 1
  else
    '(table, key) ← lift (split_at args 8);
    obj ← db_get (or_bytes 0 0 table) key;
    match obj with
    | Some val => _ ← db_resp (rb_read val); mret (GReturn 0)
    | None => fail_with "Object does not exist" 0
    end.

(** [2^8] is an exclusive or, and binds less tightly than [+] and [*]. *)
Definition put_table (table : bytes) : outcome Z :=
  match table with
  | [a; b; c; d; e; f; g; h] =>
      Ret (Z.lxor (Z.lxor (Z.lxor (Z.lxor (Z.lxor (Z.lxor (Z.lxor
             (a + b * 2) (8 + c * 2)) (16 + d * 2)) (24 + e * 2)) (32 + f * 2)) (40 + g * 2))
             (48 + h * 2)) 56)
  | _ => Panic
  end.

Definition ext_put (_ : unit) : ext_m D (gen_step unit) :=
  args ← db_args;
  if decide (len args < 8) then fail_with "Invalid args" 1
  else
    '(table, rem) ← lift (split_at args 8);
    table ← lift (put_table table);
    if decide (len rem < 2) then fail_with "Invalid args" 1
    else
      '(key_len, obj) ← lift (split_at rem 2);
      k0 ← lift (index key_len 0);
      k1 ← lift (index key_len 1);
      let key_len := wadd 16 k0 (wmul 16 k1 256) in
      if decide (len obj < key_len) then fail_with "Invalid args" 1
      else
        let val_offset := wadd 16 0 (wadd 16 10 key_len) in
        '(key, val) ← lift (split_at obj key_len);
        alloc ← db_alloc table key (len val);
        match alloc with
        | Some buf =>
            args ← db_args;
            '(_, val) ← lift (split_at args val_offset);
            buf ← lift (write_slice buf val);
            ok ← db_put buf;
            if ok : bool then _ ← db_resp (str "Success"); mret (GReturn 0)
            else fail_with "put() failed" 1
        | None => fail_with "Allocation failed" 1
        end.
End get_put.

(** ** scan *)

Section scan.
Context `{DB D}.

(** The [n] turns of the loop, from the running key and sum. *)
Fixpoint scan_loop (n : nat) (table : Z) (keys : bytes) (sum : Z) : ext_m D (gen_step unit) :=
  match n with
  | O => _ ← db_resp (pack 8 sum); mret (GReturn 0)
  | S n =>
      obj ← db_get table keys;
      match obj with
      | Some val =>
          b ← lift (index (rb_read val) 0);
          let sum := sum +u64 b in
          next ← lift (slice (rb_read val) 0 4);
          keys ← lift (copy_from_slice keys 0 4 next);
          scan_loop n table keys sum
      | None => fail_with "Object does not exist" 0
      end
  end.

Definition ext_scan (_ : unit) : ext_m D (gen_step unit) :=
  args ← db_args;
  if decide (len args <= 8) then fail_with "Invalid args" 1
  else
    '(t, value) ← lift (split_at args 8);
    '(ord, key) ← lift (split_at value 4);
    let table := or_bytes 0 0 t in
    let range := or_bytes 0 0 ord in
    scan_loop (Z.to_nat (wsub 32 range 1)) table key 0.
End scan.

(** ** ycsbt *)

(** Suspended in the compute part, before another turn of its loop. *)
Inductive YcsbtGen :=
| YcsbtInit
| YcsbtLoop (table : Z) (keys : bytes) (multiobj : option MultiReadBuf) (order : Z).

(** The transfer between the first bytes of the two records. *)
Definition ycsbt_transfer (value1 value2 : bytes) : outcome (bytes * bytes) :=
  a ← index value1 0;
  b ← index value2 0;
  if decide (a > 0 ∧ b < 255) then
    value1 ← set_index value1 0 (a - 1);
    value2 ← set_index value2 0 (b + 1);
    Ret (value1, value2)
  else if decide (b > 0 ∧ a < 255) then
    value2 ← set_index value2 0 (b - 1);
    value1 ← set_index value1 0 (a + 1);
    Ret (value1, value2)
  else Ret (value1, value2).

Section ycsbt.
Context `{DB D}.

Definition ycsbt_finish (table : Z) (keys : bytes) (multiobj : option MultiReadBuf) :
    ext_m D (gen_step YcsbtGen) :=
  match multiobj with
  | Some vals =>
      if decide (mrb_num vals = 2) then
        '(key1, key2) ← lift (split_at keys 30);
        value1 ← lift (mrb_read vals);
        let (_, vals) := mrb_next vals in
        value2 ← lift (mrb_read vals);
        '(value1, value2) ← lift (ycsbt_transfer value1 value2);
        buf1 ← db_alloc table key1 (len value1);
        match buf1 with
        | Some buf1 =>
            buf2 ← db_alloc table key2 (len value2);
            match buf2 with
            | Some buf2 =>
                buf1 ← lift (write_slice buf1 value1);
                buf2 ← lift (write_slice buf2 value2);
                _ ← db_put buf1;
                _ ← db_put buf2;
                mret (GReturn 0)
            | None => fail_with "Error" 1
            end
        | None => fail_with "Error" 1
        end
      else fail_with "Error" 1
  | None => fail_with "Object does not exist" 1
  end.

(** A turn of the compute loop. *)
Definition ycsbt_loop (table : Z) (keys : bytes) (multiobj : option MultiReadBuf) (order : Z) :
    ext_m D (gen_step YcsbtGen) :=
  if decide (order <= 2000) then ycsbt_finish table keys multiobj
  else mret (GYield (YcsbtLoop table keys multiobj (order - 2000))).

(** [db.debug_log("")], for the operation 3, does nothing ([DEBUG] is false). *)
Definition ycsbt_start : ext_m D (gen_step YcsbtGen) :=
  args ← db_args;
  if decide (len args <= 38) then fail_with "Invalid args" 1
  else
    optype ← lift (index args (len args - 1));
    if decide (optype = 3) then mret (GReturn 0)
    else
      '(s_table, rem) ← lift (split_at args 8);
      '(rem, _) ← lift (split_at rem (len rem - 1));
      '(keys, ord) ← lift (split_at rem (wsub 64 (len rem) 4));
      let table := or_bytes 0 0 s_table in
      let order := or_bytes 0 0 ord in
      if decide (optype = 1) then
        obj ← db_get table keys;
        match obj with
        | Some val => _ ← db_resp (rb_read val); mret (GReturn 0)
        | None => fail_with "Object does not exist" 1
        end
      else
        multiobj ← db_multiget table 30 keys;
        if decide (order > 0) then
          if decide (order >= 600) then mret (GYield (YcsbtLoop table keys multiobj (order - 600)))
          else ycsbt_loop table keys multiobj order
        else ycsbt_finish table keys multiobj.

Definition ext_ycsbt (g : YcsbtGen) : ext_m D (gen_step YcsbtGen) :=
  match g with
  | YcsbtInit => ycsbt_start
  | YcsbtLoop table keys multiobj order => ycsbt_loop table keys multiobj order
  end.
End ycsbt.

(** ** aggregate *)

Definition SUCCESSFUL : Z := 1.

Definition INVALIDKEY : Z := 3.

Definition KEYLENGTH : Z := 30.

Inductive AggregateGen :=
| AggrInit
| AggrCompute (order aggr : Z).

Section aggregate.
Context `{DB D}.

(** The first bytes of the values. *)
Definition aggr_column (vals : MultiReadBuf) : ext_m D (list Z) :=
  let push col vals := v ← lift (mrb_read vals); b ← lift (index v 0); mret (col ++ [b]) in
  col ← (if decide (mrb_num vals > 0) then push [] vals else mret []);
  '(col, _) ← while_next (turns vals) push col vals;
  mret col.

Definition aggr_start : ext_m D (gen_step AggregateGen) :=
  arg ← db_args;
  '(t, val) ← lift (split_at arg 8);
  '(n, val) ← lift (split_at val 4);
  '(o, key) ← lift (split_at val 4);
  let table := or_bytes 0 0 t in
  let num_k := or_bytes 0 0 n in
  let order := or_bytes 0 0 o in
  obj ← GET1 table key;
  match obj with
  | Some val =>
      '(value, _) ← lift (split_at (rb_read val) (KEYLENGTH * num_k));
      buf ← MULTIGET1 table KEYLENGTH value;
      match buf with
      | Some vals =>
          col ← aggr_column vals;
          mret (GYield (AggrCompute order (foldl (wadd 64) 0 col)))
      | None => _ ← db_resp (pack 1 INVALIDKEY); mret (GReturn 0)
      end
  | None => mret (GYield (AggrCompute order 0))
  end.

(** [aggr] is squared [order - 1] times. *)
Definition ext_aggregate (g : AggregateGen) : ext_m D (gen_step AggregateGen) :=
  match g with
  | AggrInit => aggr_start
  | AggrCompute order aggr =>
      let aggr := Nat.iter (Z.to_nat (order - 1)) (λ a, wmul 64 a a) aggr in
      _ ← db_resp (pack 1 SUCCESSFUL);
      _ ← db_resp (pack 8 aggr);
      mret (GReturn 0)
  end.
End aggregate.

(** ** pushback *)

(** Waiting for the [i]th of [num] lookups, or in the compute loop. *)
Inductive PushbackGen :=
| PbInit
| PbGet (i num ord : Z) (table : Z) (keys : bytes)
| PbLoop (ord mul : Z).

Section pushback.
Context `{DB D}.

(** A turn of the compute loop. *)
Definition pb_loop (ord mul : Z) : ext_m D (gen_step PushbackGen) :=
  if decide (ord <= 2000) then _ ← db_resp (pack 8 mul); mret (GReturn 0)
  else mret (GYield (PbLoop (ord - 2000) mul)).

Definition pb_compute (ord mul : Z) : ext_m D (gen_step PushbackGen) :=
  if decide (ord >= 600) then mret (GYield (PbLoop (ord - 600) mul)) else pb_loop ord mul.

(** The body of the loop once the object is there: [inl] carries the key of
    the next lookup, [inr] the result of the last one. *)
Definition pb_object (i num : Z) (keys : bytes) (obj : option ReadBuf) :
    ext_m D (option (bytes + Z)) :=
  match obj with
  | Some val =>
      if decide (i = wsub 32 num 1) then b ← lift (index (rb_read val) 0); mret (Some (inr b))
      else
        next ← lift (slice (rb_read val) 0 4);
        keys ← lift (copy_from_slice keys 0 4 next);
        mret (Some (inl keys))
  | None => _ ← db_resp (str "Object does not exist"); mret None
  end.

(** The turns [i], [i+1], ... of the loop; [fuel] is [num - i]. *)
Fixpoint pb_lookups (fuel : nat) (i num ord table : Z) (keys : bytes) (mul : Z) :
    ext_m D (gen_step PushbackGen) :=
  match fuel with
  | O => pb_compute ord mul
  | S fuel =>
      r ← GET table keys;
      match r with
      | None => mret (GYield (PbGet i num ord table keys))
      | Some obj =>
          r ← pb_object i num keys obj;
          match r with
          | None => mret (GReturn 1)
          | Some (inl keys) => pb_lookups fuel (i + 1) num ord table keys mul
          | Some (inr mul) => pb_lookups fuel (i + 1) num ord table keys mul
          end
      end
  end.

Definition pb_start : ext_m D (gen_step PushbackGen) :=
  args ← db_args;
  if decide (len args <= 8) then fail_with "Invalid args" 1
  else
    '(table, value) ← lift (split_at args 8);
    '(number, value) ← lift (split_at value 4);
    '(order, keys) ← lift (split_at value 4);
    let num := or_bytes 0 0 number in
    pb_lookups (Z.to_nat num) 0 num (or_bytes 0 0 order) (or_bytes 0 0 table) keys 0.

(** After the [yield] of [GET!] the extension reads again, without a check. *)
Definition ext_pushback (g : PushbackGen) : ext_m D (gen_step PushbackGen) :=
  match g with
  | PbInit => pb_start
  | PbGet i num ord table keys =>
      obj ← db_get table keys;
      r ← pb_object i num keys obj;
      match r with
      | None => mret (GReturn 1)
      | Some (inl keys) => pb_lookups (Z.to_nat (num - (i + 1))) (i + 1) num ord table keys 0
      | Some (inr mul) => pb_lookups (Z.to_nat (num - (i + 1))) (i + 1) num ord table keys mul
      end
  | PbLoop ord mul => pb_loop ord mul
  end.
End pushback.

(** ** auth *)

(** AES in IGE mode (key, initialisation vector, sixteen bytes), bcrypt (cost,
    salt, password; twenty-four bytes) and the digests of crypto_hash. *)
Class Crypto := {
  aes_ige_decrypt : bytes → bytes → bytes → bytes;
  bcrypt : Z → bytes → bytes → bytes;
  digest_md5 : bytes → bytes;
  digest_sha1 : bytes → bytes;
  digest_sha256 : bytes → bytes;
  digest_sha512 : bytes → bytes;
}.

Definition AUTH_INVALIDARG : Z := 1.

Definition AUTH_SUCCESSFUL : Z := 2.

Definition AUTH_UNSUCCESSFUL : Z := 3.

Definition AUTH_ABSENTOBJECT : Z := 4.

Inductive AuthGen :=
| AuthInit
| AuthGet (table : Z) (username password : bytes)
| AuthCheck (obj : option ReadBuf) (password : bytes).

Section auth.
Context `{Crypto} `{DB D}.

Definition auth_key : bytes := seqZ 0 16.

Definition auth_iv : bytes := seqZ 0 32.

Definition auth_start : ext_m D (gen_step AuthGen) :=
  args ← db_args;
  if decide (len args ≠ 110) then _ ← db_resp (pack 1 AUTH_INVALIDARG); mret (GReturn 1)
  else
    '(s_table, remain_args) ← lift (split_at args 8);
    '(userid, pass) ← lift (split_at remain_args 30);
    first ← lift (slice pass 0 16);
    output ← lift (slice (aes_ige_decrypt auth_key auth_iv first) 0 16);
    password ← lift (copy_from_slice pass 0 16 output);
    let table := or_bytes 0 0 s_table in
    r ← GET table userid;
    match r with
    | None => mret (GYield (AuthGet table userid password))
    | Some obj => mret (GYield (AuthCheck obj password))
    end.

Definition auth_check (obj : option ReadBuf) (password : bytes) : ext_m D (gen_step AuthGen) :=
  match obj with
  | Some val =>
      let bs := rb_read val in
      if decide (len bs ≠ 40) then _ ← db_resp (pack 1 AUTH_INVALIDARG); mret (GReturn 0)
      else
        hash ← lift (slice bs 0 24);
        salt ← lift (slice bs 24 40);
        let status := if decide (bcrypt 1 salt password = hash) then AUTH_SUCCESSFUL
                      else AUTH_UNSUCCESSFUL in
        _ ← db_resp (pack 1 status); mret (GReturn 0)
  | None => _ ← db_resp (pack 1 AUTH_ABSENTOBJECT); mret (GReturn 0)
  end.

Definition ext_auth (g : AuthGen) : ext_m D (gen_step AuthGen) :=
  match g with
  | AuthInit => auth_start
  | AuthGet table username password =>
      obj ← db_get table username; mret (GYield (AuthCheck obj password))
  | AuthCheck obj password => auth_check obj password
  end.
End auth.

(** ** long *)

(** Before turn [i]. *)
Inductive LongGen := LongAt (i : Z).

Section long.
Context `{DB D}.

Fixpoint long_loop (fuel : nat) (i : Z) : ext_m D (gen_step LongGen) :=
  match fuel with
  | O => mret (GReturn 0)
  | S fuel =>
      args ← db_args;
      if decide (len args <= 8) then fail_with "Invalid args" 1
      else
        '(table, val) ← lift (split_at args 8);
        '(y, key) ← lift (split_at val 1);
        y_n ← lift (index y 0);
        obj ← db_get (or_bytes 0 0 table) key;
        match obj with
        | Some val =>
            '(front, _) ← lift (split_at (rb_read val) 8);
            _ ← db_resp front;
            if decide (Z.land i (wsub 16 y_n 1) = 0 ∧ y_n < 128) then mret (GYield (LongAt (i + 1)))
            else long_loop fuel (i + 1)
        | None => fail_with "Object does not exist" 1
        end
  end.

Definition ext_long (g : LongGen) : ext_m D (gen_step LongGen) :=
  match g with LongAt i => long_loop (Z.to_nat (128 - i)) i end.
End long.

(** ** checksum *)

Inductive ChecksumGen :=
| CkInit
| CkNext (vals : MultiReadBuf) (num optype aggr : Z).

Section checksum.
Context `{Crypto} `{DB D}.

Definition ck_digest (optype : Z) (v : bytes) : option bytes :=
  if decide (optype = 1) then Some (digest_md5 v)
  else if decide (optype = 2) then Some (digest_sha1 v)
  else if decide (optype = 3) then Some (digest_sha256 v)
  else if decide (optype = 4) then Some (digest_sha512 v)
  else None.

(** The head of the loop; its counter [i] stays 0. *)
Definition ck_next (vals : MultiReadBuf) (num optype aggr : Z) : ext_m D (gen_step ChecksumGen) :=
  let (more, vals) := mrb_next vals in
  let i := 0 in
  if (more : bool) && bool_decide (i < num) then
    aggr ← (match optype with
            | 1 | 2 | 3 | 4 =>
                v ← lift (mrb_read vals);
                r ← lift (expect (ck_digest optype v));
                b ← lift (index r 0);
                mret (aggr +u64 b)
            | _ => mret aggr
            end);
    mret (GYield (CkNext vals num optype aggr))
  else
    _ ← db_resp (pack 1 SUCCESSFUL);
    _ ← db_resp (pack 8 aggr);
    mret (GReturn 0).

Definition ck_start : ext_m D (gen_step ChecksumGen) :=
  arg ← db_args;
  '(t, rem) ← lift (split_at arg 8);
  '(n, rem) ← lift (split_at rem 4);
  '(key, op) ← lift (split_at rem 8);
  optype ← lift (index op 0);
  let table := or_bytes 0 0 t in
  let num := or_bytes 0 0 n in
  obj ← GET1 table key;
  buf ← (match obj with
         | Some val =>
             '(value, _) ← lift (split_at (rb_read val) (KEYLENGTH * num));
             MULTIGET1 table KEYLENGTH value
         | None => mret None
         end);
  match buf with
  | Some vals => ck_next vals num optype 0
  | None => _ ← db_resp (pack 1 INVALIDKEY); mret (GReturn 0)
  end.

Definition ext_checksum (g : ChecksumGen) : ext_m D (gen_step ChecksumGen) :=
  match g with
  | CkInit => ck_start
  | CkNext vals num optype aggr => ck_next vals num optype aggr
  end.
End checksum.

(** ** test, err and bad *)

Section trivial.
Context `{DB D}.

(** What follows the [return] is never reached. *)
Definition ext_test (_ : unit) : ext_m D (gen_step unit) := mret (GReturn 0).

Inductive ErrGen :=
| ErrInit
| ErrYielded.

(** Called [start], so that it does not load. *)
Definition ext_err (g : ErrGen) : ext_m D (gen_step ErrGen) :=
  match g with
  | ErrInit => mret (GYield ErrYielded)
  | ErrYielded => mret (GReturn 0)
  end.

(** [loop {}]; the fuel counts the turns. *)
Fixpoint bad_loop (fuel : nat) : ext_m D (gen_step unit) :=
  match fuel with
  | O => lift Undef
  | S fuel => bad_loop fuel
  end.

Definition ext_bad (fuel : nat) (_ : unit) : ext_m D (gen_step unit) := bad_loop fuel.
End trivial.
