(* ===== verification/DBSpecs.v ===== *)
(** * DBSpecs: what extensions rely on

    [DBSpec] states what the methods of the [DB] trait promise to an extension
    that reads keys and writes values; the server's [Context] and the client's
    [ProxyDB] both keep it, so that what is proved of an extension against
    [DBSpec] holds on both sides of a pushback. *)

From S2P Require Import Prelude Packed Headers Packet Wire Rpc Alloc Tx Table Store Handlers.
From S2P Require Import HandlerSpecs CommitSpecs Bufs Context ContextSpecs Task Dispatch Proxy Client.
From S2P Require Import DB.

(** Overwriting a part of a buffer. *)
Lemma copy_at (pre mid post v : bytes) a b :
  a = len pre → b = len pre + len mid → len v = len mid →
  copy_from_slice (pre ++ mid ++ post) a b v = Ret (pre ++ v ++ post).
Proof.
  intros -> -> Hv. unfold copy_from_slice. pose proof (len_nonneg pre). pose proof (len_nonneg mid).
  pose proof (len_nonneg post).
  rewrite decide_True by (rewrite !len_app; lia). do 2 f_equal.
  - by rewrite take_app_length' by (unfold len; lia).
  - f_equal. rewrite (assoc_L (++)), drop_app_length'; [done|]. rewrite length_app. unfold len. lia.
Qed.

(** ** The contract *)

Class DBSpec `{BytesCrate} (D : Type) `{!DB D} := {
  (** The extension's arguments. *)
  sees_args : D → bytes → Prop;
  (** A lookup of the key finds this value at this version. *)
  holds : D → Z → bytes → Z → bytes → Prop;
  (** [room d table n]: the extension can still allocate [n] objects. *)
  room : D → Z → nat → Prop;
  (** Keys and lengths of values that can be written. *)
  writable : bytes → Z → Prop;
  (** The buffer is an object of the table that can be put. *)
  ready : D → WriteBuf → Z → bytes → bytes → Prop;
  (** The transaction that ends the extension, and what a read adds to it. *)
  trans : D → TX;
  note_read : TX → Z → bytes → bytes → TX;
}.

Section derived.
Context `{DBSpec D}.

(** What no method takes away. *)
Record keeps (d d' : D) : Prop := {
  keeps_args : ∀ a, sees_args d a → sees_args d' a;
  keeps_holds : ∀ t k ver v, holds d t k ver v → holds d' t k ver v;
  keeps_ready : ∀ b t k v, ready d b t k v → ready d' b t k v;
}.

Definition keeps_room (d d' : D) : Prop := ∀ t n, room d t n → room d' t n.

#[export] Instance keeps_preorder : PreOrder keeps.
Proof.
  split; [by split|]. intros d1 d2 d3 [] []. split; naive_solver.
Qed.

(** A key with its version and value. *)
Definition found : Type := bytes * (Z * bytes).

Definition note_reads (tx : TX) (rs : list found) : TX :=
  foldl (λ tx r, note_read tx r.2.1 r.1 r.2.2) tx rs.
End derived.

Class DBLaws `{BytesCrate} (D : Type) `{!DB D, !DBSpec D} := {
  db_args_law : ∀ d a, sees_args d a → db_args d = (d, Ret a);
  db_get_law : ∀ d t k ver v, holds d t k ver v →
    ∃ d', db_get t k d = (d', Ret (Some (mkReadBuf v))) ∧
      keeps d d' ∧ keeps_room d d' ∧ trans d' = note_read (trans d) ver k v;
  db_multiget_law : ∀ d t n rs, 0 < n → rs ≠ [] →
    Forall (λ r : found, len r.1 = n ∧ holds d t r.1 r.2.1 r.2.2) rs →
    ∃ d', db_multiget t n (concat (fst <$> rs)) d =
        (d', Ret (Some (MultiReadBuf_new ((λ r : found, r.2.2) <$> rs)))) ∧
      keeps d d' ∧ keeps_room d d' ∧ trans d' = note_reads (trans d) rs;
  db_alloc_law : ∀ d t n k size, room d t (S n) → writable k size →
    ∃ d' b, db_alloc t k size d = (d', Ret (Some b)) ∧
      keeps d d' ∧ room d' t n ∧ trans d' = trans d ∧
      ∀ v, len v = size → ∃ b', write_slice b v = Ret b' ∧ ready d' b' t k v;
  db_put_law : ∀ d b t k v, ready d b t k v →
    ∃ d', db_put b d = (d', Ret true) ∧ keeps d d' ∧ keeps_room d d' ∧
      trans d' = record_put (trans d) (mkRwRecord SandstormWrite 0 k v);
}.

(** ** The server keeps it *)

Section server.
Context `{BytesCrateLaws} (tsc : nat → Z).
#[local] Hint Extern 0 (DB ServerDB) => exact (server_db tsc) : typeclass_instances.

Definition sv_tenant (d : ServerDB) : Tenant := ctx_tenant (sv_ctx d).

Definition sv_holds (d : ServerDB) (tid : Z) (key : bytes) (ver : Z) (v : bytes) : Prop :=
  ∃ l t e, get_table (sv_tenant d) tid = Some l ∧ heap (sv_store d) !! l = Some t ∧
    table_get t key = Ret (Some e) ∧ resolve (entry_value e) = Ret (Some (key, v)) ∧
    entry_version e = ver.

(** Every allocation of a thirty-byte key counts forty-four bytes. *)
Definition sv_room (d : ServerDB) (tid : Z) (n : nat) : Prop :=
  is_Some (get_table (sv_tenant d) tid) ∧
  0 ≤ allocs (sv_ctx d) ∧ allocs (sv_ctx d) + 44 * Z.of_nat n < MAX_ALLOC + 44.

Definition sv_ready (d : ServerDB) (b : WriteBuf) (tid : Z) (key v : bytes) : Prop :=
  is_Some (get_table (sv_tenant d) tid) ∧ wb_table b = tid ∧ len key < 2 ^ 16 ∧ len v < 2 ^ 63 ∧
  bm_data (wb_inner b) = obj_layout (tenant_id (sv_tenant d)) tid key v.

#[export] Instance server_spec : @DBSpec _ ServerDB (server_db tsc) := {|
  sees_args d a := ctx_args (sv_ctx d) = Ret a;
  holds := sv_holds;
  room := sv_room;
  writable k size := len k = 30 ∧ 0 ≤ size < 2 ^ 63;
  ready := sv_ready;
  trans d := ctx_tx (sv_ctx d);
  note_read tx ver k v := record_get tx (mkRwRecord SandstormRead ver k v);
|}.

(** Same arguments, same tenant. *)
Record same_frame (c c' : Context) : Prop := {
  sf_request : request c' = request c;
  sf_offset : args_offset c' = args_offset c;
  sf_length : ctx_args_length c' = ctx_args_length c;
  sf_tenant : ctx_tenant c' = ctx_tenant c;
}.

Lemma sv_keeps d c' n :
  same_frame (sv_ctx d) c' → keeps d (mkServerDB (sv_store d) c' n).
Proof.
  intros [Hr Ho Hl Ht]. split; cbn; unfold ctx_args, sv_holds, sv_ready, sv_tenant; cbn;
    by rewrite ?Hr, ?Ho, ?Hl, ?Ht.
Qed.

Lemma sv_keeps_room d c' n :
  same_frame (sv_ctx d) c' → allocs c' = allocs (sv_ctx d) →
  keeps_room d (mkServerDB (sv_store d) c' n).
Proof. intros [Hr Ho Hl Ht] Ha t m. cbn. unfold sv_room, sv_tenant. cbn. by rewrite Ht, Ha. Qed.

Lemma sv_call_ret {A} (f : Store → Context → Z → Z → outcome (Context * A)) d c a :
  f (sv_store d) (sv_ctx d) (tsc (sv_clock d)) (tsc (S (sv_clock d))) = Ret (c, a) →
  sv_call tsc f d = (mkServerDB (sv_store d) c (S (S (sv_clock d))), Ret a).
Proof. intros Hf. unfold sv_call. by rewrite Hf. Qed.

Lemma ctx_multiget_loop_holds t n c objs (rs : list found) :
  Forall (λ r : found, len r.1 = n ∧ ∃ e, table_get t r.1 = Ret (Some e) ∧
            resolve (entry_value e) = Ret (Some (r.1, r.2.2)) ∧ entry_version e = r.2.1) rs →
  ctx_multiget_loop t n c objs (fst <$> rs) =
    Ret (with_tx c (note_reads (D := ServerDB) (ctx_tx c) rs),
         Some (objs ++ ((λ r : found, r.2.2) <$> rs))).
Proof.
  intros Hrs. revert c objs. induction Hrs as [|[k [ver v]] rs [Hl (e & He & Hr & Hver)] _ IH];
    intros c objs; cbn.
  { rewrite app_nil_r. by destruct c. }
  cbn in *. rewrite decide_False by auto. rewrite He. cbn. rewrite Hr. cbn. rewrite IH.
  cbn. by rewrite Hver, <- (assoc_L (++)).
Qed.

#[export] Instance server_laws : @DBLaws _ ServerDB (server_db tsc) server_spec.
Proof.
  split.
  - intros d a Ha. cbn in *. by rewrite Ha.
  - intros d t k ver v (l & tb & e & Hl & Ht & Hg & Hr & Hver). eexists. split.
    + apply sv_call_ret. unfold ctx_get, sv_tenant, table_at in *. rewrite Hl, Ht. cbn.
      rewrite Hg. cbn. rewrite Hr. cbn. done.
    + split_and!; [by apply sv_keeps|by apply sv_keeps_room|]. cbn. by rewrite Hver.
  - intros d t n rs Hn Hne Hrs. destruct rs as [|r0 rs]; [done|].
    assert (∃ l tb, get_table (sv_tenant d) t = Some l ∧ heap (sv_store d) !! l = Some tb)
      as (l & tb & Hl & Ht).
    { inversion Hrs as [|? ? [_ (l & tb & e & Hl & Ht & _)]]; subst. eauto. }
    eexists. split.
    + apply sv_call_ret. unfold ctx_multiget, table_at. unfold sv_tenant in Hl. rewrite Hl, Ht.
      cbn -[fmap]. destruct (chunks_concat (fst <$> r0 :: rs) [] n Hn) as (more & Hc & Hm).
      { apply Forall_fmap. eapply Forall_impl; [exact Hrs|]. by intros r [? _]. }
      rewrite app_nil_r in Hc. rewrite Hc. unfold chunks in Hm. rewrite decide_True in Hm by done.
      cbn in Hm. injection Hm as <-. rewrite app_nil_r. cbn -[fmap ctx_multiget_loop].
      rewrite ctx_multiget_loop_holds.
      * cbn -[fmap]. done.
      * eapply Forall_impl; [exact Hrs|]. intros r (Hlr & l' & tb' & e & Hl' & Ht' & Hg & Hr & Hver).
        split; [done|]. unfold sv_tenant in Hl'. simplify_eq. eauto.
    + split_and!; [by apply sv_keeps|by apply sv_keeps_room|done].
  - intros d t n k size (Htb & Ha & Hroom) [Hk Hs]. destruct Htb as [l Hl].
    destruct (ctx_alloc_spec (sv_ctx d) t k size l) as (b & Hb & Htab & Hd & Hc);
      [lia|done|lia|lia|lia|].
    eexists _, b. split; [apply sv_call_ret; exact Hb|].
    split_and!; [by apply sv_keeps| |done|].
    { cbn. unfold sv_room, sv_tenant. cbn. split; [by eexists|]. lia. }
    intros v Hv. unfold write_slice.
    destruct (put_slice_fits (wb_inner b) v) as (b' & Hp & Hd' & _).
    { rewrite Hd, len_app, obj_meta_len, meta_size_eq. lia. }
    rewrite Hp. eexists. split; [done|]. split_and!; cbn; [by eexists|done|lia|lia|].
    rewrite Hd', Hd. unfold obj_layout, obj_meta. by rewrite <- !(assoc_L (++)).
  - intros d b t k v (Htb & Hbt & Hk & Hv & Hd). destruct Htb as [l Hl].
    eexists. split.
    + apply sv_call_ret. unfold ctx_put, wb_freeze. rewrite Hbt. unfold sv_tenant in Hl. rewrite Hl.
      rewrite Hd, resolve_layout by done. cbn. done.
    + split_and!; [by apply sv_keeps|by apply sv_keeps_room|done].
Qed.
End server.

(** ** The client keeps it *)

(** What a proxy database has read and will write. *)
Definition kv_record (o : OpType) (kv : KV) : RwRecord :=
  mkRwRecord o (le_val (kv_version kv)) (kv_key kv) (kv_value kv).

Definition proxy_tx (p : ProxyDB) : TX :=
  mkTX (kv_record SandstormRead <$> p_readset p) (kv_record SandstormWrite <$> p_writeset p).

(** The key is cached: at an index that is not the sentinel of [search_cache]. *)
Definition cached (p : ProxyDB) (key : bytes) (ver : Z) (v : bytes) : Prop :=
  ∃ kv, search_cache (p_readset p) key ≠ 1024 ∧
    p_readset p !! Z.to_nat (search_cache (p_readset p) key) = Some kv ∧
    kv_value kv = v ∧ le_val (kv_version kv) = ver.

Section client.
Context `{BytesCrateLaws} `{Network} (tsc : nat → Z).
#[local] Hint Extern 0 (DB ClientDB) => exact (client_db tsc) : typeclass_instances.

(** Records on the client have thirty bytes of key and a hundred of value. *)
Definition cd_ready (b : WriteBuf) (k v : bytes) : Prop :=
  bm_data (wb_inner b) = replicate 8 0 ++ k ++ v ∧ len k = 30 ∧ len v = 100.

#[export] Instance client_spec : @DBSpec _ ClientDB (client_db tsc) := {|
  sees_args d a := proxy_args (cd_proxy d) = Ret a;
  holds d _ key ver v := cached (cd_proxy d) key ver v;
  room _ _ _ := True;
  writable k size := len k = 30 ∧ size = 100;
  ready _ b _ k v := cd_ready b k v;
  trans d := proxy_tx (cd_proxy d);
  note_read tx _ _ _ := tx;
|}.

Lemma cd_keeps d p' n :
  p_req p' = p_req (cd_proxy d) → p_args_offset p' = p_args_offset (cd_proxy d) →
  p_readset p' = p_readset (cd_proxy d) → keeps d (mkClientDB (cd_link d) p' n).
Proof. intros Hr Ho Hrs. split; cbn; unfold proxy_args, cached; by rewrite ?Hr, ?Ho, ?Hrs. Qed.

Lemma proxy_multiget_loop_cached p n (rs : list found) objs :
  Forall (λ r : found, len r.1 = n ∧ cached p r.1 r.2.1 r.2.2) rs →
  proxy_multiget_loop p n (fst <$> rs) objs = Ret (objs ++ ((λ r : found, r.2.2) <$> rs)).
Proof.
  intros Hrs. revert objs. induction Hrs as [|[k [ver v]] rs [Hl (kv & Hi & Hkv & Hv & _)] _ IH];
    intros objs; cbn; [by rewrite app_nil_r|]. cbn in *.
  rewrite decide_False by auto. rewrite decide_True by done. unfold read_at. rewrite Hkv. cbn.
  by rewrite IH, <- (assoc_L (++)), Hv.
Qed.

Lemma note_reads_client tx (rs : list found) : note_reads (D := ClientDB) tx rs = tx.
Proof. unfold note_reads. by induction rs. Qed.

Lemma split_kv_zeros k v :
  len k = 30 → split_kv (replicate 8 0 ++ k ++ v) 30 = Ret (mkKV (replicate 8 0) k v).
Proof.
  intros Hk. unfold split_kv. rewrite split_at_app by done. cbn [mbind outcome_bind].
  by rewrite split_at_app by done.
Qed.

Lemma cd_call_ret {A} (f : Link → ProxyDB → Z → Z → outcome (Link * ProxyDB * A)) d w p a :
  f (cd_link d) (cd_proxy d) (tsc (cd_clock d)) (tsc (S (cd_clock d))) = Ret (w, p, a) →
  cd_call tsc f d = (mkClientDB w p (S (S (cd_clock d))), Ret a).
Proof. intros Hf. unfold cd_call. by rewrite Hf. Qed.

#[export] Instance client_laws : @DBLaws _ ClientDB (client_db tsc) client_spec.
Proof.
  split.
  - intros d a Ha. cbn in *. by rewrite Ha.
  - intros d t k ver v (kv & Hi & Hkv & Hv & _). eexists. split.
    + apply cd_call_ret. unfold proxy_get, read_at. cbn [set_waiting p_readset]. rewrite Hkv. cbn.
      by rewrite Hv.
    + split_and!; [by apply cd_keeps|done..].
  - intros d t n rs Hn _ Hrs. eexists. split.
    + apply cd_call_ret. unfold proxy_multiget.
      destruct (chunks_concat (fst <$> rs) [] n Hn) as (more & Hc & Hm).
      { apply Forall_fmap. eapply Forall_impl; [exact Hrs|]. by intros r [? _]. }
      rewrite app_nil_r in Hc. rewrite Hc. unfold chunks in Hm. rewrite decide_True in Hm by done.
      cbn in Hm. injection Hm as <-. rewrite app_nil_r. cbn -[fmap proxy_multiget_loop].
      by rewrite proxy_multiget_loop_cached.
    + split_and!; [by apply cd_keeps|done|]. by rewrite note_reads_client.
  - intros d t n k size _ [Hk ->].
    pose proof (with_capacity_data (8 +u64 len k +u64 100)) as Hd.
    pose proof (with_capacity_capacity (8 +u64 len k +u64 100)) as Hc.
    rewrite Hk in *. change (8 +u64 30 +u64 100) with 138 in *.
    destruct (put_slice_fits (with_capacity 138) (replicate 8 0)) as (b1 & Hp1 & Hd1 & Hc1).
    { rewrite Hd. change (len [] + len (replicate 8 0)) with 8. lia. }
    destruct (put_slice_fits b1 k) as (b2 & Hp2 & Hd2 & Hc2).
    { rewrite Hd1, Hd, app_nil_l, Hk. change (len (replicate 8 0)) with 8. lia. }
    eexists _, _. split.
    + apply cd_call_ret. unfold proxy_alloc, write_slice, WriteBuf_new. rewrite Hk.
      change (8 +u64 30 +u64 100) with 138. cbn [wb_inner]. rewrite Hp1. cbn [mbind outcome_bind wb_inner].
      rewrite Hp2. cbn. done.
    + split_and!; [by apply cd_keeps|done..|]. intros v Hv.
      destruct (put_slice_fits b2 v) as (b3 & Hp3 & Hd3 & _).
      { rewrite Hd2, Hd1, Hd, app_nil_l, len_app, Hk, Hv.
        change (len (replicate 8 0)) with 8. lia. }
      unfold write_slice. cbn [wb_inner]. rewrite Hp3. eexists. split; [done|].
      split_and!; [|done..]. cbn. by rewrite Hd3, Hd2, Hd1, Hd, app_nil_l, <- (assoc_L (++)).
  - intros d b t k v (Hb & Hk & Hv). eexists. split.
    + apply cd_call_ret. unfold proxy_put, wb_freeze. rewrite Hb.
      rewrite !len_app, Hk, Hv. change (len (replicate 8 0) + (30 + 100)) with 138.
      unfold assert_. rewrite decide_True by done. cbn [mbind outcome_bind].
      unfold set_write_record. rewrite split_kv_zeros by done. cbn. done.
    + split_and!; [by apply cd_keeps|done|]. cbn. unfold proxy_tx, record_put. cbn.
      by rewrite fmap_app.
Qed.
End client.
