(* ===== verification/ExtSpecs.v ===== *)
(** * ExtSpecs: what the extensions do

    Theorems about the extensions of file [Programs], most of them against the
    contract [DBSpec], hence for an extension that runs on the server and for
    one that was pushed back to its client. *)

From S2P Require Import Prelude Packed Headers Packet Wire Rpc Alloc Tx Table Store Handlers.
From S2P Require Import HandlerSpecs CommitSpecs Bufs Context ContextSpecs Task Dispatch Proxy Client.
From S2P Require Import DispatchSpecs Client DB DBSpecs Programs.

(** ** Running a generator *)

(** Resume until the generator returns.  [env i] is what others do to the
    database after the [i]th yield.  The result is the number of yields and the
    returned value, [None] when the fuel runs out. *)
Section drive.
Context {D G : Type} (resume : G → ext_m D (gen_step G)) (env : nat → D → D).

Fixpoint drive (fuel i : nat) (g : G) (d : D) : D * outcome (option (nat * Z)) :=
  match fuel with
  | O => (d, Ret None)
  | S fuel =>
      match resume g d with
      | (d, Ret (GReturn v)) => (d, Ret (Some (i, v)))
      | (d, Ret (GYield g)) => drive fuel (S i) g (env i d)
      | (d, Panic) => (d, Panic)
      | (d, Undef) => (d, Undef)
      end
  end.

(** It stops within [n] resumptions, by returning or by a panic. *)
Definition halts (n : nat) (g : G) (d : D) : Prop := ∀ i, (drive n i g d).2 ≠ Ret None.

(** A generator whose suspended states get smaller halts. *)
Lemma halts_measure (P : G → Prop) (m : G → nat) :
  (∀ g d d' g', P g → resume g d = (d', Ret (GYield g')) → P g' ∧ (m g' < m g)%nat) →
  ∀ n g d, P g → (m g < n)%nat → halts n g d.
Proof.
  intros Hm n. induction n as [|n IH]; intros g d Hg Hn i; [lia|]. cbn.
  destruct (resume g d) as [d' [[g'|v]| |]] eqn:E; try done.
  destruct (Hm _ _ _ _ Hg E). apply IH; [done|lia].
Qed.

Lemma drive_yield n i g d d' g' :
  resume g d = (d', Ret (GYield g')) → drive (S n) i g d = drive n (S i) g' (env i d').
Proof. cbn [drive]. by intros ->. Qed.

Lemma drive_return n i g d d' v :
  resume g d = (d', Ret (GReturn v)) → drive (S n) i g d = (d', Ret (Some (i, v))).
Proof. cbn [drive]. by intros ->. Qed.
End drive.

(** ** Steps of a computation *)

Lemma ebind {D A B} (m : ext_m D A) (f : A → ext_m D B) d d' a :
  m d = (d', Ret a) → (m ≫= f) d = f a d'.
Proof. unfold mbind, ext_bind. by intros ->. Qed.

Lemma ebind_lift {D A B} (m : outcome A) (f : A → ext_m D B) d a :
  m = Ret a → (lift m ≫= f) d = f a d.
Proof. by intros ->. Qed.

Lemma ebind_inv {D A B} (m : ext_m D A) (f : A → ext_m D B) d d' b :
  (m ≫= f) d = (d', Ret b) → ∃ d1 a, m d = (d1, Ret a) ∧ f a d1 = (d', Ret b).
Proof. unfold mbind, ext_bind. destruct (m d) as [d1 [a| |]] eqn:E; intros; simplify_eq. eauto. Qed.

(** Invert a computation that returned, call by call and test by test. *)
Ltac einv :=
  repeat match goal with
  | H : (?m ≫= ?f) ?d = (_, Ret _) |- _ =>
      let d1 := fresh "d" in let a := fresh "a" in let H1 := fresh "E" in
      apply ebind_inv in H as (d1 & a & H1 & H); cbn beta iota in H
  | H : lift _ _ = (_, Ret _) |- _ => unfold lift in H; simplify_eq
  | H : mret _ _ = (_, Ret _) |- _ => unfold mret, ext_ret in H; simplify_eq
  | H : fail_with _ _ _ = (_, Ret _) |- _ => unfold fail_with in H
  | H : (let (_, _) := ?p in _) _ = (_, Ret _) |- _ => destruct p eqn:?; cbn beta iota in H
  | H : (if decide ?P then _ else _) _ = (_, Ret _) |- _ => destruct (decide P)
  | H : (match ?x with _ => _ end) _ = (_, Ret _) |- _ => destruct x eqn:?; cbn beta iota in H
  end.

(** Perform the next call of a computation, given its result. *)
Ltac estep H := rewrite (ebind _ _ _ _ _ H); cbn beta iota.

Ltac lstep := erewrite ebind_lift by (eassumption || reflexivity); cbn beta iota.

(** A number from its bytes. *)
Lemma or_le n v : in_width (8 * Z.of_nat n) v → or_bytes 0 0 (le_bytes n v) = v.
Proof. intros Hv. rewrite or_bytes_le by auto with kayak. rewrite le_val_bytes. by apply Z.mod_small. Qed.

(** ** ycsbt *)

Definition transfer_bytes (a b : Z) : Z * Z :=
  if decide (a > 0 ∧ b < 255) then (a - 1, b + 1)
  else if decide (b > 0 ∧ a < 255) then (a + 1, b - 1)
  else (a, b).

Lemma index_head (a : Z) r : index (a :: r) 0 = Ret a.
Proof. done. Qed.

Lemma set_index_head (a x : Z) r : set_index (a :: r) 0 x = Ret (x :: r).
Proof. unfold set_index. by rewrite decide_True by (unfold len; cbn [length]; lia). Qed.

Lemma ycsbt_transfer_spec a b r1 r2 :
  ycsbt_transfer (a :: r1) (b :: r2) =
    Ret ((transfer_bytes a b).1 :: r1, (transfer_bytes a b).2 :: r2).
Proof.
  unfold ycsbt_transfer, transfer_bytes. rewrite !index_head. cbn [mbind outcome_bind].
  by do 2 (case_decide; rewrite ?set_index_head; [done|]).
Qed.

(** The yields of the compute part, for its amount of work. *)
Definition loop_yields (order : Z) : nat := Z.to_nat ((order - 1) / 2000).

Definition ycsbt_yields (order : Z) : nat :=
  if decide (order >= 600) then S (loop_yields (order - 600)) else 0.

Lemma loop_yields_done order : order ≤ 2000 → loop_yields order = 0%nat.
Proof.
  intros. unfold loop_yields. assert ((order - 1) / 2000 < 1) by (apply Z.div_lt_upper_bound; lia).
  lia.
Qed.

Lemma loop_yields_more order : 2000 < order → loop_yields order = S (loop_yields (order - 2000)).
Proof.
  intros. unfold loop_yields. replace (order - 1) with (order - 2000 - 1 + 1 * 2000) by lia.
  rewrite Z.div_add by lia. pose proof (Z.div_pos (order - 2000 - 1) 2000). lia.
Qed.

Section ycsbt_proofs.
Context `{DBLaws D} (env : nat → D → D).

(** The two records of a transfer have been read. *)
Definition both_values (v1 v2 : bytes) : option MultiReadBuf := Some (MultiReadBuf_new [v1; v2]).

(** What the extension still needs after its reads. *)
Record can_finish (d : D) (t : Z) (key1 key2 : bytes) (n1 n2 : Z) : Prop := {
  cf_room : room d t 2;
  cf_key1 : writable key1 n1;
  cf_key2 : writable key2 n2;
}.

Definition write_rec (k v : bytes) : RwRecord := mkRwRecord SandstormWrite 0 k v.

Lemma ycsbt_finish_spec d t key1 key2 a b r1 r2 :
  len key1 = 30 → can_finish d t key1 key2 (1 + len r1) (1 + len r2) →
  ∃ d', ycsbt_finish t (key1 ++ key2) (both_values (a :: r1) (b :: r2)) d = (d', Ret (GReturn 0)) ∧
    trans d' = record_put (record_put (trans d) (write_rec key1 ((transfer_bytes a b).1 :: r1)))
                 (write_rec key2 ((transfer_bytes a b).2 :: r2)).
Proof.
  intros Hk1 [Hroom Hw1 Hw2]. unfold ycsbt_finish, both_values.
  rewrite decide_True by done.
  pose proof (split_at_app key1 key2 30 (eq_sym Hk1)) as Hsp. lstep.
  pose proof (ycsbt_transfer_spec a b r1 r2) as Htr.
  set (w1 := (transfer_bytes a b).1 :: r1) in *. set (w2 := (transfer_bytes a b).2 :: r2) in *.
  lstep. change (mrb_next (MultiReadBuf_new [a :: r1; b :: r2]))
    with (true, mkMultiReadBuf [a :: r1; b :: r2] 1 false). cbn beta iota.
  lstep. lstep.
  assert (len w1 = 1 + len r1) as Hl1 by (subst w1; unfold len; cbn [length]; lia).
  assert (len w2 = 1 + len r2) as Hl2 by (subst w2; unfold len; cbn [length]; lia).
  rewrite <- Hl1 in Hw1. rewrite <- Hl2 in Hw2.
  destruct (db_alloc_law d t 1 key1 (len w1) Hroom Hw1) as (d1 & b1 & Ha1 & _ & Hr1 & Ht1 & Hb1).
  destruct (Hb1 w1 eq_refl) as (b1' & Hs1 & Hready1).
  destruct (db_alloc_law d1 t 0 key2 (len w2) Hr1 Hw2) as (d2 & b2 & Ha2 & Hk2 & _ & Ht2 & Hb2).
  destruct (Hb2 w2 eq_refl) as (b2' & Hs2 & Hready2).
  apply (keeps_ready _ _ Hk2) in Hready1.
  destruct (db_put_law d2 b1' t key1 w1 Hready1) as (d3 & Hp1 & Hk3 & _ & Ht3).
  apply (keeps_ready _ _ Hk3) in Hready2.
  destruct (db_put_law d3 b2' t key2 w2 Hready2) as (d4 & Hp2 & _ & _ & Ht4).
  estep Ha1. estep Ha2. lstep. lstep. estep Hp1. estep Hp2.
  exists d4. split; [done|]. by rewrite Ht4, Ht3, Ht2, Ht1.
Qed.

(** Others leave the extension's transaction and its room alone. *)
Definition harmless : Prop := ∀ i d, trans (env i d) = trans d ∧ keeps_room d (env i d).

Context (t : Z) (key1 key2 : bytes) (a b : Z) (r1 r2 : bytes).
Context (Hk1 : len key1 = 30) (Hk2 : len key2 = 30) (Henv : harmless).
Abbreviation vals := (both_values (a :: r1) (b :: r2)).
Abbreviation w1 := (write_rec key1 ((transfer_bytes a b).1 :: r1)).
Abbreviation w2 := (write_rec key2 ((transfer_bytes a b).2 :: r2)).

Lemma ycsbt_loop_drive order i d :
  0 ≤ order → can_finish d t key1 key2 (1 + len r1) (1 + len r2) →
  ∃ d', drive ext_ycsbt env (S (loop_yields order)) i (YcsbtLoop t (key1 ++ key2) vals order) d =
      (d', Ret (Some ((i + loop_yields order)%nat, 0))) ∧
    trans d' = record_put (record_put (trans d) w1) w2.
Proof.
  intros Ho. remember (loop_yields order) as n eqn:Hn. revert order i d Ho Hn.
  induction n as [|n IH]; intros order i d Ho Hn Hd.
  - destruct (ycsbt_finish_spec d t key1 key2 a b r1 r2 Hk1 Hd) as (d' & Hf & Ht).
    exists d'. split; [|done]. rewrite Nat.add_0_r. apply drive_return.
    cbn [ext_ycsbt]. unfold ycsbt_loop. rewrite decide_True; [done|].
    destruct (decide (order <= 2000)); [done|]. rewrite loop_yields_more in Hn by lia. lia.
  - destruct (decide (order <= 2000)); [rewrite loop_yields_done in Hn by lia; lia|].
    destruct (Henv i d) as [Ht Hr].
    rewrite loop_yields_more in Hn by lia. injection Hn as Hn.
    destruct (IH (order - 2000) (S i) (env i d)) as (d' & Hd' & Ht'); [lia|done| |].
    { destruct Hd. split; auto. }
    exists d'. rewrite Ht', Ht. split; [|done].
    erewrite drive_yield; [rewrite Hd'; do 4 f_equal; lia|].
    cbn [ext_ycsbt]. unfold ycsbt_loop. by rewrite decide_False by done.
Qed.

Definition ycsbt_args (tbl : bytes) (order optype : Z) : bytes :=
  tbl ++ (key1 ++ key2) ++ le_bytes 4 order ++ [optype].

Context (tbl : bytes) (Htl : len tbl = 8) (Htb : is_bytes tbl) (Htv : le_val tbl = t).

Lemma ycsbt_start_spec d order optype ver1 ver2 :
  in_width 32 order → optype ≠ 1 → optype ≠ 3 →
  sees_args d (ycsbt_args tbl order optype) →
  holds d t key1 ver1 (a :: r1) → holds d t key2 ver2 (b :: r2) →
  ∃ d', keeps_room d d' ∧
    trans d' = note_read (note_read (trans d) ver1 key1 (a :: r1)) ver2 key2 (b :: r2) ∧
    ycsbt_start d =
      (if decide (order > 0) then
         if decide (order >= 600) then mret (GYield (YcsbtLoop t (key1 ++ key2) vals (order - 600)))
         else ycsbt_loop t (key1 ++ key2) vals order
       else ycsbt_finish t (key1 ++ key2) vals) d'.
Proof.
  intros Ho H1 H3 Hargs Hh1 Hh2. unfold ycsbt_start.
  pose proof (db_args_law d _ Hargs) as Ha. estep Ha.
  assert (len (ycsbt_args tbl order optype) = 73) as Hlen.
  { unfold ycsbt_args. rewrite !len_app, len_le_bytes, Htl, Hk1, Hk2. done. }
  rewrite Hlen, decide_False by lia.
  assert (index (ycsbt_args tbl order optype) (73 - 1) = Ret optype) as Hop.
  { unfold index, ycsbt_args. rewrite decide_True by lia. rewrite !(assoc_L (++)).
    rewrite lookup_app_r by (rewrite !length_app, le_bytes_length; unfold len in *; lia).
    rewrite !length_app, le_bytes_length. unfold len in *.
    replace (_ - _)%nat with 0%nat by lia. done. }
  lstep. rewrite decide_False by done.
  assert (split_at (ycsbt_args tbl order optype) 8 =
            Ret (tbl, (key1 ++ key2) ++ le_bytes 4 order ++ [optype])) as Hs1.
  { by apply split_at_app. }
  lstep. rewrite (assoc_L (++)).
  assert (split_at (((key1 ++ key2) ++ le_bytes 4 order) ++ [optype])
            (len (((key1 ++ key2) ++ le_bytes 4 order) ++ [optype]) - 1) =
          Ret ((key1 ++ key2) ++ le_bytes 4 order, [optype])) as Hs2.
  { apply split_at_app. rewrite !len_app, len_le_bytes. change (len [optype]) with 1. lia. }
  lstep.
  assert (split_at ((key1 ++ key2) ++ le_bytes 4 order)
            (wsub 64 (len ((key1 ++ key2) ++ le_bytes 4 order)) 4) =
          Ret (key1 ++ key2, le_bytes 4 order)) as Hs3.
  { apply split_at_app. rewrite !len_app, len_le_bytes, Hk1, Hk2. done. }
  lstep. rewrite !or_bytes_le by auto with kayak. rewrite le_val_bytes, Htv.
  change (8 * Z.of_nat 4) with 32. rewrite Z.mod_small by done.
  rewrite decide_False by done.
  destruct (db_multiget_law d t 30 [(key1, (ver1, a :: r1)); (key2, (ver2, b :: r2))])
    as (d' & Hm & _ & Hr & Ht); [lia|done|by repeat constructor|].
  cbn [concat fmap list_fmap fst snd] in Hm. rewrite app_nil_r in Hm. estep Hm.
  exists d'. split_and!; [done..|]. done.
Qed.
End ycsbt_proofs.

(** ** Every extension halts *)

Section halting.
Context `{Crypto} `{BytesCrate} `{!DB D} (env : nat → D → D).

(** The arguments are bytes in memory. *)
Context (Hargs : ∀ d d' args, db_args d = (d', Ret args) → is_bytes args ∧ len args < 2 ^ 63).

Lemma or_bytes_range n l : is_bytes l → (length l ≤ n)%nat →
  0 ≤ or_bytes 0 0 l < 2 ^ (8 * Z.of_nat n).
Proof.
  intros Hb Hl. rewrite or_bytes_le by done. pose proof (le_val_range l Hb) as Hr.
  unfold in_width in Hr. split; [lia|].
  eapply Z.lt_le_trans; [apply Hr|]. apply Z.pow_le_mono_r; unfold len; lia.
Qed.

Lemma split_at_inv {A} (l l1 l2 : list A) n :
  split_at l n = Ret (l1, l2) → l = l1 ++ l2 ∧ len l1 = n.
Proof.
  unfold split_at. case_decide; intros; simplify_eq. rewrite take_drop. split; [done|].
  unfold len in *. rewrite length_take. lia.
Qed.

(** The pieces of the arguments, with their lengths. *)
Ltac pieces :=
  repeat match goal with
  | H : split_at _ _ = Ret (_, _) |- _ => apply split_at_inv in H as [-> ?]
  | H : db_args _ = (_, Ret _) |- _ => apply Hargs in H as [? ?]
  | H : is_bytes (_ ++ _) |- _ => apply is_bytes_app in H as [? ?]
  end; rewrite ?len_app in *.

Definition ycsbt_measure (g : YcsbtGen) : nat :=
  match g with YcsbtInit => Z.to_nat (2 ^ 32) | YcsbtLoop _ _ _ order => Z.to_nat order end.

Definition ycsbt_ok (g : YcsbtGen) : Prop :=
  match g with YcsbtInit => True | YcsbtLoop _ _ _ order => 0 ≤ order end.

Lemma ycsbt_decreases g d d' g' :
  ycsbt_ok g → ext_ycsbt g d = (d', Ret (GYield g')) →
  ycsbt_ok g' ∧ (ycsbt_measure g' < ycsbt_measure g)%nat.
Proof.
  destruct g as [|t keys obj order]; cbn [ext_ycsbt];
    unfold ycsbt_start, ycsbt_loop, ycsbt_finish; intros Hok Hr; einv; pieces;
    cbn [ycsbt_ok ycsbt_measure] in *; [| |lia].
  all: match goal with |- context [or_bytes 0 0 ?l - _] =>
    pose proof (or_bytes_range 4 l ltac:(done)) as Ho end.
  all: rewrite wsub_id in * by (unfold in_width; lia); unfold len in *.
  all: destruct Ho; [lia|]; change (8 * Z.of_nat 4) with 32 in *; lia.
Qed.

Definition pushback_measure (g : PushbackGen) : nat :=
  match g with
  | PbInit => Z.to_nat (2 ^ 33)
  | PbGet i num ord _ _ => Z.to_nat (num - i + ord)
  | PbLoop ord _ => Z.to_nat ord
  end.

Definition pushback_ok (g : PushbackGen) : Prop :=
  match g with
  | PbInit => True
  | PbGet i num ord _ _ => 0 ≤ i < num ∧ 0 ≤ ord
  | PbLoop ord _ => 0 ≤ ord
  end.

(** A suspended generator whose measure is at most [n]. *)
Definition pushback_below (n : Z) (g : PushbackGen) : Prop :=
  pushback_ok g ∧ (pushback_measure g ≤ Z.to_nat n)%nat.

Lemma pb_loop_below ord mul d d' g' :
  0 ≤ ord → pb_loop ord mul d = (d', Ret (GYield g')) →
  pushback_below ord g' ∧ (pushback_measure g' < Z.to_nat ord)%nat.
Proof. intros Ho Hr. unfold pb_loop in Hr. einv. unfold pushback_below. cbn. lia. Qed.

Lemma pb_lookups_below fuel i num ord table keys mul d d' g' :
  0 ≤ i → num = i + Z.of_nat fuel → 0 ≤ ord →
  pb_lookups fuel i num ord table keys mul d = (d', Ret (GYield g')) →
  pushback_below (num - i + ord) g'.
Proof.
  revert i keys mul d. induction fuel as [|fuel IH]; intros i keys mul d Hi Hn Ho Hr;
    cbn [pb_lookups] in Hr.
  - unfold pb_compute in Hr. einv; [unfold pushback_below; cbn; lia|].
    destruct (pb_loop_below ord mul d d' g' Ho Hr) as [[? ?] _]. split; [done|lia].
  - einv.
    + apply IH in Hr as [? ?]; [|lia..]. split; [done|lia].
    + apply IH in Hr as [? ?]; [|lia..]. split; [done|lia].
    + unfold pushback_below. cbn. lia.
Qed.

Lemma pushback_decreases g d d' g' :
  pushback_ok g → ext_pushback g d = (d', Ret (GYield g')) →
  pushback_ok g' ∧ (pushback_measure g' < pushback_measure g)%nat.
Proof.
  destruct g as [|i num ord t keys|ord mul]; cbn [ext_pushback]; intros Hok Hr.
  - unfold pb_start in Hr. einv. pieces.
    repeat match goal with H : is_bytes ?l |- _ =>
      match goal with H' : len l = 4 |- _ =>
        pose proof (or_bytes_range 4 l H ltac:(unfold len in *; lia)); clear H' end end.
    change (8 * Z.of_nat 4) with 32 in *.
    apply pb_lookups_below in Hr as [? ?]; [|lia..]. split; [done|]. cbn [pushback_measure]. lia.
  - cbn in Hok. einv.
    all: apply pb_lookups_below in Hr as [? ?]; [|lia..]; split; [done|]; cbn [pushback_measure]; lia.
  - by apply pb_loop_below in Hr as [[? _] ?].
Qed.

Definition long_measure (g : LongGen) : nat := match g with LongAt i => Z.to_nat (128 - i) end.

Lemma long_loop_below fuel i d d' g' :
  (fuel ≤ Z.to_nat (128 - i))%nat →
  long_loop fuel i d = (d', Ret (GYield g')) → (long_measure g' < Z.to_nat (128 - i))%nat.
Proof.
  revert i d. induction fuel as [|fuel IH]; intros i d Hf Hr; cbn [long_loop] in Hr; einv.
  - cbn. lia.
  - apply IH in Hr; lia.
Qed.

Definition checksum_measure (g : ChecksumGen) : nat :=
  match g with
  | CkInit => Z.to_nat (2 ^ 64)
  | CkNext vals _ _ _ => Z.to_nat (2 ^ 64 - 1 - mrb_index vals)
  end.

Definition checksum_ok (g : ChecksumGen) : Prop :=
  match g with CkInit => True | CkNext vals _ _ _ => in_width 64 (mrb_index vals) end.

Lemma ck_next_below vals num optype aggr d d' g' :
  ck_next vals num optype aggr d = (d', Ret (GYield g')) →
  g' ≠ CkInit ∧ checksum_ok g' ∧
  (in_width 64 (mrb_index vals) → checksum_measure g' < checksum_measure (CkNext vals num optype aggr))%nat.
Proof.
  unfold ck_next, mrb_next. intros Hr.
  assert (in_width 64 (wsub 64 (len (mrb_inner vals)) 1)) as Hw by by apply wrap_range.
  case_decide as Hc; cbn [andb] in Hr; [einv|].
  assert (∃ aggr', g' = CkNext (mkMultiReadBuf (mrb_inner vals) (wadd 64 (mrb_index vals) 1)
                                  (mrb_panic vals)) num optype aggr') as [aggr' ->].
  { destruct (bool_decide (0 < num)); [|einv]. apply ebind_inv in Hr as (d1 & a & _ & Hr).
    unfold mret, ext_ret in Hr. simplify_eq. eauto. }
  cbn [checksum_ok checksum_measure mrb_index]. unfold in_width in *.
  split; [done|]. split; [by apply wrap_range|]. intros Hi. rewrite wadd_id by (unfold in_width; lia). lia.
Qed.

Lemma checksum_decreases g d d' g' :
  checksum_ok g → ext_checksum g d = (d', Ret (GYield g')) →
  checksum_ok g' ∧ (checksum_measure g' < checksum_measure g)%nat.
Proof.
  destruct g as [|vals num optype aggr]; cbn [ext_checksum]; intros Hok Hr.
  - unfold ck_start in Hr.
    assert (∃ vals num optype d1, ck_next vals num optype 0 d1 = (d', Ret (GYield g')))
      as (vals & num & optype & d1 & Hn).
    { repeat match goal with
      | H : (_ ≫= _) _ = (_, Ret _) |- _ => apply ebind_inv in H as (? & ? & _ & H); cbn beta in H
      | H : (let (_, _) := ?p in _) _ = _ |- _ => destruct p
      | H : (match ?x with _ => _ end) _ = (_, Ret (GYield _)) |- _ => destruct x
      end; [eauto|einv]. }
    apply ck_next_below in Hn as (Hne & Hg & _). split; [done|]. destruct g'; [done|].
    cbn in *. unfold in_width in Hg. lia.
  - apply ck_next_below in Hr as (_ & ? & Hm). split; [done|]. by apply Hm.
Qed.

Definition aggregate_measure (g : AggregateGen) : nat :=
  match g with AggrInit => 1 | AggrCompute _ _ => 0 end.

Lemma aggregate_decreases g d d' g' :
  ext_aggregate g d = (d', Ret (GYield g')) → (aggregate_measure g' < aggregate_measure g)%nat.
Proof.
  destruct g; cbn [ext_aggregate]; intros Hr; unfold aggr_start in *; einv; cbn; lia.
Qed.

Definition auth_measure (g : AuthGen) : nat :=
  match g with AuthInit => 2 | AuthGet _ _ _ => 1 | AuthCheck _ _ => 0 end.

Lemma auth_decreases g d d' g' :
  ext_auth g d = (d', Ret (GYield g')) → (auth_measure g' < auth_measure g)%nat.
Proof.
  destruct g; cbn [ext_auth]; intros Hr; unfold auth_start, auth_check in *; einv; cbn; lia.
Qed.

Lemma scan_no_yield n t keys sum d d' g' : scan_loop n t keys sum d ≠ (d', Ret (GYield g')).
Proof.
  revert keys sum d. induction n as [|n IH]; intros keys sum d Hr; cbn [scan_loop] in Hr; einv.
  by apply IH in Hr.
Qed.

Lemma no_yield_halts {G} (resume : G → ext_m D (gen_step G)) n g d :
  (∀ g d d' g', resume g d ≠ (d', Ret (GYield g'))) → halts resume env (S n) g d.
Proof.
  intros Hr. apply (halts_measure resume env (λ _, True) (λ _, 0%nat)); [|done|lia].
  intros g1 d1 d' g' _ E. by apply Hr in E.
Qed.
End halting.

(** ** Properties *)

(** A run of ycsbt: its yields, and the transaction it records. *)
Lemma ycsbt_run `{DBLaws D} (env : nat → D → D) d tbl key1 key2 ver1 ver2 a b r1 r2 order optype :
  harmless env → len tbl = 8 → is_bytes tbl → len key1 = 30 → len key2 = 30 →
  in_width 32 order → optype ≠ 1 → optype ≠ 3 →
  sees_args d (ycsbt_args key1 key2 tbl order optype) →
  holds d (le_val tbl) key1 ver1 (a :: r1) → holds d (le_val tbl) key2 ver2 (b :: r2) →
  can_finish d (le_val tbl) key1 key2 (1 + len r1) (1 + len r2) →
  ∃ d', drive ext_ycsbt env (S (ycsbt_yields order)) 0 YcsbtInit d =
      (d', Ret (Some (ycsbt_yields order, 0))) ∧
    trans d' = record_put (record_put
      (note_read (note_read (trans d) ver1 key1 (a :: r1)) ver2 key2 (b :: r2))
      (write_rec key1 ((transfer_bytes a b).1 :: r1))) (write_rec key2 ((transfer_bytes a b).2 :: r2)).
Proof.
  intros Henv Htl Htb Hk1 Hk2 Ho H1 H3 Hargs Hh1 Hh2 Hfin.
  destruct (ycsbt_start_spec (le_val tbl) key1 key2 a b r1 r2 Hk1 Hk2 tbl Htl Htb eq_refl
    d order optype ver1 ver2 Ho H1 H3 Hargs Hh1 Hh2) as (d1 & Hr & <- & Hs).
  assert (can_finish d1 (le_val tbl) key1 key2 (1 + len r1) (1 + len r2)) as Hfin1.
  { destruct Hfin. split; auto. }
  unfold ycsbt_yields, in_width in *.
  destruct (ycsbt_finish_spec d1 (le_val tbl) key1 key2 a b r1 r2 Hk1 Hfin1) as (df & Hf & Htf).
  destruct (decide (order >= 600)).
  - destruct (Henv 0%nat d1) as [Hte Hre].
    destruct (ycsbt_loop_drive env (le_val tbl) key1 key2 a b r1 r2 Hk1 Henv (order - 600) 1
      (env 0%nat d1)) as (d' & Hd & Ht'); [lia|by destruct Hfin1; split; auto|].
    exists d'. rewrite Ht', Hte. split; [|done].
    erewrite drive_yield; [exact Hd|]. cbn [ext_ycsbt].
    by rewrite Hs, !decide_True by lia.
  - exists df. split; [|done]. apply drive_return. cbn [ext_ycsbt].
    rewrite Hs. destruct (decide (order > 0)); [|done].
    unfold ycsbt_loop. by rewrite decide_True by lia.
Qed.

Lemma transfer_bytes_conserves a b :
  in_width 8 a → in_width 8 b →
  let (a', b') := transfer_bytes a b in a' + b' = a + b ∧ in_width 8 a' ∧ in_width 8 b'.
Proof. unfold transfer_bytes, in_width. intros. repeat case_decide; lia. Qed.

(** C38: a transfer between two records is the same transaction wherever it runs.
    Driven to completion on any database that keeps the contract (the server's,
    or the client's after a pushback), with anything harmless happening at its
    yields, ycsbt yields when 600 cycles of its work are done and then once per 2000
    cycles, returns 0, and has
    recorded the two reads and the two writes; the writes conserve the sum of
    the first bytes and keep them in range. *)
Theorem ycsbt_transfers `{DBLaws D} (env : nat → D → D) d tbl key1 key2 ver1 ver2 a b r1 r2
    order optype :
  harmless env → len tbl = 8 → is_bytes tbl → len key1 = 30 → len key2 = 30 →
  in_width 32 order → optype ≠ 1 → optype ≠ 3 → in_width 8 a → in_width 8 b →
  sees_args d (ycsbt_args key1 key2 tbl order optype) →
  holds d (le_val tbl) key1 ver1 (a :: r1) → holds d (le_val tbl) key2 ver2 (b :: r2) →
  can_finish d (le_val tbl) key1 key2 (1 + len r1) (1 + len r2) →
  ∃ d' a' b', drive ext_ycsbt env (S (ycsbt_yields order)) 0 YcsbtInit d =
      (d', Ret (Some (ycsbt_yields order, 0))) ∧
    trans d' = record_put (record_put
      (note_read (note_read (trans d) ver1 key1 (a :: r1)) ver2 key2 (b :: r2))
      (write_rec key1 (a' :: r1))) (write_rec key2 (b' :: r2)) ∧
    a' + b' = a + b ∧ in_width 8 a' ∧ in_width 8 b'.
Proof.
  intros Henv Htl Htb Hk1 Hk2 Ho H1 H3 Ha Hb Hargs Hh1 Hh2 Hfin.
  destruct (ycsbt_run env d tbl key1 key2 ver1 ver2 a b r1 r2 order optype) as (d' & Hd & Ht);
    [done..|]. pose proof (transfer_bytes_conserves a b Ha Hb) as Hc.
  destruct (transfer_bytes a b) as [a' b']. by exists d', a', b'.
Qed.

(** Two records that were pushed back to the client, of 5 and 9 in their first bytes. *)
Definition ex_key (n : Z) : bytes := n :: replicate 29 0.

Definition ex_value (n : Z) : bytes := n :: replicate 99 0.

Definition ex_transfer_proxy : ProxyDB :=
  mkProxyDB 7 95 (116 :: ycsbt_args (ex_key 1) (ex_key 2) (le_bytes 8 3) 700 2) 1 false
    [mkKV (le_bytes 8 4) (ex_key 1) (ex_value 5); mkKV (le_bytes 8 6) (ex_key 2) (ex_value 9)] [] 0 [].

Lemma ycsbt_transfers_witness :
  let tsc := λ _ : nat, 0 in
  let b := exact_bytes in
  let net := test_net in
  let db := @client_db b net tsc in
  let spec := @client_spec b net tsc in
  let d := @mkClientDB net ex_link ex_transfer_proxy 0 in
  ∃ d' a' b', drive ext_ycsbt (λ _ d, d) (S (ycsbt_yields 700)) 0 YcsbtInit d =
      (d', Ret (Some (ycsbt_yields 700, 0))) ∧
    trans d' = record_put (record_put
      (note_read (note_read (trans d) 4 (ex_key 1) (ex_value 5)) 6 (ex_key 2) (ex_value 9))
      (write_rec (ex_key 1) (a' :: replicate 99 0))) (write_rec (ex_key 2) (b' :: replicate 99 0)) ∧
    a' + b' = 5 + 9 ∧ in_width 8 a' ∧ in_width 8 b'.
Proof.
  intros tsc b net db spec d.
  apply (@ycsbt_transfers exact_bytes (@ClientDB test_net) db spec
    (@client_laws exact_bytes exact_bytes_laws test_net tsc) (λ _ d, d) d (le_bytes 8 3) (ex_key 1) (ex_key 2) 4 6 5 9
    (replicate 99 0) (replicate 99 0) 700 2); try (unfold in_width; lia); try reflexivity.
  - by split.
  - apply le_bytes_is_bytes.
  - eexists. split; [|split; [reflexivity|by split]]. discriminate.
  - eexists. split; [|split; [reflexivity|by split]]. discriminate.
  - by split.
Defined.

(** A crypto library that does nothing, for the witness. *)
Definition no_crypto : Crypto := {|
  aes_ige_decrypt _ _ data := data;
  bcrypt _ _ _ := replicate 24 0;
  digest_md5 _ := replicate 16 0;
  digest_sha1 _ := replicate 20 0;
  digest_sha256 _ := replicate 32 0;
  digest_sha512 _ := replicate 64 0;
|}.
