(* ===== verification/Float.v ===== *)
(** * Float: single-precision arithmetic

    The clients' controllers compute with Rust's [f32].  It is IEEE binary32, as
    specified by [SpecFloat] of the Standard Library: [f32_add] and the others
    round to nearest even.  [sval] is the value of a finite number in units of
    2^-149, an integer; the lemmas bound the rounding error, and read the
    comparisons of canonical numbers as comparisons of values. *)

From Stdlib Require Import SpecFloat.
From S2P Require Import Prelude.

(** ** Operations *)

Abbreviation f32 := spec_float.
Abbreviation prec := 24.
Abbreviation emax := 128.

Definition f32_add : f32 → f32 → f32 := SFadd prec emax.

Definition f32_sub : f32 → f32 → f32 := SFsub prec emax.

Definition f32_mul : f32 → f32 → f32 := SFmul prec emax.

Definition f32_div : f32 → f32 → f32 := SFdiv prec emax.

(** [x < y] and [x > y]: false when one of them is not a number. *)
Definition f32_lt : f32 → f32 → bool := SFltb.

Definition f32_gt (x y : f32) : bool := SFltb y x.

(** [n as f32], and integer literals. *)
Definition f32_of (n : Z) : f32 := binary_normalize prec emax n 0 false.

(** [x as uN]: truncation, saturating; 0 for what is not a number. *)
Definition f32_to (w : Z) (x : f32) : Z :=
  match x with
  | S754_zero _ | S754_nan | S754_infinity true | S754_finite true _ _ => 0
  | S754_infinity false => 2 ^ w - 1
  | S754_finite false m e => Z.min (2 ^ w - 1) (Z.shiftl (Zpos m) e)
  end.

(** ** Values *)

(** Canonical: the mantissa has 24 bits, or the exponent is the least one. *)
Definition f32_ok (x : f32) : Prop :=
  match x with
  | S754_finite _ m e =>
      Zpos m < 2 ^ 24 ∧ -149 ≤ e ≤ 104 ∧ (e = -149 ∨ 2 ^ 23 ≤ Zpos m)
  | _ => True
  end.

Definition f32_finite (x : f32) : Prop :=
  match x with S754_zero _ | S754_finite _ _ _ => True | _ => False end.

Definition f32_number (x : f32) : Prop := x ≠ S754_nan.

(** One, in units of 2^-149. *)
Definition unit_one : Z := 2 ^ 149.

Definition sval (x : f32) : Z :=
  match x with
  | S754_finite s m e => cond_Zopp s (Zpos m * 2 ^ (e + 149))
  | _ => 0
  end.

(** ** Digits and shifts *)

Lemma digits2_log2 p : Zpos (digits2_pos p) = Z.log2 (Zpos p) + 1.
Proof.
  induction p as [p IH|p IH|]; cbn [digits2_pos]; [| |done].
  - rewrite Pos2Z.inj_succ, IH, Pos2Z.inj_xI, Z.log2_succ_double by lia. lia.
  - rewrite Pos2Z.inj_succ, IH, Pos2Z.inj_xO, Z.log2_double by lia. lia.
Qed.

Lemma digits_bounds m : 0 < m → 2 ^ (Zdigits2 m - 1) ≤ m < 2 ^ Zdigits2 m ∧ 0 < Zdigits2 m.
Proof.
  intros Hm. destruct m as [|p|p]; [lia| |lia]. cbn [Zdigits2]. rewrite digits2_log2.
  pose proof (Z.log2_spec (Zpos p) ltac:(lia)). pose proof (Z.log2_nonneg (Zpos p)).
  rewrite Z.add_simpl_r, <- Z.add_1_r in *. lia.
Qed.

Lemma fexp_eq e : fexp prec emax e = Z.max (e - 24) (-149).
Proof. done. Qed.

(** [n] steps of [shr_1] divide the mantissa by [2^n]; an exact record stays
    exact when nothing is lost. *)
Lemma shr_1_spec r :
  0 ≤ shr_m r →
  shr_m (shr_1 r) = shr_m r / 2 ∧
  (shr_r r = false → shr_s r = false → shr_m r mod 2 = 0 →
   shr_r (shr_1 r) = false ∧ shr_s (shr_1 r) = false).
Proof.
  destruct r as [[|[p|p|]|p] a b]; cbn [shr_m shr_r shr_s shr_1]; intros Hm; [..|lia].
  - split; [done|]. by intros -> ->.
  - rewrite (Pos2Z.inj_xI p). split; [Z.div_mod_to_equations; lia|].
    intros _ _ Hmod. Z.div_mod_to_equations. lia.
  - rewrite (Pos2Z.inj_xO p). split; [Z.div_mod_to_equations; lia|]. by intros -> ->.
  - by split.
Qed.

Lemma iter_pos_nat {A} (f : A → A) p x : SpecFloat.iter_pos f p x = Nat.iter (Pos.to_nat p) f x.
Proof.
  revert x. induction p as [p IH|p IH|]; intros x; cbn [SpecFloat.iter_pos]; [| |done].
  - rewrite !IH, Pos2Nat.inj_xI. cbn [Nat.iter]. rewrite <- Nat.iter_add, <- Nat.iter_succ_r.
    do 2 f_equal. lia.
  - rewrite !IH, Pos2Nat.inj_xO, <- Nat.iter_add. f_equal. lia.
Qed.

Lemma shr_iter_spec n r :
  0 ≤ shr_m r →
  shr_m (Nat.iter n shr_1 r) = shr_m r / 2 ^ Z.of_nat n ∧
  (shr_r r = false → shr_s r = false → shr_m r mod 2 ^ Z.of_nat n = 0 →
   shr_r (Nat.iter n shr_1 r) = false ∧ shr_s (Nat.iter n shr_1 r) = false).
Proof.
  intros Hr. induction n as [|n [IHm IHl]].
  - change (Z.of_nat 0) with 0. rewrite Z.pow_0_r, Z.div_1_r. done.
  - rewrite Nat.iter_succ. assert (2 ^ Z.of_nat (S n) = 2 ^ Z.of_nat n * 2) as Hp.
    { rewrite Nat2Z.inj_succ, Z.pow_succ_r by lia. lia. }
    assert (0 < 2 ^ Z.of_nat n) by (apply Z.pow_pos_nonneg; lia).
    destruct (shr_1_spec (Nat.iter n shr_1 r)) as [Hm Hl].
    { rewrite IHm. by apply Z.div_pos. }
    rewrite Hp. split; [rewrite Hm, IHm, Z.div_div by lia; done|].
    intros Hrf Hsf Hmod. rewrite Z.rem_mul_r in Hmod by lia.
    pose proof (Z.mod_pos_bound (shr_m r) (2 ^ Z.of_nat n) ltac:(lia)).
    pose proof (Z.mod_pos_bound (shr_m r / 2 ^ Z.of_nat n) 2 ltac:(lia)).
    destruct IHl as [Hr' Hs']; [done..|nia|]. apply Hl; [done..|]. rewrite IHm. nia.
Qed.

Lemma shr_record_m m l : shr_m (shr_record_of_loc m l) = m.
Proof. by destruct l as [|[]]. Qed.

(** ** Rounding *)

(** The canonical number [n * 2^k], for [n] of at most 24 bits or equal to [2^24]. *)
Definition f32_make (s : bool) (n k : Z) : f32 :=
  if decide (n = 0) then S754_zero s
  else if decide (n < 2 ^ 24) then
    if decide (k <= 104) then S754_finite s (Z.to_pos n) k else S754_infinity s
  else if decide (k + 1 <= 104) then S754_finite s (2 ^ 23)%positive (k + 1) else S754_infinity s.

(** What a rounding step from mantissa [m] at exponent [e] may give at exponent [k]. *)
Record rounded (l : location) (m e k n : Z) : Prop := {
  rd_near : n = m / 2 ^ (k - e) ∨ n = m / 2 ^ (k - e) + 1;
  rd_exact : l = loc_Exact → m mod 2 ^ (k - e) = 0 → n = m / 2 ^ (k - e);
  rd_canonical : k = -149 ∨ 2 ^ 23 ≤ n;
  rd_size : 0 ≤ n ≤ 2 ^ 24;
}.

Lemma shr_fexp_spec m e l :
  0 < m → e ≤ fexp prec emax (Zdigits2 m + e) →
  let k := fexp prec emax (Zdigits2 m + e) in
  let r := (shr_fexp prec emax m e l).1 in
  (shr_fexp prec emax m e l).2 = k ∧ shr_m r = m / 2 ^ (k - e) ∧
  (l = loc_Exact → m mod 2 ^ (k - e) = 0 → loc_of_shr_record r = loc_Exact).
Proof.
  intros Hm Hk. cbn zeta. unfold shr_fexp.
  set (k := fexp prec emax (Zdigits2 m + e)) in *. unfold shr.
  assert (∀ a b, l = loc_Exact → shr_record_of_loc m l = {| shr_m := m; shr_r := a; shr_s := b |} →
    a = false ∧ b = false) as Hl by (by intros ?? -> [= <- <-]).
  destruct (k - e) as [|p|p] eqn:Hd; [| |lia].
  - cbn [fst snd]. rewrite shr_record_m, Z.pow_0_r, Z.div_1_r. split_and!; [lia|done|].
    by intros -> _.
  - cbn [fst snd]. rewrite iter_pos_nat.
    destruct (shr_iter_spec (Pos.to_nat p) (shr_record_of_loc m l)) as [Hs Hx];
      rewrite shr_record_m in *; [lia|]. rewrite positive_nat_Z in *.
    split_and!; [lia|done|]. intros -> Hmod. cbn [shr_record_of_loc shr_r shr_s] in Hx.
    destruct Hx as [Hx1 Hx2]; [done..|]. destruct (Nat.iter _ _ _) as [m' a b]. cbn in *. by subst.
Qed.

Lemma round_even_near m l :
  round_nearest_even m l = m ∨ round_nearest_even m l = m + 1.
Proof. destruct l as [|[]]; cbn; auto. destruct (Z.even m); auto. Qed.

(** The mantissa that a first shift leaves. *)
Lemma shifted_size m e :
  0 < m → e ≤ fexp prec emax (Zdigits2 m + e) →
  let k := fexp prec emax (Zdigits2 m + e) in
  0 ≤ m / 2 ^ (k - e) < 2 ^ 24 ∧ (k = -149 ∨ 2 ^ 23 ≤ m / 2 ^ (k - e)).
Proof.
  intros Hm Hk. cbn zeta. rewrite fexp_eq in *.
  destruct (digits_bounds m Hm) as [[Hlo Hhi] Hd]. set (d := Zdigits2 m) in *.
  set (k := Z.max (d + e - 24) (-149)) in *.
  assert (0 < 2 ^ (k - e)) by (apply Z.pow_pos_nonneg; lia).
  split; [split; [by apply Z.div_pos; lia|]|].
  - apply Z.div_lt_upper_bound; [done|]. rewrite <- Z.pow_add_r by lia.
    eapply Z.lt_le_trans; [exact Hhi|]. apply Z.pow_le_mono_r; lia.
  - destruct (decide (k = -149)); [by left|right].
    apply Z.div_le_lower_bound; [done|]. rewrite <- Z.pow_add_r by lia.
    etrans; [|exact Hlo]. apply Z.pow_le_mono_r; lia.
Qed.

(** The second shift only moves a carry. *)
Lemma second_shift n k :
  0 ≤ n ≤ 2 ^ 24 → -149 ≤ k → (k = -149 ∨ 2 ^ 23 ≤ n) →
  let r := shr_fexp prec emax n k loc_Exact in
  if decide (n < 2 ^ 24) then shr_m r.1 = n ∧ r.2 = k else shr_m r.1 = 2 ^ 23 ∧ r.2 = k + 1.
Proof.
  intros Hn Hk Hc. cbn zeta. destruct (decide (n = 0)) as [->|Hz].
  { rewrite decide_True by lia. assert (k = -149) as -> by lia. done. }
  destruct (digits_bounds n) as [[Hlo Hhi] Hd]; [lia|]. case_decide as Hlt.
  - assert (Zdigits2 n ≤ 24) as Hd24.
    { destruct (decide (Zdigits2 n ≤ 24)); [done|].
      assert (2 ^ 24 ≤ 2 ^ (Zdigits2 n - 1)) by (apply Z.pow_le_mono_r; lia). lia. }
    assert (k = -149 ∨ Zdigits2 n = 24) as Hc'.
    { destruct Hc as [?|Hc]; [by left|right]. destruct (decide (Zdigits2 n ≤ 23)); [|lia].
      assert (2 ^ Zdigits2 n ≤ 2 ^ 23) by (apply Z.pow_le_mono_r; lia). lia. }
    unfold shr_fexp, shr. rewrite fexp_eq.
    replace (Z.max (Zdigits2 n + k - 24) (-149) - k) with 0 by lia. done.
  - assert (n = 2 ^ 24) as -> by lia. unfold shr_fexp, shr. rewrite fexp_eq.
    change (Zdigits2 (2 ^ 24)) with 25.
    replace (Z.max (25 + k - 24) (-149) - k) with 1 by lia. done.
Qed.

Lemma round_aux_spec sx m e l :
  0 < m → e ≤ fexp prec emax (Zdigits2 m + e) →
  let k := fexp prec emax (Zdigits2 m + e) in
  ∃ n, rounded l m e k n ∧ binary_round_aux prec emax sx m e l = f32_make sx n k.
Proof.
  intros Hm He. destruct (shr_fexp_spec m e l Hm He) as (Hk & Hq & Hx).
  destruct (shifted_size m e Hm He) as [Hsz Hc]. cbn zeta in *.
  set (k := fexp prec emax (Zdigits2 m + e)) in *.
  assert (-149 ≤ k) as Hk149 by (unfold k; rewrite fexp_eq; lia).
  unfold binary_round_aux. destruct (shr_fexp prec emax m e l) as [r e'] eqn:Hr.
  cbn [fst snd] in *. subst e'.
  set (n := round_nearest_even (shr_m r) (loc_of_shr_record r)).
  assert (n = m / 2 ^ (k - e) ∨ n = m / 2 ^ (k - e) + 1) as Hn.
  { rewrite <- Hq. apply round_even_near. }
  exists n. split.
  - split; [done| |lia|lia]. intros Hl Hmod. unfold n. by rewrite (Hx Hl Hmod).
  - pose proof (second_shift n k) as H2. cbn zeta in H2.
    destruct (shr_fexp prec emax n k loc_Exact) as [r2 e2]. cbn [fst snd] in H2.
    unfold f32_make. change (emax - prec) with 104.
    destruct (decide (n = 0)) as [Hz|Hz].
    { rewrite decide_True in H2 by lia. destruct H2 as [-> _]; [lia..|]. by rewrite Hz. }
    case_decide as Hlt.
    + destruct H2 as [-> ->]; [lia..|]. destruct n as [|p|p]; [done| |lia].
      case_decide; destruct (Z.leb_spec k 104); (done || lia).
    + destruct H2 as [-> ->]; [lia..|]. change (2 ^ 23) with (Zpos (2 ^ 23)).
      case_decide; destruct (Z.leb_spec (k + 1) 104); (done || lia).
Qed.

Lemma f32_make_ok s n k :
  0 ≤ n ≤ 2 ^ 24 → -149 ≤ k → (k = -149 ∨ 2 ^ 23 ≤ n) → f32_ok (f32_make s n k).
Proof.
  intros Hn Hk Hc. unfold f32_make. repeat case_decide; cbn; try done; lia.
Qed.

Lemma f32_make_finite s n k : k ≤ 103 → f32_finite (f32_make s n k).
Proof. intros. unfold f32_make. repeat case_decide; cbn; done || lia. Qed.

Lemma f32_make_number s n k : f32_number (f32_make s n k).
Proof. unfold f32_number, f32_make. by repeat case_decide. Qed.

Lemma f32_make_val s n k :
  k ≤ 103 → 0 ≤ n ≤ 2 ^ 24 → -149 ≤ k → sval (f32_make s n k) = cond_Zopp s (n * 2 ^ (k + 149)).
Proof.
  intros Hk Hn Hk2. unfold f32_make. case_decide as Hz; [subst n; by destruct s|].
  case_decide; rewrite decide_True by lia; cbn [sval]; f_equal.
  - rewrite Z2Pos.id by lia. done.
  - assert (n = 2 ^ 24) as -> by lia. replace (k + 1 + 149) with (1 + (k + 149)) by lia.
    rewrite Z.pow_add_r by lia. change (Zpos (2 ^ 23)) with (2 ^ 23). lia.
Qed.

(** Bounds on the binary exponent: a nonzero [x] with [f32_below b x] is less
    than [2^b] in absolute value, and with [f32_above a x] at least [2^(a-1)]. *)
Definition f32_below (b : Z) (x : f32) : Prop :=
  match x with
  | S754_zero _ => True
  | S754_finite _ m e => Zdigits2 (Zpos m) + e ≤ b
  | _ => False
  end.

Definition f32_above (a : Z) (x : f32) : Prop :=
  match x with S754_finite _ m e => a ≤ Zdigits2 (Zpos m) + e | _ => False end.

Lemma digits_le m b : 0 < m → 0 ≤ b → m < 2 ^ b → Zdigits2 m ≤ b.
Proof.
  intros Hm Hb Hlt. destruct (digits_bounds m Hm) as [[Hlo _] Hd].
  destruct (decide (Zdigits2 m ≤ b)); [done|].
  assert (2 ^ b ≤ 2 ^ (Zdigits2 m - 1)) by (apply Z.pow_le_mono_r; lia). lia.
Qed.

Lemma digits_ge m b : 0 < m → 0 ≤ b → 2 ^ b ≤ m → b < Zdigits2 m.
Proof.
  intros Hm Hb Hlt. destruct (digits_bounds m Hm) as [[_ Hhi] Hd].
  destruct (decide (b < Zdigits2 m)); [done|].
  assert (2 ^ Zdigits2 m ≤ 2 ^ b) by (apply Z.pow_le_mono_r; lia). lia.
Qed.

Lemma digits_shift m d : 0 < m → 0 ≤ d → Zdigits2 (m * 2 ^ d) = Zdigits2 m + d.
Proof.
  intros Hm Hd. destruct (digits_bounds m Hm) as [[Hlo Hhi] Hdm].
  assert (0 < 2 ^ d) by (apply Z.pow_pos_nonneg; lia).
  apply Z.le_antisymm.
  - apply digits_le; [nia|lia|]. rewrite Z.pow_add_r by lia. nia.
  - assert (Zdigits2 m + d - 1 < Zdigits2 (m * 2 ^ d)); [|lia].
    apply digits_ge; [nia|lia|]. replace (Zdigits2 m + d - 1) with (Zdigits2 m - 1 + d) by lia.
    rewrite Z.pow_add_r by lia. nia.
Qed.

Lemma f32_make_below s n k : k ≤ 103 → 0 ≤ n ≤ 2 ^ 24 → f32_below (k + 25) (f32_make s n k).
Proof.
  intros Hk Hn. unfold f32_make. case_decide; [done|].
  case_decide; rewrite decide_True by lia; cbn [f32_below].
  - pose proof (digits_le n 24). rewrite Z2Pos.id by lia. lia.
  - change (Zdigits2 (Zpos (2 ^ 23))) with 24. lia.
Qed.

Lemma f32_make_above s n k :
  k ≤ 103 → 2 ^ 23 ≤ n ≤ 2 ^ 24 → f32_above (k + 24) (f32_make s n k).
Proof.
  intros Hk Hn. unfold f32_make. rewrite decide_False by lia.
  case_decide; rewrite decide_True by lia; cbn [f32_above].
  - pose proof (digits_ge n 23). rewrite Z2Pos.id by lia. lia.
  - change (Zdigits2 (Zpos (2 ^ 23))) with 24. lia.
Qed.

Lemma pos_iter_xO m d : Zpos (Pos.iter xO m d) = Zpos m * 2 ^ Zpos d.
Proof.
  rewrite <- Z.shiftl_mul_pow2 by lia. cbn [Z.shiftl].
  by rewrite (Pos.iter_swap_gen _ _ Zpos xO (Z.mul 2)).
Qed.

Lemma shl_align_spec m e k :
  let r := shl_align m e k in
  r.2 = Z.min e k ∧ Zpos r.1 = Zpos m * 2 ^ (e - r.2).
Proof.
  cbn zeta. unfold shl_align. destruct (k - e) as [|p|p] eqn:Hd; cbn [fst snd].
  - split; [lia|]. rewrite Z.sub_diag. lia.
  - split; [lia|]. rewrite Z.sub_diag. lia.
  - split; [lia|]. rewrite pos_iter_xO. do 2 f_equal. lia.
Qed.

(** Rounding a value given by a mantissa and an exponent: the binary exponent
    of the value is [b]. *)
Lemma binary_round_make s m e :
  let b := Zdigits2 (Zpos m) + e in
  let k := fexp prec emax b in
  ∃ n, binary_round prec emax s m e = f32_make s n k ∧ 0 ≤ n ≤ 2 ^ 24 ∧ (k = -149 ∨ 2 ^ 23 ≤ n) ∧
    (k ≤ e → n = Zpos m * 2 ^ (e - k)) ∧
    (-149 ≤ e → Z.abs (n * 2 ^ (k + 149) - Zpos m * 2 ^ (e + 149)) ≤ 2 ^ (k + 149)).
Proof.
  cbn zeta. set (k := fexp prec emax (Zdigits2 (Zpos m) + e)).
  assert (-149 ≤ k) as Hk149 by (unfold k; rewrite fexp_eq; lia).
  unfold binary_round. change (Zpos (digits2_pos m)) with (Zdigits2 (Zpos m)). fold k.
  destruct (shl_align_spec m e k) as [He Hm]. destruct (shl_align m e k) as [mz ez].
  cbn [fst snd] in *.
  assert (Zdigits2 (Zpos mz) + ez = Zdigits2 (Zpos m) + e) as Hd.
  { rewrite Hm, digits_shift by lia. lia. }
  pose proof (round_aux_spec s (Zpos mz) ez loc_Exact) as Hra. cbn zeta in Hra.
  rewrite Hd in Hra. fold k in Hra. destruct Hra as (n & [Hn Hx Hc Hsz] & ->); [lia..|].
  exists n. split; [done|]. split_and!; [lia|lia|done| |].
  - intros Hke. assert (ez = k) as -> by lia. rewrite Z.sub_diag, Z.pow_0_r, Z.div_1_r in Hx.
    rewrite Hx; [done..|]. apply Z.mod_1_r.
  - intros Hem. assert (0 < 2 ^ (k - ez)) by (apply Z.pow_pos_nonneg; lia).
    assert (Zpos m * 2 ^ (e + 149) = Zpos mz * 2 ^ (ez + 149)) as ->.
    { rewrite Hm, <- Z.mul_assoc, <- Z.pow_add_r by lia. do 2 f_equal. lia. }
    replace (k + 149) with (k - ez + (ez + 149)) by lia. rewrite Z.pow_add_r by lia.
    assert (0 < 2 ^ (ez + 149)) by (apply Z.pow_pos_nonneg; lia).
    pose proof (Z.div_mod (Zpos mz) (2 ^ (k - ez)) ltac:(lia)).
    pose proof (Z.mod_pos_bound (Zpos mz) (2 ^ (k - ez)) ltac:(lia)).
    set (q := Zpos mz / 2 ^ (k - ez)) in *. nia.
Qed.

(** [r] is a correctly canonical result near the exact value [v]: within one
    unit in the last place of the binade below [2^b], for any [b] that bounds it. *)
Record near (v : Z) (r : f32) : Prop := {
  near_ok : f32_ok r;
  near_number : f32_number r;
  near_finite : Z.abs v < 2 ^ (127 + 149) → f32_finite r;
  near_error : ∀ b, -125 ≤ b ≤ 127 → Z.abs v < 2 ^ (b + 149) → Z.abs (sval r - v) ≤ 2 ^ (b + 125);
}.

Lemma near_exact r : f32_ok r → f32_finite r → near (sval r) r.
Proof.
  intros Ho Hf. split; [done|by destruct r|done|]. intros b Hb _.
  rewrite Z.sub_diag. cbn. by apply Z.pow_nonneg.
Qed.

Lemma cond_Zopp_abs s v : Z.abs (cond_Zopp s v) = Z.abs v.
Proof. destruct s; cbn; lia. Qed.

Lemma cond_Zopp_sub s a b : Z.abs (cond_Zopp s a - cond_Zopp s b) = Z.abs (a - b).
Proof. destruct s; cbn; lia. Qed.

Lemma binary_round_near s m e :
  -149 ≤ e → near (cond_Zopp s (Zpos m * 2 ^ (e + 149))) (binary_round prec emax s m e).
Proof.
  intros He. destruct (binary_round_make s m e) as (n & -> & Hn & Hc & _ & Herr).
  specialize (Herr He). rewrite fexp_eq in *.
  set (k := Z.max (Zdigits2 (Zpos m) + e - 24) (-149)) in *.
  assert (∀ b, -125 ≤ b ≤ 127 → Z.abs (cond_Zopp s (Zpos m * 2 ^ (e + 149))) < 2 ^ (b + 149) →
    k ≤ b - 24) as Hk.
  { intros b Hb. rewrite cond_Zopp_abs, Z.abs_eq by (apply Z.mul_nonneg_nonneg; [lia|by apply Z.pow_nonneg]).
    intros Hv. assert (0 < 2 ^ (e + 149)) by (apply Z.pow_pos_nonneg; lia).
    apply digits_le in Hv; [|nia|lia]. rewrite digits_shift in Hv by lia. lia. }
  split.
  - apply f32_make_ok; [done|lia|done].
  - apply f32_make_number.
  - intros Hv. apply (Hk 127) in Hv; [|lia]. apply f32_make_finite. lia.
  - intros b Hb Hv. specialize (Hk b Hb Hv). rewrite f32_make_val by lia.
    rewrite cond_Zopp_sub. etrans; [exact Herr|]. apply Z.pow_le_mono_r; lia.
Qed.

Lemma normalize_near M e :
  -149 ≤ e → near (M * 2 ^ (e + 149)) (binary_normalize prec emax M e false).
Proof.
  intros He. destruct M as [|p|p]; cbn [binary_normalize].
  - by apply (near_exact (S754_zero false)).
  - apply (binary_round_near false p e He).
  - replace (Zneg p * 2 ^ (e + 149)) with (cond_Zopp true (Zpos p * 2 ^ (e + 149)))
      by (cbn [cond_Zopp]; by rewrite <- Z.mul_opp_l).
    by apply binary_round_near.
Qed.

(** The mantissas of two numbers aligned on the lesser exponent. *)
Lemma aligned_val s m e ez :
  -149 ≤ ez ≤ e →
  cond_Zopp s (Zpos (shl_align m e ez).1) * 2 ^ (ez + 149) = sval (S754_finite s m e).
Proof.
  intros He. destruct (shl_align_spec m e ez) as [H2 H1].
  assert ((shl_align m e ez).2 = ez) as Hez by lia. rewrite Hez in H1. rewrite H1.
  cbn [sval]. replace (e + 149) with (e - ez + (ez + 149)) by lia.
  rewrite (Z.pow_add_r 2 (e - ez)) by lia. destruct s; cbn [cond_Zopp]; ring.
Qed.

Lemma f32_add_near x y :
  f32_ok x → f32_ok y → f32_finite x → f32_finite y → near (sval x + sval y) (f32_add x y).
Proof.
  intros Hx Hy Hfx Hfy. unfold f32_add. destruct x as [sx| | |sx mx ex], y as [sy| | |sy my ey];
    try done; cbn [SFadd].
  - destruct sx, sy;
      first [by apply (near_exact (S754_zero false))|by apply (near_exact (S754_zero true))].
  - change (sval (S754_zero sx)) with 0. rewrite Z.add_0_l. by apply near_exact.
  - change (sval (S754_zero sy)) with 0. rewrite Z.add_0_r. by apply near_exact.
  - cbn in Hx, Hy. set (ez := Z.min ex ey).
    rewrite <- (aligned_val sx mx ex ez), <- (aligned_val sy my ey ez), <- Z.mul_add_distr_r by lia.
    apply normalize_near. lia.
Qed.

Lemma f32_sub_near x y :
  f32_ok x → f32_ok y → f32_finite x → f32_finite y → near (sval x - sval y) (f32_sub x y).
Proof.
  intros Hx Hy Hfx Hfy. unfold f32_sub. destruct x as [sx| | |sx mx ex], y as [sy| | |sy my ey];
    try done; cbn [SFsub].
  - destruct sx, sy;
      first [by apply (near_exact (S754_zero false))|by apply (near_exact (S754_zero true))].
  - assert (sval (S754_zero sx) - sval (S754_finite sy my ey) =
      sval (S754_finite (negb sy) my ey)) as -> by (destruct sy; cbn; lia).
    by apply near_exact.
  - change (sval (S754_zero sy)) with 0. rewrite Z.sub_0_r. by apply near_exact.
  - cbn in Hx, Hy. set (ez := Z.min ex ey).
    rewrite <- (aligned_val sx mx ex ez), <- (aligned_val sy my ey ez), <- Z.mul_sub_distr_r by lia.
    apply normalize_near. lia.
Qed.

(** ** Comparisons *)

Lemma sval_finite_lt m1 e1 m2 e2 :
  f32_ok (S754_finite false m1 e1) → f32_ok (S754_finite false m2 e2) → e1 < e2 →
  Zpos m1 * 2 ^ (e1 + 149) < Zpos m2 * 2 ^ (e2 + 149).
Proof.
  cbn. intros H1 H2 He. destruct H2 as (_ & ? & [->|Hm2]); [lia|].
  apply Z.lt_le_trans with (2 ^ 24 * 2 ^ (e1 + 149)).
  - assert (0 < 2 ^ (e1 + 149)) by (apply Z.pow_pos_nonneg; lia). nia.
  - apply Z.le_trans with (2 ^ 23 * 2 ^ (e2 + 149)).
    + rewrite <- !Z.pow_add_r by lia. apply Z.pow_le_mono_r; lia.
    + assert (0 < 2 ^ (e2 + 149)) by (apply Z.pow_pos_nonneg; lia). nia.
Qed.

Lemma SFcompare_sval x y :
  f32_ok x → f32_ok y → f32_finite x → f32_finite y →
  SFcompare x y = Some (Z.compare (sval x) (sval y)).
Proof.
  intros Hx Hy Hfx Hfy.
  assert (∀ s m e, f32_ok (S754_finite s m e) → 0 < Zpos m * 2 ^ (e + 149)) as Hpos.
  { cbn. intros s m e Ho. assert (0 < 2 ^ (e + 149)) by (apply Z.pow_pos_nonneg; lia). lia. }
  destruct x as [sx| | |sx mx ex], y as [sy| | |sy my ey]; try done; cbn [SFcompare sval].
  - specialize (Hpos _ _ _ Hy). destruct sy; cbn [cond_Zopp]; f_equal; symmetry;
      [apply Z.compare_gt_iff|apply Z.compare_lt_iff]; lia.
  - specialize (Hpos _ _ _ Hx). destruct sx; cbn [cond_Zopp]; f_equal; symmetry;
      [apply Z.compare_lt_iff|apply Z.compare_gt_iff]; lia.
  - pose proof (Hpos _ _ _ Hx). pose proof (Hpos _ _ _ Hy).
    pose proof (sval_finite_lt mx ex my ey Hx Hy) as Hlt.
    pose proof (sval_finite_lt my ey mx ex Hy Hx) as Hgt.
    assert (ex = ey → Pos.compare_cont Eq mx my =
      Z.compare (Zpos mx * 2 ^ (ex + 149)) (Zpos my * 2 ^ (ey + 149))) as Heq.
    { intros ->. cbn in Hy. change (Pos.compare_cont Eq mx my) with (Zpos mx ?= Zpos my).
      apply Zmult_compare_compat_r, Z.lt_gt, Z.pow_pos_nonneg; lia. }
    f_equal. destruct sx, sy; cbn [cond_Zopp].
    + rewrite Z.compare_opp. destruct (Z.compare_spec ex ey) as [->|He|He].
      * by rewrite (Heq eq_refl), <- Z.compare_antisym.
      * symmetry. apply Z.compare_gt_iff. auto.
      * symmetry. apply Z.compare_lt_iff. auto.
    + symmetry. apply Z.compare_lt_iff. lia.
    + symmetry. apply Z.compare_gt_iff. lia.
    + destruct (Z.compare_spec ex ey) as [->|He|He]; [by rewrite (Heq eq_refl)|..].
      * symmetry. apply Z.compare_lt_iff. auto.
      * symmetry. apply Z.compare_gt_iff. auto.
Qed.

(** Comparing with a constant. *)
Lemma f32_lt_sval x y :
  f32_ok x → f32_ok y → f32_finite x → f32_finite y → f32_lt x y = bool_decide (sval x < sval y).
Proof.
  intros. unfold f32_lt, SFltb. rewrite SFcompare_sval by done.
  destruct (Z.compare_spec (sval x) (sval y)); [rewrite bool_decide_eq_false_2|
    rewrite bool_decide_eq_true_2|rewrite bool_decide_eq_false_2]; (done || lia).
Qed.

Lemma f32_gt_sval x y :
  f32_ok x → f32_ok y → f32_finite x → f32_finite y → f32_gt x y = bool_decide (sval y < sval x).
Proof. intros. by apply f32_lt_sval. Qed.

(** ** Products and quotients *)

Lemma shr_nonneg r e n : 0 ≤ shr_m r → 0 ≤ shr_m (shr r e n).1.
Proof.
  intros Hr. unfold shr. destruct n as [|p|p]; [done| |done]. cbn [fst].
  rewrite iter_pos_nat. destruct (shr_iter_spec (Pos.to_nat p) r Hr) as [-> _].
  apply Z.div_pos; [done|]. apply Z.pow_pos_nonneg; lia.
Qed.

Lemma round_aux_number s m e l : 0 ≤ m → f32_number (binary_round_aux prec emax s m e l).
Proof.
  intros Hm. unfold binary_round_aux, shr_fexp.
  pose proof (shr_nonneg (shr_record_of_loc m l) e (fexp prec emax (Zdigits2 m + e) - e)) as H1.
  rewrite shr_record_m in H1. specialize (H1 Hm).
  destruct (shr (shr_record_of_loc m l) e _) as [r e']. cbn [fst] in H1.
  set (n := round_nearest_even (shr_m r) (loc_of_shr_record r)).
  assert (0 ≤ n) as Hn.
  { destruct (round_even_near (shr_m r) (loc_of_shr_record r)) as [E|E]; subst n; lia. }
  pose proof (shr_nonneg (shr_record_of_loc n loc_Exact) e' (fexp prec emax (Zdigits2 n + e') - e'))
    as H2. rewrite shr_record_m in H2. specialize (H2 Hn).
  destruct (shr (shr_record_of_loc n loc_Exact) e' _) as [r2 e2]. cbn [fst] in H2.
  destruct (shr_m r2); [done|by case_match|lia].
Qed.

(** A zero mantissa at a small exponent rounds to zero or to the least number. *)
Lemma round_aux_zero s e l :
  e ≤ -149 → let r := binary_round_aux prec emax s 0 e l in
  f32_ok r ∧ f32_finite r ∧ f32_below (-125) r.
Proof.
  intros He. cbn zeta. unfold binary_round_aux, shr_fexp. rewrite fexp_eq. cbn [Zdigits2].
  replace (Z.max (0 + e - 24) (-149)) with (-149) by lia.
  assert (∃ b n, shr (shr_record_of_loc 0 l) e (-149 - e) =
            ({| shr_m := 0; shr_r := b; shr_s := n |}, -149)) as (b & n & ->).
  { unfold shr. destruct (-149 - e) as [|p|p] eqn:Hd; [|rewrite iter_pos_nat|lia].
    - replace e with (-149) by lia. destruct l as [|[]]; cbn; eauto.
    - destruct (shr_iter_spec (Pos.to_nat p) (shr_record_of_loc 0 l)) as [Hm _];
        rewrite shr_record_m in *; [lia|]. rewrite Z.div_0_l in Hm by (apply Z.pow_nonzero; lia).
      destruct (Nat.iter _ _ _) as [m' b n]. cbn in Hm. subst. exists b, n. f_equal. lia. }
  match goal with |- f32_ok ?r ∧ _ =>
    assert (r = S754_zero s ∨ r = S754_finite s 1 (-149)) as [-> | ->] end.
  - destruct b, n; [by right|by left..].
  - done.
  - split_and!; cbn; lia.
Qed.

(** The digits of a product, and that its exponent allows rounding. *)
Lemma mantissa_product mx ex my ey :
  f32_ok (S754_finite false mx ex) → f32_ok (S754_finite false my ey) →
  ex + ey ≤ fexp prec emax (Zdigits2 (Zpos mx * Zpos my) + (ex + ey)) ∧
  Zdigits2 (Zpos mx * Zpos my) ≤ Zdigits2 (Zpos mx) + Zdigits2 (Zpos my).
Proof.
  cbn. intros Hx Hy.
  destruct (digits_bounds (Zpos mx)) as [[Hx1 Hx2] Hx3]; [lia|].
  destruct (digits_bounds (Zpos my)) as [[Hy1 Hy2] Hy3]; [lia|].
  assert (Zdigits2 (Zpos mx * Zpos my) ≤ Zdigits2 (Zpos mx) + Zdigits2 (Zpos my)) as Hhi.
  { apply digits_le; [lia|lia|]. rewrite Z.pow_add_r by lia. nia. }
  assert (Zdigits2 (Zpos mx) + Zdigits2 (Zpos my) - 2 < Zdigits2 (Zpos mx * Zpos my)) as Hlo.
  { apply digits_ge; [lia|lia|].
    replace (Zdigits2 (Zpos mx) + Zdigits2 (Zpos my) - 2)
      with (Zdigits2 (Zpos mx) - 1 + (Zdigits2 (Zpos my) - 1)) by lia.
    rewrite Z.pow_add_r by lia. nia. }
  assert (2 ^ 23 ≤ Zpos mx → 23 < Zdigits2 (Zpos mx)) as Hnx by (intros; apply digits_ge; lia).
  assert (2 ^ 23 ≤ Zpos my → 23 < Zdigits2 (Zpos my)) as Hny by (intros; apply digits_ge; lia).
  rewrite fexp_eq. split; [lia|done].
Qed.

Lemma f32_mul_spec x y a b :
  f32_ok x → f32_ok y → f32_below a x → f32_below b y → -125 ≤ a + b ≤ 127 →
  f32_ok (f32_mul x y) ∧ f32_below (a + b + 1) (f32_mul x y).
Proof.
  intros Hx Hy Ha Hb Hab. unfold f32_mul. destruct x as [sx| | |sx mx ex], y as [sy| | |sy my ey];
    try done; cbn [SFmul].
  cbn in Hx, Hy. cbn [f32_below] in Ha, Hb.
  change (Zpos (mx * my)) with (Zpos mx * Zpos my).
  destruct (mantissa_product mx ex my ey Hx Hy) as (He & Hhi).
  destruct (round_aux_spec (xorb sx sy) (Zpos mx * Zpos my) (ex + ey) loc_Exact)
    as (n & [_ _ Hc Hn] & ->); [lia|done|].
  set (m := Zpos mx * Zpos my) in *. rewrite fexp_eq in *.
  set (k := Z.max (Zdigits2 m + (ex + ey) - 24) (-149)) in *.
  split; [apply f32_make_ok; lia|].
  pose proof (f32_make_below (xorb sx sy) n k ltac:(lia) Hn) as Hbl.
  destruct (f32_make _ _ _); try done. cbn [f32_below] in *. lia.
Qed.

Lemma f32_mul_ok x y :
  f32_ok x → f32_finite x → f32_ok y → f32_finite y → f32_ok (f32_mul x y).
Proof.
  intros Hx Hfx Hy Hfy. unfold f32_mul. destruct x as [sx| | |sx mx ex], y as [sy| | |sy my ey];
    try done; cbn [SFmul].
  cbn in Hx, Hy. change (Zpos (mx * my)) with (Zpos mx * Zpos my).
  destruct (mantissa_product mx ex my ey Hx Hy) as (He & _).
  destruct (round_aux_spec (xorb sx sy) (Zpos mx * Zpos my) (ex + ey) loc_Exact)
    as (n & [_ _ Hc Hn] & ->); [lia|done|].
  apply f32_make_ok; [done|rewrite fexp_eq; lia|done].
Qed.

Lemma f32_mul_number x y :
  f32_number x → (∃ s m e, y = S754_finite s m e) → f32_number (f32_mul x y).
Proof.
  intros Hx (s & m & e & ->). unfold f32_mul. destruct x as [sx| | |sx mx ex]; try done.
  cbn [SFmul]. by apply round_aux_number.
Qed.

(** The sign of a product of positive numbers. *)
Lemma f32_mul_positive mx ex my ey :
  f32_ok (S754_finite false mx ex) → f32_ok (S754_finite false my ey) →
  f32_mul (S754_finite false mx ex) (S754_finite false my ey) ≠ S754_infinity true.
Proof.
  intros Hx Hy. unfold f32_mul. cbn [SFmul xorb]. change (Zpos (mx * my)) with (Zpos mx * Zpos my).
  destruct (mantissa_product mx ex my ey Hx Hy) as (He & _).
  destruct (round_aux_spec false (Zpos mx * Zpos my) (ex + ey) loc_Exact) as (n & _ & ->);
    [lia|done|]. unfold f32_make. by repeat case_decide.
Qed.

(** The quotient of two mantissas, and how it compares with the target exponent. *)
Lemma div_core_spec m1 e1 m2 e2 :
  0 < m1 → 0 < m2 →
  let δ := Zdigits2 m1 + e1 - (Zdigits2 m2 + e2) in
  ∃ q e l, SFdiv_core_binary prec emax m1 e1 m2 e2 = (q, e, l) ∧ 0 ≤ q ∧
    (q = 0 → e ≤ -149) ∧
    (0 < q → e ≤ fexp prec emax (Zdigits2 q + e) ∧ Zdigits2 q + e ≤ δ + 1).
Proof.
  intros Hm1 Hm2. cbn zeta. unfold SFdiv_core_binary.
  set (δ := Zdigits2 m1 + e1 - (Zdigits2 m2 + e2)).
  rewrite fexp_eq. set (e := Z.min (Z.max (δ - 24) (-149)) (e1 - e2)).
  set (s := e1 - e2 - e). assert (0 ≤ s) as Hs by lia.
  assert ((match s with Zpos _ => Z.shiftl m1 s | Z0 => m1 | Zneg _ => 0 end) = m1 * 2 ^ s) as Hm.
  { destruct s; [by rewrite Z.mul_1_r|by apply Z.shiftl_mul_pow2|lia]. }
  rewrite Hm. set (m' := m1 * 2 ^ s).
  destruct (Z.div_eucl m' m2) as [q r] eqn:Hq.
  assert (q = m' / m2) as -> by (unfold Z.div; by rewrite Hq).
  assert (0 < 2 ^ s) by (apply Z.pow_pos_nonneg; lia).
  assert (0 < m') as Hm' by (unfold m'; nia).
  assert (Zdigits2 m' = Zdigits2 m1 + s) as Hd' by (by apply digits_shift).
  destruct (digits_bounds m' Hm') as [[Hl1 Hh1] Hp1].
  destruct (digits_bounds m2 Hm2) as [[Hl2 Hh2] Hp2].
  assert (0 ≤ m' / m2) as Hq0 by (by apply Z.div_pos; lia).
  pose proof (Z.mul_div_le m' m2 Hm2) as Hle.
  pose proof (Z.mul_succ_div_gt m' m2 Hm2) as Hgt.
  assert (∀ j, 0 ≤ j → j ≤ Zdigits2 m' - 1 - Zdigits2 m2 → 2 ^ j ≤ m' / m2) as Hlow.
  { intros j Hj Hjd. apply Z.div_le_lower_bound; [done|].
    transitivity (2 ^ Zdigits2 m2 * 2 ^ j); [assert (0 < 2 ^ j) by (apply Z.pow_pos_nonneg; lia); nia|].
    rewrite <- Z.pow_add_r by lia. etrans; [|exact Hl1]. apply Z.pow_le_mono_r; lia. }
  eexists (m' / m2), e, _. split; [done|]. split; [done|]. split.
  - intros Hz. destruct (decide (e ≤ -149)); [done|].
    specialize (Hlow 0). rewrite Z.pow_0_r in Hlow. lia.
  - intros Hqp. split.
    + rewrite fexp_eq. destruct (decide (e ≤ -149)); [lia|].
      pose proof (Hlow 23 ltac:(lia)) as H23.
      assert (24 ≤ Zdigits2 m' - Zdigits2 m2) as Hdd by lia.
      pose proof (Hlow (Zdigits2 m' - 1 - Zdigits2 m2) ltac:(lia) ltac:(lia)) as Hj.
      pose proof (digits_ge (m' / m2) (Zdigits2 m' - 1 - Zdigits2 m2) Hqp ltac:(lia) Hj). lia.
    + assert (m' / m2 < 2 ^ (Z.max 0 (Zdigits2 m' - Zdigits2 m2 + 1))) as Hup.
      { apply Z.div_lt_upper_bound; [done|]. eapply Z.lt_le_trans; [exact Hh1|].
        transitivity (2 ^ (Zdigits2 m2 - 1) * 2 ^ Z.max 0 (Zdigits2 m' - Zdigits2 m2 + 1)).
        - rewrite <- Z.pow_add_r by lia. apply Z.pow_le_mono_r; lia.
        - assert (0 < 2 ^ Z.max 0 (Zdigits2 m' - Zdigits2 m2 + 1)) by (apply Z.pow_pos_nonneg; lia).
          nia. }
      destruct (decide (0 ≤ Zdigits2 m' - Zdigits2 m2 + 1)).
      * rewrite Z.max_r in Hup by lia. apply digits_le in Hup; lia.
      * rewrite Z.max_l, Z.pow_0_r in Hup by lia. lia.
Qed.

Lemma f32_div_spec x sy my ey :
  f32_ok x → f32_number x →
  let r := f32_div x (S754_finite sy my ey) in
  f32_ok r ∧ f32_number r ∧
  ∀ a c, f32_below a x → f32_above c (S754_finite sy my ey) → a - c ≤ 126 → f32_finite r.
Proof.
  intros Hx Hn. cbn zeta. unfold f32_div. destruct x as [sx|sx| |sx mx ex]; try done.
  cbn [SFdiv]. destruct (div_core_spec (Zpos mx) ex (Zpos my) ey) as (q & e & l & -> & Hq & Hz & Hp);
    [done..|]. cbn zeta in Hp. destruct (decide (q = 0)) as [->|Hq0].
  - destruct (round_aux_zero (xorb sx sy) e l (Hz eq_refl)) as (? & ? & _).
    split_and!; [done|by apply round_aux_number|done].
  - destruct Hp as [He Hd]; [lia|].
    destruct (round_aux_spec (xorb sx sy) q e l) as (n & [_ _ Hc Hs] & ->); [lia|done|].
    rewrite fexp_eq in *. split_and!.
    + apply f32_make_ok; [done|lia|done].
    + apply f32_make_number.
    + cbn [f32_below f32_above]. intros a c Ha Hcc Hac. apply f32_make_finite. lia.
Qed.

(** ** Conversions *)

Lemma f32_of_spec n :
  in_width 64 n → f32_ok (f32_of n) ∧ f32_below 65 (f32_of n) ∧ (0 < n → f32_above 1 (f32_of n)).
Proof.
  unfold in_width. intros Hn. unfold f32_of. destruct n as [|p|p]; cbn [binary_normalize]; [by split_and!| |lia].
  destruct (binary_round_make false p 0) as (m & -> & Hm & Hc & _ & _).
  rewrite Z.add_0_r, fexp_eq in *.
  assert (Zdigits2 (Zpos p) ≤ 64) by (apply digits_le; lia).
  destruct (digits_bounds (Zpos p)) as [_ Hd]; [lia|].
  set (k := Z.max (Zdigits2 (Zpos p) - 24) (-149)) in *.
  split_and!; [apply f32_make_ok; lia| |intros _].
  - pose proof (f32_make_below false m k ltac:(lia) Hm) as Hb.
    destruct (f32_make _ _ _); try done. cbn [f32_below] in *. lia.
  - pose proof (f32_make_above false m k ltac:(lia) ltac:(lia)) as Ha.
    destruct (f32_make _ _ _); try done. cbn [f32_above] in *. lia.
Qed.

Lemma f32_below_finite b x : f32_below b x → f32_finite x.
Proof. by destruct x. Qed.

Lemma f32_finite_number x : f32_finite x → f32_number x.
Proof. by destruct x. Qed.

(** Small integers are exact. *)
Lemma f32_of_exact n : 0 ≤ n < 2 ^ 24 → sval (f32_of n) = n * unit_one.
Proof.
  intros Hn. unfold f32_of, unit_one. destruct n as [|p|p]; cbn [binary_normalize]; [done| |lia].
  destruct (binary_round_make false p 0) as (m & -> & Hm & Hc & Hx & _).
  rewrite Z.add_0_r, fexp_eq in *.
  assert (Zdigits2 (Zpos p) ≤ 24) by (apply digits_le; lia).
  destruct (digits_bounds (Zpos p)) as [_ Hd]; [lia|].
  set (k := Z.max (Zdigits2 (Zpos p) - 24) (-149)) in *.
  rewrite f32_make_val by lia. rewrite Hx by lia. cbn [cond_Zopp].
  rewrite <- Z.mul_assoc, <- Z.pow_add_r by lia. do 2 f_equal. lia.
Qed.

(** A number that is at least [n] truncates to at least [n]. *)
Lemma f32_to_ge w x n :
  f32_ok x → f32_finite x → 0 < n < 2 ^ w → n * unit_one ≤ sval x → n ≤ f32_to w x.
Proof.
  unfold unit_one. intros Ho Hf Hn Hx. destruct x as [s| | |s m e]; try done.
  { cbn [sval] in Hx. assert (0 < 2 ^ 149) by done. nia. }
  cbn in Ho. cbn [sval] in Hx. assert (0 < 2 ^ (e + 149)) by (apply Z.pow_pos_nonneg; lia).
  destruct s; cbn [cond_Zopp f32_to] in *; [assert (0 < 2 ^ 149) by done; nia|].
  apply Z.min_glb; [lia|]. destruct (decide (0 ≤ e)).
  - rewrite Z.shiftl_mul_pow2 by done. rewrite Z.pow_add_r in Hx by lia.
    assert (0 < 2 ^ 149) by done. nia.
  - replace e with (- (- e)) by lia. rewrite Z.shiftl_opp_r, Z.shiftr_div_pow2 by lia.
    apply Z.div_le_lower_bound; [apply Z.pow_pos_nonneg; lia|].
    replace 149 with (- e + (e + 149)) in Hx at 1 by lia. rewrite Z.pow_add_r in Hx by lia. nia.
Qed.

(** Magnitudes and values. *)
Lemma f32_below_sval b x : f32_ok x → -149 ≤ b → f32_below b x → Z.abs (sval x) < 2 ^ (b + 149).
Proof.
  intros Ho Hb Hx. assert (0 < 2 ^ (b + 149)) by (apply Z.pow_pos_nonneg; lia).
  destruct x as [s| | |s m e]; try done. cbn [sval]. rewrite cond_Zopp_abs. cbn in Ho.
  cbn [f32_below] in Hx. destruct (digits_bounds (Zpos m)) as [[_ Hm] Hd]; [lia|].
  assert (0 < 2 ^ (e + 149)) by (apply Z.pow_pos_nonneg; lia). rewrite Z.abs_eq by lia.
  apply Z.lt_le_trans with (2 ^ Zdigits2 (Zpos m) * 2 ^ (e + 149)); [nia|].
  rewrite <- Z.pow_add_r by lia. apply Z.pow_le_mono_r; lia.
Qed.

Lemma sval_f32_below b x :
  f32_ok x → f32_finite x → -149 ≤ b → Z.abs (sval x) < 2 ^ (b + 149) → f32_below b x.
Proof.
  intros Ho Hf Hb. destruct x as [s| | |s m e]; try done. cbn [sval f32_below].
  rewrite cond_Zopp_abs. cbn in Ho. assert (0 < 2 ^ (e + 149)) by (apply Z.pow_pos_nonneg; lia).
  rewrite Z.abs_eq by lia. intros Hv. apply digits_le in Hv; [|nia|lia].
  rewrite digits_shift in Hv by lia. lia.
Qed.
