(* ===== verification/Kayak.v ===== *)
(** * Kayak: the client that balances shipping compute and shipping data

    Models splinter/src/bin/client/ycsb-t-kayak.rs.  The client keeps up to
    [max_out] requests outstanding.  A request is native (a get, or a multiget
    whose transaction the client computes and commits) or the invocation of the
    extension ycsbt, by a coin with bias [ext_p].  Two controllers run on the
    responses: the R-loop adapts [max_out] to the latency target, the X-loop
    adapts [ext_p] to the throughput, by its gradient.

    Random numbers, the Zipf distribution and the selection of an order
    statistic come from crates outside the repository and are the interface
    [Workloads].  The fields that are only printed are left out, and so are the
    receive functions that nothing calls. *)

From stdpp Require Import strings.
From Stdlib Require Import SpecFloat.
From S2P Require Import Prelude Packed Headers Packet Wire Rpc Alloc Tx Bufs Ext Context Task.
From S2P Require Import Dispatch Proxy Client DB Programs Float.

(** ** The controllers *)

Record Controller := mkController {
  ext_p : f32;
  max_out : f32;
  kth : Z;
  rloop_last_recvd : Z;
  rloop_last_rdtsc : Z;
  xloop_last_recvd : Z;
  xloop_last_rdtsc : Z;
  xloop_last_rate : f32;
  xloop_last_X : f32;
}.

(** The client's configuration of the loops. *)
Record LoopConfig := mkLoopConfig { slo : Z; rloop_factor : Z; xloop_factor : Z }.

(** Literals: [3e-6] is the nearest number to three millionths. *)
Definition f32_3e_6 : f32 := f32_div (f32_of 3) (f32_of 1000000).

Definition f32_half : f32 := f32_div (f32_of 1) (f32_of 2).

(** [2.4e6 * recvd as f32 / cycles as f32], for what was received in [cycles]. *)
Definition loop_rate (recvd cycles : Z) : f32 :=
  f32_div (f32_mul (f32_of 2400000) (f32_of recvd)) (f32_of cycles).

(** A loop runs at most [factor] times a second, when the number of latencies is
    a multiple of its factor and more than a hundred. *)
Definition loop_due (factor rdtsc last_rdtsc n : Z) : bool :=
  bool_decide (factor ≠ 0) &&
  bool_decide (rdtsc -u64 last_rdtsc > 2400000000 / factor) &&
  bool_decide (n > 100) && bool_decide (n mod factor = 0).

(** The next limit on outstanding requests, from the target and the measured
    tail latency. *)
Definition next_max_out (max_out : f32) (slo kth : Z) : f32 :=
  let lat_offset := f32_sub (f32_of slo) (f32_of kth) in
  let out_delta := f32_mul f32_3e_6 lat_offset in
  if f32_gt (f32_add max_out out_delta) (f32_of 2) then f32_add max_out out_delta
  else
    let max_out := f32_mul max_out f32_half in
    if f32_lt max_out (f32_of 2) then f32_of 2 else max_out.

Definition rloop (cfg : LoopConfig) (c : Controller) (recvd n rdtsc : Z) : Controller :=
  if loop_due (rloop_factor cfg) rdtsc (rloop_last_rdtsc c) n then
    mkController (ext_p c) (next_max_out (max_out c) (slo cfg) (kth c)) (kth c)
      recvd rdtsc (xloop_last_recvd c) (xloop_last_rdtsc c) (xloop_last_rate c) (xloop_last_X c)
  else c.

(** The gradient, clipped. *)
Definition bounded_offset_X (grad : f32) : f32 :=
  if f32_gt grad (f32_of 0) then
    if f32_lt grad (f32_of 1) then f32_of 1
    else if f32_gt grad (f32_of 20) then f32_of 5
    else grad
  else
    if f32_gt grad (f32_of (-1)) then f32_of (-1)
    else if f32_lt grad (f32_of (-20)) then f32_of (-5)
    else grad.

(** The next percentage of invocations; a step that leaves the range bounces back. *)
Definition next_ext_p (ext_p offset : f32) : f32 :=
  let new_X := f32_add offset ext_p in
  if f32_gt new_X (f32_of 100) || f32_lt new_X (f32_of 0) then f32_sub ext_p offset else new_X.

Definition xloop (cfg : LoopConfig) (c : Controller) (recvd n rdtsc : Z) : Controller :=
  if loop_due (xloop_factor cfg) rdtsc (xloop_last_rdtsc c) n then
    let xloop_rate := loop_rate (recvd -u64 xloop_last_recvd c) (rdtsc -u64 xloop_last_rdtsc c) in
    let delta_rate := f32_sub xloop_rate (xloop_last_rate c) in
    let delta_X := f32_sub (ext_p c) (xloop_last_X c) in
    let grad := f32_div (f32_mul (f32_of 2) delta_rate) delta_X in
    mkController (next_ext_p (ext_p c) (bounded_offset_X grad)) (max_out c) (kth c)
      (rloop_last_recvd c) (rloop_last_rdtsc c) recvd rdtsc xloop_rate (ext_p c)
  else c.

(** ** Random workloads *)

Class Workloads := {
  Rng : Type;
  gen_u32 : Rng → Z * Rng;
  Zipf : Type;
  zipf_sample : Zipf → Rng → Z * Zipf * Rng;
  (** [order_stat::kth(l, k)]: the [k]th smallest element, from 0. *)
  kth_smallest : list Z → Z → Z;
}.

Section workload.
Context `{Workloads}.

Record YCSBT := mkYCSBT {
  put_pct : Z;
  rng : Rng;
  key_rng : Zipf;
  tenant_rng : Zipf;
  key_buf : bytes;
  multikey_buf : bytes;
}.

Definition YCSBT_new (key_len put_pct : Z) (rng : Rng) (key_rng tenant_rng : Zipf) : YCSBT :=
  mkYCSBT put_pct rng key_rng tenant_rng (replicate (Z.to_nat key_len) 0)
    (replicate (Z.to_nat (2 * key_len)) 0).

(** The closures [get] and [put] become data: the operation to perform. *)
Inductive YcsbOp :=
| OpGet (tenant : Z) (key : bytes)
| OpMulti (tenant : Z) (keys : bytes).

Definition abc (y : YCSBT) : outcome (YCSBT * YcsbOp) :=
  let (r, rng) := gen_u32 (rng y) in
  let is_get := bool_decide (r mod 100 >= wrap 32 (put_pct y)) in
  let '(t, tenant_rng, rng) := zipf_sample (tenant_rng y) rng in
  let t := wrap 32 t in
  let '(k, key_rng, rng) := zipf_sample (key_rng y) rng in
  let k := le_bytes 4 (wrap 32 k) in
  key_buf ← copy_from_slice (key_buf y) 0 4 k;
  if is_get : bool then
    Ret (mkYCSBT (put_pct y) rng key_rng tenant_rng key_buf (multikey_buf y), OpGet t key_buf)
  else
    multikey_buf ← copy_from_slice (multikey_buf y) 0 4 k;
    let '(k, key_rng, rng) := zipf_sample key_rng rng in
    multikey_buf ← copy_from_slice multikey_buf 30 34 (le_bytes 4 (wrap 32 k));
    Ret (mkYCSBT (put_pct y) rng key_rng tenant_rng key_buf multikey_buf, OpMulti t multikey_buf).
End workload.

(** ** The client *)

(** What a client is configured with. *)
Record ClientConf := mkClientConf {
  responses : Z;
  requests : Z;
  key_len : Z;
  record_len : Z;
  table_id : Z;
  name_length : Z;
  loops : LoopConfig;
}.

(** What it has counted. *)
Record Counts := mkCounts {
  recvd : Z;
  aborted : Z;
  sent : Z;
  outstanding : Z;
  latencies : list Z;
  finished : bool;
  stop : Z;
}.

Section kayak.
Context `{Network} `{Loader} `{Workloads} {G : Type}.

(** What it works with: the network, the pushed-back tasks, the workload and
    the payloads of the two invocations. *)
Record Station := mkStation {
  link : Link;
  receiver : Receiver;
  manager : @TaskManager _ G;
  workload : YCSBT;
  invoke_get : bytes;
  invoke_get_modify : bytes;
}.

Record PushbackRecvSend := mkRecvSend {
  conf : ClientConf;
  station : Station;
  counts : Counts;
  control : Controller;
}.

(** *** Creation *)

Definition ycsbt_name : bytes := str "ycsbt".

(** [Vec::resize(n, 0)] *)
Definition resize (l : bytes) (n : Z) : bytes :=
  take (Z.to_nat n) l ++ replicate (Z.to_nat (n - len l)) 0.

Definition invoke_get_payload (key_len order : Z) : bytes :=
  let payload_len := len ycsbt_name + 8 + key_len + 4 + 1 in
  resize (ycsbt_name ++ le_bytes 8 1 ++ replicate 30 0 ++ le_bytes 4 order ++ [1]) payload_len.

Definition invoke_get_modify_payload (key_len order : Z) : bytes :=
  let payload_len := len ycsbt_name + 8 + key_len + key_len + 4 + 1 in
  resize (ycsbt_name ++ le_bytes 8 1 ++ replicate 60 0 ++ le_bytes 4 order ++ [2]) payload_len.

(** [x_half] is [50.5]. *)
Definition PushbackRecvSend_new (w : Link) (extensions : ExtensionManager) (y : YCSBT)
    (cfg : LoopConfig) (resps reqs key_len value_len order invoke_p max_out : Z) : PushbackRecvSend :=
  let (start, net) := rdtsc w.2 in
  let (now, net) := rdtsc net in
  let (now2, net) := rdtsc net in
  let x_half := f32_div (f32_of 101) (f32_of 2) in
  mkRecvSend
    (mkClientConf resps reqs key_len (1 + 8 + key_len + value_len) 1 (len ycsbt_name) cfg)
    (mkStation (w.1, net) Receiver_new (TaskManager_new extensions) y
       (invoke_get_payload key_len order) (invoke_get_modify_payload key_len order))
    (mkCounts 0 0 0 0 [] false 0)
    (mkController (f32_of invoke_p) (f32_of max_out) 0 0 now2 0 now (f32_of 0) x_half).

(** *** Sending *)

Definition on_station (k : PushbackRecvSend) (f : Station → outcome Station) :
    outcome PushbackRecvSend :=
  s ← f (station k); Ret (mkRecvSend (conf k) s (counts k) (control k)).

Definition with_link (s : Station) (w : Link) : Station :=
  mkStation w (receiver s) (manager s) (workload s) (invoke_get s) (invoke_get_modify s).

Definition with_manager (s : Station) (m : TaskManager) : Station :=
  mkStation (link s) (receiver s) m (workload s) (invoke_get s) (invoke_get_modify s).

(** A native request: a get, or a multiget of two keys. *)
Definition send_native (c : ClientConf) (s : Station) (op : YcsbOp) (curr : Z) : outcome Station :=
  w ← match op with
      | OpGet tenant key => send_get (link s) tenant (table_id c) key curr
      | OpMulti tenant multikey =>
          send_multiget (link s) tenant (table_id c) (wrap 16 (key_len c)) 2 multikey curr
      end;
  Ret (with_link s w).

(** An invocation, with the task that would run it here if it is pushed back. *)
Definition send_invocation (c : ClientConf) (s : Station) (op : YcsbOp) (curr : Z) :
    outcome Station :=
  match op with
  | OpGet tenant key =>
      k ← slice key 0 4;
      p_get ← copy_from_slice (invoke_get s) 13 17 k;
      m ← create_task (manager s) curr p_get tenant (name_length c);
      w ← send_invoke (link s) tenant (name_length c) p_get curr;
      Ret (mkStation w (receiver s) m (workload s) p_get (invoke_get_modify s))
  | OpMulti tenant multiget =>
      k ← slice multiget 0 4;
      p_put ← copy_from_slice (invoke_get_modify s) 13 17 k;
      k ← slice multiget 30 34;
      p_put ← copy_from_slice p_put 43 47 k;
      m ← create_task (manager s) curr p_put tenant (name_length c);
      w ← send_invoke (link s) tenant (name_length c) p_put curr;
      Ret (mkStation w (receiver s) m (workload s) (invoke_get s) p_put)
  end.

(** A turn of the sending loop. *)
Definition send_one (k : PushbackRecvSend) : outcome PushbackRecvSend :=
  let s := station k in
  let (curr, net) := rdtsc (link s).2 in
  let (r, rng) := gen_u32 (rng (workload s)) in
  let o := bool_decide (r mod 100 >= f32_to 32 (ext_p (control k))) in
  let y := workload s in
  '(y, op) ← abc (mkYCSBT (put_pct y) rng (key_rng y) (tenant_rng y) (key_buf y) (multikey_buf y));
  let s := mkStation ((link s).1, net) (receiver s) (manager s) y (invoke_get s)
             (invoke_get_modify s) in
  s ← (if o : bool then send_native else send_invocation) (conf k) s op curr;
  let n := counts k in
  Ret (mkRecvSend (conf k) s
         (mkCounts (recvd n) (aborted n) (sent n +u64 1) (outstanding n +u64 1) (latencies n)
            (finished n) (stop n)) (control k)).

(** The guard of the loop. *)
Definition may_send (k : PushbackRecvSend) : bool :=
  bool_decide (outstanding (counts k) < f32_to 64 (max_out (control k))) &&
  bool_decide (get_queue_len (manager (station k)) < f32_to 64 (max_out (control k))).

Definition send_loop : nat → PushbackRecvSend → outcome PushbackRecvSend :=
  while_loop may_send send_one.

(** Every turn adds an outstanding request. *)
Definition send_fuel (k : PushbackRecvSend) : nat :=
  Z.to_nat (f32_to 64 (max_out (control k)) - outstanding (counts k)).

Definition send (k : PushbackRecvSend) : outcome PushbackRecvSend :=
  if decide (requests (conf k) <= sent (counts k)) then Ret k else send_loop (send_fuel k) k.

(** *** Native transactions *)

Definition process_get_response (c : ClientConf) (s : Station) (p : Packet GetResponse) :
    outcome Station :=
  h ← get_header p;
  record ← get_payload p;
  w ← send_commit (link s) (res_tenant (getres_common h)) (table_id c) record
        (res_stamp (getres_common h)) 30 100;
  Ret (with_link s w).

Definition native_transfer (value1 value2 : bytes) : outcome (bytes * bytes) :=
  a ← index value1 0;
  b ← index value2 0;
  if decide (a > 0 ∧ b < 255) then
    value1 ← set_index value1 0 (a - 1);
    value2 ← set_index value2 0 (b + 1);
    Ret (value1, value2)
  else if decide (b > 0 ∧ a < 255) then
    value1 ← set_index value1 0 (a + 1);
    value2 ← set_index value2 0 (b - 1);
    Ret (value1, value2)
  else Ret (value1, value2).

(** The payload of the commit for two records that were read. *)
Definition multiget_commit_payload (records : bytes) : outcome bytes :=
  '(record1, record2) ← split_at records 139;
  '(_, rest1) ← split_at record1 9;
  '(key1, v1) ← split_at rest1 30;
  '(_, rest2) ← split_at record2 9;
  '(key2, v2) ← split_at rest2 30;
  '(value1, value2) ← native_transfer v1 v2;
  let optype := [OpType_u8 SandstormWrite] in
  let version := le_bytes 8 0 in
  Ret (records ++ optype ++ version ++ key1 ++ value1 ++ optype ++ version ++ key2 ++ value2).

(** The busy wait of the transaction's compute part is left out. *)
Definition process_multiget_response (c : ClientConf) (s : Station) (p : Packet MultiGetResponse) :
    outcome Station :=
  h ← get_header p;
  records ← get_payload p;
  commit_payload ← multiget_commit_payload records;
  w ← send_commit (link s) (res_tenant (mgetres_common h)) (table_id c) commit_payload
        (res_stamp (mgetres_common h)) 30 100;
  Ret (with_link s w).

(** *** Receiving *)

Definition count_recvd (n : Counts) (latency : Z) : Counts :=
  mkCounts (recvd n +u64 1) (aborted n) (sent n) (outstanding n) (latencies n ++ [latency])
    (finished n) (stop n).

Definition count_aborted (n : Counts) : Counts :=
  mkCounts (recvd n) (aborted n +u64 1) (sent n) (outstanding n) (latencies n) (finished n) (stop n).

(** [self.outstanding -= 1] *)
Definition one_less (n : Counts) : Counts :=
  mkCounts (recvd n) (aborted n) (sent n) (outstanding n -u64 1) (latencies n) (finished n) (stop n).

Definition free {T} (p : Packet T) (s : Station) : Station :=
  with_link s ((link s).1, mbuf_free (mbuf p) (link s).2).

(** The first part of the loop over a batch: the station, the counts, and
    whether a response was counted.  [inl] is the [continue] of the source. *)
Definition recv_commit (c : ClientConf) (s : Station) (n : Counts) (packet : Packet UdpHeader)
    (curr : Z) : outcome (Station * Counts * bool) :=
  p ← parse_header CommitResponse packet;
  h ← get_header p;
  let h := commitres_common h in
  let '(n, signal) :=
    if decide (status h = RpcStatus_u8 StatusTxAbort) then (count_aborted n, false)
    else if decide (status h = RpcStatus_u8 StatusOk)
         then (count_recvd n (curr -u64 res_stamp h), true)
    else (n, false) in
  Ret (free p s, n, signal).

Definition recv_invoke (c : ClientConf) (s : Station) (n : Counts) (packet : Packet UdpHeader)
    (curr : Z) : outcome (Station * Counts * bool) :=
  p ← parse_header InvokeResponse packet;
  h ← get_header p;
  let h := invokeres_common h in
  let timestamp := res_stamp h in
  '(s, n, signal) ←
    (if decide (status h = RpcStatus_u8 StatusOk) then
       Ret (with_manager s (delete_task (manager s) timestamp),
            one_less (count_recvd n (curr -u64 timestamp)), true)
     else if decide (status h = RpcStatus_u8 StatusPushback) then
       records ← get_payload p;
       m ← update_rwset (manager s) timestamp records (record_len c) (key_len c);
       Ret (with_manager s m, one_less n, false)
     else if decide (status h = RpcStatus_u8 StatusTxAbort) then
       pl ← get_payload p;
       w ← send_invoke (link s) (res_tenant h) (name_length c) pl timestamp;
       Ret (with_link s w, count_aborted n, false)
     else Ret (s, n, false));
  Ret (free p s, n, signal).

Definition recv_get (c : ClientConf) (s : Station) (n : Counts) (packet : Packet UdpHeader) :
    outcome (Station * Counts * bool) :=
  p ← parse_header GetResponse packet;
  h ← get_header p;
  s ← (if decide (status (getres_common h) = RpcStatus_u8 StatusOk)
       then process_get_response c s p else Ret s);
  Ret (free p s, one_less n, false).

Definition recv_multiget (c : ClientConf) (s : Station) (n : Counts) (packet : Packet UdpHeader) :
    outcome (Station * Counts * bool) :=
  p ← parse_header MultiGetResponse packet;
  h ← get_header p;
  s ← (if decide (status (mgetres_common h) = RpcStatus_u8 StatusOk)
       then process_multiget_response c s p else Ret s);
  Ret (free p s, one_less n, false).

(** The controllers run after a response that was counted: the tail latency
    over the last hundred, then the R-loop, then the X-loop. *)
Definition measure_kth (c : Controller) (lats : list Z) : outcome Controller :=
  let n := len lats in
  if decide (n > 100 ∧ n mod 10 = 0) then
    tmpvec ← slice lats (n - 100) n;
    Ret (mkController (ext_p c) (max_out c) (kth_smallest tmpvec 98) (rloop_last_recvd c)
           (rloop_last_rdtsc c) (xloop_last_recvd c) (xloop_last_rdtsc c) (xloop_last_rate c)
           (xloop_last_X c))
  else Ret c.

Definition run_loops (cfg : LoopConfig) (c : Controller) (n : Counts) (net : Net) :
    outcome (Controller * Net) :=
  c ← measure_kth c (latencies n);
  let (rloop_rdtsc, net) := rdtsc net in
  let c := rloop cfg c (recvd n) (len (latencies n)) rloop_rdtsc in
  let (xloop_rdtsc, net) := rdtsc net in
  Ret (xloop cfg c (recvd n) (len (latencies n)) xloop_rdtsc, net).

(** A turn of the loop over a batch.  A commit response skips the controllers,
    which then run with the next response of the batch. *)
Definition recv_packet (curr : Z) (st : PushbackRecvSend * bool) (packet : Packet UdpHeader) :
    outcome (PushbackRecvSend * bool) :=
  let (k, signal) := st in
  let c := conf k in
  let n := counts k in
  opcode ← parse_rpc_opcode packet;
  match opcode with
  | SandstormCommitRpc =>
      '(s, n, sig) ← recv_commit c (station k) n packet curr;
      Ret (mkRecvSend c s n (control k), signal || sig)
  | _ =>
      '(s, n, sig) ←
        match opcode with
        | SandstormInvokeRpc => recv_invoke c (station k) n packet curr
        | SandstormGetRpc => recv_get c (station k) n packet
        | SandstormMultiGetRpc => recv_multiget c (station k) n packet
        | _ => Ret (free packet (station k), one_less n, false)
        end;
      if (signal || sig) : bool then
        '(ctl, net) ← run_loops (loops c) (control k) n (link s).2;
        Ret (mkRecvSend c (with_link s ((link s).1, net)) n ctl, false)
      else Ret (mkRecvSend c s n (control k), false)
  end.

(** [packets.pop()] takes the batch from its end. *)
Definition recv (k : PushbackRecvSend) : outcome PushbackRecvSend :=
  if decide (finished (counts k) = true ∧ stop (counts k) > 0) then Ret k
  else
    let s := station k in
    '(rc, net, packets) ← recv_res (receiver s) (link s).2;
    let s := mkStation ((link s).1, net) rc (manager s) (workload s) (invoke_get s)
               (invoke_get_modify s) in
    let k := mkRecvSend (conf k) s (counts k) (control k) in
    k ← match packets with
        | Some packets =>
            let (curr, net) := rdtsc (link s).2 in
            let k := mkRecvSend (conf k) (with_link s ((link s).1, net)) (counts k) (control k) in
            '(k, _) ← ofold (recv_packet curr) (k, false) (rev packets);
            Ret k
        | None => Ret k
        end;
    let n := counts k in
    if decide (responses (conf k) <= recvd n +u64 aborted n) then
      let (now, net) := rdtsc (link (station k)).2 in
      Ret (mkRecvSend (conf k) (with_link (station k) ((link (station k)).1, net))
             (mkCounts (recvd n) (aborted n) (sent n) (outstanding n) (latencies n) true now)
             (control k))
    else Ret k.

(** *** Executable::execute *)

Definition MAX_CREDIT : nat := 32.

Context (ext_gen : Extension → ProxyDB → G) (resume : Link → ProxyDB → G → ClientStep Link G).

(** One task of the manager, timed by the clock. *)
Definition execute_one (k : PushbackRecvSend) : outcome PushbackRecvSend :=
  let s := station k in
  let (start, net) := rdtsc (link s).2 in
  let (stop, net) := rdtsc net in
  '(w, m, _) ← execute_task ext_gen resume ((link s).1, net) (manager s) start stop;
  Ret (mkRecvSend (conf k) (with_manager (with_link s w) m) (counts k) (control k)).

Definition execute (k : PushbackRecvSend) : outcome PushbackRecvSend :=
  k ← send k;
  k ← recv k;
  ofold (λ k _, execute_one k) k (seq 0 MAX_CREDIT).
End kayak.
