(* ===== verification/KayakSpecs.v ===== *)
(** * KayakSpecs: the client that balances shipping compute and shipping data

    Theorems about file [Kayak]: the two controllers keep their outputs in
    range whatever they measure, the sending loop fills its window and ends, and
    a transaction has the same effect wherever its compute part runs. *)

From Stdlib Require Import SpecFloat.
From S2P Require Import Prelude Packed Headers Packet Wire Rpc Alloc Tx Table Store Handlers.
From S2P Require Import HandlerSpecs CommitSpecs Bufs Context ContextSpecs Ext Task Dispatch Proxy.
From S2P Require Import Client DispatchSpecs DB DBSpecs Programs ExtSpecs Float Kayak.

(** ** Numbers in a range *)

(** [x] is a finite number and its value lies between [lo] and [hi], in units
    of 2^-149. *)
Record within (lo hi : Z) (x : f32) : Prop := {
  wi_ok : f32_ok x;
  wi_finite : f32_finite x;
  wi_range : lo ≤ sval x ≤ hi;
}.

Abbreviation one := unit_one.

Lemma within_exact n lo hi : 0 ≤ n < 2 ^ 24 → lo ≤ n * one ≤ hi → within lo hi (f32_of n).
Proof.
  intros Hn Hr. destruct (f32_of_spec n) as (Ho & Hb & _); [unfold in_width; lia|].
  split; [done|by eapply f32_below_finite|by rewrite f32_of_exact].
Qed.

(** A sum or a difference of at most 127 in magnitude is right up to 2^-17. *)
Lemma near_within v r :
  near v r → Z.abs v < 128 * one →
  within (v - 2 ^ 132) (v + 2 ^ 132) r.
Proof.
  intros [Ho _ Hf He] Hv. pose proof (He 7 ltac:(lia) Hv) as Herr.
  split; [done| |lia]. apply Hf. etrans; [exact Hv|done].
Qed.

Lemma f32_gt_within lo hi lo' hi' x y :
  within lo hi x → within lo' hi' y → f32_gt x y = bool_decide (sval y < sval x).
Proof. intros [] []. by apply f32_gt_sval. Qed.

Lemma f32_lt_within lo hi lo' hi' x y :
  within lo hi x → within lo' hi' y → f32_lt x y = bool_decide (sval x < sval y).
Proof. intros [] []. by apply f32_lt_sval. Qed.

(** ** The X-loop *)

(** Close a goal [within lo hi x] on a literal. *)
Ltac literal := split; vm_compute; intuition discriminate.

(** A clipped gradient is a step of 1 to 20 percent, up or down. *)
Definition step_size (x : f32) : Prop :=
  within (-20 * one) (20 * one) x ∧ (sval x ≤ - one ∨ one ≤ sval x).

Lemma literal_step n x :
  within (n * one) (n * one) x → 1 ≤ Z.abs n ≤ 20 → step_size x.
Proof.
  intros [? ? ?] Hr. assert (0 < one) by done. split; [split; [done..|nia]|nia].
Qed.

Lemma clipped_is_step grad : f32_ok grad → f32_number grad → step_size (bounded_offset_X grad).
Proof.
  intros Ho Hn.
  assert (within one one (f32_of 1)) as H1 by literal.
  assert (within (- one) (- one) (f32_of (-1))) as Hm1 by literal.
  assert (within (20 * one) (20 * one) (f32_of 20)) as H20 by literal.
  assert (within (-20 * one) (-20 * one) (f32_of (-20))) as Hm20 by literal.
  assert (within 0 0 (f32_of 0)) as H0 by literal.
  assert (step_size (f32_of 1)) as S1 by (apply (literal_step 1); [literal|lia]).
  assert (step_size (f32_of (-1))) as Sm1 by (apply (literal_step (-1)); [literal|lia]).
  assert (step_size (f32_of 5)) as S5 by (apply (literal_step 5); [literal|lia]).
  assert (step_size (f32_of (-5))) as Sm5 by (apply (literal_step (-5)); [literal|lia]).
  unfold bounded_offset_X. destruct grad as [s|[]| |s m e]; try done.
  set (x := S754_finite s m e) in *.
  assert (within (sval x) (sval x) x) as Hx by (split; [done|done|lia]).
  rewrite (f32_gt_within _ _ _ _ _ _ Hx H0), (f32_lt_within _ _ _ _ _ _ Hx H1),
    (f32_gt_within _ _ _ _ _ _ Hx H20), (f32_gt_within _ _ _ _ _ _ Hx Hm1),
    (f32_lt_within _ _ _ _ _ _ Hx Hm20).
  destruct H0 as [_ _ H0], H1 as [_ _ H1], H20 as [_ _ H20], Hm1 as [_ _ Hm1], Hm20 as [_ _ Hm20].
  revert H0 H1 H20 Hm1 Hm20. generalize (sval (f32_of 0)), (sval (f32_of 1)), (sval (f32_of 20)),
    (sval (f32_of (-1))), (sval (f32_of (-20))). intros v0 v1 v20 vm1 vm20 H0 H1 H20 Hm1 Hm20.
  repeat case_bool_decide; first [done|split; [split; [done..|lia]|lia]].
Qed.

(** A step from a percentage gives a percentage that differs by a half or more. *)
Lemma step_stays_percentage p x :
  within 0 (100 * one) p → step_size x →
  within 0 (100 * one) (next_ext_p p x) ∧ one ≤ 2 * Z.abs (sval (next_ext_p p x) - sval p).
Proof.
  intros Hp [Hx Hs]. unfold next_ext_p.
  assert (within (100 * one) (100 * one) (f32_of 100)) as H100 by literal.
  assert (within 0 0 (f32_of 0)) as H0 by literal.
  assert (one = 2 ^ 17 * 2 ^ 132) as Hone by done. assert (0 < 2 ^ 132) as He by done.
  destruct Hp as [Hpo Hpf Hpr], Hx as [Hxo Hxf Hxr].
  pose proof (near_within _ _ (f32_add_near x p Hxo Hpo Hxf Hpf) ltac:(lia)) as Hadd.
  pose proof (near_within _ _ (f32_sub_near p x Hpo Hxo Hpf Hxf) ltac:(lia)) as Hsub.
  rewrite (f32_gt_within _ _ _ _ _ _ Hadd H100), (f32_lt_within _ _ _ _ _ _ Hadd H0).
  destruct Hadd as [? ? Ha], Hsub as [? ? Hb], H100 as [_ _ H100], H0 as [_ _ H0].
  set (e := 2 ^ 132) in *. rewrite Hone in *.
  repeat case_bool_decide; cbn [orb]; (split; [split; [done..|]|]); lia.
Qed.

(** The state of the X-loop: a percentage, a percentage it had before and that
    differs from it, and the last rate. *)
Record x_inv (c : Controller) : Prop := {
  xi_ext_p : within 0 (100 * one) (ext_p c);
  xi_last_X : within 0 (100 * one) (xloop_last_X c);
  xi_apart : one ≤ 2 * Z.abs (sval (ext_p c) - sval (xloop_last_X c));
  xi_rate_ok : f32_ok (xloop_last_rate c);
  xi_rate_finite : f32_finite (xloop_last_rate c);
}.

Lemma loop_rate_finite recvd cycles :
  in_width 64 recvd → in_width 64 cycles → 0 < cycles →
  f32_ok (loop_rate recvd cycles) ∧ f32_finite (loop_rate recvd cycles).
Proof.
  intros Hr Hc Hpos. unfold loop_rate.
  destruct (f32_of_spec recvd Hr) as (Ho1 & Hb1 & _).
  destruct (f32_of_spec cycles Hc) as (Ho2 & _ & Ha2). specialize (Ha2 Hpos).
  destruct (f32_mul_spec (f32_of 2400000) (f32_of recvd) 22 65) as [Hm Hbm];
    [vm_compute; intuition discriminate|done|vm_compute; discriminate|done|lia|].
  destruct (f32_of cycles) as [| | |s m e]; try done.
  destruct (f32_div_spec _ s m e Hm (f32_finite_number _ (f32_below_finite _ _ Hbm))) as (? & _ & Hf).
  split; [done|]. by apply (Hf (22 + 65 + 1) 1).
Qed.

(** The gradient is a number: the divisor is not zero. *)
Lemma gradient_number d x :
  f32_ok d → f32_number d → within (-128 * one) (128 * one) x → sval x ≠ 0 →
  let g := f32_div (f32_mul (f32_of 2) d) x in f32_ok g ∧ f32_number g.
Proof.
  intros Ho Hn [_ Hf _] Hz. destruct x as [| | |s m e]; try done. cbn zeta.
  set (p := f32_mul (f32_of 2) d).
  assert (f32_ok p ∧ f32_number p) as [Hpo Hpn].
  { subst p. destruct d as [s'|s'| |s' m' e']; try done; [by destruct s'..|]. split.
    - apply f32_mul_ok; [vm_compute; intuition discriminate|done|done|done].
    - apply f32_mul_number; [done|eauto]. }
  by destruct (f32_div_spec p s m e Hpo Hpn) as (? & ? & _).
Qed.

Lemma xloop_inv cfg c recvd n rdtsc :
  in_width 64 (xloop_factor cfg) → x_inv c → x_inv (xloop cfg c recvd n rdtsc).
Proof.
  intros Hfac [Hp Hl Hd Hro Hrf]. unfold xloop. case_match eqn:Hdue; [|by split].
  unfold loop_due in Hdue. rewrite !andb_true_iff, !bool_decide_eq_true in Hdue.
  destruct Hdue as [[[Hnz Hlong] _] _].
  set (cycles := rdtsc -u64 xloop_last_rdtsc c) in *. set (got := recvd -u64 xloop_last_recvd c).
  assert (0 < cycles) as Hcyc.
  { unfold in_width in Hfac. pose proof (Z.div_pos 2400000000 (xloop_factor cfg)). lia. }
  destruct (loop_rate_finite got cycles) as [Hgo Hgf]; [by apply wrap_range..|done|].
  pose proof (f32_sub_near _ _ Hgo Hro Hgf Hrf) as [Hso Hsn _ _].
  assert (one = 2 ^ 17 * 2 ^ 132) as Hone by done. assert (0 < 2 ^ 132) as He by done.
  pose proof Hp as [Hpo Hpf Hpr]. pose proof Hl as [Hlo Hlf Hlr].
  pose proof (near_within _ _ (f32_sub_near _ _ Hpo Hlo Hpf Hlf) ltac:(lia)) as [Hdo Hdf Hdr].
  destruct (gradient_number (f32_sub (loop_rate got cycles) (xloop_last_rate c))
              (f32_sub (ext_p c) (xloop_last_X c))) as [Hg Hgn]; [done|done| | |].
  { split; [done|done|lia]. }
  { set (e := 2 ^ 132) in *. rewrite Hone in *. lia. }
  destruct (step_stays_percentage _ _ Hp (clipped_is_step _ Hg Hgn)) as [H1 H2].
  split; cbn; done.
Qed.

(** ** The R-loop *)

(** What the R-loop adds is finite. *)
Lemma out_delta_finite slo kth :
  in_width 64 slo → in_width 64 kth →
  let d := f32_mul f32_3e_6 (f32_sub (f32_of slo) (f32_of kth)) in f32_ok d ∧ f32_finite d.
Proof.
  intros Hs Hk. cbn zeta. assert (f32_ok f32_3e_6 ∧ f32_below (-18) f32_3e_6) as [Hco Hcb]
    by (vm_compute; intuition discriminate).
  destruct (f32_of_spec slo Hs) as (Hso & Hsb & _), (f32_of_spec kth Hk) as (Hko & Hkb & _).
  pose proof (f32_below_sval 65 _ Hso ltac:(lia) Hsb) as Hsv.
  pose proof (f32_below_sval 65 _ Hko ltac:(lia) Hkb) as Hkv.
  destruct (f32_sub_near _ _ Hso Hko) as [Ho _ Hf He]; [by eapply f32_below_finite..|].
  specialize (He 66 ltac:(lia)). change (65 + 149) with 214 in *. change (66 + 149) with 215 in *.
  change (66 + 125) with 191 in *. change (127 + 149) with 276 in *.
  assert (Z.abs (sval (f32_of slo) - sval (f32_of kth)) < 2 ^ 215) as Hv
    by (change (2 ^ 215) with (2 * 2 ^ 214); lia).
  assert (2 ^ 215 < 2 ^ 276 ∧ 2 ^ 215 + 2 ^ 191 < 2 ^ 216) as [? ?] by done.
  specialize (He Hv).
  destruct (f32_mul_spec f32_3e_6 (f32_sub (f32_of slo) (f32_of kth)) (-18) 67) as [Hm Hb];
    [done|done|done| |lia|split; [done|by eapply f32_below_finite]].
  apply sval_f32_below; [done|apply Hf; lia|lia|]. change (67 + 149) with 216. lia.
Qed.

Lemma f32_half_eq : f32_half = S754_finite false 8388608 (-24).
Proof. by vm_compute. Qed.

(** What the window may be: at least two requests, perhaps infinite. *)
Record open_window (x : f32) : Prop := {
  ow_ok : f32_ok x;
  ow_number : f32_number x;
  ow_positive : x ≠ S754_infinity true;
  ow_two : f32_finite x → 2 * one ≤ sval x;
}.

Lemma two_within : within (2 * one) (2 * one) (f32_of 2).
Proof. literal. Qed.

(** A number that is more than 2, or not less, is at least 2. *)
Lemma open_window_gt x :
  f32_ok x → f32_number x → f32_gt x (f32_of 2) = true → open_window x.
Proof.
  intros Ho Hn Hgt. split; [done|done|intros E; subst x; by vm_compute in Hgt|]. intros Hf.
  rewrite f32_gt_sval in Hgt; [|done|apply two_within|done|apply two_within].
  rewrite bool_decide_eq_true in Hgt. pose proof (wi_range _ _ _ two_within). lia.
Qed.

Lemma open_window_ge x :
  f32_ok x → f32_number x → x ≠ S754_infinity true → f32_lt x (f32_of 2) = false → open_window x.
Proof.
  intros Ho Hn Hi Hlt. split; [done..|]. intros Hf.
  rewrite f32_lt_sval in Hlt; [|done|apply two_within|done|apply two_within].
  rewrite bool_decide_eq_false in Hlt. pose proof (wi_range _ _ _ two_within). lia.
Qed.

Lemma open_window_positive x :
  open_window x → x = S754_infinity false ∨ ∃ m e, x = S754_finite false m e.
Proof.
  assert (0 < one) as H1 by done.
  intros [Ho Hn Hp Hv]. destruct x as [s|[]| |[] m e]; [|done|by left|done| |by eauto].
  - specialize (Hv I). cbn in Hv. lia.
  - specialize (Hv I). cbn [sval cond_Zopp] in Hv. cbn in Ho.
    assert (0 < 2 ^ (e + 149)) by (apply Z.pow_pos_nonneg; lia). lia.
Qed.

Lemma window_halved x :
  open_window x →
  f32_ok (f32_mul x f32_half) ∧ f32_number (f32_mul x f32_half) ∧
  f32_mul x f32_half ≠ S754_infinity true.
Proof.
  rewrite f32_half_eq. assert (f32_ok (S754_finite false 8388608 (-24))) as Hh by (cbn; lia).
  intros Hx. destruct (open_window_positive x Hx) as [->|(m & e & ->)]; [done|].
  destruct Hx as [Ho Hn _ _]. split_and!.
  - by apply f32_mul_ok.
  - apply f32_mul_number; eauto.
  - by apply f32_mul_positive.
Qed.

Lemma window_moved x d :
  open_window x → f32_ok d → f32_finite d →
  f32_ok (f32_add x d) ∧ f32_number (f32_add x d).
Proof.
  intros Hx Hdo Hdf. destruct (open_window_positive x Hx) as [->|(m & e & ->)]; [by destruct d|].
  destruct Hx as [Ho _ _ _]. by destruct (f32_add_near (S754_finite false m e) d) as [? ? _ _].
Qed.

Lemma next_max_out_open x slo kth :
  open_window x → in_width 64 slo → in_width 64 kth → open_window (next_max_out x slo kth).
Proof.
  intros Hx Hs Hk. unfold next_max_out.
  destruct (out_delta_finite slo kth Hs Hk) as [Hdo Hdf].
  revert Hdo Hdf. generalize (f32_mul f32_3e_6 (f32_sub (f32_of slo) (f32_of kth))). intros d Hdo Hdf.
  destruct (window_moved x d Hx Hdo Hdf) as [Hao Han].
  destruct (window_halved x Hx) as (Hho & Hhn & Hhi).
  destruct (f32_gt _ _) eqn:Eg; [by apply open_window_gt|].
  destruct (f32_lt _ _) eqn:El; [|by apply open_window_ge].
  destruct two_within as [? ? H2]. split; [done|by apply f32_finite_number|by vm_compute|lia].
Qed.

(** The state of the R-loop. *)
Record r_inv (c : Controller) : Prop := {
  ri_open : open_window (max_out c);
  ri_kth : in_width 64 (kth c);
}.

Lemma r_inv_open c : r_inv c → 2 ≤ f32_to 64 (max_out c).
Proof.
  intros [Hw _]. destruct (open_window_positive _ Hw) as [->|(m & e & E)]; [done|].
  destruct Hw as [Ho _ _ Hv]. rewrite E in *. apply f32_to_ge; [done|done|lia|by apply Hv].
Qed.

Lemma rloop_inv cfg c recvd n rdtsc :
  in_width 64 (slo cfg) → r_inv c → r_inv (rloop cfg c recvd n rdtsc).
Proof.
  intros Hs [Ho Hk]. unfold rloop. case_match; [|by split].
  split; [by apply next_max_out_open|done].
Qed.

(** ** The whole client *)

Lemma f32_to_range w x : 0 ≤ w → in_width w (f32_to w x).
Proof.
  intros Hw. assert (0 < 2 ^ w) by (apply Z.pow_pos_nonneg; lia). unfold in_width.
  destruct x as [s|[]| |[] m e]; cbn [f32_to]; try lia.
  assert (0 ≤ Z.shiftl (Zpos m) e) by (apply Z.shiftl_nonneg; lia). lia.
Qed.

(** The turns that fill a window of [limit], unless the queue is as long. *)
Definition room_below (limit queue out : Z) : nat :=
  if decide (queue < limit) then Z.to_nat (limit - out) else 0.

Lemma room_below_guard limit queue out :
  bool_decide (out < limit) && bool_decide (queue < limit) =
    bool_decide (room_below limit queue out ≠ 0%nat).
Proof.
  unfold room_below. rewrite <- bool_decide_and. apply bool_decide_ext. case_decide; lia.
Qed.

Lemma room_below_step limit queue out :
  in_width 64 limit → in_width 64 out → room_below limit queue out ≠ 0%nat →
  room_below limit queue out = S (room_below limit queue (out +u64 1)).
Proof.
  unfold room_below, in_width. intros Hl Ho Hr. case_decide; [|done].
  rewrite wadd_id by (unfold in_width; lia). lia.
Qed.

Section client.
Context `{Network} `{Loader} `{Workloads} {G : Type}.
Context (ext_gen : Extension → ProxyDB → G) (resume : Link → ProxyDB → G → ClientStep Link G).
Implicit Types (k : @PushbackRecvSend _ _ _ G) (s : @Station _ _ _ G).

(** [n] turns of the sending loop, without its guard. *)
Definition send_turns (n : nat) k : outcome PushbackRecvSend := ofold (λ k _, send_one k) k (seq 0 n).

(** What a turn leaves alone, and what it counts. *)
Record sent_more (k k' : @PushbackRecvSend _ _ _ G) (n : Z) : Prop := {
  sm_conf : conf k' = conf k;
  sm_control : control k' = control k;
  sm_ready : tm_ready (manager (station k')) = tm_ready (manager (station k));
  sm_outstanding : outstanding (counts k') = outstanding (counts k) +u64 n;
  sm_sent : sent (counts k') = sent (counts k) +u64 n;
  sm_latencies : latencies (counts k') = latencies (counts k);
}.

Lemma create_task_ready (m m' : @TaskManager _ G) id req tenant nl :
  create_task m id req tenant nl = Ret m' → tm_ready m' = tm_ready m.
Proof. unfold create_task. intros ?. inv_outcome. repeat case_match; inv_outcome; by repeat case_match. Qed.

Lemma send_one_counts k k' : send_one k = Ret k' → sent_more k k' 1.
Proof.
  unfold send_one. destruct (rdtsc _) as [t net]. destruct (gen_u32 _) as [r rng].
  destruct (abc _) as [[y op]| |]; cbn [mbind outcome_bind]; [|done..].
  set (s := mkStation _ _ _ _ _ _). intros Hr.
  assert (∃ s', tm_ready (manager s') = tm_ready (manager s) ∧
            k' = mkRecvSend (conf k) s' (mkCounts (recvd (counts k)) (aborted (counts k))
              (sent (counts k) +u64 1) (outstanding (counts k) +u64 1) (latencies (counts k))
              (finished (counts k)) (stop (counts k))) (control k)) as (s' & Hs & ->).
  { destruct (bool_decide _); inv_outcome; eexists; (split; [|done]).
    - unfold send_native in E. inv_outcome. done.
    - unfold send_invocation in E. destruct op; inv_outcome; cbn; by eapply create_task_ready. }
  by split.
Qed.

Lemma wadd_assoc w a b c : 0 ≤ w → wadd w (wadd w a b) c = wadd w a (b + c).
Proof. intros. unfold wadd, wrap. by rewrite Zplus_mod_idemp_l, Z.add_assoc. Qed.

Lemma send_turns_counts n k k' :
  in_width 64 (outstanding (counts k)) → in_width 64 (sent (counts k)) →
  send_turns n k = Ret k' → sent_more k k' (Z.of_nat n).
Proof.
  unfold send_turns. generalize 0%nat. revert k.
  induction n as [|n IH]; intros k i Ho Hs; cbn [seq ofold].
  - intros [= <-]. split; try done; by rewrite wadd_id; rewrite Z.add_0_r.
  - destruct (send_one k) as [k1| |] eqn:E; cbn [mbind outcome_bind]; [|done..]. intros Hk.
    apply send_one_counts in E as [Hc1 Hl1 Hr1 Ho1 Hs1 Ht1].
    apply IH in Hk as [Hc2 Hl2 Hr2 Ho2 Hs2 Ht2].
    + split; try congruence.
      * rewrite Ho2, Ho1, wadd_assoc by lia. f_equal. lia.
      * rewrite Hs2, Hs1, wadd_assoc by lia. f_equal. lia.
    + rewrite Ho1. by apply wrap_range.
    + rewrite Hs1. by apply wrap_range.
Qed.

(** The turns the loop takes. *)
Definition window_room k : nat :=
  room_below (f32_to 64 (max_out (control k))) (get_queue_len (manager (station k)))
    (outstanding (counts k)).

Lemma send_loop_turns fuel k :
  in_width 64 (outstanding (counts k)) → (send_fuel k ≤ fuel)%nat →
  send_loop fuel k = send_turns (window_room k) k.
Proof.
  intros Ho Hf. unfold send_loop, send_turns.
  apply (while_loop_turns may_send send_one (λ k, in_width 64 (outstanding (counts k)))).
  - intros. apply room_below_guard.
  - intros k1 k2 Ho1 Hr E. apply send_one_counts in E as [_ Hl Hr2 Ho2 _ _].
    unfold window_room, get_queue_len in *. rewrite Hl, Hr2, Ho2. split; [by apply wrap_range|].
    apply room_below_step; auto. apply f32_to_range. lia.
  - done.
  - unfold send_fuel, window_room, room_below in *. case_decide; lia.
Qed.

(** the sending loop of the client ends and fills its window.  With any
    fuel from [send_fuel] on it takes exactly the turns that are missing to the
    limit [max_out] of the R-loop, none when the queue of pushed-back tasks has
    reached that limit; then its guard fails, it has sent and counted as
    outstanding one request per turn, and it has left the controllers alone. *)
Theorem send_fills_window k :
  in_width 64 (outstanding (counts k)) → in_width 64 (sent (counts k)) →
  sent (counts k) < requests (conf k) →
  (∀ fuel, (send_fuel k ≤ fuel)%nat → send_loop fuel k = send_turns (window_room k) k) ∧
  send k = send_turns (window_room k) k ∧
  ∀ k', send k = Ret k' →
    may_send k' = false ∧ control k' = control k ∧
    outstanding (counts k') = outstanding (counts k) + Z.of_nat (window_room k) ∧
    sent (counts k') = sent (counts k) +u64 Z.of_nat (window_room k).
Proof.
  intros Ho Hs Hreq.
  assert (send k = send_turns (window_room k) k) as Hsend.
  { unfold send. rewrite decide_False by lia. by apply send_loop_turns. }
  split_and!; [intros; by apply send_loop_turns|done|]. intros k' Hk'. rewrite Hsend in Hk'.
  apply send_turns_counts in Hk' as [Hc Hl Hr Ho' Hs' _]; [|done..].
  assert (outstanding (counts k') = outstanding (counts k) + Z.of_nat (window_room k)) as Hout.
  { rewrite Ho'. apply wadd_id. pose proof (f32_to_range 64 (max_out (control k))).
    unfold window_room, room_below, in_width in *. case_decide; lia. }
  split_and!; [|done..]. unfold may_send, get_queue_len. rewrite Hl, Hr, Hout.
  apply andb_false_iff. rewrite !bool_decide_eq_false. unfold window_room, room_below, get_queue_len.
  case_decide; lia.
Qed.

(** *** What a run preserves *)

(** An invariant [Q] of the controllers under configuration [cfg], for tail
    latencies in [K]. *)
Record loop_invariant (cfg : LoopConfig) (Q : Controller → Prop) : Prop := {
  li_kth c lats : Q c → len lats = 100 → Forall (in_width 64) lats →
    Q (mkController (ext_p c) (max_out c) (kth_smallest lats 98) (rloop_last_recvd c)
         (rloop_last_rdtsc c) (xloop_last_recvd c) (xloop_last_rdtsc c) (xloop_last_rate c)
         (xloop_last_X c));
  li_rloop c got n t : Q c → Q (rloop cfg c got n t);
  li_xloop c got n t : Q c → Q (xloop cfg c got n t);
}.

Section invariant.
Context (cfg : LoopConfig) (Q : Controller → Prop) (HQ : loop_invariant cfg Q).

(** The client between two calls. *)
Record steady k : Prop := {
  st_loops : loops (conf k) = cfg;
  st_latencies : Forall (in_width 64) (latencies (counts k));
  st_control : Q (control k);
}.

Lemma measure_kth_inv c lats c' :
  Q c → Forall (in_width 64) lats → measure_kth c lats = Ret c' → Q c'.
Proof.
  intros Hc Hl Hm. unfold measure_kth in Hm. case_decide; [|by simplify_eq].
  destruct (slice lats (len lats - 100) (len lats)) as [l| |] eqn:Hs;
    cbn [mbind outcome_bind] in Hm; [|done..]. simplify_eq.
  unfold slice in Hs. case_decide; [|done]. injection Hs as <-. apply (li_kth _ _ HQ); [done|..].
  - unfold len in *. rewrite length_take, length_drop. lia.
  - by apply Forall_take, Forall_drop.
Qed.

Lemma run_loops_inv c n net c' net' :
  Q c → Forall (in_width 64) (latencies n) → run_loops cfg c n net = Ret (c', net') → Q c'.
Proof.
  intros Hc Hl. unfold run_loops.
  destruct (measure_kth c (latencies n)) as [c1| |] eqn:Hm; cbn [mbind outcome_bind]; [|done..].
  apply measure_kth_inv in Hm; [|done..].
  destruct (rdtsc net) as [t1 net1]. destruct (rdtsc net1) as [t2 net2]. intros [= <- <-].
  by apply (li_xloop _ _ HQ), (li_rloop _ _ HQ).
Qed.

(** What receiving does to the latencies. *)
Definition latencies_kept (n n' : Counts) : Prop :=
  Forall (in_width 64) (latencies n) → Forall (in_width 64) (latencies n').

Lemma count_recvd_kept n a b : latencies_kept n (count_recvd n (a -u64 b)).
Proof.
  intros Hl. cbn. apply Forall_app. split; [done|]. constructor; [by apply wrap_range|done].
Qed.

Lemma recv_commit_kept c s n p t s' n' sig :
  recv_commit c s n p t = Ret (s', n', sig) → latencies_kept n n'.
Proof.
  unfold recv_commit. intros. inv_outcome. repeat case_decide; simplify_eq/=;
    first [by apply count_recvd_kept|by intros ?].
Qed.

Lemma recv_invoke_kept c s n p t s' n' sig :
  recv_invoke c s n p t = Ret (s', n', sig) → latencies_kept n n'.
Proof.
  unfold recv_invoke. intros. inv_outcome. repeat case_decide; inv_outcome; simplify_eq/=;
    first [by apply count_recvd_kept|by intros ?].
Qed.

Lemma recv_get_kept c s n p s' n' sig :
  recv_get c s n p = Ret (s', n', sig) → latencies_kept n n'.
Proof. unfold recv_get. intros. inv_outcome. by intros ?. Qed.

Lemma recv_multiget_kept c s n p s' n' sig :
  recv_multiget c s n p = Ret (s', n', sig) → latencies_kept n n'.
Proof. unfold recv_multiget. intros. inv_outcome. by intros ?. Qed.

Lemma recv_packet_steady t k sig p k' sig' :
  steady k → recv_packet t (k, sig) p = Ret (k', sig') → steady k'.
Proof.
  intros [Hc Hl Hq]. unfold recv_packet.
  destruct (parse_rpc_opcode p) as [op| |]; cbn [mbind outcome_bind]; [|done..]. intros Hr.
  destruct (decide (op = SandstormCommitRpc)) as [->|Hop].
  { destruct (recv_commit _ _ _ _ _) as [[[s n] g]| |] eqn:E; cbn [mbind outcome_bind] in Hr; [|done..].
    simplify_eq. split; [done| |done]. cbn. by eapply recv_commit_kept. }
  assert (∃ s n g, latencies_kept (counts k) n ∧
    (if (sig || g) : bool then
       '(ctl, net) ← run_loops (loops (conf k)) (control k) n (link s).2;
       Ret (mkRecvSend (conf k) (with_link s ((link s).1, net)) n ctl, false)
     else Ret (mkRecvSend (conf k) s n (control k), false)) = Ret (k', sig'))
    as (s & n & g & Hk & Hr').
  { destruct op; try done.
    all: match type of Hr with (?m ≫= _) = _ => destruct m as [[[s n] g]| |] eqn:E end;
      cbn [mbind outcome_bind] in Hr; [|done..]; exists s, n, g; (split; [|exact Hr]).
    all: first [by eapply recv_invoke_kept|by eapply recv_get_kept|by eapply recv_multiget_kept|idtac].
    all: inv_outcome; by intros ?. }
  rewrite Hc in Hr'. destruct (sig || g); [|by simplify_eq; split; [|apply Hk|]].
  destruct (run_loops cfg (control k) n (link s).2) as [[c net]| |] eqn:E;
    cbn [mbind outcome_bind] in Hr'; [|done..]. simplify_eq.
  split; [done|by apply Hk|]. cbn. eapply run_loops_inv; [done| |done]. by apply Hk.
Qed.

Lemma recv_steady k k' : steady k → recv k = Ret k' → steady k'.
Proof.
  intros Hk. unfold recv. case_decide; [by intros [= <-]|].
  destruct (recv_res _ _) as [[[rc net] pk]| |]; cbn [mbind outcome_bind]; [|done..].
  match goal with |- (?m ≫= ?f) = _ → _ => assert (∀ k1, m = Ret k1 → steady k1) as Hm; [|
    destruct m as [k1| |]; cbn [mbind outcome_bind]; [|done..]; specialize (Hm k1 eq_refl)] end.
  - intros k1. destruct pk as [pk|]; [|intros [= <-]; by destruct Hk].
    destruct (rdtsc net) as [t net'] eqn:Et. cbn [link snd fst]. rewrite Et.
    match goal with |- (ofold ?f (?k0, false) ?l ≫= _) = _ → _ => assert (steady k0) as Hk0;
      [by destruct Hk|destruct (ofold f (k0, false) l) as [[k2 g]| |] eqn:E] end;
      cbn [mbind outcome_bind]; [|done..].
    intros [= <-]. refine (ofold_inv (λ st, steady st.1) _ _ _ _ _ _ E); [|done].
    intros [a b] p [a' b'] Ha Hp. by eapply recv_packet_steady.
  - case_decide; [|by intros [= <-]]. destruct (rdtsc _). intros [= <-]. by destruct Hm.
Qed.

Lemma send_steady k k' : steady k → send k = Ret k' → steady k'.
Proof.
  intros Hk. unfold send. case_decide; [by intros [= <-]|]. apply while_loop_inv; [|done].
  intros k1 k2 Hk1 E. apply send_one_counts in E as []. destruct Hk1. by split; congruence.
Qed.

Lemma execute_steady k k' : steady k → execute ext_gen resume k = Ret k' → steady k'.
Proof.
  intros Hk. unfold execute.
  destruct (send k) as [k1| |] eqn:E1; cbn [mbind outcome_bind]; [|done..].
  destruct (recv k1) as [k2| |] eqn:E2; cbn [mbind outcome_bind]; [|done..].
  assert (steady k2) as Hk2 by (by eapply recv_steady; [eapply send_steady|]).
  apply ofold_inv; [|done]. intros k3 _ k4 H3. unfold execute_one.
  destruct (rdtsc _) as [t net]. destruct (rdtsc net) as [t' net'].
  destruct (execute_task _ _ _ _ _ _) as [[[w m] r]| |]; cbn [mbind outcome_bind]; [|done..].
  intros [= <-]. by destruct H3.
Qed.

(** [n] times [execute]. *)
Definition rounds (n : nat) k : outcome PushbackRecvSend :=
  ofold (λ k _, execute ext_gen resume k) k (seq 0 n).

Lemma rounds_steady n k k' : steady k → rounds n k = Ret k' → steady k'.
Proof. intros. by eapply (ofold_inv steady); [|done..]; intros; eapply execute_steady. Qed.
End invariant.

(** The invariant of the X-loop. *)
Lemma x_inv_loop cfg : in_width 64 (xloop_factor cfg) → loop_invariant cfg x_inv.
Proof.
  intros Hf. split; [by intros c lats []| |intros; by apply xloop_inv].
  intros c got m t Hc. unfold rloop. case_match; by destruct Hc.
Qed.

Lemma x_inv_new p m t1 t2 :
  0 ≤ p ≤ 100 →
  x_inv (mkController (f32_of p) m 0 0 t2 0 t1 (f32_of 0) (f32_div (f32_of 101) (f32_of 2))).
Proof.
  intros Hp. assert (0 < unit_one) as Hone by done.
  assert (sval (f32_div (f32_of 101) (f32_of 2)) * 2 = 101 * unit_one) as Hhalf by by vm_compute.
  split; cbn -[f32_of f32_div unit_one]; [apply within_exact; nia| | |vm_compute; exact I..].
  - literal.
  - rewrite f32_of_exact by lia. revert Hhalf. generalize (sval (f32_div (f32_of 101) (f32_of 2))).
    generalize dependent unit_one. intros u Hu v Hv.
    assert (p * u ≤ 50 * u ∨ 51 * u ≤ p * u) as Hcase; [|lia].
    destruct (decide (p ≤ 50)); [left|right]; apply Z.mul_le_mono_nonneg_r; lia.
Qed.

(** The invariant of the R-loop.  [order_stat::kth] returns an element. *)
Lemma r_inv_loop cfg :
  (∀ l i, 0 ≤ i < len l → kth_smallest l i ∈ l) → in_width 64 (slo cfg) → loop_invariant cfg r_inv.
Proof.
  intros Hkth Hs. split; [|intros; by apply rloop_inv|].
  - intros c lats [Ho _] Hl Hw. split; [done|]. cbn. rewrite Forall_forall in Hw.
    apply Hw, Hkth. lia.
  - intros c got m t [Ho Hkw]. unfold xloop. case_match; by split.
Qed.

Lemma r_inv_new p m t1 t2 x :
  2 ≤ m < 2 ^ 24 → r_inv (mkController p (f32_of m) 0 0 t2 0 t1 (f32_of 0) x).
Proof.
  intros Hm. split; [|done]. cbn -[f32_of].
  destruct (f32_of_spec m) as (? & Hb & _); [unfold in_width; lia|].
  split; [done|by apply f32_finite_number, (f32_below_finite 65)| |].
  - intros E. by rewrite E in Hb.
  - intros _. rewrite f32_of_exact by lia. assert (0 < unit_one) by done. nia.
Qed.

(** *** The controllers over a run *)

Section runs.
Context (w : Link) (em : ExtensionManager) (y : YCSBT) (cfg : LoopConfig).
Context (resps reqs key_len value_len order invoke_p max_out : Z).
Abbreviation client := (PushbackRecvSend_new (G := G) w em y cfg resps reqs key_len value_len order
  invoke_p max_out).

Lemma new_steady (Q : Controller → Prop) :
  (∀ t1 t2, Q (mkController (f32_of invoke_p) (f32_of max_out) 0 0 t2 0 t1 (f32_of 0)
                 (f32_div (f32_of 101) (f32_of 2)))) → steady cfg Q client.
Proof.
  intros HQ. unfold PushbackRecvSend_new. destruct (rdtsc w.2) as [t0 net0].
  destruct (rdtsc net0) as [t1 net]. destruct (rdtsc net).
  split; [done|by constructor|apply HQ].
Qed.

(** C36: whatever the client measures, the share of invocations stays a
    percentage.  From an initial share between 0 and 100 on, and after any number of
    rounds, the bias of the coin is a finite
    number between 0 and 100, never a NaN, although the X-loop divides by the
    difference of two of its values: that difference is never less than a half. *)
Theorem share_stays_percentage n k :
  in_width 64 (xloop_factor cfg) → 0 ≤ invoke_p ≤ 100 →
  rounds n client = Ret k →
  f32_finite (ext_p (control k)) ∧ 0 ≤ sval (ext_p (control k)) ≤ 100 * unit_one ∧
  unit_one ≤ 2 * Z.abs (sval (ext_p (control k)) - sval (xloop_last_X (control k))).
Proof.
  intros Hf Hp Hk.
  apply (rounds_steady cfg x_inv (x_inv_loop cfg Hf)) in Hk as [_ _ [[_ ? ?] _ ? _ _]]; [done|].
  apply new_steady. intros. by apply x_inv_new.
Qed.

(** the window never closes: whatever latencies the client measures, the
    R-loop keeps a limit of at least two outstanding requests, and never a NaN
    (which would read as a limit of 0).  [order_stat::kth] returns an element. *)
Theorem window_never_closes n k :
  (∀ l i, 0 ≤ i < len l → kth_smallest l i ∈ l) →
  in_width 64 (slo cfg) → 2 ≤ max_out < 2 ^ 24 →
  rounds n client = Ret k →
  f32_number (Kayak.max_out (control k)) ∧ 2 ≤ f32_to 64 (Kayak.max_out (control k)).
Proof.
  intros Hkth Hs Hm Hk.
  apply (rounds_steady cfg r_inv (r_inv_loop cfg Hkth Hs)) in Hk as [_ _ Hr].
  - split; [apply (ow_number _ (ri_open _ Hr))|by apply r_inv_open].
  - apply new_steady. intros. by apply r_inv_new.
Qed.
End runs.
End client.

(** ** Shipping data and shipping compute *)

Definition read_rec (ver : Z) (k v : bytes) : RwRecord := mkRwRecord SandstormRead ver k v.

Lemma native_transfer_spec a b r1 r2 :
  native_transfer (a :: r1) (b :: r2) =
    Ret ((transfer_bytes a b).1 :: r1, (transfer_bytes a b).2 :: r2).
Proof.
  unfold native_transfer, transfer_bytes. rewrite !index_head. cbn [mbind outcome_bind].
  by do 2 (case_decide; rewrite ?set_index_head; [done|]).
Qed.

(** Cutting an encoded record after its type and version, then after its key. *)
Lemma encode_record_cut r :
  len (rec_key r) = 30 →
  ∃ h, split_at (encode_record r) 9 = Ret (h, rec_key r ++ rec_object r).
Proof.
  intros Hk. unfold encode_record.
  change (?x :: ?l) with ([x] ++ l). rewrite (assoc_L (++)). eexists. apply split_at_app.
  by rewrite len_app, len_le_bytes.
Qed.

(** The payload of the client's commit: the records it read, then its writes. *)
Lemma multiget_commit_payload_spec ver1 ver2 key1 key2 a b r1 r2 :
  record_wire 30 100 (read_rec ver1 key1 (a :: r1)) →
  record_wire 30 100 (read_rec ver2 key2 (b :: r2)) →
  let w1 := write_rec key1 ((transfer_bytes a b).1 :: r1) in
  let w2 := write_rec key2 ((transfer_bytes a b).2 :: r2) in
  let rs := [read_rec ver1 key1 (a :: r1); read_rec ver2 key2 (b :: r2); w1; w2] in
  multiget_commit_payload (encode_record (read_rec ver1 key1 (a :: r1)) ++
      encode_record (read_rec ver2 key2 (b :: r2))) = Ret (concat (encode_record <$> rs)) ∧
  Forall (record_wire 30 100) rs.
Proof.
  intros Hw1 Hw2 w1 w2 rs. pose proof Hw1 as [Hk1 Ho1 _ Hkb1 Hob1].
  pose proof Hw2 as [Hk2 Ho2 _ Hkb2 Hob2].
  cbn [rec_key rec_object read_rec] in *. apply Forall_cons in Hob1 as [Ha ?].
  apply Forall_cons in Hob2 as [Hb ?].
  pose proof (transfer_bytes_conserves a b Ha Hb) as Htr.
  split.
  - unfold multiget_commit_payload.
    rewrite split_at_app by (by rewrite (encode_record_len 30 100 _ Hw1)).
    cbn [mbind outcome_bind].
    destruct (encode_record_cut (read_rec ver1 key1 (a :: r1)) Hk1) as [h1 E1].
    destruct (encode_record_cut (read_rec ver2 key2 (b :: r2)) Hk2) as [h2 E2].
    rewrite E1. cbn [mbind outcome_bind rec_key rec_object read_rec].
    rewrite split_at_app by done. cbn [mbind outcome_bind].
    rewrite E2. cbn [mbind outcome_bind rec_key rec_object read_rec].
    rewrite split_at_app by done. cbn [mbind outcome_bind].
    rewrite native_transfer_spec. cbn [mbind outcome_bind]. f_equal.
    subst rs w1 w2. cbn [fmap list_fmap concat]. rewrite app_nil_r.
    assert (∀ k v, encode_record (write_rec k v) =
      [OpType_u8 SandstormWrite] ++ le_bytes 8 0 ++ k ++ v) as Hw by done.
    by rewrite !Hw, <- !(assoc_L (++)).
  - subst rs w1 w2. destruct (transfer_bytes a b) as [a' b']. destruct Htr as (_ & Ha' & Hb').
    constructor; [done|]. constructor; [done|].
    constructor; [|constructor; [|done]]; (split; cbn; [done|by unfold len in *; cbn in *|done|done|by constructor]).
Qed.

Lemma try_add_fits d sp data :
  len data ≤ sp → try_add (d, sp) data = (true, (d ++ data, sp - len data)).
Proof. intros. unfold try_add. by rewrite decide_True. Qed.

(** What a multiget of the server answers when two records are there and fit. *)
Lemma mget_two_records find key1 key2 e1 e2 v1 v2 space :
  find [] ≠ NoTenant → find [] ≠ NoTable →
  find key1 = FoundEntry e1 → entry_kv e1 = (key1, v1) →
  find key2 = FoundEntry e2 → entry_kv e2 = (key2, v2) →
  let records := encode_record (read_rec (entry_version e1) key1 v1) ++
                 encode_record (read_rec (entry_version e2) key2 v2) in
  len records ≤ space →
  mget_reply mget_add find [key1; key2] space = (StatusOk, (2, (records, space - len records))).
Proof.
  intros Hn1 Hn2 Hf1 He1 Hf2 He2 records Hsp.
  assert (∀ d sp ver k v, len (encode_record (read_rec ver k v)) ≤ sp →
    mget_add (d, sp) ver k v = (true, (d ++ encode_record (read_rec ver k v),
                                       sp - len (encode_record (read_rec ver k v))))) as Hadd.
  { intros d sp ver k v. unfold encode_record. change (?x :: ?l) with ([x] ++ l).
    cbn [rec_optype rec_version rec_key rec_object read_rec].
    rewrite !len_app, len_le_bytes. change (len [OpType_u8 SandstormRead]) with 1.
    pose proof (len_nonneg k). pose proof (len_nonneg v). intros Hl.
    unfold mget_add. assert (len OPTYPE_READ = 1) as Ho by done.
    do 4 (rewrite try_add_fits by (rewrite ?len_le_bytes, ?Ho; lia); cbn [fst snd]).
    rewrite <- !(assoc_L (++)), len_le_bytes, Ho. do 2 f_equal. lia. }
  unfold records in *. rewrite len_app in *.
  pose proof (len_nonneg (encode_record (read_rec (entry_version e1) key1 v1))).
  pose proof (len_nonneg (encode_record (read_rec (entry_version e2) key2 v2))).
  unfold mget_reply. destruct (find []) eqn:E0; try done; cbn [mget_records];
    rewrite Hf1, He1, (Hadd [] space) by lia; cbn [mget_records fst snd];
    rewrite Hf2, He2, Hadd by lia; cbn [mget_records fst snd length];
    rewrite decide_True by done; rewrite app_nil_l; do 3 f_equal; lia.
Qed.

Section equivalence.
Context `{BytesCrateLaws} (tsc : nat → Z).
#[local] Hint Extern 0 (DB ServerDB) => exact (server_db tsc) : typeclass_instances.

(** What an extension finds, a request finds. *)
Lemma holds_found (d : ServerDB) id t key ver v :
  store_wf (sv_store d) → tenant_of (sv_store d) id = Some (sv_tenant d) → key ≠ [] →
  sv_holds d t key ver v →
  ∃ e, store_find (sv_store d) id t key = FoundEntry e ∧ entry_kv e = (key, v) ∧
    entry_version e = ver ∧ in_width 64 ver ∧ is_bytes key ∧ is_bytes v.
Proof.
  intros Hs Htn Hk (l & tb & e & Hl & Ht & Hg & Hr & <-). exists e.
  destruct (sw_tables _ Hs _ _ _ _ Htn Hl) as (tb' & Ht' & Hwf & Hok). simplify_eq.
  rewrite table_get_view in Hg by done. injection Hg as Hg.
  unfold store_find, entry_kv. rewrite Htn, Hl. cbn. rewrite Ht, Hg, Hr.
  destruct (Hok _ _ Hg) as (v' & Hr' & ? & ?). simplify_eq.
  split_and!; try done; [exact (wf_version _ Hwf _ _ Hg)|congruence].
Qed.

(** C8: shipping data and shipping compute commit the same transaction.  Take a
    server and two records of it.  If the invocation of ycsbt runs there, it
    ends after its yields and leaves the reads and writes it recorded to
    [commit].  If instead the client gets both records with a multiget (whose
    reply is the one given), moves the amount itself and sends its commit
    request, the records that the server decodes from that request are the same
    reads, with the same versions, and the same writes. *)
Theorem shipping_data_is_shipping_compute (env : nat → ServerDB → ServerDB) (d : ServerDB) id tbl
    key1 key2 ver1 ver2 a b r1 r2 order optype space :
  store_wf (sv_store d) → tenant_of (sv_store d) id = Some (sv_tenant d) →
  ctx_tx (sv_ctx d) = TX_new → harmless env →
  len tbl = 8 → is_bytes tbl → len key1 = 30 → len key2 = 30 → len r1 = 99 → len r2 = 99 →
  in_width 32 order → optype ≠ 1 → optype ≠ 3 →
  ctx_args (sv_ctx d) = Ret (ycsbt_args key1 key2 tbl order optype) →
  sv_holds d (le_val tbl) key1 ver1 (a :: r1) → sv_holds d (le_val tbl) key2 ver2 (b :: r2) →
  sv_room d (le_val tbl) 2 → 278 ≤ space →
  ∃ d' records left payload,
    drive ext_ycsbt env (S (ycsbt_yields order)) 0 YcsbtInit d =
      (d', Ret (Some (ycsbt_yields order, 0))) ∧
    mget_reply mget_add (store_find (sv_store d) id (le_val tbl)) [key1; key2] space =
      (StatusOk, (2, (records, left))) ∧
    multiget_commit_payload records = Ret payload ∧
    (chs ← chunks payload (1 + 8 + 30 + 100); ofold (commit_record 30) TX_new chs) =
      Ret (ctx_tx (sv_ctx d')).
Proof.
  intros Hs Htn Htx Henv Htl Htb Hk1 Hk2 Hr1 Hr2 Ho H1 H3 Hargs Hh1 Hh2 Hroom Hsp.
  destruct (ycsbt_run env d tbl key1 key2 ver1 ver2 a b r1 r2 order optype) as (d' & Hd & Ht);
    [done..| |].
  { split; [done|split; [done|lia]|split; [done|lia]]. }
  destruct (holds_found d id (le_val tbl) key1 ver1 (a :: r1)) as (e1 & Hf1 & He1 & <- & Hv1 & Hkb1 & Hvb1);
    [done|done|by intros ->|done|].
  destruct (holds_found d id (le_val tbl) key2 ver2 (b :: r2)) as (e2 & Hf2 & He2 & <- & Hv2 & Hkb2 & Hvb2);
    [done|done|by intros ->|done|].
  assert (∀ x (r : bytes), len r = 99 → len (x :: r) = 100) as Hlen
    by (unfold len; cbn [length]; lia).
  assert (record_wire 30 100 (read_rec (entry_version e1) key1 (a :: r1))) as Hw1
    by (split; cbn; auto).
  assert (record_wire 30 100 (read_rec (entry_version e2) key2 (b :: r2))) as Hw2
    by (split; cbn; auto).
  destruct (multiget_commit_payload_spec _ _ _ _ _ _ _ _ Hw1 Hw2) as [Hp Hrs].
  assert (store_find (sv_store d) id (le_val tbl) [] ≠ NoTenant ∧
          store_find (sv_store d) id (le_val tbl) [] ≠ NoTable) as [Hn1 Hn2].
  { revert Hf1. unfold store_find. rewrite Htn. destruct (_ ≫= _) as [tb|]; [|done].
    intros _. by destruct (tview tb []). }
  eexists d', _, _, _. split; [exact Hd|]. split.
  { eapply mget_two_records; [done..|]. rewrite len_app.
    rewrite (encode_record_len _ _ _ Hw1), (encode_record_len _ _ _ Hw2). lia. }
  split; [exact Hp|]. rewrite (records_chunks _ _ _ Hrs) by lia. cbn [mbind outcome_bind].
  rewrite (commit_records_encode _ _ _ _ Hrs). f_equal. cbn in Ht. rewrite Ht, Htx. done.
Qed.
End equivalence.

(** ** A concrete bank *)

(** Tenant 7 with table 3 and two records, of 5 and 9. *)
Definition bank_put (t : Table) (key val : bytes) : Table :=
  (ret_or (Table_default, None) (table_put t key (obj_layout 7 3 key val))).1.

Definition bank_tbl : Table :=
  bank_put (bank_put Table_default (ex_key 1) (ex_value 5)) (ex_key 2) (ex_value 9).

Definition bank_store : Store :=
  ret_or Store_new
    (insert_tenant (mkStore [bank_tbl] (tenants Store_new))
       (create_table Store_new (Tenant_new 7) 3).2).

Lemma bank_put_ok t key val :
  table_ok t → key ≠ [] → len key < 2 ^ 16 → is_bytes key → is_bytes val →
  table_ok (bank_put t key val).
Proof.
  intros. destruct (table_put_ok t 7 3 key val) as (t' & r & He & Hok & _); [done..|].
  unfold bank_put. by rewrite He.
Qed.

Lemma bank_store_wf : store_wf bank_store.
Proof.
  assert (table_ok bank_tbl) as Hb.
  { repeat apply bank_put_ok; try apply default_ok; try discriminate;
      apply (bool_decide_eq_true_1 _); by vm_compute. }
  destruct (insert_fresh_wf Store_new 7 3 bank_tbl Store_new_wf Hb (Store_new_tenant 7))
    as (s' & He & Hs & _).
  unfold bank_store. change [bank_tbl] with (heap Store_new ++ [bank_tbl]). by rewrite He.
Qed.

(** The invocation of ycsbt, as the server's extension sees it. *)
Definition bank_request : ClientRequest :=
  CInvoke 7 5 (ycsbt_name ++ ycsbt_args (ex_key 1) (ex_key 2) (le_bytes 8 3) 700 2) 95.

Definition bank_ctx : Context :=
  Context_new
    (ret_or (create_packet ex_mbuf 0 0) (parse_header InvokeRequest (ex_req bank_request))) 5 73
    (response ex_ctx) (create_table Store_new (Tenant_new 7) 3).2.

Definition bank_db : ServerDB := mkServerDB bank_store bank_ctx 0.

Lemma bank_holds n v :
  (n = 1 ∧ v = 5) ∨ (n = 2 ∧ v = 9) → sv_holds bank_db 3 (ex_key n) 1 (ex_value v).
Proof.
  intros Hn. exists 0%nat, bank_tbl, (mkEntry 1 (obj_layout 7 3 (ex_key n) (ex_value v))).
  destruct Hn as [[-> ->]|[-> ->]]; (split; [done|]); (split; [done|]);
    (split; [by vm_compute|]); (split; [by vm_compute|done]).
Qed.

Lemma shipping_data_is_shipping_compute_witness :
  let b := exact_bytes in
  let db := @server_db b (λ _, 0) in
  ∃ d' records left payload,
    drive ext_ycsbt (λ _ d, d) (S (ycsbt_yields 700)) 0 YcsbtInit bank_db =
      (d', Ret (Some (ycsbt_yields 700, 0))) ∧
    mget_reply mget_add (store_find (sv_store bank_db) 7 (le_val (le_bytes 8 3)))
      [ex_key 1; ex_key 2] 1000 = (StatusOk, (2, (records, left))) ∧
    multiget_commit_payload records = Ret payload ∧
    (chs ← chunks payload (1 + 8 + 30 + 100); ofold (commit_record 30) TX_new chs) =
      Ret (ctx_tx (sv_ctx d')).
Proof.
  intros b db.
  apply (@shipping_data_is_shipping_compute exact_bytes exact_bytes_laws (λ _, 0) (λ _ d, d) bank_db 7
    (le_bytes 8 3) (ex_key 1) (ex_key 2) 1 1 5 9 (replicate 99 0) (replicate 99 0) 700 2 1000);
    try (unfold in_width; lia); try apply bank_store_wf; try apply le_bytes_is_bytes; try reflexivity.
  - intros i d. split; [done|by intros t n].
  - by apply (bank_holds 1 5); left.
  - by apply (bank_holds 2 9); right.
  - split; [eexists; reflexivity|]. change (allocs (sv_ctx bank_db)) with 0. unfold MAX_ALLOC. lia.
Defined.

(** ** A concrete client *)

(** A workload whose randomness counts, with the order statistic by sorting. *)
Definition test_workloads : Workloads := {|
  Rng := Z;
  gen_u32 r := (r, r + 1);
  Zipf := unit;
  zipf_sample z r := (r, z, r + 1);
  kth_smallest l i := default 0 (merge_sort Z.le l !! Z.to_nat i);
|}.

Lemma test_kth l i : 0 ≤ i < len l → @kth_smallest test_workloads l i ∈ l.
Proof.
  intros Hi. cbn. destruct (merge_sort Z.le l !! Z.to_nat i) as [x|] eqn:E.
  - apply list_elem_of_lookup_2 in E. by rewrite merge_sort_Permutation in E.
  - apply lookup_ge_None in E. rewrite (Permutation_length (merge_sort_Permutation Z.le l)) in E.
    unfold len in Hi. lia.
Qed.

Abbreviation test_client reqs :=
  (@PushbackRecvSend_new test_net any_loader test_workloads unit ex_link
     (@ExtensionManager_new any_loader) (@YCSBT_new test_workloads 30 50 0 tt tt)
     (mkLoopConfig 10000 100 10) 10 reqs 30 100 700 50 4).

Abbreviation test_rounds n reqs :=
  (@rounds test_net any_loader test_workloads unit (λ _ _, tt) waiting_resume n (test_client reqs)).

Definition returns {A} (m : outcome A) : bool := match m with Ret _ => true | _ => false end.

Lemma returns_ret {A} (d : A) m : returns m = true → m = Ret (ret_or d m).
Proof. by destruct m. Qed.

(** Two rounds in which the client waits. *)
Definition idle_client : @PushbackRecvSend test_net any_loader test_workloads unit :=
  ret_or (test_client 0) (test_rounds 2 0).

Lemma share_stays_percentage_witness :
  f32_finite (ext_p (control idle_client)) ∧ 0 ≤ sval (ext_p (control idle_client)) ≤ 100 * unit_one ∧
  unit_one ≤ 2 * Z.abs (sval (ext_p (control idle_client)) - sval (xloop_last_X (control idle_client))).
Proof.
  apply (@share_stays_percentage test_net any_loader test_workloads unit (λ _ _, tt) waiting_resume
    ex_link (@ExtensionManager_new any_loader) (@YCSBT_new test_workloads 30 50 0 tt tt)
    (mkLoopConfig 10000 100 10) 10 0 30 100 700 50 4 2); [by split|lia|].
  apply returns_ret. by vm_compute.
Defined.

Lemma window_never_closes_witness :
  f32_number (Kayak.max_out (control idle_client)) ∧ 2 ≤ f32_to 64 (Kayak.max_out (control idle_client)).
Proof.
  apply (@window_never_closes test_net any_loader test_workloads unit (λ _ _, tt) waiting_resume
    ex_link (@ExtensionManager_new any_loader) (@YCSBT_new test_workloads 30 50 0 tt tt)
    (mkLoopConfig 10000 100 10) 10 0 30 100 700 50 4 2); [apply test_kth|by split|lia|].
  apply returns_ret. by vm_compute.
Defined.

Lemma send_fills_window_witness :
  let k := test_client 8 in
  (∀ fuel, (send_fuel k ≤ fuel)%nat → send_loop fuel k = send_turns (window_room k) k) ∧
  send k = send_turns (window_room k) k ∧
  ∀ k', send k = Ret k' →
    may_send k' = false ∧ control k' = control k ∧
    outstanding (counts k') = outstanding (counts k) + Z.of_nat (window_room k) ∧
    sent (counts k') = sent (counts k) +u64 Z.of_nat (window_room k).
Proof. intros k. apply send_fills_window; [by split|by split|done]. Defined.

(** The client sends its four requests. *)
Example test_send : returns (send (test_client 8)) = true.
Proof. by vm_compute. Qed.
