(* ===== verification/Tao.v ===== *)
(** * Tao: a social graph stored through the database interface

    Models ext/tao/src/lib.rs: objects and associations of the TAO data model,
    kept in tables of the database, with the list of the associations of an
    object under one key.  A response handler is the call of [db_resp] that it
    makes; the seconds since the epoch are the argument [now].  [dispatch]
    never yields. *)

From stdpp Require Import strings.
From S2P Require Import Prelude Bits Packed Alloc Bufs Context Ext Task Dispatch DispatchSpecs.
From S2P Require Import Proxy Client DB Programs ExtSpecs.

(** ** Serialized data *)

(** [convert_from_slice]: the first eight bytes. *)
Definition convert_from_slice (val : bytes) : outcome Z :=
  v ← slice val 0 8; Ret (or_bytes 0 0 v).

(** The object type: two bytes. *)
Definition otype_of (val : bytes) : outcome Z :=
  v ← slice val 0 2; Ret (or_bytes 0 0 v).

Definition ObjectHeader_size : Z := 2.

Record Association := mkAssociation { as_id : Z; as_time : Z }.

#[export] Instance Association_eq_dec : EqDecision Association.
Proof. solve_decision. Defined.

Definition Association_size : Z := 16.

(** [read_u64().unwrap()] twice. *)
Definition Association_deserialize (b : bytes) : outcome Association :=
  '(id, b) ← split_at b 8;
  '(time, _) ← split_at b 8;
  Ret (mkAssociation (le_val id) (le_val time)).

(** ** Association lists *)

Abbreviation AssociationList := (list Association).

(** [association_at] *)
Definition association_at (l : AssociationList) (idx : Z) : outcome Association :=
  if decide (0 ≤ idx < len l) then expect (l !! Z.to_nat idx) else Panic.

Definition list_size (l : AssociationList) : Z := len l * Association_size.

(** The loop of [deserialize]; every turn takes 16 bytes. *)
Fixpoint list_deserialize_from (fuel : nat) (start : Z) (l : AssociationList) (b : bytes) :
    outcome AssociationList :=
  if decide (start < len b) then
    match fuel with
    | O => Undef
    | S fuel =>
        piece ← slice b start (start + Association_size);
        assoc ← Association_deserialize piece;
        list_deserialize_from fuel (start + Association_size) (l ++ [assoc]) b
    end
  else Ret l.

Definition list_deserialize (b : bytes) : outcome AssociationList :=
  list_deserialize_from (length b) 0 [] b.

(** The body of the shifting loops: [list[idx] = list[from]]. *)
Definition list_move (l : AssociationList) (idx from : Z) : outcome AssociationList :=
  a ← association_at l from; set_index l idx a.

(** [remove]: the loop stops at the first association of the identifier. *)
Definition list_remove (l : AssociationList) (id_2 : Z) : outcome AssociationList :=
  match list_find (λ a, as_id a = id_2) l with
  | Some (pos, _) =>
      let pos := Z.of_nat pos in
      ofold (λ l idx, list_move l idx (wsub 64 idx 1)) l (seqZ pos (len l - 1 - pos))
  | None => Ret l
  end.

(** [add]: the loop returns at the first association that is older. *)
Definition list_add (l : AssociationList) (a : Association) : outcome AssociationList :=
  let l := l ++ [a] in
  match list_find (λ b, as_time b < as_time a) l with
  | Some (pos, _) =>
      let pos := Z.of_nat pos in
      let first := wsub 64 (len l) 2 in
      l ← ofold (λ l idx, list_move l idx (idx + 1)) l (seqZ first (pos + 1 - first));
      set_index l pos a
  | None => Ret l
  end.

(** ** The client of the database *)

Record TAO := mkTAO { object_table_id : Z; association_table_id : Z; next_id : Z }.

Definition TAO_new (object_table_id association_table_id : Z) : TAO :=
  mkTAO object_table_id association_table_id 1.

Definition allocate_unique_id (t : TAO) : TAO * bytes :=
  let next := next_id t +u64 1 in
  (mkTAO (object_table_id t) (association_table_id t) next, le_bytes 8 next).

Section tao.
Context `{DB D}.

Definition Association_serialize (a : Association) (b : WriteBuf) : outcome WriteBuf :=
  b ← write_u64 b (as_id a) true; write_u64 b (as_time a) true.

Definition list_serialize (l : AssociationList) (b : WriteBuf) : outcome WriteBuf :=
  ofold (λ b a, Association_serialize a b) b l.

Definition object_update (t : TAO) (id : bytes) (otype : Z) (data : bytes) : ext_m D bool :=
  let space_needed := ObjectHeader_size + len data in
  container ← db_alloc (object_table_id t) id space_needed;
  match container with
  | None => mret false
  | Some container =>
      container ← lift (write_u16 container otype true);
      container ← lift (write_slice container data);
      db_put container
  end.

Definition object_add (t : TAO) (otype : Z) (data : bytes) : ext_m D bytes :=
  let (t, object_id) := allocate_unique_id t in
  _ ← object_update t object_id otype data;
  mret object_id.

Definition object_delete (t : TAO) (id : bytes) : ext_m D bool :=
  _ ← db_del (object_table_id t) id; mret true.

(** With [object_response_handler]; the last byte of the value is cut off. *)
Definition object_get (t : TAO) (id : bytes) : ext_m D bool :=
  obj ← db_get (object_table_id t) id;
  match obj with
  | Some data =>
      let data_slice := rb_read data in
      _ ← lift (slice data_slice 0 ObjectHeader_size);
      object ← lift (slice data_slice ObjectHeader_size (wsub 64 (len data_slice) 1));
      _ ← db_resp object;
      mret true
  | None => mret false
  end.

(** Write the list under its key. *)
Definition put_list (t : TAO) (list_key : bytes) (l : AssociationList) : ext_m D bool :=
  c ← db_alloc (association_table_id t) list_key (list_size l);
  match c with
  | None => mret false
  | Some c => c ← lift (list_serialize l c); db_put c
  end.

Definition association_add (now : Z) (t : TAO) (id1 association_type id2 : bytes) : ext_m D bool :=
  id ← lift (convert_from_slice id2);
  let new_assoc := mkAssociation id now in
  let assoc_key := id1 ++ association_type ++ id2 in
  c ← db_alloc (association_table_id t) assoc_key Association_size;
  match c with
  | None => mret false
  | Some c =>
      c ← lift (Association_serialize new_assoc c);
      ok ← db_put c;
      if ok : bool then
        let list_key := id1 ++ association_type in
        o ← db_get (association_table_id t) list_key;
        l ← lift (match o with Some ls => list_deserialize (rb_read ls) | None => Ret [] end);
        l ← lift (list_add l new_assoc);
        put_list t list_key l
      else mret false
  end.

Definition association_delete (t : TAO) (id1 association_type id2 : bytes) : ext_m D bool :=
  id ← lift (convert_from_slice id2);
  let list_key := id1 ++ association_type in
  o ← db_get (association_table_id t) list_key;
  match o with
  | None => mret false
  | Some ls =>
      l ← lift (list_deserialize (rb_read ls));
      l ← lift (list_remove l id);
      ok ← put_list t list_key l;
      if ok : bool then
        _ ← db_del (association_table_id t) (id1 ++ association_type ++ id2); mret true
      else mret false
  end.

(** The keys of the multiget, from the identifiers in the list. *)
Definition assoc_keys (id1 association_type id2 list : bytes) : outcome bytes :=
  let len_ := len id1 + len association_type in
  ofold (λ assoc_key i,
    let l := i * Association_size in
    id ← slice list l (l + 8);
    if decide (i = 0) then copy_from_slice assoc_key len_ (len_ + len id2) id
    else Ret (assoc_key ++ id1 ++ association_type ++ id))
    (id1 ++ association_type ++ id2) (seqZ 0 (len list / Association_size)).

Definition association_get (t : TAO) (id1 association_type id2 : bytes) : ext_m D bool :=
  let key_len := len id1 + len association_type + len id2 in
  o ← db_get (association_table_id t) (id1 ++ association_type);
  match o with
  | Some a_list =>
      keys ← lift (assoc_keys id1 association_type id2 (rb_read a_list));
      buf ← db_multiget (association_table_id t) (wrap 16 key_len) keys;
      match buf with
      | Some vals =>
          _ ← (if decide (mrb_num vals > 0) then v ← lift (mrb_read vals); db_resp v else mret tt);
          _ ← while_next (turns vals) (λ _ vals, v ← lift (mrb_read vals); db_resp v) tt vals;
          mret true
      | None => mret false
      end
  | None => mret false
  end.

(** ** Requests *)

(** An error message unless the operation succeeded. *)
Definition or_error (error : String.string) (op : ext_m D bool) : ext_m D unit :=
  ok ← op; if ok : bool then mret tt else db_resp (str error).

Definition obj_get_dispatch (ops : bytes) : ext_m D unit :=
  if decide (len ops ≠ 16) then db_resp (str "Invalid packet len.")
  else
    '(table, key) ← lift (split_at ops 8);
    table ← lift (convert_from_slice table);
    or_error "ERROR: could not get object." (object_get (TAO_new table 0) key).

Definition obj_add_dispatch (ops : bytes) : ext_m D unit :=
  if decide (len ops <= 10) then db_resp (str "Invalid packet len.")
  else
    '(table, type_value) ← lift (split_at ops 8);
    table ← lift (convert_from_slice table);
    '(otype, value) ← lift (split_at type_value 2);
    otype ← lift (otype_of otype);
    id ← object_add (TAO_new table 0) otype value;
    db_resp id.

Definition obj_update_dispatch (ops : bytes) : ext_m D unit :=
  if decide (len ops <= 18) then db_resp (str "Invalid packet len.")
  else
    '(table, rest) ← lift (split_at ops 8);
    table ← lift (convert_from_slice table);
    '(obj_id, rest2) ← lift (split_at rest 8);
    '(otype, value) ← lift (split_at rest2 2);
    otype ← lift (otype_of otype);
    or_error "ERROR: unsuccessful update" (object_update (TAO_new table 0) obj_id otype value).

Definition obj_delete_dispatch (ops : bytes) : ext_m D unit :=
  if decide (len ops ≠ 16) then db_resp (str "Invalid packet len.")
  else
    '(table, obj_id) ← lift (split_at ops 8);
    table ← lift (convert_from_slice table);
    or_error "ERROR: unable to delete object" (object_delete (TAO_new table 0) obj_id).

Inductive TaoOp :=
| ObjGet
| ObjAdd
| ObjUpdate
| ObjDelete
| AssocGet
| AssocAdd
| AssocDelete.

(** [TaoOp::from] panics on other bytes. *)
Definition TaoOp_from (original : Z) : outcome TaoOp :=
  match original with
  | 0 => Ret ObjGet
  | 1 => Ret ObjAdd
  | 2 => Ret ObjUpdate
  | 3 => Ret ObjDelete
  | 4 => Ret AssocGet
  | 5 => Ret AssocAdd
  | 6 => Ret AssocDelete
  | _ => Panic
  end.

Definition assoc_dispatch (now opcode : Z) (ops : bytes) : ext_m D unit :=
  if decide (len ops ≠ 26) then db_resp (str "Invalid packet len.")
  else
    '(table, rest) ← lift (split_at ops 8);
    table ← lift (convert_from_slice table);
    '(id1, rest2) ← lift (split_at rest 8);
    '(assoc_type, id2) ← lift (split_at rest2 2);
    let tao := TAO_new 0 table in
    op ← lift (TaoOp_from opcode);
    match op with
    | AssocGet => or_error "ERROR: could not get association." (association_get tao id1 assoc_type id2)
    | AssocAdd => or_error "ERROR: unsuccessful update" (association_add now tao id1 assoc_type id2)
    | AssocDelete =>
        or_error "ERROR: unable to delete the association" (association_delete tao id1 assoc_type id2)
    | _ => mret tt
    end.

Definition tao_dispatch (now : Z) : ext_m D Z :=
  args ← db_args;
  if decide (len args < 1) then _ ← db_resp (str "Invalid args"); mret 1
  else
    opcode ← lift (index args (len args - 1));
    op ← lift (TaoOp_from opcode);
    let first n := '(ops, _) ← lift (split_at args n); mret ops in
    _ ← match op with
        | ObjGet => ops ← first 16; obj_get_dispatch ops
        | ObjAdd => ops ← first 10; obj_add_dispatch ops
        | ObjUpdate => ops ← first 18; obj_update_dispatch ops
        | ObjDelete => ops ← first 16; obj_delete_dispatch ops
        | _ => ops ← first 26; assoc_dispatch now opcode ops
        end;
    mret 0.

Definition ext_tao (now : Z) (_ : unit) : ext_m D (gen_step unit) :=
  v ← tao_dispatch now; mret (GReturn v).
End tao.

(** * What the operations do *)

(** ** Serialization *)

Definition assoc_bytes (a : Association) : bytes := le_bytes 8 (as_id a) ++ le_bytes 8 (as_time a).

Definition list_bytes (l : AssociationList) : bytes := concat (assoc_bytes <$> l).

Definition assoc_ok (a : Association) : Prop := in_width 64 (as_id a) ∧ in_width 64 (as_time a).

Lemma len_assoc_bytes a : len (assoc_bytes a) = Association_size.
Proof. unfold assoc_bytes. by rewrite len_app, !len_le_bytes. Qed.

Lemma len_list_bytes l : len (list_bytes l) = list_size l.
Proof.
  unfold list_size, list_bytes. rewrite (len_concat _ Association_size).
  - rewrite length_fmap. unfold len. lia.
  - apply Forall_fmap, Forall_true. intros a. apply len_assoc_bytes.
Qed.

Lemma assoc_deserialize_bytes a : assoc_ok a → Association_deserialize (assoc_bytes a) = Ret a.
Proof.
  intros [Hi Ht]. unfold Association_deserialize, assoc_bytes.
  rewrite split_at_app by done. cbn [mbind outcome_bind].
  rewrite <- (app_nil_r (le_bytes 8 (as_time a))), split_at_app by done. cbn [mbind outcome_bind].
  rewrite !le_val_bytes. change (8 * Z.of_nat 8) with 64. rewrite !Z.mod_small by done. by destruct a.
Qed.

(** The loop, with [pre] already read. *)
Lemma list_deserialize_from_bytes fuel pre l acc :
  Forall assoc_ok l → (length l ≤ fuel)%nat →
  list_deserialize_from fuel (len pre) acc (pre ++ list_bytes l) = Ret (acc ++ l).
Proof.
  intros Hl. revert fuel pre acc. induction Hl as [|a l Ha _ IH]; intros fuel pre acc Hf.
  - unfold list_bytes. cbn [fmap list_fmap concat]. rewrite !app_nil_r.
    destruct fuel; cbn [list_deserialize_from]; by rewrite decide_False by lia.
  - destruct fuel as [|fuel]; [cbn in Hf; lia|]. cbn [list_deserialize_from].
    assert (list_bytes (a :: l) = assoc_bytes a ++ list_bytes l) as -> by done.
    pose proof (len_assoc_bytes a) as Hla. pose proof (len_nonneg (list_bytes l)).
    unfold Association_size in *. rewrite decide_True by (rewrite !len_app; lia).
    rewrite (slice_app pre (assoc_bytes a) (list_bytes l)) by lia. cbn [mbind outcome_bind].
    rewrite assoc_deserialize_bytes by done. cbn [mbind outcome_bind].
    rewrite (assoc_L (++) pre). replace (len pre + 16) with (len (pre ++ assoc_bytes a))
      by (rewrite len_app; lia).
    rewrite IH by (cbn in Hf; lia). by rewrite <- (assoc_L (++)).
Qed.

Section writes.
Context `{BytesCrateLaws}.

(** Writing to a buffer with room appends. *)
Lemma write_slice_fits b data :
  len (bm_data (wb_inner b)) + len data ≤ bm_capacity (wb_inner b) →
  ∃ b', write_slice b data = Ret b' ∧ bm_data (wb_inner b') = bm_data (wb_inner b) ++ data ∧
    bm_capacity (wb_inner b') = bm_capacity (wb_inner b).
Proof.
  intros Hl. unfold write_slice. destruct (put_slice_fits (wb_inner b) data Hl) as (b' & -> & Hd & Hc).
  by eexists.
Qed.

Lemma list_serialize_fits l b :
  len (bm_data (wb_inner b)) + list_size l ≤ bm_capacity (wb_inner b) →
  ∃ b', list_serialize l b = Ret b' ∧ bm_data (wb_inner b') = bm_data (wb_inner b) ++ list_bytes l.
Proof.
  revert b. induction l as [|a l IH]; intros b Hl.
  - exists b. by rewrite app_nil_r.
  - unfold list_size in *. change (len (a :: l)) with (Z.of_nat (S (length l))) in Hl.
    unfold len, Association_size in *. rewrite Nat2Z.inj_succ in Hl.
    unfold list_serialize. cbn [ofold]. unfold Association_serialize, write_u64.
    destruct (write_slice_fits b (le_bytes 8 (as_id a))) as (b1 & -> & Hd1 & Hc1);
      [rewrite len_le_bytes; unfold len; lia|].
    cbn [mbind outcome_bind].
    destruct (write_slice_fits b1 (le_bytes 8 (as_time a))) as (b2 & -> & Hd2 & Hc2).
    { rewrite Hd1, Hc1, len_app, !len_le_bytes. unfold len. lia. }
    cbn [mbind outcome_bind]. destruct (IH b2) as (b' & Hb' & Hd').
    { rewrite Hd2, Hc2, Hd1, Hc1, !length_app, !le_bytes_length. lia. }
    exists b'. split; [exact Hb'|]. rewrite Hd', Hd2, Hd1. unfold list_bytes.
    cbn [fmap list_fmap concat]. unfold assoc_bytes at 2. by rewrite <- !(assoc_L (++)).
Qed.

(** an association list survives its table: written into a buffer of the
    size that [size] asks for (behind the key and metadata that are already in
    the buffer), its bytes read back as the same list. *)
Theorem association_list_roundtrip l b :
  Forall assoc_ok l →
  len (bm_data (wb_inner b)) + list_size l ≤ bm_capacity (wb_inner b) →
  ∃ b', list_serialize l b = Ret b' ∧
    list_deserialize (drop (length (bm_data (wb_inner b))) (bm_data (wb_inner b'))) = Ret l.
Proof.
  intros Hl Hc. destruct (list_serialize_fits l b Hc) as (b' & Hb' & Hd). exists b'. split; [done|].
  rewrite Hd, drop_app_length. unfold list_deserialize.
  pose proof (len_list_bytes l) as Hlen. unfold list_size, len, Association_size in Hlen.
  apply (list_deserialize_from_bytes _ [] l []); [done|lia].
Qed.
End writes.

Lemma association_list_roundtrip_witness :
  let w := @WriteBuf_new exact_bytes 3 (@with_capacity exact_bytes 32) in
  ∃ b', list_serialize [mkAssociation 1 10; mkAssociation 2 20] w = Ret b' ∧
    list_deserialize (drop (length (bm_data (wb_inner w))) (bm_data (wb_inner b'))) =
      Ret [mkAssociation 1 10; mkAssociation 2 20].
Proof.
  apply (@association_list_roundtrip exact_bytes exact_bytes_laws).
  - repeat constructor; by cbn.
  - by vm_compute.
Defined.

(** ** add and remove *)

Lemma association_at_lookup l i a :
  l !! i = Some a → association_at l (Z.of_nat i) = Ret a.
Proof.
  intros Hl. pose proof (lookup_lt_Some _ _ _ Hl). unfold association_at, len.
  rewrite decide_True by lia. by rewrite Nat2Z.id, Hl.
Qed.

Lemma set_index_insert {A} (l : list A) i (a : A) :
  (i < length l)%nat → set_index l (Z.of_nat i) a = Ret (<[i := a]> l).
Proof. intros Hi. unfold set_index, len. rewrite decide_True by lia. by rewrite Nat2Z.id. Qed.

Lemma list_move_spec l i from a :
  l !! from = Some a → (i < length l)%nat →
  list_move l (Z.of_nat i) (Z.of_nat from) = Ret (<[i := a]> l).
Proof.
  intros Hl Hi. unfold list_move. rewrite (association_at_lookup _ _ a) by done.
  cbn [mbind outcome_bind]. by apply set_index_insert.
Qed.

Lemma seqZ_empty m n : n ≤ 0 → seqZ m n = [].
Proof. intros. by apply seqZ_nil. Qed.

(** The first association older than [a]. *)
Definition first_older (a : Association) (l : AssociationList) : option nat :=
  fst <$> list_find (λ b, as_time b < as_time a) l.

(** [add] loses an association.  When the list holds an association older
    than the new one, the first such is overwritten by the new one, which is
    also appended: the list has it twice and the old one is gone (the loop that
    should make room runs from the wrong end).  Only when no association is
    older is the new one appended and nothing lost. *)
Theorem association_add_overwrites l a :
  len l < 2 ^ 63 →
  list_add l a = Ret match first_older a l with
                     | Some pos => <[pos := a]> l ++ [a]
                     | None => l ++ [a]
                     end.
Proof.
  intros Hlen. unfold list_add, first_older.
  destruct (list_find (λ b, as_time b < as_time a) l) as [[pos b]|] eqn:Hf; cbn [fmap option_fmap option_map fst].
  - rewrite (list_find_app_l _ _ _ _ _ Hf).
    apply list_find_Some in Hf as (Hpos & _ & _). pose proof (lookup_lt_Some _ _ _ Hpos) as Hlt.
    assert (wsub 64 (len (l ++ [a])) 2 = len l - 1) as ->.
    { rewrite len_app. change (len [a]) with 1. unfold wsub, wrap. unfold len in *.
      rewrite Z.mod_small by lia. lia. }
    destruct (decide (pos = length l - 1)%nat) as [Hlast|Hmid].
    + replace (Z.of_nat pos + 1 - (len l - 1)) with 1 by (unfold len; lia).
      change (seqZ (len l - 1) 1) with [len l - 1]. cbn [ofold].
      replace (len l - 1 + 1) with (Z.of_nat (length l)) by (unfold len; lia).
      replace (len l - 1) with (Z.of_nat pos) by (unfold len; lia).
      rewrite (list_move_spec _ _ _ a);
        [|by apply list_lookup_middle|rewrite length_app; cbn; lia]. cbn [mbind outcome_bind].
      rewrite set_index_insert by (rewrite length_insert, length_app; cbn; lia).
      rewrite list_insert_insert_eq. by rewrite insert_app_l.
    + rewrite seqZ_empty by (unfold len; lia). cbn [ofold mbind outcome_bind].
      rewrite set_index_insert by (rewrite length_app; cbn; lia). by rewrite insert_app_l.
  - rewrite list_find_app_r by done. cbn. by rewrite decide_False by lia.
Qed.

(** A newer association replaces the head. *)
Example add_newer :
  list_add [mkAssociation 1 10; mkAssociation 2 5] (mkAssociation 3 20) =
    Ret [mkAssociation 3 20; mkAssociation 2 5; mkAssociation 3 20].
Proof. reflexivity. Qed.

Lemma association_add_overwrites_witness :
  list_add [mkAssociation 1 10; mkAssociation 2 5] (mkAssociation 3 20) =
    Ret (<[0%nat := mkAssociation 3 20]> [mkAssociation 1 10; mkAssociation 2 5] ++
         [mkAssociation 3 20]).
Proof.
  apply (association_add_overwrites [mkAssociation 1 10; mkAssociation 2 5] (mkAssociation 3 20)).
  by vm_compute.
Defined.

(** The moves of [remove] from position [pos > 0]: each copies its predecessor. *)
Lemma remove_moves n l pos b :
  (pos + n < length l)%nat → l !! pos = Some b → len l < 2 ^ 63 →
  ofold (λ l idx, list_move l idx (wsub 64 idx 1)) l (seqZ (Z.of_nat (S pos)) (Z.of_nat n)) =
    Ret (take (S pos) l ++ replicate n b ++ drop (S pos + n) l).
Proof.
  revert l pos. induction n as [|n IH]; intros l pos Hn Hb Hlen.
  - cbn. by rewrite Nat.add_0_r, take_drop.
  - rewrite seqZ_cons by lia. cbn [ofold]. rewrite wsub_id by (unfold in_width, len in *; lia).
    replace (Z.of_nat (S pos) - 1) with (Z.of_nat pos) by lia.
    rewrite (list_move_spec _ _ _ b) by (done || lia). cbn [mbind outcome_bind].
    replace (Z.succ (Z.of_nat (S pos))) with (Z.of_nat (S (S pos))) by lia.
    replace (Z.pred (Z.of_nat (S n))) with (Z.of_nat n) by lia.
    rewrite IH; [|rewrite length_insert; lia|by rewrite list_lookup_insert_eq by lia|
      unfold len in *; by rewrite length_insert].
    f_equal. rewrite (take_S_r _ _ b) by (by rewrite list_lookup_insert_eq by lia).
    rewrite take_insert_ge by lia. rewrite drop_insert_lt by lia.
    replace (S pos + S n)%nat with (S (S pos) + n)%nat by lia.
    rewrite <- (assoc_L (++)). done.
Qed.

(** [remove] removes nothing.  Nothing changes when the association is
    absent, the last or the only one; when it is the first of several the call
    panics, since the loop reads the element before the first; anywhere else
    every association from its place to the last but one becomes a copy of its
    predecessor.  The length is the same in every case. *)
Theorem association_remove_keeps_length l id_2 :
  len l < 2 ^ 63 →
  list_remove l id_2 =
    match list_find (λ a, as_id a = id_2) l with
    | None => Ret l
    | Some (pos, b) =>
        if decide (S pos = length l) then Ret l
        else match pos with
             | O => Panic
             | S prev =>
                 Ret (take pos l ++ replicate (length l - 1 - pos) (default b (l !! prev)) ++ drop (length l - 1) l)
             end
    end.
Proof.
  intros Hlen. unfold list_remove.
  destruct (list_find (λ a, as_id a = id_2) l) as [[pos b]|] eqn:Hf; [|done].
  apply list_find_Some in Hf as (Hpos & _ & _). pose proof (lookup_lt_Some _ _ _ Hpos) as Hlt.
  case_decide as Hlast; [by rewrite seqZ_empty by (unfold len; lia)|].
  destruct pos as [|prev].
  - rewrite seqZ_cons by (unfold len; lia). cbn [ofold].
    assert (list_move l (Z.of_nat 0) (wsub 64 (Z.of_nat 0) 1) = Panic) as ->; [|done].
    unfold list_move, association_at. change (wsub 64 (Z.of_nat 0) 1) with (2 ^ 64 - 1).
    by rewrite decide_False by lia.
  - destruct (lookup_lt_is_Some_2 l prev) as [c Hc]; [lia|].
    replace (len l - 1 - Z.of_nat (S prev)) with (Z.of_nat (length l - 1 - S prev)) by (unfold len; lia).
    rewrite (remove_moves _ _ _ c) by (done || lia).
    rewrite Hc. do 3 f_equal. f_equal. lia.
Qed.

Lemma association_remove_keeps_length_witness :
  list_remove [mkAssociation 1 10; mkAssociation 2 5; mkAssociation 3 2] 2 =
    Ret [mkAssociation 1 10; mkAssociation 1 10; mkAssociation 3 2].
Proof.
  apply (association_remove_keeps_length [mkAssociation 1 10; mkAssociation 2 5; mkAssociation 3 2] 2).
  by vm_compute.
Defined.

(** ** Requests *)

Section dispatch.
Context `{DB D}.

Lemma index_last (l : bytes) (x : Z) : index (l ++ [x]) (len (l ++ [x]) - 1) = Ret x.
Proof.
  unfold index. rewrite len_app. change (len [x]) with 1. pose proof (len_nonneg l).
  rewrite decide_True by lia. rewrite lookup_app_r by (unfold len; lia).
  replace (Z.to_nat _ - length l)%nat with 0%nat by (unfold len; lia). done.
Qed.

(** objects can be read and deleted, but never added or updated: the
    dispatcher cuts the arguments of these two operations to 10 and 18 bytes,
    and their handlers reject anything that is not longer.  Whatever the
    database, a well-formed request of either kind is answered with an error
    message and touches nothing else, and the extension still returns success. *)
Theorem object_writes_rejected now (d : D) args op :
  (op = 1 ∧ 10 ≤ len args) ∨ (op = 2 ∧ 18 ≤ len args) →
  db_args d = (d, Ret (args ++ [op])) →
  tao_dispatch now d = (db_resp (str "Invalid packet len.") ≫= λ _, mret 0) d.
Proof.
  intros Hop Hargs. unfold tao_dispatch. estep Hargs.
  assert (len (args ++ [op]) = len args + 1) as Hlen by by rewrite len_app.
  pose proof (len_nonneg args). rewrite decide_False by lia.
  pose proof (index_last args op) as Hi. lstep.
  assert (∀ n, 0 ≤ n ≤ len args →
    split_at (args ++ [op]) n = Ret (take (Z.to_nat n) args, drop (Z.to_nat n) args ++ [op])) as Hsplit.
  { intros n Hn. rewrite <- (take_drop (Z.to_nat n) args) at 1. rewrite <- (assoc_L (++)).
    apply split_at_app. unfold len in *. rewrite length_take. lia. }
  destruct Hop as [[-> Hl]|[-> Hl]]; lstep;
    [pose proof (Hsplit 10 ltac:(lia)) as Hs|pose proof (Hsplit 18 ltac:(lia)) as Hs].
  all: unfold mbind at 1 2 3, ext_bind, lift; rewrite Hs; cbn beta iota.
  - unfold mret, ext_ret, obj_add_dispatch. rewrite decide_True; [done|].
    unfold len in *. rewrite length_take. lia.
  - unfold mret, ext_ret, obj_update_dispatch. rewrite decide_True; [done|].
    unfold len in *. rewrite length_take. lia.
Qed.
End dispatch.

(** A request to add the object [1; 2; 3] of type 7 to table 5, on a client. *)
Definition ex_add_args : bytes := le_bytes 8 5 ++ le_bytes 2 7 ++ [1; 2; 3].

Lemma object_writes_rejected_witness :
  let b := exact_bytes in
  let db := @client_db b test_net (λ _, 0) in
  let d := @mkClientDB test_net ex_link (ProxyDB_new 7 95 (116 :: ex_add_args ++ [1]) 1) 0 in
  tao_dispatch 0 d = (db_resp (str "Invalid packet len.") ≫= λ _, mret 0) d.
Proof.
  intros b db d. apply (@object_writes_rejected b _ db 0 d ex_add_args 1).
  - left. split; [done|]. by vm_compute.
  - reflexivity.
Defined.
