(* ===== verification/Loaders.v ===== *)
(** * Loaders: the data sets and extensions a server starts with

    Models the workload loaders of db/src/master.rs ([fill_test] is in [Store]):
    they create a tenant with its tables, put laid-out objects and insert the
    tenant.  Byte buffers that a loop keeps and overwrites in part are written
    as the concatenation they hold.  The rows of the machine-learning data set,
    parsed and serialized by crates outside the repository, are the argument
    [rows]; training the model is left out. *)

From stdpp Require Import strings.
From S2P Require Import Prelude Packed Wire Alloc Tx Table Store Bufs Ext Context DB Programs.

(** ** Data *)

Section data.
Context `{BytesCrate}.

(** [self.heap.object(..).expect(..)] and [table.put]. *)
Definition put_object (tenant table : Z) (t : Table) (key val : bytes) : outcome Table :=
  obj ← object tenant table key val;
  '(t, _) ← table_put t obj.1 obj.2;
  Ret t.

(** [for i in 1..(num + 1)] *)
Definition one_to (num : Z) : list Z := seqZ 1 (wadd 32 num 1 - 1).

(** [x % num] of unsigned integers. *)
Definition urem (x num : Z) : outcome Z := if decide (num = 0) then Panic else Ret (x mod num).

(** The little-endian counter at the start of a buffer of [n] bytes. *)
Definition counter (n : nat) (i : Z) : bytes := le_bytes 4 i ++ replicate (n - 4) 0.

(** The body of a loader of one table. *)
Definition fill_table (s : Store) (tn : Tenant) (table_id : Z) (fill : Table → outcome Table) :
    outcome Store :=
  l ← expect (get_table tn table_id);
  t ← table_at s l;
  t ← fill t;
  Ret (with_table s l t).

Definition fill_single (s : Store) (tenant_id table_id : Z) (fill : Table → outcome Table) :
    outcome Store :=
  let (s, tn) := create_table s (Tenant_new tenant_id) table_id in
  s ← fill_table s tn table_id fill;
  insert_tenant s tn.

Definition fill_ycsb (s : Store) (tenant_id table_id num : Z) : outcome Store :=
  fill_single s tenant_id table_id (λ t,
    ofold (λ t i, put_object tenant_id table_id t (counter 30 i) (counter 100 255)) t (one_to num)).

(** *** TAO *)

Definition fill_tao_objects (tenant_id table_id num : Z) (t : Table) : outcome Table :=
  ofold (λ t i, put_object tenant_id table_id t (counter 8 i) (replicate 32 0)) t (one_to num).

(** The four associations of object [i], and the bytes of their list. *)
Definition fill_tao_assocs (tenant_id table_id num i : Z) (t : Table) : outcome (Table * bytes) :=
  ofold (λ '(t, list) a,
    temp ← urem (wadd 32 i a) num;
    let temp := le_bytes 4 temp in
    let key := counter 10 i ++ temp ++ replicate 4 0 in
    t ← put_object tenant_id table_id t key (replicate 22 0);
    Ret (t, list ++ temp ++ replicate 12 0)) (t, []) [1; 2; 3; 4].

Definition fill_tao_lists (tenant_id table_id num : Z) (t : Table) : outcome Table :=
  ofold (λ t i,
    '(t, list) ← fill_tao_assocs tenant_id table_id num i t;
    put_object tenant_id table_id t (counter 10 i) list) t (one_to num).

Definition fill_tao (s : Store) (tenant_id num : Z) : outcome Store :=
  let (s, tn) := create_table s (Tenant_new tenant_id) 1 in
  let (s, tn) := create_table s tn 2 in
  s ← fill_table s tn 1 (fill_tao_objects tenant_id 1 num);
  s ← fill_table s tn 2 (fill_tao_lists tenant_id 2 num);
  insert_tenant s tn.

(** *** Aggregation *)

Definition N_AGG : Z := 12.

Definition fill_aggregate_lists (tenant_id table_id num records : Z) (t : Table) : outcome Table :=
  ofold (λ t i,
    val ← ofold (λ val e,
      k ← urem (wadd 32 (wmul 32 i N_AGG) e) records;
      Ret (val ++ counter 30 k)) [] (seqZ 0 N_AGG);
    put_object tenant_id table_id t (counter 8 i) val) t (one_to num).

Definition fill_aggregate_records (tenant_id table_id records : Z) (t : Table) : outcome Table :=
  ofold (λ t i, put_object tenant_id table_id t (counter 30 i) (counter 100 i)) t (seqZ 0 records).

Definition fill_aggregate (s : Store) (tenant_id table_id num : Z) : outcome Store :=
  let records := wmul 32 4 (wadd 32 num 1) in
  fill_single s tenant_id table_id (λ t,
    t ← fill_aggregate_lists tenant_id table_id num records t;
    fill_aggregate_records tenant_id table_id records t).

(** *** Analysis *)

Definition fill_rows (tenant_id table_id : Z) (rows : list bytes) (t : Table) : outcome Table :=
  ofold (λ t r, put_object tenant_id table_id t (counter 30 (wrap 32 (Z.of_nat r.1 + 1))) r.2)
    t (imap pair rows).

Definition fill_analysis (rows : list bytes) (s : Store) (num_tenants : Z) : outcome Store :=
  ofold (λ s tenant_id, fill_single s tenant_id 1 (fill_rows tenant_id 1 rows)) s (one_to num_tenants).

Definition fill_mix_tenant (rows : list bytes) (num : Z) (s : Store) (tenant_id : Z) :
    outcome Store :=
  let (s, tn) := create_table s (Tenant_new tenant_id) 1 in
  let (s, tn) := create_table s tn 2 in
  let (s, tn) := create_table s tn 3 in
  s ← fill_table s tn 1 (fill_tao_objects tenant_id 1 num);
  s ← fill_table s tn 2 (fill_tao_lists tenant_id 2 num);
  s ← fill_table s tn 3 (fill_rows tenant_id 3 rows);
  insert_tenant s tn.

Definition fill_mix (rows : list bytes) (s : Store) (num_tenants num : Z) : outcome Store :=
  ofold (fill_mix_tenant rows num) s (one_to num_tenants).

(** *** Authentication *)

(** The buffers keep the counter in their first bytes. *)
Definition auth_object `{Crypto} (i : Z) : bytes * bytes :=
  let username := counter 30 i in
  let password := counter 72 i in
  let salt := counter 16 i in
  (username, bcrypt 1 salt password ++ salt).

Definition fill_auth `{Crypto} (s : Store) (tenant_id table_id num : Z) : outcome Store :=
  fill_single s tenant_id table_id (λ t,
    ofold (λ t i, let (k, v) := auth_object i in put_object tenant_id table_id t k v) t (one_to num)).
End data.

(** ** Extensions *)

Section extensions.
Context `{Loader} (fs : FS).

Definition load_one (tenant : Z) (em : ExtensionManager) (name : String.string) :
    outcome ExtensionManager :=
  let path := str "../ext/" ++ str name ++ str "/target/release/lib" ++ str name ++ str ".so" in
  '(em, ok) ← em_load fs em path tenant (str name);
  if ok : bool then Ret em else Panic.

Definition load_test (em : ExtensionManager) (tenant : Z) : outcome ExtensionManager :=
  ofold (load_one tenant) em
    ["get"; "put"; "tao"; "bad"; "long"; "aggregate"; "pushback"; "scan"; "analysis"; "auth";
     "ycsbt"; "checksum"]%string.

Definition share_one (tenant : Z) (em : ExtensionManager) (name : String.string) :
    outcome ExtensionManager :=
  '(em, ok) ← em_share em 0 tenant (str name);
  if ok : bool then Ret em else Panic.

Definition load_test_shared (em : ExtensionManager) (tenants : Z) : outcome ExtensionManager :=
  em ← load_test em 0;
  ofold (λ em tenant, ofold (share_one tenant) em ["get"; "put"; "tao"]%string) em
    (seqZ 1 (tenants - 1)).
End extensions.
