(* ===== verification/LoadersSpecs.v ===== *)
(** * LoadersSpecs: the data sets are what the extensions expect

    Loading puts objects one after the other; what a table then holds is stated
    once ([put_all_holds]) and used for the TAO graph and the aggregation lists,
    whose layout the extensions rely on. *)

From stdpp Require Import strings.
From S2P Require Import Prelude Packed Wire Rpc Alloc Tx Table Store Handlers HandlerSpecs CommitSpecs.
From S2P Require Import Bufs Context ContextSpecs Ext Task Dispatch Proxy Client DB DBSpecs Programs.
From S2P Require Import ExtSpecs Tao Loaders KayakSpecs.

(** ** Bulk loading *)

Section loading.
Context `{BytesCrateLaws}.

Definition put_all (tenant table : Z) (t : Table) (kvs : list (bytes * bytes)) : outcome Table :=
  ofold (λ t kv, put_object tenant table t kv.1 kv.2) t kvs.

Definition kv_ok (kv : bytes * bytes) : Prop :=
  kv.1 ≠ [] ∧ len kv.1 < 2 ^ 16 ∧ len kv.2 < 2 ^ 63 ∧ is_bytes kv.1 ∧ is_bytes kv.2.

(** The table holds the value under the key. *)
Definition stores (t : Table) (k v : bytes) : Prop :=
  ∃ e, tview t k = Some e ∧ entry_kv e = (k, v).

(** The pair is in the list, and no other value for its key. *)
Definition the_value (kvs : list (bytes * bytes)) (k v : bytes) : Prop :=
  (k, v) ∈ kvs ∧ ∀ v', (k, v') ∈ kvs → v' = v.

Lemma put_object_spec tenant table t k v :
  table_ok t → kv_ok (k, v) →
  ∃ t', put_object tenant table t k v = Ret t' ∧ table_ok t' ∧ stores t' k v ∧
    ∀ k', k' ≠ k → tview t' k' = tview t k'.
Proof.
  intros Ht (Hk & Hl & Hv & Hkb & Hvb). unfold put_object. cbn [fst snd] in *.
  rewrite object_layout by done. cbn [mbind outcome_bind fst snd].
  destruct (table_put_ok t tenant table k v) as (t' & r & -> & Hok & (e & He & Hr) & Hne); [done..|].
  exists t'. split_and!; [done|done| |done]. exists e. unfold entry_kv. by rewrite Hr.
Qed.

Lemma put_all_holds tenant table t kvs :
  table_ok t → Forall kv_ok kvs →
  ∃ t', put_all tenant table t kvs = Ret t' ∧ table_ok t' ∧
    ∀ k v, the_value kvs k v ∨ ((∀ v', (k, v') ∉ kvs) ∧ stores t k v) → stores t' k v.
Proof.
  intros Ht Hkvs. revert t Ht. induction Hkvs as [|[k0 v0] kvs Hkv _ IH]; intros t Ht; unfold put_all; cbn [ofold fst snd].
  - exists t. split_and!; [done..|]. intros k v [[Hin _]|[_ Hst]]; [by apply not_elem_of_nil in Hin|done].
  - destruct (put_object_spec tenant table t k0 v0 Ht Hkv) as (t1 & -> & Ht1 & Hs1 & Hne).
    cbn [mbind outcome_bind]. destruct (IH t1 Ht1) as (t' & Hp & Ht' & Hh). exists t'.
    split_and!; [exact Hp|done|]. intros k v Hkv'. apply Hh.
    destruct (decide (k ∈ kvs.*1)) as [[[? v'] [-> Hin]]%list_elem_of_fmap|Hno]; cbn [fst] in *.
    + left. destruct Hkv' as [[Hin0 Huniq]|[Hnot _]]; [|by destruct (Hnot v'); right].
      assert (v' = v) as -> by (apply Huniq; by right). split; [done|]. intros ? ?. apply Huniq. by right.
    + assert (∀ v', (k, v') ∉ kvs) as Hno'.
      { intros v' Hin. apply Hno. apply list_elem_of_fmap. by exists (k, v'). }
      right. split; [done|]. destruct Hkv' as [[Hin0 Huniq]|[Hnot (e & He & Hekv)]].
      * apply elem_of_cons in Hin0 as [[= -> ->]|Hin0]; [done|]. by destruct (Hno' v).
      * exists e. split; [|done]. rewrite Hne; [done|]. intros ->. destruct (Hnot v0). by left.
Qed.

Lemma put_all_app tenant table t l1 l2 :
  put_all tenant table t (l1 ++ l2) = (t ← put_all tenant table t l1; put_all tenant table t l2).
Proof. apply ofold_app. Qed.

(** What is not put stays as it was. *)
Lemma put_all_absent tenant table t kvs t' k :
  table_ok t → Forall kv_ok kvs → put_all tenant table t kvs = Ret t' →
  (∀ v, (k, v) ∉ kvs) → tview t' k = tview t k.
Proof.
  intros Ht Hkvs. revert t Ht. induction Hkvs as [|[k0 v0] kvs Hkv _ IH]; intros t Ht; unfold put_all; cbn [ofold fst snd].
  - by intros [= <-].
  - destruct (put_object_spec tenant table t k0 v0 Ht Hkv) as (t1 & -> & Ht1 & _ & Hne).
    cbn [mbind outcome_bind]. intros Hp Hk. rewrite (IH t1 Ht1 Hp).
    + apply Hne. intros ->. apply (Hk v0). by left.
    + intros v Hin. apply (Hk v). by right.
Qed.

Lemma bind_singletons {A B} (f : A → B) l : (l ≫= λ a, [f a]) = f <$> l.
Proof. induction l as [|a l IH]; [done|]. cbn. by f_equal. Qed.

(** A loop whose body puts a list of objects. *)
Lemma put_all_loop {A} tenant table (body : Table → A → outcome Table) (f : A → list (bytes * bytes)) l t :
  (∀ t a, a ∈ l → body t a = put_all tenant table t (f a)) →
  ofold body t l = put_all tenant table t (l ≫= f).
Proof.
  revert t. induction l as [|a l IH]; intros t Hb; [done|]. cbn [ofold].
  rewrite Hb by by left. cbn [mbind list_bind]. rewrite put_all_app.
  destruct (put_all tenant table t (f a)) as [t1| |]; cbn [mbind outcome_bind]; [|done..].
  apply IH. intros. apply Hb. by right.
Qed.

(** ** Inserting a tenant with fresh tables *)

Lemma insert_loaded_wf s tn ts :
  store_wf s → Forall table_ok ts →
  (∀ tb l, get_table tn tb = Some l → (length (heap s) ≤ l < length (heap s) + length ts)%nat) →
  (∀ tb1 tb2 l, get_table tn tb1 = Some l → get_table tn tb2 = Some l → tb1 = tb2) →
  ∃ s', insert_tenant (mkStore (heap s ++ ts) (tenants s)) tn = Ret s' ∧ store_wf s' ∧
    heap s' = heap s ++ ts ∧ tenant_of s' (tenant_id tn) = Some tn.
Proof.
  intros Hs Hts Hfresh Hinj.
  destruct (insert_tenant_spec (mkStore (heap s ++ ts) (tenants s)) tn) as (s' & He & Hh & Hlen & Hof).
  { apply Hs. }
  cbn [heap] in Hh. change (tenant_of (mkStore (heap s ++ ts) (tenants s))) with (tenant_of s) in Hof.
  exists s'. split; [done|]. split_and!; [|done|by rewrite Hof, decide_True].
  assert (∀ id tn' tb l, tenant_of s' id = Some tn' → get_table tn' tb = Some l →
    (id = tenant_id tn ∧ get_table tn tb = Some l ∧ (length (heap s) ≤ l < length (heap s) + length ts)%nat) ∨
    (tenant_of s id = Some tn' ∧ (l < length (heap s))%nat)) as Hcase.
  { intros id tn' tb l Hid Hl. rewrite Hof in Hid. case_decide as Hd.
    - left. injection Hid as <-. split; [done|]. split; [done|]. by apply (Hfresh tb).
    - right. split; [done|]. destruct (sw_tables _ Hs _ _ _ _ Hid Hl) as (t0 & Ht0 & _).
      by eapply lookup_lt_Some. }
  split; [done| |].
  - intros id tn' tb l Hid Hl. rewrite Hh.
    destruct (Hcase _ _ _ _ Hid Hl) as [(_ & _ & Hr)|(H1 & Hlt)].
    + destruct (lookup_lt_is_Some_2 ts (l - length (heap s))) as [t Ht]; [lia|].
      exists t. rewrite lookup_app_r by lia. split; [done|].
      rewrite Forall_forall in Hts. by eapply Hts, list_elem_of_lookup_2.
    + rewrite lookup_app_l by done. by eapply sw_tables.
  - intros id1 tn1 tb1 id2 tn2 tb2 l H1 H1' H2 H2'.
    destruct (Hcase _ _ _ _ H1 H1') as [(-> & Ha & Hra)|(Hb & Hlb)],
      (Hcase _ _ _ _ H2 H2') as [(-> & Hc & Hrc)|(Hd & Hld)]; try lia.
    + split; [done|]. by eapply Hinj.
    + by eapply (sw_distinct _ Hs).
Qed.
End loading.

(** ** The TAO graph *)

Lemma le_bytes_counter v : in_width 32 v → le_bytes 8 v = le_bytes 4 v ++ replicate 4 0.
Proof.
  unfold in_width. intros Hv. cbn [le_bytes app replicate].
  assert (v / 256 / 256 / 256 / 256 = 0) as ->; [|done].
  rewrite !Z.div_div by lia. apply Z.div_small. lia.
Qed.

Lemma counter_is_bytes n i : is_bytes (counter n i).
Proof.
  apply is_bytes_app. split; [apply le_bytes_is_bytes|]. by apply Forall_replicate.
Qed.

Lemma len_counter n i : (4 ≤ n)%nat → len (counter n i) = Z.of_nat n.
Proof.
  intros. unfold counter. rewrite len_app, len_le_bytes. unfold len. rewrite length_replicate. lia.
Qed.

Lemma counter_inj n i j : in_width 32 i → in_width 32 j → counter n i = counter n j → i = j.
Proof.
  intros Hi Hj Heq. apply app_inj_1 in Heq as [Heq _]; [|by rewrite !le_bytes_length].
  apply (f_equal le_val) in Heq. rewrite !le_val_bytes in Heq.
  change (8 * Z.of_nat 4) with 32 in Heq. by rewrite !Z.mod_small in Heq.
Qed.

Lemma one_to_seq num : in_width 32 (num + 1) → one_to num = seqZ 1 num.
Proof. intros. unfold one_to. rewrite wadd_id by done. f_equal. lia. Qed.

Lemma list_bytes_is_bytes l : is_bytes (list_bytes l).
Proof.
  unfold list_bytes. induction l as [|a l IH]; [by constructor|]. cbn [fmap list_fmap concat].
  apply is_bytes_app. split; [|done]. apply is_bytes_app. by split; apply le_bytes_is_bytes.
Qed.

(** The neighbours of object [i], and the rows that the loader puts for it. *)
Definition neighbour (num i a : Z) : Z := wadd 32 i a mod num.

Definition tao_list (num i : Z) : AssociationList :=
  (λ a, mkAssociation (neighbour num i a) 0) <$> [1; 2; 3; 4].

Definition edge_row (i : Z) (a : Association) : bytes * bytes :=
  (counter 10 i ++ le_bytes 8 (as_id a), replicate 22 0).

Definition tao_rows (num i : Z) : list (bytes * bytes) :=
  (edge_row i <$> tao_list num i) ++ [(counter 10 i, list_bytes (tao_list num i))].

Section tao.
Context (num : Z) (Hnum : 1 ≤ num) (Hnum2 : in_width 32 (num + 1)).

Lemma neighbour_range i a : 0 ≤ neighbour num i a < num.
Proof. apply Z.mod_pos_bound. lia. Qed.

Lemma tao_list_ok i : Forall assoc_ok (tao_list num i).
Proof.
  apply Forall_fmap, Forall_true. intros a. pose proof (neighbour_range i a).
  unfold in_width in Hnum2. split; cbn; unfold in_width; lia.
Qed.

Context `{BytesCrateLaws}.

Lemma fill_tao_assocs_rows tenant table i t :
  fill_tao_assocs tenant table num i t =
    (t ← put_all tenant table t (edge_row i <$> tao_list num i);
     Ret (t, list_bytes (tao_list num i))).
Proof.
  assert (∀ a, urem (wadd 32 i a) num = Ret (neighbour num i a)) as Hu.
  { intros a. unfold urem. by rewrite decide_False by lia. }
  assert (∀ a, le_bytes 4 (neighbour num i a) ++ replicate 4 0 = le_bytes 8 (neighbour num i a)) as Hle.
  { intros a. symmetry. apply le_bytes_counter. pose proof (neighbour_range i a).
    unfold in_width in *. lia. }
  assert (∀ a, le_bytes 4 (neighbour num i a) ++ replicate 12 0 =
               assoc_bytes (mkAssociation (neighbour num i a) 0)) as Hab.
  { intros a. unfold assoc_bytes. cbn [as_id as_time]. rewrite <- Hle.
    by rewrite <- (assoc_L (++)). }
  unfold fill_tao_assocs, tao_list, list_bytes, put_all. cbn [ofold fmap list_fmap concat edge_row fst snd as_id].
  rewrite !Hu. cbn [mbind outcome_bind]. rewrite !Hle, !Hab.
  do 4 (destruct (put_object _ _ _ _ _); cbn [mbind outcome_bind]; [rewrite ?Hu; cbn [mbind outcome_bind]; rewrite ?Hle, ?Hab|done..]).
  by rewrite app_nil_l, !app_nil_r, <- !(assoc_L (++)).
Qed.

Lemma fill_tao_lists_rows tenant table t :
  fill_tao_lists tenant table num t = put_all tenant table t (seqZ 1 num ≫= tao_rows num).
Proof.
  unfold fill_tao_lists. rewrite one_to_seq by done. apply put_all_loop. intros t1 i _.
  rewrite fill_tao_assocs_rows. unfold tao_rows. rewrite put_all_app.
  destruct (put_all _ _ _ _) as [t2| |]; cbn [mbind outcome_bind]; [|done..].
  unfold put_all. cbn [ofold fst snd]. by destruct (put_object _ _ _ _ _).
Qed.

Lemma tao_row_in k v :
  (k, v) ∈ seqZ 1 num ≫= tao_rows num →
  ∃ i, 1 ≤ i ≤ num ∧ ((k = counter 10 i ∧ v = list_bytes (tao_list num i)) ∨
                      (len k = 18 ∧ v = replicate 22 0)).
Proof.
  intros (j & Hj & Hin)%list_elem_of_bind. apply elem_of_seqZ in Hin. exists j. split; [lia|].
  apply elem_of_app in Hj as [(a & Heq & _)%list_elem_of_fmap|Hl].
  - right. apply pair_eq in Heq as [-> ->].
    rewrite len_app, len_counter, len_le_bytes by lia. done.
  - apply list_elem_of_singleton, pair_eq in Hl as [-> ->]. by left.
Qed.

Lemma tao_rows_ok : Forall kv_ok (seqZ 1 num ≫= tao_rows num).
Proof.
  apply Forall_forall. intros [k v] (i & Hi & Hin)%list_elem_of_bind.
  assert (∀ n, is_bytes (replicate n 0)) as Hz by (intros; by apply Forall_replicate).
  apply elem_of_app in Hi as [(a & Heq & _)%list_elem_of_fmap|Hl].
  - apply pair_eq in Heq as [-> ->]. unfold kv_ok. cbn [fst snd]. rewrite len_app, len_counter, len_le_bytes by lia.
    split_and!; [|lia|by vm_compute| |apply Hz].
    + intros Hn. apply (f_equal len) in Hn. by rewrite len_app, len_counter, len_le_bytes in Hn by lia.
    + apply is_bytes_app. split; [apply counter_is_bytes|apply le_bytes_is_bytes].
  - apply list_elem_of_singleton, pair_eq in Hl as [-> ->]. unfold kv_ok. cbn [fst snd].
    rewrite len_counter, len_list_bytes by lia.
    split_and!; [|lia|by vm_compute|apply counter_is_bytes|].
    + intros Hn. apply (f_equal len) in Hn. by rewrite len_counter in Hn by lia.
    + apply list_bytes_is_bytes.
Qed.

(** What the loaded table holds for object [i]. *)
Record tao_loaded (t : Table) (i : Z) : Prop := {
  tl_list : stores t (counter 10 i) (list_bytes (tao_list num i));
  tl_edges : ∀ a, a ∈ tao_list num i → stores t (edge_row i a).1 (replicate 22 0);
}.

Lemma fill_tao_lists_loaded tenant table t :
  table_ok t →
  ∃ t', fill_tao_lists tenant table num t = Ret t' ∧ table_ok t' ∧ ∀ i, 1 ≤ i ≤ num → tao_loaded t' i.
Proof.
  intros Ht. rewrite fill_tao_lists_rows.
  destruct (put_all_holds tenant table t _ Ht tao_rows_ok) as (t' & -> & Ht' & Hh).
  exists t'. split; [done|]. split; [done|]. intros i Hi. split.
  - apply Hh. left. split.
    + apply list_elem_of_bind. exists i. split; [|apply elem_of_seqZ; lia].
      unfold tao_rows. apply elem_of_app. right. by apply list_elem_of_singleton.
    + intros v' (j & Hj & [[Hk ->]|[Hk _]])%tao_row_in.
      * apply counter_inj in Hk as ->; [done|unfold in_width in *; lia..].
      * by rewrite len_counter in Hk by lia.
  - intros a Ha. apply Hh. left. split.
    + apply list_elem_of_bind. exists i. split; [|apply elem_of_seqZ; lia].
      unfold tao_rows. apply elem_of_app. left. apply list_elem_of_fmap. by exists a.
    + intros v' (j & Hj & [[Hk ->]|[_ ->]])%tao_row_in; [|done].
      apply (f_equal len) in Hk. unfold edge_row in Hk. cbn [fst] in Hk.
      by rewrite len_app, !len_counter, len_le_bytes in Hk by lia.
Qed.
End tao.

(** *** Reading the graph *)

Definition assoc_key (id1 ty : bytes) (a : Association) : bytes := id1 ++ ty ++ le_bytes 8 (as_id a).

Lemma slice_id pre a l :
  slice (list_bytes (pre ++ a :: l)) (len pre * 16) (len pre * 16 + 8) = Ret (le_bytes 8 (as_id a)).
Proof.
  assert (list_bytes (pre ++ a :: l) =
    list_bytes pre ++ le_bytes 8 (as_id a) ++ (le_bytes 8 (as_time a) ++ list_bytes l)) as ->.
  { unfold list_bytes. rewrite fmap_app, concat_app. cbn [fmap list_fmap concat]. unfold assoc_bytes at 2.
    by rewrite <- !(assoc_L (++)). }
  apply slice_app; [by rewrite len_list_bytes|]. by rewrite len_le_bytes.
Qed.

(** The body of the loop that builds the keys. *)
Definition keys_body (id1 ty id2 list : bytes) (acc : bytes) (i : Z) : outcome bytes :=
  id ← slice list (i * 16) (i * 16 + 8);
  if decide (i = 0) then
    copy_from_slice acc (len id1 + len ty) (len id1 + len ty + len id2) id
  else Ret (acc ++ id1 ++ ty ++ id).

Lemma keys_body_next id1 ty id2 pre a l acc :
  pre ≠ [] →
  keys_body id1 ty id2 (list_bytes (pre ++ a :: l)) acc (len pre) = Ret (acc ++ assoc_key id1 ty a).
Proof.
  intros Hpre. unfold keys_body. rewrite slice_id. cbn [mbind outcome_bind].
  by rewrite decide_False by (destruct pre; [congruence|unfold len; cbn [length]; lia]).
Qed.

Lemma keys_body_first id1 ty id2 a l :
  len id2 = 8 →
  keys_body id1 ty id2 (list_bytes (a :: l)) (id1 ++ ty ++ id2) 0 = Ret (assoc_key id1 ty a).
Proof.
  intros H2. unfold keys_body. pose proof (slice_id [] a l) as Hs. cbn [app] in Hs.
  change (len [] * 16) with (0 * 16) in Hs. rewrite Hs. cbn [mbind outcome_bind].
  rewrite decide_True by done. unfold copy_from_slice.
  pose proof (len_nonneg id1). pose proof (len_nonneg ty).
  rewrite decide_True by (rewrite !len_app, len_le_bytes; lia).
  assert (take (Z.to_nat (len id1 + len ty)) (id1 ++ ty ++ id2) = id1 ++ ty) as ->.
  { rewrite (assoc_L (++)), <- len_app. unfold len. by rewrite Nat2Z.id, take_app_length. }
  rewrite drop_ge by (rewrite !length_app; unfold len; lia).
  by rewrite app_nil_r, <- (assoc_L (++)).
Qed.

Lemma keys_loop id1 ty id2 pre l acc :
  pre ≠ [] →
  ofold (keys_body id1 ty id2 (list_bytes (pre ++ l))) acc (seqZ (len pre) (len l)) =
    Ret (acc ++ concat (assoc_key id1 ty <$> l)).
Proof.
  revert pre acc. induction l as [|a l IH]; intros pre acc Hpre.
  { rewrite seqZ_nil by done. cbn. by rewrite app_nil_r. }
  rewrite seqZ_cons by (unfold len; cbn [length]; lia). cbn [ofold].
  rewrite keys_body_next by done. cbn [mbind outcome_bind].
  specialize (IH (pre ++ [a]) (acc ++ assoc_key id1 ty a)). rewrite <- (assoc_L (++)) in IH. cbn [app] in IH.
  replace (Z.succ (len pre)) with (len (pre ++ [a])) by (rewrite len_app; unfold len; cbn [length]; lia).
  replace (Z.pred (len (a :: l))) with (len l) by (unfold len; cbn [length]; lia).
  rewrite IH by (by destruct pre). cbn [fmap list_fmap concat]. by rewrite <- !(assoc_L (++)).
Qed.

Lemma assoc_keys_spec id1 ty id2 a l :
  len id2 = 8 →
  assoc_keys id1 ty id2 (list_bytes (a :: l)) = Ret (concat (assoc_key id1 ty <$> a :: l)).
Proof.
  intros H2. unfold assoc_keys. change Association_size with 16.
  assert (len (list_bytes (a :: l)) / 16 = len (a :: l)) as ->.
  { rewrite len_list_bytes. unfold list_size, Association_size. by rewrite Z.div_mul. }
  change (ofold (keys_body id1 ty id2 (list_bytes (a :: l))) (id1 ++ ty ++ id2)
            (seqZ 0 (len (a :: l))) = Ret (concat (assoc_key id1 ty <$> a :: l))).
  rewrite seqZ_cons by (unfold len; cbn [length]; lia). cbn [ofold].
  rewrite keys_body_first by done. cbn [mbind outcome_bind].
  replace (Z.succ 0) with (len [a]) by done.
  replace (Z.pred (len (a :: l))) with (len l) by (unfold len; cbn [length]; lia).
  change (a :: l) with ([a] ++ l). by rewrite keys_loop.
Qed.

(** Sending values one after the other. *)
Definition respond_all `{DB D} (vs : list bytes) : ext_m D unit := efold (λ _ v, db_resp v) tt vs.

Lemma ebind_assoc {D A B C} (m : ext_m D A) (f : A → ext_m D B) (g : B → ext_m D C) d :
  ((m ≫= f) ≫= g) d = (m ≫= λ a, f a ≫= g) d.
Proof. unfold mbind, ext_bind. by destruct (m d) as [d1 [a| |]]. Qed.

Lemma ebind_ext {D A B} (m : ext_m D A) (f g : A → ext_m D B) d :
  (∀ a d', f a d' = g a d') → (m ≫= f) d = (m ≫= g) d.
Proof. intros Hfg. unfold mbind, ext_bind. destruct (m d) as [d1 [a| |]]; auto. Qed.

Lemma ebind_eq {D A B} (m m' : ext_m D A) (f : A → ext_m D B) d :
  m d = m' d → (m ≫= f) d = (m' ≫= f) d.
Proof. unfold mbind, ext_bind. by intros ->. Qed.

Lemma respond_all_cons `{DB D} {A} v vs (K : unit → ext_m D A) d :
  (respond_all (v :: vs) ≫= K) d = (_ ← db_resp v; respond_all vs ≫= K) d.
Proof. unfold respond_all. cbn [efold]. rewrite ebind_assoc. by apply ebind_ext; intros [] ?. Qed.

(** A loop over the values that are left is a fold over them. *)
Lemma while_next_efold {D S} (g : S → bytes → ext_m D S) pre v vs fuel s (d : D) :
  (length vs < fuel)%nat → len (pre ++ v :: vs) < 2 ^ 64 →
  while_next fuel (λ s vals, v ← lift (mrb_read vals); g s v) s
    (mkMultiReadBuf (pre ++ v :: vs) (len pre) false) d =
  (s ← efold g s vs; mret (s, mkMultiReadBuf (pre ++ v :: vs) (len pre + len vs) true)) d.
Proof.
  revert pre v fuel s d. induction vs as [|v2 vs IH]; intros pre v fuel s d Hf Hlen;
    (destruct fuel as [|fuel]; [cbn in Hf; lia|]); cbn [while_next]; unfold mrb_next;
    cbn [mrb_index mrb_inner mrb_panic]; pose proof (len_nonneg pre).
  - rewrite len_app in *. change (len [v]) with 1 in *.
    rewrite wsub_id by (unfold in_width; lia). rewrite decide_True by lia.
    unfold mbind, ext_bind, mret, ext_ret. cbn. by rewrite Z.add_0_r.
  - assert (len (pre ++ v :: v2 :: vs) = len pre + 2 + len vs) as Hl
      by (rewrite len_app; unfold len; cbn [length]; lia).
    rewrite Hl in *. pose proof (len_nonneg vs).
    rewrite wsub_id by (unfold in_width; lia). rewrite decide_False by lia.
    rewrite wadd_id by (unfold in_width; lia).
    assert (mrb_read (mkMultiReadBuf (pre ++ v :: v2 :: vs) (len pre + 1) false) = Ret v2) as Hr.
    { unfold mrb_read. cbn [mrb_panic mrb_inner mrb_index].
      replace (Z.to_nat (len pre + 1)) with (length pre + 1)%nat by (unfold len; lia).
      by rewrite lookup_app_r, Nat.add_comm, Nat.add_sub by lia. }
    cbn [efold]. rewrite !ebind_assoc, (ebind_lift _ _ _ _ Hr). apply ebind_ext. intros s1 d1.
    specialize (IH (pre ++ [v]) v2 fuel s1 d1). rewrite <- (assoc_L (++)) in IH. cbn [app] in IH.
    rewrite (len_app pre [v]) in IH. change (len [v]) with 1 in IH. rewrite IH; [|cbn in Hf; lia|lia].
    apply ebind_ext. intros s2 d2. do 3 f_equal. unfold len. cbn [length]. lia.
Qed.

(** *** The graph on a server *)

Section served.
Context `{BytesCrateLaws} (tsc : nat → Z).
#[local] Hint Extern 0 (DB ServerDB) => exact (server_db tsc) : typeclass_instances.

Lemma stores_holds (d : ServerDB) tid l t k v :
  get_table (sv_tenant d) tid = Some l → heap (sv_store d) !! l = Some t → table_ok t → k ≠ [] →
  stores t k v → ∃ ver, sv_holds d tid k ver v.
Proof.
  intros Hl Ht [Hwf Hok] Hk (e & He & Hekv). exists (entry_version e), l, t, e.
  rewrite table_get_view, He by done. unfold entry_kv in Hekv.
  destruct (Hok _ _ He) as (v' & Hr & _). rewrite Hr in *. by simplify_eq.
Qed.

(** Keys that all hold one value. *)
Lemma holds_all (d : ServerDB) tid ks v :
  Forall (λ k, ∃ ver, sv_holds d tid k ver v) ks →
  ∃ rs : list found, fst <$> rs = ks ∧ (λ r : found, r.2.2) <$> rs = replicate (length ks) v ∧
    Forall (λ r : found, sv_holds d tid r.1 r.2.1 r.2.2) rs.
Proof.
  induction 1 as [|k ks [ver Hk] _ (rs & Hf & Hv & Hh)]; [by exists []|].
  exists ((k, (ver, v)) :: rs). cbn. rewrite Hf, Hv. split_and!; [done..|]. by constructor.
Qed.

(** One lookup of a loaded graph. *)
Lemma association_get_loaded (d : ServerDB) l t num i id2 :
  1 ≤ num → in_width 32 (num + 1) → 1 ≤ i ≤ num → len id2 = 8 →
  get_table (sv_tenant d) 2 = Some l → heap (sv_store d) !! l = Some t → table_ok t →
  tao_loaded num t i →
  ∃ d', keeps d d' ∧
    association_get (TAO_new 0 2) (counter 8 i) [0; 0] id2 d =
      (_ ← respond_all (replicate 4 (replicate 22 0)); mret true) d'.
Proof.
  intros Hn Hn2 Hi H2 Hl Ht Hok [Hlist Hedges]. unfold association_get.
  assert (counter 10 i ≠ []) as Hne by done.
  destruct (stores_holds d 2 l t _ _ Hl Ht Hok Hne Hlist) as [ver Hh].
  destruct (@db_get_law _ _ _ _ (server_laws tsc) d 2 _ ver _ Hh)
    as (d1 & Hget & Hk1 & _ & _).
  change (counter 8 i ++ [0; 0]) with (counter 10 i). estep Hget. cbn [rb_read].
  pose proof (assoc_keys_spec (counter 8 i) [0; 0] id2 (mkAssociation (neighbour num i 1) 0)
    ((λ a, mkAssociation (neighbour num i a) 0) <$> [2; 3; 4]) H2) as Hkeys.
  change (mkAssociation (neighbour num i 1) 0 :: _) with (tao_list num i) in Hkeys.
  lstep. assert (wrap 16 (len (counter 8 i) + len [0; 0] + len id2) = 18) as ->.
  { rewrite len_counter, H2 by lia. done. }
  destruct (holds_all d1 2 (assoc_key (counter 8 i) [0; 0] <$> tao_list num i) (replicate 22 0))
    as (rs & Hf & Hv & Hrs).
  { apply Forall_fmap, Forall_forall. intros a Ha.
    destruct (stores_holds d 2 l t (edge_row i a).1 (replicate 22 0) Hl Ht Hok) as [ver' Hh']; [done|by apply Hedges|].
    exists ver'. exact (keeps_holds _ _ Hk1 _ _ _ _ Hh'). }
  destruct (@db_multiget_law _ _ _ _ (server_laws tsc) d1 2 18 rs) as (d2 & Hm & Hk2 & _ & _).
  - lia.
  - intros ->. done.
  - apply Forall_forall. intros r Hr. split; [|rewrite Forall_forall in Hrs; by apply Hrs].
    assert (r.1 ∈ assoc_key (counter 8 i) [0; 0] <$> tao_list num i) as (a & -> & _)%list_elem_of_fmap.
    { rewrite <- Hf. by apply list_elem_of_fmap_2. }
    unfold assoc_key. by rewrite !len_app, len_counter, len_le_bytes by lia.
  - rewrite Hf in Hm. estep Hm. rewrite Hv. exists d2. split; [by transitivity d1|].
    rewrite length_fmap. change (length (tao_list num i)) with 4%nat.
    set (v := replicate 22 0). change (replicate 4 v) with [v; v; v; v].
    change (mrb_num (MultiReadBuf_new [v; v; v; v])) with 4. rewrite decide_True by done.
    assert (mrb_read (MultiReadBuf_new [v; v; v; v]) = Ret v) as Hr by done.
    rewrite !ebind_assoc, (ebind_lift _ _ _ _ Hr).
    rewrite respond_all_cons. apply ebind_ext. intros [] d3.
    rewrite (ebind_eq _ _ _ _ (while_next_efold (λ _ v, db_resp v) [] v [v; v; v]
      (turns (MultiReadBuf_new [v; v; v; v])) tt d3 ltac:(unfold turns; cbn; lia) eq_refl)).
    rewrite ebind_assoc. by apply ebind_ext.
Qed.

(** Filling one table of the tenant under construction. *)
Lemma fill_table_spec s tn tb pre t0 post fill t1 :
  heap s = pre ++ t0 :: post → get_table tn tb = Some (length pre) → fill t0 = Ret t1 →
  fill_table s tn tb fill = Ret (mkStore (pre ++ t1 :: post) (tenants s)).
Proof.
  intros Hh Hl Hf. unfold fill_table, table_at, with_table. rewrite Hl. cbn [expect mbind outcome_bind].
  rewrite Hh, list_lookup_middle by done. cbn [unchecked mbind outcome_bind]. rewrite Hf.
  cbn [mbind outcome_bind]. by rewrite insert_app_r_alt, Nat.sub_diag by done.
Qed.

Lemma fill_tao_objects_ok tenant table num t :
  in_width 32 (num + 1) → table_ok t →
  ∃ t', fill_tao_objects tenant table num t = Ret t' ∧ table_ok t'.
Proof.
  intros Hn Ht. unfold fill_tao_objects. rewrite one_to_seq by done.
  rewrite (put_all_loop tenant table _ (λ i, [(counter 8 i, replicate 32 0)])).
  - destruct (put_all_holds tenant table t (seqZ 1 num ≫= λ i, [(counter 8 i, replicate 32 0)]) Ht)
      as (t' & Hp & Hok & _); [|by exists t'].
    apply Forall_forall. intros [k v] (i & Hi & _)%list_elem_of_bind.
    apply list_elem_of_singleton, pair_eq in Hi as [-> ->]. unfold kv_ok. cbn [fst snd].
    rewrite len_counter by lia. split_and!; [done|lia|by vm_compute|apply counter_is_bytes|].
    by apply Forall_replicate.
  - intros t1 i _. unfold put_all. cbn [ofold fst snd]. by destruct (put_object _ _ _ _ _).
Qed.

(** C11: what the TAO loader stores, the TAO extension finds.  Loading returns a
    well-formed store with the tenant in it, and on any context of that tenant a
    lookup of the associations of an object that was loaded reads its list,
    builds the keys of its four associations from it, finds all of them, and
    answers with their four values. *)
Theorem tao_graph_served (s : Store) id num :
  store_wf s → 1 ≤ num → in_width 32 (num + 1) →
  ∃ s' tn, fill_tao s id num = Ret s' ∧ store_wf s' ∧ tenant_of s' id = Some tn ∧
    ∀ d i id2, sv_store d = s' → sv_tenant d = tn → 1 ≤ i ≤ num → len id2 = 8 →
      ∃ d', keeps d d' ∧
        association_get (TAO_new 0 2) (counter 8 i) [0; 0] id2 d =
          (_ ← respond_all (replicate 4 (replicate 22 0)); mret true) d'.
Proof.
  intros Hs Hn Hn2.
  set (n := length (heap s)).
  set (tn := mkTenant id (<[2 := S n]> (<[1 := n]> ∅)) : Tenant).
  destruct (fill_tao_objects_ok id 1 num Table_default Hn2 default_ok) as (t1 & H1 & Hok1).
  destruct (fill_tao_lists_loaded num Hn Hn2 id 2 Table_default default_ok) as (t2 & H2 & Hok2 & Hload).
  destruct (insert_loaded_wf s tn [t1; t2] Hs) as (s' & Hins & Hwf & Hh & Htn).
  { apply Forall_cons. split; [done|]. by apply Forall_singleton. }
  { unfold tn, get_table. cbn [tables]. intros tb l Hl.
    apply lookup_insert_Some in Hl as [[_ <-]|[_ [[_ <-]|[_ Hl]]%lookup_insert_Some]];
      [cbn; lia..|by rewrite lookup_empty in Hl]. }
  { unfold tn, get_table. cbn [tables]. intros tb1 tb2 l Hl1 Hl2.
    apply lookup_insert_Some in Hl1 as [[<- <-]|[_ [[<- <-]|[_ Hl]]%lookup_insert_Some]];
      [..|by rewrite lookup_empty in Hl];
      apply lookup_insert_Some in Hl2 as [[<- Hx]|[_ [[<- Hx]|[_ Hl]]%lookup_insert_Some]];
      try done; try lia; by rewrite lookup_empty in Hl. }
  exists s', tn. split; [|split; [done|split; [done|]]].
  - unfold fill_tao, create_table. cbn [heap tenants tables tenant_id Tenant_new].
    rewrite length_app, Nat.add_comm. change (length [Table_default] + length (heap s))%nat with (S n).
    fold tn n. rewrite <- (assoc_L (++)). cbn [app].
    rewrite (fill_table_spec _ tn 1 (heap s) Table_default [Table_default] _ t1); [|done..].
    cbn [mbind outcome_bind tenants].
    rewrite (fill_table_spec _ tn 2 (heap s ++ [t1]) Table_default [] _ t2); [| | |done].
    + cbn [mbind outcome_bind tenants]. by rewrite <- (assoc_L (++)).
    + cbn [heap]. by rewrite <- (assoc_L (++)).
    + unfold tn, get_table. cbn [tables]. rewrite lookup_insert_eq, length_app, Nat.add_comm. done.
  - intros d i id2 Hd Htd Hi H8.
    apply (association_get_loaded d (S n) t2 num i id2); [done..| | |done|by apply Hload].
    + rewrite Htd. unfold tn, get_table. cbn [tables]. by rewrite lookup_insert_eq.
    + rewrite Hd, Hh, lookup_app_r by lia. by replace (S n - length (heap s))%nat with 1%nat by lia.
Qed.
End served.

Lemma tao_graph_served_witness :
  let b := exact_bytes in
  let db := @server_db b (λ _, 0) in
  let spec := @server_spec b (λ _, 0) in
  ∃ s' tn, fill_tao Store_new 7 1000 = Ret s' ∧ store_wf s' ∧ tenant_of s' 7 = Some tn ∧
    ∀ d i id2, sv_store d = s' → sv_tenant d = tn → 1 ≤ i ≤ 1000 → len id2 = 8 →
      ∃ d', keeps d d' ∧
        association_get (TAO_new 0 2) (counter 8 i) [0; 0] id2 d =
          (_ ← respond_all (replicate 4 (replicate 22 0)); mret true) d'.
Proof.
  intros b db spec.
  apply (@tao_graph_served exact_bytes exact_bytes_laws (λ _, 0) Store_new 7 1000);
    [apply Store_new_wf|lia|by split].
Defined.
