(* ===== verification/DataSpecs.v ===== *)
(** * DataSpecs: loaded data in use

    The aggregation and authentication data sets, loaded by the master, under
    the extensions of the same names. *)

From stdpp Require Import strings.
From S2P Require Import Prelude Packed Wire Rpc Alloc Tx Table Store Handlers HandlerSpecs CommitSpecs.
From S2P Require Import Bufs Context ContextSpecs Ext Task Dispatch Proxy Client DB DBSpecs Programs.
From S2P Require Import ExtSpecs Tao Loaders LoadersSpecs KayakSpecs.

(** ** Loading one table *)

Section single.
Context `{BytesCrateLaws}.

(** A tenant with one table, filled from the empty one. *)
Lemma fill_single_insert s id tb fill t :
  fill Table_default = Ret t →
  fill_single s id tb fill =
    insert_tenant (mkStore (heap s ++ [t]) (tenants s)) (mkTenant id {[tb := length (heap s)]}).
Proof.
  intros Hf. unfold fill_single, create_table. cbn [heap tenants tables tenant_id Tenant_new].
  rewrite insert_empty. set (tn := mkTenant id _).
  rewrite (fill_table_spec _ tn tb (heap s) Table_default [] _ t); [done|done| |done].
  unfold tn, get_table. cbn [tables]. by rewrite lookup_singleton_eq.
Qed.

Lemma fill_single_spec s id tb fill t :
  store_wf s → fill Table_default = Ret t → table_ok t →
  let tn := mkTenant id {[tb := length (heap s)]} in
  ∃ s', fill_single s id tb fill = Ret s' ∧ store_wf s' ∧ tenant_of s' id = Some tn ∧
    heap s' !! length (heap s) = Some t.
Proof.
  intros Hs Hf Ht tn.
  destruct (insert_loaded_wf s tn [t] Hs) as (s' & Hins & Hwf & Hh & Htn).
  { by apply Forall_singleton. }
  { unfold tn, get_table. cbn [tables]. intros tb' l [_ <-]%lookup_singleton_Some. cbn. lia. }
  { unfold tn, get_table. cbn [tables].
    by intros tb1 tb2 l [<- _]%lookup_singleton_Some [<- _]%lookup_singleton_Some. }
  exists s'. rewrite (fill_single_insert _ _ _ _ _ Hf). split_and!; [done..|].
  rewrite Hh. by apply list_lookup_middle.
Qed.

(** The other tenants, and the tables there were, are left alone. *)
Lemma fill_single_frame s id tb fill t s' :
  store_wf s → fill Table_default = Ret t → fill_single s id tb fill = Ret s' →
  (∀ id', id' ≠ id → tenant_of s' id' = tenant_of s id') ∧
  ∀ l t', heap s !! l = Some t' → heap s' !! l = Some t'.
Proof.
  intros Hs Hf. rewrite (fill_single_insert _ _ _ _ _ Hf).
  destruct (insert_tenant_spec (mkStore (heap s ++ [t]) (tenants s)) (mkTenant id {[tb := length (heap s)]}))
    as (s1 & -> & Hh & _ & Ht); [apply Hs|].
  intros [= <-]. split.
  - intros id' Hne. rewrite Ht. by rewrite decide_False by done.
  - intros l t' Hl. rewrite Hh. cbn [heap]. by apply lookup_app_l_Some.
Qed.

(** Objects that are loaded from a list of distinct keys. *)
Lemma put_all_stores tenant table kvs :
  Forall kv_ok kvs →
  ∃ t, put_all tenant table Table_default kvs = Ret t ∧ table_ok t ∧
    ∀ k v, the_value kvs k v → stores t k v.
Proof.
  intros Hkvs. destruct (put_all_holds tenant table Table_default kvs default_ok Hkvs)
    as (t & Hp & Ht & Hh). exists t. split_and!; [done..|]. intros. apply Hh. by left.
Qed.
End single.

(** ** Aggregation *)

Section aggregate.
Context (num : Z) (Hnum : 1 ≤ num) (Hnum2 : 12 * (num + 1) < 2 ^ 32).

Abbreviation records := (4 * (num + 1)).

(** The records of list [i], and their keys. *)
Definition aggr_members (i : Z) : list Z := (λ e, (12 * i + e) mod records) <$> seqZ 0 12.

Definition aggr_list (i : Z) : bytes := concat (counter 30 <$> aggr_members i).

Definition aggr_rows : list (bytes * bytes) :=
  ((λ i, (counter 8 i, aggr_list i)) <$> seqZ 1 num) ++
  ((λ r, (counter 30 r, counter 100 r)) <$> seqZ 0 records).

Lemma aggr_records : wmul 32 4 (wadd 32 num 1) = records.
Proof. unfold wmul. rewrite wadd_id, wrap_id by (unfold in_width; lia). done. Qed.

Lemma aggr_member_range i r : r ∈ aggr_members i → 0 ≤ r < records.
Proof. intros (e & -> & _)%list_elem_of_fmap. apply Z.mod_pos_bound. lia. Qed.

Lemma len_aggr_list i : len (aggr_list i) = 360.
Proof.
  unfold aggr_list. unfold aggr_members. rewrite (len_concat _ 30); [by rewrite !length_fmap, length_seqZ|].
  apply Forall_fmap, Forall_true. intros r. apply len_counter; lia.
Qed.

Lemma aggr_list_is_bytes i : is_bytes (aggr_list i).
Proof.
  unfold aggr_list. induction (aggr_members i) as [|r l IH]; [by constructor|].
  cbn [fmap list_fmap concat]. apply is_bytes_app. split; [apply counter_is_bytes|done].
Qed.

Lemma aggr_rows_ok : Forall kv_ok aggr_rows.
Proof.
  apply Forall_app. split; apply Forall_fmap, Forall_true; intros i; unfold kv_ok, compose;
    cbn [fst snd]; rewrite ?len_aggr_list, !len_counter by lia;
    split_and!; first [done|apply counter_is_bytes|apply aggr_list_is_bytes].
Qed.

Context `{BytesCrateLaws}.

Lemma aggr_keys i l acc :
  ofold (λ val e, k ← urem (wadd 32 (wmul 32 i N_AGG) e) records; Ret (val ++ counter 30 k)) acc l =
  Ret (acc ++ concat (counter 30 <$> ((λ e, wadd 32 (wmul 32 i N_AGG) e mod records) <$> l))).
Proof.
  revert acc. induction l as [|e l IH]; intros acc; cbn [ofold fmap list_fmap concat];
    [by rewrite app_nil_r|].
  unfold urem. rewrite decide_False by lia. cbn [mbind outcome_bind]. fold (urem).
  change (ofold _ ?a l) with (ofold (λ val e, k ← urem (wadd 32 (wmul 32 i N_AGG) e) records;
    Ret (val ++ counter 30 k)) a l).
  by rewrite IH, <- (assoc_L (++)).
Qed.

Lemma aggr_keys_list i :
  1 ≤ i ≤ num →
  ofold (λ val e, k ← urem (wadd 32 (wmul 32 i N_AGG) e) records; Ret (val ++ counter 30 k)) []
    (seqZ 0 N_AGG) = Ret (aggr_list i).
Proof.
  intros Hi. rewrite aggr_keys. cbn [app]. unfold aggr_list, aggr_members, N_AGG. do 3 f_equal.
  apply list_fmap_ext. intros j e He. apply lookup_seqZ in He as [-> Hj].
  unfold wmul. rewrite wrap_id, wadd_id by (unfold in_width; lia). f_equal. lia.
Qed.

Lemma fill_aggregate_rows tenant table t :
  (t ← fill_aggregate_lists tenant table num records t;
   fill_aggregate_records tenant table records t) = put_all tenant table t aggr_rows.
Proof.
  unfold aggr_rows. rewrite put_all_app. unfold fill_aggregate_lists, fill_aggregate_records.
  rewrite one_to_seq by (unfold in_width; lia).
  rewrite (put_all_loop tenant table _ (λ i, [(counter 8 i, aggr_list i)])).
  2:{ intros t1 i Hi. apply elem_of_seqZ in Hi. rewrite aggr_keys_list by lia. cbn [mbind outcome_bind].
      unfold put_all. cbn [ofold fst snd]. by destruct (put_object _ _ _ _ _). }
  rewrite bind_singletons. destruct (put_all _ _ _ _) as [t1| |]; cbn [mbind outcome_bind]; [|done..].
  rewrite (put_all_loop tenant table _ (λ r, [(counter 30 r, counter 100 r)])); [by rewrite bind_singletons|].
  intros t2 r _. unfold put_all. cbn [ofold fst snd]. by destruct (put_object _ _ _ _ _).
Qed.

Lemma aggr_the_value :
  (∀ i, 1 ≤ i ≤ num → the_value aggr_rows (counter 8 i) (aggr_list i)) ∧
  (∀ r, 0 ≤ r < records → the_value aggr_rows (counter 30 r) (counter 100 r)).
Proof.
  assert (∀ k v, (k, v) ∈ aggr_rows →
    (∃ j, 1 ≤ j ≤ num ∧ k = counter 8 j ∧ v = aggr_list j) ∨
    (∃ r, 0 ≤ r < records ∧ k = counter 30 r ∧ v = counter 100 r)) as Hrow.
  { intros k v [(j & Hj & Hin)%list_elem_of_fmap|(j & Hj & Hin)%list_elem_of_fmap]%elem_of_app;
      apply pair_eq in Hj as [-> ->]; apply elem_of_seqZ in Hin; [left|right]; exists j; (split; [lia|done]). }
  split; intros i Hi; split.
  - apply elem_of_app. left. apply list_elem_of_fmap. exists i. split; [done|]. apply elem_of_seqZ. lia.
  - intros v' [(j & Hj & Hk & ->)|(r & _ & Hk & _)]%Hrow.
    + apply counter_inj in Hk as ->; [done|unfold in_width; lia..].
    + apply (f_equal len) in Hk. by rewrite !len_counter in Hk by lia.
  - apply elem_of_app. right. apply list_elem_of_fmap. exists i. split; [done|]. apply elem_of_seqZ. lia.
  - intros v' [(j & _ & Hk & _)|(r & Hr & Hk & ->)]%Hrow.
    + apply (f_equal len) in Hk. by rewrite !len_counter in Hk by lia.
    + apply counter_inj in Hk as ->; [done|unfold in_width; lia..].
Qed.
End aggregate.

(** *** Aggregating a loaded list *)

(** A loop over values that only computes. *)
Lemma efold_pure {D S A} (g : S → A → ext_m D S) (h : S → A → S) s l (d : D) :
  (∀ s a, a ∈ l → g s a d = (d, Ret (h s a))) → efold g s l d = (d, Ret (foldl h s l)).
Proof.
  revert s. induction l as [|a l IH]; intros s Hg; [done|]. cbn [efold foldl].
  unfold mbind, ext_bind. rewrite Hg by by left. apply IH. intros. apply Hg. by right.
Qed.

(** The column of non-empty values is their first bytes. *)
Lemma aggr_column_spec `{DB D} (vs : list bytes) (f : bytes → Z) (d : D) :
  vs ≠ [] → len vs < 2 ^ 64 → (∀ v, v ∈ vs → index v 0 = Ret (f v)) →
  aggr_column (MultiReadBuf_new vs) d = (d, Ret (f <$> vs)).
Proof.
  intros Hne Hl Hf. destruct vs as [|v vs]; [done|]. unfold aggr_column.
  set (g := λ (col : list Z) (v : bytes), b ← lift (D := D) (index v 0); mret (col ++ [b])).
  assert (∀ col v d, index v 0 = Ret (f v) → g col v d = (d, Ret (col ++ [f v]))) as Hg.
  { intros col v' d' Hv. unfold g. by rewrite (ebind_lift _ _ _ _ Hv). }
  change (mrb_num (MultiReadBuf_new (v :: vs))) with (len (v :: vs)).
  rewrite decide_True by (unfold len; cbn [length]; lia).
  assert (mrb_read (MultiReadBuf_new (v :: vs)) = Ret v) as Hr by done.
  rewrite ebind_assoc, (ebind_lift _ _ _ _ Hr). rewrite (ebind _ _ _ _ _ (Hg [] v d (Hf v ltac:(by left)))).
  pose proof (while_next_efold g [] v vs (turns (MultiReadBuf_new (v :: vs))) ([] ++ [f v]) d
    ltac:(unfold turns; cbn; lia) Hl) as Hw.
  rewrite (ebind _ _ _ _ _ (efold_pure g (λ c v, c ++ [f v]) ([] ++ [f v]) vs d
    ltac:(intros; apply Hg, Hf; by right))) in Hw.
  rewrite (ebind _ _ _ _ _ Hw). cbn beta iota. by rewrite foldl_snoc_map.
Qed.

Section served.
Context `{BytesCrateLaws} (tsc : nat → Z).
#[local] Hint Extern 0 (DB ServerDB) => exact (server_db tsc) : typeclass_instances.

(** On the server the macros are plain calls. *)
Lemma server_GET1 t k (d : ServerDB) : GET1 t k d = db_get t k d.
Proof. done. Qed.

Lemma server_MULTIGET1 t n ks (d : ServerDB) : MULTIGET1 t n ks d = db_multiget t n ks d.
Proof. done. Qed.

(** Keys with the value that each holds. *)
Lemma holds_map (d : ServerDB) tid ks (f : bytes → bytes) :
  Forall (λ k, ∃ ver, sv_holds d tid k ver (f k)) ks →
  ∃ rs : list found, fst <$> rs = ks ∧ (λ r : found, r.2.2) <$> rs = f <$> ks ∧
    Forall (λ r : found, sv_holds d tid r.1 r.2.1 r.2.2) rs.
Proof.
  induction 1 as [|k ks [ver Hk] _ (rs & Hf & Hv & Hh)]; [by exists []|].
  exists ((k, (ver, f k)) :: rs). cbn. rewrite Hf, Hv. split_and!; [done..|]. by constructor.
Qed.

(** The value that goes with the key of a record. *)
Definition record_value (k : bytes) : bytes := take 4 k ++ replicate 96 0.

Lemma record_value_counter r : record_value (counter 30 r) = counter 100 r.
Proof. done. Qed.

Lemma index_counter r : index (counter 100 r) 0 = Ret (r mod 256).
Proof. done. Qed.

Definition aggr_args (tb order : Z) (key : bytes) : bytes :=
  le_bytes 8 tb ++ le_bytes 4 N_AGG ++ le_bytes 4 order ++ key.

(** The extension on a database that holds the list and its records. *)
Lemma aggregate_sums num d tb order i ver :
  1 ≤ num → in_width 64 tb → in_width 32 order → ctx_args (sv_ctx d) = Ret (aggr_args tb order (counter 8 i)) →
  sv_holds d tb (counter 8 i) ver (aggr_list num i) →
  (∀ r, 0 ≤ r < 4 * (num + 1) → ∃ ver, sv_holds d tb (counter 30 r) ver (counter 100 r)) →
  ∃ d', keeps d d' ∧
    ext_aggregate AggrInit d = (d', Ret (GYield (AggrCompute order
      (foldl (wadd 64) 0 ((λ r, r mod 256) <$> aggr_members num i))))).
Proof.
  intros Hn Htb Ho Hargs Hv Hrecs.
  cbn [ext_aggregate]. unfold aggr_start.
  pose proof (@db_args_law _ _ _ _ (server_laws tsc) d _ Hargs) as Ha. estep Ha.
  unfold aggr_args.
  assert (∀ n v l, split_at (le_bytes n v ++ l) (Z.of_nat n) = Ret (le_bytes n v, l)) as Hsp
    by (intros; apply split_at_app; by rewrite len_le_bytes).
  pose proof (Hsp 8%nat tb (le_bytes 4 N_AGG ++ le_bytes 4 order ++ counter 8 i)) as H8. lstep.
  pose proof (Hsp 4%nat N_AGG (le_bytes 4 order ++ counter 8 i)) as H4. lstep.
  pose proof (Hsp 4%nat order (counter 8 i)) as H4'. lstep.
  rewrite !or_le by (done || unfold in_width, N_AGG; lia).
  destruct (@db_get_law _ _ _ _ (server_laws tsc) d tb _ ver _ Hv) as (d1 & Hget & Hk1 & _ & _).
  rewrite <- (server_GET1 tb (counter 8 i) d) in Hget. estep Hget. cbn [rb_read].
  assert (split_at (aggr_list num i) (KEYLENGTH * N_AGG) = Ret (aggr_list num i, [])) as Hall.
  { rewrite <- (app_nil_r (aggr_list num i)) at 1. apply split_at_app. by rewrite len_aggr_list. }
  lstep.
  destruct (holds_map d1 tb (counter 30 <$> aggr_members num i) record_value) as (rs & Hf' & Hv' & Hrs).
  { apply Forall_fmap, Forall_forall. intros r Hr. unfold compose. rewrite record_value_counter.
    destruct (Hrecs r) as [ver' Hv']; [by eapply aggr_member_range|].
    exists ver'. exact (keeps_holds _ _ Hk1 _ _ _ _ Hv'). }
  destruct (@db_multiget_law _ _ _ _ (server_laws tsc) d1 tb KEYLENGTH rs) as (d2 & Hm & Hk2 & _ & _).
  - done.
  - intros ->. done.
  - apply Forall_forall. intros r Hr. split; [|rewrite Forall_forall in Hrs; by apply Hrs].
    assert (r.1 ∈ counter 30 <$> aggr_members num i) as (x & -> & _)%list_elem_of_fmap.
    { rewrite <- Hf'. by apply list_elem_of_fmap_2. }
    by rewrite len_counter by lia.
  - rewrite Hf', <- (server_MULTIGET1 tb KEYLENGTH _ d1) in Hm. estep Hm. rewrite Hv'.
    assert ((record_value <$> (counter 30 <$> aggr_members num i)) = counter 100 <$> aggr_members num i) as ->
      by by rewrite <- list_fmap_compose.
    assert (aggr_column (MultiReadBuf_new (counter 100 <$> aggr_members num i)) d2 =
      (d2, Ret ((λ v, default 0 (v !! 0%nat)) <$> (counter 100 <$> aggr_members num i)))) as Hcol.
    { apply aggr_column_spec; [done|done|]. by intros v (r & -> & _)%list_elem_of_fmap. }
    estep Hcol.
    exists d2. split; [by transitivity d1|]. unfold mret, ext_ret. by do 4 f_equal.
Qed.

(** the aggregation lists resolve.  Loading the aggregation data returns a
    well-formed store, and the extension aggregate, invoked on any context of
    that tenant with the key of a loaded list, finds the list and all twelve of
    its records, and goes on to its compute part with the sum of their first
    bytes. *)
Theorem aggregate_lists_resolve (s : Store) id tb num :
  store_wf s → 1 ≤ num → 12 * (num + 1) < 2 ^ 32 → in_width 64 tb →
  ∃ s' tn, fill_aggregate s id tb num = Ret s' ∧ store_wf s' ∧ tenant_of s' id = Some tn ∧
    ∀ d i order, sv_store d = s' → sv_tenant d = tn → 1 ≤ i ≤ num → in_width 32 order →
      ctx_args (sv_ctx d) = Ret (aggr_args tb order (counter 8 i)) →
      ∃ d', keeps d d' ∧
        ext_aggregate AggrInit d = (d', Ret (GYield (AggrCompute order
          (foldl (wadd 64) 0 ((λ r, r mod 256) <$> aggr_members num i))))).
Proof.
  intros Hs Hn Hn2 Htb.
  destruct (put_all_stores id tb (aggr_rows num) (aggr_rows_ok num)) as (t & Hp & Hok & Hst).
  destruct (aggr_the_value num Hn2) as [Hlists Hrecs].
  destruct (fill_single_spec s id tb (λ t, t ← fill_aggregate_lists id tb num (4 * (num + 1)) t;
    fill_aggregate_records id tb (4 * (num + 1)) t) t Hs) as (s' & Hf & Hwf & Htn & Hh);
    [by rewrite (fill_aggregate_rows num Hn Hn2)|done|].
  eexists s', _. split; [|split; [done|split; [exact Htn|]]].
  { unfold fill_aggregate. by rewrite (aggr_records num Hn Hn2). }
  intros d i order Hd Htd Hi Ho Hargs.
  assert (get_table (sv_tenant d) tb = Some (length (heap s))) as Hl.
  { rewrite Htd. unfold get_table. cbn [tables]. by rewrite lookup_singleton_eq. }
  assert (∀ k v, k ≠ [] → the_value (aggr_rows num) k v → ∃ ver, sv_holds d tb k ver v) as Hholds.
  { intros k v Hk Hv. eapply stores_holds; [done|by rewrite Hd|done|done|by apply Hst]. }
  destruct (Hholds (counter 8 i) (aggr_list num i)) as [ver Hv]; [done|by apply Hlists|].
  apply (aggregate_sums num d tb order i ver); [done..|]. intros r Hr. apply Hholds; [done|by apply Hrecs].
Qed.
End served.

Lemma aggregate_lists_resolve_witness :
  let b := exact_bytes in
  let db := @server_db b (λ _, 0) in
  let spec := @server_spec b (λ _, 0) in
  ∃ s' tn, fill_aggregate Store_new 7 1 1000 = Ret s' ∧ store_wf s' ∧ tenant_of s' 7 = Some tn ∧
    ∀ d i order, sv_store d = s' → sv_tenant d = tn → 1 ≤ i ≤ 1000 → in_width 32 order →
      ctx_args (sv_ctx d) = Ret (aggr_args 1 order (counter 8 i)) →
      ∃ d', keeps d d' ∧
        ext_aggregate AggrInit d = (d', Ret (GYield (AggrCompute order
          (foldl (wadd 64) 0 ((λ r, r mod 256) <$> aggr_members 1000 i))))).
Proof.
  intros b db spec.
  apply (@aggregate_lists_resolve exact_bytes exact_bytes_laws (λ _, 0) Store_new 7 1 1000);
    [apply Store_new_wf|lia|lia|by split].
Defined.

(** ** Authentication *)

Section auth.
Context `{Crypto} `{BytesCrateLaws} (tsc : nat → Z).
#[local] Hint Extern 0 (DB ServerDB) => exact (server_db tsc) : typeclass_instances.

(** bcrypt writes a hash of 24 bytes. *)
Context (Hbcrypt : ∀ cost salt password, len (bcrypt cost salt password) = 24)
  (Hbytes : ∀ cost salt password, is_bytes (bcrypt cost salt password)).

Definition auth_rows (num : Z) : list (bytes * bytes) := auth_object <$> seqZ 1 num.

Lemma auth_rows_ok num : Forall kv_ok (auth_rows num).
Proof.
  apply Forall_fmap, Forall_true. intros i. unfold kv_ok, compose, auth_object. cbn [fst snd].
  rewrite len_app, Hbcrypt, !len_counter by lia.
  split_and!; try done; try apply counter_is_bytes.
  apply is_bytes_app. split; [apply Hbytes|apply counter_is_bytes].
Qed.

Lemma auth_the_value num i :
  in_width 32 (num + 1) → 1 ≤ i ≤ num →
  the_value (auth_rows num) (auth_object i).1 (auth_object i).2.
Proof.
  unfold in_width. intros Hn Hi. split.
  - apply list_elem_of_fmap. exists i. split; [done|]. apply elem_of_seqZ. lia.
  - intros v (j & Hj & Hin)%list_elem_of_fmap. apply elem_of_seqZ in Hin.
    apply pair_eq in Hj as [Hk ->]. apply counter_inj in Hk as ->; [done|unfold in_width; lia..].
Qed.

Lemma fill_auth_rows tenant table num t :
  in_width 32 (num + 1) →
  ofold (λ t i, let (k, v) := auth_object i in put_object tenant table t k v) t (one_to num) =
  put_all tenant table t (auth_rows num).
Proof.
  intros Hn. rewrite one_to_seq by done.
  rewrite (put_all_loop tenant table _ (λ i, [auth_object i])).
  - done.
  - intros t1 i _. unfold put_all. cbn [ofold]. destruct (auth_object i) as [k v]. cbn [fst snd].
    by destruct (put_object _ _ _ _ _).
Qed.

Definition auth_args (tb : Z) (username password : bytes) : bytes :=
  le_bytes 8 tb ++ username ++ password.

(** The status that answers a password. *)
Definition auth_status (i : Z) (password : bytes) : Z :=
  if decide (bcrypt 1 (counter 16 i) password = bcrypt 1 (counter 16 i) (counter 72 i))
  then AUTH_SUCCESSFUL else AUTH_UNSUCCESSFUL.

Abbreviation decrypted password :=
  (aes_ige_decrypt auth_key auth_iv (take 16 password) ++ drop 16 password).

(** The part before the yield fetches the user and decrypts the password. *)
Lemma auth_fetches d tb i password ver :
  in_width 64 tb → len password = 72 →
  len (aes_ige_decrypt auth_key auth_iv (take 16 password)) = 16 →
  ctx_args (sv_ctx d) = Ret (auth_args tb (counter 30 i) password) →
  sv_holds d tb (counter 30 i) ver (auth_object i).2 →
  ∃ d1, keeps d d1 ∧ ext_auth AuthInit d =
    (d1, Ret (GYield (AuthCheck (Some (mkReadBuf (auth_object i).2)) (decrypted password)))).
Proof.
  intros Htb Hpw Hdec Hargs Hv. set (clear := decrypted password).
  destruct (@db_get_law _ _ _ _ (server_laws tsc) d tb _ ver _ Hv) as (d1 & Hget & Hk1 & _ & _).
  exists d1. split; [done|].
  cbn [ext_auth]. unfold auth_start.
  pose proof (@db_args_law _ _ _ _ (server_laws tsc) d _ Hargs) as Ha. estep Ha.
  rewrite decide_False by (unfold auth_args; rewrite !len_app, len_le_bytes, len_counter, Hpw; lia).
  unfold auth_args.
  pose proof (split_at_app (le_bytes 8 tb) (counter 30 i ++ password) 8 eq_refl) as H8. lstep.
  pose proof (split_at_app (counter 30 i) password 30 eq_refl) as H30. lstep.
  assert (slice password 0 16 = Ret (take 16 password)) as Hsl.
  { unfold slice. rewrite decide_True by lia. done. }
  lstep.
  assert (slice (aes_ige_decrypt auth_key auth_iv (take 16 password)) 0 16 =
    Ret (aes_ige_decrypt auth_key auth_iv (take 16 password))) as Hsl2.
  { unfold slice. rewrite decide_True by lia. unfold len in Hdec. f_equal. apply take_ge. cbn. lia. }
  lstep.
  assert (copy_from_slice password 0 16 (aes_ige_decrypt auth_key auth_iv (take 16 password)) =
    Ret clear) as Hcp.
  { unfold copy_from_slice. rewrite decide_True by lia. done. }
  lstep. rewrite or_le by done.
  assert (GET tb (counter 30 i) d = (d1, Ret (Some (Some (mkReadBuf (auth_object i).2))))) as HG.
  { unfold GET. assert (db_search_get tb (counter 30 i) d = (d, Ret (true, false, None))) as Hsg by done.
    estep Hsg. unfold fmap, ext_fmap. by rewrite Hget. }
  estep HG. done.
Qed.

(** The part after it compares hashes. *)
Lemma auth_compares i clear (d2 : ServerDB) :
  ext_auth (AuthCheck (Some (mkReadBuf (auth_object i).2)) clear) d2 =
    (_ ← db_resp (pack 1 (auth_status i clear)); mret (GReturn 0)) d2.
Proof.
  cbn [ext_auth]. unfold auth_check. cbn [rb_read auth_object snd].
  change (len _) with (len (bcrypt 1 (counter 16 i) (counter 72 i) ++ counter 16 i)).
  rewrite decide_False by (rewrite len_app, Hbcrypt, len_counter; lia).
  pose proof (slice_app [] (bcrypt 1 (counter 16 i) (counter 72 i)) (counter 16 i) 0 24 eq_refl) as Hs1.
  cbn [app] in Hs1. specialize (Hs1 ltac:(rewrite Hbcrypt; lia)). lstep.
  pose proof (slice_app (bcrypt 1 (counter 16 i) (counter 72 i)) (counter 16 i) [] 24 40) as Hs2.
  rewrite app_nil_r in Hs2. specialize (Hs2 ltac:(by rewrite Hbcrypt) ltac:(done)). lstep.
  done.
Qed.

(** Loading the authentication data returns a well-formed store, whose table
    holds the hash and the salt of every user. *)
Lemma auth_loaded (s : Store) id tb num :
  store_wf s → in_width 32 (num + 1) →
  ∃ s' tn l t, fill_auth s id tb num = Ret s' ∧ store_wf s' ∧ tenant_of s' id = Some tn ∧
    get_table tn tb = Some l ∧ heap s' !! l = Some t ∧ table_ok t ∧
    ∀ i, 1 ≤ i ≤ num → stores t (counter 30 i) (auth_object i).2.
Proof.
  intros Hs Hn.
  destruct (put_all_stores id tb (auth_rows num) (auth_rows_ok num)) as (t & Hp & Hok & Hst).
  destruct (fill_single_spec s id tb (λ t, ofold (λ t i, let (k, v) := auth_object i in
    put_object id tb t k v) t (one_to num)) t Hs) as (s' & Hf & Hwf & Htn & Hh);
    [by rewrite fill_auth_rows|done|].
  eexists s', _, _, t. split_and!; [exact Hf|done|exact Htn| |exact Hh|done|].
  - unfold get_table. cbn [tables]. by rewrite lookup_singleton_eq.
  - intros i Hi. by apply Hst, auth_the_value.
Qed.

(** The extension auth, invoked with the name of a user that is stored and a
    password of 72 bytes whose first 16 are encrypted, yields once and then
    answers one status and returns 0: success exactly when the decrypted password
    hashes, with the user's salt, to what the user's own password hashes to. *)
Lemma auth_answers d tb i password ver :
  in_width 64 tb → len password = 72 →
  len (aes_ige_decrypt auth_key auth_iv (take 16 password)) = 16 →
  ctx_args (sv_ctx d) = Ret (auth_args tb (counter 30 i) password) →
  sv_holds d tb (counter 30 i) ver (auth_object i).2 →
  ∃ d1 g, keeps d d1 ∧ ext_auth AuthInit d = (d1, Ret (GYield g)) ∧
    ∀ d2 : ServerDB, ext_auth g d2 =
      (_ ← db_resp (pack 1 (auth_status i (decrypted password))); mret (GReturn 0)) d2.
Proof.
  intros Htb Hpw Hdec Hargs Hv.
  destruct (auth_fetches d tb i password ver) as (d1 & Hk & He); [done..|].
  eexists d1, _. split_and!; [done|exact He|]. intros d2. apply auth_compares.
Qed.
End auth.
