(* ===== verification/PushClient.v ===== *)
(** * PushClient: the balancing client of the pushback workload

    Models splinter/src/bin/client/pushback-kayak.rs with the native state of
    splinter/src/nativestate.rs.  The client is the one of file [Kayak] for
    another workload: a chain of dependent gets.  The client either invokes the
    extension pushback, which follows the chain on the server, or follows the
    chain itself, a request at a time, keeping what it read in a
    [PushbackState] by the time stamp of the request, and commits it at the end.
    The two controllers are those of [Kayak].

    The normal distribution, whose samples nothing uses, is the interface
    [Orders].  Busy waits and printed statistics are left out. *)

From stdpp Require Import strings.
From S2P Require Import Prelude Packed Headers Packet Wire Rpc Alloc Tx Bufs Ext Context Task.
From S2P Require Import Dispatch Proxy Client DB Programs Float Kayak.

(** ** Native state *)

Record PushbackState := mkPushbackState {
  op_num : Z;
  commit_payload : bytes;
  readset : list KV;
}.

Definition PushbackState_new : PushbackState := mkPushbackState 1 [] [].

Definition native_update_rwset (st : PushbackState) (record : bytes) (keylen : Z) :
    outcome PushbackState :=
  '(_, rem) ← split_at record 1;
  kv ← split_kv rem keylen;
  Ret (mkPushbackState (op_num st) (commit_payload st ++ record) (readset st ++ [kv])).

(** The first record of the read set with the key. *)
Definition search_key (st : PushbackState) (key : bytes) : option ReadBuf :=
  (λ r, mkReadBuf (kv_value r.2)) <$> list_find (λ kv, kv_key kv = key) (readset st).

(** The turns [i], [i+1], ... of the loop; the result is the value returned by
    the generator.  The number read in the last turn is dropped. *)
Fixpoint native_lookups (fuel : nat) (i number : Z) (st : PushbackState) (keys : bytes) : outcome Z :=
  match fuel with
  | O => Ret 0
  | S fuel =>
      let obj := search_key st keys in
      if decide (i = wsub 32 number 1) then
        match obj with
        | Some val => _ ← index (rb_read val) 0; native_lookups fuel (i + 1) number st keys
        | None => Ret 1
        end
      else
        match obj with
        | Some val =>
            next ← slice (rb_read val) 0 4;
            keys ← copy_from_slice keys 0 4 next;
            native_lookups fuel (i + 1) number st keys
        | None => Ret 2
        end
  end.

Definition native_generator (st : PushbackState) (number : Z) : outcome Z :=
  first ← index (readset st) 0;
  native_lookups (Z.to_nat number) 0 number st (kv_key first).

(** Any other value than 0 is a panic. *)
Definition native_execute_task (st : PushbackState) (number : Z) : outcome unit :=
  val ← native_generator st number;
  assert_ (val = 0).

(** ** The workload *)

Class Orders `{Workloads} := {
  Normal : Type;
  order_sample : Normal → Rng → Z * Normal * Rng;
}.

Section workload.
Context `{Orders}.

Record Pushback := mkPushback {
  pb_put_pct : Z;
  pb_rng : Rng;
  pb_key_rng : Zipf;
  pb_tenant_rng : Zipf;
  pb_order_rng : Normal;
  pb_key_buf : bytes;
  pb_value_buf : bytes;
}.

Definition Pushback_new (key_len value_len put_pct : Z) (rng : Rng) (key_rng tenant_rng : Zipf)
    (order_rng : Normal) : Pushback :=
  mkPushback put_pct rng key_rng tenant_rng order_rng (replicate (Z.to_nat key_len) 0)
    (replicate (Z.to_nat value_len) 0).

(** The closures [get] and [put] become data. *)
Inductive PushOp :=
| PushGet (tenant : Z) (key : bytes) (order : Z)
| PushPut (tenant : Z) (key value : bytes) (order : Z).

Definition push_abc (y : Pushback) : outcome (Pushback * PushOp) :=
  let (r, rng) := gen_u32 (pb_rng y) in
  let is_get := bool_decide (r mod 100 >= wrap 32 (pb_put_pct y)) in
  let '(t, tenant_rng, rng) := zipf_sample (pb_tenant_rng y) rng in
  let t := wrap 32 t in
  let '(k, key_rng, rng) := zipf_sample (pb_key_rng y) rng in
  let k := le_bytes 4 (wrap 32 k) in
  key_buf ← copy_from_slice (pb_key_buf y) 0 4 k;
  let '(o, order_rng, rng) := order_sample (pb_order_rng y) rng in
  let y := mkPushback (pb_put_pct y) rng key_rng tenant_rng order_rng key_buf (pb_value_buf y) in
  Ret (y, if is_get then PushGet t key_buf o else PushPut t key_buf (pb_value_buf y) o).
End workload.

(** ** The client *)

Record PushConf := mkPushConf {
  push_responses : Z;
  push_requests : Z;
  push_key_len : Z;
  push_record_len : Z;
  num : Z;
  ord1 : Z;
  ord2 : Z;
  is_bimodal : bool;
  bimodal_interval : Z;
  push_loops : LoopConfig;
}.

Record PushCounts := mkPushCounts {
  push_recvd : Z;
  counter_pushback : Z;
  push_sent : Z;
  push_outstanding : Z;
  push_latencies : list Z;
  push_finished : bool;
  push_stop : Z;
}.

Section push.
Context `{Network} `{Loader} `{Orders} {G : Type}.

Record PushStation := mkPushStation {
  push_link : Link;
  push_receiver : Receiver;
  push_manager : @TaskManager _ G;
  push_workload : Pushback;
  payload_pushback : bytes;
  payload_put : bytes;
  native_state : gmap Z PushbackState;
}.

Record PushClient := mkPushClient {
  push_conf : PushConf;
  push_station : PushStation;
  push_counts : PushCounts;
  push_control : Controller;
  ord : Z;
}.

(** *** Creation *)

Definition pushback_name : bytes := str "pushback".

Definition pushback_payload (key_len number order : Z) : bytes :=
  let payload_len := len pushback_name + 8 + 4 + 4 + key_len in
  resize (pushback_name ++ le_bytes 8 1 ++ le_bytes 4 number ++ le_bytes 4 order) payload_len.

Definition put_payload (key_len value_len : Z) : bytes :=
  let payload_len := len pushback_name + 8 + 2 + key_len + value_len in
  resize (pushback_name ++ le_bytes 8 1 ++ le_bytes 2 key_len) payload_len.

(** The workload is created without puts; the clock is read for the start, the
    X-loop and the R-loop. *)
Definition PushClient_new (w : Link) (extensions : ExtensionManager) (rng : Rng)
    (key_rng tenant_rng : Zipf) (order_rng : Normal) (cfg : LoopConfig)
    (resps reqs key_len value_len number order order2 : Z) (bimodal : bool)
    (interval invoke_p max_out : Z) : PushClient :=
  let (start, net) := rdtsc w.2 in
  let (now, net) := rdtsc net in
  let (now2, net) := rdtsc net in
  let x_half := f32_div (f32_of 101) (f32_of 2) in
  mkPushClient
    (mkPushConf resps reqs key_len (1 + 8 + key_len + value_len) number order order2 bimodal
       interval cfg)
    (mkPushStation (w.1, net) Receiver_new (TaskManager_new extensions)
       (Pushback_new key_len value_len 0 rng key_rng tenant_rng order_rng)
       (pushback_payload key_len number order) (put_payload key_len value_len) ∅)
    (mkPushCounts 0 0 0 0 [] false 0)
    (mkController (f32_of invoke_p) (f32_of max_out) 0 0 now2 0 now (f32_of 0) x_half) order.

(** *** Sending *)

Definition push_with_link (s : PushStation) (w : Link) : PushStation :=
  mkPushStation w (push_receiver s) (push_manager s) (push_workload s) (payload_pushback s)
    (payload_put s) (native_state s).

Definition push_with_manager (s : PushStation) (m : TaskManager) : PushStation :=
  mkPushStation (push_link s) (push_receiver s) m (push_workload s) (payload_pushback s)
    (payload_put s) (native_state s).

Definition with_native (s : PushStation) (states : gmap Z PushbackState) : PushStation :=
  mkPushStation (push_link s) (push_receiver s) (push_manager s) (push_workload s)
    (payload_pushback s) (payload_put s) states.

(** A bimodal workload switches between two orders with the clock. *)
Definition switch_order (k : PushClient) : outcome PushClient :=
  let c := push_conf k in
  if is_bimodal c then
    let s := push_station k in
    let (now, net) := rdtsc (push_link s).2 in
    phase ← (if decide (bimodal_interval c = 0) then Panic else Ret (now / bimodal_interval c));
    Ret (mkPushClient c (push_with_link s ((push_link s).1, net)) (push_counts k) (push_control k)
           (if decide (phase mod 2 = 1) then ord1 c else ord2 c))
  else Ret k.

(** A native request, with the state that its chain starts from. *)
Definition push_send_native (s : PushStation) (op : PushOp) (curr : Z) : outcome PushStation :=
  w ← match op with
      | PushGet tenant key _ => send_get (push_link s) tenant 1 key curr
      | PushPut tenant key val _ => send_put (push_link s) tenant 1 key val curr
      end;
  Ret (with_native (push_with_link s w) (<[curr := PushbackState_new]> (native_state s))).

(** An invocation, with the task that would run it here if it is pushed back.
    [name] is the length of "pushback". *)
Definition push_send_invocation (c : PushConf) (ord : Z) (s : PushStation) (op : PushOp) (curr : Z) :
    outcome PushStation :=
  let name := 8 in
  match op with
  | PushGet tenant key _ =>
      p_get ← (if is_bimodal c then copy_from_slice (payload_pushback s) 20 24 (le_bytes 4 ord)
               else Ret (payload_pushback s));
      k ← slice key 0 4;
      p_get ← copy_from_slice p_get 24 28 k;
      m ← create_task (push_manager s) curr p_get tenant name;
      w ← send_invoke (push_link s) tenant name p_get curr;
      Ret (mkPushStation w (push_receiver s) m (push_workload s) p_get (payload_put s)
             (native_state s))
  | PushPut tenant key _ _ =>
      k ← slice key 0 4;
      p_put ← copy_from_slice (payload_put s) 18 22 k;
      m ← create_task (push_manager s) curr p_put tenant name;
      w ← send_invoke (push_link s) tenant name p_put curr;
      Ret (mkPushStation w (push_receiver s) m (push_workload s) (payload_pushback s) p_put
             (native_state s))
  end.

(** A turn of the sending loop; the coin has a resolution of a hundredth. *)
Definition push_send_one (k : PushClient) : outcome PushClient :=
  let s := push_station k in
  let c := push_conf k in
  let (curr, net) := rdtsc (push_link s).2 in
  let y := push_workload s in
  let (r, rng) := gen_u32 (pb_rng y) in
  let o := bool_decide (r mod 10000 >= f32_to 32 (f32_mul (ext_p (push_control k)) (f32_of 100))) in
  '(y, op) ← push_abc (mkPushback (pb_put_pct y) rng (pb_key_rng y) (pb_tenant_rng y)
                         (pb_order_rng y) (pb_key_buf y) (pb_value_buf y));
  let s := mkPushStation ((push_link s).1, net) (push_receiver s) (push_manager s) y
             (payload_pushback s) (payload_put s) (native_state s) in
  s ← (if o : bool then push_send_native s op curr else push_send_invocation c (ord k) s op curr);
  let n := push_counts k in
  Ret (mkPushClient c s
         (mkPushCounts (push_recvd n) (counter_pushback n) (push_sent n +u64 1)
            (push_outstanding n +u64 1) (push_latencies n) (push_finished n) (push_stop n))
         (push_control k) (ord k)).

(** The guard of the loop. *)
Definition push_may_send (k : PushClient) : bool :=
  bool_decide (push_outstanding (push_counts k) < f32_to 64 (max_out (push_control k))) &&
  bool_decide (get_queue_len (push_manager (push_station k)) < f32_to 64 (max_out (push_control k))).

Definition push_send_loop : nat → PushClient → outcome PushClient :=
  while_loop push_may_send push_send_one.

(** Every turn adds an outstanding request. *)
Definition push_send_fuel (k : PushClient) : nat :=
  Z.to_nat (f32_to 64 (max_out (push_control k)) - push_outstanding (push_counts k)).

Definition push_send (k : PushClient) : outcome PushClient :=
  if decide (push_requests (push_conf k) <= push_sent (push_counts k)) then Ret k
  else k ← switch_order k; push_send_loop (push_send_fuel k) k.

(** *** Receiving *)

Definition push_free {T} (p : Packet T) (s : PushStation) : PushStation :=
  push_with_link s ((push_link s).1, mbuf_free (mbuf p) (push_link s).2).

(** [self.recvd += 1], with the latency if there is one. *)
Definition push_count_recvd (n : PushCounts) (latency : list Z) : PushCounts :=
  mkPushCounts (push_recvd n +u64 1) (counter_pushback n) (push_sent n) (push_outstanding n)
    (push_latencies n ++ latency) (push_finished n) (push_stop n).

(** [self.counter_pushback += 1] *)
Definition count_pushback (n : PushCounts) : PushCounts :=
  mkPushCounts (push_recvd n) (counter_pushback n +u64 1) (push_sent n) (push_outstanding n)
    (push_latencies n) (push_finished n) (push_stop n).

(** [self.outstanding -= 1] *)
Definition push_one_less (n : PushCounts) : PushCounts :=
  mkPushCounts (push_recvd n) (counter_pushback n) (push_sent n) (push_outstanding n -u64 1)
    (push_latencies n) (push_finished n) (push_stop n).

(** A commit is over, whatever its status. *)
Definition push_recv_commit (s : PushStation) (n : PushCounts) (packet : Packet UdpHeader)
    (curr : Z) : outcome (PushStation * PushCounts) :=
  p ← parse_header CommitResponse packet;
  h ← get_header p;
  let h := commitres_common h in
  let timestamp := res_stamp h in
  let latency := if decide (status h = RpcStatus_u8 StatusTxAbort) then []
                 else if decide (status h = RpcStatus_u8 StatusOk) then [curr -u64 timestamp]
                 else [] in
  let s := push_free p s in
  Ret (with_native s (delete timestamp (native_state s)), push_count_recvd n latency).

(** The last result says whether the response was counted. *)
Definition push_recv_invoke (c : PushConf) (s : PushStation) (n : PushCounts)
    (packet : Packet UdpHeader) (curr : Z) : outcome (PushStation * PushCounts * bool) :=
  p ← parse_header InvokeResponse packet;
  h ← get_header p;
  let h := invokeres_common h in
  let timestamp := res_stamp h in
  '(s, n, signal) ←
    (if decide (status h = RpcStatus_u8 StatusOk) then
       Ret (push_with_manager s (delete_task (push_manager s) timestamp),
            push_one_less (push_count_recvd n [curr -u64 timestamp]), true)
     else if decide (status h = RpcStatus_u8 StatusPushback) then
       records ← get_payload p;
       m ← update_rwset (push_manager s) timestamp records (push_record_len c) (push_key_len c);
       Ret (push_with_manager s m, push_one_less (count_pushback n), false)
     else Ret (s, n, false));
  Ret (push_free p s, n, signal).

(** What the client does next in a native chain. *)
Inductive NativeNext :=
| NextGet (key : bytes)
| NextCommit (payload : bytes)
| NextNone.

(** The state takes in the record; the last one of the chain ends it, another
    one names the next key in the first 30 bytes of its value. *)
Definition native_next (number key_len : Z) (st : PushbackState) (record : bytes) :
    outcome (PushbackState * NativeNext) :=
  st ← native_update_rwset st record key_len;
  if decide (op_num st = wrap 8 number) then
    _ ← native_execute_task st number;
    Ret (st, NextCommit (commit_payload st))
  else
    optype ← parse_record_optype record;
    match optype with
    | SandstormRead =>
        '(_, record) ← split_at record 1;
        '(version, entry) ← split_at record 8;
        '(key, val) ← split_at entry key_len;
        next ← slice val 0 30;
        Ret (mkPushbackState (wadd 8 (op_num st) 1) (commit_payload st) (readset st), NextGet next)
    | _ => Ret (st, NextNone)
    end.

(** A response without a state, or one that is not [StatusOk], is dropped. *)
Definition push_recv_get (c : PushConf) (s : PushStation) (n : PushCounts)
    (packet : Packet UdpHeader) : outcome (PushStation * PushCounts * bool) :=
  p ← parse_header GetResponse packet;
  h ← get_header p;
  let h := getres_common h in
  let timestamp := res_stamp h in
  let tenant := res_tenant h in
  let val_len := wsub 64 (wsub 64 (push_record_len c) (push_key_len c)) 9 in
  '(s, n) ←
    match native_state s !! timestamp with
    | Some st =>
        if decide (status h = RpcStatus_u8 StatusOk) then
          record ← get_payload p;
          '(st, next) ← native_next (num c) (push_key_len c) st record;
          let s := with_native s (<[timestamp := st]> (native_state s)) in
          match next with
          | NextGet key =>
              w ← send_get (push_link s) tenant 1 key timestamp;
              Ret (push_with_link s w, n)
          | NextCommit payload =>
              w ← send_commit (push_link s) tenant 1 payload timestamp (wrap 16 (push_key_len c))
                    (wrap 16 val_len);
              Ret (push_with_link s w, push_one_less n)
          | NextNone => Ret (s, n)
          end
        else Ret (s, n)
    | None => Ret (s, n)
    end;
  Ret (push_free p s, n, false).

(** The controllers run after every response that is no commit, when a response
    of the batch was counted. *)
Definition push_run_loops (cfg : LoopConfig) (c : Controller) (n : PushCounts) (signal : bool)
    (net : Net) : outcome (Controller * Net) :=
  c ← measure_kth c (push_latencies n);
  let (rloop_rdtsc, net) := rdtsc net in
  let c := if signal then rloop cfg c (push_recvd n) (len (push_latencies n)) rloop_rdtsc else c in
  let (xloop_rdtsc, net) := rdtsc net in
  let c := if signal then xloop cfg c (push_recvd n) (len (push_latencies n)) xloop_rdtsc else c in
  Ret (c, net).

(** A turn of the loop over a batch. *)
Definition push_recv_packet (curr : Z) (st : PushClient * bool) (packet : Packet UdpHeader) :
    outcome (PushClient * bool) :=
  let (k, signal) := st in
  let c := push_conf k in
  let n := push_counts k in
  opcode ← parse_rpc_opcode packet;
  match opcode with
  | SandstormCommitRpc =>
      '(s, n) ← push_recv_commit (push_station k) n packet curr;
      Ret (mkPushClient c s n (push_control k) (ord k), true)
  | _ =>
      '(s, n, sig) ←
        match opcode with
        | SandstormInvokeRpc => push_recv_invoke c (push_station k) n packet curr
        | SandstormGetRpc => push_recv_get c (push_station k) n packet
        | _ => Ret (push_free packet (push_station k), n, false)
        end;
      let signal := signal || sig in
      '(ctl, net) ← push_run_loops (push_loops c) (push_control k) n signal (push_link s).2;
      Ret (mkPushClient c (push_with_link s ((push_link s).1, net)) n ctl (ord k), signal)
  end.

(** [packets.pop()] takes the batch from its end. *)
Definition push_recv (k : PushClient) : outcome PushClient :=
  if decide (push_finished (push_counts k) = true ∧ push_stop (push_counts k) > 0) then Ret k
  else
    let s := push_station k in
    '(rc, net, packets) ← recv_res (push_receiver s) (push_link s).2;
    let s := mkPushStation ((push_link s).1, net) rc (push_manager s) (push_workload s)
               (payload_pushback s) (payload_put s) (native_state s) in
    let k := mkPushClient (push_conf k) s (push_counts k) (push_control k) (ord k) in
    k ← match packets with
        | Some packets =>
            let (curr, net) := rdtsc (push_link s).2 in
            let k := mkPushClient (push_conf k) (push_with_link s ((push_link s).1, net))
                       (push_counts k) (push_control k) (ord k) in
            '(k, _) ← ofold (push_recv_packet curr) (k, false) (rev packets);
            Ret k
        | None => Ret k
        end;
    let n := push_counts k in
    if decide (push_responses (push_conf k) <= push_recvd n) then
      let (now, net) := rdtsc (push_link (push_station k)).2 in
      Ret (mkPushClient (push_conf k)
             (push_with_link (push_station k) ((push_link (push_station k)).1, net))
             (mkPushCounts (push_recvd n) (counter_pushback n) (push_sent n) (push_outstanding n)
                (push_latencies n) true now)
             (push_control k) (ord k))
    else Ret k.

(** *** Executable::execute *)

Context (ext_gen : Extension → ProxyDB → G) (resume : Link → ProxyDB → G → ClientStep Link G).

Definition push_execute_one (k : PushClient) : outcome PushClient :=
  let s := push_station k in
  let (start, net) := rdtsc (push_link s).2 in
  let (stop, net) := rdtsc net in
  '(w, m, _) ← execute_task ext_gen resume ((push_link s).1, net) (push_manager s) start stop;
  Ret (mkPushClient (push_conf k) (push_with_manager (push_with_link s w) m) (push_counts k)
         (push_control k) (ord k)).

(** As many tasks as requests may be outstanding. *)
Definition push_execute (k : PushClient) : outcome PushClient :=
  k ← push_send k;
  k ← push_recv k;
  ofold (λ k _, push_execute_one k) k (seq 0 (Z.to_nat (f32_to 64 (max_out (push_control k))))).
End push.
