(* ===== verification/PushSpecs.v ===== *)
(** * PushSpecs: a chain of gets, followed by the client or by the server

    The pushback workload reads a chain of records, each of which names the
    next.  Whether the extension follows it on the server or the client follows
    it with one request per record, the transaction is the same.  The client's
    controllers keep the invariants of file [KayakSpecs]. *)

From S2P Require Import Prelude Packed Headers Packet Wire Rpc Alloc Tx Table Store Handlers.
From S2P Require Import HandlerSpecs CommitSpecs Bufs Context ContextSpecs Ext Task Dispatch.
From S2P Require Import DispatchSpecs Proxy Client DB DBSpecs Programs ExtSpecs Float.
From S2P Require Import Kayak KayakSpecs PushClient.

(** ** Chains *)

(** The key that a value names, in its first thirty bytes. *)
Definition next_key (v : bytes) : bytes := take 30 v.

(** Records that lead from one to the next, from [key] on.  Only four bytes of
    the key may change along the chain. *)
Fixpoint chained (key : bytes) (rs : list found) : Prop :=
  match rs with
  | [] => True
  | (k, (_, v)) :: rest =>
      k = key ∧ (rest ≠ [] → drop 4 (next_key v) = drop 4 key ∧ chained (next_key v) rest)
  end.

(** Records of the length that the client works with. *)
Definition sized (vlen : Z) (r : found) : Prop := len r.1 = 30 ∧ len r.2.2 = vlen.

Definition last_value (rs : list found) : bytes := default [] ((λ r : found, r.2.2) <$> last rs).

(** The extension overwrites four bytes of its key. *)
Lemma overwrite_key key v :
  len key = 30 → 30 ≤ len v → drop 4 (next_key v) = drop 4 key →
  (next ← slice v 0 4; copy_from_slice key 0 4 next) = Ret (next_key v).
Proof.
  intros Hk Hv Hd. unfold slice. rewrite decide_True by lia. cbn [mbind outcome_bind].
  change (Z.to_nat (4 - 0)) with 4%nat. change (drop (Z.to_nat 0) v) with v.
  assert (length v >= 30)%nat as Hl by (unfold len in Hv; lia).
  assert (len (take 4 v) = 4) as Ht by (unfold len; rewrite length_take; lia).
  unfold copy_from_slice. rewrite decide_True by lia. f_equal.
  change (take (Z.to_nat 0) key) with (@nil Z). change (Z.to_nat 4) with 4%nat.
  rewrite app_nil_l, <- Hd. unfold next_key.
  transitivity (take 4 (take 30 v) ++ drop 4 (take 30 v)); [|apply take_drop].
  by rewrite take_take.
Qed.

Lemma len_next_key v : 30 ≤ len v → len (next_key v) = 30.
Proof. unfold len, next_key. rewrite length_take. lia. Qed.

Lemma len_cons {A} (x : A) l : len (x :: l) = 1 + len l.
Proof. unfold len. cbn [length]. lia. Qed.

(** ** The native state *)

Section native.
Context (vlen : Z) (Hvlen : 30 ≤ vlen).

Definition read_of (r : found) : RwRecord := read_rec r.2.1 r.1 r.2.2.

Definition kv_of (r : found) : KV := mkKV (le_bytes 8 r.2.1) r.1 r.2.2.

(** After the records [rs] of a chain. *)
Definition native_after (rs : list found) : PushbackState :=
  mkPushbackState (len rs + 1) (concat (encode_record <$> (read_of <$> rs))) (kv_of <$> rs).

Lemma split_encoded r :
  split_at (encode_record (read_of r)) 1 =
    Ret ([OpType_u8 SandstormRead], le_bytes 8 r.2.1 ++ r.1 ++ r.2.2).
Proof. exact (split_at_app [OpType_u8 SandstormRead] _ 1 eq_refl). Qed.

Lemma native_update_record st r :
  sized vlen r →
  native_update_rwset st (encode_record (read_of r)) 30 =
    Ret (mkPushbackState (op_num st) (commit_payload st ++ encode_record (read_of r))
           (readset st ++ [kv_of r])).
Proof.
  intros [Hk Hv]. unfold native_update_rwset. rewrite split_encoded.
  cbn [mbind outcome_bind]. unfold split_kv.
  rewrite split_at_app by by rewrite len_le_bytes. cbn [mbind outcome_bind].
  by rewrite split_at_app by by cbn.
Qed.

(** Values are determined by their keys. *)
Definition functional (rs : list found) : Prop :=
  ∀ r1 r2, r1 ∈ rs → r2 ∈ rs → r1.1 = r2.1 → r1.2.2 = r2.2.2.

Lemma search_key_finds rs r n p :
  functional rs → r ∈ rs →
  search_key (mkPushbackState n p (kv_of <$> rs)) r.1 = Some (mkReadBuf r.2.2).
Proof.
  intros Hf Hr. unfold search_key. cbn [readset].
  destruct (list_find (λ kv, kv_key kv = r.1) (kv_of <$> rs)) as [[i kv]|] eqn:E.
  - apply list_find_Some in E as (Hi & Hkv & _).
    apply list_lookup_fmap_Some in Hi as (r' & -> & Hi). apply list_elem_of_lookup_2 in Hi.
    cbn in *. do 2 f_equal. by apply Hf.
  - exfalso. apply list_find_None in E. rewrite Forall_fmap, Forall_forall in E.
    by apply (E r Hr).
Qed.

(** The client finds its own chain. *)
Lemma native_lookups_chain rs st rs' i number key :
  functional rs → readset st = kv_of <$> rs → rs' ⊆ rs → Forall (sized vlen) rs' →
  in_width 32 number → 1 ≤ number → 0 ≤ i → i + len rs' = number → len key = 30 →
  chained key rs' →
  native_lookups (length rs') i number st key = Ret 0.
Proof.
  intros Hf Hst. revert i key. induction rs' as [|[k [ver v]] rs' IH]; intros i key Hsub Hsz Hn Hn1 Hi Hl Hk Hc; [done|].
  destruct Hc as [-> Hc]. apply Forall_cons in Hsz as [[_ Hv] Hsz]. cbn [fst snd] in Hv.
  destruct st as [n p rset]. cbn [readset] in Hst. subst rset.
  assert ((key, (ver, v)) ∈ rs) as Hin by (apply Hsub; by left).
  pose proof (search_key_finds rs (key, (ver, v)) n p Hf Hin) as Hs. cbn [fst snd] in Hs.
  assert (wsub 32 number 1 = number - 1) as Hw by (apply wsub_id; unfold in_width in *; lia).
  unfold len in Hl. cbn [length] in *. cbn [native_lookups]. rewrite Hs, Hw. cbn [rb_read rb_inner].
  destruct rs' as [|r2 rs'].
  - cbn [length] in *. rewrite decide_True by lia.
    destruct v as [|b v]; [unfold len in *; cbn in *; lia|]. done.
  - cbn [length] in Hl. rewrite decide_False by lia. destruct Hc as [Hd Hc]; [done|].
    pose proof (overwrite_key key v Hk) as Ho. unfold rb_read. cbn [rb_inner].
    destruct (slice v 0 4) as [nx| |]; cbn [mbind outcome_bind] in Ho |- *;
      [|discriminate Ho; (done || lia)..].
    rewrite Ho by (done || lia). cbn [mbind outcome_bind].
    apply IH; try done; [|lia|unfold len; cbn [length]; lia|apply len_next_key; lia].
    intros r Hr. apply Hsub. by right.
Qed.

Lemma native_execute_chain st rs r0 rest :
  rs = r0 :: rest → readset st = kv_of <$> rs → functional rs → Forall (sized vlen) rs →
  chained r0.1 rs → len rs < 2 ^ 32 → native_execute_task st (len rs) = Ret tt.
Proof.
  intros -> Hst Hf Hsz Hc Hl. unfold native_execute_task, native_generator. rewrite Hst.
  change (index (kv_of <$> r0 :: rest) 0) with (Ret (kv_of r0)).
  cbn [mbind outcome_bind]. unfold len at 1. rewrite Nat2Z.id.
  pose proof (len_nonneg rest). assert (len (r0 :: rest) = 1 + len rest) as Hlr
    by (unfold len; cbn [length]; lia).
  apply Forall_cons in Hsz as Hr0. destruct Hr0 as [[Hk _] _].
  rewrite (native_lookups_chain (r0 :: rest) st) by (done || unfold in_width; lia).
  done.
Qed.

(** A record that is not the last: the client asks for the next one. *)
Lemma native_next_more pre r n :
  sized vlen r → len pre + 1 < n → n < 256 →
  native_next n 30 (native_after pre) (encode_record (read_of r)) =
    Ret (native_after (pre ++ [r]), NextGet (next_key r.2.2)).
Proof.
  intros Hr Hl Hn. pose proof (len_nonneg pre). unfold native_next.
  rewrite native_update_record by done. cbn [mbind outcome_bind op_num native_after].
  unfold wrap. rewrite Z.mod_small by lia. rewrite decide_False by lia.
  assert (parse_record_optype (encode_record (read_of r)) = Ret SandstormRead) as Hop
    by exact (parse_optype_u8 SandstormRead _).
  rewrite Hop, split_encoded. cbn [mbind outcome_bind]. destruct Hr as [Hk Hv].
  rewrite split_at_app by by rewrite len_le_bytes. cbn [mbind outcome_bind].
  rewrite split_at_app by by cbn. cbn [mbind outcome_bind rec_object read_of read_rec].
  unfold slice. rewrite decide_True by lia. cbn [mbind outcome_bind]. unfold native_after.
  rewrite len_app, !fmap_app, concat_app. cbn [fmap list_fmap concat commit_payload readset].
  rewrite app_nil_r. change (len [r]) with 1. rewrite wadd_id by (unfold in_width; lia). done.
Qed.

(** The last record: the client commits all of them. *)
Lemma native_next_last pre r r0 rest :
  pre ++ [r] = r0 :: rest → functional (pre ++ [r]) → Forall (sized vlen) (pre ++ [r]) →
  chained r0.1 (pre ++ [r]) → len pre + 1 < 256 →
  native_next (len pre + 1) 30 (native_after pre) (encode_record (read_of r)) =
    Ret (mkPushbackState (len pre + 1) (concat (encode_record <$> (read_of <$> (pre ++ [r]))))
           (kv_of <$> (pre ++ [r])),
         NextCommit (concat (encode_record <$> (read_of <$> (pre ++ [r]))))).
Proof.
  intros He Hf Hsz Hc Hn. pose proof (len_nonneg pre). unfold native_next.
  rewrite native_update_record; [|by apply Forall_app in Hsz as [_ [Hr _]%Forall_cons]].
  cbn [mbind outcome_bind op_num native_after].
  unfold wrap. rewrite Z.mod_small by lia. rewrite decide_True by lia.
  cbn [commit_payload readset native_after].
  rewrite !fmap_app, concat_app. cbn [fmap list_fmap concat]. rewrite app_nil_r.
  change (len pre + 1) with (len pre + len [r]) at 3.
  rewrite <- len_app, (native_execute_chain _ (pre ++ [r]) r0 rest); try done.
  - cbn [readset]. by rewrite fmap_app.
  - rewrite len_app. change (len [r]) with 1. lia.
Qed.

(** A client that follows a chain: [reply] is the payload of the response to a
    get of a key. *)
Fixpoint native_dialogue (reply : bytes → bytes) (fuel : nat) (number key_len : Z)
    (st : PushbackState) (key : bytes) : outcome (option bytes) :=
  match fuel with
  | O => Ret None
  | S fuel =>
      '(st, next) ← native_next number key_len st (reply key);
      match next with
      | NextGet key => native_dialogue reply fuel number key_len st key
      | NextCommit payload => Ret (Some payload)
      | NextNone => Ret None
      end
  end.

Lemma native_dialogue_chain reply rs r0 rest pre rs' key :
  rs = r0 :: rest → functional rs → Forall (sized vlen) rs → chained r0.1 rs → len rs < 256 →
  Forall (λ r, reply r.1 = encode_record (read_of r)) rs →
  rs = pre ++ rs' → rs' ≠ [] → chained key rs' →
  native_dialogue reply (length rs') (len rs) 30 (native_after pre) key =
    Ret (Some (concat (encode_record <$> (read_of <$> rs)))).
Proof.
  intros Hrs Hf Hsz Hch Hl Hreply. revert pre key.
  induction rs' as [|[k [ver v]] rs' IH]; intros pre key Hpre Hne Hc; [done|]. destruct Hc as [-> Hc].
  set (r := (key, (ver, v)) : found) in *. cbn [length native_dialogue].
  assert (r ∈ rs) as Hin by (rewrite Hpre; apply elem_of_app; right; by left).
  rewrite Forall_forall in Hreply. pose proof (Hreply r Hin) as Hr. cbn [fst r] in Hr. rewrite Hr.
  assert (sized vlen r) as Hsr by (rewrite Forall_forall in Hsz; by apply Hsz).
  pose proof (len_nonneg pre). pose proof (len_nonneg rs').
  assert (len rs = len pre + 1 + len rs') as Hlen
    by (rewrite Hpre, len_app; unfold len; cbn [length]; lia).
  destruct rs' as [|r2 rs'].
  - assert (len rs = len pre + 1) as Hl1 by (rewrite Hlen; unfold len; cbn [length]; lia).
    pose proof (native_next_last pre r r0 rest) as Hx. rewrite <- Hpre in Hx.
    rewrite Hl1, Hx by (done || lia). done.
  - unfold len in Hlen at 3. cbn [length] in Hlen.
    rewrite native_next_more by (done || lia). cbn [mbind outcome_bind].
    destruct Hc as [_ Hc]; [done|]. apply IH; [by rewrite <- (assoc_L (++))|done|exact Hc].
Qed.
End native.

(** ** The extension on the server *)

Section server.
Context `{BytesCrateLaws} (tsc : nat → Z).
#[local] Hint Extern 0 (DB ServerDB) => exact (server_db tsc) : typeclass_instances.

(** What lookups leave alone, and the reads they record. *)
Record after_reads (d d' : ServerDB) (rs : list found) : Prop := {
  ar_store : sv_store d' = sv_store d;
  ar_frame : same_frame (sv_ctx d) (sv_ctx d');
  ar_response : response (sv_ctx d') = response (sv_ctx d);
  ar_tx : ctx_tx (sv_ctx d') = foldl tx_add (ctx_tx (sv_ctx d)) (read_of <$> rs);
}.

Lemma server_get d t k ver v :
  sv_holds d t k ver v →
  ∃ d', db_get t k d = (d', Ret (Some (mkReadBuf v))) ∧ after_reads d d' [(k, (ver, v))].
Proof.
  intros (l & tb & e & Hl & Ht & Hg & Hr & Hver). eexists. split.
  - apply sv_call_ret. unfold ctx_get, sv_tenant, table_at in *. rewrite Hl, Ht. cbn.
    rewrite Hg. cbn. rewrite Hr. cbn. done.
  - split; [done|by split|done|]. cbn. by rewrite Hver.
Qed.

Lemma after_reads_holds d d' rs t k ver v :
  after_reads d d' rs → sv_holds d t k ver v → sv_holds d' t k ver v.
Proof. intros [Hs [_ _ _ Ht] _ _]. unfold sv_holds, sv_tenant. by rewrite Hs, Ht. Qed.

Lemma after_reads_app d d1 d2 rs1 rs2 :
  after_reads d d1 rs1 → after_reads d1 d2 rs2 → after_reads d d2 (rs1 ++ rs2).
Proof.
  intros [? [] ? Ht1] [? [] ? Ht2]. split; [congruence|split; congruence|congruence|].
  by rewrite Ht2, Ht1, fmap_app, foldl_app.
Qed.

(** The turns of the loop over a chain, in one go. *)
Lemma pb_lookups_chain vlen t num ord :
  30 ≤ vlen → in_width 32 num → 1 ≤ num →
  ∀ rs i key mul d, rs ≠ [] → chained key rs → Forall (sized vlen) rs → len key = 30 →
  Forall (λ r, sv_holds d t r.1 r.2.1 r.2.2) rs → 0 ≤ i → i + len rs = num →
  ∃ d' b, after_reads d d' rs ∧ index (last_value rs) 0 = Ret b ∧
    pb_lookups (length rs) i num ord t key mul d = pb_compute ord b d'.
Proof.
  intros Hvl Hn Hn1 rs. assert (wsub 32 num 1 = num - 1) as Hw by (apply wsub_id; unfold in_width in *; lia).
  induction rs as [|[k [ver v]] rs IH]; intros i key mul d Hne Hc Hsz Hk Hh Hi Hl; [done|].
  destruct Hc as [-> Hc]. apply Forall_cons in Hsz as [[_ Hv] Hsz]. apply Forall_cons in Hh as [Hh Hhs].
  cbn [fst snd] in *. destruct (server_get d t key ver v Hh) as (d1 & Hg & Ha).
  pose proof (len_nonneg rs). rewrite len_cons in Hl. cbn [length pb_lookups].
  assert (GET t key d = (d1, Ret (Some (Some (mkReadBuf v))))) as HG.
  { unfold GET. assert (db_search_get t key d = (d, Ret (true, false, None))) as Hsg by done.
    estep Hsg. unfold fmap, ext_fmap. by rewrite Hg. }
  estep HG. unfold pb_object. cbn [rb_read rb_inner]. rewrite Hw.
  destruct rs as [|r2 rs].
  - change (len []) with 0 in Hl. destruct v as [|b v]; [unfold len in Hv; cbn in Hv; lia|].
    exists d1, b. split_and!; [done|done|]. rewrite decide_True by lia. done.
  - rewrite len_cons in Hl. pose proof (len_nonneg rs). destruct Hc as [Hd Hc]; [done|].
    destruct (IH (i + 1) (next_key v) mul d1) as (d' & b & Ha' & Hb & He);
      [done|done|done|apply len_next_key; lia| |lia|rewrite len_cons; lia|].
    { eapply Forall_impl; [exact Hhs|]. intros. by eapply after_reads_holds. }
    exists d', b. split_and!; [by eapply (after_reads_app _ _ _ [(key, (ver, v))])|done|].
    rewrite decide_False by lia. rewrite <- He.
    pose proof (overwrite_key key v Hk ltac:(lia) Hd) as Ho.
    destruct (slice v 0 4) as [nx| |]; cbn [mbind outcome_bind] in Ho; [|done..].
    unfold rb_read. cbn [rb_inner].
    assert ((next ← lift (D := ServerDB) (Ret nx); keys ← lift (copy_from_slice key 0 4 next);
      mret (Some (inl keys : bytes + Z))) d1 = (d1, Ret (Some (inl (next_key v))))) as Hstep.
    { lstep. lstep. done. }
    estep Hstep. done.
Qed.

(** Others leave the context of the extension alone. *)
Definition private (env : nat → ServerDB → ServerDB) : Prop := ∀ i d, sv_ctx (env i d) = sv_ctx d.

Context (env : nat → ServerDB → ServerDB) (Henv : private env).
Context (ihdr : InvokeRequest) (name args extra : bytes) (rhdr : InvokeResponse) (out : bytes)
  (room : Z) (Hroom : 8 ≤ room).

Lemma server_resp_value d b :
  ctx_rep (sv_ctx d) ihdr name args extra rhdr out room → 
  ∃ d', db_resp (pack 8 b) d = (d', Ret tt) ∧ ctx_tx (sv_ctx d') = ctx_tx (sv_ctx d) ∧
    ctx_rep (sv_ctx d') ihdr name args extra rhdr (out ++ le_bytes 8 b) (room - 8).
Proof.
  intros [Hreq Ho Hl (rm & pre & tl & Hp & Htl)].
  destruct (add_fits (response (sv_ctx d)) rm pre rhdr out tl (le_bytes 8 b) Hp)
    as (p' & tl' & Ha & Hp' & Hl'); [done|apply le_bytes_is_bytes|by rewrite len_le_bytes, Htl|].
  rewrite len_le_bytes, Htl in Hl'.
  eexists. split; [|split].
  - apply sv_call_ret. unfold ctx_resp, pack. rewrite Ha. cbn. done.
  - done.
  - split; [done..|]. exists rm, pre, tl'. split; [exact Hp'|exact Hl'].
Qed.

(** The compute part ends after its yields with the response. *)
Lemma pb_loop_drive ord b i d :
  0 ≤ ord → ctx_rep (sv_ctx d) ihdr name args extra rhdr out room →
  ∃ d', drive ext_pushback env (S (loop_yields ord)) i (PbLoop ord b) d =
      (d', Ret (Some ((i + loop_yields ord)%nat, 0))) ∧ ctx_tx (sv_ctx d') = ctx_tx (sv_ctx d) ∧
    ctx_rep (sv_ctx d') ihdr name args extra rhdr (out ++ le_bytes 8 b) (room - 8).
Proof.
  intros Ho. remember (loop_yields ord) as n eqn:Hn. revert ord i d Ho Hn.
  induction n as [|n IH]; intros ord i d Ho Hn Hd.
  - destruct (server_resp_value d b Hd) as (d' & Hr & Ht & Hd'). exists d'. split_and!; [|done..].
    rewrite Nat.add_0_r. apply drive_return. cbn [ext_pushback]. unfold pb_loop.
    rewrite decide_True by (destruct (decide (ord <= 2000)); [done|];
      rewrite loop_yields_more in Hn by lia; lia).
    by rewrite (ebind _ _ _ _ _ Hr).
  - destruct (decide (ord <= 2000)); [rewrite loop_yields_done in Hn by lia; lia|].
    rewrite loop_yields_more in Hn by lia. injection Hn as Hn.
    destruct (IH (ord - 2000) (S i) (env i d)) as (d' & Hdr & Ht & Hd'); [lia|done|by rewrite Henv|].
    exists d'. rewrite Ht, Henv. split_and!; [|done..].
    erewrite drive_yield; [rewrite Hdr; do 4 f_equal; lia|].
    cbn [ext_pushback]. unfold pb_loop. by rewrite decide_False by done.
Qed.

(** A run whose lookups are done. *)
Lemma run_after_start d d1 ord b :
  in_width 32 ord → pb_start d = pb_compute ord b d1 →
  ctx_rep (sv_ctx d1) ihdr name args extra rhdr out room →
  ∃ d', drive ext_pushback env (S (ycsbt_yields ord)) 0 PbInit d =
      (d', Ret (Some (ycsbt_yields ord, 0))) ∧ ctx_tx (sv_ctx d') = ctx_tx (sv_ctx d1) ∧
    ctx_rep (sv_ctx d') ihdr name args extra rhdr (out ++ le_bytes 8 b) (room - 8).
Proof.
  intros Ho Hst Hd. unfold ycsbt_yields, pb_compute, in_width in *. destruct (decide (ord >= 600)).
  - destruct (pb_loop_drive (ord - 600) b 1 (env 0%nat d1)) as (d' & Hdr & Ht & Hd');
      [lia|by rewrite Henv|]. exists d'. rewrite Ht, Henv. split_and!; [|done..].
    erewrite drive_yield; [exact Hdr|exact Hst].
  - destruct (server_resp_value d1 b Hd) as (d' & Hr & Ht & Hd'). exists d'. split_and!; [|done..].
    apply drive_return. cbn [ext_pushback]. rewrite Hst. unfold pb_loop.
    rewrite decide_True by lia. by rewrite (ebind _ _ _ _ _ Hr).
Qed.
End server.

(** What the arguments of an invocation are. *)
Definition push_args (t number order : Z) (key : bytes) : bytes :=
  le_bytes 8 t ++ le_bytes 4 number ++ le_bytes 4 order ++ key.

Section equivalence.
Context `{BytesCrateLaws} (tsc : nat → Z).
#[local] Hint Extern 0 (DB ServerDB) => exact (server_db tsc) : typeclass_instances.

(** A store has one value per key. *)
Lemma holds_functional d t rs :
  Forall (λ r : found, sv_holds d t r.1 r.2.1 r.2.2) rs → functional rs.
Proof.
  rewrite Forall_forall. intros Hrs r1 r2 H1 H2 Hk.
  destruct (Hrs _ H1) as (l & tb & e & Hl & Ht & Hg & Hr & _).
  destruct (Hrs _ H2) as (l' & tb' & e' & Hl' & Ht' & Hg' & Hr' & _).
  rewrite Hk in Hg. assert (l' = l) as -> by congruence. assert (tb' = tb) as -> by congruence.
  assert (e' = e) as -> by congruence. congruence.
Qed.

(** A get of a record that fits is answered with the record. *)
Lemma get_reply_record d id t (r : found) vlen space :
  store_wf (sv_store d) → tenant_of (sv_store d) id = Some (sv_tenant d) →
  sized vlen r → sv_holds d t r.1 r.2.1 r.2.2 → 0 ≤ vlen → 39 + vlen ≤ space →
  record_wire 30 vlen (read_of r) ∧
  get_reply (store_find (sv_store d) id t r.1) space =
    (StatusOk, (encode_record (read_of r), space - (39 + vlen))).
Proof.
  intros Hs Htn [Hk Hv] Hh Hvl Hsp.
  destruct (holds_found d id t r.1 r.2.1 r.2.2) as (e & Hf & Hkv & Hver & Hw & Hkb & Hvb);
    [done|done|by intros E; rewrite E in Hk|done|].
  split; [split; done|]. rewrite Hf. cbn [get_reply]. rewrite Hkv, Hver.
  assert (len OPTYPE_READ = 1) as Ho by done.
  do 4 (rewrite try_add_fits by (rewrite ?len_le_bytes, ?Ho; lia); cbn [fst snd]).
  rewrite len_le_bytes, Ho, Hk, Hv, <- !(assoc_L (++)). do 2 f_equal. lia.
Qed.

Lemma pb_start_chain d t vlen rs r0 rest ord ihdr name extra rhdr out room :
  rs = r0 :: rest → chained r0.1 rs → Forall (sized vlen) rs → 30 ≤ vlen → len rs < 2 ^ 32 →
  in_width 64 t → in_width 32 ord →
  Forall (λ r : found, sv_holds d t r.1 r.2.1 r.2.2) rs →
  ctx_rep (sv_ctx d) ihdr name (push_args t (len rs) ord r0.1) extra rhdr out room →
  ∃ d' b, after_reads d d' rs ∧ index (last_value rs) 0 = Ret b ∧
    pb_start d = pb_compute ord b d'.
Proof.
  intros Hrs Hc Hsz Hvl Hl Ht Ho Hh Hd. unfold pb_start.
  pose proof (ctx_args_spec _ _ _ _ _ _ _ _ Hd) as Hargs.
  pose proof (@db_args_law _ _ _ _ (server_laws tsc) d _ Hargs) as Ha. estep Ha.
  assert (len r0.1 = 30) as Hk by (subst rs; by apply Forall_cons in Hsz as [[Hk _] _]).
  pose proof (len_nonneg rest). assert (1 ≤ len rs) as Hl1 by (subst rs; rewrite len_cons; lia).
  rewrite decide_False by (unfold push_args; rewrite !len_app, !len_le_bytes, Hk; lia).
  unfold push_args.
  pose proof (split_at_app (le_bytes 8 t) (le_bytes 4 (len rs) ++ le_bytes 4 ord ++ r0.1) 8 eq_refl) as H8.
  lstep.
  pose proof (split_at_app (le_bytes 4 (len rs)) (le_bytes 4 ord ++ r0.1) 4 eq_refl) as H4. lstep.
  pose proof (split_at_app (le_bytes 4 ord) r0.1 4 eq_refl) as H4'. lstep.
  rewrite !or_le by (done || unfold in_width; lia).
  replace (Z.to_nat (len rs)) with (length rs) by (unfold len; lia).
  apply (pb_lookups_chain tsc vlen); first [done|unfold in_width; lia|by subst].
Qed.

(** C9: following a chain on the client is following it on the server.  Take
    records of one table, each of which names the next in the first bytes of
    its value.  If the extension pushback is invoked for the first of them, it
    ends after its yields with 0, answers the first byte of the last value, and
    leaves the reads it recorded to [commit].  If instead the client asks for
    the records one by one, every reply being the server's answer to a get, it
    asks for exactly these records, and the records that the server decodes from
    its commit request are the same reads, with the same versions. *)
Theorem client_chain_is_server_chain (env : nat → ServerDB → ServerDB) (d : ServerDB) id t vlen rs r0
    rest ord space ihdr name extra rhdr out room :
  store_wf (sv_store d) → tenant_of (sv_store d) id = Some (sv_tenant d) →
  ctx_tx (sv_ctx d) = TX_new → private env →
  rs = r0 :: rest → chained r0.1 rs → Forall (sized vlen) rs → 30 ≤ vlen → len rs < 256 →
  Forall (λ r : found, sv_holds d t r.1 r.2.1 r.2.2) rs → in_width 64 t → in_width 32 ord →
  ctx_rep (sv_ctx d) ihdr name (push_args t (len rs) ord r0.1) extra rhdr out room → 8 ≤ room →
  39 + vlen ≤ space →
  let answer key := get_reply (store_find (sv_store d) id t key) space in
  ∃ d' b payload,
    drive ext_pushback env (S (ycsbt_yields ord)) 0 PbInit d = (d', Ret (Some (ycsbt_yields ord, 0))) ∧
    index (last_value rs) 0 = Ret b ∧
    ctx_rep (sv_ctx d') ihdr name (push_args t (len rs) ord r0.1) extra rhdr (out ++ le_bytes 8 b)
      (room - 8) ∧
    Forall (λ r : found, (answer r.1).1 = StatusOk) rs ∧
    native_dialogue (λ key, (answer key).2.1) (length rs) (len rs) 30 PushbackState_new r0.1 =
      Ret (Some payload) ∧
    (chs ← chunks payload (1 + 8 + 30 + vlen); ofold (commit_record 30) TX_new chs) =
      Ret (ctx_tx (sv_ctx d')).
Proof.
  intros Hs Htn Htx Henv Hrs Hc Hsz Hvl Hl Hh Ht Ho Hd Hroom Hsp answer.
  destruct (pb_start_chain d t vlen rs r0 rest ord ihdr name extra rhdr out room)
    as (d1 & b & [_ [Hq1 Hq2 Hq3 _] Hres Htx1] & Hb & Hst); [done..|lia|done|done|done|done|].
  assert (ctx_rep (sv_ctx d1) ihdr name (push_args t (len rs) ord r0.1) extra rhdr out room) as Hd1.
  { destruct Hd as [? ? ? ?]. split; by rewrite ?Hq1, ?Hq2, ?Hq3, ?Hres. }
  assert (∃ d', drive ext_pushback env (S (ycsbt_yields ord)) 0 PbInit d =
      (d', Ret (Some (ycsbt_yields ord, 0))) ∧ ctx_tx (sv_ctx d') = ctx_tx (sv_ctx d1) ∧
    ctx_rep (sv_ctx d') ihdr name (push_args t (len rs) ord r0.1) extra rhdr (out ++ le_bytes 8 b)
      (room - 8)) as (d' & Hdrive & Htx' & Hd').
  { by apply (run_after_start tsc env). }
  assert (Forall (λ r, record_wire 30 vlen (read_of r) ∧ answer r.1 =
    (StatusOk, (encode_record (read_of r), space - (39 + vlen)))) rs) as Hans.
  { apply Forall_forall. intros r Hr. rewrite Forall_forall in Hsz, Hh.
    apply get_reply_record; [done|done|by apply Hsz|by apply Hh|lia|done]. }
  assert (Forall (record_wire 30 vlen) (read_of <$> rs)) as Hwire.
  { apply Forall_fmap. eapply Forall_impl; [exact Hans|]. by intros r []. }
  exists d', b, (concat (encode_record <$> (read_of <$> rs))). split_and!; [done..| | |].
  - eapply Forall_impl; [exact Hans|]. by intros r [_ ->].
  - apply (native_dialogue_chain vlen Hvl _ rs r0 rest []); try done.
    + by eapply holds_functional.
    + eapply Forall_impl; [exact Hans|]. by intros r [_ ->].
    + by subst.
  - rewrite (records_chunks 30 vlen) by (done || lia). cbn [mbind outcome_bind].
    rewrite (commit_records_encode 30 vlen) by done. by rewrite Htx', Htx1, Htx.
Qed.
End equivalence.

(** ** A concrete chain *)

(** Record 1 names record 2. *)
Definition chain_records : list found :=
  [(ex_key 1, (1, ex_key 2 ++ replicate 70 0)); (ex_key 2, (1, ex_value 9))].

Definition chain_tbl : Table :=
  bank_put (bank_put Table_default (ex_key 1) (ex_key 2 ++ replicate 70 0)) (ex_key 2) (ex_value 9).

Definition chain_store : Store :=
  ret_or Store_new
    (insert_tenant (mkStore [chain_tbl] (tenants Store_new))
       (create_table Store_new (Tenant_new 7) 3).2).

Lemma chain_store_wf : store_wf chain_store.
Proof.
  assert (table_ok chain_tbl) as Hb.
  { repeat apply bank_put_ok; try apply default_ok; try discriminate;
      apply (bool_decide_eq_true_1 _); by vm_compute. }
  destruct (insert_fresh_wf Store_new 7 3 chain_tbl Store_new_wf Hb (Store_new_tenant 7))
    as (s' & He & Hs & _).
  unfold chain_store. change [chain_tbl] with (heap Store_new ++ [chain_tbl]). by rewrite He.
Qed.

Definition chain_request : ClientRequest :=
  CInvoke 7 8 (pushback_name ++ push_args 3 2 700 (ex_key 1)) 95.

Definition chain_ctx : Context :=
  Context_new
    (ret_or (create_packet ex_mbuf 0 0) (parse_header InvokeRequest (ex_req chain_request))) 8 46
    (response ex_ctx) (create_table Store_new (Tenant_new 7) 3).2.

Definition chain_db : ServerDB := mkServerDB chain_store chain_ctx 0.

Lemma chain_ctx_rep :
  ctx_rep chain_ctx (InvokeRequest_new 7 8 46 95) pushback_name (push_args 3 2 700 (ex_key 1)) []
    (InvokeResponse_new 95 SandstormInvokeRpc 7) [] 144.
Proof.
  assert (cr_ok chain_request) as Hok.
  { split; [discriminate|]. split; [apply (bool_decide_eq_true_1 _); by vm_compute|].
    split_and!; by vm_compute. }
  destruct (ex_req_carries chain_request Hok) as [sp Hreq]; [by vm_compute|].
  assert (packed_ok (InvokeRequest_new 7 8 46 95)) as Hi
    by (apply (bool_decide_eq_true_1 _); by vm_compute).
  destruct (carries_parse _ (InvokeRequest_new 7 8 46 95) _ _ Hreq Hi)
    as (p & rm & pre & u & tl & Hparse & Hp & _).
  pose proof (cr_response _ _ _ _ _ _ _ _ ex_ctx_rep) as Hres. split; [|done|done|exact Hres].
  exists rm, (pre ++ encode u), tl. unfold chain_ctx. rewrite Hparse. exact Hp.
Qed.

Lemma chain_holds : Forall (λ r : found, sv_holds chain_db 3 r.1 r.2.1 r.2.2) chain_records.
Proof.
  assert (∀ k v, table_get chain_tbl k = Ret (Some (mkEntry 1 (obj_layout 7 3 k v))) →
    resolve (obj_layout 7 3 k v) = Ret (Some (k, v)) → sv_holds chain_db 3 k 1 v) as Hh.
  { intros k v Hg Hr. by exists 0%nat, chain_tbl, (mkEntry 1 (obj_layout 7 3 k v)). }
  repeat (apply Forall_cons; split); [| |done]; apply Hh; by vm_compute.
Qed.

Lemma client_chain_is_server_chain_witness :
  let b := exact_bytes in
  let db := @server_db b (λ _, 0) in
  let answer key := get_reply (store_find (sv_store chain_db) 7 3 key) 1000 in
  ∃ d' b payload,
    drive ext_pushback (λ _ d, d) (S (ycsbt_yields 700)) 0 PbInit chain_db =
      (d', Ret (Some (ycsbt_yields 700, 0))) ∧
    index (last_value chain_records) 0 = Ret b ∧
    ctx_rep (sv_ctx d') (InvokeRequest_new 7 8 46 95) pushback_name (push_args 3 2 700 (ex_key 1)) []
      (InvokeResponse_new 95 SandstormInvokeRpc 7) ([] ++ le_bytes 8 b) (144 - 8) ∧
    Forall (λ r : found, (answer r.1).1 = StatusOk) chain_records ∧
    native_dialogue (λ key, (answer key).2.1) 2 2 30 PushbackState_new (ex_key 1) = Ret (Some payload) ∧
    (chs ← chunks payload (1 + 8 + 30 + 100); ofold (commit_record 30) TX_new chs) =
      Ret (ctx_tx (sv_ctx d')).
Proof.
  intros b db answer.
  apply (@client_chain_is_server_chain exact_bytes exact_bytes_laws (λ _, 0) (λ _ d, d) chain_db 7 3 100
    chain_records (ex_key 1, (1, ex_key 2 ++ replicate 70 0)) [(ex_key 2, (1, ex_value 9))] 700 1000
    (InvokeRequest_new 7 8 46 95) pushback_name [] (InvokeResponse_new 95 SandstormInvokeRpc 7) [] 144);
    try (unfold in_width; lia); try apply chain_store_wf; try apply chain_ctx_rep; try apply chain_holds;
    try reflexivity.
  - by intros i d.
  - split; [done|]. intros _. split; [done|]. split; [done|]. by intros [].
  - repeat (constructor; [by split|]). done.
Defined.

(** ** The client *)

Section client.
Context `{Network} `{Loader} `{Orders} {G : Type}.
Context (ext_gen : Extension → ProxyDB → G) (resume : Link → ProxyDB → G → ClientStep Link G).
Implicit Types (k : @PushClient _ _ _ _ G) (s : @PushStation _ _ _ _ G).

(** What a turn of the sending loop leaves alone, and what it counts. *)
Record push_sent_one k k' : Prop := {
  pso_conf : push_conf k' = push_conf k;
  pso_control : push_control k' = push_control k;
  pso_ready : tm_ready (push_manager (push_station k')) = tm_ready (push_manager (push_station k));
  pso_outstanding : push_outstanding (push_counts k') = push_outstanding (push_counts k) +u64 1;
  pso_latencies : push_latencies (push_counts k') = push_latencies (push_counts k);
}.

Lemma push_send_one_counts k k' : push_send_one k = Ret k' → push_sent_one k k'.
Proof.
  unfold push_send_one. destruct (rdtsc _) as [t net]. destruct (gen_u32 _) as [r rng].
  destruct (push_abc _) as [[y op]| |]; cbn [mbind outcome_bind]; [|done..].
  set (s := mkPushStation _ _ _ _ _ _ _).
  match goal with |- (?m ≫= _) = _ → _ => assert (∀ s', m = Ret s' →
    tm_ready (push_manager s') = tm_ready (push_manager s)) as Hm; [|
    destruct m as [s'| |]; cbn [mbind outcome_bind]; [|done..]; specialize (Hm s' eq_refl)] end.
  - intros s'. destruct (bool_decide _).
    + unfold push_send_native. intros ?. by inv_outcome.
    + unfold push_send_invocation. intros ?. destruct op; inv_outcome; cbn; by eapply create_task_ready.
  - intros [= <-]. by split.
Qed.

Definition push_window_room k : nat :=
  room_below (f32_to 64 (max_out (push_control k))) (get_queue_len (push_manager (push_station k)))
    (push_outstanding (push_counts k)).

(** The sending loop ends: its fuel is enough. *)
Lemma push_send_loop_turns fuel k :
  in_width 64 (push_outstanding (push_counts k)) → (push_send_fuel k ≤ fuel)%nat →
  push_send_loop fuel k = ofold (λ k _, push_send_one k) k (seq 0 (push_window_room k)).
Proof.
  intros Ho Hf. unfold push_send_loop.
  apply (while_loop_turns push_may_send push_send_one
    (λ k, in_width 64 (push_outstanding (push_counts k)))).
  - intros. apply room_below_guard.
  - intros k1 k2 Ho1 Hr E. apply push_send_one_counts in E as [_ Hl Hr2 Ho2 _].
    unfold push_window_room, get_queue_len in *. rewrite Hl, Hr2, Ho2. split; [by apply wrap_range|].
    apply room_below_step; auto. apply f32_to_range. lia.
  - done.
  - unfold push_send_fuel, push_window_room, room_below in *. case_decide; lia.
Qed.

(** *** What a run preserves *)

Section invariant.
Context (cfg : LoopConfig) (Q : Controller → Prop) (HQ : loop_invariant cfg Q).

Record push_steady k : Prop := {
  pst_loops : push_loops (push_conf k) = cfg;
  pst_latencies : Forall (in_width 64) (push_latencies (push_counts k));
  pst_control : Q (push_control k);
}.

Lemma push_run_loops_inv c n sig net c' net' :
  Q c → Forall (in_width 64) (push_latencies n) → push_run_loops cfg c n sig net = Ret (c', net') → Q c'.
Proof.
  intros Hc Hl. unfold push_run_loops.
  destruct (measure_kth c (push_latencies n)) as [c1| |] eqn:Hm; cbn [mbind outcome_bind]; [|done..].
  apply (measure_kth_inv cfg Q HQ) in Hm; [|done..].
  destruct (rdtsc net) as [t1 net1]. destruct (rdtsc net1) as [t2 net2]. intros [= <- <-].
  destruct sig; [|done]. by apply (li_xloop _ _ HQ), (li_rloop _ _ HQ).
Qed.

Definition push_latencies_kept (n n' : PushCounts) : Prop :=
  Forall (in_width 64) (push_latencies n) → Forall (in_width 64) (push_latencies n').

Lemma push_count_recvd_kept n a b : push_latencies_kept n (push_count_recvd n [a -u64 b]).
Proof.
  intros Hl. cbn. apply Forall_app. split; [done|]. constructor; [by apply wrap_range|done].
Qed.

Lemma push_count_none_kept n : push_latencies_kept n (push_count_recvd n []).
Proof. intros Hl. cbn. by rewrite app_nil_r. Qed.

Lemma push_recv_commit_kept s n p t s' n' :
  push_recv_commit s n p t = Ret (s', n') → push_latencies_kept n n'.
Proof.
  unfold push_recv_commit. intros. inv_outcome. repeat case_decide; simplify_eq/=;
    first [by apply push_count_recvd_kept|by apply push_count_none_kept].
Qed.

Lemma push_recv_invoke_kept c s n p t s' n' sig :
  push_recv_invoke c s n p t = Ret (s', n', sig) → push_latencies_kept n n'.
Proof.
  unfold push_recv_invoke. intros. inv_outcome. repeat case_decide; inv_outcome; simplify_eq/=;
    first [by apply push_count_recvd_kept|by intros ?].
Qed.

Lemma push_recv_get_kept c s n p s' n' sig :
  push_recv_get c s n p = Ret (s', n', sig) → push_latencies_kept n n'.
Proof.
  unfold push_recv_get. intros. inv_outcome.
  repeat case_match; inv_outcome; repeat case_match; inv_outcome; by intros ?.
Qed.

Lemma push_recv_packet_steady t k sig p k' sig' :
  push_steady k → push_recv_packet t (k, sig) p = Ret (k', sig') → push_steady k'.
Proof.
  intros [Hc Hl Hq]. unfold push_recv_packet.
  destruct (parse_rpc_opcode p) as [op| |]; cbn [mbind outcome_bind]; [|done..]. intros Hr.
  destruct (decide (op = SandstormCommitRpc)) as [->|Hop].
  { destruct (push_recv_commit _ _ _ _) as [[s n]| |] eqn:E; cbn [mbind outcome_bind] in Hr; [|done..].
    simplify_eq. split; [done| |done]. cbn. by eapply push_recv_commit_kept. }
  assert (∃ s n g, push_latencies_kept (push_counts k) n ∧
    ('(ctl, net) ← push_run_loops (push_loops (push_conf k)) (push_control k) n (sig || g)
        (push_link s).2;
     Ret (mkPushClient (push_conf k) (push_with_link s ((push_link s).1, net)) n ctl (ord k),
          sig || g)) = Ret (k', sig')) as (s & n & g & Hk & Hr').
  { destruct op; try done.
    all: match type of Hr with (?m ≫= _) = _ => destruct m as [[[s n] g]| |] eqn:E end;
      cbn [mbind outcome_bind] in Hr; [|done..]; exists s, n, g; (split; [|exact Hr]).
    all: first [by eapply push_recv_invoke_kept|by eapply push_recv_get_kept|idtac].
    all: inv_outcome; by intros ?. }
  rewrite Hc in Hr'.
  destruct (push_run_loops cfg (push_control k) n (sig || g) (push_link s).2) as [[c net]| |] eqn:E;
    cbn [mbind outcome_bind] in Hr'; [|done..]. simplify_eq.
  split; [done|by apply Hk|]. cbn. eapply push_run_loops_inv; [done| |done]. by apply Hk.
Qed.

Lemma push_recv_steady k k' : push_steady k → push_recv k = Ret k' → push_steady k'.
Proof.
  intros Hk. unfold push_recv. case_decide; [by intros [= <-]|].
  destruct (recv_res _ _) as [[[rc net] pk]| |]; cbn [mbind outcome_bind]; [|done..].
  match goal with |- (?m ≫= ?f) = _ → _ => assert (∀ k1, m = Ret k1 → push_steady k1) as Hm; [|
    destruct m as [k1| |]; cbn [mbind outcome_bind]; [|done..]; specialize (Hm k1 eq_refl)] end.
  - intros k1. destruct pk as [pk|]; [|intros [= <-]; by destruct Hk].
    destruct (rdtsc net) as [t net'] eqn:Et. cbn [push_link snd fst]. rewrite Et.
    match goal with |- (ofold ?f (?k0, false) ?l ≫= _) = _ → _ => assert (push_steady k0) as Hk0;
      [by destruct Hk|destruct (ofold f (k0, false) l) as [[k2 g]| |] eqn:E] end;
      cbn [mbind outcome_bind]; [|done..].
    intros [= <-]. refine (ofold_inv (λ st, push_steady st.1) _ _ _ _ _ _ E); [|done].
    intros [a b] p [a' b'] Ha Hp. by eapply push_recv_packet_steady.
  - case_decide; [|by intros [= <-]]. destruct (rdtsc _). intros [= <-]. by destruct Hm.
Qed.

Lemma push_send_steady k k' : push_steady k → push_send k = Ret k' → push_steady k'.
Proof.
  intros Hk. unfold push_send. case_decide; [by intros [= <-]|].
  destruct (switch_order k) as [k1| |] eqn:E; cbn [mbind outcome_bind]; [|done..].
  assert (push_steady k1) as Hk1.
  { unfold switch_order in E. destruct (is_bimodal _); [|by simplify_eq]. destruct (rdtsc _).
    inv_outcome. by destruct Hk. }
  apply while_loop_inv; [|done]. intros k2 k3 Hk2 E3. apply push_send_one_counts in E3 as [].
  destruct Hk2. by split; congruence.
Qed.

Lemma push_execute_steady k k' :
  push_steady k → push_execute ext_gen resume k = Ret k' → push_steady k'.
Proof.
  intros Hk. unfold push_execute.
  destruct (push_send k) as [k1| |] eqn:E1; cbn [mbind outcome_bind]; [|done..].
  destruct (push_recv k1) as [k2| |] eqn:E2; cbn [mbind outcome_bind]; [|done..].
  assert (push_steady k2) as Hk2 by (by eapply push_recv_steady; [eapply push_send_steady|]).
  apply ofold_inv; [|done]. intros k3 _ k4 H3. unfold push_execute_one.
  destruct (rdtsc _) as [t net]. destruct (rdtsc net) as [t' net'].
  destruct (execute_task _ _ _ _ _ _) as [[[w m] r]| |]; cbn [mbind outcome_bind]; [|done..].
  intros [= <-]. by destruct H3.
Qed.

(** [n] times [execute]. *)
Definition push_rounds (n : nat) k : outcome PushClient :=
  ofold (λ k _, push_execute ext_gen resume k) k (seq 0 n).

Lemma push_rounds_steady n k k' : push_steady k → push_rounds n k = Ret k' → push_steady k'.
Proof. intros. by eapply (ofold_inv push_steady); [|done..]; intros; eapply push_execute_steady. Qed.
End invariant.

(** the controllers of the pushback client stay in bounds.  After any number
    of rounds the bias of its coin is a finite number between 0 and 100 and the
    limit on outstanding requests is a number of at least two, whatever it
    measured; and its sending loop always ends, after the turns that are missing
    to that limit. *)
Theorem push_controllers_bounded (w : Link) em rng key_rng tenant_rng order_rng cfg resps reqs key_len
    value_len number order order2 bimodal interval invoke_p max_out n k :
  (∀ l i, 0 ≤ i < len l → kth_smallest l i ∈ l) →
  in_width 64 (xloop_factor cfg) → in_width 64 (slo cfg) → 0 ≤ invoke_p ≤ 100 →
  2 ≤ max_out < 2 ^ 24 →
  push_rounds n (PushClient_new (G := G) w em rng key_rng tenant_rng order_rng cfg resps reqs key_len
    value_len number order order2 bimodal interval invoke_p max_out) = Ret k →
  f32_finite (ext_p (push_control k)) ∧ 0 ≤ sval (ext_p (push_control k)) ≤ 100 * unit_one ∧
  f32_number (Kayak.max_out (push_control k)) ∧ 2 ≤ f32_to 64 (Kayak.max_out (push_control k)) ∧
  (in_width 64 (push_outstanding (push_counts k)) → ∀ fuel, (push_send_fuel k ≤ fuel)%nat →
    push_send_loop fuel k = ofold (λ k _, push_send_one k) k (seq 0 (push_window_room k))).
Proof.
  intros Hkth Hx Hs Hp Hm Hk.
  assert (∀ Q : Controller → Prop,
    (∀ t1 t2, Q (mkController (f32_of invoke_p) (f32_of max_out) 0 0 t2 0 t1 (f32_of 0)
                   (f32_div (f32_of 101) (f32_of 2)))) → loop_invariant cfg Q → Q (push_control k)) as Hinv.
  { intros Q Hnew HQ. eapply pst_control, (push_rounds_steady cfg Q HQ); [|exact Hk].
    unfold PushClient_new. destruct (rdtsc w.2) as [t0 net0].
    destruct (rdtsc net0) as [t1 net]. destruct (rdtsc net). split; [done|by constructor|apply Hnew]. }
  destruct (Hinv x_inv) as [[_ ? ?] _ _ _ _]; [intros; by apply x_inv_new|by apply x_inv_loop|].
  assert (r_inv (push_control k)) as Hr
    by (apply Hinv; [intros; by apply r_inv_new|by apply r_inv_loop]).
  split_and!; [done|lia|lia|apply (ow_number _ (ri_open _ Hr))|by apply r_inv_open|].
  intros. by apply push_send_loop_turns.
Qed.
End client.

(** *** A concrete client *)

Definition test_orders : @Orders test_workloads :=
  @Build_Orders test_workloads unit (λ o r, (r, o, r + 1)).

Abbreviation test_push :=
  (@PushClient_new test_net any_loader test_workloads test_orders unit ex_link
     (@ExtensionManager_new any_loader) 0 tt tt tt (mkLoopConfig 10000 100 10) 10 0 30 100 2 700 900
     true 1000 50 4).

Abbreviation test_push_rounds n :=
  (@push_rounds test_net any_loader test_workloads test_orders unit (λ _ _, tt) waiting_resume n test_push).

(** After two rounds. *)
Definition idle_push : @PushClient test_net any_loader test_workloads test_orders unit :=
  ret_or test_push (test_push_rounds 2).

Lemma push_controllers_bounded_witness :
  f32_finite (ext_p (push_control idle_push)) ∧ 0 ≤ sval (ext_p (push_control idle_push)) ≤ 100 * unit_one ∧
  f32_number (Kayak.max_out (push_control idle_push)) ∧
  2 ≤ f32_to 64 (Kayak.max_out (push_control idle_push)) ∧
  (in_width 64 (push_outstanding (push_counts idle_push)) → ∀ fuel, (push_send_fuel idle_push ≤ fuel)%nat →
    push_send_loop fuel idle_push =
      ofold (λ k _, push_send_one k) idle_push (seq 0 (push_window_room idle_push))).
Proof.
  apply (@push_controllers_bounded test_net any_loader test_workloads test_orders unit (λ _ _, tt)
    waiting_resume ex_link (@ExtensionManager_new any_loader) 0 tt tt tt (mkLoopConfig 10000 100 10)
    10 0 30 100 2 700 900 true 1000 50 4 2); [apply test_kth|by split|by split|lia|lia|].
  apply returns_ret. by vm_compute.
Defined.
