(* ===== verification/LoadSafety.v ===== *)
(** * LoadSafety: loading keeps the store well-formed

    Every workload loader, with any parameters, leaves a well-formed store if it
    returns.  A tenant that is being loaded has tables of its own, which nothing
    in the store reaches before the tenant is inserted ([loading]). *)

From S2P Require Import Prelude Packed Wire Rpc Alloc Tx Table Store Handlers HandlerSpecs CommitSpecs.
From S2P Require Import Bufs Ext Context DB Programs Loaders LoadersSpecs.

(** ** Tenants that are not inserted yet *)

Record loading (s : Store) (tn : Tenant) : Prop := {
  ld_store : store_wf s;
  ld_tables : ∀ tb l, get_table tn tb = Some l → ∃ t, heap s !! l = Some t ∧ table_ok t;
  ld_distinct : ∀ tb1 tb2 l, get_table tn tb1 = Some l → get_table tn tb2 = Some l → tb1 = tb2;
  ld_fresh : ∀ id tn' tb tb' l,
    get_table tn tb = Some l → tenant_of s id = Some tn' → get_table tn' tb' = Some l → False;
}.

(** Handles of tenants stay usable when the tenant is replaced: a table that the
    store does not reach any more cannot damage it. *)
Lemma with_table_safe s l t t' :
  store_wf s → heap s !! l = Some t → (table_ok t → table_ok t') → store_wf (with_table s l t').
Proof.
  intros Hs Ht Hok. split; [apply Hs| |apply Hs].
  intros id tn tb l' Hid Hl. destruct (sw_tables _ Hs _ _ _ _ Hid Hl) as (t0 & Ht0 & Hok0).
  cbn [with_table heap]. destruct (decide (l' = l)) as [->|Hne].
  - rewrite Ht in Ht0. injection Ht0 as <-. exists t'. split; [|by apply Hok].
    apply list_lookup_insert_eq. by eapply lookup_lt_Some.
  - rewrite list_lookup_insert_ne by done. eauto.
Qed.

Lemma loading_new s id : store_wf s → loading s (Tenant_new id).
Proof. by split. Qed.

Lemma loading_create s tn tb : loading s tn → loading (create_table s tn tb).1 (create_table s tn tb).2.
Proof.
  intros [Hs Htb Hd Hf].
  assert (∀ id tn' tb' l, tenant_of s id = Some tn' → get_table tn' tb' = Some l →
    (l < length (heap s))%nat) as Hlt.
  { intros id tn' tb' l Hid Hl. destruct (sw_tables _ Hs _ _ _ _ Hid Hl) as (t & Ht & _).
    by eapply lookup_lt_Some. }
  assert (∀ tb' l, tables tn !! tb' = Some l → (l < length (heap s))%nat) as Hlt'.
  { intros tb' l Hl. destruct (Htb tb' l Hl) as (t & Ht & _). by eapply lookup_lt_Some. }
  unfold create_table. cbn [fst snd]. split.
  - destruct Hs as [H1 H2 H3]. split; [done| |done]. intros id tn' tb' l Hid Hl. cbn [heap].
    rewrite lookup_app_l by by eapply Hlt. by eapply H2.
  - unfold get_table. cbn [tables heap]. intros tb' l [[-> <-]|[_ Hl]]%lookup_insert_Some.
    + exists Table_default. rewrite lookup_app_r, Nat.sub_diag by done. split; [done|apply default_ok].
    + rewrite lookup_app_l by by eapply Hlt'. by eapply Htb.
  - unfold get_table. cbn [tables].
    intros tb1 tb2 l [[-> Hx]|[_ Hl]]%lookup_insert_Some [[-> Hy]|[_ Hl']]%lookup_insert_Some; try done.
    + subst l. apply Hlt' in Hl'. lia.
    + subst l. apply Hlt' in Hl. lia.
    + by eapply Hd.
  - unfold get_table. cbn [tables].
    intros id tn' tb1 tb' l [[-> <-]|[_ Hl]]%lookup_insert_Some Hid Hl'.
    + apply (Hlt _ _ _ _ Hid) in Hl'. lia.
    + by eapply Hf.
Qed.

(** The body of a loader, if it returns, leaves a well-formed table. *)
Definition keeps (fill : Table → outcome Table) : Prop := ∀ t t', fill t = Ret t' → table_ok t → table_ok t'.

Lemma loading_fill s tn tb fill s' :
  keeps fill → loading s tn → fill_table s tn tb fill = Ret s' → loading s' tn.
Proof.
  intros Hk [Hs Htb Hd Hf]. unfold fill_table.
  destruct (get_table tn tb) as [l|] eqn:Hl; cbn [expect mbind outcome_bind]; [|done].
  destruct (Htb tb l Hl) as (t & Ht & Hok). unfold table_at. rewrite Ht. cbn [unchecked mbind outcome_bind].
  destruct (fill t) as [t'| |] eqn:Hfl; cbn [mbind outcome_bind]; [|done..]. intros [= <-].
  split; [|intros tb' l' Hl'|done|done].
  - apply (with_table_safe s l t); [done..|]. by apply Hk.
  - cbn [with_table heap]. destruct (decide (l' = l)) as [->|Hne].
    + exists t'. split; [apply list_lookup_insert_eq; by eapply lookup_lt_Some|by eapply Hk].
    + rewrite list_lookup_insert_ne by done. by eapply Htb.
Qed.

Lemma loading_insert s tn s' : loading s tn → insert_tenant s tn = Ret s' → store_wf s'.
Proof.
  intros [Hs Htb Hd Hf] Hi.
  destruct (insert_tenant_spec s tn (sw_length _ Hs)) as (s1 & He & Hh & Hlen & Hof).
  rewrite He in Hi. injection Hi as <-. split; [done| |].
  - intros id tn' tb l Hid Hl. rewrite Hh. rewrite Hof in Hid. case_decide.
    + injection Hid as <-. by eapply Htb.
    + by eapply (sw_tables _ Hs).
  - intros id1 tn1 tb1 id2 tn2 tb2 l H1 H1' H2 H2'. rewrite Hof in H1, H2. repeat case_decide.
    + assert (tn1 = tn ∧ tn2 = tn) as [-> ->] by (split; congruence).
      split; [congruence|by eapply Hd].
    + injection H2 as <-. destruct (Hf id1 tn1 tb2 tb1 l H2' H1 H1').
    + injection H1 as <-. destruct (Hf id2 tn2 tb1 tb2 l H1' H2 H2').
    + by eapply (sw_distinct _ Hs).
Qed.

(** ** Loops that put objects *)

Section loaders.
Context `{BytesCrateLaws}.

Lemma put_object_keeps tenant table k v : kv_ok (k, v) → keeps (λ t, put_object tenant table t k v).
Proof.
  intros Hkv t t' Hp Ht. destruct (put_object_spec tenant table t k v Ht Hkv) as (t1 & He & Hok & _).
  rewrite He in Hp. by injection Hp as <-.
Qed.

Lemma loop_keeps {A} (body : Table → A → outcome Table) l :
  (∀ a, a ∈ l → keeps (λ t, body t a)) → keeps (λ t, ofold body t l).
Proof.
  induction l as [|a l IH]; intros Hb t t' Hl Ht; cbn [ofold] in Hl; [by injection Hl as <-|].
  destruct (body t a) as [t1| |] eqn:E; cbn [mbind outcome_bind] in Hl; [|done..].
  eapply IH; [|exact Hl|eapply Hb; [by left|exact E|done]]. intros b Hin. apply Hb. by right.
Qed.

Lemma counter_kv n i v :
  (4 ≤ n)%nat → Z.of_nat n < 2 ^ 16 → len v < 2 ^ 63 → is_bytes v → kv_ok (counter n i, v).
Proof.
  intros Hn Hn' Hl Hv. unfold kv_ok. cbn [fst snd]. rewrite len_counter by done.
  split_and!; [done|done|done|apply counter_is_bytes|done].
Qed.

Lemma counters_kv n m i j :
  (4 ≤ n)%nat → Z.of_nat n < 2 ^ 16 → (4 ≤ m)%nat → Z.of_nat m < 2 ^ 63 → kv_ok (counter n i, counter m j).
Proof. intros. apply counter_kv; [done..| |apply counter_is_bytes]. by rewrite len_counter. Qed.

Lemma zeroes_kv n m i :
  (4 ≤ n)%nat → Z.of_nat n < 2 ^ 16 → Z.of_nat m < 2 ^ 63 → kv_ok (counter n i, replicate m 0).
Proof.
  intros. apply counter_kv; [done..| |by apply Forall_replicate].
  unfold len. by rewrite length_replicate.
Qed.

(** *** The data sets *)

Lemma fill_single_safe s id tb fill s' :
  store_wf s → keeps fill → fill_single s id tb fill = Ret s' → store_wf s'.
Proof.
  intros Hs Hk Hf. unfold fill_single in Hf.
  pose proof (loading_create s (Tenant_new id) tb (loading_new s id Hs)) as Hl.
  destruct (create_table _ _ _) as [s1 tn]. cbn [fst snd] in Hl.
  destruct (fill_table _ _ _ _) as [s2| |] eqn:E; cbn [mbind outcome_bind] in Hf; [|done..].
  eapply loading_insert; [|exact Hf]. by eapply loading_fill.
Qed.

Lemma fill_ycsb_safe s id tb num s' : store_wf s → fill_ycsb s id tb num = Ret s' → store_wf s'.
Proof.
  intros Hs. apply fill_single_safe; [done|]. apply loop_keeps. intros i _.
  apply put_object_keeps, counters_kv; lia.
Qed.

Lemma fill_tao_objects_keeps tenant table num : keeps (fill_tao_objects tenant table num).
Proof. apply loop_keeps. intros i _. apply put_object_keeps, zeroes_kv; lia. Qed.

Lemma fill_tao_assocs_safe tenant table num i t t' l :
  table_ok t → fill_tao_assocs tenant table num i t = Ret (t', l) →
  table_ok t' ∧ is_bytes l ∧ len l = 64.
Proof.
  intros Ht Hf.
  apply (ofold_grows (λ n (st : Table * bytes), table_ok st.1 ∧ is_bytes st.2 ∧ len st.2 = n) 16 _ 0)
    in Hf; [done| |by split_and!; [|constructor|]].
  intros n [t1 l1] a [t2 l2] (Ht1 & Hb & Hn) E. cbn [fst snd] in *.
  destruct (urem _ _) as [x| |]; cbn [mbind outcome_bind] in E; [|done..].
  destruct (put_object _ _ _ _ _) as [t3| |] eqn:Ep; cbn [mbind outcome_bind] in E; [|done..].
  assert (t3 = t2 ∧ l1 ++ le_bytes 4 x ++ replicate 12 0 = l2) as [-> <-] by (split; congruence).
  split_and!.
  - eapply put_object_keeps; [|exact Ep|done]. unfold kv_ok. cbn [fst snd].
    rewrite !len_app, len_le_bytes, len_counter by lia. split_and!; try done; [|by apply Forall_replicate].
    rewrite !is_bytes_app. split_and!; [apply counter_is_bytes|apply le_bytes_is_bytes|by apply Forall_replicate].
  - rewrite !is_bytes_app. split_and!; [done|apply le_bytes_is_bytes|by apply Forall_replicate].
  - rewrite !len_app, len_le_bytes. change (len (replicate 12 0)) with 12. lia.
Qed.

Lemma fill_tao_lists_keeps tenant table num : keeps (fill_tao_lists tenant table num).
Proof.
  apply loop_keeps. intros i _ t t' E Ht.
  destruct (fill_tao_assocs _ _ _ _ _) as [[t1 l]| |] eqn:Ef; cbn [mbind outcome_bind] in E; [|done..].
  apply fill_tao_assocs_safe in Ef as (Ht1 & Hb & Hl); [|done].
  eapply put_object_keeps; [|exact E|done]. apply counter_kv; (done || lia).
Qed.

Lemma fill_tao_safe s id num s' : store_wf s → fill_tao s id num = Ret s' → store_wf s'.
Proof.
  intros Hs Hf. unfold fill_tao in Hf.
  pose proof (loading_create _ _ 1 (loading_new s id Hs)) as Hl.
  destruct (create_table _ _ _) as [s1 tn1]. cbn [fst snd] in Hl.
  apply (loading_create _ _ 2) in Hl. destruct (create_table _ _ _) as [s2 tn2]. cbn [fst snd] in Hl.
  destruct (fill_table s2 _ _ _) as [s3| |] eqn:E3; cbn [mbind outcome_bind] in Hf; [|done..].
  apply loading_fill in E3; [|apply fill_tao_objects_keeps|done].
  destruct (fill_table s3 _ _ _) as [s4| |] eqn:E4; cbn [mbind outcome_bind] in Hf; [|done..].
  apply loading_fill in E4; [|apply fill_tao_lists_keeps|done]. exact (loading_insert _ _ _ E4 Hf).
Qed.

Lemma fill_aggregate_lists_keeps tenant table num records :
  keeps (fill_aggregate_lists tenant table num records).
Proof.
  apply loop_keeps. intros i _ t t' E Ht.
  destruct (ofold _ [] _) as [val| |] eqn:Ef; cbn [mbind outcome_bind] in E; [|done..].
  apply (ofold_grows (λ n (l : bytes), is_bytes l ∧ len l = n) 30 _ 0) in Ef; [| |by split; [constructor|]].
  - destruct Ef as [Hb Hl]. eapply put_object_keeps; [|exact E|done].
    apply counter_kv; try done; [lia|]. rewrite Hl, length_seqZ. unfold N_AGG. lia.
  - intros n l a l' [Hb Hl] El. destruct (urem _ _) as [x| |]; cbn [mbind outcome_bind] in El; [|done..].
    injection El as <-. rewrite is_bytes_app, len_app, len_counter, Hl by lia.
    split; [|done]. split; [done|apply counter_is_bytes].
Qed.

Lemma fill_aggregate_safe s id tb num s' : store_wf s → fill_aggregate s id tb num = Ret s' → store_wf s'.
Proof.
  intros Hs. apply fill_single_safe; [done|]. intros t t' E Ht.
  destruct (fill_aggregate_lists _ _ _ _ t) as [t1| |] eqn:E1; cbn [mbind outcome_bind] in E; [|done..].
  pose proof (fill_aggregate_lists_keeps _ _ _ _ _ _ E1 Ht) as Ht1. eapply loop_keeps; [|exact E|done].
  intros i _. apply put_object_keeps, counters_kv; lia.
Qed.

(** Rows of a data set that are byte strings. *)
Definition rows_ok (rows : list bytes) : Prop := Forall (λ r, is_bytes r ∧ len r < 2 ^ 63) rows.

Lemma fill_rows_keeps tenant table rows : rows_ok rows → keeps (fill_rows tenant table rows).
Proof.
  intros Hr. apply loop_keeps. intros [n r] Hin.
  apply elem_of_lookup_imap in Hin as (n' & r' & [= -> ->] & Hl).
  unfold rows_ok in Hr. rewrite Forall_forall in Hr.
  destruct (Hr r') as [Hb Hlen]; [by eapply list_elem_of_lookup_2|].
  apply put_object_keeps, counter_kv; (done || lia).
Qed.

Lemma fill_analysis_safe rows s n s' :
  rows_ok rows → store_wf s → fill_analysis rows s n = Ret s' → store_wf s'.
Proof.
  intros Hr Hs. apply ofold_inv; [|done]. intros s1 id s2 Hs1.
  apply fill_single_safe; [done|]. by apply fill_rows_keeps.
Qed.

Lemma fill_mix_safe rows s n num s' :
  rows_ok rows → store_wf s → fill_mix rows s n num = Ret s' → store_wf s'.
Proof.
  intros Hr Hs. apply ofold_inv; [|done]. clear s s' Hs. intros s id s' Hs Hf. unfold fill_mix_tenant in Hf.
  pose proof (loading_create _ _ 1 (loading_new s id Hs)) as Hl.
  destruct (create_table _ _ _) as [s1 tn1]. cbn [fst snd] in Hl.
  apply (loading_create _ _ 2) in Hl. destruct (create_table _ _ _) as [s2 tn2]. cbn [fst snd] in Hl.
  apply (loading_create _ _ 3) in Hl. destruct (create_table _ _ _) as [s3 tn3]. cbn [fst snd] in Hl.
  destruct (fill_table s3 _ _ _) as [s4| |] eqn:E4; cbn [mbind outcome_bind] in Hf; [|done..].
  apply loading_fill in E4; [|apply fill_tao_objects_keeps|done].
  destruct (fill_table s4 _ _ _) as [s5| |] eqn:E5; cbn [mbind outcome_bind] in Hf; [|done..].
  apply loading_fill in E5; [|apply fill_tao_lists_keeps|done].
  destruct (fill_table s5 _ _ _) as [s6| |] eqn:E6; cbn [mbind outcome_bind] in Hf; [|done..].
  apply loading_fill in E6; [|by apply fill_rows_keeps|done]. exact (loading_insert _ _ _ E6 Hf).
Qed.

(** The hash function writes byte strings of a bounded length. *)
Definition bcrypt_ok `{Crypto} : Prop :=
  ∀ cost salt password, is_bytes (bcrypt cost salt password) ∧ len (bcrypt cost salt password) = 24.

Lemma fill_auth_safe `{Crypto} s id tb num s' :
  bcrypt_ok → store_wf s → fill_auth s id tb num = Ret s' → store_wf s'.
Proof.
  intros Hc Hs. apply fill_single_safe; [done|]. apply loop_keeps. intros i _.
  apply put_object_keeps, counter_kv; [lia..| |].
  - rewrite len_app, len_counter by lia. destruct (Hc 1 (counter 16 i) (counter 72 i)) as [_ Hl]. lia.
  - apply is_bytes_app. split; [apply Hc|apply counter_is_bytes].
Qed.

Lemma fill_test_safe s id tb num s' : store_wf s → fill_test s id tb num = Ret s' → store_wf s'.
Proof.
  intros Hs Hf.
  assert (fill_test s id tb num = fill_single s id tb (λ t, ofold (fill_test_step id tb num) t
    (seqZ 1 (wadd 32 num 1 - 1)))) as He.
  { unfold fill_test, fill_single, fill_table. destruct (create_table _ _ _) as [s1 tn].
    destruct (get_table _ _); cbn [expect mbind outcome_bind]; [|done].
    destruct (table_at _ _); cbn [mbind outcome_bind]; [|done..].
    by destruct (ofold _ _ _). }
  rewrite He in Hf. revert Hf. apply fill_single_safe; [done|]. apply loop_keeps. intros i _ t t' E.
  unfold fill_test_step, fill_test_object in E. revert E.
  apply (put_object_keeps id tb (le_bytes 4 i ++ replicate 26 0)
    (le_bytes 4 (wadd 32 i 1 mod wadd 32 num 1) ++ replicate 96 0)).
  by apply (counters_kv 30 100); lia.
Qed.

(** The loaders, with any parameters. *)
Inductive loads (s s' : Store) : Prop :=
| load_test_data id tb num : fill_test s id tb num = Ret s' → loads s s'
| load_ycsb id tb num : fill_ycsb s id tb num = Ret s' → loads s s'
| load_tao id num : fill_tao s id num = Ret s' → loads s s'
| load_aggregate id tb num : fill_aggregate s id tb num = Ret s' → loads s s'
| load_analysis rows n : rows_ok rows → fill_analysis rows s n = Ret s' → loads s s'
| load_mix rows n num : rows_ok rows → fill_mix rows s n num = Ret s' → loads s s'
| load_auth (C : Crypto) id tb num : bcrypt_ok → fill_auth s id tb num = Ret s' → loads s s'.

Lemma loads_safe s s' : store_wf s → loads s s' → store_wf s'.
Proof.
  intros Hs []; eauto using fill_test_safe, fill_ycsb_safe, fill_tao_safe, fill_aggregate_safe,
    fill_analysis_safe, fill_mix_safe, fill_auth_safe.
Qed.
End loaders.
