(* ===== verification/Analysis.v ===== *)
(** * Analysis: the extension that classifies records

    Models ext/analysis/src/lib.rs and the models that it applies, kept by
    util/src/model.rs.  The crates rustlearn and bincode are interfaces: what a
    serialized classifier is, what it predicts, and what numbers a record has.
    Training is left out; its results, three serialized classifiers, are
    arguments.

    The extension reads consecutive records of the data set (file Loaders),
    yields, and answers a prediction for each. *)

From Stdlib Require Import SpecFloat.
From stdpp Require Import strings.
From S2P Require Import LoadSafety.
From S2P Require Import Prelude Packed Wire Rpc Alloc Tx Table Store Handlers HandlerSpecs CommitSpecs.
From S2P Require Import Bufs Context ContextSpecs Ext Task Dispatch Proxy Client DB DBSpecs Programs.
From S2P Require Import ExtSpecs Float Tao Loaders KayakSpecs LoadersSpecs DataSpecs.

(** ** Models *)

(** A kind of classifier: from bytes, and its predictions for the rows of a
    matrix. *)
Class Classifier (C : Type) := {
  deserialize_classifier : bytes → option C;
  predict : C → list (list f32) → option (list f32);
}.

(** [bincode::deserialize] of a [Vec<f32>]. *)
Class Features := deserialize_features : bytes → option (list f32).

(** [pack(&x)] of an [f32]: its bits, little-endian.  Which of the bit patterns of
    "not a number" it has is not specified. *)
Definition f32_bits (x : f32) : Z :=
  let sign (s : bool) := if s then 2 ^ 31 else 0 in
  match x with
  | S754_zero s => sign s
  | S754_infinity s => sign s + 0x7f800000
  | S754_nan => 0x7fc00000
  | S754_finite s m e =>
      sign s + (if decide (Zpos m < 2 ^ 23) then Zpos m else (e + 149) * 2 ^ 23 + Zpos m)
  end.

Definition f32_bytes (x : f32) : bytes := pack 4 (f32_bits x).

Section models.
Context {Lr Dr Rf : Type} `{Classifier Lr, Classifier Dr, Classifier Rf}.

Record Model := mkModel {
  lr_serialized : bytes;
  lr_deserialized : Lr;
  dr_serialized : bytes;
  dr_deserialized : Dr;
  rf_serialized : bytes;
  rf_deserialized : Rf;
}.

Definition Model_new (lr_serial dr_serial rf_serial : bytes) : outcome Model :=
  lr ← expect (deserialize_classifier lr_serial);
  dr ← expect (deserialize_classifier dr_serial);
  rf ← expect (deserialize_classifier rf_serial);
  Ret (mkModel lr_serial lr dr_serial dr rf_serial rf).

(** The thread's models and those of the process, by the name of the extension. *)
Definition insert_model (models : gmap bytes Model) (name lr_serial dr_serial rf_serial : bytes) :
    outcome (gmap bytes Model) :=
  model ← Model_new lr_serial dr_serial rf_serial; Ret (<[name := model]> models).

Definition insert_global_model (models : gmap bytes Model) (name lr_serial dr_serial rf_serial : bytes) :
    outcome (gmap bytes Model) :=
  model ← Model_new lr_serial dr_serial rf_serial; Ret (<[name := model]> models).

(** [predict(..).unwrap().data()[0]] of the model's classifier of a kind. *)
Definition classify (model : Model) (ml_model : Z) (row : list f32) : outcome f32 :=
  if decide (ml_model = 1) then data ← expect (predict (lr_deserialized model) [row]); index data 0
  else if decide (ml_model = 2) then data ← expect (predict (dr_deserialized model) [row]); index data 0
  else if decide (ml_model = 3) then data ← expect (predict (rf_deserialized model) [row]); index data 0
  else Ret (f32_of 0).

(** ** The extension *)

(** Waiting for a record, [todo] turns of the loop before its end; or about to
    classify. *)
Inductive AnalysisGen :=
| AnInit
| AnGet (todo : nat) (table key_value : Z) (keys : bytes) (values : list bytes) (ml_model : Z)
| AnPredict (values : list bytes) (ml_model : Z).

(** [db.get_model()]: the model that the database keeps for the extension. *)
Context `{Features} `{DB D} (model : option Model).

Definition transform_u32_to_u8_slice (x : Z) : bytes :=
  [Z.land x 0xff; Z.land (Z.shiftr x 8) 0xff; Z.land (Z.shiftr x 16) 0xff; Z.land (Z.shiftr x 24) 0xff].

(** The body of the loop once the record is there: the key of the next one and
    the values so far. *)
Definition an_object (key_value : Z) (keys : bytes) (values : list bytes) (obj : option ReadBuf) :
    ext_m D (option (Z * bytes * list bytes)) :=
  match obj with
  | Some val =>
      let values := values ++ [rb_read val] in
      let key_value := wadd 32 key_value 1 in
      keys ← lift (copy_from_slice keys 0 4 (transform_u32_to_u8_slice key_value));
      mret (Some (key_value, keys, values))
  | None => _ ← db_resp (str "Object does not exist"); mret None
  end.

Fixpoint an_lookups (todo : nat) (table key_value : Z) (keys : bytes) (values : list bytes) (ml_model : Z) :
    ext_m D (gen_step AnalysisGen) :=
  match todo with
  | O => mret (GYield (AnPredict values ml_model))
  | S todo' =>
      r ← GET table keys;
      match r with
      | None => mret (GYield (AnGet todo table key_value keys values ml_model))
      | Some obj =>
          r ← an_object key_value keys values obj;
          match r with
          | None => mret (GReturn 0)
          | Some (key_value, keys, values) => an_lookups todo' table key_value keys values ml_model
          end
      end
  end.

Definition an_start : ext_m D (gen_step AnalysisGen) :=
  args ← db_args;
  if decide (len args <= 38) then fail_with "Invalid args" 1
  else
    '(stable, remaining) ← lift (split_at args 8);
    '(num, remaining) ← lift (split_at remaining 4);
    '(kind, key) ← lift (split_at remaining 1);
    ml_model ← lift (index kind 0);
    first ← lift (slice key 0 4);
    an_lookups (Z.to_nat (or_bytes 0 0 num)) (or_bytes 0 0 stable) (or_bytes 0 0 first) key [] ml_model.

Fixpoint an_predict (values : list bytes) (ml_model : Z) : ext_m D (gen_step AnalysisGen) :=
  match values with
  | [] => mret (GReturn 0)
  | value :: values =>
      match model with
      | Some model =>
          row ← lift (expect (deserialize_features value));
          response ← lift (classify model ml_model row);
          _ ← db_resp (f32_bytes response);
          an_predict values ml_model
      | None => fail_with "ML Model does not exist" 0
      end
  end.

(** After the [yield] of [GET!] the extension reads again, without a check. *)
Definition ext_analysis (g : AnalysisGen) : ext_m D (gen_step AnalysisGen) :=
  match g with
  | AnInit => an_start
  | AnGet todo table key_value keys values ml_model =>
      obj ← db_get table keys;
      r ← an_object key_value keys values obj;
      match r with
      | None => mret (GReturn 0)
      | Some (key_value, keys, values) => an_lookups (pred todo) table key_value keys values ml_model
      end
  | AnPredict values ml_model => an_predict values ml_model
  end.
End models.

Arguments Model : clear implicits.

(** ** It halts *)

Lemma transform_le x : transform_u32_to_u8_slice x = le_bytes 4 x.
Proof.
  unfold transform_u32_to_u8_slice. cbn [le_bytes].
  change 0xff with (Z.ones 8). rewrite !Z.land_ones, !Z.shiftr_div_pow2 by lia.
  change (2 ^ 8) with 256. rewrite !Z.div_div by lia. done.
Qed.

Definition analysis_measure (g : AnalysisGen) : nat :=
  match g with AnInit => Z.to_nat (2 ^ 32) | AnGet todo _ _ _ _ _ => todo | AnPredict _ _ => 0 end.

Definition analysis_ok (g : AnalysisGen) : Prop :=
  match g with AnGet todo _ _ _ _ _ => (0 < todo)%nat | _ => True end.

Section halting.
Context {Lr Dr Rf : Type} `{Classifier Lr, Classifier Dr, Classifier Rf} `{Features}.
Context `{BytesCrate} `{!DB D} (model : option (Model Lr Dr Rf)) (env : nat → D → D).

Lemma an_lookups_below todo table kv keys values kind (d d' : D) g' :
  an_lookups todo table kv keys values kind d = (d', Ret (GYield g')) →
  analysis_ok g' ∧ (analysis_measure g' ≤ todo)%nat.
Proof.
  revert kv keys values d. induction todo as [|todo IH]; intros kv keys values d Hr; cbn [an_lookups] in Hr.
  - einv. cbn. lia.
  - einv; [|cbn; lia]. apply IH in Hr as [? ?]. split; [done|lia].
Qed.

Lemma an_predict_ends values kind (d d' : D) g' : an_predict model values kind d ≠ (d', Ret (GYield g')).
Proof. revert d. induction values as [|v values IH]; intros d Hr; cbn [an_predict] in Hr; einv. by apply IH in Hr. Qed.

(** Whatever happens to the database at its yields, the extension returns or
    panics within as many resumptions as there are records to read, and one. *)
Lemma analysis_halts d :
  (∀ d d' args, db_args d = (d', Ret args) → is_bytes args ∧ len args < 2 ^ 63) →
  halts (ext_analysis model) env (Z.to_nat (2 ^ 32 + 1)) AnInit d.
Proof.
  intros Hargs. apply (halts_measure _ _ analysis_ok analysis_measure); [|done|cbn [analysis_measure]; lia].
  intros [|todo table kv keys values kind|values kind] d1 d2 g' Hok Hr; cbn [ext_analysis] in Hr.
  - unfold an_start in Hr. einv. apply an_lookups_below in Hr as [Ha Hm]. split; [done|].
    repeat match goal with
    | H : split_at _ _ = Ret (_, _) |- _ => apply split_at_inv in H as [-> ?]
    | H : db_args _ = (_, Ret _) |- _ => apply Hargs in H as [? ?]
    | H : is_bytes (_ ++ _) |- _ => apply is_bytes_app in H as [? ?]
    end.
    match goal with H : context [or_bytes 0 0 ?l] |- _ =>
      pose proof (or_bytes_range 4 l ltac:(done)) as Ho end.
    unfold len in *. destruct Ho; [lia|]. cbn [analysis_measure]. change (8 * Z.of_nat 4) with 32 in *. lia.
  - einv. apply an_lookups_below in Hr as [Ha Hm]. cbn in *. split; [done|lia].
  - by apply an_predict_ends in Hr.
Qed.
End halting.

(** ** The data set is what it expects *)

(** The record in row [i] is under the key [i + 1]. *)
Definition analysis_rows (rows : list bytes) : list (bytes * bytes) :=
  (λ r : nat * bytes, (counter 30 (wrap 32 (Z.of_nat r.1 + 1)), r.2)) <$> imap pair rows.

Section data.
Context (rows : list bytes) (Hrows : rows_ok rows) (Hnum : len rows + 1 < 2 ^ 32).

Lemma analysis_row k v :
  (k, v) ∈ analysis_rows rows ↔ ∃ i, rows !! i = Some v ∧ k = counter 30 (Z.of_nat i + 1) ∧ Z.of_nat i < len rows.
Proof.
  unfold analysis_rows. rewrite list_elem_of_fmap. split.
  - intros ([i v'] & [= -> ->] & Hi). apply elem_of_lookup_imap in Hi as (i' & v0 & [= -> ->] & Hl).
    pose proof (lookup_lt_Some _ _ _ Hl). exists i'. split; [done|]. unfold len in *.
    rewrite wrap_id by (unfold in_width; lia). split; [done|lia].
  - intros (i & Hi & -> & Hlt). exists (i, v). cbn [fst snd].
    rewrite wrap_id by (unfold in_width; lia). split; [done|]. apply elem_of_lookup_imap. by exists i, v.
Qed.

Lemma analysis_rows_ok : Forall kv_ok (analysis_rows rows).
Proof.
  apply Forall_forall. intros [k v] (i & Hi & -> & _)%analysis_row. unfold kv_ok. cbn [fst snd].
  rewrite len_counter by lia. unfold rows_ok in Hrows. rewrite Forall_forall in Hrows.
  destruct (Hrows v) as [Hb Hl]; [by eapply list_elem_of_lookup_2|].
  split_and!; first [done|lia|apply counter_is_bytes].
Qed.

Lemma analysis_the_value i v :
  rows !! i = Some v → the_value (analysis_rows rows) (counter 30 (Z.of_nat i + 1)) v.
Proof.
  intros Hi. pose proof (lookup_lt_Some _ _ _ Hi) as Hlt. unfold len in *. split.
  - apply analysis_row. exists i. unfold len. split_and!; [done..|lia].
  - intros v' (j & Hj & Hk & Hlj)%analysis_row. unfold len in Hlj.
    apply counter_inj in Hk; [|unfold in_width; lia..]. assert (i = j) as -> by lia. congruence.
Qed.

Lemma analysis_absent k v : len rows < k → in_width 32 k → (counter 30 k, v) ∉ analysis_rows rows.
Proof.
  intros Hlt Hw (j & Hj & Hk & Hlj)%analysis_row. apply counter_inj in Hk; [lia|done|].
  unfold in_width in *. lia.
Qed.

Context `{BytesCrateLaws}.

Lemma fill_rows_all tenant t :
  fill_rows tenant 1 rows t = put_all tenant 1 t (analysis_rows rows).
Proof.
  unfold fill_rows. rewrite (put_all_loop tenant 1 _
    (λ r : nat * bytes, [(counter 30 (wrap 32 (Z.of_nat r.1 + 1)), r.2)])).
  - unfold analysis_rows. by rewrite bind_singletons.
  - intros t1 r _. unfold put_all. cbn [ofold fst snd]. by destruct (put_object _ _ _ _ _).
Qed.

(** A table with the data set, and nothing else. *)
Record rows_loaded (t : Table) : Prop := {
  rl_ok : table_ok t;
  rl_rows : ∀ i v, rows !! i = Some v → stores t (counter 30 (Z.of_nat i + 1)) v;
  rl_end : ∀ k, len rows < k → in_width 32 k → tview t (counter 30 k) = None;
}.

Lemma rows_loaded_all tenant : ∃ t, fill_rows tenant 1 rows Table_default = Ret t ∧ rows_loaded t.
Proof.
  destruct (put_all_holds tenant 1 Table_default _ default_ok analysis_rows_ok) as (t & Hp & Hok & Hst).
  exists t. rewrite fill_rows_all. split; [done|]. split; [done| |].
  - intros i v Hi. apply Hst. left. by apply analysis_the_value.
  - intros k Hlt Hw. rewrite (put_all_absent _ _ _ _ _ (counter 30 k) default_ok analysis_rows_ok Hp).
    + rewrite (rel_view _ _ default_rel). apply lookup_empty.
    + intros v. by apply analysis_absent.
Qed.

(** A tenant whose table 1 has the data set. *)
Definition analysis_loaded (s : Store) (id : Z) : Prop :=
  ∃ tn l t, tenant_of s id = Some tn ∧ get_table tn 1 = Some l ∧ heap s !! l = Some t ∧ rows_loaded t.

Lemma fill_analysis_step s id :
  store_wf s → ∃ s', fill_single s id 1 (fill_rows id 1 rows) = Ret s' ∧ store_wf s' ∧
    ∀ id', analysis_loaded s id' ∨ id' = id → analysis_loaded s' id'.
Proof.
  intros Hs. destruct (rows_loaded_all id) as (t & Hf & Ht).
  destruct (fill_single_spec s id 1 _ t Hs Hf (rl_ok _ Ht)) as (s' & E & Hwf & Htn & Hh).
  exists s'. split; [done|]. split; [done|]. intros id' Hid.
  destruct (decide (id' = id)) as [->|Hne].
  - eexists _, _, t. split; [exact Htn|]. split; [|done]. unfold get_table. cbn [tables]. by rewrite lookup_singleton_eq.
  - destruct Hid as [(tn & l & t' & Htn' & Hl & Hh' & Ht')|]; [|done]. exists tn, l, t'.
    destruct (fill_single_frame _ _ _ _ _ _ Hs Hf E) as [Hft Hfh]. split_and!; [|done| |done].
    + by rewrite Hft.
    + by apply Hfh.
Qed.

Lemma fill_analysis_loads s num :
  store_wf s → in_width 32 (num + 1) →
  ∃ s', fill_analysis rows s num = Ret s' ∧ store_wf s' ∧ ∀ id, 1 ≤ id ≤ num → analysis_loaded s' id.
Proof.
  intros Hs Hn. unfold fill_analysis. rewrite one_to_seq by done.
  assert (∀ ids s, store_wf s → ∃ s', ofold (λ s tenant_id, fill_single s tenant_id 1 (fill_rows tenant_id 1 rows)) s ids = Ret s' ∧
    store_wf s' ∧ ∀ id, analysis_loaded s id ∨ id ∈ ids → analysis_loaded s' id) as Hall.
  { clear s Hs. induction ids as [|id0 ids IH]; intros s Hs; cbn [ofold].
    - exists s. split_and!; [done..|]. intros id [?|[]%elem_of_nil]. done.
    - destruct (fill_analysis_step s id0 Hs) as (s1 & -> & Hs1 & H1'). cbn [mbind outcome_bind].
      destruct (IH s1 Hs1) as (s' & E & Hs' & Hl). exists s'. split_and!; [done..|].
      intros id [Hid|[->|Hid]%elem_of_cons]; apply Hl; auto. }
  destruct (Hall (seqZ 1 num) s Hs) as (s' & E & Hs' & Hl). exists s'. split_and!; [done..|].
  intros id Hid. apply Hl. right. apply elem_of_seqZ. lia.
Qed.
End data.

(** ** The extension on the data set *)

Section served.
Context {Lr Dr Rf : Type} `{Classifier Lr, Classifier Dr, Classifier Rf} `{Features}.
Context `{BytesCrateLaws} (tsc : nat → Z) (model : option (Model Lr Dr Rf)).
#[local] Hint Extern 0 (DB ServerDB) => exact (server_db tsc) : typeclass_instances.

(** Reading changes neither the store nor the tenant. *)
Lemma server_get_same t k (d d' : ServerDB) r :
  db_get t k d = (d', r) → sv_store d' = sv_store d ∧ sv_tenant d' = sv_tenant d.
Proof.
  cbn [db_get server_db]. unfold sv_call, ctx_get. intros Hg.
  repeat (first [case_match|progress simplify_eq|progress inv_outcome]; try done).
Qed.

Lemma server_GET (d d' : ServerDB) t k o : db_get t k d = (d', Ret o) → GET t k d = (d', Ret (Some o)).
Proof.
  intros Hg. unfold GET. assert (db_search_get t k d = (d, Ret (true, false, None))) as Hs by done.
  estep Hs. unfold fmap, ext_fmap. by rewrite Hg.
Qed.

Lemma next_counter r : copy_from_slice (counter 30 r) 0 4 (transform_u32_to_u8_slice (wadd 32 r 1)) =
  Ret (counter 30 (wadd 32 r 1)).
Proof. by rewrite transform_le. Qed.

Context (rows : list bytes) (Hrows : rows_ok rows) (Hnum : len rows + 1 < 2 ^ 32).
Context (l : nat) (t : Table) (Ht : rows_loaded rows t).

(** The table is the tenant's table 1. *)
Definition sees_rows (d : ServerDB) : Prop := get_table (sv_tenant d) 1 = Some l ∧ heap (sv_store d) !! l = Some t.

(** The rows that are there are read one after the other. *)
Lemma analysis_reads (vs : list bytes) n i values kind (d : ServerDB) :
  sees_rows d → (∀ j v, vs !! j = Some v → rows !! (i + j)%nat = Some v) →
  Z.of_nat i + len vs + 1 < 2 ^ 32 →
  ∃ d', keeps d d' ∧ sees_rows d' ∧
    an_lookups (length vs + n) 1 (Z.of_nat i + 1) (counter 30 (Z.of_nat i + 1)) values kind d =
    an_lookups n 1 (Z.of_nat i + len vs + 1) (counter 30 (Z.of_nat i + len vs + 1)) (values ++ vs) kind d'.
Proof.
  revert i values d. induction vs as [|v vs IH]; intros i values d Hd Hvs Hi.
  { exists d. split; [done|]. split; [done|]. change (len []) with 0. by rewrite Z.add_0_r, app_nil_r. }
  assert (len (v :: vs) = 1 + len vs) as Hl by (unfold len; cbn [length]; lia). rewrite Hl in *.
  pose proof (len_nonneg vs).
  destruct (stores_holds d 1 l t (counter 30 (Z.of_nat i + 1)) v) as [ver Hv]; [apply Hd|apply Hd|apply Ht|done| |].
  { apply (rl_rows _ _ Ht). rewrite <- (Nat.add_0_r i). by apply Hvs. }
  destruct (@db_get_law _ _ _ _ (server_laws tsc) d 1 _ ver _ Hv) as (d1 & Hg & Hk & _ & _).
  destruct (server_get_same _ _ _ _ _ Hg) as [Hs1 Ht1]. apply server_GET in Hg.
  destruct (IH (S i) (values ++ [v]) d1) as (d' & Hk' & Hd' & E).
  - unfold sees_rows. by rewrite Hs1, Ht1.
  - intros j v' Hj. rewrite Nat.add_succ_l, <- Nat.add_succ_r. by apply Hvs.
  - lia.
  - exists d'. split; [by transitivity d1|]. split; [done|]. cbn [length Nat.add an_lookups].
    estep Hg. unfold an_object. cbn [rb_read]. rewrite ebind_assoc.
    pose proof (next_counter (Z.of_nat i + 1)) as Hn. lstep.
    rewrite wadd_id by (unfold in_width; lia). unfold mbind at 1, ext_bind at 1, mret, ext_ret.
    replace (Z.of_nat i + 1 + 1) with (Z.of_nat (S i) + 1) by lia. change (rb_read (mkReadBuf v)) with v. rewrite E, <- (assoc_L (++)).
    do 2 f_equal; lia.
Qed.

(** Behind the last row there is nothing. *)
Lemma analysis_misses n k values kind (d : ServerDB) :
  sees_rows d → len rows < k → in_width 32 k →
  ∃ d', keeps d d' ∧ sees_rows d' ∧
    an_lookups (S n) 1 k (counter 30 k) values kind d = fail_with "Object does not exist" 0 d'.
Proof.
  intros [Hl Hh] Hk Hw.
  assert (db_get 1 (counter 30 k) d = (mkServerDB (sv_store d) (sv_ctx d) (S (S (sv_clock d))), Ret None)) as Hg.
  { cbn [db_get server_db]. apply sv_call_ret. unfold ctx_get, table_at. unfold sv_tenant in Hl.
    rewrite Hl, Hh. cbn [unchecked mbind outcome_bind].
    rewrite table_get_view by (done || apply Ht). by rewrite (rl_end _ _ Ht). }
  eexists. split; [by apply sv_keeps|]. split; [by split|]. cbn [an_lookups]. apply server_GET in Hg. estep Hg.
  unfold an_object, fail_with. by rewrite ebind_assoc.
Qed.

(** The arguments: a number of records, a kind of classifier, and the first key. *)
Definition analysis_args (number kind : Z) (key : bytes) : bytes :=
  le_bytes 8 1 ++ le_bytes 4 number ++ [kind] ++ key.

Lemma analysis_starts number kind first (d : ServerDB) :
  in_width 32 number → in_width 32 first → ctx_args (sv_ctx d) = Ret (analysis_args number kind (counter 30 first)) →
  an_start d = an_lookups (Z.to_nat number) 1 first (counter 30 first) [] kind d.
Proof.
  intros Hn Hf Hargs. unfold an_start.
  pose proof (@db_args_law _ _ _ _ (server_laws tsc) d _ Hargs) as Ha. estep Ha.
  assert (len (analysis_args number kind (counter 30 first)) = 43) as Hl by done.
  rewrite Hl, decide_False by lia. unfold analysis_args.
  pose proof (split_at_app (le_bytes 8 1) (le_bytes 4 number ++ [kind] ++ counter 30 first) 8 eq_refl) as H8. lstep.
  pose proof (split_at_app (le_bytes 4 number) ([kind] ++ counter 30 first) 4 eq_refl) as H4'. lstep.
  pose proof (split_at_app [kind] (counter 30 first) 1 eq_refl) as H1'. lstep.
  lstep. assert (slice (counter 30 first) 0 4 = Ret (le_bytes 4 first)) as Hsl by done. lstep.
  by rewrite !or_le by done.
Qed.
End served.

(** The answers: a prediction for each row. *)
Definition predicts {Lr Dr Rf} `{Classifier Lr, Classifier Dr, Classifier Rf, Features} (m : Model Lr Dr Rf)
    (kind : Z) (v : bytes) (x : f32) : Prop :=
  ∃ row, deserialize_features v = Some row ∧ classify m kind row = Ret x.

Lemma an_predict_answers {Lr Dr Rf} `{Classifier Lr, Classifier Dr, Classifier Rf, Features} `{DB D}
    (m : Model Lr Dr Rf) kind vs xs (d : D) :
  Forall2 (predicts m kind) vs xs →
  an_predict (Some m) vs kind d = (_ ← respond_all (f32_bytes <$> xs); mret (GReturn 0)) d.
Proof.
  intros Hv. revert d. induction Hv as [|v x vs xs (row & Hr & Hc) _ IH]; intros d; [done|].
  rewrite fmap_cons, respond_all_cons. cbn [an_predict].
  assert (expect (deserialize_features v) = Ret row) as He by by rewrite Hr. lstep. lstep.
  apply ebind_ext. by intros [] d1.
Qed.

Section classifies.
Context {Lr Dr Rf : Type} `{Classifier Lr, Classifier Dr, Classifier Rf} `{Features}.
Context `{BytesCrateLaws} (tsc : nat → Z) (model : option (Model Lr Dr Rf)).
#[local] Hint Extern 0 (DB ServerDB) => exact (server_db tsc) : typeclass_instances.

(** the records of the loaded data set are classified.  Loading the data set for
    a number of tenants returns a well-formed store, and the extension analysis,
    invoked for any of these tenants with the key of a row and a number of records,
    reads that many rows from there on, yields once, and answers the model's
    prediction for each, in order; a number that goes past the last row is answered
    with an error instead, and without a yield. *)
Theorem analysis_classifies (s : Store) rows num :
  store_wf s → rows_ok rows → len rows + 1 < 2 ^ 32 → in_width 32 (num + 1) →
  ∃ s', fill_analysis rows s num = Ret s' ∧ store_wf s' ∧
    ∀ id, 1 ≤ id ≤ num → ∃ tn, tenant_of s' id = Some tn ∧
      ∀ d first number kind, sv_store d = s' → sv_tenant d = tn → 1 ≤ first ≤ len rows + 1 → in_width 32 number →
        ctx_args (sv_ctx d) = Ret (analysis_args number kind (counter 30 first)) →
        (first + number ≤ len rows + 1 →
          let vs := take (Z.to_nat number) (drop (Z.to_nat (first - 1)) rows) in
          ∃ d', keeps d d' ∧ ext_analysis model AnInit d = (d', Ret (GYield (AnPredict vs kind))) ∧
            ∀ m xs d2, model = Some m → Forall2 (predicts m kind) vs xs →
              ext_analysis model (AnPredict vs kind) d2 =
                (_ ← respond_all (f32_bytes <$> xs); mret (GReturn 0)) d2) ∧
        (len rows + 1 < first + number →
          ∃ d', keeps d d' ∧ ext_analysis model AnInit d = fail_with "Object does not exist" 0 d').
Proof.
  intros Hs Hrows Hlen Hnum. destruct (fill_analysis_loads rows Hrows Hlen s num Hs Hnum) as (s' & E & Hwf & Hl).
  exists s'. split_and!; [done..|]. intros id Hid. destruct (Hl id Hid) as (tn & l & t & Htn & Hlt & Hh & Ht).
  exists tn. split; [done|]. intros d first number kind Hd Htd Hf Hn Hargs.
  assert (sees_rows l t d) as Hsees by by split; rewrite ?Htd, ?Hd.
  cbn [ext_analysis]. rewrite (analysis_starts tsc number kind first) by (done || unfold in_width; lia).
  assert (∃ i, first = Z.of_nat i + 1 ∧ Z.to_nat (first - 1) = i) as (i & -> & ->)
    by (exists (Z.to_nat (first - 1)); split; [lia|done]).
  unfold in_width in Hn. split; intros Hend.
  - set (vs := take (Z.to_nat number) (drop i rows)).
    assert (length vs = Z.to_nat number) as Hvs.
    { unfold vs, len in *. rewrite length_take, length_drop. lia. }
    destruct (analysis_reads tsc rows l t Ht vs 0 i [] kind d) as (d' & Hk & _ & E').
    + done.
    + intros j v Hj. unfold vs in Hj. rewrite lookup_take in Hj. case_decide; [|done]. by rewrite lookup_drop in Hj.
    + unfold len in *. lia.
    + exists d'. split; [done|]. rewrite Nat.add_0_r, Hvs in E'. rewrite E'. split; [done|].
      intros m xs d2 -> Hxs. by apply an_predict_answers.
  - set (vs := drop i rows).
    assert (len vs = len rows - Z.of_nat i) as Hvs.
    { unfold vs, len in *. rewrite length_drop. lia. }
    destruct (analysis_reads tsc rows l t Ht vs (Z.to_nat number - length vs) i [] kind d) as (d' & Hk & Hs' & E').
    + done.
    + intros j v Hj. unfold vs in Hj. by rewrite lookup_drop in Hj.
    + lia.
    + replace (length vs + (Z.to_nat number - length vs))%nat with (Z.to_nat number) in E' by (unfold len in *; lia).
      rewrite E', Hvs. replace (Z.of_nat i + (len rows - Z.of_nat i) + 1) with (len rows + 1) by lia.
      destruct (Z.to_nat number - length vs)%nat as [|n] eqn:En; [unfold len in *; lia|].
      destruct (analysis_misses tsc rows l t Ht n (len rows + 1) ([] ++ vs) kind d') as (d2 & Hk2 & _ & E2);
        [done|lia|unfold in_width; lia|].
      exists d2. split; [by transitivity d'|done].
Qed.
End classifies.

(** ** An example *)

(** One bit pattern, and the classifier that answers the first number of a row. *)
Example f32_bytes_values :
  f32_bytes (f32_of 1) = [0; 0; 0x80; 0x3f] ∧ f32_bytes (f32_of (-3)) = [0; 0; 0x40; 0xc0] ∧
  f32_bytes (f32_of 0) = [0; 0; 0; 0].
Proof. vm_compute. by split_and!. Qed.

Definition first_classifier : Classifier unit := {|
  deserialize_classifier _ := Some tt;
  predict _ rows := mapM head rows;
|}.

Definition byte_features : Features := λ v, Some (f32_of <$> v).

Definition ex_rows : list bytes := [[1; 7]; [3; 0]; [0; 2]].

Example ex_predictions :
  let c := first_classifier in
  let f := byte_features in
  ∃ m : Model unit unit unit, Model_new [] [] [] = Ret m ∧
    Forall2 (predicts m 2) [[1; 7]; [3; 0]] [f32_of 1; f32_of 3] ∧
    Forall2 (predicts m 4) [[1; 7]; [3; 0]] [f32_of 0; f32_of 0].
Proof.
  intros c f. eexists. split; [reflexivity|].
  split; repeat constructor; (eexists; split; [reflexivity|]); reflexivity.
Qed.

Lemma analysis_classifies_witness :
  let c := first_classifier in
  let f := byte_features in
  let b := exact_bytes in
  let db := @server_db b (λ _, 0) in
  let spec := @server_spec b (λ _, 0) in
  ∃ s', fill_analysis ex_rows Store_new 2 = Ret s' ∧ store_wf s' ∧
    ∀ id, 1 ≤ id ≤ 2 → ∃ tn, tenant_of s' id = Some tn ∧
      ∀ d, sv_store d = s' → sv_tenant d = tn →
        ctx_args (sv_ctx d) = Ret (analysis_args 2 1 (counter 30 2)) →
        ∃ d', keeps d d' ∧ ext_analysis (None : option (Model unit unit unit)) AnInit d =
          (d', Ret (GYield (AnPredict [[3; 0]; [0; 2]] 1))).
Proof.
  intros c f b db spec.
  destruct (@analysis_classifies unit unit unit c c c f exact_bytes exact_bytes_laws (λ _, 0) None Store_new
    ex_rows 2) as (s' & E & Hwf & Hl);
    [apply Store_new_wf|apply (bool_decide_unpack _); vm_compute; exact I|done|by split|].
  exists s'. split; [exact E|]. split; [exact Hwf|]. intros id Hid. destruct (Hl id Hid) as (tn & Htn & Hd).
  exists tn. split; [exact Htn|]. intros d Hs Ht Ha.
  destruct (Hd d 2 2 1 Hs Ht ltac:(by split) ltac:(by split) Ha) as [Hok _].
  destruct (Hok ltac:(done)) as (d' & Hk & He & _). exists d'. by split.
Defined.
