(* ===== verification/ExtHalting.v ===== *)
(** * ExtHalting: which extensions end

    Every program under ext/.  That it is resumed only so often is shown with the
    measures of files ExtSpecs and Analysis; that every resumption comes back, if the
    calls of the database do, is shown for the computation of each, step by step. *)

From S2P Require Import Prelude Alloc Bufs Context DB Programs ExtSpecs Tao Analysis.

(** ** Computations that come back *)

(** With a result or with a panic. *)
Definition defined {A} (o : outcome A) : Prop := o ≠ Undef.

(** On the databases of which [I] holds, which it keeps. *)
Definition definite {D A} (I : D → Prop) (m : ext_m D A) : Prop := ∀ d, I d → I (m d).1 ∧ defined (m d).2.

(** The calls of the database come back. *)
Record comes_back `{BytesCrate} `{!DB D} (I : D → Prop) : Prop := {
  cb_get : ∀ t k, definite I (db_get t k);
  cb_multiget : ∀ t n k, definite I (db_multiget t n k);
  cb_alloc : ∀ t k n, definite I (db_alloc t k n);
  cb_put : ∀ b, definite I (db_put b);
  cb_del : ∀ t k, definite I (db_del t k);
  cb_args : definite I db_args;
  cb_resp : ∀ b, definite I (db_resp b);
  cb_search_get : ∀ t k, definite I (db_search_get t k);
  cb_search_multiget : ∀ t n k, definite I (db_search_multiget t n k);
}.

Lemma definite_ret {D A} (I : D → Prop) (a : A) : definite I (mret a).
Proof. by intros d Hd. Qed.

Lemma definite_lift {D A} (I : D → Prop) (o : outcome A) : defined o → definite I (lift o).
Proof. by intros Ho d Hd. Qed.

Lemma definite_fmap {D A B} (I : D → Prop) (m : ext_m D A) (f : A → B) : definite I m → definite I (f <$> m).
Proof.
  intros Hm d Hd. destruct (Hm d Hd) as [Hi Hdef]. unfold fmap, ext_fmap.
  destruct (m d) as [d' [a| |]]; cbn in *; done.
Qed.

Lemma definite_bind {D A B} (I : D → Prop) (m : ext_m D A) (f : A → ext_m D B) :
  definite I m → (∀ a, definite I (f a)) → definite I (m ≫= f).
Proof.
  intros Hm Hf d Hd. destruct (Hm d Hd) as [Hi Hdef]. unfold mbind, ext_bind.
  destruct (m d) as [d' [a| |]]; cbn in *; [by apply Hf|by split|by destruct Hdef].
Qed.

Lemma defined_bind {A B} (o : outcome A) (f : A → outcome B) :
  defined o → (∀ a, defined (f a)) → defined (o ≫= f).
Proof. destruct o as [a| |]; cbn; intros Ho Hf; [apply Hf|done|done]. Qed.

Lemma defined_fmap {A B} (o : outcome A) (f : A → B) : defined o → defined (f <$> o).
Proof. by destruct o. Qed.

Lemma defined_ofold {S A} (f : S → A → outcome S) s l : (∀ s a, defined (f s a)) → defined (ofold f s l).
Proof.
  intros Hf. revert s. induction l as [|a l IH]; intros s; [done|]. cbn [ofold]. by apply defined_bind.
Qed.

(** It panics when the capacity is exceeded. *)
Lemma put_slice_defined `{BytesCrateLaws} b s : defined (put_slice b s).
Proof.
  destruct (decide (bm_capacity b < len (bm_data b) + len s)) as [Hf|Hf].
  - by rewrite put_slice_full.
  - destruct (put_slice_fits b s) as (b' & -> & _); [lia|done].
Qed.

Create HintDb comes_back.

(** Every operation on bytes is a test, and a result or a panic. *)
Ltac defined_step :=
  match goal with
  | |- defined (Ret _) => discriminate
  | |- defined Panic => discriminate
  | |- defined (_ ≫= _) => apply defined_bind; [|intros ?]
  | |- defined (_ <$> _) => apply defined_fmap
  | |- defined (put_slice _ _) => apply put_slice_defined
  | |- defined (ofold _ _ _) => apply defined_ofold; intros ? ?
  | |- defined (match ?x with _ => _ end) => destruct x
  | |- defined _ => solve [auto with comes_back nocore]
  | |- defined ?o => let h := get_head o in progress unfold h
  end.

Ltac defined := repeat defined_step.

Section endings.
Context `{Crypto} `{BytesCrateLaws} `{!DB D} (I : D → Prop) (HI : comes_back I).

#[local] Hint Resolve cb_get cb_multiget cb_alloc cb_put cb_del cb_args cb_resp cb_search_get cb_search_multiget
  : comes_back.

Lemma while_next_definite {S} fuel (body : S → MultiReadBuf → ext_m D S) s vals :
  (∀ s v, definite I (body s v)) → definite I (while_next fuel body s vals).
Proof.
  intros Hb. revert s vals. induction fuel as [|fuel IH]; intros s vals; cbn [while_next];
    repeat first [apply Hb | apply IH | apply definite_ret | case_match | apply definite_bind; [|intros ?]].
Qed.

Ltac definite_step :=
  match goal with
  | |- definite _ (mret _) => apply definite_ret
  | |- definite _ (lift _) => apply definite_lift; defined
  | |- definite _ (_ ≫= _) => apply definite_bind; [|intros ?]
  | |- definite _ (_ <$> _) => apply definite_fmap
  | |- definite _ (while_next _ _ _ _) => apply while_next_definite; intros ? ?
  | |- definite _ (match ?x with _ => _ end) => destruct x
  | |- definite _ _ => solve [auto with comes_back]
  | |- definite _ ?m => let h := get_head m in progress unfold h
  end.

Ltac definite := repeat definite_step.

Lemma scan_loop_definite n table keys sum : definite I (scan_loop n table keys sum).
Proof.
  revert keys sum. induction n as [|n IH]; intros keys sum; cbn [scan_loop]; repeat first [apply IH | definite_step].
Qed.

Lemma long_loop_definite fuel i : definite I (long_loop fuel i).
Proof.
  revert i. induction fuel as [|n IH]; intros i; cbn [long_loop]; repeat first [apply IH | definite_step].
Qed.

Lemma pb_lookups_definite fuel i num ord table keys mul : definite I (pb_lookups fuel i num ord table keys mul).
Proof.
  revert i keys mul. induction fuel as [|n IH]; intros i keys mul; cbn [pb_lookups];
    repeat first [apply IH | definite_step].
Qed.

Lemma an_lookups_definite todo table key_value keys values kind :
  definite I (an_lookups todo table key_value keys values kind).
Proof.
  revert key_value keys values. induction todo as [|n IH]; intros key_value keys values; cbn [an_lookups];
    repeat first [apply IH | definite_step].
Qed.
#[local] Hint Resolve scan_loop_definite long_loop_definite pb_lookups_definite an_lookups_definite
  : comes_back.










(** The bound on the turns of the loop is never reached. *)
Lemma list_deserialize_defined b : defined (list_deserialize b).
Proof.
  unfold list_deserialize.
  enough (∀ fuel start l, len b ≤ start + Z.of_nat fuel → defined (list_deserialize_from fuel start l b)) as Hle
    by (apply Hle; unfold len; lia).
  induction fuel as [|fuel IH]; intros start l Hf; cbn [list_deserialize_from]; case_decide; try discriminate; [lia|].
  apply defined_bind; [defined|intros piece]. apply defined_bind; [defined|intros a].
  apply IH. unfold Association_size. lia.
Qed.

#[local] Hint Resolve list_deserialize_defined : comes_back.

End endings.

(** ** Programs that end *)

Section ends.
Context `{BytesCrate} `{!DB D} {G : Type} (resume : G → ext_m D (gen_step G)) (env : nat → D → D).


End ends.




