(* ===== verification/StoreSafety.v ===== *)
(** * StoreSafety: no request damages the store

    A type invariant of the server: whatever bytes a request holds and whatever
    an extension does with its database, the store stays well-formed: every
    table is partitioned by the hash of its keys, and every entry holds an
    object laid out for its key. *)

From S2P Require Import Prelude Packed Headers Packet Wire Rpc Alloc Tx Table Store Handlers.
From S2P Require Import HandlerSpecs CommitSpecs Bufs Context ContextSpecs Ext Task Master DB Programs Loaders.
From S2P Require Import LoadersSpecs LoadSafety.

(** ** Reading a packet *)

(** The buffer of a packet holds bytes. *)
Definition memory_ok {T} (p : Packet T) : Prop := is_bytes (buf (mbuf p)) ∧ len (buf (mbuf p)) < 2 ^ 63.

Lemma mem_read_bytes b a n bs :
  is_bytes b → len b < 2 ^ 63 → mem_read b a n = Ret bs →
  is_bytes bs ∧ len bs = n ∧ len bs < 2 ^ 63.
Proof.
  unfold mem_read. intros Hb Hl. case_decide as Hd; [|done]. intros [= <-].
  assert (len (take (Z.to_nat n) (drop (Z.to_nat a) b)) = n)
    by (unfold len in *; rewrite length_take, length_drop; lia).
  split; [by apply Forall_take, Forall_drop|lia].
Qed.

Section packets.
Context `{EndOffset R, !PackedLaws R}.

Lemma get_header_ok (p : Packet R) h : memory_ok p → get_header p = Ret h → packed_ok h.
Proof.
  intros [Hb Hl] Hh. unfold get_header in Hh.
  destruct (mem_read _ _ _) as [bs| |] eqn:E; cbn [mbind outcome_bind] in Hh; [|done..].
  injection Hh as <-. apply mem_read_bytes in E as (? & ? & _); [|done..]. by apply decode_ok.
Qed.

Lemma get_payload_bytes (p : Packet R) pl :
  memory_ok p → get_payload p = Ret pl → is_bytes pl ∧ len pl < 2 ^ 63.
Proof.
  intros [Hb Hl] Hp. unfold get_payload in Hp. inv_outcome.
  by match goal with E : mem_read _ _ _ = Ret _ |- _ => apply mem_read_bytes in E as (? & _ & ?) end.
Qed.

Lemma parse_header_memory {T} `{EndOffset T, !Follows R T} (p : Packet T) q :
  memory_ok p → parse_header R p = Ret q → memory_ok q.
Proof. intros Hp Hq. unfold parse_header in Hq. by inv_outcome. Qed.
End packets.

Lemma split_at_parts (l l1 l2 : bytes) n :
  split_at l n = Ret (l1, l2) → l = l1 ++ l2 ∧ len l1 = n.
Proof.
  unfold split_at. case_decide as Hd; [|done]. intros [= <- <-].
  split; [by rewrite take_drop|]. unfold len in *. rewrite length_take. lia.
Qed.

(** ** One table of the store *)

Section safety.
Context `{BytesCrateLaws}.

(** *** Put *)

Lemma put_body_safe s req tenant id tb klen s' st :
  store_wf s → memory_ok req → klen < 2 ^ 16 →
  put_body s req tenant id tb klen = Ret (s', st) → store_wf s'.
Proof.
  intros Hs Hm Hk. unfold put_body.
  destruct (find_table _ _ _) as [[r|l]| |]; cbn [mbind outcome_bind]; [by intros [= <- <-]| |done..].
  destruct (get_payload req) as [pl| |] eqn:Hpl; cbn [mbind outcome_bind]; [|done..].
  destruct (split_at pl klen) as [[key val]| |] eqn:Hsp; cbn [mbind outcome_bind]; [|done..].
  case_decide; [|by intros [= <- <-]].
  apply get_payload_bytes in Hpl as [Hb Hl]; [|done].
  apply split_at_parts in Hsp as [-> Hkey]. apply is_bytes_app in Hb as [Hkb Hvb].
  rewrite len_app in Hl. pose proof (len_nonneg key). pose proof (len_nonneg val).
  rewrite object_layout by lia. cbn [mbind outcome_bind fst snd]. unfold table_at.
  destruct (heap s !! l) as [t|] eqn:Ht; cbn [unchecked mbind outcome_bind]; [|done].
  destruct (table_put _ _ _) as [[t' e]| |] eqn:Hp; cbn [mbind outcome_bind]; [|done..].
  intros [= <- <-]. apply (with_table_safe s l t); [done..|]. intros Hok.
  destruct key as [|x key]; [done|].
  destruct (table_put_ok t id tb (x :: key) val Hok) as (t1 & r1 & He & Hok' & _);
    [done|lia|done|done|]. rewrite He in Hp. by injection Hp as <- _.
Qed.

(** *** Commit *)

Lemma bucket_nonempty k b : bucket k = Ret b → k ≠ [].
Proof. by intros Hb ->. Qed.

Lemma acquire_writes_keys s ws s' :
  ofold acquire_write s ws = Ret s' → Forall (λ r, rec_key r ≠ []) ws.
Proof.
  revert s. induction ws as [|r ws IH]; intros s Ha; [done|]. cbn in Ha.
  destruct (acquire_write s r) as [s1| |] eqn:E; cbn [mbind outcome_bind] in Ha; [|done..].
  constructor; [|by eapply IH]. unfold acquire_write in E.
  destruct (bucket (rec_key r)) as [b| |] eqn:Hb; [|done..]. by eapply bucket_nonempty.
Qed.

Lemma validate_reads_keys t s rs s' :
  validate_reads t s rs = Ret (s', COMMIT) → Forall (λ r, rec_key r ≠ []) rs.
Proof.
  revert s. induction rs as [|r rs IH]; intros s Hv; [done|]. cbn in Hv.
  destruct (bucket (rec_key r)) as [b| |] eqn:Hb; cbn [mbind outcome_bind] in Hv; [|done..].
  destruct (unchecked _) as [lk| |]; cbn [mbind outcome_bind] in Hv; [|done..].
  destruct (expect _) as [m| |]; cbn [mbind outcome_bind] in Hv; [|done..].
  destruct (record_version_ok m r); [|done].
  constructor; [by eapply bucket_nonempty|by eapply IH].
Qed.

(** A validation that returns either aborts, or all the keys are there. *)
Lemma validate_keys t tenant table tx clock t' d :
  validate t tenant table tx clock = (t', Ret d) →
  t' = t ∨ Forall (λ r, rec_key r ≠ []) (reads tx) ∧ Forall (λ r, rec_key r ≠ []) (writes tx).
Proof.
  unfold validate. destruct (acquire_all t (tx_sort tx)) as [[s []]| |] eqn:Ha; try (left; congruence).
  intros _. right. unfold acquire_all in Ha.
  destruct (ofold acquire_write no_locks (writes (tx_sort tx))) as [s1| |] eqn:Hw;
    cbn [mbind outcome_bind] in Ha; [|done..].
  apply acquire_writes_keys in Hw. apply validate_reads_keys in Ha.
  unfold tx_sort in *. cbn in *. by rewrite sort_by_key_perm in Hw, Ha.
Qed.

(** The records of a transaction that came over the network. *)
Definition wire_record (r : RwRecord) : Prop :=
  len (rec_key r) < 2 ^ 16 ∧ len (rec_object r) < 2 ^ 63 ∧ is_bytes (rec_key r) ∧ is_bytes (rec_object r).

Lemma validate_safe t tenant table tx clock t' d :
  Forall wire_record (writes tx) → in_width 64 clock →
  validate t tenant table tx clock = (t', Ret d) → table_ok t → table_ok t'.
Proof.
  intros Hw Hc Hval Hok. destruct (validate_keys _ _ _ _ _ _ _ Hval) as [->|[Hrk Hwk]]; [done|].
  assert (tx_ok tx) as Htx.
  { split; [done|]. rewrite Forall_forall in *. intros r Hr. destruct (Hw r Hr) as (? & ? & _).
    split_and!; [by apply Hwk|done..]. }
  destruct (validate_inv _ _ _ _ _ _ _ (proj1 Hok) Htx Hc Hval)
    as [(_ & -> & _)|(_ & _ & Hwf & _ & _ & Hv)]; [done|].
  split; [done|]. intros k e He. rewrite Hv in He.
  destruct (last _) as [r|] eqn:Hlast; [|by apply Hok].
  apply last_Some_elem_of, list_elem_of_filter in Hlast as [<- Hin].
  injection He as <-. exists (rec_object r). rewrite Forall_forall in Hw.
  destruct (Hw r Hin) as (? & ? & ? & ?). cbn [entry_value]. by rewrite resolve_layout by done.
Qed.

Lemma chunks_fuel_bytes fuel n (l : bytes) bound :
  is_bytes l → len l < bound → Forall (λ c, is_bytes c ∧ len c < bound) (chunks_fuel fuel n l).
Proof.
  revert l. induction fuel as [|fuel IH]; intros l Hb Hl; [done|]. destruct l as [|x l]; [done|].
  cbn [chunks_fuel]. constructor.
  - split; [by apply Forall_take|]. unfold len in *. rewrite length_take. lia.
  - apply IH; [by apply Forall_drop|]. unfold len in *. rewrite length_drop. lia.
Qed.

Lemma commit_record_safe klen tx record tx' :
  klen < 2 ^ 16 → is_bytes record → len record < 2 ^ 63 → commit_record klen tx record = Ret tx' →
  Forall wire_record (writes tx) → Forall wire_record (writes tx').
Proof.
  intros Hk Hb Hl Hc Hw. unfold commit_record, split_record in Hc.
  destruct (split_at record 1) as [[o r1]| |] eqn:E1; cbn [mbind outcome_bind] in Hc; [|done..].
  destruct (split_at r1 8) as [[ver r2]| |] eqn:E2; cbn [mbind outcome_bind] in Hc; [|done..].
  destruct (split_at r2 klen) as [[key val]| |] eqn:E3; cbn [mbind outcome_bind] in Hc; [|done..].
  apply split_at_parts in E1 as [-> _], E2 as [-> _], E3 as [-> Hlk].
  apply is_bytes_app in Hb as [_ [_ [Hkb Hvb]%is_bytes_app]%is_bytes_app].
  destruct (parse_record_optype o) as [op| |]; cbn [mbind outcome_bind] in Hc; [|done..].
  injection Hc as <-. destruct op; [done| |done].
  cbn [record_put writes]. apply Forall_app. split; [done|]. constructor; [|done].
  rewrite !len_app in Hl. pose proof (len_nonneg o). pose proof (len_nonneg ver).
  pose proof (len_nonneg key). split_and!; cbn; (done || lia).
Qed.

Lemma commit_gen_safe s req res tenant id tb klen vlen clock s' pkts :
  store_wf s → memory_ok req → klen < 2 ^ 16 → in_width 64 clock →
  commit_gen s req res tenant id tb klen vlen clock = (s', Ret pkts) → store_wf s'.
Proof.
  intros Hs Hm Hk Hc. unfold commit_gen, commit_body.
  destruct tenant as [tn|]; [|by intros [= <- _]].
  destruct (get_table tn tb) as [l|]; [|by intros [= <- _]]. unfold table_at.
  destruct (heap s !! l) as [t|] eqn:Ht; cbn [unchecked mbind outcome_bind]; [|by intros [= <- _]].
  destruct (get_payload req) as [pl| |] eqn:Hpl; cbn [mbind outcome_bind]; [|by intros [= <- _]..].
  apply get_payload_bytes in Hpl as [Hb Hl]; [|done]. case_decide; [by intros [= <- _]|].
  unfold chunks. case_decide; cbn [mbind outcome_bind]; [|by intros [= <- _]].
  pose proof (chunks_fuel_bytes (length pl) (Z.to_nat (1 + 8 + klen + vlen)) pl (2 ^ 63) Hb Hl) as Hch.
  generalize dependent (chunks_fuel (length pl) (Z.to_nat (1 + 8 + klen + vlen)) pl). intros chs Hch.
  destruct (ofold (commit_record klen) TX_new chs) as [tx| |] eqn:Htx; cbn [mbind outcome_bind];
    [|by intros [= <- _]..].
  destruct (validate t id tb tx clock) as [t' [d| |]] eqn:Hval; cbn [mbind outcome_bind]; [|done..].
  intros He. apply pair_eq in He as [<- _]. apply (with_table_safe s l t); [done..|].
  eapply validate_safe; [|done|exact Hval].
  assert (∀ chs tx, Forall (λ c, is_bytes c ∧ len c < 2 ^ 63) chs → Forall wire_record (writes tx) →
    ∀ tx', ofold (commit_record klen) tx chs = Ret tx' → Forall wire_record (writes tx')) as Hfold.
  { clear -Hk. induction chs as [|c chs IH]; intros tx Hch Hw tx'; cbn; [by intros [= <-]|].
    apply Forall_cons in Hch as [[Hb Hl] Hch].
    destruct (commit_record klen tx c) as [tx1| |] eqn:E; cbn [mbind outcome_bind]; [|done..].
    apply IH; [done|]. by eapply commit_record_safe. }
  eapply Hfold; [exact Hch| |exact Htx]. constructor.
Qed.

(** *** Requests *)

(** What a task may hold. *)
Definition gen_safe (g : NativeGen) : Prop :=
  match g with
  | GenPut req _ _ _ _ klen => memory_ok req ∧ klen < 2 ^ 16
  | GenCommit req _ _ _ _ klen _ => memory_ok req ∧ klen < 2 ^ 16
  | _ => True
  end.

Lemma run_gen_safe s g clock s' pkts :
  store_wf s → gen_safe g → in_width 64 clock → run_gen s g clock = (s', Ret pkts) → store_wf s'.
Proof.
  intros Hs Hg Hc Hr. destruct g; cbn in Hr, Hg; try by injection Hr as <- _.
  - destruct (put_gen _ _ _ _ _ _ _) as [[s1 p]| |] eqn:E; [|done..]. injection Hr as <- _.
    unfold put_gen in E.
    destruct (put_body _ _ _ _ _ _) as [[s2 st]| |] eqn:Eb; cbn [mbind outcome_bind] in E; [|done..].
    inv_outcome. destruct Hg. by eapply put_body_safe.
  - destruct Hg. by eapply commit_gen_safe.
Qed.

(** The key length of a header is sixteen bits wide. *)
Lemma put_length_width (h : PutRequest) : packed_ok h → put_key_length h < 2 ^ 16.
Proof.
  intros Hh. unfold packed_ok in Hh. cbn in Hh. unfold req_layout, req_fields in Hh.
  repeat match goal with H : Forall2 _ (_ :: _) _ |- _ => inversion_clear H end.
  by match goal with H : in_width _ (put_key_length h) |- _ => destruct H end.
Qed.

Lemma commit_length_width (h : CommitRequest) : packed_ok h → commit_key_length h < 2 ^ 16.
Proof.
  intros Hh. unfold packed_ok in Hh. cbn in Hh. unfold req_layout, req_fields in Hh.
  repeat match goal with H : Forall2 _ (_ :: _) _ |- _ => inversion_clear H end.
  by match goal with H : in_width _ (commit_key_length h) |- _ => destruct H end.
Qed.

Lemma put_safe s req res g : memory_ok req → put s req res = Ret (Ok g) → gen_safe g.
Proof.
  intros Hm Hp. unfold put in Hp.
  destruct (parse_header PutRequest req) as [p| |] eqn:Ep; cbn [mbind outcome_bind] in Hp; [|done..].
  apply parse_header_memory in Ep; [|done].
  destruct (get_header p) as [h| |] eqn:Eh; cbn [mbind outcome_bind] in Hp; [|done..].
  apply get_header_ok in Eh; [|done]. apply put_length_width in Eh. inv_outcome.
  case_decide; inv_outcome. by split.
Qed.

Lemma commit_safe s req res g : memory_ok req → commit s req res = Ret (Ok g) → gen_safe g.
Proof.
  intros Hm Hp. unfold commit in Hp.
  destruct (parse_header CommitRequest req) as [p| |] eqn:Ep; cbn [mbind outcome_bind] in Hp; [|done..].
  apply parse_header_memory in Ep; [|done].
  destruct (get_header p) as [h| |] eqn:Eh; cbn [mbind outcome_bind] in Hp; [|done..].
  apply get_header_ok in Eh; [|done]. apply commit_length_width in Eh. inv_outcome. by split.
Qed.

Lemma put_native_safe s req res s' r :
  store_wf s → memory_ok req → put_native s req res = Ret (s', r) → store_wf s'.
Proof.
  intros Hs Hm Hp. unfold put_native in Hp.
  destruct (parse_header PutRequest req) as [p| |] eqn:Ep; cbn [mbind outcome_bind] in Hp; [|done..].
  apply parse_header_memory in Ep; [|done].
  destruct (get_header p) as [h| |] eqn:Eh; cbn [mbind outcome_bind] in Hp; [|done..].
  apply get_header_ok in Eh; [|done]. apply put_length_width in Eh. inv_outcome.
  case_decide; inv_outcome; [done|]. case_match. inv_outcome. by eapply put_body_safe.
Qed.

(** *** Extensions *)

Lemma resolve_parts b k v :
  is_bytes b → len b < 2 ^ 63 → resolve b = Ret (Some (k, v)) →
  len k < 2 ^ 16 ∧ len v < 2 ^ 63 ∧ is_bytes k ∧ is_bytes v.
Proof.
  intros Hb Hl. unfold resolve. destruct (b !! _) as [lb|]; [|done]. destruct (b !! _) as [rb|]; [|done].
  set (n := wadd 16 lb (wmul 16 rb 256)). assert (in_width 16 n) as Hn by by apply wrap_range.
  destruct (slice b _ _) as [k1| |] eqn:Ek; cbn [mbind outcome_bind]; [|done..].
  destruct (slice_from b _) as [v1| |] eqn:Ev; cbn [mbind outcome_bind]; [|done..].
  intros [= <- <-]. unfold slice_from in Ev.
  assert (∀ x y l, slice b x y = Ret l → is_bytes l ∧ len l ≤ len b ∧ len l = y - x) as Hs.
  { intros x y l. unfold slice. case_decide; [|done]. intros [= <-]. unfold len in *.
    rewrite length_take, length_drop. split; [by apply Forall_take, Forall_drop|lia]. }
  apply Hs in Ek as (? & ? & ?), Ev as (? & ? & ?). unfold in_width in *. split_and!; (done || lia).
Qed.

(** The branches of a computation that returned. *)
Ltac all_branches := repeat (inv_outcome; case_match); inv_outcome.

(** The contexts that an extension can bring about with the methods of its
    database, whatever it passes to them; its buffers hold bytes. *)
Inductive ctx_reachable : Context → Prop :=
| reach_new req args_off args_len res tn : ctx_reachable (Context_new req args_off args_len res tn)
| reach_get s c t k start stop c' r :
    ctx_reachable c → ctx_get s c t k start stop = Ret (c', r) → ctx_reachable c'
| reach_multiget s c t n ks start stop c' r :
    ctx_reachable c → ctx_multiget s c t n ks start stop = Ret (c', r) → ctx_reachable c'
| reach_alloc c t k n c' r :
    ctx_reachable c → ctx_alloc c t k n = Ret (c', r) → ctx_reachable c'
| reach_put c b start stop c' r :
    ctx_reachable c → is_bytes (bm_data (wb_inner b)) → len (bm_data (wb_inner b)) < 2 ^ 63 →
    ctx_put c b start stop = Ret (c', r) → ctx_reachable c'
| reach_resp c data c' :
    ctx_reachable c → ctx_resp c data = Ret c' → ctx_reachable c'.

Lemma multiget_loop_writes t n c objs ks c' r :
  ctx_multiget_loop t n c objs ks = Ret (c', r) → writes (ctx_tx c') = writes (ctx_tx c).
Proof.
  revert c objs. induction ks as [|k ks IH]; intros c objs; cbn; [by intros [= <- _]|].
  case_decide; [by intros [= <- _]|]. destruct (table_get t k) as [[e|]| |]; cbn; [|by intros [= <- _]|done..].
  destruct (resolve (entry_value e)) as [[[k' v]|]| |]; cbn; [|by intros [= <- _]|done..].
  intros Hc. by rewrite (IH _ _ Hc).
Qed.

Lemma reachable_writes c : ctx_reachable c → Forall wire_record (writes (ctx_tx c)).
Proof.
  induction 1 as [|s c t k start stop c' r _ IH Hg|s c t n ks start stop c' r _ IH Hg|c t k n c' r _ IH Ha
    |c b start stop c' r _ IH Hb Hl Hp|c data c' _ IH Hr].
  - constructor.
  - unfold ctx_get in Hg. all_branches; done.
  - unfold ctx_multiget in Hg. all_branches; [|done]. cbn.
    match goal with E : ctx_multiget_loop _ _ _ _ _ = _ |- _ => by rewrite (multiget_loop_writes _ _ _ _ _ _ _ E) end.
  - unfold ctx_alloc in Ha. all_branches; done.
  - unfold ctx_put, wb_freeze in Hp. all_branches; [|done..].
    cbn. apply Forall_app. split; [done|]. constructor; [|done].
    match goal with E : resolve _ = _ |- _ => apply resolve_parts in E as (? & ? & ? & ?); [|done..] end.
    by split_and!.
  - unfold ctx_resp in Hr. by inv_outcome.
Qed.

Lemma ctx_commit_safe s c clock s' pkts :
  store_wf s → ctx_reachable c → in_width 64 clock → ctx_commit s c clock = (s', Ret pkts) → store_wf s'.
Proof.
  intros Hs Hc Hclk. unfold ctx_commit.
  destruct (ctx_args c) as [args| |]; cbn [mbind outcome_bind]; [|by intros [= <- _]..].
  destruct (split_at args 8) as [[tb rest]| |]; cbn [mbind outcome_bind]; [|by intros [= <- _]..].
  destruct (get_table (ctx_tenant c) _) as [l|]; [|by intros [= <- _]]. unfold table_at.
  destruct (heap s !! l) as [t|] eqn:Ht; cbn [unchecked mbind outcome_bind]; [|by intros [= <- _]].
  destruct (validate t _ _ _ clock) as [t' [d| |]] eqn:Hval; cbn [mbind outcome_bind]; [|done..].
  intros He. apply pair_eq in He as [<- _]. apply (with_table_safe s l t); [done..|].
  eapply validate_safe; [|done|exact Hval]. by apply reachable_writes.
Qed.

Lemma ctx_del_safe s c t k s' : store_wf s → ctx_del s c t k = Ret s' → store_wf s'.
Proof.
  intros Hs. unfold ctx_del. destruct (get_table (ctx_tenant c) t) as [l|]; [|by intros [= <-]].
  unfold table_at. destruct (heap s !! l) as [tb|] eqn:Ht; cbn [unchecked mbind outcome_bind]; [|done].
  destruct (table_delete tb k) as [tb'| |] eqn:Hd; cbn [mbind outcome_bind]; [|done..].
  intros [= <-]. apply (with_table_safe s l tb); [done..|]. intros [Hwf Hok].
  assert (k ≠ []) as Hk by by intros ->.
  destruct (table_delete_view tb k Hwf Hk) as (tb1 & He & Hwf1 & _ & Hv). rewrite He in Hd.
  injection Hd as <-. split; [done|]. intros k' e Hke. rewrite Hv in Hke. case_decide; [done|].
  by apply Hok.
Qed.

(** ** The server *)

(** The generators that the handlers make, from any request. *)
Inductive captured : NativeGen → Prop :=
| cap_get s req res g : memory_ok req → get s req res = Ret (Ok g) → captured g
| cap_put s req res g : memory_ok req → put s req res = Ret (Ok g) → captured g
| cap_multiget s req res g : memory_ok req → multiget s req res = Ret (Ok g) → captured g
| cap_commit s req res g : memory_ok req → commit s req res = Ret (Ok g) → captured g.

Lemma captured_safe g : captured g → gen_safe g.
Proof.
  intros [s req res g' Hm Hg|s req res g' Hm Hg|s req res g' Hm Hg|s req res g' Hm Hg];
    [|by eapply put_safe| |by eapply commit_safe].
  all: unfold get, multiget in Hg; inv_outcome; case_decide; by inv_outcome.
Qed.

(** What can happen to the store: data is loaded, a put is served in place, the
    task of a request runs, an extension deletes a key or ends.  Reads leave it
    alone. *)
Inductive store_step (s s' : Store) : Prop :=
| step_load : loads s s' → store_step s s'
| step_put req res r : memory_ok req → put_native s req res = Ret (s', r) → store_step s s'
| step_task g clock pkts :
    captured g → in_width 64 clock → run_gen s g clock = (s', Ret pkts) → store_step s s'
| step_delete c t k : ctx_reachable c → ctx_del s c t k = Ret s' → store_step s s'
| step_commit c clock pkts :
    ctx_reachable c → in_width 64 clock → ctx_commit s c clock = (s', Ret pkts) → store_step s s'.

(** C3: the store is well-formed for ever.  Whatever data sets are loaded,
    whatever requests arrive, well-formed or not, and whatever extensions do with
    their database, in any order and with tasks and contexts that were created at
    any earlier time (even for a tenant that has been replaced since): if the
    store was well-formed, as a new one is, it still is, that is, all reachable
    tables exist, no two tenants share one, every table is partitioned by the
    hash of its keys and holds for every key an object laid out with that key. *)
Theorem store_stays_wf s s' : store_wf s → rtc store_step s s' → store_wf s'.
Proof.
  intros Hs Hsteps. induction Hsteps as [s|s s1 s' Hstep _ IH]; [done|]. apply IH.
  destruct Hstep as [Hl|req res r Hm Hp|g clock pkts Hg Hc Hr|c t k _ Hd|c clock pkts Hc Hclk He].
  - by eapply loads_safe.
  - by eapply put_native_safe.
  - eapply run_gen_safe; [done|by apply captured_safe|done..].
  - by eapply ctx_del_safe.
  - by eapply ctx_commit_safe.
Qed.
End safety.

(** A data set is loaded, an object is put, and deleted. *)
Definition ex_loaded : Store := ret_or ex_store (@fill_ycsb exact_bytes ex_store 8 1 2).

Definition ex_put_wire : ClientRequest := CPut 7 3 [4; 5; 6] [77] 99.

Definition ex_after_put : Store * Result Pkts :=
  ret_or (ex_loaded, Err (ex_res, ex_res)) (@put_native exact_bytes ex_loaded (ex_req ex_put_wire) ex_res).

Definition ex_after_delete : Store := ret_or ex_loaded (ctx_del ex_after_put.1 ex_ctx 3 [4; 5; 6]).

Lemma store_stays_wf_witness : store_wf ex_after_delete.
Proof.
  apply (@store_stays_wf exact_bytes exact_bytes_laws ex_store); [apply ex_store_wf|].
  apply (rtc_l _ _ ex_loaded); [|apply (rtc_l _ _ ex_after_put.1); [|apply rtc_once]].
  - apply step_load, (load_ycsb _ _ 8 1 2). by vm_compute.
  - apply (step_put _ _ (ex_req ex_put_wire) ex_res ex_after_put.2).
    + split; [apply (bool_decide_eq_true_1 _); by vm_compute|by vm_compute].
    + by vm_compute.
  - apply (step_delete _ _ ex_ctx 3 [4; 5; 6]); [apply reach_new|by vm_compute].
Defined.
