(* ===== verification/Ring.v ===== *)
(** * Ring: NetBricks' ring buffer

    Models net/framework/src/state/ring_buffer.rs: bytes in a vector whose
    length is a power of two, between two counters that only grow and wrap at
    2^64.  The buffer is a bounded queue of bytes ([ring_refines_queue]), and
    data that arrives out of order can be filled in behind its tail
    ([ring_out_of_order]). *)

From S2P Require Import Prelude.

(** ** Data *)

Record RingBuffer := mkRingBuffer {
  ring_head : Z;
  ring_tail : Z;
  ring_size : Z;
  ring_mask : Z;
  ring_vec : bytes;
}.

Definition with_head (r : RingBuffer) (head : Z) : RingBuffer :=
  mkRingBuffer head (ring_tail r) (ring_size r) (ring_mask r) (ring_vec r).

Definition with_vec (r : RingBuffer) (vec : bytes) : RingBuffer :=
  mkRingBuffer (ring_head r) (ring_tail r) (ring_size r) (ring_mask r) vec.

(** [Err(InvalidRingSize)] is [None]. *)
Definition RingBuffer_new (size : Z) : option RingBuffer :=
  if decide (Z.land size (wsub 64 size 1) ≠ 0) then None
  else Some (mkRingBuffer 0 0 size (wsub 64 size 1) (replicate (Z.to_nat size) 0)).

(** Reading from a byte slice, and writing to one, copies as much as fits: the
    number of bytes, and the destination. *)
Definition copy_into (src dst : bytes) : Z * bytes :=
  let n := len src `min` len dst in (n, take (Z.to_nat n) src ++ drop (Z.to_nat n) dst).

(** The result is the number of bytes and the buffer that was read into. *)
Definition wrapped_read (r : RingBuffer) (offset : Z) (data : bytes) : outcome (Z * bytes) :=
  _ ← assert_ (offset < ring_size r);
  _ ← assert_ (len data <= ring_size r);
  src ← slice (ring_vec r) offset (len (ring_vec r));
  let (n, filled) := copy_into src data in
  if decide (offset +u64 len data > ring_size r) then
    let remaining := len data -u64 n in
    src ← slice (ring_vec r) 0 remaining;
    rest ← slice filled n (len data);
    let (m, rest) := copy_into src rest in
    Ret (n +u64 m, take (Z.to_nat n) filled ++ rest)
  else Ret (n, filled).

Definition wrapped_write (r : RingBuffer) (offset : Z) (data : bytes) : outcome (RingBuffer * Z) :=
  _ ← assert_ (offset < ring_size r);
  _ ← assert_ (len data <= ring_size r);
  dst ← slice (ring_vec r) offset (len (ring_vec r));
  let (n, dst) := copy_into data dst in
  let vec := take (Z.to_nat offset) (ring_vec r) ++ dst in
  if decide (offset +u64 len data > ring_size r) then
    let remaining := len data -u64 n in
    dst ← slice vec 0 remaining;
    rest ← slice data n (len data);
    let (m, dst) := copy_into rest dst in
    Ret (with_vec r (dst ++ drop (Z.to_nat remaining) vec), n +u64 m)
  else Ret (with_vec r vec, n).

Definition write_at_offset (r : RingBuffer) (offset : Z) (data : bytes) : outcome (RingBuffer * Z) :=
  wrapped_write r offset data.

Definition read_from_offset (r : RingBuffer) (offset : Z) (data : bytes) : outcome (Z * bytes) :=
  wrapped_read r offset data.

Definition seek_tail (r : RingBuffer) (increment_by : Z) : RingBuffer :=
  mkRingBuffer (ring_head r) (ring_tail r +u64 increment_by) (ring_size r) (ring_mask r) (ring_vec r).

Definition write_at_tail (r : RingBuffer) (data : bytes) : outcome (RingBuffer * Z) :=
  let available := ring_mask r +u64 ring_head r -u64 ring_tail r in
  let write := len data `min` available in
  let offset := Z.land (ring_tail r) (ring_mask r) in
  let r := seek_tail r write in
  data ← slice data 0 write;
  wrapped_write r offset data.

Definition write_at_offset_from_tail (r : RingBuffer) (offset : Z) (data : bytes) :
    outcome (RingBuffer * Z) :=
  let available := ring_mask r +u64 ring_head r -u64 ring_tail r in
  if decide (available < offset) then Ret (r, 0)
  else
    let offset_tail := ring_tail r +u64 offset in
    let available_at_offset := ring_mask r +u64 ring_head r -u64 offset_tail in
    let write := len data `min` available_at_offset in
    let index := Z.land offset_tail (ring_mask r) in
    data ← slice data 0 write;
    wrapped_write r index data.

Definition available (r : RingBuffer) : Z := ring_tail r -u64 ring_head r.

Definition read_offset (r : RingBuffer) : Z := Z.land (ring_head r) (ring_mask r).

(** The buffer [data] is overwritten at its front. *)
Definition read_from_head_with_increment (r : RingBuffer) (data : bytes) (increment : Z) :
    outcome (RingBuffer * (Z * bytes)) :=
  let offset := read_offset r in
  let to_read := available r `min` len data in
  let r := with_head r (ring_head r +u64 increment `min` to_read) in
  front ← slice data 0 to_read;
  '(n, front) ← wrapped_read r offset front;
  Ret (r, (n, front ++ drop (Z.to_nat to_read) data)).

Definition read_from_head (r : RingBuffer) (data : bytes) : outcome (RingBuffer * (Z * bytes)) :=
  read_from_head_with_increment r data (len data).

Definition seek_head (r : RingBuffer) (seek : Z) : outcome RingBuffer :=
  _ ← assert_ (available r >= seek);
  Ret (with_head r (ring_head r +u64 seek)).

Definition ring_len (r : RingBuffer) : Z := ring_size r.

Definition ring_clear (r : RingBuffer) : RingBuffer :=
  mkRingBuffer 0 0 (ring_size r) (ring_mask r) (ring_vec r).

(** The unit tests of the source. *)
Example test_io_wrapped :
  (r ← expect (RingBuffer_new 128);
   '(r, _) ← wrapped_write r 126 [42; 43; 44; 45; 46];
   wrapped_read r 126 [0; 0; 0; 0; 0]) = Ret (5, [42; 43; 44; 45; 46]).
Proof. by vm_compute. Qed.

Example test_io_simple :
  (r ← expect (RingBuffer_new 32);
   '(r, _) ← wrapped_write r 2 [42; 43; 44];
   '(r, _) ← wrapped_write r 7 [42; 43; 44];
   '(_, read3) ← wrapped_read r 2 [0; 0; 0];
   '(_, read2) ← wrapped_read r 7 [0; 0];
   Ret (read3, read2)) = Ret ([42; 43; 44], [42; 43]).
Proof. by vm_compute. Qed.

(** ** The cells of the vector *)

Definition vec_at (v : bytes) (i : Z) : Z := default 0 (v !! Z.to_nat i).

(** Position [p] of the endless tape that the ring folds up. *)
Definition ring_at (r : RingBuffer) (p : Z) : Z := vec_at (ring_vec r) (p mod ring_size r).

(** The bytes between two positions of it. *)
Definition ring_window (r : RingBuffer) (p n : Z) : bytes := (λ i, ring_at r (p + i)) <$> seqZ 0 n.

Lemma take_drop_cells v a n :
  0 ≤ a → 0 ≤ n → a + n ≤ len v →
  take (Z.to_nat n) (drop (Z.to_nat a) v) = (λ i, vec_at v (a + i)) <$> seqZ 0 n.
Proof.
  intros Ha Hn Hl. apply list_eq. intros i. rewrite list_lookup_fmap.
  destruct (decide (Z.of_nat i < n)) as [Hi|Hi].
  - rewrite lookup_seqZ_lt, lookup_take_lt, lookup_drop by lia. cbn. unfold vec_at.
    replace (Z.to_nat (a + (0 + Z.of_nat i))) with (Z.to_nat a + i)%nat by lia.
    by destruct (lookup_lt_is_Some_2 v (Z.to_nat a + i)) as [x ->]; [unfold len in Hl; lia|].
  - rewrite lookup_seqZ_ge, lookup_take_ge by lia. done.
Qed.

(** Overwriting a part of a vector. *)
Lemma splice_at (v d : bytes) a q :
  0 ≤ a → a + len d ≤ len v → 0 ≤ q < len v →
  vec_at (take (Z.to_nat a) v ++ d ++ drop (Z.to_nat (a + len d)) v) q =
  if decide (a ≤ q < a + len d) then vec_at d (q - a) else vec_at v q.
Proof.
  unfold len, vec_at. intros Ha Hl Hq. rewrite !lookup_app, length_take.
  assert (∀ l i, (i < length l)%nat → ∃ x : Z, l !! i = Some x) as Hsome
    by (intros; by apply lookup_lt_is_Some_2).
  case_decide as Hd.
  - rewrite lookup_take_ge by lia.
    replace (Z.to_nat q - Z.to_nat a `min` length v)%nat with (Z.to_nat (q - a)) by lia.
    by destruct (Hsome d (Z.to_nat (q - a))) as [x ->]; [lia|].
  - destruct (decide (q < a)).
    + rewrite lookup_take_lt by lia. by destruct (Hsome v (Z.to_nat q)) as [x ->]; [lia|].
    + rewrite lookup_take_ge by lia. rewrite (lookup_ge_None_2 d) by lia. rewrite lookup_drop.
      do 2 f_equal. lia.
Qed.

Lemma splice_len (v d : bytes) a :
  0 ≤ a → a + len d ≤ len v →
  len (take (Z.to_nat a) v ++ d ++ drop (Z.to_nat (a + len d)) v) = len v.
Proof. unfold len. intros. rewrite !length_app, length_take, length_drop. lia. Qed.

Lemma mod_offset size offset q :
  0 ≤ offset < size → 0 ≤ q < size →
  (q - offset) mod size = if decide (offset <= q) then q - offset else q - offset + size.
Proof.
  intros Ho Hq. case_decide; [by apply Z.mod_small; lia|].
  rewrite <- (Z_mod_plus_full _ 1), Z.mul_1_l. apply Z.mod_small. lia.
Qed.

Lemma len_drop (v : bytes) a : 0 ≤ a ≤ len v → len (drop (Z.to_nat a) v) = len v - a.
Proof. unfold len. intros. rewrite length_drop. lia. Qed.

Lemma slice_ok (v : bytes) a b :
  0 ≤ a ≤ b → b ≤ len v → slice v a b = Ret (take (Z.to_nat (b - a)) (drop (Z.to_nat a) v)).
Proof. intros. unfold slice. by rewrite decide_True. Qed.

Lemma slice_to_end (v : bytes) a : 0 ≤ a ≤ len v → slice v a (len v) = Ret (drop (Z.to_nat a) v).
Proof.
  intros. rewrite slice_ok by lia. f_equal. apply take_ge. unfold len in *. rewrite length_drop. lia.
Qed.

Lemma len_window r p n : 0 ≤ n → len (ring_window r p n) = n.
Proof. intros. unfold len, ring_window. rewrite length_fmap, length_seqZ. lia. Qed.

Lemma window_app r p a b :
  0 ≤ a → 0 ≤ b → ring_window r p (a + b) = ring_window r p a ++ ring_window r (p + a) b.
Proof.
  intros. unfold ring_window. rewrite seqZ_app by lia. rewrite fmap_app. f_equal.
  rewrite (Z.add_comm 0 a), <- fmap_add_seqZ, <- list_fmap_compose. apply list_fmap_ext. intros j i _.
  unfold compose. f_equal. lia.
Qed.

Lemma window_ext r r' p p' n :
  (∀ i, 0 ≤ i < n → ring_at r (p + i) = ring_at r' (p' + i)) → ring_window r p n = ring_window r' p' n.
Proof. intros He. apply list_fmap_ext. intros j i Hi%lookup_seqZ. apply He. lia. Qed.

Lemma window_lap r p n : ring_size r ≠ 0 → ring_window r (p + ring_size r) n = ring_window r p n.
Proof.
  intros. apply window_ext. intros i _. unfold ring_at. f_equal.
  replace (p + ring_size r + i) with (p + i + 1 * ring_size r) by lia. by apply Z_mod_plus_full.
Qed.

Lemma take_all (l : bytes) n : len l ≤ n → take (Z.to_nat n) l = l.
Proof. unfold len. intros. apply take_ge. lia. Qed.

Lemma drop_all' (l : bytes) n : len l ≤ n → drop (Z.to_nat n) l = [].
Proof. unfold len. intros. apply drop_ge. lia. Qed.

(** What is copied when everything fits. *)
Lemma copy_into_fits src dst :
  len src ≤ len dst → copy_into src dst = (len src, src ++ drop (Z.to_nat (len src)) dst).
Proof. intros. unfold copy_into. rewrite Z.min_l by done. by rewrite take_all. Qed.

Lemma copy_into_full src dst :
  len dst ≤ len src → copy_into src dst = (len dst, take (Z.to_nat (len dst)) src).
Proof. intros. unfold copy_into. rewrite Z.min_r by done. by rewrite (drop_all' dst), app_nil_r. Qed.

Section wrapped.
Context (r : RingBuffer) (Hlen : len (ring_vec r) = ring_size r) (Hsize : 0 < ring_size r ≤ 2 ^ 63).

Lemma window_cells offset n :
  0 ≤ offset → 0 ≤ n → offset + n ≤ ring_size r →
  take (Z.to_nat n) (drop (Z.to_nat offset) (ring_vec r)) = ring_window r offset n.
Proof.
  intros Ho Hn Hl. rewrite take_drop_cells by lia. apply list_fmap_ext. intros j i Hi%lookup_seqZ.
  unfold ring_at. by rewrite Z.mod_small by lia.
Qed.

Lemma wrapped_read_spec offset data :
  0 ≤ offset < ring_size r → len data ≤ ring_size r →
  wrapped_read r offset data = Ret (len data, ring_window r offset (len data)).
Proof.
  intros Ho Hd. pose proof (len_nonneg data). unfold wrapped_read, assert_.
  rewrite !decide_True by lia. cbn [mbind outcome_bind].
  rewrite slice_to_end by lia. cbn [mbind outcome_bind].
  rewrite (wadd_id 64) by (unfold in_width; lia). set (n := ring_size r - offset).
  assert (len (drop (Z.to_nat offset) (ring_vec r)) = n) as Hn by (rewrite len_drop by lia; lia).
  case_decide as Hw.
  - rewrite copy_into_fits by lia. rewrite Hn, (wsub_id 64) by (unfold in_width; lia).
    rewrite <- (take_all (drop _ (ring_vec r)) n) by lia. rewrite window_cells by lia.
    assert (len (ring_window r offset n ++ drop (Z.to_nat n) data) = len data) as Hl
      by (rewrite len_app, len_window, len_drop by lia; lia).
    rewrite (slice_ok (ring_vec r) 0) by lia. cbn [mbind outcome_bind].
    assert (slice (ring_window r offset n ++ drop (Z.to_nat n) data) n (len data) =
      Ret (drop (Z.to_nat n) data)) as ->.
    { rewrite <- Hl, slice_to_end by lia.
      by rewrite drop_app_length' by (pose proof (len_window r offset n); unfold len in *; lia). }
    cbn [mbind outcome_bind].
    rewrite take_app_length' by (pose proof (len_window r offset n); unfold len in *; lia).
    rewrite window_cells, copy_into_fits by (rewrite ?len_window, ?len_drop; lia).
    rewrite len_window by lia. rewrite (drop_all' (drop _ _)) by (rewrite len_drop; lia).
    rewrite app_nil_r, (wadd_id 64) by (unfold in_width; lia).
    replace (len data) with (n + (len data - n - 0)) at 4 by lia.
    rewrite window_app by lia. replace (offset + n) with (0 + ring_size r) by lia.
    rewrite window_lap by lia. do 2 f_equal. lia.
  - rewrite copy_into_full by lia. by rewrite window_cells by lia.
Qed.

Lemma wrapped_write_spec offset data :
  0 ≤ offset < ring_size r → len data ≤ ring_size r →
  ∃ vec, wrapped_write r offset data = Ret (with_vec r vec, len data) ∧ len vec = ring_size r ∧
    ∀ q, 0 ≤ q < ring_size r →
      vec_at vec q = let i := (q - offset) mod ring_size r in
                     if decide (i < len data) then vec_at data i else vec_at (ring_vec r) q.
Proof.
  intros Ho Hd. pose proof (len_nonneg data). unfold wrapped_write, assert_.
  rewrite !decide_True by lia. cbn [mbind outcome_bind].
  rewrite slice_to_end by lia. cbn [mbind outcome_bind].
  rewrite (wadd_id 64) by (unfold in_width; lia). set (n := ring_size r - offset).
  assert (len (drop (Z.to_nat offset) (ring_vec r)) = n) as Hn by (rewrite len_drop by lia; lia).
  case_decide as Hw.
  - rewrite copy_into_full by lia. rewrite Hn, (wsub_id 64) by (unfold in_width; lia).
    set (d := take (Z.to_nat n) data).
    assert (len d = n) as Hdn by (unfold d, len in *; rewrite length_take; lia).
    set (vec1 := take _ (ring_vec r) ++ d).
    assert (vec1 = take (Z.to_nat offset) (ring_vec r) ++ d ++ drop (Z.to_nat (offset + len d)) (ring_vec r))
      as Hv1 by (rewrite (drop_all' (ring_vec r)) by lia; by rewrite app_nil_r).
    assert (len vec1 = ring_size r) as Hl1 by (rewrite Hv1, splice_len by lia; done).
    rewrite (slice_ok vec1), slice_to_end by lia. cbn [mbind outcome_bind]. rewrite drop_0, Z.sub_0_r.
    set (m := len data - n). assert (len (drop (Z.to_nat n) data) = m) as Hm by by rewrite len_drop by lia.
    assert (len (take (Z.to_nat m) vec1) = m) as Ht by (unfold len in *; rewrite length_take; lia).
    rewrite copy_into_fits, Hm, (drop_all' (take _ vec1)) by lia. rewrite app_nil_r.
    rewrite (wadd_id 64) by (unfold in_width; lia). replace (n + m) with (len data) by lia.
    eexists. split; [done|].
    assert (∀ rest, len rest = m → rest ++ drop (Z.to_nat m) vec1 =
      take (Z.to_nat 0) vec1 ++ rest ++ drop (Z.to_nat (0 + len rest)) vec1) as Hsp
      by (intros rest ->; done).
    rewrite Hsp by done. split; [by rewrite splice_len by lia|].
    intros q Hq. rewrite splice_at by lia. rewrite Hm, Hv1, splice_at, mod_offset by lia. cbn zeta.
    assert (n = ring_size r - offset ∧ m = len data - n) as [En Em] by done.
    repeat case_decide; try (done || lia); unfold d, vec_at.
    + rewrite lookup_drop. do 2 f_equal. lia.
    + rewrite lookup_take_lt by lia. done.
  - rewrite copy_into_fits by lia. rewrite drop_drop.
    replace (Z.to_nat offset + Z.to_nat (len data))%nat with (Z.to_nat (offset + len data)) by lia.
    eexists. split; [done|]. split; [by rewrite splice_len by lia|].
    intros q Hq. rewrite splice_at, mod_offset by lia. cbn zeta. repeat case_decide; (done || lia).
Qed.
End wrapped.

(** ** The ring as a queue of bytes *)

Record ring_wf (r : RingBuffer) : Prop := {
  rw_size : ∃ k, 0 ≤ k ≤ 63 ∧ ring_size r = 2 ^ k;
  rw_mask : ring_mask r = ring_size r - 1;
  rw_len : len (ring_vec r) = ring_size r;
  rw_head : in_width 64 (ring_head r);
  rw_tail : in_width 64 (ring_tail r);
  rw_available : available r ≤ ring_mask r;
}.

(** The bytes between the head and the tail. *)
Definition content (r : RingBuffer) : bytes := ring_window r (ring_head r) (available r).

Section wf.
Context (r : RingBuffer) (Hr : ring_wf r).

Lemma ring_size_range : 0 < ring_size r ≤ 2 ^ 63.
Proof.
  destruct (rw_size _ Hr) as (k & Hk & ->). split; [by apply Z.pow_pos_nonneg; lia|].
  by apply Z.pow_le_mono_r; lia.
Qed.

Lemma mask_mod p : Z.land p (ring_mask r) = p mod ring_size r.
Proof.
  destruct (rw_size _ Hr) as (k & Hk & Hs). rewrite (rw_mask _ Hr), Hs.
  replace (2 ^ k - 1) with (Z.ones k) by (rewrite Z.ones_equiv; lia). by apply Z.land_ones; lia.
Qed.

Lemma available_range : 0 ≤ available r ≤ ring_mask r.
Proof. split; [apply wrap_range; lia|apply Hr]. Qed.

(** The counters agree with positions that never wrap. *)
Lemma wrap_pos p : ∃ j, wrap 64 p = p + j * ring_size r.
Proof.
  destruct (rw_size _ Hr) as (k & Hk & ->). exists (- (p / 2 ^ 64) * 2 ^ (64 - k)).
  rewrite <- Z.mul_assoc, <- Z.pow_add_r by lia. replace (64 - k + k) with 64 by lia.
  unfold wrap. rewrite Z.mod_eq by lia. lia.
Qed.

Lemma at_shift p j : ring_at r (p + j * ring_size r) = ring_at r p.
Proof. unfold ring_at. f_equal. apply Z_mod_plus_full. Qed.

Lemma tail_pos : ∃ j, ring_tail r = ring_head r + available r + j * ring_size r.
Proof. destruct (wrap_pos (ring_tail r - ring_head r)) as [j Hj]. exists (- j). unfold available, wsub. lia. Qed.

Lemma tail_laps : ∃ q, ring_tail r - ring_head r = available r + q * 2 ^ 64.
Proof.
  exists ((ring_tail r - ring_head r) / 2 ^ 64). unfold available, wsub, wrap. rewrite Z.mod_eq by lia. lia.
Qed.

Lemma tail_0 : ring_tail r +u64 0 = ring_tail r.
Proof. rewrite wadd_id; rewrite Z.add_0_r; [done|apply Hr]. Qed.

(** Moving the tail by [n] adds [n] to what is available. *)
Lemma available_moved n :
  0 ≤ n → available r + n < 2 ^ 64 → (ring_tail r +u64 n) -u64 ring_head r = available r + n.
Proof.
  intros Hn Ha. pose proof available_range. destruct tail_laps as [q Hq].
  unfold wsub, wadd, wrap at 1 2. rewrite Zminus_mod_idemp_l.
  replace (ring_tail r + n - ring_head r) with (available r + n + q * 2 ^ 64) by lia.
  rewrite Z_mod_plus_full. by apply Z.mod_small; lia.
Qed.

(** What is free behind a position at distance [n] from the tail. *)
Lemma free_behind n :
  0 ≤ n → available r + n ≤ ring_mask r →
  ring_mask r +u64 ring_head r -u64 (ring_tail r +u64 n) = ring_mask r - available r - n.
Proof.
  intros Hn Ha. pose proof available_range. pose proof ring_size_range. pose proof (rw_mask _ Hr).
  destruct tail_laps as [q Hq].
  unfold wsub, wadd, wrap at 1 2 3. rewrite Zminus_mod_idemp_l, Zminus_mod_idemp_r.
  replace (ring_mask r + ring_head r - (ring_tail r + n))
    with (ring_mask r - available r - n + - q * 2 ^ 64) by lia.
  rewrite Z_mod_plus_full. by apply Z.mod_small; lia.
Qed.

(** A write covers the tape from its position on. *)
Lemma write_tape p d :
  len d ≤ ring_size r →
  ∃ vec, wrapped_write r (Z.land p (ring_mask r)) d = Ret (with_vec r vec, len d) ∧
    len vec = ring_size r ∧
    ∀ i, 0 ≤ i < ring_size r →
      ring_at (with_vec r vec) (p + i) = if decide (i < len d) then vec_at d i else ring_at r (p + i).
Proof.
  intros Hd. pose proof ring_size_range as Hs. rewrite mask_mod.
  pose proof (Z.mod_pos_bound p (ring_size r)).
  destruct (wrapped_write_spec r (rw_len _ Hr) Hs (p mod ring_size r) d) as (vec & He & Hl & Hv); [lia|done|].
  exists vec. split; [done|]. split; [done|]. intros i Hi. unfold ring_at. cbn [with_vec ring_vec ring_size].
  rewrite Hv by (apply Z.mod_pos_bound; lia). cbn zeta.
  assert (((p + i) mod ring_size r - p mod ring_size r) mod ring_size r = i) as ->; [|done].
  rewrite <- Zminus_mod. replace (p + i - p) with i by lia. by apply Z.mod_small.
Qed.

(** A write at a distance from the tail: what is before it stays. *)
Lemma write_behind_tail off d :
  0 ≤ off → available r + off + len d ≤ ring_mask r →
  ∃ vec, wrapped_write r (Z.land (ring_tail r +u64 off) (ring_mask r)) d = Ret (with_vec r vec, len d) ∧
    ring_wf (with_vec r vec) ∧
    (∀ i, 0 ≤ i < available r + off →
      ring_at (with_vec r vec) (ring_head r + i) = ring_at r (ring_head r + i)) ∧
    ∀ i, 0 ≤ i → available r + off + i < ring_size r →
      ring_at (with_vec r vec) (ring_head r + available r + off + i) =
        if decide (i < len d) then vec_at d i else ring_at r (ring_head r + available r + off + i).
Proof.
  intros Hoff Hd. pose proof available_range as Ha. pose proof ring_size_range as Hs.
  pose proof (rw_mask _ Hr) as Hm. pose proof (len_nonneg d).
  destruct (write_tape (ring_tail r +u64 off) d) as (vec & He & Hl & Htape); [lia|].
  exists vec. split; [done|]. destruct Hr as [? ? ? ? ? ?].
  split; [by split|]. clear He.
  destruct (wrap_pos (ring_tail r + off)) as [j Hj], tail_pos as [j' Hj'].
  unfold wadd in Htape. rewrite Hj, Hj' in Htape.
  assert (∀ x k, ring_at (with_vec r vec) (x + k * ring_size r) = ring_at (with_vec r vec) x) as Hsh
    by (intros; unfold ring_at; f_equal; apply Z_mod_plus_full).
  split; intros i Hi; [|intros Hi'].
  - specialize (Htape (ring_size r + i - available r - off)). rewrite decide_False in Htape by lia.
    rewrite <- (Hsh _ (j' + j + 1)), <- (at_shift _ (j' + j + 1)).
    etrans; [|etrans; [apply Htape; lia|]]; f_equal; lia.
  - specialize (Htape i). rewrite <- (Hsh _ (j' + j)), <- (at_shift _ (j' + j)).
    replace (ring_head r + available r + off + i + (j' + j) * ring_size r)
      with (ring_head r + available r + j' * ring_size r + off + j * ring_size r + i) by lia.
    apply Htape. lia.
Qed.

Lemma seek_tail_wf n :
  0 ≤ n → available r + n ≤ ring_mask r →
  ring_wf (seek_tail r n) ∧ available (seek_tail r n) = available r + n.
Proof.
  intros Hn Ha. pose proof ring_size_range. pose proof (rw_mask _ Hr).
  assert (available (seek_tail r n) = available r + n) as Hav by by apply available_moved; lia.
  split; [|done]. split; try apply Hr; [by apply wrap_range|]. by rewrite Hav.
Qed.

Lemma content_seek n :
  0 ≤ n → available r + n ≤ ring_mask r →
  content (seek_tail r n) = ring_window r (ring_head r) (available r + n).
Proof. intros Hn Ha. unfold content. by rewrite (proj2 (seek_tail_wf n Hn Ha)). Qed.

Lemma window_cells_of d p : (∀ i, 0 ≤ i < len d → ring_at r (p + i) = vec_at d i) → ring_window r p (len d) = d.
Proof.
  intros Hd. transitivity ((λ i, vec_at d (0 + i)) <$> seqZ 0 (len d)).
  - apply list_fmap_ext. intros j i Hi%lookup_seqZ. apply Hd. lia.
  - rewrite <- take_drop_cells by (pose proof (len_nonneg d); lia). by rewrite drop_0, take_all.
Qed.
End wf.

(** Moving the tail and writing do not interfere. *)
Lemma seek_tail_write r n offset d :
  wrapped_write (seek_tail r n) offset d =
    ('(r', k) ← wrapped_write r offset d; Ret (seek_tail r' n, k)).
Proof.
  unfold wrapped_write, assert_, mbind, outcome_bind. cbn [seek_tail ring_vec ring_size].
  destruct (decide (offset < ring_size r)); [|done]. destruct (decide (len d <= ring_size r)); [|done].
  destruct (slice _ _ _); [|done..]. destruct (copy_into _ _). destruct (decide _); [|done].
  do 2 (destruct (slice _ _ _); [|done..]). by destruct (copy_into _ _).
Qed.

Section queue.
Context (r : RingBuffer) (Hr : ring_wf r).

Lemma len_content : len (content r) = available r.
Proof. apply len_window. by apply available_range. Qed.

Lemma write_at_tail_eq data :
  let n := len data `min` (ring_mask r - available r) in
  write_at_tail r data =
    ('(r', k) ← wrapped_write r (Z.land (ring_tail r +u64 0) (ring_mask r)) (take (Z.to_nat n) data);
     Ret (seek_tail r' n, k)).
Proof.
  intros n. pose proof (available_range r Hr). pose proof (len_nonneg data).
  unfold write_at_tail. pose proof (free_behind r Hr 0 ltac:(lia) ltac:(lia)) as Hf.
  rewrite tail_0 in * by done. rewrite Hf, Z.sub_0_r. fold n. rewrite slice_ok by lia. cbn [mbind outcome_bind].
  by rewrite drop_0, Z.sub_0_r, seek_tail_write.
Qed.

Lemma write_at_tail_spec data :
  let n := len data `min` (ring_mask r - len (content r)) in
  ∃ r', write_at_tail r data = Ret (r', n) ∧ ring_wf r' ∧ ring_mask r' = ring_mask r ∧
    content r' = content r ++ take (Z.to_nat n) data.
Proof.
  rewrite len_content, write_at_tail_eq. intros n. pose proof (available_range r Hr) as Ha.
  pose proof (len_nonneg data). fold n. set (d := take (Z.to_nat n) data).
  pose proof (rw_mask _ Hr).
  assert (len d = n) as Hdn by (unfold d, len in *; rewrite length_take; lia).
  destruct (write_behind_tail r Hr 0 d) as (vec & -> & Hwf & Hkept & Hnew); [lia..|].
  cbn [mbind outcome_bind]. rewrite Hdn.
  destruct (seek_tail_wf (with_vec r vec) Hwf n) as [Hwf' Hav];
    [lia|change (available r + n ≤ ring_mask r); lia|].
  change (available (with_vec r vec)) with (available r) in Hav.
  eexists. split; [done|]. split_and!; [done..|].
  unfold content. rewrite Hav, window_app by lia. f_equal.
  - apply window_ext. intros i Hi. apply Hkept. lia.
  - rewrite <- Hdn. apply window_cells_of. intros i Hi. specialize (Hnew i).
    rewrite decide_True in Hnew by lia. rewrite <- Hnew by lia. unfold ring_at. cbn. do 2 f_equal. lia.
Qed.

(** Moving the head by [k] drops [k] bytes. *)
Lemma head_moved k :
  0 ≤ k ≤ available r →
  let r' := with_head r (ring_head r +u64 k) in
  ring_wf r' ∧ content r' = drop (Z.to_nat k) (content r).
Proof.
  intros Hk r'. pose proof (available_range r Hr) as Ha. pose proof (ring_size_range r Hr).
  pose proof (rw_mask _ Hr). destruct (tail_laps r) as [q Hq].
  assert (available r' = available r - k) as Hav.
  { unfold available at 1, r', wsub, wadd, wrap. cbn [with_head ring_head ring_tail].
    rewrite Zminus_mod_idemp_r. replace (ring_tail r - (ring_head r + k)) with (available r - k + q * 2 ^ 64) by lia.
    rewrite Z_mod_plus_full. by apply Z.mod_small; lia. }
  split; [split; try apply Hr; [by apply wrap_range|rewrite Hav; cbn; lia]|].
  unfold content. rewrite Hav. replace (available r) with (k + (available r - k)) at 2 by lia.
  rewrite window_app by lia.
  rewrite drop_app_length' by (pose proof (len_window r (ring_head r) k); unfold len in *; lia).
  apply window_ext. intros i Hi. change (ring_at r' (wrap 64 (ring_head r + k) + i) =
    ring_at r (ring_head r + k + i)). destruct (wrap_pos r Hr (ring_head r + k)) as [j ->].
  rewrite <- (at_shift r _ j). change (ring_at r') with (ring_at r). f_equal. lia.
Qed.

Lemma read_spec data increment :
  0 ≤ increment →
  let n := len (content r) `min` len data in
  ∃ r', read_from_head_with_increment r data increment =
      Ret (r', (n, take (Z.to_nat n) (content r) ++ drop (Z.to_nat n) data)) ∧
    ring_wf r' ∧ ring_mask r' = ring_mask r ∧
    content r' = drop (Z.to_nat (increment `min` n)) (content r).
Proof.
  rewrite len_content. intros Hi n. pose proof (available_range r Hr) as Ha. pose proof (len_nonneg data).
  pose proof (ring_size_range r Hr) as Hs. pose proof (rw_mask _ Hr).
  unfold read_from_head_with_increment. fold n.
  assert (0 ≤ n ≤ available r ∧ n ≤ len data) as [Hn Hnd] by lia.
  rewrite slice_ok by lia. cbn [mbind outcome_bind]. rewrite drop_0, Z.sub_0_r.
  set (d := take (Z.to_nat n) data).
  assert (len d = n) as Hdn by (unfold d, len in *; rewrite length_take; lia).
  destruct (head_moved (increment `min` n)) as [Hwf Hc]; [lia|].
  unfold read_offset. rewrite mask_mod by done. pose proof (Z.mod_pos_bound (ring_head r) (ring_size r)).
  rewrite wrapped_read_spec by (cbn; (apply Hr || done || lia)). cbn [mbind outcome_bind]. rewrite Hdn.
  eexists. split; [|by split_and!]. do 3 f_equal.
  unfold content. replace (available r) with (n + (available r - n)) by lia. rewrite window_app by lia.
  rewrite take_app_length' by (pose proof (len_window r (ring_head r) n); unfold len in *; lia).
  f_equal. apply window_ext. intros i Hi'. unfold ring_at. cbn. f_equal. by rewrite Zplus_mod_idemp_l.
Qed.

Lemma seek_head_spec n :
  0 ≤ n →
  (n ≤ len (content r) → ∃ r', seek_head r n = Ret r' ∧ ring_wf r' ∧ ring_mask r' = ring_mask r ∧
    content r' = drop (Z.to_nat n) (content r)) ∧
  (len (content r) < n → seek_head r n = Panic).
Proof.
  rewrite len_content. intros Hn. unfold seek_head, assert_. split; intros Hl.
  - rewrite decide_True by lia. destruct (head_moved n) as [Hwf Hc]; [lia|]. by eexists.
  - by rewrite decide_False by lia.
Qed.

Lemma clear_spec : ring_wf (ring_clear r) ∧ content (ring_clear r) = [].
Proof.
  split; [|done]. pose proof (available_range r Hr). split; try apply Hr; [done..|].
  change (0 ≤ ring_mask r). lia.
Qed.
End queue.

Lemma RingBuffer_new_spec k :
  0 ≤ k ≤ 63 → ∃ r, RingBuffer_new (2 ^ k) = Some r ∧ ring_wf r ∧ content r = [] ∧ ring_mask r = 2 ^ k - 1.
Proof.
  intros Hk. assert (0 < 2 ^ k ≤ 2 ^ 63) as Hs.
  { split; [by apply Z.pow_pos_nonneg; lia|by apply Z.pow_le_mono_r; lia]. }
  unfold RingBuffer_new. rewrite wsub_id by (unfold in_width; lia).
  replace (2 ^ k - 1) with (Z.ones k) by (rewrite Z.ones_equiv; lia).
  rewrite Z.land_ones, Z_mod_same_full by lia. rewrite decide_False by (by intros []).
  rewrite Z.ones_equiv. eexists. split; [done|]. split; [|split; [done|cbn [ring_mask]; lia]].
  split; cbn [ring_size ring_mask ring_vec ring_head ring_tail];
    [by exists k|lia| |done|done|change (0 ≤ Z.pred (2 ^ k)); lia].
  unfold len. rewrite length_replicate. lia.
Qed.

(** ** Refinement *)

Inductive RingOp :=
| OpWrite (data : bytes)
| OpRead (data : bytes) (increment : Z)
| OpSeek (n : Z)
| OpClear.

(** Counts are unsigned. *)
Definition op_ok (op : RingOp) : Prop :=
  match op with OpRead _ n => 0 ≤ n | OpSeek n => 0 ≤ n | _ => True end.

(** What a caller sees of an operation: a number, and the buffer it passed. *)
Definition ring_step (r : RingBuffer) (op : RingOp) : outcome (RingBuffer * (Z * bytes)) :=
  match op with
  | OpWrite data => '(r, n) ← write_at_tail r data; Ret (r, (n, data))
  | OpRead data increment => read_from_head_with_increment r data increment
  | OpSeek n => r ← seek_head r n; Ret (r, (n, []))
  | OpClear => Ret (ring_clear r, (0, []))
  end.

(** A queue of at most [cap] bytes, which takes what fits. *)
Definition queue_step (cap : Z) (q : bytes) (op : RingOp) : outcome (bytes * (Z * bytes)) :=
  match op with
  | OpWrite data =>
      let n := len data `min` (cap - len q) in
      Ret (q ++ take (Z.to_nat n) data, (n, data))
  | OpRead data increment =>
      let n := len q `min` len data in
      Ret (drop (Z.to_nat (increment `min` n)) q, (n, take (Z.to_nat n) q ++ drop (Z.to_nat n) data))
  | OpSeek n => if decide (n <= len q) then Ret (drop (Z.to_nat n) q, (n, [])) else Panic
  | OpClear => Ret ([], (0, []))
  end.

Fixpoint run_ops {S} (step : S → RingOp → outcome (S * (Z * bytes))) (s : S) (ops : list RingOp) :
    outcome (list (Z * bytes)) :=
  match ops with
  | [] => Ret []
  | op :: ops => '(s, o) ← step s op; os ← run_ops step s ops; Ret (o :: os)
  end.

Lemma ring_step_spec r op :
  ring_wf r → op_ok op →
  (∃ r' o, ring_step r op = Ret (r', o) ∧ ring_wf r' ∧ ring_mask r' = ring_mask r ∧
    queue_step (ring_mask r) (content r) op = Ret (content r', o)) ∨
  (ring_step r op = Panic ∧ queue_step (ring_mask r) (content r) op = Panic).
Proof.
  intros Hr Hop. destruct op as [data|data inc|n|]; cbn [ring_step queue_step] in *.
  - left. destruct (write_at_tail_spec r Hr data) as (r' & -> & ? & ? & Hc).
    eexists _, _. split; [done|]. split_and!; [done..|]. by rewrite Hc.
  - left. destruct (read_spec r Hr data inc Hop) as (r' & -> & ? & ? & Hc).
    eexists _, _. split; [done|]. split_and!; [done..|]. by rewrite Hc.
  - destruct (seek_head_spec r Hr n Hop) as [Hin Hout]. case_decide.
    + left. destruct Hin as (r' & -> & ? & ? & Hc); [done|].
      eexists _, _. split; [done|]. split_and!; [done..|]. by rewrite Hc.
    + right. by rewrite Hout by lia.
  - left. destruct (clear_spec r Hr) as [Hwf Hc]. eexists _, _. split; [done|].
    split_and!; [done..|]. by rewrite Hc.
Qed.

Lemma run_ops_refines r ops :
  ring_wf r → Forall op_ok ops →
  run_ops ring_step r ops = run_ops (queue_step (ring_mask r)) (content r) ops.
Proof.
  intros Hr Hops. revert r Hr. induction Hops as [|op ops Hop _ IH]; intros r Hr; [done|]. cbn.
  destruct (ring_step_spec r op Hr Hop) as [(r' & o & -> & Hr' & Hm & ->)|[-> ->]]; [|done].
  cbn. by rewrite IH, Hm.
Qed.

(** C13: the ring buffer is a bounded queue of bytes.  A ring of 2^k bytes
    behaves, under any sequence of writes at the tail, reads at the head with or
    without consuming, seeks and clears, as a list of at most 2^k - 1 bytes:
    the same numbers are returned, the same bytes are read, and a seek past the
    available bytes panics in both, however often the positions wrap around the
    vector. *)
Theorem ring_refines_queue k ops :
  0 ≤ k ≤ 63 → Forall op_ok ops →
  (r ← expect (RingBuffer_new (2 ^ k)); run_ops ring_step r ops) =
    run_ops (queue_step (2 ^ k - 1)) [] ops.
Proof.
  intros Hk Hops. destruct (RingBuffer_new_spec k Hk) as (r & -> & Hr & Hc & Hm). cbn [expect mbind outcome_bind].
  by rewrite (run_ops_refines r ops Hr Hops), Hc, Hm.
Qed.

Definition ex_ring_ops : list RingOp :=
  [OpWrite [1; 2; 3; 4]; OpRead [0; 0] 2; OpWrite [5; 6; 7]; OpRead [0; 0; 0; 0] 1; OpSeek 2; OpSeek 1].

Lemma ring_refines_queue_witness :
  (r ← expect (RingBuffer_new (2 ^ 2)); run_ops ring_step r ex_ring_ops) =
    run_ops (queue_step (2 ^ 2 - 1)) [] ex_ring_ops.
Proof. apply (ring_refines_queue 2 ex_ring_ops); [lia|]. repeat constructor; done. Defined.

(** What the sequence gives: the first write is cut to three bytes, the second
    one wraps around. *)
Example ex_ring_run :
  run_ops (queue_step (2 ^ 2 - 1)) [] (take 4 ex_ring_ops) =
    Ret [(3, [1; 2; 3; 4]); (2, [1; 2]); (2, [5; 6; 7]); (3, [3; 5; 6; 0])].
Proof. by vm_compute. Qed.

(** ** Out-of-order data *)

(** data that arrives out of order ends up in order.  If [late] is written
    behind a gap as long as [early], and [early] is written at the tail
    afterwards, then moving the tail past [late] makes both available, in their
    order, behind what was there; both fit when their lengths do. *)
Theorem ring_out_of_order r early late :
  ring_wf r → len (content r) + len early + len late ≤ ring_mask r →
  ∃ r1 r2, write_at_offset_from_tail r (len early) late = Ret (r1, len late) ∧
    content r1 = content r ∧
    write_at_tail r1 early = Ret (r2, len early) ∧ content r2 = content r ++ early ∧
    content (seek_tail r2 (len late)) = content r ++ early ++ late.
Proof.
  intros Hr Hfit. rewrite len_content in Hfit by done.
  pose proof (len_nonneg early). pose proof (len_nonneg late). pose proof (available_range r Hr).
  pose proof (rw_mask _ Hr).
  destruct (write_behind_tail r Hr (len early) late) as (vec & He & Hwf1 & Hkept1 & Hnew1); [lia..|].
  set (r1 := with_vec r vec) in *.
  assert (ring_head r1 = ring_head r ∧ available r1 = available r ∧ ring_mask r1 = ring_mask r ∧
    ring_size r1 = ring_size r) as (Hh & Ha & Hm & Hs) by done.
  destruct (write_behind_tail r1 Hwf1 0 early) as (vec2 & He2 & Hwf2 & Hkept2 & Hnew2); [lia..|].
  set (r2 := with_vec r1 vec2) in *. rewrite Hh, Ha, Hs in *.
  assert (available r2 = available r ∧ ring_mask r2 = ring_mask r) as [Ha2 Hm2] by done.
  destruct (seek_tail_wf r2 Hwf2 (len early)) as [Hwf3 Hav];
    [lia|change (available r + len early ≤ ring_mask r); lia|].
  assert (∀ i, 0 ≤ i < available r → ring_at r2 (ring_head r + i) = ring_at r (ring_head r + i)) as Hold
    by (intros i Hi; rewrite Hkept2 by lia; apply Hkept1; lia).
  assert (∀ i, 0 ≤ i < len early → ring_at r2 (ring_head r + available r + i) = vec_at early i) as Hearly.
  { intros i Hi. specialize (Hnew2 i). rewrite decide_True in Hnew2 by lia. rewrite <- Hnew2 by lia.
    f_equal. lia. }
  exists r1, (seek_tail r2 (len early)). split_and!.
  - unfold write_at_offset_from_tail.
    pose proof (free_behind r Hr 0 ltac:(lia) ltac:(lia)) as Hf.
    rewrite tail_0 in Hf by done. rewrite Hf.
    rewrite decide_False by lia. rewrite (free_behind r Hr (len early)) by lia. rewrite Z.min_l by lia.
    rewrite slice_ok by lia. cbn [mbind outcome_bind]. rewrite drop_0, take_all by lia. done.
  - apply window_ext. intros i Hi. apply Hkept1. lia.
  - rewrite write_at_tail_eq by done. rewrite Z.min_l by (rewrite Ha, Hm; lia).
    rewrite take_all by lia. by rewrite He2.
  - rewrite (content_seek r2 Hwf2) by (rewrite ?Ha2, ?Hm2; lia). rewrite Ha2. rewrite window_app by lia. f_equal; [by apply window_ext, Hold|].
    by apply window_cells_of.
  - rewrite (content_seek _ Hwf3) by (rewrite ?Hav; (lia || (change (available r + len early + len late ≤ ring_mask r); lia))).
    change (ring_window (seek_tail r2 (len early)) (ring_head (seek_tail r2 (len early))))
      with (ring_window r2 (ring_head r)). rewrite Hav, Ha2, window_app, window_app by lia.
    rewrite <- (assoc_L (++)). f_equal; [by apply window_ext, Hold|].
    f_equal; [by apply window_cells_of|]. apply window_cells_of. intros i Hi.
    specialize (Hnew1 i). rewrite decide_True in Hnew1 by lia. rewrite <- Hnew1 by lia.
    specialize (Hnew2 (len early + i)). rewrite decide_False in Hnew2 by lia.
    etrans; [|etrans; [apply Hnew2; lia|]]; f_equal; lia.
Qed.

(** A ring of eight bytes whose free part wraps around the vector. *)
Definition ex_ring : RingBuffer := mkRingBuffer 6 7 8 7 [0; 0; 0; 0; 0; 0; 9; 0].

Lemma ring_out_of_order_witness :
  ∃ r1 r2, write_at_offset_from_tail ex_ring (len [1; 2]) [3; 4; 5] = Ret (r1, len [3; 4; 5]) ∧
    content r1 = content ex_ring ∧
    write_at_tail r1 [1; 2] = Ret (r2, len [1; 2]) ∧ content r2 = content ex_ring ++ [1; 2] ∧
    content (seek_tail r2 (len [3; 4; 5])) = content ex_ring ++ [1; 2] ++ [3; 4; 5].
Proof.
  apply (ring_out_of_order ex_ring [1; 2] [3; 4; 5]); [|by vm_compute].
  split; [exists 3; split; [lia|done]|done|done|split; done|split; done|by vm_compute].
Defined.

Example ex_ring_content : content ex_ring = [9].
Proof. by vm_compute. Qed.
