(* ===== verification/Mpsc.v ===== *)
(** * Mpsc: NetBricks' queue of mbufs, for many producers and one consumer

    Models net/framework/src/queues/mpsc_mbuf_queue.rs.  An mbuf is its address.
    The fields of the queue are atomic, and producers and the consumer run
    concurrently: every thread is a state that says which atomic operation it
    does next, with the locals that live across it ([producer_step],
    [consumer_step]), and a step of the system is one atomic operation of one
    thread ([sys_step]).  The orderings of the source (acquire and release)
    make the interleaving of the operations a sound picture of what each thread
    sees of the others.

    A producer handle is used by one thread, so it is cloned only between its
    calls; the path for a single producer relies on that. *)

From S2P Require Import Prelude.

(** ** The queue *)

Record MpscQueue := mkMpscQueue {
  slots : Z;
  queue_mask : Z;
  producer_head : Z;
  producer_tail : Z;
  consumer_head : Z;
  consumer_tail : Z;
  queue : list Z;
  n_producers : Z;
}.

(** [size |= size >> n] *)
Definition smear (size n : Z) : Z := Z.lor size (Z.shiftr size n).

Definition round_to_power_of_2 (size : Z) : Z :=
  wadd 64 (foldl smear (wsub 64 size 1) [1; 2; 4; 8; 16; 32]) 1.

Definition MpscQueue_new (size : Z) : MpscQueue :=
  let slots := if decide (Z.land size (wsub 64 size 1) ≠ 0) then round_to_power_of_2 size else size in
  mkMpscQueue slots (wsub 64 slots 1) 0 0 0 0 (replicate (Z.to_nat slots) 0) 0.

Definition reference_producers (q : MpscQueue) : MpscQueue :=
  mkMpscQueue (slots q) (queue_mask q) (producer_head q) (producer_tail q) (consumer_head q)
    (consumer_tail q) (queue q) (n_producers q +u64 1).

(** The stores [queue[queue_idx + j] = mbufs[mbuf_idx + j]] of [n] turns of a
    loop, in order. *)
Definition store_run (mbufs : list Z) (mbuf_idx queue_idx n : Z) : outcome (list (Z * Z)) :=
  ofold (λ stores j,
    m ← index mbufs (mbuf_idx + j);
    Ret (stores ++ [(queue_idx + j, m)])) [] (seqZ 0 n).

(** What [enqueue_mbufs] stores, in order; each store is a step of its own. *)
Definition enqueue_mbufs (q : MpscQueue) (start enqueue : Z) (mbufs : list Z) : outcome (list (Z * Z)) :=
  let queue_idx := Z.land start (queue_mask q) in
  if decide (queue_idx + enqueue >= slots q) then
    let first := slots q - queue_idx in
    stores ← store_run mbufs 0 queue_idx first;
    rest ← store_run mbufs first 0 (enqueue - first);
    Ret (stores ++ rest)
  else store_run mbufs 0 queue_idx enqueue.

(** The slots that [dequeue_mbufs] loads, in order. *)
Definition dequeue_mbufs (q : MpscQueue) (start dequeue : Z) : list Z :=
  let queue_idx := Z.land start (queue_mask q) in
  if decide (queue_idx + dequeue >= slots q) then
    let first := slots q - queue_idx in
    seqZ queue_idx first ++ seqZ 0 (dequeue - first)
  else seqZ queue_idx dequeue.

(** ** Producers *)

(** What happened, as the callers see it: a producer reserved slots for mbufs, a
    call of [enqueue] returned, a call of [dequeue] returned. *)
Inductive Event :=
| EvReserved (p : nat) (mbufs : list Z)
| EvEnqueue (p : nat) (inserted : Z)
| EvDequeue (mbufs : list Z).

(** The next operation of a producer.  [mp] says which of [enqueue_sp] and
    [enqueue_mp] it is in. *)
Inductive PState :=
| PIdle
| PLoadHead (mp : bool) (mbufs : list Z)
| PLoadTail (mp : bool) (mbufs : list Z) (head : Z)
| PReserve (mp : bool) (mbufs : list Z) (head insert : Z)
| PStore (mp : bool) (head insert : Z) (stores : list (Z * Z))
| PPublish (head insert : Z).

#[export] Instance PState_eq_dec : EqDecision PState.
Proof. solve_decision. Defined.

Definition mpsc_enqueue (q : MpscQueue) (mbufs : list Z) : outcome PState :=
  let producers := n_producers q in
  _ ← assert_ (producers >= 1);
  Ret (PLoadHead (bool_decide (producers ≠ 1)) mbufs).

Definition with_producer (q : MpscQueue) (head tail : Z) (cells : list Z) : MpscQueue :=
  mkMpscQueue (slots q) (queue_mask q) head tail (consumer_head q) (consumer_tail q) cells
    (n_producers q).

(** [enqueue_sp] stores the head, [enqueue_mp] exchanges it, starts again when it
    has changed, and waits for its turn before it publishes. *)
Definition producer_step (q : MpscQueue) (p : nat) (ps : PState) :
    outcome (MpscQueue * PState * list Event) :=
  match ps with
  | PIdle => Ret (q, PIdle, [])
  | PLoadHead mp mbufs => Ret (q, PLoadTail mp mbufs (producer_head q), [])
  | PLoadTail mp mbufs head =>
      let free := queue_mask q +u64 consumer_tail q -u64 head in
      let insert := free `min` len mbufs in
      if decide (insert > 0) then Ret (q, PReserve mp mbufs head insert, [])
      else Ret (q, PIdle, [EvEnqueue p 0])
  | PReserve mp mbufs head insert =>
      if mp && negb (bool_decide (producer_head q = head)) then Ret (q, PLoadHead mp mbufs, [])
      else
        mbufs ← slice mbufs 0 insert;
        stores ← enqueue_mbufs q head insert mbufs;
        Ret (with_producer q (head +u64 insert) (producer_tail q) (queue q),
             PStore mp head insert stores, [EvReserved p mbufs])
  | PStore mp head insert ((i, m) :: stores) =>
      cells ← set_index (queue q) i m;
      Ret (with_producer q (producer_head q) (producer_tail q) cells, PStore mp head insert stores, [])
  | PStore mp head insert [] =>
      if mp && negb (bool_decide (producer_tail q = head)) then Ret (q, ps, [])
      else Ret (q, PPublish head insert, [])
  | PPublish head insert =>
      Ret (with_producer q (producer_head q) (head +u64 insert) (queue q), PIdle, [EvEnqueue p insert])
  end.

(** ** The consumer *)

(** The next operation of the consumer; [room] is the length of the buffer. *)
Inductive CState :=
| CIdle
| CLoadHead (room : Z)
| CLoadTail (room head : Z)
| CReserve (head dequeue : Z)
| CLoad (head dequeue : Z) (loads : list Z) (mbufs : list Z).

#[export] Instance CState_eq_dec : EqDecision CState.
Proof. solve_decision. Defined.

Definition with_consumer (q : MpscQueue) (head tail : Z) : MpscQueue :=
  mkMpscQueue (slots q) (queue_mask q) (producer_head q) (producer_tail q) head tail (queue q)
    (n_producers q).

Definition consumer_step (q : MpscQueue) (cs : CState) : outcome (MpscQueue * CState * list Event) :=
  match cs with
  | CIdle => Ret (q, CIdle, [])
  | CLoadHead room => Ret (q, CLoadTail room (consumer_head q), [])
  | CLoadTail room head =>
      let available_entries := producer_tail q -u64 head in
      let dequeue := room `min` available_entries in
      if decide (dequeue > 0) then Ret (q, CReserve head dequeue, [])
      else Ret (q, CIdle, [EvDequeue []])
  | CReserve head dequeue =>
      Ret (with_consumer q (head +u64 dequeue) (consumer_tail q),
           CLoad head dequeue (dequeue_mbufs q head dequeue) [], [])
  | CLoad head dequeue (i :: loads) mbufs =>
      m ← index (queue q) i;
      Ret (q, CLoad head dequeue loads (mbufs ++ [m]), [])
  | CLoad head dequeue [] mbufs =>
      Ret (with_consumer q (consumer_head q) (head +u64 dequeue), CIdle, [EvDequeue mbufs])
  end.

(** ** The system *)

Record System := mkSystem {
  sys_queue : MpscQueue;
  sys_producers : list PState;
  sys_consumer : CState;
}.

(** [new_mpsc_queue_pair_with_size] *)
Definition new_mpsc_queue_pair (size : Z) : System :=
  mkSystem (reference_producers (MpscQueue_new size)) [PIdle] CIdle.

Inductive sys_step (σ : System) : list Event → System → Prop :=
| st_enqueue p mbufs ps :
    sys_producers σ !! p = Some PIdle → mpsc_enqueue (sys_queue σ) mbufs = Ret ps →
    sys_step σ [] (mkSystem (sys_queue σ) (<[p := ps]> (sys_producers σ)) (sys_consumer σ))
| st_clone p :
    sys_producers σ !! p = Some PIdle →
    sys_step σ [] (mkSystem (reference_producers (sys_queue σ)) (sys_producers σ ++ [PIdle])
                     (sys_consumer σ))
| st_producer p ps q ps' evs :
    sys_producers σ !! p = Some ps → ps ≠ PIdle →
    producer_step (sys_queue σ) p ps = Ret (q, ps', evs) →
    sys_step σ evs (mkSystem q (<[p := ps']> (sys_producers σ)) (sys_consumer σ))
| st_dequeue room :
    sys_consumer σ = CIdle → 0 ≤ room →
    sys_step σ [] (mkSystem (sys_queue σ) (sys_producers σ) (CLoadHead room))
| st_consumer q cs evs :
    sys_consumer σ ≠ CIdle → consumer_step (sys_queue σ) (sys_consumer σ) = Ret (q, cs, evs) →
    sys_step σ evs (mkSystem q (sys_producers σ) cs).

Inductive runs (σ : System) : list Event → System → Prop :=
| runs_start : runs σ [] σ
| runs_step tr σ1 evs σ2 : runs σ tr σ1 → sys_step σ1 evs σ2 → runs σ (tr ++ evs) σ2.

Definition reserved_of (e : Event) : list Z := match e with EvReserved _ ms => ms | _ => [] end.

Definition dequeued_of (e : Event) : list Z := match e with EvDequeue ms => ms | _ => [] end.

(** The mbufs that got a slot, in the order of their slots, and those that the
    consumer was given. *)
Definition inserted (tr : list Event) : list Z := tr ≫= reserved_of.

Definition dequeued (tr : list Event) : list Z := tr ≫= dequeued_of.

(** ** Slots *)

(** Entry [i] of a history. *)
Definition hat (l : list Z) (i : Z) : Z := default 0 (l !! Z.to_nat i).

Lemma hat_app l l' i : 0 ≤ i < len l → hat (l ++ l') i = hat l i.
Proof. unfold hat, len. intros Hi. by rewrite lookup_app_l by lia. Qed.

Lemma hat_app_new l l' i : 0 ≤ i → hat (l ++ l') (len l + i) = hat l' i.
Proof. unfold hat, len. intros Hi. rewrite lookup_app_r by lia. do 2 f_equal. lia. Qed.

Lemma mod_inj n a i j : a ≤ i < a + n → a ≤ j < a + n → i mod n = j mod n → i = j.
Proof.
  intros Hi Hj He. pose proof (Z.div_mod i n ltac:(lia)). pose proof (Z.div_mod j n ltac:(lia)).
  destruct (Z.lt_trichotomy (i / n) (j / n)) as [|[E|]]; [nia|rewrite E in *; lia|nia].
Qed.

(** The pairs of slot and mbuf for the entries [i], ..., [i + n - 1]. *)
Definition stores_of (slots : Z) (l : list Z) (i n : Z) : list (Z * Z) :=
  (λ i, (i mod slots, hat l i)) <$> seqZ i n.

Definition entries (l : list Z) (i n : Z) : list Z := hat l <$> seqZ i n.

Lemma stores_of_cons slots l i n :
  0 < n → stores_of slots l i n = (i mod slots, hat l i) :: stores_of slots l (i + 1) (n - 1).
Proof. intros. unfold stores_of. by rewrite seqZ_cons by done. Qed.

Lemma entries_snoc l i n : 0 ≤ n → entries l i n ++ [hat l (i + n)] = entries l i (n + 1).
Proof. intros. unfold entries. rewrite (seqZ_app i n 1), fmap_app by lia. done. Qed.

Lemma entries_app l i n m : 0 ≤ n → 0 ≤ m → entries l i n ++ entries l (i + n) m = entries l i (n + m).
Proof. intros. unfold entries. by rewrite <- fmap_app, <- seqZ_app by lia. Qed.

Lemma entries_take_drop l i n :
  0 ≤ i → 0 ≤ n → i + n ≤ len l → entries l i n = take (Z.to_nat n) (drop (Z.to_nat i) l).
Proof.
  intros Hi Hn Hl. apply list_eq. intros k. unfold entries. rewrite list_lookup_fmap.
  destruct (decide (Z.of_nat k < n)).
  - rewrite lookup_seqZ_lt, lookup_take_lt, lookup_drop by lia. cbn. unfold hat, len in *.
    replace (Z.to_nat (i + Z.of_nat k)) with (Z.to_nat i + k)%nat by lia.
    by destruct (lookup_lt_is_Some_2 l (Z.to_nat i + k)) as [x ->]; [lia|].
  - by rewrite lookup_seqZ_ge, lookup_take_ge by lia.
Qed.

Lemma entries_prefix l n : 0 ≤ n ≤ len l → entries l 0 n = take (Z.to_nat n) l.
Proof. intros. by rewrite entries_take_drop by lia. Qed.

Lemma fmap_seqZ_shift {A} (f : Z → A) i n : f <$> seqZ i n = (λ j, f (i + j)) <$> seqZ 0 n.
Proof.
  replace i with (i + 0) at 1 by lia. rewrite <- fmap_add_seqZ, <- list_fmap_compose. done.
Qed.

Lemma store_run_spec mbufs mbuf_idx queue_idx n :
  0 ≤ mbuf_idx → mbuf_idx + n ≤ len mbufs →
  store_run mbufs mbuf_idx queue_idx n =
    Ret ((λ j, (queue_idx + j, hat mbufs (mbuf_idx + j))) <$> seqZ 0 n).
Proof.
  intros Hi Hl. unfold store_run.
  rewrite (ofold_pure _ (λ c j, c ++ [(queue_idx + j, hat mbufs (mbuf_idx + j))])).
  - by rewrite foldl_snoc_map.
  - intros stores j Hj%elem_of_seqZ. unfold index. rewrite decide_True by lia.
    unfold hat, len in *. by destruct (lookup_lt_is_Some_2 mbufs (Z.to_nat (mbuf_idx + j))) as [x ->]; [lia|].
Qed.

Record queue_ok (q : MpscQueue) : Prop := {
  qo_slots : ∃ k, 0 ≤ k ≤ 63 ∧ slots q = 2 ^ k;
  qo_mask : queue_mask q = slots q - 1;
  qo_len : len (queue q) = slots q;
}.

Section slots.
Context (q : MpscQueue) (Hq : queue_ok q).

Lemma slots_range : 0 < slots q ≤ 2 ^ 63.
Proof.
  destruct (qo_slots _ Hq) as (k & Hk & ->). split; [by apply Z.pow_pos_nonneg; lia|].
  by apply Z.pow_le_mono_r; lia.
Qed.

Lemma queue_mask_mod p : Z.land p (queue_mask q) = p mod slots q.
Proof.
  destruct (qo_slots _ Hq) as (k & Hk & Hs). rewrite (qo_mask _ Hq), Hs.
  replace (2 ^ k - 1) with (Z.ones k) by (rewrite Z.ones_equiv; lia). by apply Z.land_ones; lia.
Qed.

(** A lap starts where the slots end. *)
Lemma slot_before p j : 0 ≤ j → p mod slots q + j < slots q → (p + j) mod slots q = p mod slots q + j.
Proof.
  intros Hj Hlt. pose proof slots_range. pose proof (Z.mod_pos_bound p (slots q) ltac:(lia)).
  rewrite <- Zplus_mod_idemp_l. by apply Z.mod_small; lia.
Qed.

Lemma slot_after p j :
  slots q ≤ p mod slots q + j < 2 * slots q → (p + j) mod slots q = p mod slots q + j - slots q.
Proof.
  intros Hlt. pose proof slots_range.
  rewrite <- Zplus_mod_idemp_l, <- (Z_mod_plus_full _ (-1)). rewrite Z.mod_small; lia.
Qed.

Lemma enqueue_mbufs_spec start mbufs :
  len mbufs ≤ slots q →
  enqueue_mbufs q start (len mbufs) mbufs =
    Ret ((λ j, ((start + j) mod slots q, hat mbufs j)) <$> seqZ 0 (len mbufs)).
Proof.
  intros Hl. pose proof slots_range. pose proof (len_nonneg mbufs).
  pose proof (Z.mod_pos_bound start (slots q) ltac:(lia)).
  unfold enqueue_mbufs. rewrite queue_mask_mod. case_decide.
  - rewrite !store_run_spec by lia. cbn [mbind outcome_bind]. f_equal.
    set (first := slots q - start mod slots q).
    replace (len mbufs) with (first + (len mbufs - first)) at 2 by lia.
    rewrite seqZ_app, fmap_app by lia. f_equal.
    + apply list_fmap_ext. intros n j Hj%lookup_seqZ. rewrite slot_before by lia. done.
    + rewrite (fmap_seqZ_shift _ (0 + first)). apply list_fmap_ext. intros n j Hj%lookup_seqZ.
      rewrite slot_after by lia. do 2 f_equal; lia.
  - rewrite store_run_spec by lia. f_equal. apply list_fmap_ext. intros n j Hj%lookup_seqZ.
    rewrite slot_before by lia. done.
Qed.

Lemma dequeue_mbufs_spec start n :
  0 ≤ n ≤ slots q → dequeue_mbufs q start n = (λ i, i mod slots q) <$> seqZ start n.
Proof.
  intros Hn. pose proof slots_range. pose proof (Z.mod_pos_bound start (slots q) ltac:(lia)).
  unfold dequeue_mbufs. rewrite queue_mask_mod. rewrite (fmap_seqZ_shift _ start).
  assert (∀ i m, seqZ i m = (λ j, i + j) <$> seqZ 0 m) as Hseq
    by (intros i m; rewrite fmap_add_seqZ; f_equal; lia).
  case_decide.
  - set (first := slots q - start mod slots q).
    replace n with (first + (n - first)) at 2 by lia.
    rewrite (seqZ_app 0), fmap_app by lia. f_equal.
    + rewrite (Hseq (start mod _)). apply list_fmap_ext. intros k j Hj%lookup_seqZ.
      rewrite slot_before by lia. done.
    + rewrite (fmap_seqZ_shift _ (0 + first)), <- (list_fmap_id (seqZ 0 (n - first))) at 1.
      apply list_fmap_ext. intros k j Hj%lookup_seqZ. rewrite slot_after by lia. unfold id. lia.
  - rewrite (Hseq (start mod _)). apply list_fmap_ext. intros k j Hj%lookup_seqZ.
    rewrite slot_before by lia. done.
Qed.
End slots.

Lemma slice_prefix {A} (l : list A) n : 0 ≤ n ≤ len l → slice l 0 n = Ret (take (Z.to_nat n) l).
Proof. intros. unfold slice. rewrite decide_True by lia. by rewrite drop_0, Z.sub_0_r. Qed.

(** ** The invariant *)

(** The slot of position [i] holds its entry. *)
Definition cell (q : MpscQueue) (l : list Z) (i : Z) : Prop :=
  queue q !! Z.to_nat (i mod slots q) = Some (hat l i).

(** The positions that a producer has reserved and not published. *)
Definition region (ps : PState) : option (Z * Z) :=
  match ps with
  | PStore _ head n _ | PPublish head n => Some (head, n)
  | _ => None
  end.

(** Whether it is in [enqueue_sp]. *)
Definition single (ps : PState) : bool :=
  match ps with
  | PLoadHead mp _ | PLoadTail mp _ _ | PReserve mp _ _ _ | PStore mp _ _ _ => negb mp
  | _ => false
  end.

(** What a producer knows, with history [l].  A head that was read earlier may be
    out of date, and then the exchange fails. *)
Definition producer_ok (q : MpscQueue) (l : list Z) (ps : PState) : Prop :=
  match ps with
  | PIdle | PLoadHead _ _ => True
  | PLoadTail mp mbufs head =>
      0 ≤ head ≤ producer_head q ∧ head ≤ consumer_tail q + queue_mask q ∧
      (mp = false → head = producer_head q)
  | PReserve mp mbufs head n =>
      0 ≤ head ≤ producer_head q ∧ 0 < n ≤ len mbufs ∧
      (producer_head q = head → head + n ≤ consumer_tail q + queue_mask q) ∧
      (mp = false → head = producer_head q)
  | PStore _ head n stores =>
      0 < n ∧ producer_tail q ≤ head ∧ head + n ≤ producer_head q ∧
      ∃ j, 0 ≤ j ≤ n ∧ stores = stores_of (slots q) l (head + j) (n - j) ∧
        ∀ i, head ≤ i < head + j → cell q l i
  | PPublish head n =>
      0 < n ∧ producer_tail q = head ∧ head + n ≤ producer_head q ∧
      ∀ i, head ≤ i < head + n → cell q l i
  end.

Definition consumer_ok (q : MpscQueue) (l : list Z) (cs : CState) : Prop :=
  match cs with
  | CIdle => consumer_head q = consumer_tail q
  | CLoadHead room => 0 ≤ room ∧ consumer_head q = consumer_tail q
  | CLoadTail room head => 0 ≤ room ∧ head = consumer_tail q ∧ consumer_head q = consumer_tail q
  | CReserve head n =>
      0 < n ∧ head = consumer_tail q ∧ consumer_head q = consumer_tail q ∧ head + n ≤ producer_tail q
  | CLoad head n loads mbufs =>
      0 < n ∧ head = consumer_tail q ∧ consumer_head q = head + n ∧
      ∃ j, 0 ≤ j ≤ n ∧ mbufs = entries l head j ∧
        loads = (λ i, i mod slots q) <$> seqZ (head + j) (n - j)
  end.

Record inv (σ : System) (l d : list Z) : Prop := {
  i_ok : queue_ok (sys_queue σ);
  i_head : producer_head (sys_queue σ) = len l;
  i_fits : len l < 2 ^ 64;
  i_tail : consumer_tail (sys_queue σ) = len d;
  i_prefix : d `prefix_of` l;
  i_dequeuing : consumer_tail (sys_queue σ) ≤ consumer_head (sys_queue σ) ≤ producer_tail (sys_queue σ);
  i_enqueuing : producer_tail (sys_queue σ) ≤ producer_head (sys_queue σ);
  i_room : producer_head (sys_queue σ) ≤ consumer_tail (sys_queue σ) + queue_mask (sys_queue σ);
  i_cells : ∀ i, consumer_tail (sys_queue σ) ≤ i < producer_tail (sys_queue σ) → cell (sys_queue σ) l i;
  i_count : n_producers (sys_queue σ) = len (sys_producers σ);
  i_some : 1 ≤ len (sys_producers σ) < 2 ^ 64;
  i_producers : ∀ p ps, sys_producers σ !! p = Some ps → producer_ok (sys_queue σ) l ps;
  i_single : ∀ p ps, sys_producers σ !! p = Some ps → single ps = true → len (sys_producers σ) = 1;
  i_disjoint : ∀ p p' ps ps' h n h' n',
    sys_producers σ !! p = Some ps → sys_producers σ !! p' = Some ps' → p ≠ p' →
    region ps = Some (h, n) → region ps' = Some (h', n') → h + n ≤ h' ∨ h' + n' ≤ h;
  i_cover : ∀ i, producer_tail (sys_queue σ) ≤ i < producer_head (sys_queue σ) →
    ∃ p ps h n, sys_producers σ !! p = Some ps ∧ region ps = Some (h, n) ∧ h ≤ i < h + n;
  i_consumer : consumer_ok (sys_queue σ) l (sys_consumer σ);
}.

(** The states of the other producers. *)
Lemma others_region (P : list PState) p ps ps' :
  P !! p = Some ps → region ps' = region ps →
  (∀ p1 ps1, <[p := ps']> P !! p1 = Some ps1 →
    ∃ ps0, P !! p1 = Some ps0 ∧ region ps0 = region ps1) ∧
  ∀ p1 ps1, P !! p1 = Some ps1 → ∃ ps0, <[p := ps']> P !! p1 = Some ps0 ∧ region ps0 = region ps1.
Proof.
  intros Hp Hr. split; intros p1 ps1 H1.
  - apply list_lookup_insert_Some in H1 as [(<- & <- & _)|[_ H1]]; eauto.
  - destruct (decide (p1 = p)) as [->|Hne].
    + exists ps'. rewrite list_lookup_insert_eq by by eapply lookup_lt_Some. split; [done|]. congruence.
    + exists ps1. by rewrite list_lookup_insert_ne.
Qed.

(** A step of a producer that leaves the queue and what it reserved alone. *)
Lemma inv_local σ l d p ps ps' :
  inv σ l d → sys_producers σ !! p = Some ps → producer_ok (sys_queue σ) l ps' →
  region ps' = region ps → (single ps' = true → len (sys_producers σ) = 1) →
  inv (mkSystem (sys_queue σ) (<[p := ps']> (sys_producers σ)) (sys_consumer σ)) l d.
Proof.
  intros Hinv Hp Hok Hr Hs. destruct (others_region _ p ps ps' Hp Hr) as [Hfwd Hbwd].
  assert (len (<[p := ps']> (sys_producers σ)) = len (sys_producers σ)) as Hl
    by (unfold len; by rewrite length_insert).
  destruct Hinv. split; cbn [sys_queue sys_producers sys_consumer]; rewrite ?Hl; try done.
  - intros p1 ps1 [(<- & <- & _)|[_ H1]]%list_lookup_insert_Some; eauto.
  - intros p1 ps1 [(<- & <- & _)|[_ H1]]%list_lookup_insert_Some; eauto.
  - intros p1 p2 ps1 ps2 h n h' n' H1 H2 Hne E1 E2.
    destruct (Hfwd _ _ H1) as (ps3 & H3 & E3), (Hfwd _ _ H2) as (ps4 & H4 & E4).
    eapply i_disjoint0; [exact H3|exact H4|done|congruence..].
  - intros i Hi. destruct (i_cover0 i Hi) as (p1 & ps1 & h & n & H1 & E1 & Hin).
    destruct (Hbwd _ _ H1) as (ps0 & H0 & E0). exists p1, ps0, h, n. split_and!; [done|congruence|lia..].
Qed.

Lemma cell_app q l b i : 0 ≤ i < len l → cell q l i → cell q (l ++ b) i.
Proof. unfold cell. intros Hi. by rewrite hat_app. Qed.

Lemma entries_old l b i n : 0 ≤ i → i + n ≤ len l → entries (l ++ b) i n = entries l i n.
Proof. intros Hi Hn. apply list_fmap_ext. intros k j Hj%lookup_seqZ. apply hat_app. lia. Qed.

Lemma stores_of_old slots l b i n :
  0 ≤ i → i + n ≤ len l → stores_of slots (l ++ b) i n = stores_of slots l i n.
Proof. intros Hi Hn. apply list_fmap_ext. intros k j Hj%lookup_seqZ. by rewrite hat_app by lia. Qed.

Section steps.
Context (σ : System) (l d : list Z) (Hinv : inv σ l d).

Abbreviation q := (sys_queue σ).

Lemma counters : 0 ≤ consumer_tail q ∧ producer_tail q ≤ len l ∧ 0 < slots q ≤ 2 ^ 63 ∧
  queue_mask q = slots q - 1.
Proof.
  destruct Hinv. pose proof (slots_range _ i_ok0). pose proof (qo_mask _ i_ok0).
  pose proof (len_nonneg d). split_and!; lia.
Qed.

Lemma inv_clone p :
  sys_producers σ !! p = Some PIdle → len (sys_producers σ) + 1 < 2 ^ 64 →
  inv (mkSystem (reference_producers q) (sys_producers σ ++ [PIdle]) (sys_consumer σ)) l d.
Proof.
  intros Hp Hl.
  assert (∀ p1 ps1, (sys_producers σ ++ [PIdle]) !! p1 = Some ps1 →
    ps1 = PIdle ∨ sys_producers σ !! p1 = Some ps1) as Hback.
  { intros p1 ps1 [H1|[_ [_ ->]%list_lookup_singleton_Some]]%lookup_app_Some; [by right|by left]. }
  destruct Hinv. split; cbn [sys_queue sys_producers sys_consumer]; try done.
  - destruct i_ok0. by split.
  - cbn [reference_producers n_producers]. rewrite i_count0, len_app.
    rewrite wadd_id by (pose proof (len_nonneg (sys_producers σ)); unfold in_width; lia). done.
  - rewrite len_app. change (len [PIdle]) with 1. lia.
  - intros p1 ps1 [->|H1]%Hback; [done|].
    apply i_producers0 in H1. destruct ps1; exact H1.
  - intros p1 ps1 [->|H1]%Hback Hs; [done|]. pose proof (i_single0 _ _ H1 Hs) as Hone.
    apply lookup_lt_Some in H1 as Hl1. apply lookup_lt_Some in Hp as Hlp. unfold len in Hone.
    assert (p1 = p) as -> by lia. rewrite Hp in H1. by injection H1 as <-.
  - intros p1 p2 ps1 ps2 h n h' n' [->|H1]%Hback [->|H2]%Hback Hne E1 E2; try done.
    exact (i_disjoint0 _ _ _ _ _ _ _ _ H1 H2 Hne E1 E2).
  - intros i Hi. destruct (i_cover0 i Hi) as (p1 & ps1 & h & n & H1 & E1 & Hin).
    exists p1, ps1, h, n. split_and!; [|done|lia..]. by apply lookup_app_l_Some.
Qed.

Lemma insert_case (P : list PState) p ps p1 ps1 :
  <[p := ps]> P !! p1 = Some ps1 → (p1 = p ∧ ps1 = ps) ∨ (p1 ≠ p ∧ P !! p1 = Some ps1).
Proof. intros [(-> & -> & _)|[Hne H1]]%list_lookup_insert_Some; [by left|by right]. Qed.

Lemma others_not_single p ps p1 ps1 :
  sys_producers σ !! p = Some ps → p1 ≠ p → sys_producers σ !! p1 = Some ps1 → single ps1 = false.
Proof.
  intros Hp Hne H1. destruct (single ps1) eqn:E; [|done].
  pose proof (i_single _ _ _ Hinv _ _ H1 E) as Hone. apply lookup_lt_Some in H1, Hp. unfold len in Hone. lia.
Qed.

(** What holds of a producer holds after another one reserves. *)
Lemma others_grow p1 ps1 b :
  sys_producers σ !! p1 = Some ps1 → single ps1 = false →
  producer_ok (with_producer q (len (l ++ b)) (producer_tail q) (queue q)) (l ++ b) ps1.
Proof.
  intros H1 Hs1. pose proof (i_producers _ _ _ Hinv _ _ H1) as Hp1.
  pose proof (i_head _ _ _ Hinv) as Hph. pose proof (i_dequeuing _ _ _ Hinv).
  destruct counters as (Hc0 & Htl & Hs & Hm). rewrite len_app. pose proof (len_nonneg b).
  destruct ps1 as [|mp1|mp1 ? h1|mp1 ? h1 n1|mp1 h1 n1 st|h1 n1]; cbn in Hp1, Hs1 |- *.
  - done.
  - done.
  - destruct mp1; [|done]. split_and!; [lia..|done].
  - destruct mp1; [|done]. split_and!; [lia..|done].
  - destruct Hp1 as (Hn1 & Ht1 & Hh1 & j & Hj & -> & Hcells). split_and!; [lia..|].
    exists j. split_and!; [lia..| |].
    + by rewrite stores_of_old by lia.
    + intros i Hi. apply cell_app; [lia|]. by apply Hcells.
  - destruct Hp1 as (Hn1 & Ht1 & Hh1 & Hcells). split_and!; [lia..|].
    intros i Hi. apply cell_app; [lia|]. by apply Hcells.
Qed.

Lemma region_before p1 ps1 h1 n1 :
  sys_producers σ !! p1 = Some ps1 → region ps1 = Some (h1, n1) → h1 + n1 ≤ producer_head q.
Proof.
  intros H1 E1. pose proof (i_producers _ _ _ Hinv _ _ H1) as Hp1.
  destruct ps1; cbn in E1; try done; injection E1 as -> ->; cbn in Hp1; lia.
Qed.

Lemma inv_reserve p mp mbufs head n :
  sys_producers σ !! p = Some (PReserve mp mbufs head n) → producer_head q = head →
  let b := take (Z.to_nat n) mbufs in
  len (l ++ b) < 2 ^ 64 →
  ∃ stores, enqueue_mbufs q head n b = Ret stores ∧
    inv (mkSystem (with_producer q (head +u64 n) (producer_tail q) (queue q))
           (<[p := PStore mp head n stores]> (sys_producers σ)) (sys_consumer σ)) (l ++ b) d.
Proof.
  intros Hp Hh b Hfit. destruct counters as (Hc0 & Htl & Hs & Hm).
  destruct (i_producers _ _ _ Hinv _ _ Hp) as (Hhead & Hn & Hroom & Hsp).
  specialize (Hroom Hh). pose proof (i_head _ _ _ Hinv) as Hph.
  pose proof (i_enqueuing _ _ _ Hinv). pose proof (i_dequeuing _ _ _ Hinv).
  assert (len b = n) as Hb by (unfold b, len in *; rewrite length_take; lia).
  assert (head + n = len (l ++ b)) as Hnew by (rewrite len_app; lia).
  pose proof (enqueue_mbufs_spec q (i_ok _ _ _ Hinv) head b ltac:(lia)) as He. rewrite Hb in He.
  eexists. split; [exact He|]. rewrite wadd_id by (unfold in_width; lia).
  pose proof (λ p1 ps1, others_not_single p _ p1 ps1 Hp) as Hothers.
  assert (∀ p1 ps1 h1 n1, sys_producers σ !! p1 = Some ps1 → region ps1 = Some (h1, n1) → h1 + n1 ≤ head)
    as Hbefore by (rewrite <- Hh; exact region_before).
  pose proof (others_grow) as Hgrow. rewrite Hnew.
  destruct Hinv. split; cbn [sys_queue sys_producers sys_consumer with_producer producer_head producer_tail
    consumer_head consumer_tail queue_mask n_producers]; try done; try lia.
  - by split; destruct i_ok0.
  - by apply prefix_app_r.
  - intros i Hi. cbn in Hi. apply cell_app; [lia|]. by apply i_cells0.
  - unfold len. rewrite length_insert. done.
  - unfold len. by rewrite length_insert.
  - intros p1 ps1 [[-> ->]|[Hne H1]]%insert_case; [|by eauto].
    cbn. split_and!; [lia..|]. exists 0. split_and!; [lia..| |intros i Hi; lia].
    unfold stores_of. rewrite (fmap_seqZ_shift _ (head + 0)). replace (n - 0) with n by lia.
    apply list_fmap_ext. intros k j Hj%lookup_seqZ. rewrite Z.add_0_r. f_equal.
    replace (head + j) with (len l + j) by lia. by rewrite hat_app_new by lia.
  - intros p1 ps1 [[-> ->]|[Hne H1]]%insert_case E; unfold len; rewrite length_insert.
    + cbn in E. exact (i_single0 _ _ Hp E).
    + rewrite (Hothers _ _ Hne H1) in E. done.
  - intros p1 p2 ps1 ps2 h n1 h' n1' [[-> ->]|[Hne1 H1]]%insert_case [[-> ->]|[Hne2 H2]]%insert_case Hne E1 E2.
    + done.
    + cbn in E1. injection E1 as <- <-. right. by eapply Hbefore.
    + cbn in E2. injection E2 as <- <-. left. by eapply Hbefore.
    + exact (i_disjoint0 _ _ _ _ _ _ _ _ H1 H2 Hne E1 E2).
  - intros i Hi. cbn in Hi. destruct (decide (i < head)).
    + destruct (i_cover0 i) as (p1 & ps1 & h & n1 & H1 & E1 & Hin); [lia|].
      exists p1, ps1, h, n1. split_and!; [|done|lia..].
      rewrite list_lookup_insert_ne; [done|]. intros <-. rewrite Hp in H1. injection H1 as <-. done.
    + eexists p, _, head, n. rewrite list_lookup_insert_eq by by eapply lookup_lt_Some.
      split_and!; [done|done|lia..].
  - destruct (sys_consumer σ); cbn in i_consumer0 |- *; try done.
    destruct i_consumer0 as (Hn1 & Hh1 & Hc1 & j & Hj & -> & ->). split_and!; [done..|].
    exists j. split_and!; [lia..| |done]. by rewrite entries_old by lia.
Qed.

(** Storing the entry of a reserved position leaves the other slots in use alone. *)
Lemma cell_stored i k cells :
  consumer_tail q ≤ i < consumer_tail q + slots q → consumer_tail q ≤ k < consumer_tail q + slots q →
  set_index (queue q) (i mod slots q) (hat l i) = Ret cells →
  cell q l k ∨ k = i → cell (with_producer q (producer_head q) (producer_tail q) cells) l k.
Proof.
  destruct counters as (Hc0 & Htl & Hs & Hm). intros Hi Hk Hset Hcell.
  unfold set_index in Hset. case_decide as Hd; [|done]. injection Hset as <-.
  unfold cell in *. cbn [with_producer queue slots].
  destruct (decide (k = i)) as [->|Hne].
  - apply list_lookup_insert_eq. unfold len in Hd. lia.
  - destruct Hcell as [Hcell|]; [|done]. rewrite list_lookup_insert_ne; [done|].
    pose proof (Z.mod_pos_bound i (slots q) ltac:(lia)). pose proof (Z.mod_pos_bound k (slots q) ltac:(lia)).
    intros He. apply Hne. symmetry. apply (mod_inj (slots q) (consumer_tail q)); lia.
Qed.

Lemma store_head p mp head n i m stores :
  sys_producers σ !! p = Some (PStore mp head n ((i, m) :: stores)) →
  ∃ j, 0 ≤ j < n ∧ i = (head + j) mod slots q ∧ m = hat l (head + j) ∧
    stores = stores_of (slots q) l (head + (j + 1)) (n - (j + 1)) ∧
    ∀ k, head ≤ k < head + j → cell q l k.
Proof.
  intros Hp. destruct (i_producers _ _ _ Hinv _ _ Hp) as (Hn & Ht & Hh & j & Hj & Hst & Hcells).
  destruct (decide (j = n)) as [->|Hne].
  { rewrite Z.sub_diag in Hst. done. }
  rewrite stores_of_cons in Hst by lia. injection Hst as -> -> ->.
  exists j. split_and!; [lia..|done|done| |done]. f_equal; lia.
Qed.

Lemma inv_store p mp head n i m stores :
  sys_producers σ !! p = Some (PStore mp head n ((i, m) :: stores)) →
  ∃ cells, set_index (queue q) i m = Ret cells ∧
    inv (mkSystem (with_producer q (producer_head q) (producer_tail q) cells)
           (<[p := PStore mp head n stores]> (sys_producers σ)) (sys_consumer σ)) l d.
Proof.
  intros Hp. destruct counters as (Hc0 & Htl & Hs & Hm).
  destruct (store_head _ _ _ _ _ _ _ Hp) as (j & Hj & -> & -> & -> & Hdone).
  destruct (i_producers _ _ _ Hinv _ _ Hp) as (Hn & Ht & Hh & _).
  pose proof (i_dequeuing _ _ _ Hinv). pose proof (i_room _ _ _ Hinv).
  pose proof (Z.mod_pos_bound (head + j) (slots q) ltac:(lia)) as Hmod.
  assert (set_index (queue q) ((head + j) mod slots q) (hat l (head + j)) =
    Ret (<[Z.to_nat ((head + j) mod slots q) := hat l (head + j)]> (queue q))) as Hset.
  { unfold set_index. rewrite decide_True; [done|]. pose proof (qo_len _ (i_ok _ _ _ Hinv)). lia. }
  eexists. split; [exact Hset|]. set (q' := with_producer q _ _ _).
  assert (∀ k, consumer_tail q ≤ k < consumer_tail q + slots q → cell q l k ∨ k = head + j →
    cell q' l k) as Hcell by (intros k Hk; apply cell_stored; [lia|lia|exact Hset]).
  assert (∀ p1 ps1, sys_producers σ !! p1 = Some ps1 → producer_ok q' l ps1) as Hok.
  { intros p1 ps1 H1. pose proof (i_producers _ _ _ Hinv _ _ H1) as Hp1.
    destruct ps1 as [|mp1|mp1 ? h1|mp1 ? h1 n1|mp1 h1 n1 st|h1 n1]; cbn in Hp1 |- *; try done.
    - destruct Hp1 as (Hn1 & Ht1 & Hh1 & j1 & Hj1 & -> & Hcells). split_and!; [done..|].
      exists j1. split_and!; [lia..|done|]. intros k Hk. apply Hcell; [lia|]. left. by apply Hcells.
    - destruct Hp1 as (Hn1 & Ht1 & Hh1 & Hcells). split_and!; [done..|].
      intros k Hk. apply Hcell; [lia|]. left. by apply Hcells. }
  apply (inv_local (mkSystem q' (sys_producers σ) (sys_consumer σ)) l d p
    (PStore mp head n (((head + j) mod slots q, hat l (head + j)) ::
      stores_of (slots q) l (head + (j + 1)) (n - (j + 1))))); [|done| |done|].
  - destruct Hinv. split; cbn [sys_queue sys_producers sys_consumer]; try done.
    + destruct i_ok0. split; [done..|]. unfold q', len. cbn. by rewrite length_insert.
    + intros k Hk. cbn in Hk. apply Hcell; [lia|]. left. by apply i_cells0.
  - cbn. split_and!; [lia..|]. exists (j + 1). split_and!; [lia..|done|].
    intros k Hk. apply Hcell; [lia|]. destruct (decide (k = head + j)); [by right|]. left. apply Hdone. lia.
  - intros Hsg. exact (i_single _ _ _ Hinv _ _ Hp Hsg).
Qed.

Lemma inv_publish p head n :
  sys_producers σ !! p = Some (PPublish head n) →
  inv (mkSystem (with_producer q (producer_head q) (head +u64 n) (queue q))
         (<[p := PIdle]> (sys_producers σ)) (sys_consumer σ)) l d.
Proof.
  intros Hp. destruct counters as (Hc0 & Htl & Hs & Hm).
  destruct (i_producers _ _ _ Hinv _ _ Hp) as (Hn & Ht & Hh & Hcells).
  pose proof (i_dequeuing _ _ _ Hinv) as Hdq. pose proof (i_head _ _ _ Hinv) as Hph.
  pose proof (i_fits _ _ _ Hinv) as Hfit.
  rewrite wadd_id by (unfold in_width; lia). set (q' := with_producer q _ _ _).
  assert (∀ p1 ps1 h1 n1, p1 ≠ p → sys_producers σ !! p1 = Some ps1 → region ps1 = Some (h1, n1) →
    head + n ≤ h1) as Hafter.
  { intros p1 ps1 h1 n1 Hne H1 E1. pose proof (i_producers _ _ _ Hinv _ _ H1) as Hp1.
    destruct (i_disjoint _ _ _ Hinv p p1 _ _ head n h1 n1 Hp H1 (not_eq_sym Hne) eq_refl E1); [done|].
    destruct ps1; cbn in E1; try done; injection E1 as -> ->; cbn in Hp1; lia. }
  assert (∀ p1 ps1, p1 ≠ p → sys_producers σ !! p1 = Some ps1 → producer_ok q' l ps1) as Hok.
  { intros p1 ps1 Hne H1. pose proof (i_producers _ _ _ Hinv _ _ H1) as Hp1.
    destruct ps1 as [|mp1|mp1 ? h1|mp1 ? h1 n1|mp1 h1 n1 st|h1 n1]; try exact Hp1.
    - pose proof (Hafter _ _ h1 n1 Hne H1 eq_refl). cbn in Hp1 |- *.
      destruct Hp1 as (Hn1 & _ & Hp1). split_and!; [done|lia|apply Hp1..].
    - pose proof (Hafter _ _ h1 n1 Hne H1 eq_refl). cbn in Hp1. lia. }
  assert (∀ p1 ps1, <[p := PIdle]> (sys_producers σ) !! p1 = Some ps1 →
    (ps1 = PIdle) ∨ (p1 ≠ p ∧ sys_producers σ !! p1 = Some ps1)) as Hcase.
  { intros p1 ps1 [(-> & -> & _)|[Hne H1]]%list_lookup_insert_Some; [by left|by right]. }
  destruct Hinv. split; cbn [sys_queue sys_producers sys_consumer]; try done.
  - by split; destruct i_ok0.
  - cbn. lia.
  - intros i Hi. cbn in Hi. destruct (decide (i < head)); [apply i_cells0; lia|apply Hcells; lia].
  - unfold len. by rewrite length_insert.
  - unfold len. by rewrite length_insert.
  - intros p1 ps1 [->|[Hne H1]]%Hcase; [done|by eapply Hok].
  - intros p1 ps1 [->|[Hne H1]]%Hcase E; [done|]. unfold len. rewrite length_insert. by eapply i_single0.
  - intros p1 p2 ps1 ps2 h n1 h' n1' [->|[Hne1 H1]]%Hcase [->|[Hne2 H2]]%Hcase Hne E1 E2; try done.
    exact (i_disjoint0 _ _ _ _ _ _ _ _ H1 H2 Hne E1 E2).
  - intros i Hi. cbn in Hi. destruct (i_cover0 i) as (p1 & ps1 & h & n1 & H1 & E1 & Hin); [lia|].
    exists p1, ps1, h, n1. split_and!; [|done|lia..].
    rewrite list_lookup_insert_ne; [done|]. intros <-. rewrite Hp in H1. injection H1 as <-.
    injection E1 as <- <-. lia.
  - destruct (sys_consumer σ); cbn in i_consumer0 |- *; try done. lia.
Qed.

(** A full view of the free slots, when the head is still the one that was read. *)
Lemma load_tail_ok p mp mbufs head :
  sys_producers σ !! p = Some (PLoadTail mp mbufs head) →
  let insert := (queue_mask q +u64 consumer_tail q -u64 head) `min` len mbufs in
  insert > 0 → producer_ok q l (PReserve mp mbufs head insert).
Proof.
  intros Hp insert Hi. destruct counters as (Hc0 & Htl & Hs & Hm).
  destruct (i_producers _ _ _ Hinv _ _ Hp) as (Hh & Hroom & Hsp). pose proof (i_dequeuing _ _ _ Hinv).
  pose proof (i_enqueuing _ _ _ Hinv).
  cbn. split_and!; [lia..| |done]. intros Hhead.
  assert (queue_mask q +u64 consumer_tail q -u64 head = queue_mask q + consumer_tail q - head) as Hf.
  { unfold wsub, wadd, wrap. rewrite Zminus_mod_idemp_l. apply Z.mod_small. lia. }
  unfold insert. rewrite Hf. lia.
Qed.

Lemma stores_done p mp head n :
  sys_producers σ !! p = Some (PStore mp head n []) → ∀ i, head ≤ i < head + n → cell q l i.
Proof.
  intros Hp. destruct (i_producers _ _ _ Hinv _ _ Hp) as (Hn & Ht & Hh & j & Hj & Hst & Hcells).
  destruct (decide (j = n)) as [->|Hne]; [done|]. rewrite stores_of_cons in Hst by lia. done.
Qed.

(** The single producer is always next. *)
Lemma turn_ok p mp head n :
  sys_producers σ !! p = Some (PStore mp head n []) → (mp = true → producer_tail q = head) →
  producer_ok q l (PPublish head n).
Proof.
  intros Hp Hturn. destruct (i_producers _ _ _ Hinv _ _ Hp) as (Hn & Ht & Hh & _).
  cbn. split_and!; [lia| |lia|by eapply stores_done].
  destruct mp; [by apply Hturn|]. pose proof (i_single _ _ _ Hinv _ _ Hp eq_refl) as Hone.
  destruct (i_cover _ _ _ Hinv (producer_tail q)) as (p1 & ps1 & h & n1 & H1 & E1 & Hin); [lia|].
  assert (p1 = p) as ->.
  { apply lookup_lt_Some in H1, Hp. unfold len in Hone. lia. }
  rewrite Hp in H1. injection H1 as <-. injection E1 as <- <-. lia.
Qed.

(** *** The consumer *)

(** A step of the consumer that leaves the queue alone. *)
Lemma inv_consumer cs :
  consumer_ok q l cs → inv (mkSystem q (sys_producers σ) cs) l d.
Proof. intros Hcs. destruct Hinv. by split. Qed.

Lemma load_available room head :
  sys_consumer σ = CLoadTail room head →
  producer_tail q -u64 head = producer_tail q - consumer_tail q ∧ head = consumer_tail q ∧ 0 ≤ room.
Proof.
  intros Hc. pose proof (i_consumer _ _ _ Hinv) as Hcs. rewrite Hc in Hcs. destruct Hcs as (Hr & -> & _).
  destruct counters as (Hc0 & Htl & Hs & Hm). pose proof (i_fits _ _ _ Hinv). pose proof (i_dequeuing _ _ _ Hinv).
  split; [|done]. apply wsub_id; [lia|]. unfold in_width. lia.
Qed.

Lemma inv_dequeuing head n :
  sys_consumer σ = CReserve head n →
  inv (mkSystem (with_consumer q (head +u64 n) (consumer_tail q)) (sys_producers σ)
         (CLoad head n (dequeue_mbufs q head n) [])) l d.
Proof.
  intros Hc. pose proof (i_consumer _ _ _ Hinv) as Hcs. rewrite Hc in Hcs.
  destruct Hcs as (Hn & Hh & Hch & Ht). destruct counters as (Hc0 & Htl & Hs & Hm).
  pose proof (i_fits _ _ _ Hinv). pose proof (i_enqueuing _ _ _ Hinv). pose proof (i_room _ _ _ Hinv).
  rewrite wadd_id by (unfold in_width; lia). pose proof (i_ok _ _ _ Hinv) as Hok.
  rewrite dequeue_mbufs_spec by (done || lia).
  destruct Hinv. split; cbn [sys_queue sys_producers sys_consumer]; try done.
  - by split; destruct i_ok0.
  - cbn. lia.
  - cbn. split_and!; [lia..|]. exists 0. split_and!; [lia..|done|]. f_equal. f_equal; lia.
Qed.

Lemma load_head head n i loads mbufs :
  sys_consumer σ = CLoad head n (i :: loads) mbufs →
  ∃ m, index (queue q) i = Ret m ∧ consumer_ok q l (CLoad head n loads (mbufs ++ [m])).
Proof.
  intros Hc. pose proof (i_consumer _ _ _ Hinv) as Hcs. rewrite Hc in Hcs.
  destruct Hcs as (Hn & Hh & Hch & j & Hj & -> & Hl). destruct counters as (Hc0 & Htl & Hs & Hm).
  pose proof (i_dequeuing _ _ _ Hinv).
  destruct (decide (j = n)) as [->|Hne]; [by rewrite Z.sub_diag in Hl|].
  rewrite seqZ_cons in Hl by lia. injection Hl as -> ->.
  exists (hat l (head + j)). split.
  - unfold index. rewrite decide_True by (apply Z.mod_pos_bound; lia).
    rewrite (i_cells _ _ _ Hinv (head + j)); [done|lia].
  - cbn. split_and!; [done..|]. exists (j + 1). split_and!; [lia..|by rewrite entries_snoc by lia|].
    f_equal. f_equal; lia.
Qed.

Lemma inv_dequeued head n mbufs :
  sys_consumer σ = CLoad head n [] mbufs →
  inv (mkSystem (with_consumer q (consumer_head q) (head +u64 n)) (sys_producers σ) CIdle) l (d ++ mbufs).
Proof.
  intros Hc. pose proof (i_consumer _ _ _ Hinv) as Hcs. rewrite Hc in Hcs.
  destruct Hcs as (Hn & Hh & Hch & j & Hj & -> & Hl). destruct counters as (Hc0 & Htl & Hs & Hm).
  pose proof (i_dequeuing _ _ _ Hinv). pose proof (i_fits _ _ _ Hinv). pose proof (i_tail _ _ _ Hinv) as Hd.
  rewrite wadd_id by (unfold in_width; lia).
  destruct (decide (j = n)) as [->|Hne]; [|by rewrite seqZ_cons in Hl by lia].
  assert (len (entries l head n) = n) as Hlen
    by (unfold len, entries; rewrite length_fmap, length_seqZ; lia).
  assert (d ++ entries l head n = take (Z.to_nat (head + n)) l) as Hpre.
  { rewrite <- entries_prefix by lia. replace (head + n) with (len d + n) by lia.
    rewrite <- entries_app by (pose proof (len_nonneg d); lia). f_equal; [|f_equal; lia].
    destruct (i_prefix _ _ _ Hinv) as [rest ->]. rewrite entries_old, entries_prefix by lia.
    unfold len. by rewrite Nat2Z.id, firstn_all. }
  rewrite Hpre in *. destruct Hinv. split; cbn [sys_queue sys_producers sys_consumer]; try done.
  - by split; destruct i_ok0.
  - cbn. unfold len. rewrite length_take. unfold len in *. lia.
  - apply prefix_take.
  - cbn. lia.
  - cbn. lia.
  - intros i Hi. cbn in Hi. apply i_cells0. lia.
  - intros p1 ps1 H1. pose proof (i_producers0 _ _ H1) as Hp1.
    destruct ps1; try exact Hp1; cbn in Hp1 |- *; split_and!; (apply Hp1 || lia).
Qed.
End steps.

Lemma inserted_app tr evs : inserted (tr ++ evs) = inserted tr ++ inserted evs.
Proof. apply bind_app. Qed.

Lemma dequeued_app tr evs : dequeued (tr ++ evs) = dequeued tr ++ dequeued evs.
Proof. apply bind_app. Qed.

Lemma ret_triple {A B C} (a a' : A) (b b' : B) (c c' : C) :
  Ret (a, b, c) = Ret (a', b', c') → a = a' ∧ b = b' ∧ c = c'.
Proof. by intros [= -> -> ->]. Qed.

Section step.
Context (σ : System) (l d : list Z) (Hinv : inv σ l d).

Lemma producer_step_inv p ps q ps' evs :
  sys_producers σ !! p = Some ps → ps ≠ PIdle → producer_step (sys_queue σ) p ps = Ret (q, ps', evs) →
  len (l ++ inserted evs) < 2 ^ 64 →
  inv (mkSystem q (<[p := ps']> (sys_producers σ)) (sys_consumer σ)) (l ++ inserted evs) d ∧
  dequeued evs = [].
Proof.
  intros Hp Hne Hstep Hfit. pose proof (i_producers _ _ _ Hinv _ _ Hp) as Hok.
  pose proof (i_single _ _ _ Hinv _ _ Hp) as Hsg.
  destruct ps as [|mp ms|mp ms h|mp ms h n|mp h n [|[i m] st]|h n]; cbn [producer_step] in Hstep; [done|..].
  - apply ret_triple in Hstep as (<- & <- & <-). rewrite app_nil_r. split; [|done].
    eapply inv_local; [done|exact Hp| |done|exact Hsg]. pose proof (i_enqueuing _ _ _ Hinv).
    pose proof (i_dequeuing _ _ _ Hinv). pose proof (i_room _ _ _ Hinv).
    destruct (counters _ _ _ Hinv) as (Hc0 & _). cbn. split_and!; [lia..|done].
  - case_decide as Hi; apply ret_triple in Hstep as (<- & <- & <-); rewrite app_nil_r; (split; [|done]).
    + eapply inv_local; [done|exact Hp| |done|exact Hsg]. by eapply load_tail_ok.
    + by eapply inv_local.
  - destruct (mp && negb (bool_decide (producer_head (sys_queue σ) = h))) eqn:Hx.
    + apply ret_triple in Hstep as (<- & <- & <-). rewrite app_nil_r. split; [|done].
      by eapply inv_local.
    + assert (producer_head (sys_queue σ) = h) as Hh.
      { destruct Hok as (_ & _ & _ & Hsp). destruct mp; [|by rewrite Hsp].
        by apply negb_false_iff, bool_decide_eq_true_1 in Hx. }
      destruct Hok as (_ & Hn & _). rewrite slice_prefix in Hstep by lia. cbn [mbind outcome_bind] in Hstep.
      destruct (enqueue_mbufs _ _ _ _) as [st| |] eqn:He; cbn [mbind outcome_bind] in Hstep; [|done..].
      apply ret_triple in Hstep as (<- & <- & <-). split; [|done]. cbn [inserted mbind list_bind reserved_of] in *.
      rewrite app_nil_r in *.
      destruct (inv_reserve σ l d Hinv p mp ms h n Hp Hh Hfit) as (st' & He' & Hi).
      rewrite He' in He. injection He as ->. exact Hi.
  - destruct (mp && negb (bool_decide (producer_tail (sys_queue σ) = h))) eqn:Hx;
      apply ret_triple in Hstep as (<- & <- & <-); rewrite app_nil_r; (split; [|done]).
    + by eapply inv_local.
    + eapply inv_local; [done|exact Hp| |done|done]. eapply turn_ok; [done|exact Hp|].
      intros ->. by apply negb_false_iff, bool_decide_eq_true_1 in Hx.
  - destruct (inv_store σ l d Hinv p mp h n i m st Hp) as (cells & Hset & Hi). rewrite Hset in Hstep.
    cbn [mbind outcome_bind] in Hstep. apply ret_triple in Hstep as (<- & <- & <-).
    by rewrite app_nil_r.
  - apply ret_triple in Hstep as (<- & <- & <-). rewrite app_nil_r. split; [|done]. by apply inv_publish.
Qed.

Lemma consumer_step_inv q cs evs :
  sys_consumer σ ≠ CIdle → consumer_step (sys_queue σ) (sys_consumer σ) = Ret (q, cs, evs) →
  inv (mkSystem q (sys_producers σ) cs) l (d ++ dequeued evs) ∧ inserted evs = [].
Proof.
  intros Hne Hstep. destruct (sys_consumer σ) as [|room|room h|h n|h n [|i loads] ms] eqn:Hc;
    cbn [consumer_step] in Hstep; [done|..];
    pose proof (i_consumer _ _ _ Hinv) as Hok; rewrite Hc in Hok.
  - apply ret_triple in Hstep as (<- & <- & <-). rewrite app_nil_r. split; [|done].
    apply inv_consumer; [done|]. destruct Hok. by split_and!.
  - destruct (load_available σ l d Hinv room h Hc) as (Ha & Hh & Hr). rewrite Ha in Hstep.
    destruct Hok as (_ & _ & Hch).
    case_decide as Hd; apply ret_triple in Hstep as (<- & <- & <-); rewrite app_nil_r; (split; [|done]);
      (apply inv_consumer; [done|]).
    + cbn. split_and!; (done || lia).
    + done.
  - apply ret_triple in Hstep as (<- & <- & <-). rewrite app_nil_r. split; [|done]. by apply inv_dequeuing.
  - apply ret_triple in Hstep as (<- & <- & <-). split; [|done]. cbn [dequeued mbind list_bind dequeued_of].
    rewrite app_nil_r. by apply inv_dequeued.
  - destruct (load_head σ l d Hinv h n i loads ms Hc) as (m & Hm & Hok'). rewrite Hm in Hstep.
    cbn [mbind outcome_bind] in Hstep. apply ret_triple in Hstep as (<- & <- & <-).
    rewrite app_nil_r. split; [|done]. by apply inv_consumer.
Qed.

Lemma sys_step_inv evs σ' :
  sys_step σ evs σ' → len (l ++ inserted evs) < 2 ^ 64 → len (sys_producers σ') < 2 ^ 64 →
  inv σ' (l ++ inserted evs) (d ++ dequeued evs).
Proof.
  intros Hs Hfit Hlp. destruct Hs as [p ms ps Hp He|p Hp|p ps q ps' evs Hp Hne Hst|room Hc Hr|q cs evs Hc Hst];
    cbn [inserted dequeued mbind list_bind] in *; rewrite ?app_nil_r in *.
  - unfold mpsc_enqueue, assert_ in He. case_decide; cbn [mbind outcome_bind] in He; [|done].
    injection He as <-. eapply inv_local; [done|exact Hp|done|done|]. cbn.
    intros Hn%negb_true_iff%bool_decide_eq_false_1. rewrite <- (i_count _ _ _ Hinv).
    by destruct (decide (n_producers (sys_queue σ) = 1)).
  - apply (inv_clone _ _ _ Hinv p); [done|]. cbn [sys_producers] in Hlp. rewrite len_app in Hlp. exact Hlp.
  - destruct (producer_step_inv p ps q ps' evs Hp Hne Hst Hfit) as [Hi Hd].
    by rewrite Hd, app_nil_r.
  - apply inv_consumer; [done|]. pose proof (i_consumer _ _ _ Hinv) as Hok. rewrite Hc in Hok. done.
  - destruct (consumer_step_inv q cs evs Hc Hst) as [Hi Hd]. by rewrite Hd, app_nil_r.
Qed.
End step.

(** ** Executions *)

(** Bit [i] of [y] says whether [x] has a bit among the [w] from [i] on. *)
Definition covers (x w y : Z) : Prop :=
  0 ≤ y ∧ ∀ i, 0 ≤ i → Z.testbit y i = true ↔ ∃ j, i ≤ j < i + w ∧ Z.testbit x j = true.

Lemma smear_covers x w y : 0 ≤ w → covers x w y → covers x (w + w) (smear y w).
Proof.
  intros Hw [Hy Hb]. unfold smear. split; [apply Z.lor_nonneg; split; [done|by apply Z.shiftr_nonneg]|].
  intros i Hi. rewrite Z.lor_spec, Z.shiftr_spec, orb_true_iff, !Hb by lia. split.
  - intros [(j & Hj & Hx)|(j & Hj & Hx)]; exists j; (split; [lia|done]).
  - intros (j & Hj & Hx). destruct (decide (j < i + w)); [left|right]; exists j; (split; [lia|done]).
Qed.

(** A size that is rounded becomes the next power of two. *)
Lemma round_to_power_of_2_spec size :
  1 < size ≤ 2 ^ 63 → round_to_power_of_2 size = 2 ^ Z.log2_up size ∧ 0 ≤ Z.log2_up size ≤ 63.
Proof.
  intros Hs. unfold round_to_power_of_2. rewrite wsub_id by (unfold in_width; lia).
  set (x := size - 1).
  assert (Z.log2_up size = Z.log2 x + 1) as Hlog by (rewrite Z.log2_up_eqn by lia; unfold x; replace (Z.pred size) with (size - 1) by lia; lia).
  assert (0 ≤ Z.log2 x < 63) as Hx.
  { split; [apply Z.log2_nonneg|]. apply Z.log2_lt_pow2; lia. }
  assert (covers x 64 (foldl smear x [1; 2; 4; 8; 16; 32])) as [Hy Hb].
  { cbn [foldl]. do 6 (apply (smear_covers x); [lia|]).
    split; [lia|]. intros i Hi. split; [by exists i; split; [lia|]|]. intros (j & Hj & Hxj).
    by assert (i = j) as -> by lia. }
  set (y := foldl _ _ _) in *. assert (y = Z.ones (Z.log2 x + 1)) as ->.
  { apply Z.bits_inj'. intros i Hi. rewrite Z.testbit_ones_nonneg by lia.
    apply eq_true_iff_eq. rewrite Hb, Z.ltb_lt by done. split.
    - intros (j & Hj & Hxj). destruct (decide (Z.log2 x < j)); [|lia].
      by rewrite Z.bits_above_log2 in Hxj by lia.
    - intros Hlt. exists (Z.log2 x). split; [lia|]. apply Z.bit_log2. lia. }
  rewrite Z.ones_equiv, Hlog. split; [|lia].
  assert (2 ^ (Z.log2 x + 1) ≤ 2 ^ 63) by (apply Z.pow_le_mono_r; lia).
  assert (0 < 2 ^ (Z.log2 x + 1)) by (apply Z.pow_pos_nonneg; lia).
  rewrite wadd_id by (unfold in_width; lia). lia.
Qed.

(** The bit trick that recognises powers of two. *)
Lemma power_of_2_bits size :
  1 ≤ size ≤ 2 ^ 63 → Z.land size (size - 1) = 0 → ∃ k, 0 ≤ k ≤ 63 ∧ size = 2 ^ k.
Proof.
  intros Hs Hland. pose proof (Z.log2_spec size ltac:(lia)) as [Hlo Hhi].
  exists (Z.log2 size). split; [split; [apply Z.log2_nonneg|]|].
  { destruct Hs as [_ Hs%Z.log2_le_mono]. by rewrite Z.log2_pow2 in Hs. }
  destruct (decide (size = 2 ^ Z.log2 size)) as [|Hne]; [done|exfalso].
  assert (Z.testbit (Z.land size (size - 1)) (Z.log2 size) = true) as Hbit.
  { rewrite Z.land_spec, Z.bit_log2 by lia. cbn.
    assert (Z.log2 size = Z.log2 (size - 1)) as -> by (symmetry; apply Z.log2_unique; [apply Z.log2_nonneg|lia]).
    apply Z.bit_log2. assert (size ≠ 1) by (by intros ->). lia. }
  by rewrite Hland, Z.bits_0 in Hbit.
Qed.

Lemma new_slots size :
  1 ≤ size ≤ 2 ^ 63 → ∃ k, 0 ≤ k ≤ 63 ∧ slots (MpscQueue_new size) = 2 ^ k ∧ size ≤ 2 ^ k.
Proof.
  intros Hs. cbn [MpscQueue_new slots]. rewrite wsub_id by (unfold in_width; lia). case_decide as Hl.
  - assert (size ≠ 1) by by intros ->. destruct (round_to_power_of_2_spec size) as [-> Hk]; [lia|].
    exists (Z.log2_up size). split_and!; [lia..|done|]. apply Z.log2_up_spec. lia.
  - destruct (power_of_2_bits size Hs) as (k & Hk & ->); [lia|]. by exists k.
Qed.

Lemma new_pair_inv size : 1 ≤ size ≤ 2 ^ 63 → inv (new_mpsc_queue_pair size) [] [].
Proof.
  intros Hs. destruct (new_slots size Hs) as (k & Hk & Hsl & Hge).
  assert (0 < 2 ^ k ≤ 2 ^ 63) as Hp.
  { split; [by apply Z.pow_pos_nonneg; lia|by apply Z.pow_le_mono_r; lia]. }
  assert (queue_mask (MpscQueue_new size) = slots (MpscQueue_new size) - 1) as Hm.
  { change (queue_mask (MpscQueue_new size)) with (wsub 64 (slots (MpscQueue_new size)) 1).
    rewrite Hsl. apply wsub_id; unfold in_width; lia. }
  split; cbn [new_mpsc_queue_pair sys_queue sys_producers sys_consumer]; try done.
  - split; [by exists k|done|]. change (len (replicate (Z.to_nat (slots (MpscQueue_new size))) 0) =
      slots (MpscQueue_new size)). unfold len. rewrite length_replicate. lia.
  - change (0 ≤ 0 + queue_mask (MpscQueue_new size)). lia.
  - intros i Hi. cbn in Hi. lia.
  - by intros p ps [_ <-]%list_lookup_singleton_Some.
  - by intros p p' ps ps' h n h' n' [_ <-]%list_lookup_singleton_Some.
  - intros i Hi. cbn in Hi. lia.
Qed.

(** Handles are not given back. *)
Lemma sys_step_producers σ evs σ' : sys_step σ evs σ' → len (sys_producers σ) ≤ len (sys_producers σ').
Proof. intros []; unfold len; cbn; rewrite ?length_insert, ?length_app; lia. Qed.

Lemma sys_step_slots σ evs σ' : sys_step σ evs σ' → slots (sys_queue σ') = slots (sys_queue σ).
Proof.
  intros [| |p ps q ps' evs' _ _ Hst| |q cs evs' _ Hst]; try done; cbn [sys_queue].
  - destruct ps as [| | | |mp h n [|[i m] st]|]; cbn [producer_step] in Hst; repeat (case_decide || case_match);
      inv_outcome; done.
  - destruct (sys_consumer σ) as [| | | |h n [|i loads] ms]; cbn [consumer_step] in Hst; repeat case_decide;
      inv_outcome; done.
Qed.

Section executions.
Context (size : Z) (Hsize : 1 ≤ size ≤ 2 ^ 63).

Lemma runs_slots tr σ : runs (new_mpsc_queue_pair size) tr σ → slots (sys_queue σ) = slots (MpscQueue_new size).
Proof. induction 1 as [|tr σ1 evs σ2 _ IH Hs]; [done|]. by rewrite (sys_step_slots _ _ _ Hs). Qed.

Lemma runs_inv tr σ :
  runs (new_mpsc_queue_pair size) tr σ → len (inserted tr) < 2 ^ 64 → len (sys_producers σ) < 2 ^ 64 →
  inv σ (inserted tr) (dequeued tr).
Proof.
  induction 1 as [|tr σ1 evs σ2 Hr IH Hs]; intros Hfit Hlp; [by apply new_pair_inv|].
  rewrite inserted_app, dequeued_app in *.
  apply (sys_step_inv σ1 (inserted tr) (dequeued tr)); [|done..].
  pose proof (sys_step_producers _ _ _ Hs). rewrite len_app in Hfit. pose proof (len_nonneg (inserted evs)).
  apply IH; lia.
Qed.

(** What the calls of producer [p] inserted and returned, and what it is still
    to return. *)
Definition inserted_by (p : nat) (tr : list Event) : list Z :=
  tr ≫= λ e, match e with EvReserved p' ms => if decide (p' = p) then ms else [] | _ => [] end.

Fixpoint returned_to (p : nat) (tr : list Event) : Z :=
  match tr with
  | [] => 0
  | EvEnqueue p' n :: tr => (if decide (p' = p) then n else 0) + returned_to p tr
  | _ :: tr => returned_to p tr
  end.

Definition pending (ps : PState) : Z :=
  match ps with PStore _ _ n _ | PPublish _ n => n | _ => 0 end.

Lemma returned_to_app p tr evs : returned_to p (tr ++ evs) = returned_to p tr + returned_to p evs.
Proof.
  induction tr as [|e tr IH]; [done|]. destruct e as [| |]; cbn; lia.
Qed.

Lemma inserted_by_app p tr evs : inserted_by p (tr ++ evs) = inserted_by p tr ++ inserted_by p evs.
Proof. apply bind_app. Qed.

Lemma producer_step_accounts q l p ps q' ps' evs :
  producer_ok q l ps → producer_step q p ps = Ret (q', ps', evs) →
  len (inserted_by p evs) + pending ps = returned_to p evs + pending ps' ∧
  ∀ p', p' ≠ p → inserted_by p' evs = [] ∧ returned_to p' evs = 0.
Proof.
  intros Hok Hst.
  destruct ps as [|mp ms|mp ms h|mp ms h n|mp h n [|[i m] st]|h n]; cbn [producer_step] in Hst.
  - by apply ret_triple in Hst as (<- & <- & <-).
  - by apply ret_triple in Hst as (<- & <- & <-).
  - case_decide; apply ret_triple in Hst as (<- & <- & <-); [done|]. cbn. rewrite decide_True by done.
    split; [done|]. intros p' Hp. by rewrite decide_False by done.
  - destruct (_ && _); [by apply ret_triple in Hst as (<- & <- & <-)|]. destruct Hok as (_ & Hn & _).
    rewrite slice_prefix in Hst by lia. cbn [mbind outcome_bind] in Hst.
    destruct (enqueue_mbufs _ _ _ _); cbn [mbind outcome_bind] in Hst; [|done..].
    apply ret_triple in Hst as (<- & <- & <-). cbn. split.
    + rewrite decide_True, app_nil_r by done. unfold len in *. rewrite length_take. lia.
    + intros p' Hp. by rewrite decide_False by done.
  - destruct (_ && _); by apply ret_triple in Hst as (<- & <- & <-).
  - destruct (set_index _ _ _); cbn [mbind outcome_bind] in Hst; [|done..].
    by apply ret_triple in Hst as (<- & <- & <-).
  - apply ret_triple in Hst as (<- & <- & <-). cbn [inserted_by returned_to pending mbind list_bind].
    rewrite decide_True by done. split; [cbn [len app length]; unfold len; cbn [length app]; lia|].
    intros p' Hp. by rewrite decide_False by done.
Qed.

Lemma consumer_step_accounts q cs q' cs' evs p :
  consumer_step q cs = Ret (q', cs', evs) → inserted_by p evs = [] ∧ returned_to p evs = 0.
Proof.
  intros Hst. destruct cs as [| | | |h n [|i loads] ms]; cbn [consumer_step] in Hst; try case_decide.
  7: destruct (index (queue q) i); cbn [mbind outcome_bind] in Hst; [|done..].
  all: by apply ret_triple in Hst as (<- & <- & <-).
Qed.

Lemma step_accounts σ l d p evs σ' ps ps' :
  inv σ l d → sys_step σ evs σ' → sys_producers σ !! p = Some ps → sys_producers σ' !! p = Some ps' →
  len (inserted_by p evs) + pending ps = returned_to p evs + pending ps'.
Proof.
  intros Hinv Hs Hp Hp'.
  destruct Hs as [p1 ms ps1 H1 He|p1 H1|p1 ps1 q ps1' evs H1 Hne Hst|room Hc Hr|q cs evs Hc Hst];
    cbn [sys_producers] in Hp'.
  - unfold mpsc_enqueue, assert_ in He. case_decide; cbn [mbind outcome_bind] in He; [|done]. injection He as <-.
    apply list_lookup_insert_Some in Hp' as [(<- & <- & _)|[_ Hp']]; [|by simplify_eq].
    rewrite Hp in H1. injection H1 as ->. done.
  - rewrite lookup_app_l in Hp' by by eapply lookup_lt_Some. by simplify_eq.
  - destruct (producer_step_accounts _ _ _ _ _ _ _ (i_producers _ _ _ Hinv _ _ H1) Hst) as [Hown Hother].
    apply list_lookup_insert_Some in Hp' as [(<- & <- & _)|[Hne1 Hp']].
    + rewrite Hp in H1. by injection H1 as <-.
    + destruct (Hother p) as [-> ->]; [done|]. by simplify_eq.
  - by simplify_eq.
  - destruct (consumer_step_accounts _ _ _ _ _ p Hst) as [-> ->]. by simplify_eq.
Qed.

(** A clone starts without a past. *)
Lemma events_of_handles σ l d evs σ' p :
  inv σ l d → sys_step σ evs σ' → sys_producers σ !! p = None → inserted_by p evs = [] ∧ returned_to p evs = 0.
Proof.
  intros Hinv Hs Hp. destruct Hs as [| |p1 ps1 q ps1' evs H1 Hne Hst| |q cs evs Hc Hst]; try done.
  - eapply producer_step_accounts; [by eapply i_producers|exact Hst|]. intros ->. by rewrite Hp in H1.
  - by eapply consumer_step_accounts.
Qed.

Lemma runs_accounts tr σ p :
  runs (new_mpsc_queue_pair size) tr σ → len (inserted tr) < 2 ^ 64 → len (sys_producers σ) < 2 ^ 64 →
  len (inserted_by p tr) = returned_to p tr + default 0 (pending <$> sys_producers σ !! p).
Proof.
  induction 1 as [|tr σ1 evs σ2 Hr IH Hs]; intros Hfit Hlp.
  - by destruct p as [|[|p]].
  - rewrite inserted_app, len_app in Hfit. pose proof (len_nonneg (inserted evs)).
    pose proof (sys_step_producers _ _ _ Hs). rewrite inserted_by_app, returned_to_app, len_app.
    specialize (IH ltac:(lia) ltac:(lia)).
    pose proof (runs_inv _ _ Hr ltac:(lia) ltac:(lia)) as Hinv.
    destruct (sys_producers σ1 !! p) as [ps|] eqn:Hp; cbn in IH.
    + apply lookup_lt_Some in Hp as Hlt.
      destruct (lookup_lt_is_Some_2 (sys_producers σ2) p) as [ps' Hp']; [unfold len in *; lia|].
      rewrite Hp'. cbn. pose proof (step_accounts _ _ _ _ _ _ _ _ Hinv Hs Hp Hp'). lia.
    + destruct (events_of_handles _ _ _ _ _ _ Hinv Hs Hp) as [-> ->]. change (len []) with 0.
      assert (default 0 (pending <$> sys_producers σ2 !! p) = 0) as ->; [|lia].
      destruct Hs as [p1 ms ps1 H1 He|p1 H1|p1 ps1 q ps1' evs H1 Hne Hst|room Hc Hr'|q cs evs Hc Hst];
        cbn [sys_producers]; try by rewrite Hp.
      * by rewrite list_lookup_insert_ne, Hp by (intros ->; by rewrite Hp in H1).
      * rewrite lookup_app_r by by apply lookup_ge_None. by destruct (p - _)%nat as [|[|]].
      * by rewrite list_lookup_insert_ne, Hp by (intros ->; by rewrite Hp in H1).
Qed.

Lemma reserve_stores σ l d p mp ms h n :
  inv σ l d → sys_producers σ !! p = Some (PReserve mp ms h n) → producer_head (sys_queue σ) = h →
  ∃ stores, enqueue_mbufs (sys_queue σ) h n (take (Z.to_nat n) ms) = Ret stores.
Proof.
  intros Hinv Hp Hh. destruct (i_producers _ _ _ Hinv _ _ Hp) as (Hhd & Hn & Hroom & _).
  specialize (Hroom Hh). destruct (counters _ _ _ Hinv) as (Hc0 & Htl & Hs & Hm).
  pose proof (i_dequeuing _ _ _ Hinv). pose proof (i_enqueuing _ _ _ Hinv).
  assert (len (take (Z.to_nat n) ms) = n) as Hb by (unfold len in *; rewrite length_take; lia).
  eexists. rewrite <- Hb at 1. apply enqueue_mbufs_spec; [apply Hinv|lia].
Qed.

(** No operation of a thread panics. *)
Lemma producer_step_total σ l d p ps :
  inv σ l d → sys_producers σ !! p = Some ps → ∃ q ps' evs,
    producer_step (sys_queue σ) p ps = Ret (q, ps', evs) ∧
    (ps' = ps → ps = PIdle ∨ ∃ mp h n, ps = PStore mp h n [] ∧ producer_tail (sys_queue σ) ≠ h).
Proof.
  intros Hinv Hp. pose proof (i_producers _ _ _ Hinv _ _ Hp) as Hok.
  destruct ps as [|mp ms|mp ms h|mp ms h n|mp h n [|[i m] st]|h n]; cbn [producer_step].
  - eexists _, _, _. split; [done|]. by left.
  - by eexists _, _, _.
  - case_decide; by eexists _, _, _.
  - destruct (mp && negb (bool_decide (producer_head (sys_queue σ) = h))) eqn:Hx; [by eexists _, _, _|].
    assert (producer_head (sys_queue σ) = h) as Hh.
    { destruct Hok as (_ & _ & _ & Hsp). destruct mp; [|by rewrite Hsp].
      by apply negb_false_iff, bool_decide_eq_true_1 in Hx. }
    destruct Hok as (_ & Hn & _). rewrite slice_prefix by lia. cbn [mbind outcome_bind].
    destruct (reserve_stores _ _ _ _ _ _ _ _ Hinv Hp Hh) as [st ->]. by eexists _, _, _.
  - destruct (mp && negb (bool_decide (producer_tail (sys_queue σ) = h))) eqn:Hx; [|by eexists _, _, _].
    eexists _, _, _. split; [done|]. intros _. right. exists mp, h, n. split; [done|].
    apply andb_true_iff in Hx as [_ Hx]. by apply negb_true_iff, bool_decide_eq_false_1 in Hx.
  - destruct (inv_store σ l d Hinv p mp h n i m st Hp) as (cells & -> & _).
    eexists _, _, _. split; [done|]. intros He. injection He. intros E%(f_equal length). cbn in E. lia.
  - by eexists _, _, _.
Qed.

Lemma consumer_step_total σ l d :
  inv σ l d → ∃ r, consumer_step (sys_queue σ) (sys_consumer σ) = Ret r.
Proof.
  intros Hinv. destruct (sys_consumer σ) as [| | | |h n [|i loads] ms] eqn:Hc; cbn [consumer_step];
    try case_decide; eauto.
  destruct (load_head _ _ _ Hinv _ _ _ _ _ Hc) as (m & -> & _). cbn. eauto.
Qed.

(** Somebody's turn. *)
Lemma some_turn σ l d p ps :
  inv σ l d → sys_producers σ !! p = Some ps → ps ≠ PIdle →
  ∃ p' ps' q ps'' evs, sys_producers σ !! p' = Some ps' ∧ ps' ≠ PIdle ∧
    producer_step (sys_queue σ) p' ps' = Ret (q, ps'', evs) ∧ ps'' ≠ ps'.
Proof.
  intros Hinv Hp Hne. destruct (producer_step_total _ _ _ _ _ Hinv Hp) as (q & ps' & evs & Hst & Hsame).
  destruct (decide (ps' = ps)) as [Heq|]; [|by eexists p, ps, q, ps', evs].
  destruct (Hsame Heq) as [|(mp & h & n & -> & Hturn)]; [done|].
  destruct (i_producers _ _ _ Hinv _ _ Hp) as (Hn & Ht & Hh & _).
  destruct (i_cover _ _ _ Hinv (producer_tail (sys_queue σ))) as (p1 & ps1 & h1 & n1 & H1 & E1 & Hin); [lia|].
  assert (producer_tail (sys_queue σ) = h1) as Ht1.
  { pose proof (i_producers _ _ _ Hinv _ _ H1) as Hok. destruct ps1; cbn in E1; try done;
      injection E1 as -> ->; cbn in Hok; lia. }
  destruct (producer_step_total _ _ _ _ _ Hinv H1) as (q1 & ps1' & evs1 & Hst1 & Hsame1).
  exists p1, ps1, q1, ps1', evs1. split_and!; [done|by intros ->|done|].
  intros He. destruct (Hsame1 He) as [->|(mp' & h' & n' & -> & Hturn')]; [done|].
  cbn in E1. injection E1 as -> ->. done.
Qed.

(** The consumer, running alone until a call of [dequeue] returns. *)
Fixpoint dequeue_alone (fuel : nat) (q : MpscQueue) (cs : CState) : outcome (option (list Z)) :=
  match fuel with
  | O => Ret None
  | S fuel =>
      '(q, cs, evs) ← consumer_step q cs;
      match evs with
      | EvDequeue ms :: _ => Ret (Some ms)
      | _ => dequeue_alone fuel q cs
      end
  end.

Lemma drain_loads σ l d head n loads ms fuel :
  inv σ l d → sys_consumer σ = CLoad head n loads ms → (length loads < fuel)%nat →
  dequeue_alone fuel (sys_queue σ) (CLoad head n loads ms) = Ret (Some (entries l head n)).
Proof.
  intros Hinv Hc. revert σ ms fuel Hinv Hc.
  induction loads as [|i loads IH]; intros σ ms fuel Hinv Hc Hf; (destruct fuel as [|fuel]; [cbn in Hf; lia|]);
    cbn [dequeue_alone consumer_step].
  - cbn. pose proof (i_consumer _ _ _ Hinv) as Hcs. rewrite Hc in Hcs.
    destruct Hcs as (_ & _ & _ & j & Hj & -> & Hl).
    destruct (decide (j = n)) as [->|]; [done|]. by rewrite seqZ_cons in Hl by lia.
  - destruct (load_head _ _ _ Hinv _ _ _ _ _ Hc) as (m & -> & Hok). cbn [mbind outcome_bind].
    apply (IH (mkSystem (sys_queue σ) (sys_producers σ) (CLoad head n loads (ms ++ [m])))); [|done|cbn in Hf; lia].
    by apply inv_consumer.
Qed.

Lemma drain σ l d room :
  inv σ l d → Forall (λ ps, ps = PIdle) (sys_producers σ) → sys_consumer σ = CIdle → 0 ≤ room →
  dequeue_alone (Z.to_nat room + 4) (sys_queue σ) (CLoadHead room) =
    Ret (Some (take (Z.to_nat room) (drop (length d) l))).
Proof.
  intros Hinv Hidle Hc Hroom. rewrite Nat.add_comm. cbn [Nat.add dequeue_alone consumer_step mbind outcome_bind].
  pose proof (i_consumer _ _ _ Hinv) as Hch. rewrite Hc in Hch. cbn in Hch. rewrite Hch.
  destruct (counters _ _ _ Hinv) as (Hc0 & Htl & Hs & Hm).
  pose proof (i_head _ _ _ Hinv) as Hh. pose proof (i_tail _ _ _ Hinv) as Ht. pose proof (i_fits _ _ _ Hinv).
  pose proof (i_room _ _ _ Hinv). pose proof (i_dequeuing _ _ _ Hinv).
  assert (producer_tail (sys_queue σ) = len l) as Hpt.
  { destruct (decide (producer_tail (sys_queue σ) < len l)) as [Hlt|]; [|lia].
    destruct (i_cover _ _ _ Hinv (producer_tail (sys_queue σ))) as (p & ps & h & n & Hp & Hr & _); [lia|].
    rewrite Forall_forall in Hidle. by rewrite (Hidle ps) in Hr by by eapply list_elem_of_lookup_2. }
  rewrite wsub_id by (unfold in_width; lia). rewrite Hpt, Ht. set (n := room `min` (len l - len d)).
  assert (take (Z.to_nat room) (drop (length d) l) = entries l (len d) n) as ->.
  { rewrite entries_take_drop by lia. replace (Z.to_nat (len d)) with (length d) by (unfold len; lia).
    destruct (decide (room <= len l - len d)); [by replace n with room by lia|].
    rewrite !take_ge; [done|..]; rewrite length_drop; unfold len in *; lia. }
  case_decide as Hn.
  - cbn [consumer_step mbind outcome_bind]. rewrite Ht. set (σ1 := mkSystem (sys_queue σ) (sys_producers σ) (CReserve (len d) n)).
    assert (inv σ1 l d) as Hinv1 by (apply inv_consumer; [done|]; cbn; split_and!; lia).
    pose proof (inv_dequeuing _ _ _ Hinv1 (len d) n eq_refl) as Hinv2.
    cbn [σ1 sys_queue sys_producers] in Hinv2. rewrite Ht in Hinv2.
    eapply (drain_loads _ l d (len d) n _ [] (S (Z.to_nat room)) Hinv2); [done|].
    rewrite dequeue_mbufs_spec by (apply Hinv || lia). rewrite length_fmap, length_seqZ. lia.
  - cbn. unfold entries. by rewrite seqZ_nil by lia.
Qed.

(** C4: the queue is first-in first-out under every interleaving.  In any
    execution of any number of producers, each with any calls, and one consumer,
    that inserts fewer than 2^64 mbufs: what the consumer was given is a prefix
    of what the producers inserted, in the order of their reservations (nothing
    is lost, doubled, reordered or read before it is written); no more than the
    slots less one are in the queue; and a producer between calls has been told
    exactly how many of its mbufs were inserted. *)
Theorem mpsc_fifo tr σ :
  runs (new_mpsc_queue_pair size) tr σ → len (inserted tr) < 2 ^ 64 → len (sys_producers σ) < 2 ^ 64 →
  dequeued tr `prefix_of` inserted tr ∧
  len (inserted tr) - len (dequeued tr) ≤ slots (MpscQueue_new size) - 1 ∧
  ∀ p, sys_producers σ !! p = Some PIdle → returned_to p tr = len (inserted_by p tr).
Proof.
  intros Hr Hfit Hlp. pose proof (runs_inv _ _ Hr Hfit Hlp) as Hinv. split_and!.
  - by eapply i_prefix.
  - destruct (counters _ _ _ Hinv) as (_ & _ & _ & Hm). pose proof (i_room _ _ _ Hinv) as Hroom.
    rewrite (i_head _ _ _ Hinv), (i_tail _ _ _ Hinv), Hm, (runs_slots _ _ Hr) in Hroom. lia.
  - intros p Hp. rewrite (runs_accounts _ _ p Hr Hfit Hlp), Hp. cbn. lia.
Qed.

(** nothing stays behind.  Whenever no call is under way, a call of
    [dequeue] with room for [room] mbufs gives the oldest mbufs that were
    inserted and not yet taken, as many as there are and fit. *)
Theorem mpsc_drains tr σ room :
  runs (new_mpsc_queue_pair size) tr σ → len (inserted tr) < 2 ^ 64 → len (sys_producers σ) < 2 ^ 64 →
  Forall (λ ps, ps = PIdle) (sys_producers σ) → sys_consumer σ = CIdle → 0 ≤ room →
  dequeue_alone (Z.to_nat room + 4) (sys_queue σ) (CLoadHead room) =
    Ret (Some (take (Z.to_nat room) (drop (length (dequeued tr)) (inserted tr)))).
Proof. intros Hr Hfit Hlp. apply drain. by apply runs_inv. Qed.

(** C14: the queue never gets stuck.  In any reachable state no thread's next
    operation panics, and while a producer is inside a call, some producer can
    do an operation that is not a failed wait: the producers that spin are
    waiting for one that has its turn. *)
Theorem mpsc_never_stuck tr σ :
  runs (new_mpsc_queue_pair size) tr σ → len (inserted tr) < 2 ^ 64 → len (sys_producers σ) < 2 ^ 64 →
  (∀ p ps, sys_producers σ !! p = Some ps → ∃ r, producer_step (sys_queue σ) p ps = Ret r) ∧
  (∃ r, consumer_step (sys_queue σ) (sys_consumer σ) = Ret r) ∧
  ∀ p ps, sys_producers σ !! p = Some ps → ps ≠ PIdle →
    ∃ p' ps' q ps'' evs, sys_producers σ !! p' = Some ps' ∧ ps' ≠ PIdle ∧
      producer_step (sys_queue σ) p' ps' = Ret (q, ps'', evs) ∧ ps'' ≠ ps'.
Proof.
  intros Hr Hfit Hlp. pose proof (runs_inv _ _ Hr Hfit Hlp) as Hinv. split_and!.
  - intros p ps Hp. destruct (producer_step_total _ _ _ _ _ Hinv Hp) as (q & ps' & evs & Hst & _). eauto.
  - by eapply consumer_step_total.
  - intros p ps Hp Hne. by eapply some_turn.
Qed.
End executions.

(** ** A schedule, run

    An execution as the list of the choices of a scheduler. *)

Inductive Act :=
| AEnqueue (p : nat) (mbufs : list Z)
| AClone (p : nat)
| AProducer (p : nat)
| ADequeue (room : Z)
| AConsumer.

Definition act (σ : System) (a : Act) : option (list Event * System) :=
  match a with
  | AEnqueue p mbufs =>
      match sys_producers σ !! p, mpsc_enqueue (sys_queue σ) mbufs with
      | Some PIdle, Ret ps => Some ([], mkSystem (sys_queue σ) (<[p := ps]> (sys_producers σ)) (sys_consumer σ))
      | _, _ => None
      end
  | AClone p =>
      match sys_producers σ !! p with
      | Some PIdle =>
          Some ([], mkSystem (reference_producers (sys_queue σ)) (sys_producers σ ++ [PIdle]) (sys_consumer σ))
      | _ => None
      end
  | AProducer p =>
      match sys_producers σ !! p with
      | Some PIdle | None => None
      | Some ps =>
          match producer_step (sys_queue σ) p ps with
          | Ret (q, ps', evs) => Some (evs, mkSystem q (<[p := ps']> (sys_producers σ)) (sys_consumer σ))
          | _ => None
          end
      end
  | ADequeue room =>
      match sys_consumer σ with
      | CIdle => if decide (0 ≤ room) then
                   Some ([], mkSystem (sys_queue σ) (sys_producers σ) (CLoadHead room)) else None
      | _ => None
      end
  | AConsumer =>
      match sys_consumer σ with
      | CIdle => None
      | cs =>
          match consumer_step (sys_queue σ) cs with
          | Ret (q, cs', evs) => Some (evs, mkSystem q (sys_producers σ) cs')
          | _ => None
          end
      end
  end.

Lemma act_step σ a evs σ' : act σ a = Some (evs, σ') → sys_step σ evs σ'.
Proof.
  intros Ha. destruct σ as [q pss c]. destruct a as [p ms|p|p|room|]; unfold act in Ha;
    cbn [sys_queue sys_producers sys_consumer] in Ha.
  - destruct (pss !! p) as [[]|] eqn:Hp; try done. destruct (mpsc_enqueue q ms) eqn:He; try done.
    injection Ha as <- <-. by eapply (st_enqueue (mkSystem q pss c)).
  - destruct (pss !! p) as [[]|] eqn:Hp; try done. injection Ha as <- <-. by apply (st_clone (mkSystem q pss c)) with p.
  - destruct (pss !! p) as [ps|] eqn:Hp; [|done].
    destruct (decide (ps = PIdle)) as [->|Hne]; [done|].
    assert (∃ q' ps', producer_step q p ps = Ret (q', ps', evs) ∧ σ' = mkSystem q' (<[p := ps']> pss) c)
      as (q' & ps' & Hst & ->).
    { destruct ps; [done|..]; destruct (producer_step q p _) as [[[q' ps'] evs']| |]; try done;
        injection Ha as <- <-; eauto. }
    by apply (st_producer (mkSystem q pss c) p ps).
  - destruct c; try done. case_decide; [|done]. injection Ha as <- <-. by apply (st_dequeue (mkSystem q pss CIdle)).
  - destruct (decide (c = CIdle)) as [->|Hne]; [done|].
    assert (∃ q' c', consumer_step q c = Ret (q', c', evs) ∧ σ' = mkSystem q' pss c') as (q' & c' & Hst & ->).
    { destruct c; [done|..]; destruct (consumer_step q _) as [[[q' c'] evs']| |]; try done;
        injection Ha as <- <-; eauto. }
    by apply (st_consumer (mkSystem q pss c)).
Qed.

Fixpoint exec (σ : System) (acts : list Act) : option (list Event * System) :=
  match acts with
  | [] => Some ([], σ)
  | a :: acts =>
      '(evs, σ) ← act σ a;
      '(tr, σ) ← exec σ acts;
      Some (evs ++ tr, σ)
  end.

Lemma exec_runs_from σ0 tr0 σ acts tr σ' :
  runs σ0 tr0 σ → exec σ acts = Some (tr, σ') → runs σ0 (tr0 ++ tr) σ'.
Proof.
  revert σ tr0 tr. induction acts as [|a acts IH]; intros σ tr0 tr Hr He; cbn in He.
  - injection He as <- <-. by rewrite app_nil_r.
  - destruct (act σ a) as [[evs σ1]|] eqn:Ha; cbn in He; [|done].
    destruct (exec σ1 acts) as [[tr1 σ2]|] eqn:Hx; cbn in He; [|done]. injection He as <- <-.
    rewrite app_assoc. eapply IH; [|done]. econstructor; [done|]. by eapply act_step.
Qed.

Lemma exec_runs σ acts tr σ' : exec σ acts = Some (tr, σ') → runs σ tr σ'.
Proof. intros He. by apply (exec_runs_from σ [] σ acts tr); [constructor|]. Qed.

(** Two producers on a queue of four slots.  Both read the head before either
    reserves; the second one loses the exchange, reserves the slots after the
    first one's and publishes only after it, while the consumer takes mbufs out.
    At the end the first producer wraps around the end of the slots. *)
Definition race : list Act :=
  [AClone 0; AEnqueue 0 [10; 11]; AEnqueue 1 [20; 21];
   AProducer 0; AProducer 1; AProducer 0; AProducer 1;          (* both read head and tail *)
   AProducer 0; AProducer 1;                                    (* 0 reserves, 1 starts again *)
   AProducer 1; AProducer 1; AProducer 1; AProducer 1;          (* 1 reserves one slot, stores *)
   AProducer 1;                                                 (* and waits *)
   ADequeue 4; AConsumer; AConsumer;                            (* nothing is published yet *)
   AProducer 0; AProducer 0; AProducer 0; AProducer 0;          (* 0 stores and publishes *)
   ADequeue 4; AConsumer; AConsumer; AConsumer; AConsumer;      (* the consumer takes 10 *)
   AProducer 1; AProducer 1;                                    (* 1 publishes *)
   AConsumer; AConsumer].

(** After it, the first producer is inside a call and the second between two. *)
Definition race_on : list Act :=
  race ++ [AEnqueue 0 [12; 13; 14]; AProducer 0; AProducer 0; AProducer 0; AProducer 0].

Definition race_off : list Act := race_on ++ replicate 3 (AProducer 0).

Definition run_of (acts : list Act) : list Event * System :=
  default ([], new_mpsc_queue_pair 4) (exec (new_mpsc_queue_pair 4) acts).

Lemma run_of_runs acts : runs (new_mpsc_queue_pair 4) (run_of acts).1 (run_of acts).2.
Proof.
  unfold run_of. destruct (exec _ acts) as [[tr σ]|] eqn:He; [by eapply exec_runs|constructor].
Qed.

Example race_trace :
  exec (new_mpsc_queue_pair 4) race = Some (run_of race) ∧
  (run_of race).1 =
    [EvReserved 0 [10; 11]; EvReserved 1 [20]; EvDequeue []; EvEnqueue 0 2; EvEnqueue 1 1;
     EvDequeue [10; 11]].
Proof. split; vm_compute; reflexivity. Qed.

Lemma mpsc_fifo_witness :
  dequeued (run_of race_on).1 = [10; 11] ∧ inserted (run_of race_on).1 = [10; 11; 20; 12; 13] ∧
  sys_producers (run_of race_on).2 !! 1%nat = Some PIdle ∧
  dequeued (run_of race_on).1 `prefix_of` inserted (run_of race_on).1 ∧
  returned_to 1 (run_of race_on).1 = len (inserted_by 1 (run_of race_on).1).
Proof.
  destruct (mpsc_fifo 4 ltac:(lia) (run_of race_on).1 (run_of race_on).2 (run_of_runs race_on))
    as (Hp & _ & Hr); [vm_compute; reflexivity..|].
  split; [vm_compute; reflexivity|]. split; [vm_compute; reflexivity|]. split; [vm_compute; reflexivity|].
  split; [exact Hp|]. apply Hr. vm_compute. reflexivity.
Defined.

Lemma mpsc_drains_witness :
  dequeue_alone 6 (sys_queue (run_of race_off).2) (CLoadHead 2) = Ret (Some [20; 12]).
Proof.
  refine (eq_trans (mpsc_drains 4 ltac:(lia) (run_of race_off).1 (run_of race_off).2 2
            (run_of_runs race_off) _ _ _ _ _) _).
  - vm_compute. reflexivity.
  - vm_compute. reflexivity.
  - apply (bool_decide_unpack _). vm_compute. exact I.
  - vm_compute. reflexivity.
  - lia.
  - vm_compute. reflexivity.
Defined.

Lemma mpsc_never_stuck_witness :
  ∃ p ps q ps' evs, sys_producers (run_of race_on).2 !! p = Some ps ∧ ps ≠ PIdle ∧
    producer_step (sys_queue (run_of race_on).2) p ps = Ret (q, ps', evs) ∧ ps' ≠ ps.
Proof.
  destruct (mpsc_never_stuck 4 ltac:(lia) (run_of race_on).1 (run_of race_on).2 (run_of_runs race_on))
    as (_ & _ & Hturn); [vm_compute; reflexivity..|].
  apply (Hturn 0%nat (PStore true 3 2 [(0, 13)])); [vm_compute; reflexivity|discriminate].
Defined.
