(* ===== verification/LoadClient.v ===== *)
(** * LoadClient: the load generator, against the interface of its workloads

    Models splinter/src/bin/client/client.rs with the trait [Workload] of
    splinter/src/workload.rs as the class [ClientWorkload], and the workload
    ycsbt.rs as its instance.  The client issues requests at a fixed rate (open
    load) or keeps [MAX_CREDIT] of them outstanding (closed load); they are
    native requests or invocations, which the server may push back to it.

    The packet sender is shared by the client and its workload, so the link is
    passed through both.  What is only printed is left out. *)

From S2P Require Import Prelude Packed Headers Packet Wire Rpc Alloc Tx Bufs Ext Context Task.
From S2P Require Import Dispatch Proxy Client DB Programs Float Kayak.

(** ** Workloads *)

Class ClientWorkload `{Network} (W : Type) := {
  next_optype : W → W * OpCode;
  wl_name_length : W → Z;
  (** The tenant and the payload; for a multiget the number of keys, too. *)
  get_invoke_request : W → outcome (W * (Z * bytes));
  get_get_request : W → outcome (W * (Z * bytes));
  get_put_request : W → outcome (W * (Z * bytes * bytes));
  get_multiget_request : W → outcome (W * (Z * Z * bytes));
  wl_get_response : Link → W → Packet GetResponse → outcome (Link * W);
  wl_put_response : Link → W → Packet PutResponse → outcome (Link * W);
  wl_multiget_response : Link → W → Packet MultiGetResponse → outcome (Link * W);
}.

(** ** The client *)

Record LoadConf := mkLoadConf {
  lc_open_load : bool;
  lc_native : bool;
  lc_rate_inv : Z;
  lc_table_id : Z;
  lc_responses : Z;
  lc_start : Z;
  lc_requests : Z;
  lc_key_len : Z;
  lc_record_len : Z;
}.

Record LoadCounts := mkLoadCounts {
  lc_next : Z;
  lc_recvd : Z;
  lc_aborted : Z;
  lc_latencies : list Z;
  lc_stop : Z;
  lc_sent : Z;
  lc_outstanding : Z;
}.

Section load_client.
Context `{Network} `{Loader} {G W : Type} `{!ClientWorkload W}.

Record LoadStation := mkLoadStation {
  lc_link : Link;
  lc_receiver : Receiver;
  lc_workload : W;
  lc_manager : @TaskManager _ G;
  lc_invoke_get_modify : bytes;
}.

Record LoadClient := mkLoadClient {
  lc_conf : LoadConf;
  lc_station : LoadStation;
  lc_counts : LoadCounts;
}.

(** [invoke_get_modify] with room for two keys of [key_len] bytes. *)
Definition lc_modify_payload (table_id key_len order : Z) : bytes :=
  let payload_len := len ycsbt_name + 8 + key_len + key_len + 4 + 1 in
  resize (ycsbt_name ++ le_bytes 8 table_id ++ replicate 60 0 ++ le_bytes 4 order ++ [2]) payload_len.

(** A rate of zero divides by zero. *)
Definition LoadClient_new (w : Link) (extensions : ExtensionManager) (wl : W)
    (open_load use_invoke : bool)
    (cycles_per_second req_rate table_id num_reqs key_len value_len order : Z) : outcome LoadClient :=
  _ ← assert_ (req_rate ≠ 0);
  let (start, net) := rdtsc w.2 in
  Ret (mkLoadClient
         (mkLoadConf open_load (negb use_invoke) (cycles_per_second / req_rate) table_id 34000000
            start num_reqs key_len (key_len + value_len + 9))
         (mkLoadStation (w.1, net) Receiver_new wl (TaskManager_new extensions)
            (lc_modify_payload table_id key_len order))
         (mkLoadCounts 0 0 0 [] 0 0 0)).

(** *** Parts of the state *)

Definition lc_with_link (s : LoadStation) (w : Link) : LoadStation :=
  mkLoadStation w (lc_receiver s) (lc_workload s) (lc_manager s) (lc_invoke_get_modify s).

Definition lc_with_work (s : LoadStation) (w : Link) (wl : W) : LoadStation :=
  mkLoadStation w (lc_receiver s) wl (lc_manager s) (lc_invoke_get_modify s).

Definition lc_with_manager (s : LoadStation) (m : TaskManager) : LoadStation :=
  mkLoadStation (lc_link s) (lc_receiver s) (lc_workload s) m (lc_invoke_get_modify s).

Definition lc_one_sent (n : LoadCounts) : LoadCounts :=
  mkLoadCounts (lc_next n) (lc_recvd n) (lc_aborted n) (lc_latencies n) (lc_stop n)
    (lc_sent n +u64 1) (lc_outstanding n +u64 1).

Definition lc_one_less (n : LoadCounts) : LoadCounts :=
  mkLoadCounts (lc_next n) (lc_recvd n) (lc_aborted n) (lc_latencies n) (lc_stop n)
    (lc_sent n) (lc_outstanding n -u64 1).

Definition lc_one_recvd (n : LoadCounts) (latency : Z) : LoadCounts :=
  mkLoadCounts (lc_next n) (lc_recvd n +u64 1) (lc_aborted n) (lc_latencies n ++ [latency])
    (lc_stop n) (lc_sent n) (lc_outstanding n).

(** [again] of the aborted requests are outstanding again. *)
Definition lc_one_aborted (n : LoadCounts) (again : Z) : LoadCounts :=
  mkLoadCounts (lc_next n) (lc_recvd n) (lc_aborted n +u64 1) (lc_latencies n) (lc_stop n)
    (lc_sent n) (lc_outstanding n +u64 again).

(** *** Sending *)

Definition lc_send_native (k : LoadClient) : outcome LoadClient :=
  let c := lc_conf k in
  let s := lc_station k in
  let (curr, net) := rdtsc (lc_link s).2 in
  let w := ((lc_link s).1, net) in
  let (wl, op) := next_optype (lc_workload s) in
  match op with
  | SandstormGetRpc =>
      '(wl, (tenant, key)) ← get_get_request wl;
      w ← send_get w tenant (lc_table_id c) key curr;
      Ret (mkLoadClient c (lc_with_work s w wl) (lc_one_sent (lc_counts k)))
  | SandstormPutRpc =>
      '(wl, (tenant, key, val)) ← get_put_request wl;
      w ← send_put w tenant (lc_table_id c) key val curr;
      Ret (mkLoadClient c (lc_with_work s w wl) (lc_one_sent (lc_counts k)))
  | SandstormMultiGetRpc =>
      '(wl, (tenant, n_keys, keys)) ← get_multiget_request wl;
      w ← send_multiget w tenant (lc_table_id c) (wrap 16 (lc_key_len c)) n_keys keys curr;
      Ret (mkLoadClient c (lc_with_work s w wl) (lc_one_sent (lc_counts k)))
  | _ => Ret (mkLoadClient c (lc_with_work s w wl) (lc_counts k))
  end.

Definition lc_send_invoke (k : LoadClient) : outcome LoadClient :=
  let s := lc_station k in
  let (curr, net) := rdtsc (lc_link s).2 in
  let name_length := wl_name_length (lc_workload s) in
  '(wl, (tenant, request)) ← get_invoke_request (lc_workload s);
  w ← send_invoke ((lc_link s).1, net) tenant name_length request curr;
  m ← create_task (lc_manager s) curr request tenant name_length;
  Ret (mkLoadClient (lc_conf k) (lc_with_manager (lc_with_work s w wl) m) (lc_one_sent (lc_counts k))).

Definition LC_MAX_CREDIT : nat := 32.

Definition lc_queue_free (k : LoadClient) : bool :=
  bool_decide (get_queue_len (lc_manager (lc_station k)) < Z.of_nat LC_MAX_CREDIT).

(** A request, unless it is an invocation and the queue of pushed-back tasks is
    full. *)
Definition lc_send_one (k : LoadClient) : outcome LoadClient :=
  if lc_native (lc_conf k) then lc_send_native k
  else if lc_queue_free k then lc_send_invoke k else Ret k.

Definition lc_may_send (k : LoadClient) : bool :=
  bool_decide (lc_outstanding (lc_counts k) < Z.of_nat LC_MAX_CREDIT).

(** The loop of the closed load. *)
Definition lc_send_loop : nat → LoadClient → outcome LoadClient := while_loop lc_may_send lc_send_one.

Definition lc_schedule (k : LoadClient) : LoadClient :=
  let n := lc_counts k in
  let c := lc_conf k in
  mkLoadClient c (lc_station k)
    (mkLoadCounts (lc_start c +u64 wmul 64 (lc_sent n) (lc_rate_inv c)) (lc_recvd n) (lc_aborted n)
       (lc_latencies n) (lc_stop n) (lc_sent n) (lc_outstanding n)).

(** [fuel] bounds the turns of the closed load's loop. *)
Definition lc_send (fuel : nat) (k : LoadClient) : outcome LoadClient :=
  let s := lc_station k in
  if decide (lc_requests (lc_conf k) <= lc_sent (lc_counts k)) then Ret k
  else if lc_open_load (lc_conf k) then
    let (curr, net) := rdtsc (lc_link s).2 in
    let k := mkLoadClient (lc_conf k) (lc_with_link s ((lc_link s).1, net)) (lc_counts k) in
    if decide (curr >= lc_next (lc_counts k) ∨ lc_next (lc_counts k) = 0)
    then k ← lc_send_one k; Ret (lc_schedule k)
    else Ret k
  else lc_send_loop fuel k.

(** *** Receiving *)

Definition lc_free {T} (p : Packet T) (s : LoadStation) : LoadStation :=
  lc_with_link s ((lc_link s).1, mbuf_free (mbuf p) (lc_link s).2).

Definition lc_recv_native (s : LoadStation) (n : LoadCounts) (packet : Packet UdpHeader) :
    outcome (LoadStation * LoadCounts) :=
  opcode ← parse_rpc_opcode packet;
  s ←
    match opcode with
    | SandstormGetRpc =>
        p ← parse_header GetResponse packet;
        h ← get_header p;
        s ← (if decide (status (getres_common h) = RpcStatus_u8 StatusOk) then
               '(w, wl) ← wl_get_response (lc_link s) (lc_workload s) p;
               Ret (lc_with_work s w wl)
             else Ret s);
        Ret (lc_free p s)
    | SandstormMultiGetRpc =>
        p ← parse_header MultiGetResponse packet;
        h ← get_header p;
        s ← (if decide (status (mgetres_common h) = RpcStatus_u8 StatusOk) then
               '(w, wl) ← wl_multiget_response (lc_link s) (lc_workload s) p;
               Ret (lc_with_work s w wl)
             else Ret s);
        Ret (lc_free p s)
    | _ => Ret (lc_free packet s)
    end;
  Ret (s, lc_one_less n).

Definition lc_recv_invoke (c : LoadConf) (s : LoadStation) (n : LoadCounts) (curr : Z)
    (packet : Packet UdpHeader) : outcome (LoadStation * LoadCounts) :=
  opcode ← parse_rpc_opcode packet;
  match opcode with
  | SandstormInvokeRpc =>
      p ← parse_header InvokeResponse packet;
      h ← get_header p;
      let h := invokeres_common h in
      let timestamp := res_stamp h in
      '(s, n) ←
        (if decide (status h = RpcStatus_u8 StatusOk) then
           Ret (lc_with_manager s (delete_task (lc_manager s) timestamp),
                lc_one_less (lc_one_recvd n (curr -u64 timestamp)))
         else if decide (status h = RpcStatus_u8 StatusPushback) then
           records ← get_payload p;
           m ← update_rwset (lc_manager s) timestamp records (lc_record_len c) (lc_key_len c);
           Ret (lc_with_manager s m, lc_one_less n)
         else if decide (status h = RpcStatus_u8 StatusTxAbort) then
           pl ← get_payload p;
           w ← send_invoke (lc_link s) (res_tenant h) (wl_name_length (lc_workload s)) pl timestamp;
           Ret (lc_with_link s w, lc_one_aborted n 0)
         else Ret (s, n));
      Ret (lc_free p s, n)
  | SandstormGetRpc =>
      p ← parse_header GetResponse packet;
      h ← get_header p;
      pl ← get_payload p;
      m ← update_rwset (lc_manager s) (res_stamp (getres_common h)) pl (lc_record_len c) (lc_key_len c);
      Ret (lc_free p (lc_with_manager s m), n)
  | _ => Ret (lc_free packet s, n)
  end.

(** The keys of an aborted transaction, written into the payload of the
    invocation, thirty bytes apart. *)
Definition lc_retry_payload (payload records : bytes) (key_len : Z) : outcome bytes :=
  keys ← chunks records key_len;
  '(payload, _) ← ofold (λ '(payload, start), λ key,
    k ← slice key 0 4;
    payload ← copy_from_slice payload start (start + 4) k;
    Ret (payload, start + 30)) (payload, 13) keys;
  Ret payload.

(** An aborted transaction starts again. *)
Definition lc_retry (c : LoadConf) (s : LoadStation) (tenant timestamp : Z) (keys : bytes) :
    outcome LoadStation :=
  if lc_native c then
    w ← (if decide (len keys = lc_key_len c) then
           send_get (lc_link s) tenant (lc_table_id c) keys timestamp
         else
           _ ← assert_ (lc_key_len c ≠ 0);
           let n_keys := wrap 32 (len keys / lc_key_len c) in
           send_multiget (lc_link s) tenant (lc_table_id c) (wrap 16 (lc_key_len c)) n_keys keys
             timestamp);
    Ret (lc_with_link s w)
  else
    let name_length := wl_name_length (lc_workload s) in
    payload ← lc_retry_payload (lc_invoke_get_modify s) keys (lc_key_len c);
    w ← send_invoke (lc_link s) tenant name_length payload timestamp;
    m ← create_task (lc_manager s) timestamp payload tenant name_length;
    Ret (mkLoadStation w (lc_receiver s) (lc_workload s) m payload).

Definition lc_recv_commit (c : LoadConf) (s : LoadStation) (n : LoadCounts) (curr : Z)
    (packet : Packet UdpHeader) : outcome (LoadStation * LoadCounts) :=
  p ← parse_header CommitResponse packet;
  h ← get_header p;
  let h := commitres_common h in
  '(s, n) ←
    (if decide (status h = RpcStatus_u8 StatusTxAbort) then
       pl ← get_payload p;
       s ← lc_retry c s (res_tenant h) (res_stamp h) pl;
       Ret (s, lc_one_aborted n 1)
     else if decide (status h = RpcStatus_u8 StatusOk) then
       Ret (s, lc_one_recvd n (curr -u64 res_stamp h))
     else Ret (s, n));
  Ret (lc_free p s, n).

Definition lc_recv_packet (c : LoadConf) (curr : Z) (sn : LoadStation * LoadCounts)
    (packet : Packet UdpHeader) : outcome (LoadStation * LoadCounts) :=
  let (s, n) := sn in
  opcode ← parse_rpc_opcode packet;
  match opcode with
  | SandstormCommitRpc => lc_recv_commit c s n curr packet
  | _ => if lc_native c then lc_recv_native s n packet else lc_recv_invoke c s n curr packet
  end.

Definition lc_recv (k : LoadClient) : outcome LoadClient :=
  let c := lc_conf k in
  let s := lc_station k in
  if decide (lc_stop (lc_counts k) > 0) then Ret k
  else
    '(rc, net, packets) ← recv_res (lc_receiver s) (lc_link s).2;
    let s := mkLoadStation ((lc_link s).1, net) rc (lc_workload s) (lc_manager s)
               (lc_invoke_get_modify s) in
    '(s, n) ←
      match packets with
      | Some packets =>
          let (curr, net) := rdtsc (lc_link s).2 in
          ofold (lc_recv_packet c curr) (lc_with_link s ((lc_link s).1, net), lc_counts k) (rev packets)
      | None => Ret (s, lc_counts k)
      end;
    if decide (lc_responses c <= lc_recvd n +u64 lc_aborted n) then
      let (now, net) := rdtsc (lc_link s).2 in
      Ret (mkLoadClient c (lc_with_link s ((lc_link s).1, net))
             (mkLoadCounts (lc_next n) (lc_recvd n) (lc_aborted n) (lc_latencies n) now (lc_sent n)
                (lc_outstanding n)))
    else Ret (mkLoadClient c s n).

(** *** Executable::execute and Drop *)

Context (ext_gen : Extension → ProxyDB → G) (resume : Link → ProxyDB → G → ClientStep Link G).

Definition lc_execute_one (k : LoadClient) : outcome LoadClient :=
  let s := lc_station k in
  let (start, net) := rdtsc (lc_link s).2 in
  let (stop, net) := rdtsc net in
  '(w, m, _) ← execute_task ext_gen resume ((lc_link s).1, net) (lc_manager s) start stop;
  Ret (mkLoadClient (lc_conf k) (lc_with_manager (lc_with_link s w) m) (lc_counts k)).

Definition lc_execute (fuel : nat) (k : LoadClient) : outcome LoadClient :=
  k ← lc_send fuel k;
  k ← lc_recv k;
  if negb (lc_native (lc_conf k)) && bool_decide (get_queue_len (lc_manager (lc_station k)) > 0)
  then ofold (λ k _, lc_execute_one k) k (seq 0 LC_MAX_CREDIT)
  else Ret k.

(** The client that ends tells the server's extension so, by an invocation with
    operation 3. *)
Definition lc_drop (k : LoadClient) : outcome LoadClient :=
  let s := lc_station k in
  let (now, net) := rdtsc (lc_link s).2 in
  let w := if decide (lc_stop (lc_counts k) = 0) then ((lc_link s).1, net) else lc_link s in
  '(wl, (tenant, request)) ← get_invoke_request (lc_workload s);
  vec ← set_index request (len request - 1) 3;
  let (id, net) := rdtsc w.2 in
  w ← send_invoke (w.1, net) tenant 5 vec id;
  let n := lc_counts k in
  Ret (mkLoadClient (lc_conf k) (lc_with_work s w wl)
         (mkLoadCounts (lc_next n) (lc_recvd n) (lc_aborted n) (lc_latencies n)
            (if decide (lc_stop n = 0) then now else lc_stop n) (lc_sent n) (lc_outstanding n))).
End load_client.
