(* ===== verification/YcsbtWork.v ===== *)
(** * YcsbtWork: the YCSB-T workload of the load generator

    Models splinter/src/bin/client/ycsbt.rs as an instance of the interface of
    file [LoadClient].  The busy wait of the compute part is left out. *)

From stdpp Require Import strings.
From S2P Require Import Prelude Packed Headers Packet Wire Rpc Alloc Tx Bufs Ext Context Task.
From S2P Require Import Dispatch Proxy Client DB Programs Float Kayak LoadClient.

Section ycsbt.
Context `{Network} `{Workloads}.

Record YcsbtWork := mkYcsbtWork {
  yw_put_pct : Z;
  yw_rng : Rng;
  yw_key_rng : Zipf;
  yw_tenant_rng : Zipf;
  yw_key_buf : bytes;
  yw_value_buf : bytes;
  yw_multikey_buf : bytes;
  yw_invoke_get : bytes;
  yw_invoke_get_modify : bytes;
  yw_table_id : Z;
  yw_order : Z;
}.

Definition yw_get_payload (table_id key_len order : Z) : bytes :=
  let payload_len := len ycsbt_name + 8 + key_len + 4 + 1 in
  resize (ycsbt_name ++ le_bytes 8 table_id ++ replicate 30 0 ++ le_bytes 4 order ++ [1]) payload_len.

Definition yw_get_modify_payload (table_id key_len order : Z) : bytes :=
  let payload_len := len ycsbt_name + 8 + key_len + key_len + 4 + 1 in
  resize (ycsbt_name ++ le_bytes 8 table_id ++ replicate 60 0 ++ le_bytes 4 order ++ [2]) payload_len.

(** The buffer for two keys gets twice the length of a value. *)
Definition YcsbtWork_new (rng : Rng) (key_rng tenant_rng : Zipf)
    (table_id key_len value_len put_pct order : Z) : YcsbtWork :=
  mkYcsbtWork put_pct rng key_rng tenant_rng (replicate (Z.to_nat key_len) 0)
    (replicate (Z.to_nat value_len) 0) (replicate (Z.to_nat (2 * value_len)) 0)
    (yw_get_payload table_id key_len order) (yw_get_modify_payload table_id key_len order)
    table_id order.

(** Drawing from the generators. *)
Definition yw_with_rng (y : YcsbtWork) (rng : Rng) : YcsbtWork :=
  mkYcsbtWork (yw_put_pct y) rng (yw_key_rng y) (yw_tenant_rng y) (yw_key_buf y) (yw_value_buf y)
    (yw_multikey_buf y) (yw_invoke_get y) (yw_invoke_get_modify y) (yw_table_id y) (yw_order y).

Definition yw_is_get (y : YcsbtWork) : YcsbtWork * bool :=
  let (r, rng) := gen_u32 (yw_rng y) in
  (yw_with_rng y rng, bool_decide (r mod 100 >= wrap 32 (yw_put_pct y))).

Definition yw_tenant (y : YcsbtWork) : YcsbtWork * Z :=
  let '(t, tenant_rng, rng) := zipf_sample (yw_tenant_rng y) (yw_rng y) in
  (mkYcsbtWork (yw_put_pct y) rng (yw_key_rng y) tenant_rng (yw_key_buf y) (yw_value_buf y)
     (yw_multikey_buf y) (yw_invoke_get y) (yw_invoke_get_modify y) (yw_table_id y) (yw_order y),
   wrap 32 t).

(** The four bytes of a key. *)
Definition yw_key (y : YcsbtWork) : YcsbtWork * bytes :=
  let '(k, key_rng, rng) := zipf_sample (yw_key_rng y) (yw_rng y) in
  (mkYcsbtWork (yw_put_pct y) rng key_rng (yw_tenant_rng y) (yw_key_buf y) (yw_value_buf y)
     (yw_multikey_buf y) (yw_invoke_get y) (yw_invoke_get_modify y) (yw_table_id y) (yw_order y),
   le_bytes 4 (wrap 32 k)).

Definition yw_with_bufs (y : YcsbtWork) (key value multikey get modify : bytes) : YcsbtWork :=
  mkYcsbtWork (yw_put_pct y) (yw_rng y) (yw_key_rng y) (yw_tenant_rng y) key value multikey get modify
    (yw_table_id y) (yw_order y).

Definition yw_next_optype (y : YcsbtWork) : YcsbtWork * OpCode :=
  let (y, is_get) := yw_is_get y in
  (y, if is_get : bool then SandstormGetRpc else SandstormMultiGetRpc).

Definition yw_name_length (_ : YcsbtWork) : Z := len ycsbt_name.

Definition yw_get_invoke_request (y : YcsbtWork) : outcome (YcsbtWork * (Z * bytes)) :=
  let (y, t) := yw_tenant y in
  let (y, is_get) := yw_is_get y in
  if is_get : bool then
    let (y, k) := yw_key y in
    get ← copy_from_slice (yw_invoke_get y) 13 17 k;
    Ret (yw_with_bufs y (yw_key_buf y) (yw_value_buf y) (yw_multikey_buf y) get
           (yw_invoke_get_modify y), (t, get))
  else
    let (y, k) := yw_key y in
    modify ← copy_from_slice (yw_invoke_get_modify y) 13 17 k;
    let (y, k) := yw_key y in
    modify ← copy_from_slice modify 43 47 k;
    Ret (yw_with_bufs y (yw_key_buf y) (yw_value_buf y) (yw_multikey_buf y) (yw_invoke_get y) modify,
         (t, modify)).

Definition yw_get_get_request (y : YcsbtWork) : outcome (YcsbtWork * (Z * bytes)) :=
  let (y, t) := yw_tenant y in
  let (y, k) := yw_key y in
  key ← copy_from_slice (yw_key_buf y) 0 4 k;
  Ret (yw_with_bufs y key (yw_value_buf y) (yw_multikey_buf y) (yw_invoke_get y)
         (yw_invoke_get_modify y), (t, key)).

Definition yw_get_put_request (y : YcsbtWork) : outcome (YcsbtWork * (Z * bytes * bytes)) :=
  let (y, t) := yw_tenant y in
  let (y, k) := yw_key y in
  key ← copy_from_slice (yw_key_buf y) 0 4 k;
  value ← copy_from_slice (yw_value_buf y) 0 4 k;
  Ret (yw_with_bufs y key value (yw_multikey_buf y) (yw_invoke_get y) (yw_invoke_get_modify y),
       (t, key, value)).

Definition yw_get_multiget_request (y : YcsbtWork) : outcome (YcsbtWork * (Z * Z * bytes)) :=
  let (y, t) := yw_tenant y in
  let (y, k) := yw_key y in
  keys ← copy_from_slice (yw_multikey_buf y) 0 4 k;
  let (y, k) := yw_key y in
  keys ← copy_from_slice keys 30 34 k;
  Ret (yw_with_bufs y (yw_key_buf y) (yw_value_buf y) keys (yw_invoke_get y) (yw_invoke_get_modify y),
       (t, 2, keys)).

(** A get is a transaction of one read. *)
Definition yw_process_get_response (w : Link) (y : YcsbtWork) (p : Packet GetResponse) :
    outcome (Link * YcsbtWork) :=
  h ← get_header p;
  record ← get_payload p;
  w ← send_commit w (res_tenant (getres_common h)) (yw_table_id y) record
        (res_stamp (getres_common h)) 30 100;
  Ret (w, y).

Definition yw_process_put_response (w : Link) (y : YcsbtWork) (p : Packet PutResponse) :
    outcome (Link * YcsbtWork) :=
  record ← get_payload p;
  Ret (w, y).

(** The transfer and its commit are computed as in the other client. *)
Definition yw_process_multiget_response (w : Link) (y : YcsbtWork) (p : Packet MultiGetResponse) :
    outcome (Link * YcsbtWork) :=
  h ← get_header p;
  records ← get_payload p;
  '(record1, record2) ← split_at records 139;
  '(_, rest1) ← split_at record1 9;
  '(key1, v1) ← split_at rest1 30;
  '(_, rest2) ← split_at record2 9;
  '(key2, v2) ← split_at rest2 30;
  '(value1, value2) ← native_transfer v1 v2;
  let write := [OpType_u8 SandstormWrite] ++ le_bytes 8 0 in
  w ← send_commit w (res_tenant (mgetres_common h)) (yw_table_id y)
        (records ++ write ++ key1 ++ value1 ++ write ++ key2 ++ value2)
        (res_stamp (mgetres_common h)) 30 100;
  Ret (w, y).

#[export] Instance ycsbt_workload : ClientWorkload YcsbtWork := {|
  next_optype := yw_next_optype;
  wl_name_length := yw_name_length;
  get_invoke_request := yw_get_invoke_request;
  get_get_request := yw_get_get_request;
  get_put_request := yw_get_put_request;
  get_multiget_request := yw_get_multiget_request;
  wl_get_response := yw_process_get_response;
  wl_put_response := yw_process_put_response;
  wl_multiget_response := yw_process_multiget_response;
|}.
End ycsbt.
