(* ===== verification/LoadSpecs.v ===== *)
(** * LoadSpecs: what the load generator does *)

From stdpp Require Import strings.
From S2P Require Import Prelude Packed Headers Packet Wire Rpc Alloc Tx Bufs Ext Context Task.
From S2P Require Import Dispatch DispatchSpecs Proxy Client DB Programs ExtSpecs Float.
From S2P Require Import Kayak KayakSpecs LoadClient YcsbtWork HandlerSpecs.

(** ** The schedule and the window *)

Section load.
Context `{Network} `{Loader} {G W : Type} `{!ClientWorkload W}.
Context (ext_gen : Extension → ProxyDB → G) (resume : Link → ProxyDB → G → ClientStep Link G).
Implicit Types k : @LoadClient _ _ G W.

(** The counters that sending keeps, apart from what is sent. *)
Record one_more k k' (d : Z) : Prop := {
  om_conf : lc_conf k' = lc_conf k;
  om_next : lc_next (lc_counts k') = lc_next (lc_counts k);
  om_sent : lc_sent (lc_counts k') = lc_sent (lc_counts k) +u64 d;
  om_out : lc_outstanding (lc_counts k') = lc_outstanding (lc_counts k) +u64 d;
  om_ready : tm_ready (lc_manager (lc_station k')) = tm_ready (lc_manager (lc_station k));
}.

(** The operations a workload may choose. *)
Definition sends (op : OpCode) : Prop :=
  op = SandstormGetRpc ∨ op = SandstormPutRpc ∨ op = SandstormMultiGetRpc.

Context (Hops : ∀ wl, sends (next_optype wl).2).

Lemma lc_send_native_more k k' : lc_send_native k = Ret k' → one_more k k' 1.
Proof.
  unfold lc_send_native. destruct (rdtsc _) as [t net]. pose proof (Hops (lc_workload (lc_station k))) as Hop.
  destruct (next_optype _) as [wl op]. cbn [snd] in Hop. intros Hk.
  destruct Hop as [ -> |[ -> | -> ]]; inv_outcome.
  - destruct a as [wl' [tenant key]]. inv_outcome. by split.
  - destruct a as [wl' [[tenant key] val]]. inv_outcome. by split.
  - destruct a as [wl' [[tenant n] keys]]. inv_outcome. by split.
Qed.

Lemma lc_send_invoke_more k k' : lc_send_invoke k = Ret k' → one_more k k' 1.
Proof.
  unfold lc_send_invoke. destruct (rdtsc _) as [t net]. intros Hk. inv_outcome.
  destruct a as [wl' [tenant request]]. inv_outcome. split; try done. by eapply create_task_ready.
Qed.

(** Whether a turn sends. *)
Definition lc_sends k : bool := lc_native (lc_conf k) || lc_queue_free k.

Lemma lc_send_one_more k k' :
  lc_sends k = true → lc_send_one k = Ret k' → one_more k k' 1 ∧ lc_sends k' = true.
Proof.
  unfold lc_sends, lc_send_one, lc_queue_free. intros Hs Hk.
  assert (one_more k k' 1) as Hm.
  { destruct (lc_native (lc_conf k)); [by apply lc_send_native_more|]. cbn [orb] in Hs.
    rewrite Hs in Hk. by apply lc_send_invoke_more. }
  split; [done|]. destruct Hm as [Hc _ _ _ Hr]. unfold get_queue_len in *. by rewrite Hc, Hr.
Qed.

Lemma lc_send_one_idle k : lc_sends k = false → lc_send_one k = Ret k.
Proof. unfold lc_sends, lc_send_one. by intros [-> ->]%orb_false_iff. Qed.

(** *** Closed load *)

(** The requests missing to the window. *)
Definition lc_room k : nat := Z.to_nat (Z.of_nat LC_MAX_CREDIT - lc_outstanding (lc_counts k)).

Definition lc_turns (n : nat) k : outcome (@LoadClient _ _ G W) :=
  ofold (λ k _, lc_send_one k) k (seq 0 n).

Lemma lc_room_guard k : lc_may_send k = bool_decide (lc_room k ≠ 0%nat).
Proof. unfold lc_may_send, lc_room. apply bool_decide_ext. change (Z.of_nat LC_MAX_CREDIT) with 32. lia. Qed.

Lemma lc_loop_turns fuel k :
  in_width 64 (lc_outstanding (lc_counts k)) → lc_sends k = true → (lc_room k ≤ fuel)%nat →
  lc_send_loop fuel k = lc_turns (lc_room k) k.
Proof.
  intros Ho Hs Hf. unfold lc_send_loop, lc_turns.
  apply (while_loop_turns lc_may_send lc_send_one
    (λ k, in_width 64 (lc_outstanding (lc_counts k)) ∧ lc_sends k = true)); [| |by split|done].
  - intros. apply lc_room_guard.
  - clear k Ho Hs Hf. intros k k' [Ho Hs] Hr Hk. apply lc_send_one_more in Hk as [[_ _ _ Hk _] Hs']; [|done].
    unfold lc_room in *. change (Z.of_nat LC_MAX_CREDIT) with 32 in *.
    rewrite wadd_id in Hk by (unfold in_width in *; lia). rewrite Hk.
    split; [split; [unfold in_width in *; lia|done]|]. lia.
Qed.

Lemma lc_turns_more n k k' :
  lc_sends k = true → in_width 64 (lc_outstanding (lc_counts k)) → in_width 64 (lc_sent (lc_counts k)) →
  lc_turns n k = Ret k' → one_more k k' (Z.of_nat n).
Proof.
  unfold lc_turns. generalize 0%nat. revert k. induction n as [|n IH]; intros k i Hs Ho Hsn; cbn [seq ofold].
  - intros [= <-]. split; try done; by rewrite wadd_id; rewrite Z.add_0_r.
  - destruct (lc_send_one k) as [k1| |] eqn:E; cbn [mbind outcome_bind]; [|done..]. intros Hk.
    apply lc_send_one_more in E as [[Hc1 Hn1 Hs1 Ho1 Hr1] Hs']; [|done].
    apply IH in Hk as [Hc2 Hn2 Hs2 Ho2 Hr2]; [|done|rewrite Ho1|rewrite Hs1]; [|by apply wrap_range..].
    split; try congruence.
    + rewrite Hs2, Hs1, wadd_assoc by lia. f_equal. lia.
    + rewrite Ho2, Ho1, wadd_assoc by lia. f_equal. lia.
Qed.

(** C15: under closed load, a call of [send] either fills the window or never
    returns.  When requests are native or the queue of pushed-back tasks is not
    full, the loop takes exactly the turns that are missing to [MAX_CREDIT]
    outstanding requests, one request each, and ends; when requests are
    invocations, the queue is full and the window open, every turn leaves the
    client as it is, and no number of turns ends the loop. *)
Theorem closed_load_fills_or_hangs k :
  lc_open_load (lc_conf k) = false → lc_sent (lc_counts k) < lc_requests (lc_conf k) →
  in_width 64 (lc_outstanding (lc_counts k)) → in_width 64 (lc_sent (lc_counts k)) →
  (lc_sends k = true →
    (∀ fuel, (lc_room k ≤ fuel)%nat → lc_send fuel k = lc_turns (lc_room k) k) ∧
    ∀ k', lc_turns (lc_room k) k = Ret k' →
      lc_may_send k' = false ∧
      lc_outstanding (lc_counts k') = lc_outstanding (lc_counts k) + Z.of_nat (lc_room k) ∧
      lc_sent (lc_counts k') = lc_sent (lc_counts k) +u64 Z.of_nat (lc_room k)) ∧
  (lc_sends k = false → lc_may_send k = true →
    ∀ n fuel, lc_turns n k = Ret k ∧ lc_send fuel k = Undef).
Proof.
  intros Hopen Hreq Ho Hsn.
  assert (∀ fuel, lc_send fuel k = lc_send_loop fuel k) as Hloop
    by (intros fuel; unfold lc_send; by rewrite decide_False, Hopen by lia).
  split.
  - intros Hs. split; [intros fuel Hf; rewrite Hloop; by apply lc_loop_turns|]. intros k' Hk'.
    apply lc_turns_more in Hk' as [Hc _ Hs' Ho' _]; [|done..].
    assert (lc_outstanding (lc_counts k') = lc_outstanding (lc_counts k) + Z.of_nat (lc_room k)) as Hout.
    { rewrite Ho'. apply wadd_id. unfold lc_room, in_width in *. change (Z.of_nat LC_MAX_CREDIT) with 32. lia. }
    split_and!; [|done..]. unfold lc_may_send. apply bool_decide_eq_false. rewrite Hout. unfold lc_room. lia.
  - intros Hs Hm n fuel. apply lc_send_one_idle in Hs. split.
    + unfold lc_turns. generalize 0%nat. induction n as [|n IH]; intros i; [done|]. cbn [seq ofold].
      rewrite Hs. apply IH.
    + rewrite Hloop. unfold lc_send_loop. induction fuel as [|fuel IH]; cbn [while_loop]; rewrite Hm; [done|].
      by rewrite Hs.
Qed.

(** *** Open load *)

(** What receiving leaves alone. *)
Definition sched_kept (n n' : LoadCounts) : Prop := lc_next n' = lc_next n ∧ lc_sent n' = lc_sent n.

Lemma lc_recv_packet_kept c curr s n p s' n' :
  @lc_recv_packet _ _ G _ _ c curr (s, n) p = Ret (s', n') → sched_kept n n'.
Proof.
  unfold lc_recv_packet. intros Hr. inv_outcome.
  assert (∀ s1 n1, lc_recv_native s n p = Ret (s1, n1) → sched_kept n n1) as Hnat.
  { intros s1 n1 Hn. unfold lc_recv_native in Hn. inv_outcome. done. }
  assert (∀ s1 n1, lc_recv_invoke c s n curr p = Ret (s1, n1) → sched_kept n n1) as Hinv.
  { intros s1 n1 Hn. unfold lc_recv_invoke in Hn. inv_outcome.
    case_match; inv_outcome; repeat (repeat case_decide; repeat split_match; inv_outcome); done. }
  assert (∀ s1 n1, lc_recv_commit c s n curr p = Ret (s1, n1) → sched_kept n n1) as Hcom.
  { intros s1 n1 Hn. unfold lc_recv_commit in Hn. inv_outcome;
      repeat (repeat case_decide; repeat split_match; inv_outcome); done. }
  destruct a; try (by eauto); destruct (lc_native c); eauto.
Qed.

Lemma lc_recv_kept k k' :
  lc_recv k = Ret k' → lc_conf k' = lc_conf k ∧ sched_kept (lc_counts k) (lc_counts k').
Proof.
  unfold lc_recv. case_decide; [by intros [= <-]|].
  destruct (recv_res _ _) as [[[rc net] packets]| |]; cbn [mbind outcome_bind]; [|done..].
  set (s0 := mkLoadStation _ _ _ _ _).
  assert (∀ s n, match packets with
    | Some packets =>
        let (curr, net) := rdtsc (lc_link s0).2 in
        ofold (lc_recv_packet (lc_conf k) curr) (lc_with_link s0 ((lc_link s0).1, net), lc_counts k)
          (rev packets)
    | None => Ret (s0, lc_counts k)
    end = Ret (s, n) → sched_kept (lc_counts k) n) as Hbatch.
  { intros s n. destruct packets as [packets|]; [|by intros [= <- <-]].
    destruct (rdtsc _) as [curr net']. intros Hf.
    apply (ofold_inv (λ '(_, n), sched_kept (lc_counts k) n) _ _ _ _) in Hf; [done| |done].
    intros [s1 n1] p [s2 n2] [Hn1 Hs1] [Hn2 Hs2]%lc_recv_packet_kept. split; congruence. }
  destruct (match packets with Some _ => _ | None => _ end) as [[s n]| |]; cbn [mbind outcome_bind]; [|done..].
  specialize (Hbatch s n eq_refl). destruct Hbatch as [Hn Hs].
  case_decide; [destruct (rdtsc _)|]; by intros [= <-].
Qed.

Lemma lc_executed_kept fuel n k k' :
  ofold (λ k _, lc_execute_one ext_gen resume k) k (seq fuel n) = Ret k' →
  lc_conf k' = lc_conf k ∧ sched_kept (lc_counts k) (lc_counts k').
Proof.
  intros Hf.
  apply (ofold_inv (λ k', lc_conf k' = lc_conf k ∧ sched_kept (lc_counts k) (lc_counts k')) _ _ _ _) in Hf; [done| |done].
  intros k1 i k2 [Hc Hs] He. unfold lc_execute_one in He. destruct (rdtsc _), (rdtsc _). inv_outcome.
  destruct a as [[w m] o]. by inv_outcome.
Qed.

(** The time of the next request is that of the schedule. *)
Record paced k : Prop := {
  pc_sent : 0 ≤ lc_sent (lc_counts k);
  pc_requests : lc_sent (lc_counts k) ≤ Z.max 0 (lc_requests (lc_conf k));
  pc_next : lc_next (lc_counts k) = lc_start (lc_conf k) + lc_sent (lc_counts k) * lc_rate_inv (lc_conf k) ∨
            lc_next (lc_counts k) = 0 ∧ lc_sent (lc_counts k) = 0;
}.

(** The schedule fits into 64 bits. *)
Definition schedule_fits (c : LoadConf) : Prop :=
  0 ≤ lc_start c ∧ 0 ≤ lc_rate_inv c ∧ lc_requests c < 2 ^ 64 ∧
  lc_start c + Z.max 0 (lc_requests c) * lc_rate_inv c < 2 ^ 64.

(** A call of [send] under open load: at most one request, and when one is due. *)
Lemma lc_open_send fuel k k' :
  lc_open_load (lc_conf k) = true → schedule_fits (lc_conf k) → paced k → lc_send fuel k = Ret k' →
  let t := (rdtsc (lc_link (lc_station k)).2).1 in
  let due := lc_next (lc_counts k) = 0 ∨
    lc_start (lc_conf k) + lc_sent (lc_counts k) * lc_rate_inv (lc_conf k) ≤ t in
  paced k' ∧ lc_conf k' = lc_conf k ∧
  (lc_sent (lc_counts k') = lc_sent (lc_counts k) ∨ lc_sent (lc_counts k') = lc_sent (lc_counts k) + 1) ∧
  (lc_sent (lc_counts k') = lc_sent (lc_counts k) + 1 →
    lc_sent (lc_counts k) < lc_requests (lc_conf k) ∧ due) ∧
  (lc_sent (lc_counts k) < lc_requests (lc_conf k) → due → lc_sends k = true →
    lc_sent (lc_counts k') = lc_sent (lc_counts k) + 1).
Proof.
  intros Hopen (Hst & Hri & Hrq & Hfit) Hp Hk. destruct Hp as [Hs0 Hsr Hn]. unfold lc_send in Hk. rewrite Hopen in Hk.
  case_decide as Hreq; [injection Hk as <-; split_and!; [by split|done|by left|lia|lia]|].
  destruct (rdtsc (lc_link (lc_station k)).2) as [t net]. cbn [fst].
  set (k0 := mkLoadClient (lc_conf k) _ _) in Hk.
  assert (lc_sends k0 = lc_sends k ∧ lc_counts k0 = lc_counts k ∧ lc_conf k0 = lc_conf k) as (Hs & Hc0 & Hf0) by done.
  clearbody k0.
  assert (0 ≤ lc_sent (lc_counts k) * lc_rate_inv (lc_conf k)) by nia.
  assert ((lc_sent (lc_counts k) + 1) * lc_rate_inv (lc_conf k) ≤
    Z.max 0 (lc_requests (lc_conf k)) * lc_rate_inv (lc_conf k)) by (apply Z.mul_le_mono_nonneg_r; lia).
  case_decide as Hd; cycle 1.
  { injection Hk as <-. rewrite Hc0, Hf0 in *. split_and!; [by split; rewrite ?Hc0, ?Hf0|done|by left|lia|lia]. }
  destruct (lc_send_one k0) as [k1| |] eqn:E; cbn [mbind outcome_bind] in Hk; [|done..].
  injection Hk as <-. rewrite Hc0 in Hd. cbn [lc_schedule lc_conf lc_counts lc_sent lc_next].
  assert (lc_conf k1 = lc_conf k ∧
    lc_sent (lc_counts k1) = lc_sent (lc_counts k) + (if lc_sends k then 1 else 0)) as [Hc1 Hs1].
  { destruct (lc_sends k) eqn:Hsk.
    - apply lc_send_one_more in E as [[Hc _ Hs1 _ _] _]; [|by rewrite Hs].
      rewrite Hs1, Hc, Hc0. split; [done|]. apply wadd_id. unfold in_width. lia.
    - rewrite lc_send_one_idle in E by by rewrite Hs. injection E as <-. rewrite Hc0, Z.add_0_r. done. }
  split_and!.
  - split; cbn [lc_schedule lc_conf lc_counts lc_sent lc_next]; rewrite ?Hc1, ?Hs1.
    + destruct (lc_sends k); lia.
    + destruct (lc_sends k); lia.
    + left. assert (∀ z, 0 ≤ z ≤ lc_sent (lc_counts k) + 1 →
        lc_start (lc_conf k) +u64 wmul 64 z (lc_rate_inv (lc_conf k)) =
        lc_start (lc_conf k) + z * lc_rate_inv (lc_conf k)) as Hnw.
      { intros z Hz. assert (0 ≤ z * lc_rate_inv (lc_conf k) ≤
          (lc_sent (lc_counts k) + 1) * lc_rate_inv (lc_conf k)) by nia.
        unfold wmul. rewrite wrap_id by (unfold in_width; lia). apply wadd_id. unfold in_width. lia. }
      apply Hnw. destruct (lc_sends k); lia.
  - done.
  - rewrite Hs1. destruct (lc_sends k); lia.
  - intros Hx. split; [lia|]. clear Hx Hfit. destruct Hn as [Hn|Hn]; lia.
  - intros _ _ Hsk. rewrite Hs1, Hsk. done.
Qed.

(** [n] rounds of the client's pipeline. *)
Definition lc_rounds (fuel n : nat) k : outcome (@LoadClient _ _ G W) :=
  ofold (λ k _, lc_execute ext_gen resume fuel k) k (seq 0 n).

Lemma paced_kept k k' :
  lc_conf k' = lc_conf k ∧ sched_kept (lc_counts k) (lc_counts k') → paced k → paced k'.
Proof. intros (Hc & Hn & Hs) [? ? ?]. split; rewrite ?Hc, ?Hn, ?Hs; done. Qed.

Lemma lc_rounds_paced fuel n k k' :
  lc_open_load (lc_conf k) = true → schedule_fits (lc_conf k) → paced k →
  lc_rounds fuel n k = Ret k' → paced k' ∧ lc_conf k' = lc_conf k.
Proof.
  intros Hopen Hfit Hp Hr.
  apply (ofold_inv (λ k', paced k' ∧ lc_conf k' = lc_conf k) _ _ _ _) in Hr; [done| |done].
  clear k' Hr. intros k1 i k2 [Hp1 Hc1] He. unfold lc_execute in He.
  destruct (lc_send fuel k1) as [a| |] eqn:E; cbn [mbind outcome_bind] in He; [|done..].
  destruct (lc_recv a) as [a0| |] eqn:E0; cbn [mbind outcome_bind] in He; [|done..].
  destruct (lc_open_send fuel k1 a) as (Hp2 & Hc2 & _); [by rewrite Hc1|by rewrite Hc1|done|done|].
  apply lc_recv_kept in E0 as Hk. pose proof (paced_kept _ _ Hk Hp2) as Hp3. destruct Hk as [Hc3 _].
  destruct (_ && _).
  - apply lc_executed_kept in He as Hk. pose proof (paced_kept _ _ Hk Hp3). destruct Hk as [Hc4 _].
    split; [done|congruence].
  - injection He as <-. split; [done|congruence].
Qed.

(** an open-load client keeps its schedule.  After any number of rounds of
    a new client, a call of [send] at clock reading [t] issues at most one
    request, only while fewer than the configured number have been issued, and
    only when request number [sent] is due, at [start + sent * rate_inv] cycles
    (the first one at once); and when one is due and the client can send at all,
    it does. *)
Theorem open_load_keeps_schedule fuel n w extensions wl use_invoke cps req_rate table_id num_reqs
    key_len value_len order k0 k k' :
  LoadClient_new w extensions wl true use_invoke cps req_rate table_id num_reqs key_len value_len order
    = Ret k0 →
  schedule_fits (lc_conf k0) → lc_rounds fuel n k0 = Ret k → lc_send fuel k = Ret k' →
  let t := (rdtsc (lc_link (lc_station k)).2).1 in
  let due := lc_next (lc_counts k) = 0 ∨
    lc_start (lc_conf k0) + lc_sent (lc_counts k) * lc_rate_inv (lc_conf k0) ≤ t in
  lc_rate_inv (lc_conf k0) = cps / req_rate ∧
  (lc_sent (lc_counts k') = lc_sent (lc_counts k) ∨ lc_sent (lc_counts k') = lc_sent (lc_counts k) + 1) ∧
  (lc_sent (lc_counts k') = lc_sent (lc_counts k) + 1 → lc_sent (lc_counts k) < num_reqs ∧ due) ∧
  (lc_sent (lc_counts k) < num_reqs → due → lc_sends k = true →
    lc_sent (lc_counts k') = lc_sent (lc_counts k) + 1).
Proof.
  intros Hnew Hfit Hr Hk. unfold LoadClient_new, assert_ in Hnew. case_decide; [|done].
  cbn [mbind outcome_bind] in Hnew. destruct (rdtsc w.2) as [start net]. injection Hnew as <-.
  set (k0 := mkLoadClient _ _ _) in *.
  destruct (lc_rounds_paced fuel n k0 k) as [Hp Hc]; [done|done| |done|].
  { split; cbn; [done|lia|by right]. }
  destruct (lc_open_send fuel k k') as (_ & _ & Ha & Hb & Hd); [by rewrite Hc|by rewrite Hc|done|done|].
  rewrite Hc in Hb, Hd. done.
Qed.
End load.

(** ** The YCSB-T workload *)

Lemma ycsbt_sends `{Network} `{Workloads} (y : YcsbtWork) : sends (next_optype y).2.
Proof.
  unfold next_optype, ycsbt_workload, yw_next_optype, sends. destruct (yw_is_get y) as [y' []]; cbn; auto.
Qed.

(** A network whose clock advances ten cycles per reading. *)
Definition clock_net : Network := {|
  Net := Z;
  net_recv _ n := (Some [], n);
  net_steal _ n := (None, n);
  net_send ms n := (Some (len ms), n);
  mbuf_alloc n := (Some (mkMBuf 16 1 0 0 (ex_room ++ replicate 300 0)), n);
  mbuf_free m n := n;
  rdtsc n := (n, n + 10);
|}.

Definition clock_link : @Link clock_net := (ex_sender, 1000).

Definition test_work : @YcsbtWork test_workloads := @YcsbtWork_new test_workloads 0 tt tt 1 30 100 50 700.

Abbreviation load_client open :=
  (@LoadClient_new clock_net any_loader unit (@YcsbtWork test_workloads)
     clock_link (@ExtensionManager_new any_loader) test_work open false 2400000000 80000000 1 3 30 100 700).

Definition no_tasks (w : @Link clock_net) (p : ProxyDB) (g : unit) : ClientStep (@Link clock_net) unit :=
  CliYielded w p tt.

Abbreviation load_rounds n k :=
  (@lc_rounds clock_net any_loader unit (@YcsbtWork test_workloads) (@ycsbt_workload clock_net test_workloads)
     (λ _ _, tt) no_tasks 32 n k).

Definition fresh_client (open : bool) : @LoadClient clock_net any_loader unit (@YcsbtWork test_workloads) :=
  ret_or (mkLoadClient (mkLoadConf true true 0 0 0 0 0 0 0)
            (mkLoadStation clock_link Receiver_new test_work (TaskManager_new ExtensionManager_new) [])
            (mkLoadCounts 0 0 0 [] 0 0 0)) (load_client open).

Abbreviation load_send k :=
  (@lc_send clock_net any_loader unit (@YcsbtWork test_workloads) (@ycsbt_workload clock_net test_workloads) 32 k).

(** A client that has three requests to send: in the second of its first three
    rounds the second request is due, in the third none is. *)
Definition client_2 : @LoadClient clock_net any_loader unit (@YcsbtWork test_workloads) :=
  ret_or (fresh_client true) (load_rounds 3 (fresh_client true)).

Definition client_3 : @LoadClient clock_net any_loader unit (@YcsbtWork test_workloads) :=
  ret_or (fresh_client true) (load_send client_2).

Lemma open_load_keeps_schedule_witness :
  lc_sent (lc_counts client_2) = 2 ∧ lc_next (lc_counts client_2) = 1060 ∧
  lc_sent (lc_counts client_3) = 3 ∧
  (lc_sent (lc_counts client_3) = lc_sent (lc_counts client_2) + 1 →
     lc_sent (lc_counts client_2) < 3 ∧
     (lc_next (lc_counts client_2) = 0 ∨
      lc_start (lc_conf (fresh_client true)) + lc_sent (lc_counts client_2) * lc_rate_inv (lc_conf (fresh_client true))
        ≤ (lc_link (lc_station client_2)).2)).
Proof.
  split; [vm_compute; reflexivity|]. split; [by vm_compute|]. split; [by vm_compute|].
  refine (proj1 (proj2 (proj2 (open_load_keeps_schedule (λ _ _, tt) no_tasks ycsbt_sends 32 3
    clock_link ExtensionManager_new test_work false 2400000000 80000000 1 3 30 100 700
    (fresh_client true) client_2 client_3 _ _ _ _)))).
  - apply returns_ret. by vm_compute.
  - unfold schedule_fits. apply (bool_decide_unpack _). vm_compute. exact I.
  - apply returns_ret. by vm_compute.
  - apply returns_ret. by vm_compute.
Defined.

(** A client of invocations whose queue of pushed-back tasks is full. *)
Definition full_client : @LoadClient clock_net any_loader unit (@YcsbtWork test_workloads) :=
  let k := fresh_client false in
  let c := lc_conf k in
  let s := lc_station k in
  mkLoadClient
    (mkLoadConf false false (lc_rate_inv c) 1 (lc_responses c) (lc_start c) 3 30 139)
    (lc_with_manager s (ex_manager (replicate 32 (ex_container INITIALIZED ex_proxy)) ∅)) (lc_counts k).

Lemma closed_load_fills_or_hangs_witness :
  (let k := fresh_client false in
   (∀ fuel, (lc_room k ≤ fuel)%nat → lc_send fuel k = lc_turns (lc_room k) k) ∧ lc_room k = 32%nat) ∧
  (let k := full_client in
   ∀ n fuel, lc_turns n k = Ret k ∧ lc_send fuel k = Undef).
Proof.
  split; intros k.
  - split; [|by vm_compute].
    refine (proj1 (proj1 (closed_load_fills_or_hangs ycsbt_sends k _ _ _ _) _)); vm_compute; by try split.
  - refine (proj2 (closed_load_fills_or_hangs ycsbt_sends k _ _ _ _) _ _); vm_compute; by try split.
Defined.
