(* ===== verification/YcsbtSpecs.v ===== *)
(** * YcsbtSpecs: the requests of the YCSB-T workload, and what the server's
      extension makes of them *)

From stdpp Require Import strings.
From S2P Require Import Prelude Packed Headers Packet Wire Rpc Alloc Tx Bufs Ext Context Task.
From S2P Require Import Table HandlerSpecs Dispatch DispatchSpecs Proxy Client DB DBSpecs Programs.
From S2P Require Import CommitSpecs ContextSpecs ExtSpecs Loaders Float Kayak KayakSpecs LoadClient YcsbtWork.

(** ** The extension on its arguments *)

Section extension.
Context `{DB D}.

(** Operation 1 reads a record, any other one but 3 moves an amount. *)
Definition ycsbt_runs (table : Z) (keys : bytes) (order optype : Z) : ext_m D (gen_step YcsbtGen) :=
  if decide (optype = 1) then
    obj ← db_get table keys;
    match obj with
    | Some val => _ ← db_resp (rb_read val); mret (GReturn 0)
    | None => fail_with "Object does not exist" 1
    end
  else
    multiobj ← db_multiget table 30 keys;
    if decide (order > 0) then
      if decide (order >= 600) then mret (GYield (YcsbtLoop table keys multiobj (order - 600)))
      else ycsbt_loop table keys multiobj order
    else ycsbt_finish table keys multiobj.

Definition invocation_args (table : Z) (keys : bytes) (order optype : Z) : bytes :=
  le_bytes 8 table ++ keys ++ le_bytes 4 order ++ [optype].

Lemma ycsbt_parses (d : D) table keys order optype :
  in_width 64 table → in_width 32 order → 26 ≤ len keys < 2 ^ 63 → optype ≠ 3 →
  db_args d = (d, Ret (invocation_args table keys order optype)) →
  ext_ycsbt YcsbtInit d = ycsbt_runs table keys order optype d.
Proof.
  intros Ht Ho Hk H3 Hargs. cbn [ext_ycsbt]. unfold ycsbt_start. estep Hargs.
  set (args := invocation_args table keys order optype).
  assert (len args = 13 + len keys) as Hlen.
  { unfold args, invocation_args. rewrite !len_app, !len_le_bytes. change (len [optype]) with 1. lia. }
  rewrite Hlen, decide_False by lia.
  assert (index args (13 + len keys - 1) = Ret optype) as Hop.
  { unfold index. rewrite decide_True by lia. unfold args, invocation_args. rewrite !(assoc_L (++)).
    rewrite lookup_app_r by (rewrite !length_app, !le_bytes_length; unfold len in *; lia).
    rewrite !length_app, !le_bytes_length. unfold len in *.
    replace (_ - _)%nat with 0%nat by lia. done. }
  lstep. rewrite decide_False by done.
  assert (split_at args 8 = Ret (le_bytes 8 table, keys ++ le_bytes 4 order ++ [optype])) as Hs1
    by (apply split_at_app; by rewrite len_le_bytes).
  lstep. rewrite (assoc_L (++)).
  assert (split_at ((keys ++ le_bytes 4 order) ++ [optype])
            (len ((keys ++ le_bytes 4 order) ++ [optype]) - 1) = Ret (keys ++ le_bytes 4 order, [optype])) as Hs2.
  { apply split_at_app. rewrite !len_app. change (len [optype]) with 1. lia. }
  lstep.
  assert (split_at (keys ++ le_bytes 4 order) (wsub 64 (len (keys ++ le_bytes 4 order)) 4) =
          Ret (keys, le_bytes 4 order)) as Hs3.
  { apply split_at_app. rewrite len_app, len_le_bytes, wsub_id by (unfold in_width; lia). lia. }
  lstep. rewrite !or_bytes_le by auto with kayak. rewrite !le_val_bytes.
  change (8 * Z.of_nat 4) with 32. change (8 * Z.of_nat 8) with 64. rewrite !Z.mod_small by done. done.
Qed.
End extension.

(** ** The requests *)

(** Writing a key into the place of another one. *)
Lemma copy_counter n pre x post a y :
  a = len pre →
  copy_from_slice (pre ++ counter n x ++ post) a (a + 4) (le_bytes 4 y) = Ret (pre ++ counter n y ++ post).
Proof.
  intros ->. unfold copy_from_slice, counter. rewrite <- !(assoc_L (++)).
  pose proof (len_nonneg pre). pose proof (len_nonneg post).
  rewrite decide_True by (rewrite !len_app, !len_le_bytes; pose proof (len_nonneg (replicate (n - 4) 0)); lia).
  rewrite take_app_length' by (unfold len; lia).
  replace (Z.to_nat (len pre + 4)) with (length pre + length (le_bytes 4 x))%nat
    by (rewrite le_bytes_length; unfold len; lia).
  rewrite <- drop_drop, drop_app_length, drop_app_length. done.
Qed.

Lemma copy_key pre x post a y :
  a = len pre →
  copy_from_slice (pre ++ counter 30 x ++ post) a (a + 4) (le_bytes 4 y) = Ret (pre ++ counter 30 y ++ post).
Proof. apply copy_counter. Qed.

Lemma len_counter_30 x : len (counter 30 x) = 30.
Proof. unfold counter, len. by rewrite length_app, le_bytes_length, length_replicate. Qed.

Section requests.
Context `{Network} `{Workloads}.
Context (table_id value_len order : Z).

(** What the buffers hold between two requests. *)
Record yw_ok (y : YcsbtWork) : Prop := {
  yo_key : ∃ x, yw_key_buf y = counter 30 x;
  yo_value : len (yw_value_buf y) = value_len;
  yo_multikey : ∃ x1 x2, yw_multikey_buf y =
    counter 30 x1 ++ counter 30 x2 ++ replicate (Z.to_nat (2 * value_len - 60)) 0;
  yo_get : ∃ x, yw_invoke_get y = ycsbt_name ++ invocation_args table_id (counter 30 x) order 1;
  yo_modify : ∃ x1 x2, yw_invoke_get_modify y =
    ycsbt_name ++ invocation_args table_id (counter 30 x1 ++ counter 30 x2) order 2;
  yo_order : yw_order y = order;
  yo_table : yw_table_id y = table_id;
}.

Lemma counter_0 : counter 30 0 = replicate 30 0.
Proof. done. Qed.

Lemma resize_full l n : len l = n → resize l n = l.
Proof.
  intros <-. unfold resize. rewrite Z.sub_diag. cbn. rewrite app_nil_r. apply take_ge. unfold len. lia.
Qed.

Lemma yw_new_ok rng key_rng tenant_rng put_pct :
  30 ≤ value_len →
  yw_ok (YcsbtWork_new rng key_rng tenant_rng table_id 30 value_len put_pct order).
Proof.
  intros Hv. split; cbn [YcsbtWork_new yw_key_buf yw_value_buf yw_multikey_buf yw_invoke_get
    yw_invoke_get_modify yw_order yw_table_id]; try done.
  - by exists 0.
  - unfold len. rewrite length_replicate. lia.
  - exists 0, 0. rewrite counter_0, <- !replicate_add. f_equal. lia.
  - exists 0. rewrite counter_0. unfold yw_get_payload, invocation_args. apply resize_full.
    by rewrite !len_app, !len_le_bytes.
  - exists 0, 0. rewrite counter_0, <- replicate_add. unfold yw_get_modify_payload, invocation_args.
    apply resize_full. by rewrite !len_app, !len_le_bytes.
Qed.

(** Drawing keeps the buffers. *)
Definition same_bufs (y y' : YcsbtWork) : Prop :=
  yw_key_buf y' = yw_key_buf y ∧ yw_value_buf y' = yw_value_buf y ∧
  yw_multikey_buf y' = yw_multikey_buf y ∧ yw_invoke_get y' = yw_invoke_get y ∧
  yw_invoke_get_modify y' = yw_invoke_get_modify y ∧ yw_order y' = yw_order y ∧
  yw_table_id y' = yw_table_id y.

Lemma same_bufs_ok y y' : same_bufs y y' → yw_ok y → yw_ok y'.
Proof.
  intros (Ek & Ev & Em & Eg & Ef & Eo & Et) [? ? ? ? ? ? ?].
  by split; rewrite ?Ek, ?Ev, ?Em, ?Eg, ?Ef, ?Eo, ?Et.
Qed.

Lemma yw_is_get_same y : same_bufs y (yw_is_get y).1.
Proof. unfold yw_is_get. by destruct (gen_u32 _). Qed.

Lemma yw_tenant_same y : same_bufs y (yw_tenant y).1 ∧ in_width 32 (yw_tenant y).2.
Proof.
  unfold yw_tenant. destruct (zipf_sample _ _) as [[t z] r]. split; [done|]. by apply wrap_range.
Qed.

Lemma yw_key_same y : same_bufs y (yw_key y).1 ∧ ∃ x, in_width 32 x ∧ (yw_key y).2 = le_bytes 4 x.
Proof.
  unfold yw_key. destruct (zipf_sample _ _) as [[t z] r]. split; [done|]. eexists. split; [|done].
  by apply wrap_range.
Qed.

Lemma copy_key_first x post y :
  copy_from_slice (counter 30 x ++ post) 0 4 (le_bytes 4 y) = Ret (counter 30 y ++ post).
Proof. by apply (copy_key [] x post 0 y). Qed.

Lemma get_get_request_ok y :
  yw_ok y → ∃ y' t x, get_get_request y = Ret (y', (t, counter 30 x)) ∧ yw_ok y' ∧
    in_width 32 t ∧ in_width 32 x.
Proof.
  intros Hy. cbn [get_get_request ycsbt_workload]. unfold yw_get_get_request.
  destruct (yw_tenant_same y) as [Hs Ht]. destruct (yw_tenant y) as [y1 t]. cbn [fst snd] in *.
  destruct (yw_key_same y1) as [Hs1 (x & Hx & Ek)]. destruct (yw_key y1) as [y2 k]. cbn [fst snd] in *. subst k.
  apply (same_bufs_ok _ _ Hs), (same_bufs_ok _ _ Hs1) in Hy. destruct Hy as [[x0 Hk] ? ? ? ? ? ?].
  rewrite Hk. pose proof (copy_key_first x0 [] x) as Hc. rewrite !app_nil_r in Hc. rewrite Hc.
  eexists _, t, x. split; [done|]. split; [|done]. split; try done. by exists x.
Qed.

Lemma get_put_request_ok y :
  30 ≤ value_len → yw_ok y → ∃ y' r, get_put_request y = Ret (y', r) ∧ yw_ok y'.
Proof.
  intros Hvl Hy. cbn [get_put_request ycsbt_workload]. unfold yw_get_put_request.
  destruct (yw_tenant_same y) as [Hs Ht]. destruct (yw_tenant y) as [y1 t]. cbn [fst snd] in *.
  destruct (yw_key_same y1) as [Hs1 (x & Hx & Ek)]. destruct (yw_key y1) as [y2 k]. cbn [fst snd] in *. subst k.
  apply (same_bufs_ok _ _ Hs), (same_bufs_ok _ _ Hs1) in Hy. destruct Hy as [[x0 Hk] Hv ? ? ? ? ?].
  rewrite Hk. pose proof (copy_key_first x0 [] x) as Hc. rewrite !app_nil_r in Hc. rewrite Hc.
  cbn [mbind outcome_bind]. unfold copy_from_slice at 1. rewrite decide_True by (rewrite len_le_bytes; lia).
  eexists _, _. split; [done|]. split; try done; [by exists x|].
  cbn [yw_value_buf yw_with_bufs]. change (Z.to_nat 0) with 0%nat. rewrite take_0, app_nil_l, len_app, len_le_bytes.
  unfold len in *. rewrite length_drop. lia.
Qed.

Lemma get_multiget_request_ok y :
  yw_ok y → ∃ y' t x1 x2, get_multiget_request y = Ret (y', (t, 2,
      counter 30 x1 ++ counter 30 x2 ++ replicate (Z.to_nat (2 * value_len - 60)) 0)) ∧
    yw_ok y' ∧ in_width 32 t ∧ in_width 32 x1 ∧ in_width 32 x2.
Proof.
  intros Hy. cbn [get_multiget_request ycsbt_workload]. unfold yw_get_multiget_request.
  destruct (yw_tenant_same y) as [Hs Ht]. destruct (yw_tenant y) as [y1 t]. cbn [fst snd] in *.
  destruct (yw_key_same y1) as [Hs1 (x1 & Hx1 & Ek)]. destruct (yw_key y1) as [y2 k]. cbn [fst snd] in *. subst k.
  apply (same_bufs_ok _ _ Hs), (same_bufs_ok _ _ Hs1) in Hy.
  destruct (yo_multikey _ Hy) as (a & b & Hm). rewrite Hm, copy_key_first. cbn [mbind outcome_bind].
  destruct (yw_key_same y2) as [Hs2 (x2 & Hx2 & Ek)]. destruct (yw_key y2) as [y3 k]. cbn [fst snd] in *. subst k.
  rewrite (copy_key (counter 30 x1) b _ 30 x2) by by rewrite len_counter_30. cbn [mbind outcome_bind].
  apply (same_bufs_ok _ _ Hs2) in Hy. destruct Hy.
  eexists _, t, x1, x2. split; [done|]. split; [|done]. split; try done. by exists x1, x2.
Qed.

(** An invocation reads one record or transfers between two. *)
Lemma get_invoke_request_ok y :
  yw_ok y → ∃ y' t args, get_invoke_request y = Ret (y', (t, ycsbt_name ++ args)) ∧ yw_ok y' ∧
    in_width 32 t ∧
    ((∃ x, in_width 32 x ∧ args = invocation_args table_id (counter 30 x) order 1) ∨
     ∃ x1 x2, in_width 32 x1 ∧ in_width 32 x2 ∧
       args = invocation_args table_id (counter 30 x1 ++ counter 30 x2) order 2).
Proof.
  intros Hy. cbn [get_invoke_request ycsbt_workload]. unfold yw_get_invoke_request.
  destruct (yw_tenant_same y) as [Hs Ht]. destruct (yw_tenant y) as [y1 t]. cbn [fst snd] in *.
  pose proof (yw_is_get_same y1) as Hs0. destruct (yw_is_get y1) as [y2 is_get]. cbn [fst] in Hs0.
  apply (same_bufs_ok _ _ Hs), (same_bufs_ok _ _ Hs0) in Hy.
  destruct (yw_key_same y2) as [Hs1 (x1 & Hx1 & Ek)]. 
  destruct is_get; destruct (yw_key y2) as [y3 k]; cbn [fst snd] in *; subst k;
    apply (same_bufs_ok _ _ Hs1) in Hy.
  - destruct (yo_get _ Hy) as (a & Hg). rewrite Hg. unfold invocation_args at 1. rewrite !(assoc_L (++)), <- (assoc_L (++) _ (le_bytes 4 order)), <- (assoc_L (++)).
    rewrite (copy_key _ a _ 13 x1) by by rewrite !len_app, len_le_bytes. cbn [mbind outcome_bind].
    rewrite <- (assoc_L (++)). destruct Hy.
    eexists _, t, _. split; [done|]. split; [|split; [done|left; by exists x1]].
    split; try done. by exists x1.
  - destruct (yo_modify _ Hy) as (a & b & Hg). rewrite Hg. unfold invocation_args at 1.
    rewrite <- (assoc_L (++) (counter 30 a)), (assoc_L (++) ycsbt_name).
    rewrite (copy_key _ a _ 13 x1) by by rewrite !len_app, len_le_bytes. cbn [mbind outcome_bind].
    destruct (yw_key_same y3) as [Hs2 (x2 & Hx2 & Ek)]. destruct (yw_key y3) as [y4 k]. cbn [fst snd] in *. subst k.
    rewrite (assoc_L (++) _ (counter 30 x1)).
    rewrite (copy_key _ b _ 43 x2) by by rewrite !len_app, len_le_bytes, len_counter_30. cbn [mbind outcome_bind].
    rewrite <- !(assoc_L (++)), (assoc_L (++) (counter 30 x1)).
    apply (same_bufs_ok _ _ Hs2) in Hy. destruct Hy.
    eexists _, t, _. split; [done|]. split; [|split; [done|right; by exists x1, x2]].
    split; try done. by exists x1, x2.
Qed.

(** What the client may ask of the workload. *)
Inductive asked (y : YcsbtWork) : YcsbtWork → Prop :=
| asked_optype : asked y (next_optype y).1
| asked_invoke y' r : get_invoke_request y = Ret (y', r) → asked y y'
| asked_get y' r : get_get_request y = Ret (y', r) → asked y y'
| asked_put y' r : get_put_request y = Ret (y', r) → asked y y'
| asked_multiget y' r : get_multiget_request y = Ret (y', r) → asked y y'.

Lemma asked_ok y y' : 30 ≤ value_len → yw_ok y → asked y y' → yw_ok y'.
Proof.
  intros Hv Hy [|y1 r E|y1 r E|y1 r E|y1 r E].
  - cbn [next_optype ycsbt_workload]. unfold yw_next_optype. pose proof (yw_is_get_same y) as Hs.
    destruct (yw_is_get y). by eapply same_bufs_ok.
  - destruct (get_invoke_request_ok y Hy) as (? & ? & ? & E' & ? & _). rewrite E in E'. by injection E' as -> _.
  - destruct (get_get_request_ok y Hy) as (? & ? & ? & E' & ? & _). rewrite E in E'. by injection E' as -> _.
  - destruct (get_put_request_ok y Hv Hy) as (? & ? & E' & ?). rewrite E in E'. by injection E' as -> _.
  - destruct (get_multiget_request_ok y Hy) as (? & ? & ? & ? & E' & ? & _). rewrite E in E'. by injection E' as -> _.
Qed.

(** C17: whatever has been asked of the workload before, its next requests are
    well-formed, and an invocation asks the server's extension for what a native
    request asks the server: a get is for one key that counts in its first four
    bytes, a multiget for two of them (followed by the rest of its buffer); an
    invocation's payload is the name of the extension and arguments on which the
    extension, over any database, reads one such key of the table, or fetches
    two of them and goes on to transfer between them. *)
Theorem ycsbt_requests_understood rng key_rng tenant_rng put_pct y :
  30 ≤ value_len → in_width 64 table_id → in_width 32 order →
  rtc asked (YcsbtWork_new rng key_rng tenant_rng table_id 30 value_len put_pct order) y →
  (∃ y' t x, get_get_request y = Ret (y', (t, counter 30 x)) ∧ in_width 32 t ∧ in_width 32 x) ∧
  (∃ y' t x1 x2, get_multiget_request y = Ret (y', (t, 2,
     counter 30 x1 ++ counter 30 x2 ++ replicate (Z.to_nat (2 * value_len - 60)) 0)) ∧
     in_width 32 x1 ∧ in_width 32 x2) ∧
  ∃ y' t args keys optype, get_invoke_request y = Ret (y', (t, str "ycsbt" ++ args)) ∧
    split_at (str "ycsbt" ++ args) (wl_name_length y) = Ret (str "ycsbt", args) ∧
    ((∃ x, in_width 32 x ∧ keys = counter 30 x ∧ optype = 1) ∨
     ∃ x1 x2, in_width 32 x1 ∧ in_width 32 x2 ∧ keys = counter 30 x1 ++ counter 30 x2 ∧ optype = 2) ∧
    ∀ (bc : BytesCrate) (D : Type) (db : DB D) (d : D), db_args d = (d, Ret args) →
      ext_ycsbt YcsbtInit d = ycsbt_runs table_id keys order optype d.
Proof.
  intros Hv Ht Ho Hy.
  assert (yw_ok y) as Hok.
  { assert (∀ y0, rtc asked y0 y → yw_ok y0 → yw_ok y) as Hall.
    { clear Hy. induction 1 as [|y0 y1 y2 Ha _ IH]; [done|]. intros H0'. apply IH. by eapply asked_ok. }
    apply (Hall _ Hy). by apply yw_new_ok. }
  split; [|split].
  - destruct (get_get_request_ok y Hok) as (y' & t & x & ? & _ & ? & ?). by exists y', t, x.
  - destruct (get_multiget_request_ok y Hok) as (y' & t & x1 & x2 & ? & _ & _ & ? & ?). by exists y', t, x1, x2.
  - destruct (get_invoke_request_ok y Hok) as (y' & t & args & He & _ & _ & Hargs).
    assert (∃ keys optype, args = invocation_args table_id keys order optype ∧ 26 ≤ len keys < 2 ^ 63 ∧ optype ≠ 3 ∧
      ((∃ x, in_width 32 x ∧ keys = counter 30 x ∧ optype = 1) ∨
       ∃ x1 x2, in_width 32 x1 ∧ in_width 32 x2 ∧ keys = counter 30 x1 ++ counter 30 x2 ∧ optype = 2))
      as (keys & optype & -> & Hl & H3 & Hk).
    { destruct Hargs as [(x & Hx & ->)|(x1 & x2 & Hx1 & Hx2 & ->)].
      - exists (counter 30 x), 1. rewrite len_counter_30. split_and!; [done|lia..|]. left. by exists x.
      - exists (counter 30 x1 ++ counter 30 x2), 2. rewrite len_app, !len_counter_30.
        split_and!; [done|lia..|]. right. by exists x1, x2. }
    eexists y', t, _, keys, optype. split; [exact He|]. split; [by apply split_at_app|]. split; [done|].
    intros bc D db d Hd. by apply ycsbt_parses.
Qed.
End requests.

(** ** Aborted transactions *)

Definition is_read (r : RwRecord) : bool :=
  match rec_optype r with SandstormRead => true | _ => false end.

(** The keys that were read, in order. *)
Definition read_keys (rs : list RwRecord) : list bytes := rec_key <$> filter (λ r, is_read r = true) rs.

Lemma abort_keys kl vl rs pl space :
  Forall (record_wire kl vl) rs → len (read_keys rs) * kl ≤ space →
  (foldl abort_add (pl, space) rs).1 = pl ++ concat (read_keys rs).
Proof.
  intros Hrs. revert pl space. induction Hrs as [|r rs Hr _ IH]; intros pl space Hsp; [by rewrite app_nil_r|].
  cbn [foldl]. unfold read_keys in *. rewrite filter_cons in *. unfold is_read in *. unfold abort_add at 2.
  destruct (rec_optype r); cbn [decide] in *; try case_decide; try done; try by apply IH.
  cbn [fmap list_fmap] in *. unfold try_add. cbn [fst snd]. pose proof (len_nonneg (rec_key r)) as Hk.
  rewrite (rw_key _ _ _ Hr) in *. unfold len at 1 in Hsp. cbn [length] in Hsp.
  rewrite Nat2Z.inj_succ, Z.mul_succ_l in Hsp.
  rewrite decide_True by nia. cbn [snd fst]. rewrite IH by (unfold len; lia). cbn [concat]. by rewrite (assoc_L (++)).
Qed.

Section restart.
Context `{Network} `{Loader} `{Workloads} {G : Type}.
Implicit Types s : @LoadStation _ _ G YcsbtWork.

Lemma retry_payload_two table order a b y1 y2 :
  lc_retry_payload (ycsbt_name ++ invocation_args table (counter 30 a ++ counter 30 b) order 2)
    (counter 30 y1 ++ counter 30 y2) 30 =
  Ret (ycsbt_name ++ invocation_args table (counter 30 y1 ++ counter 30 y2) order 2).
Proof.
  unfold lc_retry_payload.
  destruct (chunks_concat [counter 30 y1; counter 30 y2] [] 30) as (more & Hch & Hmore); [lia|by repeat constructor; apply len_counter_30|].
  injection Hmore as <-. cbn [concat app] in Hch. rewrite !app_nil_r in Hch. rewrite Hch. cbn [mbind outcome_bind ofold].
  assert (∀ y, slice (counter 30 y) 0 4 = Ret (le_bytes 4 y)) as Hk.
  { intros y. apply (slice_app [] (le_bytes 4 y) (replicate 26 0)); [done|by rewrite len_le_bytes]. }
  rewrite Hk. cbn [mbind outcome_bind]. unfold invocation_args.
  rewrite <- !(assoc_L (++) (counter 30 _)), (assoc_L (++) ycsbt_name).
  rewrite (copy_key _ a _ 13 y1) by by rewrite !len_app, len_le_bytes. cbn [mbind outcome_bind].
  rewrite (assoc_L (++) _ (counter 30 y1)). change (13 + 30) with 43.
  rewrite Hk. cbn [mbind outcome_bind].
  rewrite (copy_key _ b _ 43 y2) by by rewrite !len_app, len_le_bytes, len_counter_30. cbn [mbind outcome_bind].
  by rewrite <- !(assoc_L (++)).
Qed.

(** A single key leaves the second one of the payload. *)
Lemma retry_payload_one table order a b y1 :
  lc_retry_payload (ycsbt_name ++ invocation_args table (counter 30 a ++ counter 30 b) order 2) (counter 30 y1) 30 =
  Ret (ycsbt_name ++ invocation_args table (counter 30 y1 ++ counter 30 b) order 2).
Proof.
  unfold lc_retry_payload.
  destruct (chunks_concat [counter 30 y1] [] 30) as (more & Hch & Hmore); [lia|by repeat constructor; apply len_counter_30|].
  injection Hmore as <-. cbn [concat app] in Hch. rewrite !app_nil_r in Hch. rewrite Hch. cbn [mbind outcome_bind ofold].
  assert (slice (counter 30 y1) 0 4 = Ret (le_bytes 4 y1)) as ->
    by (apply (slice_app [] (le_bytes 4 y1) (replicate 26 0)); [done|by rewrite len_le_bytes]).
  cbn [mbind outcome_bind]. unfold invocation_args.
  rewrite <- !(assoc_L (++) (counter 30 _)), (assoc_L (++) ycsbt_name).
  rewrite (copy_key _ a _ 13 y1) by by rewrite !len_app, len_le_bytes. cbn [mbind outcome_bind].
  by rewrite <- !(assoc_L (++)).
Qed.

(** C16: an aborted transaction starts again with what it had read.  When the
    server aborts a commit, its response carries the keys of the reads; on it a
    client of native requests fetches exactly those keys again, with a get when
    there is one and a multiget when there are more, and a client of invocations
    whose two keys these are invokes the extension on them again and keeps a
    task for the case that it is pushed back.  Either way the request has the
    time stamp of the one that was aborted. *)
Theorem aborted_transaction_restarts c s kl vl rs space tenant ts :
  Forall (record_wire kl vl) rs → len (read_keys rs) * kl ≤ space → 0 < kl → kl = lc_key_len c →
  0 < len (read_keys rs) < 2 ^ 32 →
  (lc_native c = true →
    lc_retry c s tenant ts (commit_data ABORT rs space).1 =
      (w ← (if decide (len (read_keys rs) = 1)
            then send_get (lc_link s) tenant (lc_table_id c) (concat (read_keys rs)) ts
            else send_multiget (lc_link s) tenant (lc_table_id c) (wrap 16 kl) (len (read_keys rs))
                   (concat (read_keys rs)) ts);
       Ret (lc_with_link s w))) ∧
  (lc_native c = false → ∀ table order a b y1 y2,
    lc_invoke_get_modify s = str "ycsbt" ++ invocation_args table (counter 30 a ++ counter 30 b) order 2 →
    read_keys rs = [counter 30 y1; counter 30 y2] →
    let request := str "ycsbt" ++ invocation_args table (counter 30 y1 ++ counter 30 y2) order 2 in
    lc_retry c s tenant ts (commit_data ABORT rs space).1 =
      (w ← send_invoke (lc_link s) tenant 5 request ts;
       m ← create_task (lc_manager s) ts request tenant 5;
       Ret (mkLoadStation w (lc_receiver s) (lc_workload s) m request))).
Proof.
  intros Hrs Hsp Hkl Hc Hn. cbn [commit_data]. rewrite (abort_keys kl vl rs [] space Hrs Hsp). cbn [app].
  assert (Forall (λ k, len k = kl) (read_keys rs)) as Hkeys.
  { unfold read_keys. apply Forall_fmap. apply Forall_forall. intros r [_ Hr]%list_elem_of_filter.
    rewrite Forall_forall in Hrs. apply (rw_key _ _ _ (Hrs r Hr)). }
  pose proof (len_concat _ _ Hkeys) as Hl. change (Z.of_nat (length (read_keys rs))) with (len (read_keys rs)) in Hl.
  split; intros Hnat; unfold lc_retry; rewrite Hnat.
  - rewrite Hl, <- Hc. destruct (decide (len (read_keys rs) = 1)) as [->|Hne].
    + by rewrite decide_True by lia.
    + rewrite decide_False by nia. unfold assert_. rewrite decide_True by lia. cbn [mbind outcome_bind].
      rewrite Z.mul_comm, Z.div_mul by lia. by rewrite (wrap_id 32) by (unfold in_width; lia).
  - intros table order a b y1 y2 Hp Hk. rewrite Hp, Hk in *. cbn [concat]. rewrite app_nil_r.
    assert (lc_key_len c = 30) as ->.
    { rewrite <- Hc. apply Forall_cons_1 in Hkeys as [<- _]. by rewrite len_counter_30. }
    change (str "ycsbt") with ycsbt_name. rewrite retry_payload_two. done.
Qed.

(** A transaction that read a single account is started again as a transfer,
    between that account and the second one of the last transfer that was sent. *)
Theorem aborted_get_becomes_transfer c s kl vl rs space tenant ts table order a b y1 :
  Forall (record_wire kl vl) rs → kl ≤ space → kl = lc_key_len c → lc_native c = false →
  lc_invoke_get_modify s = str "ycsbt" ++ invocation_args table (counter 30 a ++ counter 30 b) order 2 →
  read_keys rs = [counter 30 y1] →
  let request := str "ycsbt" ++ invocation_args table (counter 30 y1 ++ counter 30 b) order 2 in
  lc_retry c s tenant ts (commit_data ABORT rs space).1 =
    (w ← send_invoke (lc_link s) tenant 5 request ts;
     m ← create_task (lc_manager s) ts request tenant 5;
     Ret (mkLoadStation w (lc_receiver s) (lc_workload s) m request)).
Proof.
  intros Hrs Hsp Hc Hnat Hp Hk. cbn [commit_data].
  rewrite (abort_keys kl vl rs [] space Hrs) by (rewrite Hk; unfold len; cbn; lia). cbn [app].
  unfold lc_retry. rewrite Hnat, Hp, Hk. cbn [concat]. rewrite app_nil_r.
  assert (lc_key_len c = 30) as ->.
  { rewrite <- Hc. assert (counter 30 y1 ∈ read_keys rs) as Hin by (rewrite Hk; by left).
    unfold read_keys in Hin. apply list_elem_of_fmap in Hin as (r & Hr & Hin).
    apply list_elem_of_filter in Hin as [_ Hin]. rewrite Forall_forall in Hrs.
    by rewrite <- (rw_key _ _ _ (Hrs r Hin)), <- Hr, len_counter_30. }
  change (str "ycsbt") with ycsbt_name. by rewrite retry_payload_one.
Qed.
End restart.

(** ** Witnesses *)

Lemma ycsbt_requests_understood_witness :
  let y := @YcsbtWork_new test_workloads 0 tt tt 1 30 100 50 700 in
  let y' := (@yw_next_optype test_workloads y).1 in
  ∃ y2 t x, @yw_get_get_request test_workloads y' = Ret (y2, (t, counter 30 x)) ∧
    in_width 32 t ∧ in_width 32 x.
Proof.
  intros y y'.
  refine (proj1 (@ycsbt_requests_understood test_net test_workloads 1 100 700 0 tt tt 50 y' _ _ _ _));
    [lia|by split|by split|].
  apply rtc_once. apply asked_optype.
Defined.

(** A transaction that read two accounts and meant to write them. *)
Definition ex_transfer : list RwRecord :=
  [mkRwRecord SandstormRead 4 (counter 30 8) (replicate 100 5);
   mkRwRecord SandstormRead 6 (counter 30 9) (replicate 100 7);
   mkRwRecord SandstormWrite 0 (counter 30 8) (replicate 100 4);
   mkRwRecord SandstormWrite 0 (counter 30 9) (replicate 100 8)].

Definition ex_load_conf (native : bool) : LoadConf := mkLoadConf true native 30 1 10 0 3 30 139.

Definition ex_load_station : @LoadStation test_net any_loader unit (@YcsbtWork test_workloads) :=
  mkLoadStation ex_link Receiver_new (@YcsbtWork_new test_workloads 0 tt tt 1 30 100 50 700)
    (ex_manager [] ∅) (lc_modify_payload 1 30 700).

Lemma aborted_transaction_restarts_witness :
  (commit_data ABORT ex_transfer 100).1 = counter 30 8 ++ counter 30 9 ∧
  @lc_retry test_net any_loader unit _ (@ycsbt_workload test_net test_workloads) (ex_load_conf true)
      ex_load_station 7 95 (commit_data ABORT ex_transfer 100).1 =
    (w ← @send_multiget test_net ex_link 7 1 30 2 (counter 30 8 ++ counter 30 9) 95;
     Ret (lc_with_link ex_load_station w)) ∧
  @lc_retry test_net any_loader unit _ (@ycsbt_workload test_net test_workloads) (ex_load_conf false)
      ex_load_station 7 95 (commit_data ABORT ex_transfer 100).1 =
    (let request := str "ycsbt" ++ invocation_args 1 (counter 30 8 ++ counter 30 9) 700 2 in
     w ← @send_invoke test_net ex_link 7 5 request 95;
     m ← create_task (ex_manager [] ∅) 95 request 7 5;
     Ret (mkLoadStation w Receiver_new (lc_workload ex_load_station) m request)).
Proof.
  assert (Forall (record_wire 30 100) ex_transfer) as Hw.
  { repeat constructor; try done; try (apply (bool_decide_eq_true_1 _); by vm_compute);
      cbn; unfold in_width; lia. }
  split; [by vm_compute|]. split.
  - refine (proj1 (@aborted_transaction_restarts test_net any_loader test_workloads unit (ex_load_conf true)
      ex_load_station 30 100 ex_transfer 100 7 95 Hw _ _ _ _) eq_refl); vm_compute; (done || by split).
  - refine (proj2 (@aborted_transaction_restarts test_net any_loader test_workloads unit (ex_load_conf false)
      ex_load_station 30 100 ex_transfer 100 7 95 Hw _ _ _ _) eq_refl 1 700 0 0 8 9 _ _); vm_compute; (done || by split).
Defined.
