(* ===== verification/Ycsb.v ===== *)
(** * Ycsb: the YCSB client

    Models splinter/src/bin/client/ycsb.rs: gets and puts at a fixed rate, as
    requests of their own or as invocations of the extensions get and put, and
    the receiver that counts their responses.  Printed statistics and start-up
    are left out. *)

From stdpp Require Import strings.
From S2P Require Import Prelude Packed Headers Packet Wire Rpc Alloc Bufs Ext Context ContextSpecs Task.
From S2P Require Import Dispatch DispatchSpecs Proxy Client DB DBSpecs Programs ExtSpecs.
From S2P Require Import HandlerSpecs Loaders Float Kayak KayakSpecs LoadClient LoadSpecs YcsbtWork YcsbtSpecs.

Section ycsb.
Context `{Network} `{Workloads}.

(** ** The workload *)

Record Ycsb := mkYcsb {
  yc_put_pct : Z;
  yc_rng : Rng;
  yc_key_rng : Zipf;
  yc_tenant_rng : Zipf;
  yc_key_buf : bytes;
  yc_value_buf : bytes;
}.

Definition Ycsb_new (key_len value_len put_pct : Z) (rng : Rng) (key_rng tenant_rng : Zipf) : Ycsb :=
  mkYcsb put_pct rng key_rng tenant_rng (replicate (Z.to_nat key_len) 0)
    (replicate (Z.to_nat value_len) 0).

(** The operation that a call of [abc] performs. *)
Inductive YcsbRequest :=
| YGet (tenant : Z) (key : bytes)
| YPut (tenant : Z) (key value : bytes).

Definition ycsb_abc (y : Ycsb) : outcome (Ycsb * YcsbRequest) :=
  let (r, rng) := gen_u32 (yc_rng y) in
  let is_get := bool_decide (r mod 100 >= wrap 32 (yc_put_pct y)) in
  let '(t, tenant_rng, rng) := zipf_sample (yc_tenant_rng y) rng in
  let t := wrap 32 t in
  let '(k, key_rng, rng) := zipf_sample (yc_key_rng y) rng in
  key_buf ← copy_from_slice (yc_key_buf y) 0 4 (le_bytes 4 (wrap 32 k));
  let y := mkYcsb (yc_put_pct y) rng key_rng tenant_rng key_buf (yc_value_buf y) in
  Ret (y, if is_get : bool then YGet t key_buf else YPut t key_buf (yc_value_buf y)).

(** ** The sender *)

Record YcsbSend := mkYcsbSend {
  ys_workload : Ycsb;
  ys_link : Link;
  ys_requests : Z;
  ys_sent : Z;
  ys_rate_inv : Z;
  ys_start : Z;
  ys_next : Z;
  ys_native : bool;
  ys_payload_get : bytes;
  ys_payload_put : bytes;
}.

Definition ys_get_payload (key_len : Z) : bytes :=
  resize (str "get" ++ le_bytes 8 1) (len (str "get") + 8 + key_len).

Definition ys_put_payload (key_len value_len : Z) : bytes :=
  resize (str "put" ++ le_bytes 8 1 ++ le_bytes 2 (wrap 16 key_len))
    (len (str "put") + 8 + 2 + key_len + value_len).

Definition YcsbSend_new (w : Link) (y : Ycsb) (use_invoke : bool)
    (cycles_per_second req_rate reqs key_len value_len : Z) : outcome YcsbSend :=
  _ ← assert_ (req_rate ≠ 0);
  let (start, net) := rdtsc w.2 in
  Ret (mkYcsbSend y (w.1, net) reqs 0 (cycles_per_second / req_rate) start 0 (negb use_invoke)
         (ys_get_payload key_len) (ys_put_payload key_len value_len)).

(** The request itself: natively, or by way of an extension. *)
Definition ys_native_request (w : Link) (op : YcsbRequest) (curr : Z) : outcome Link :=
  match op with
  | YGet tenant key => send_get w tenant 1 key curr
  | YPut tenant key val => send_put w tenant 1 key val curr
  end.

(** The payloads of the two invocations, and the one that is sent. *)
Definition ys_invocation (p_get p_put : bytes) (op : YcsbRequest) : outcome (bytes * bytes * (Z * bytes)) :=
  match op with
  | YGet tenant key =>
      k ← slice key 0 4;
      p_get ← copy_from_slice p_get 11 15 k;
      Ret (p_get, p_put, (tenant, p_get))
  | YPut tenant key _ =>
      k ← slice key 0 4;
      p_put ← copy_from_slice p_put 13 17 k;
      Ret (p_get, p_put, (tenant, p_put))
  end.

Definition ys_execute (s : YcsbSend) : outcome YcsbSend :=
  if decide (ys_requests s <= ys_sent s) then Ret s
  else
    let (curr, net) := rdtsc (ys_link s).2 in
    let w := ((ys_link s).1, net) in
    if decide (curr >= ys_next s ∨ ys_next s = 0) then
      '(y, op) ← ycsb_abc (ys_workload s);
      '(w, p_get, p_put) ←
        (if ys_native s then
           w ← ys_native_request w op curr;
           Ret (w, ys_payload_get s, ys_payload_put s)
         else
           '(p_get, p_put, (tenant, payload)) ← ys_invocation (ys_payload_get s) (ys_payload_put s) op;
           w ← send_invoke w tenant 3 payload curr;
           Ret (w, p_get, p_put));
      let sent := ys_sent s +u64 1 in
      Ret (mkYcsbSend y w (ys_requests s) sent (ys_rate_inv s) (ys_start s)
             (ys_start s +u64 wmul 64 sent (ys_rate_inv s)) (ys_native s) p_get p_put)
    else
      Ret (mkYcsbSend (ys_workload s) w (ys_requests s) (ys_sent s) (ys_rate_inv s) (ys_start s)
             (ys_next s) (ys_native s) (ys_payload_get s) (ys_payload_put s)).

(** ** The receiver *)

Record YcsbRecv := mkYcsbRecv {
  yr_receiver : Receiver;
  yr_responses : Z;
  yr_start : Z;
  yr_recvd : Z;
  yr_latencies : list Z;
  yr_master : bool;
  yr_native : bool;
  yr_stop : Z;
}.

Definition YcsbRecv_new (net : Net) (resps : Z) (master native : bool) : YcsbRecv * Net :=
  let (start, net) := rdtsc net in
  (mkYcsbRecv Receiver_new resps start 0 [] master native 0, net).

(** The time stamp of a response, and the packet to free. *)
Definition yr_stamp (native : bool) (packet : Packet UdpHeader) : outcome (option Z * MBuf) :=
  if native then
    opcode ← parse_rpc_opcode packet;
    match opcode with
    | SandstormGetRpc =>
        p ← parse_header GetResponse packet;
        h ← get_header p;
        Ret (Some (res_stamp (getres_common h)), mbuf p)
    | SandstormPutRpc =>
        p ← parse_header PutResponse packet;
        h ← get_header p;
        Ret (Some (res_stamp (putres_common h)), mbuf p)
    | _ => Ret (None, mbuf packet)
    end
  else
    p ← parse_header InvokeResponse packet;
    h ← get_header p;
    Ret (Some (res_stamp (invokeres_common h)), mbuf p).

Definition yr_packet (st : YcsbRecv * Net) (packet : Packet UdpHeader) : outcome (YcsbRecv * Net) :=
  let (r, net) := st in
  let recvd := yr_recvd r +u64 1 in
  let counted lats :=
    mkYcsbRecv (yr_receiver r) (yr_responses r) (yr_start r) recvd lats (yr_master r) (yr_native r)
      (yr_stop r) in
  if decide (recvd > 2 * 1000 * 1000) then
    if yr_master r then
      let (curr, net) := rdtsc net in
      '(stamp, m) ← yr_stamp (yr_native r) packet;
      Ret (counted match stamp with
                   | Some t => yr_latencies r ++ [curr -u64 t]
                   | None => yr_latencies r
                   end, mbuf_free m net)
    else Ret (counted (yr_latencies r), mbuf_free (mbuf packet) net)
  else Ret (counted (yr_latencies r), mbuf_free (mbuf packet) net).

Definition yr_execute (r : YcsbRecv) (net : Net) : outcome (YcsbRecv * Net) :=
  if decide (yr_responses r <= yr_recvd r) then Ret (r, net)
  else
    '(rc, net, packets) ← recv_res (yr_receiver r) net;
    let r := mkYcsbRecv rc (yr_responses r) (yr_start r) (yr_recvd r) (yr_latencies r) (yr_master r)
               (yr_native r) (yr_stop r) in
    '(r, net) ← match packets with
                | Some packets => ofold yr_packet (r, net) (rev packets)
                | None => Ret (r, net)
                end;
    if decide (yr_responses r <= yr_recvd r) then
      let (stop, net) := rdtsc net in
      Ret (mkYcsbRecv (yr_receiver r) (yr_responses r) (yr_start r) (yr_recvd r) (yr_latencies r)
             (yr_master r) (yr_native r) stop, net)
    else Ret (r, net).
End ycsb.

(** ** The extensions on their arguments *)

Section extensions.
Context `{DB D}.

Definition get_runs (table : Z) (key : bytes) : ext_m D (gen_step unit) :=
  obj ← db_get table key;
  match obj with
  | Some val => _ ← db_resp (rb_read val); mret (GReturn 0)
  | None => fail_with "Object does not exist" 0
  end.

Definition put_runs (table : Z) (key val : bytes) : ext_m D (gen_step unit) :=
  alloc ← db_alloc table key (len val);
  match alloc with
  | Some buf =>
      buf ← lift (write_slice buf val);
      ok ← db_put buf;
      if ok : bool then _ ← db_resp (str "Success"); mret (GReturn 0)
      else fail_with "put() failed" 1
  | None => fail_with "Allocation failed" 1
  end.

Lemma ebind_unfold {A B} (m : ext_m D A) (f : A → ext_m D B) d :
  (m ≫= f) d = match m d with
               | (d, Ret a) => f a d
               | (d, Panic) => (d, Panic)
               | (d, Undef) => (d, Undef)
               end.
Proof. done. Qed.

Lemma ext_get_parses (d : D) table key :
  in_width 64 table → key ≠ [] → db_args d = (d, Ret (le_bytes 8 table ++ key)) →
  ext_get tt d = get_runs table key d.
Proof.
  intros Ht Hk Hargs. unfold ext_get. estep Hargs. rewrite len_app, len_le_bytes.
  rewrite decide_False by (destruct key; [done|unfold len; cbn [length]; lia]).
  assert (split_at (le_bytes 8 table ++ key) 8 = Ret (le_bytes 8 table, key)) as Hs
    by (apply split_at_app; by rewrite len_le_bytes).
  lstep. by rewrite or_le.
Qed.

(** Identifiers below 256 survive the exclusive or. *)
Lemma put_table_1 : put_table (le_bytes 8 1) = Ret 1.
Proof. by vm_compute. Qed.

Definition put_args (key val : bytes) : bytes :=
  le_bytes 8 1 ++ le_bytes 2 (wrap 16 (len key)) ++ key ++ val.

Lemma ext_put_parses (d : D) key val :
  len key + 10 < 2 ^ 16 → db_args d = (d, Ret (put_args key val)) →
  (∀ d' r, db_alloc 1 key (len val) d = (d', r) → db_args d' = (d', Ret (put_args key val))) →
  ext_put tt d = put_runs 1 key val d.
Proof.
  intros Hk Hargs Hkept. pose proof (len_nonneg key). pose proof (len_nonneg val).
  unfold ext_put. estep Hargs.
  assert (len (put_args key val) = 10 + len key + len val) as Hlen
    by (unfold put_args; rewrite !len_app, !len_le_bytes; lia).
  rewrite Hlen, decide_False by lia.
  assert (split_at (put_args key val) 8 = Ret (le_bytes 8 1, le_bytes 2 (wrap 16 (len key)) ++ key ++ val)) as Hs
    by (apply split_at_app; by rewrite len_le_bytes).
  lstep. rewrite (ebind_lift _ _ _ _ put_table_1). cbn beta.
  assert (len (le_bytes 2 (wrap 16 (len key)) ++ key ++ val) = 2 + len key + len val) as Hlen2
    by (rewrite !len_app, len_le_bytes; lia).
  rewrite Hlen2, decide_False by lia.
  assert (split_at (le_bytes 2 (wrap 16 (len key)) ++ key ++ val) 2 =
    Ret (le_bytes 2 (wrap 16 (len key)), key ++ val)) as Hs2 by (apply split_at_app; by rewrite len_le_bytes).
  lstep. rewrite wrap_id by (unfold in_width; lia). lstep. lstep.
  assert (wadd 16 (len key mod 256) (wmul 16 (len key / 256 mod 256) 256) = len key) as ->.
  { pose proof (Z.div_mod (len key) 256). pose proof (Z.mod_pos_bound (len key) 256).
    assert (0 ≤ len key / 256 < 256) by (split; [apply Z.div_pos; lia|apply Z.div_lt_upper_bound; lia]).
    rewrite (Z.mod_small (len key / 256)) by lia. unfold wmul. rewrite wrap_id by (unfold in_width; lia).
    rewrite wadd_id by (unfold in_width; lia). lia. }
  rewrite len_app, decide_False by lia.
  assert (split_at (key ++ val) (len key) = Ret (key, val)) as Hs3 by by apply split_at_app.
  lstep. unfold put_runs. rewrite !(ebind_unfold (db_alloc _ _ _)).
  destruct (db_alloc 1 key (len val) d) as [d' [[buf|]| |]] eqn:E; try done.
  specialize (Hkept d' _ eq_refl). estep Hkept.
  assert (split_at (put_args key val) (wadd 16 0 (wadd 16 10 (len key))) =
    Ret (le_bytes 8 1 ++ le_bytes 2 (len key) ++ key, val)) as Hs4.
  { unfold put_args. rewrite wrap_id by (unfold in_width; lia). rewrite !(assoc_L (++)).
    apply split_at_app. rewrite !wadd_id by (unfold in_width; rewrite ?wadd_id by (unfold in_width; lia); lia).
    rewrite !len_app, !len_le_bytes. lia. }
  by lstep.
Qed.
End extensions.

(** ** A native request and its invocation *)

Section requests.
Context `{Network} `{Workloads}.
Context (key_len value_len : Z) (Hkl : 4 ≤ key_len) (Hkl2 : key_len + 10 < 2 ^ 16) (Hvl : 0 ≤ value_len).

Abbreviation key_of x := (counter (Z.to_nat key_len) x).
Abbreviation zeros := (replicate (Z.to_nat value_len) 0).

(** What the buffers of the sender hold between two requests. *)
Record ys_ok (s : YcsbSend) : Prop := {
  yk_key : ∃ x, yc_key_buf (ys_workload s) = key_of x;
  yk_value : yc_value_buf (ys_workload s) = zeros;
  yk_get : ∃ x, ys_payload_get s = str "get" ++ le_bytes 8 1 ++ key_of x;
  yk_put : ∃ x, ys_payload_put s = str "put" ++ put_args (key_of x) zeros;
}.

Lemma len_key_of x : len (key_of x) = key_len.
Proof. unfold counter, len. rewrite length_app, le_bytes_length, length_replicate. lia. Qed.

Lemma key_of_0 : key_of 0 = replicate (Z.to_nat key_len) 0.
Proof.
  unfold counter. change (le_bytes 4 0) with (replicate 4 0). rewrite <- replicate_add. f_equal. lia.
Qed.

Lemma resize_longer l n : len l ≤ n → resize l n = l ++ replicate (Z.to_nat (n - len l)) 0.
Proof. intros Hl. unfold resize. rewrite take_ge; [done|]. unfold len in Hl. lia. Qed.

Lemma ys_new_ok w use_invoke cps rate reqs put_pct rng key_rng tenant_rng s :
  YcsbSend_new w (Ycsb_new key_len value_len put_pct rng key_rng tenant_rng) use_invoke cps rate reqs
    key_len value_len = Ret s → ys_ok s.
Proof.
  unfold YcsbSend_new, assert_. case_decide; [|done]. cbn [mbind outcome_bind].
  destruct (rdtsc _) as [start net]. intros [= <-].
  split; cbn [ys_workload ys_payload_get ys_payload_put Ycsb_new yc_key_buf yc_value_buf].
  - exists 0. by rewrite key_of_0.
  - done.
  - exists 0. rewrite key_of_0. unfold ys_get_payload. rewrite resize_longer by (rewrite len_app, len_le_bytes; lia).
    rewrite <- (assoc_L (++)). do 3 f_equal. rewrite len_app, len_le_bytes. lia.
  - exists 0. rewrite key_of_0. unfold ys_put_payload, put_args.
    rewrite resize_longer by (rewrite !len_app, !len_le_bytes; lia).
    rewrite <- !(assoc_L (++)), <- replicate_add, <- key_of_0, len_key_of.
    do 3 f_equal. f_equal. rewrite !len_app, !len_le_bytes. change (len (str "put")) with 3. lia.
Qed.

(** The counter of a key that follows [pre] is replaced where the code replaces it. *)
Lemma copy_key_at pre x post a b y :
  a = len pre → b = len pre + 4 →
  copy_from_slice (pre ++ key_of x ++ post) a b (le_bytes 4 y) = Ret (pre ++ key_of y ++ post).
Proof. intros -> ->. by apply copy_counter. Qed.

(** Drawing the next operation. *)
Lemma ycsb_abc_ok s :
  ys_ok s → ∃ y x t, yc_value_buf y = zeros ∧ yc_key_buf y = key_of x ∧ in_width 32 x ∧ in_width 32 t ∧
    (ycsb_abc (ys_workload s) = Ret (y, YGet t (key_of x)) ∨
     ycsb_abc (ys_workload s) = Ret (y, YPut t (key_of x) zeros)).
Proof.
  intros [[x0 Hk] Hv _ _]. unfold ycsb_abc. destruct (gen_u32 _) as [r rng].
  destruct (zipf_sample _ _) as [[t tz] rng1]. destruct (zipf_sample _ rng1) as [[k kz] rng2].
  rewrite Hk, Hv. pose proof (copy_key_at [] x0 [] 0 4 (wrap 32 k) eq_refl eq_refl) as Hc.
  rewrite !app_nil_r, !app_nil_l in Hc. rewrite Hc. cbn [mbind outcome_bind].
  eexists _, (wrap 32 k), (wrap 32 t). split; [|split; [|split; [by apply wrap_range|split; [by apply wrap_range|]]]];
    [| |by case_bool_decide; [left|right]]; done.
Qed.

(** The payload of its invocation. *)
Lemma ys_invocation_ok s x t op :
  ys_ok s → op = YGet t (key_of x) ∨ op = YPut t (key_of x) zeros →
  ∃ p_get p_put args, ys_invocation (ys_payload_get s) (ys_payload_put s) op =
      Ret (p_get, p_put, (t, args)) ∧
    (∃ x', p_get = str "get" ++ le_bytes 8 1 ++ key_of x') ∧
    (∃ x', p_put = str "put" ++ put_args (key_of x') zeros) ∧
    args = match op with
           | YGet _ key => str "get" ++ le_bytes 8 1 ++ key
           | YPut _ key val => str "put" ++ put_args key val
           end.
Proof.
  intros [_ _ [xg Hg] [xp Hp]] Hop.
  assert (slice (key_of x) 0 4 = Ret (le_bytes 4 x)) as Hs
    by (apply (slice_app [] (le_bytes 4 x)); [done|by rewrite len_le_bytes]).
  destruct Hop as [-> | ->]; unfold ys_invocation; rewrite Hs; cbn [mbind outcome_bind].
  - rewrite Hg, (assoc_L (++)).
    pose proof (copy_key_at (str "get" ++ le_bytes 8 1) xg [] 11 15 x) as Hc.
    rewrite !app_nil_r in Hc. rewrite Hc by by rewrite len_app, len_le_bytes. cbn [mbind outcome_bind].
    rewrite <- (assoc_L (++)). eexists _, _, _. split; [done|]. split; [by exists x|]. split; [by exists xp|done].
  - rewrite Hp. unfold put_args at 1. rewrite !(assoc_L (++)), <- (assoc_L (++) _ (key_of xp)).
    rewrite (copy_key_at _ xp zeros 13 17 x) by by rewrite !len_app, !len_le_bytes.
    cbn [mbind outcome_bind]. rewrite <- !(assoc_L (++)). rewrite len_key_of.
    assert (le_bytes 8 1 ++ le_bytes 2 (wrap 16 key_len) ++ key_of x ++ zeros = put_args (key_of x) zeros) as ->
      by by (unfold put_args; rewrite len_key_of).
    eexists _, _, _. split; [done|]. split; [by exists xg|]. split; [by exists x|done].
Qed.

Lemma ys_ok_intro s y w r n i st nx nat x :
  ys_ok s → yc_value_buf y = zeros → yc_key_buf y = key_of x →
  ys_ok (mkYcsbSend y w r n i st nx nat (ys_payload_get s) (ys_payload_put s)).
Proof. intros [] Hv Hk. by split; [exists x| | |]. Qed.

Lemma ys_execute_ok s s' : ys_ok s → ys_execute s = Ret s' → ys_ok s'.
Proof.
  intros Hs. unfold ys_execute. case_decide; [by intros [= <-]|]. destruct (rdtsc _) as [curr net].
  case_decide; [|intros [= <-]; by destruct Hs].
  destruct (ycsb_abc_ok s Hs) as (y & x & t & Hv & Hk & _ & _ & Hop).
  assert (∃ op, ycsb_abc (ys_workload s) = Ret (y, op) ∧ (op = YGet t (key_of x) ∨ op = YPut t (key_of x) zeros))
    as (op & -> & Hop') by (destruct Hop as [-> | ->]; eauto).
  cbn [mbind outcome_bind]. intros Hr. destruct (ys_native s).
  - inv_outcome. by eapply ys_ok_intro.
  - destruct (ys_invocation_ok s x t op Hs Hop') as (p_get & p_put & args & He & Hg & Hp & _).
    rewrite He in Hr. cbn [mbind outcome_bind] in Hr.
    destruct (send_invoke _ _ _ _ _); cbn [mbind outcome_bind] in Hr; [|done..].
    injection Hr as <-. by split; [exists x| | |].
Qed.

(** the YCSB client invokes what it could have requested.  After any number
    of rounds, the operation it draws next is a get or a put of a key that counts
    in its first four bytes, with a value of zeros.  Sent natively it is a get or
    put request for table 1; sent as an invocation it names the extension get or
    put, and on its arguments that extension, over any database, reads that key
    of table 1, or allocates and puts exactly that key and value there. *)
Theorem ycsb_invocation_is_request w use_invoke cps rate reqs put_pct rng key_rng tenant_rng s0 n s :
  YcsbSend_new w (Ycsb_new key_len value_len put_pct rng key_rng tenant_rng) use_invoke cps rate reqs
    key_len value_len = Ret s0 →
  ofold (λ s _, ys_execute s) s0 (seq 0 n) = Ret s →
  ∃ y op t x p_get p_put name args,
    ycsb_abc (ys_workload s) = Ret (y, op) ∧
    ys_invocation (ys_payload_get s) (ys_payload_put s) op = Ret (p_get, p_put, (t, name ++ args)) ∧
    len name = 3 ∧ len (counter (Z.to_nat key_len) x) = key_len ∧
    let key := counter (Z.to_nat key_len) x in
    let value := replicate (Z.to_nat value_len) 0 in
    (op = YGet t key ∧ name = str "get" ∧
       (∀ w curr, ys_native_request w op curr = send_get w t 1 key curr) ∧
       ∀ (bc : BytesCrate) (D : Type) (db : DB D) (d : D), db_args d = (d, Ret args) →
         ext_get tt d = get_runs 1 key d) ∨
    (op = YPut t key value ∧ name = str "put" ∧
       (∀ w curr, ys_native_request w op curr = send_put w t 1 key value curr) ∧
       ∀ (bc : BytesCrate) (D : Type) (db : DB D) (d : D), db_args d = (d, Ret args) →
         (∀ d' r, db_alloc 1 key (len value) d = (d', r) → db_args d' = (d', Ret args)) →
         ext_put tt d = put_runs 1 key value d).
Proof.
  intros Hnew Hr.
  assert (ys_ok s) as Hs.
  { apply (ofold_inv ys_ok _ _ _ _) in Hr; [done| |by eapply ys_new_ok]. intros s1 i s2 H1 E. by eapply ys_execute_ok. }
  destruct (ycsb_abc_ok s Hs) as (y & x & t & Hv & Hk & _ & _ & Hop).
  destruct Hop as [He|He].
  - destruct (ys_invocation_ok s x t (YGet t (key_of x)) Hs) as (p_get & p_put & args & Hi & _ & _ & ->); [by left|].
    eexists y, _, t, x, p_get, p_put, _, _. split; [exact He|]. split; [exact Hi|]. split; [done|].
    split; [by apply len_key_of|]. left. split_and!; [done|done|done|]. intros bc D db d Hd.
    apply ext_get_parses; [done| |done]. intros E. pose proof (len_key_of x) as Hl. rewrite E in Hl. change (len []) with 0 in Hl. lia.
  - destruct (ys_invocation_ok s x t (YPut t (key_of x) zeros) Hs) as (p_get & p_put & args & Hi & _ & _ & ->); [by right|].
    eexists y, _, t, x, p_get, p_put, _, _. split; [exact He|]. split; [exact Hi|]. split; [done|].
    split; [by apply len_key_of|]. right. split_and!; [done|done|done|]. intros bc D db d Hd Hkept.
    apply ext_put_parses; [rewrite len_key_of; lia|done|done].
Qed.
End requests.

(** ** Witness *)

(** Two rounds of a client whose clock advances, invoking. *)
Definition ex_ycsb_new : outcome (@YcsbSend clock_net test_workloads) :=
  @YcsbSend_new clock_net test_workloads clock_link
    (@Ycsb_new test_workloads 30 100 50 0 tt tt) true 100 10 5 30 100.

Definition ex_ycsb_runs (s : @YcsbSend clock_net test_workloads) : outcome (@YcsbSend clock_net test_workloads) :=
  ofold (λ s _, @ys_execute clock_net test_workloads s) s (seq 0 2).

Definition ex_ycsb_start : @YcsbSend clock_net test_workloads :=
  ret_or (@mkYcsbSend clock_net test_workloads (@Ycsb_new test_workloads 30 100 50 0 tt tt) clock_link
            0 0 0 0 0 true [] []) ex_ycsb_new.

Lemma ycsb_invocation_is_request_witness :
  ∃ y op t x p_get p_put name args,
    @ycsb_abc test_workloads (ys_workload (ret_or ex_ycsb_start (ex_ycsb_runs ex_ycsb_start))) = Ret (y, op) ∧
    ys_invocation (ys_payload_get (ret_or ex_ycsb_start (ex_ycsb_runs ex_ycsb_start)))
      (ys_payload_put (ret_or ex_ycsb_start (ex_ycsb_runs ex_ycsb_start))) op =
      Ret (p_get, p_put, (t, name ++ args)) ∧ len name = 3 ∧ len (counter 30 x) = 30.
Proof.
  destruct (@ycsb_invocation_is_request clock_net test_workloads 30 100 ltac:(lia) ltac:(lia) ltac:(lia)
              clock_link true 100 10 5 50 0 tt tt ex_ycsb_start 2 (ret_or ex_ycsb_start (ex_ycsb_runs ex_ycsb_start)))
    as (y & op & t & x & pg & pp & name & args & Hop & Hi & Hn & Hl & _).
  - refine (returns_ret _ ex_ycsb_new _). by vm_compute.
  - refine (returns_ret ex_ycsb_start (ex_ycsb_runs ex_ycsb_start) _). by vm_compute.
  - exists y, op, t, x, pg, pp, name, args. exact (conj Hop (conj Hi (conj Hn Hl))).
Defined.
