(* ===== verification/TaoClient.v ===== *)
(** * TaoClient: the TAO client

    Models splinter/src/bin/client/tao.rs: reads of objects and of association
    lists of the social graph that [fill_tao] loads, as native requests, as
    invocations of the extension tao, or objects natively and lists by the
    extension ([combine]).  Natively, the client builds the keys of the
    associations itself from the list that it read.

    Both receivers poll the port of the client's core.  What is only printed is
    left out. *)

From stdpp Require Import strings.
From S2P Require Import Prelude Bits Packed Headers Packet Wire Rpc Alloc HandlerSpecs Bufs.
From S2P Require Import Context Ext Task Dispatch DispatchSpecs Proxy Client DB.
From S2P Require Import Programs DBSpecs ExtSpecs Float Kayak KayakSpecs Tao Loaders.
From S2P Require Import LoadersSpecs LoadClient YcsbtWork LoadSpecs YcsbtSpecs.

Section tao_client.
Context `{Network} `{Workloads}.

Record TaoConf := mkTaoConf {
  tc_native : bool;
  tc_requests : Z;
  tc_start : Z;
  tc_assoc_p : Z;
  tc_responses : Z;
  tc_combine : bool;
}.

Record TaoBuffers := mkTaoBuffers {
  tc_random : Rng;
  tc_k_dist : Zipf;
  tc_t_dist : Zipf;
  tc_no_buff : bytes;
  tc_na_buff : bytes;
  tc_io_buff : bytes;
  tc_ia_buff : bytes;
  tc_keys_buff : bytes;
}.

Record TaoCounts := mkTaoCounts {
  tc_sent : Z;
  tc_stop : Z;
  tc_recvd : Z;
  tc_o_latencies : list Z;
  tc_a_latencies : list Z;
  tc_finished : bool;
  tc_outstanding : Z;
}.

Record TaoSendRecv := mkTaoSendRecv {
  tc_conf : TaoConf;
  tc_buffers : TaoBuffers;
  tc_link : Link;
  tc_receiver : Receiver;
  tc_multi_rx : Receiver;
  tc_counts : TaoCounts;
}.

Definition TAO_MAX_OUTSTANDING : Z := 32.

(** The payloads of the two invocations. *)
Definition tc_get_payload : bytes :=
  resize (str "tao" ++ le_bytes 8 1 ++ le_bytes 8 0 ++ [0]) (len (str "tao") + 8 + 8 + 1).

Definition tc_assoc_payload : bytes :=
  resize (str "tao" ++ le_bytes 8 2 ++ replicate 18 0 ++ [4]) (len (str "tao") + 8 + 18 + 1).

Definition TaoSendRecv_new (w : Link) (random : Rng) (k_dist t_dist : Zipf)
    (native combined : bool) (num_reqs assocs_p resps : Z) : TaoSendRecv :=
  let (start, net) := rdtsc w.2 in
  mkTaoSendRecv (mkTaoConf native num_reqs start assocs_p resps combined)
    (mkTaoBuffers random k_dist t_dist (replicate 8 0) (replicate 10 0) tc_get_payload
       tc_assoc_payload (replicate 72 0))
    (w.1, net) Receiver_new Receiver_new (mkTaoCounts 0 0 0 [] [] false 0).

(** ** Sending *)

(** A tenant, the bytes of a key, and whether to read an object. *)
Definition tc_sample (c : TaoConf) (b : TaoBuffers) : TaoBuffers * (Z * bytes * bool) :=
  let '(t, t_dist, random) := zipf_sample (tc_t_dist b) (tc_random b) in
  let '(k, k_dist, random) := zipf_sample (tc_k_dist b) random in
  let (r, random) := gen_u32 random in
  (mkTaoBuffers random k_dist t_dist (tc_no_buff b) (tc_na_buff b) (tc_io_buff b) (tc_ia_buff b)
     (tc_keys_buff b),
   (wrap 32 t, le_bytes 4 (wrap 32 k), bool_decide (r mod 100 >= wrap 32 (tc_assoc_p c)))).

Definition tc_with_bufs (b : TaoBuffers) (no na io ia : bytes) : TaoBuffers :=
  mkTaoBuffers (tc_random b) (tc_k_dist b) (tc_t_dist b) no na io ia (tc_keys_buff b).

Definition tc_generate (c : TaoConf) (b : TaoBuffers) (w : Link) (curr : Z) :
    outcome (TaoBuffers * Link) :=
  let '(b, (t, k, o)) := tc_sample c b in
  let get_object :=
    no ← copy_from_slice (tc_no_buff b) 0 4 k;
    w ← send_get w t 1 no curr;
    Ret (tc_with_bufs b no (tc_na_buff b) (tc_io_buff b) (tc_ia_buff b), w) in
  if tc_native c then
    if o : bool then get_object
    else
      na ← copy_from_slice (tc_na_buff b) 0 4 k;
      w ← send_get w t 2 na curr;
      Ret (tc_with_bufs b (tc_no_buff b) na (tc_io_buff b) (tc_ia_buff b), w)
  else if o : bool then
    if tc_combine c then get_object
    else
      io ← copy_from_slice (tc_io_buff b) 11 15 k;
      w ← send_invoke w t 3 io curr;
      Ret (tc_with_bufs b (tc_no_buff b) (tc_na_buff b) io (tc_ia_buff b), w)
  else
    ia ← copy_from_slice (tc_ia_buff b) 11 15 k;
    w ← send_invoke w t 3 ia curr;
    Ret (tc_with_bufs b (tc_no_buff b) (tc_na_buff b) (tc_io_buff b) ia, w).

Definition tc_with_counts (k : TaoSendRecv) (n : TaoCounts) : TaoSendRecv :=
  mkTaoSendRecv (tc_conf k) (tc_buffers k) (tc_link k) (tc_receiver k) (tc_multi_rx k) n.

Definition tc_finish (n : TaoCounts) (stop : Z) : TaoCounts :=
  mkTaoCounts (tc_sent n) stop (tc_recvd n) (tc_o_latencies n) (tc_a_latencies n) true
    (tc_outstanding n).

Definition tc_may_send (k : TaoSendRecv) : bool :=
  bool_decide (tc_outstanding (tc_counts k) < TAO_MAX_OUTSTANDING).

Definition tc_send_one (k : TaoSendRecv) : outcome TaoSendRecv :=
  let (curr, net) := rdtsc (tc_link k).2 in
  '(b, w) ← tc_generate (tc_conf k) (tc_buffers k) ((tc_link k).1, net) curr;
  let n := tc_counts k in
  Ret (mkTaoSendRecv (tc_conf k) b w (tc_receiver k) (tc_multi_rx k)
         (mkTaoCounts (tc_sent n +u64 1) (tc_stop n) (tc_recvd n) (tc_o_latencies n)
            (tc_a_latencies n) (tc_finished n) (tc_outstanding n +u64 1))).

Definition tc_send (fuel : nat) (k : TaoSendRecv) : outcome TaoSendRecv :=
  if decide (tc_requests (tc_conf k) <= tc_sent (tc_counts k)) then
    Ret (tc_with_counts k (tc_finish (tc_counts k) (tc_stop (tc_counts k))))
  else while_loop tc_may_send tc_send_one fuel k.

(** ** Receiving *)

(** [assoc_keys]: for every association in the list, the object whose list it
    is, two bytes that stay, and the other object. *)
Definition tc_assoc_keys (buf list : bytes) : outcome bytes :=
  '(_, list) ← split_at list 19;
  e ← slice list 0 8;
  let left := or_bytes 0 0 e in
  let left := le_bytes 8 (if decide (left > 0) then left - 1 else left) in
  ids ← chunks list 16;
  '(buf, _) ← ofold (λ '(buf, n), λ id,
    let l := n * 18 in
    let r := l + 8 in
    buf ← copy_from_slice buf l r left;
    let l := r + 2 in
    let r := l + 8 in
    k ← slice id 0 8;
    buf ← copy_from_slice buf l r k;
    Ret (buf, n + 1)) (buf, 0) ids;
  Ret buf.

Definition tc_with_link (k : TaoSendRecv) (w : Link) : TaoSendRecv :=
  mkTaoSendRecv (tc_conf k) (tc_buffers k) w (tc_receiver k) (tc_multi_rx k) (tc_counts k).

Definition tc_free {T} (p : Packet T) (k : TaoSendRecv) : TaoSendRecv :=
  tc_with_link k ((tc_link k).1, mbuf_free (mbuf p) (tc_link k).2).

Definition tc_with_keys (b : TaoBuffers) (keys : bytes) : TaoBuffers :=
  mkTaoBuffers (tc_random b) (tc_k_dist b) (tc_t_dist b) (tc_no_buff b) (tc_na_buff b)
    (tc_io_buff b) (tc_ia_buff b) keys.

(** One more response; [outs] are no longer outstanding. *)
Definition tc_one_recvd (k : TaoSendRecv) (outs : Z) : TaoSendRecv :=
  let n := tc_counts k in
  tc_with_counts k (mkTaoCounts (tc_sent n) (tc_stop n) (tc_recvd n +u64 1) (tc_o_latencies n)
                      (tc_a_latencies n) (tc_finished n) (tc_outstanding n -u64 outs)).

Definition tc_one_less (k : TaoSendRecv) : TaoSendRecv :=
  let n := tc_counts k in
  tc_with_counts k (mkTaoCounts (tc_sent n) (tc_stop n) (tc_recvd n) (tc_o_latencies n)
                      (tc_a_latencies n) (tc_finished n) (tc_outstanding n -u64 1)).

(** Every sixteenth response is measured. *)
Definition tc_sampled (k : TaoSendRecv) : bool := bool_decide (Z.land (tc_recvd (tc_counts k)) 15 = 0).

Definition tc_latency (k : TaoSendRecv) (assoc : bool) (stamp : Z) : TaoSendRecv :=
  let n := tc_counts k in
  let (now, net) := rdtsc (tc_link k).2 in
  let t := now -u64 stamp in
  tc_with_counts (tc_with_link k ((tc_link k).1, net))
    (mkTaoCounts (tc_sent n) (tc_stop n) (tc_recvd n)
       (if assoc then tc_o_latencies n else tc_o_latencies n ++ [t])
       (if assoc then tc_a_latencies n ++ [t] else tc_a_latencies n)
       (tc_finished n) (tc_outstanding n)).

Definition tc_measure (k : TaoSendRecv) (assoc : bool) (stamp : Z) : TaoSendRecv :=
  if tc_sampled k then tc_latency k assoc stamp else k.

(** A list that was read natively: the multiget of its associations. *)
Definition tc_list_read (k : TaoSendRecv) (h : RpcResponseHeader) (list : bytes) : outcome TaoSendRecv :=
  keys ← tc_assoc_keys (tc_keys_buff (tc_buffers k)) list;
  w ← send_multiget (tc_link k) (res_tenant h) 2 18 4 keys (res_stamp h);
  Ret (mkTaoSendRecv (tc_conf k) (tc_with_keys (tc_buffers k) keys) w (tc_receiver k) (tc_multi_rx k)
         (tc_counts k)).

Definition tc_recv_native (k : TaoSendRecv) (packet : Packet UdpHeader) : outcome TaoSendRecv :=
  opcode ← parse_rpc_opcode packet;
  match opcode with
  | SandstormCommitRpc =>
      p ← parse_header CommitResponse packet;
      h ← get_header p;
      let h := commitres_common h in
      let k := if decide (status h = RpcStatus_u8 StatusTxAbort) then k
               else if decide (status h = RpcStatus_u8 StatusOk)
               then tc_measure (tc_one_recvd k 0) true (res_stamp h)
               else k in
      Ret (tc_free p k)
  | SandstormGetRpc =>
      p ← parse_header GetResponse packet;
      h ← get_header p;
      pl ← get_payload p;
      k ← (if decide (len pl < 67) then
             Ret (tc_measure (tc_one_recvd k 1) false (res_stamp (getres_common h)))
           else tc_list_read k (getres_common h) pl);
      Ret (tc_free p k)
  | SandstormMultiGetRpc =>
      p ← parse_header MultiGetResponse packet;
      h ← get_header p;
      let h := mgetres_common h in
      w ← (if decide (status h = RpcStatus_u8 StatusOk) then
             pl ← get_payload p;
             send_commit (tc_link k) (res_tenant h) 2 pl (res_stamp h) 18 22
           else Ret (tc_link k));
      Ret (tc_free p (tc_one_less (tc_with_link k w)))
  | _ => Ret (tc_free packet k)
  end.

(** The answer to a native get among the invocations. *)
Definition tc_is_combined (k : TaoSendRecv) (packet : Packet UdpHeader) : outcome bool :=
  if tc_combine (tc_conf k) then pl ← get_payload packet; Ret (bool_decide (len pl <= 50))
  else Ret false.

Definition tc_recv_invoke (k : TaoSendRecv) (packet : Packet UdpHeader) : outcome TaoSendRecv :=
  let k := tc_one_recvd k 1 in
  combined ← tc_is_combined k packet;
  if combined : bool then
    p ← parse_header GetResponse packet;
    h ← get_header p;
    Ret (tc_free p (tc_measure k false (res_stamp (getres_common h))))
  else
    p ← parse_header InvokeResponse packet;
    h ← get_header p;
    k ← (if tc_sampled k then
           pl ← get_payload p;
           Ret (tc_latency k (negb (bool_decide (len pl < 67))) (res_stamp (invokeres_common h)))
         else Ret k);
    Ret (tc_free p k).

(** After the last response: packets are only freed. *)
Definition tc_drop_single (k : TaoSendRecv) (packet : Packet UdpHeader) : outcome TaoSendRecv :=
  let k := tc_one_less k in
  if tc_native (tc_conf k) then p ← parse_header GetResponse packet; Ret (tc_free p k)
  else
    combined ← tc_is_combined k packet;
    if combined : bool then p ← parse_header GetResponse packet; Ret (tc_free p k)
    else p ← parse_header InvokeResponse packet; Ret (tc_free p k).

Definition tc_drop_multi (k : TaoSendRecv) (packet : Packet UdpHeader) : outcome TaoSendRecv :=
  p ← parse_header MultiGetResponse packet; Ret (tc_free p (tc_one_less k)).

(** The packets of one of the two receivers, the last one first. *)
Definition tc_burst (multi : bool) (f : TaoSendRecv → Packet UdpHeader → outcome TaoSendRecv)
    (k : TaoSendRecv) : outcome TaoSendRecv :=
  '(rc, net, packets) ← recv_res (if multi then tc_multi_rx k else tc_receiver k) (tc_link k).2;
  let k := mkTaoSendRecv (tc_conf k) (tc_buffers k) ((tc_link k).1, net)
             (if multi then tc_receiver k else rc) (if multi then rc else tc_multi_rx k)
             (tc_counts k) in
  match packets with
  | Some packets => ofold f k (rev packets)
  | None => Ret k
  end.

Definition tc_recv (k : TaoSendRecv) : outcome TaoSendRecv :=
  if decide (tc_responses (tc_conf k) <= tc_recvd (tc_counts k) ∧ tc_finished (tc_counts k) = true) then
    k ← tc_burst false tc_drop_single k;
    if tc_native (tc_conf k) then tc_burst true tc_drop_multi k else Ret k
  else
    k ← tc_burst false (if tc_native (tc_conf k) then tc_recv_native else tc_recv_invoke) k;
    if decide (tc_responses (tc_conf k) <= tc_recvd (tc_counts k)) then
      let (now, net) := rdtsc (tc_link k).2 in
      Ret (tc_with_counts (tc_with_link k ((tc_link k).1, net)) (tc_finish (tc_counts k) now))
    else Ret k.

Definition tc_execute (fuel : nat) (k : TaoSendRecv) : outcome TaoSendRecv :=
  if tc_finished (tc_counts k) then Ret k
  else k ← tc_send fuel k; tc_recv k.
End tao_client.

(** * What the client sends *)

(** ** The buffer of keys *)

(** Four keys of 8, 2 and 8 bytes; the two in the middle are zero. *)
Definition two_ids (l : list (bytes * bytes)) : Prop := Forall (λ '(a, b), len a = 8 ∧ len b = 8) l.

Definition keys_of (l : list (bytes * bytes)) : bytes :=
  concat ((λ '(a, b), a ++ [0; 0] ++ b) <$> l).

Definition keys_ok (buf : bytes) : Prop := ∃ l, two_ids l ∧ length l = 4%nat ∧ buf = keys_of l.

Lemma len_keys_of l : two_ids l → len (keys_of l) = 18 * len l.
Proof.
  unfold keys_of. induction 1 as [|[a b] l [Ha Hb] _ IH]; [done|]. cbn [fmap list_fmap concat].
  rewrite !len_app, IH, Ha, Hb. change (len [0; 0]) with 2. unfold len at 2. cbn [length].
  unfold len. lia.
Qed.

Lemma keys_of_app l1 l2 : keys_of (l1 ++ l2) = keys_of l1 ++ keys_of l2.
Proof. unfold keys_of. by rewrite fmap_app, concat_app. Qed.

(** One turn of the loop. *)
Definition keys_turn (left : bytes) : bytes * Z → bytes → outcome (bytes * Z) := λ '(buf, n), λ id,
  let l := n * 18 in
  let r := l + 8 in
  buf ← copy_from_slice buf l r left;
  let l := r + 2 in
  let r := l + 8 in
  k ← slice id 0 8;
  buf ← copy_from_slice buf l r k;
  Ret (buf, n + 1).

Lemma keys_turn_next left l1 ab l2 k rest :
  two_ids (l1 ++ ab :: l2) → len left = 8 → len k = 8 →
  keys_turn left (keys_of (l1 ++ ab :: l2), len l1) (k ++ rest) =
    Ret (keys_of (l1 ++ (left, k) :: l2), len l1 + 1).
Proof.
  intros Hl Hleft Hk. apply Forall_app in Hl as [Hl1 Hl2]. destruct ab as [a b].
  apply Forall_cons in Hl2 as [[Ha Hb] Hl2]. unfold keys_turn.
  pose proof (len_keys_of _ Hl1) as Hn.
  assert (∀ a b, keys_of (l1 ++ (a, b) :: l2) = keys_of l1 ++ a ++ ([0; 0] ++ b ++ keys_of l2)) as He.
  { intros a' b'. rewrite keys_of_app. unfold keys_of at 2. cbn [fmap list_fmap concat].
    by rewrite <- !(assoc_L (++)). }
  rewrite !He, (copy_at _ a _ left) by lia. cbn [mbind outcome_bind].
  assert (slice (k ++ rest) 0 8 = Ret k) as -> by (apply (slice_app [] k rest); [done|lia]). cbn [mbind outcome_bind].
  replace (keys_of l1 ++ left ++ [0; 0] ++ b ++ keys_of l2)
    with ((keys_of l1 ++ left ++ [0; 0]) ++ b ++ keys_of l2) by by rewrite <- !(assoc_L (++)).
  assert (len (keys_of l1 ++ left ++ [0; 0]) = len l1 * 18 + 8 + 2) as Hpre.
  { rewrite !len_app, Hn, Hleft. change (len [0; 0]) with 2. lia. }
  rewrite (copy_at _ b _ k) by lia. cbn [mbind outcome_bind]. by rewrite <- !(assoc_L (++)).
Qed.

(** There is no room for a fifth key. *)
Lemma keys_turn_ok left buf n id buf' n' :
  keys_ok buf → 0 ≤ n → len left = 8 → keys_turn left (buf, n) id = Ret (buf', n') →
  keys_ok buf' ∧ 0 ≤ n'.
Proof.
  intros (l & Hl & H4 & ->) Hn Hleft Ht.
  destruct (decide (n < 4)) as [Hlt|Hge]; cycle 1.
  { unfold keys_turn, copy_from_slice in Ht. rewrite decide_False in Ht; [done|].
    rewrite len_keys_of by done. unfold len at 1. rewrite H4. lia. }
  assert (∃ k rest, id = k ++ rest ∧ len k = 8) as (k & rest & -> & Hk).
  { unfold keys_turn in Ht. destruct (copy_from_slice _ _ _ _); cbn [mbind outcome_bind] in Ht; [|done..].
    unfold slice in Ht. case_decide as Hd; [|done]. exists (take 8 id), (drop 8 id).
    split; [by rewrite take_drop|]. unfold len in *. rewrite length_take. lia. }
  destruct (lookup_lt_is_Some_2 l (Z.to_nat n)) as [[a b] Hab]; [lia|].
  rewrite <- (take_drop_middle _ _ _ Hab) in Hl, Ht, H4.
  assert (len (take (Z.to_nat n) l) = n) as Htn
    by (apply lookup_lt_Some in Hab; unfold len; rewrite length_take; lia).
  remember (take (Z.to_nat n) l) as l1 eqn:E1. clear E1. remember (drop (S (Z.to_nat n)) l) as l2 eqn:E2. clear E2.
  subst n. rewrite keys_turn_next in Ht by done. injection Ht as <- <-. split; [|pose proof (len_nonneg l1); lia].
  exists (l1 ++ (left, k) :: l2). split; [|split; [|done]].
  - apply Forall_app in Hl as [H1 H2]. apply Forall_cons in H2 as [_ H2]. apply Forall_app. split; [done|].
    by apply Forall_cons.
  - by rewrite <- H4, !length_app.
Qed.

(** *** The keys of a list *)

Lemma tc_assoc_keys_ok buf list buf' : keys_ok buf → tc_assoc_keys buf list = Ret buf' → keys_ok buf'.
Proof.
  intros Hb. unfold tc_assoc_keys. destruct (split_at list 19) as [[hd body]| |]; cbn [mbind outcome_bind]; [|done..].
  destruct (slice body 0 8) as [e| |]; cbn [mbind outcome_bind]; [|done..].
  destruct (chunks body 16) as [ids| |]; cbn [mbind outcome_bind]; [|done..].
  set (left := le_bytes 8 _). assert (len left = 8) as Hleft by apply len_le_bytes. clearbody left.
  change (λ '(buf, n), λ id, _) with (keys_turn left).
  destruct (ofold (keys_turn left) (buf, 0) ids) as [[buf1 n]| |] eqn:E; cbn [mbind outcome_bind]; [|done..].
  intros [= <-]. apply (ofold_inv (λ '(buf, n), keys_ok buf ∧ 0 ≤ n) _ _ _ _) in E; [by destruct E| |by split].
  intros [b1 n1] id [b2 n2] [H1 Hn] Ht. by eapply keys_turn_ok.
Qed.

(** A list as a response carries it: type, version, key and value. *)
Definition list_payload (ver : Z) (key : bytes) (l : AssociationList) : bytes :=
  [OpType_u8 SandstormRead] ++ le_bytes 8 ver ++ key ++ list_bytes l.

Lemma tc_keys_loop left ids l1 l2 :
  length ids = length l2 → two_ids (l1 ++ l2) → len left = 8 →
  ofold (keys_turn left) (keys_of (l1 ++ l2), len l1) (assoc_bytes <$> ids) =
    Ret (keys_of (l1 ++ ((λ a, (left, le_bytes 8 (as_id a))) <$> ids)), len l1 + len ids).
Proof.
  revert l1 l2. induction ids as [|a ids IH]; intros l1 [|ab l2] Hlen Hl Hleft; try done.
  { cbn. by rewrite Z.add_0_r. }
  cbn [fmap list_fmap ofold]. change (assoc_bytes a) with (le_bytes 8 (as_id a) ++ le_bytes 8 (as_time a)).
  rewrite keys_turn_next by (done || apply len_le_bytes).
  cbn [mbind outcome_bind]. pose proof (IH (l1 ++ [(left, le_bytes 8 (as_id a))]) l2) as IH'.
  rewrite <- !(assoc_L (++)) in IH'. cbn [app] in IH'. rewrite len_app in IH'. change (len [_]) with 1 in IH'.
  rewrite IH'.
  - do 2 f_equal. unfold len. cbn [length]. lia.
  - by injection Hlen.
  - apply Forall_app in Hl as [H1 H2]. apply Forall_cons in H2 as [_ H2]. apply Forall_app. split; [done|].
    apply Forall_cons. split; [|done]. split; [done|apply len_le_bytes].
  - done.
Qed.

Lemma tc_assoc_keys_spec buf ver key a l :
  keys_ok buf → len key = 10 → length l = 3%nat → in_width 64 (as_id a) →
  tc_assoc_keys buf (list_payload ver key (a :: l)) =
    Ret (concat (assoc_key (le_bytes 8 (Z.max 0 (as_id a - 1))) [0; 0] <$> a :: l)).
Proof.
  intros (q & Hq & H4 & ->) Hkey H3 Ha. unfold tc_assoc_keys, list_payload.
  rewrite !(assoc_L (++)). rewrite split_at_app by by rewrite !len_app, len_le_bytes, Hkey.
  cbn [mbind outcome_bind].
  assert (slice (list_bytes (a :: l)) 0 8 = Ret (le_bytes 8 (as_id a))) as Hs by apply (slice_id [] a l).
  rewrite Hs. cbn [mbind outcome_bind]. rewrite or_le by done.
  assert ((if decide (as_id a > 0) then as_id a - 1 else as_id a) = Z.max 0 (as_id a - 1)) as ->
    by (unfold in_width in Ha; case_decide; lia).
  set (left := le_bytes 8 _). assert (len left = 8) as Hleft by apply len_le_bytes. clearbody left.
  assert (chunks (list_bytes (a :: l)) 16 = Ret (assoc_bytes <$> a :: l)) as ->.
  { destruct (chunks_concat (assoc_bytes <$> a :: l) [] 16) as (more & Hc & Hm); [done| |].
    - apply Forall_fmap, Forall_true. apply len_assoc_bytes.
    - injection Hm as <-. by rewrite !app_nil_r in Hc. }
  cbn [mbind outcome_bind]. change (λ '(buf, n), λ id, _) with (keys_turn left).
  pose proof (tc_keys_loop left (a :: l) [] q ltac:(cbn [length]; lia) Hq Hleft) as Hk.
  change (len []) with 0 in Hk. cbn [app] in Hk. rewrite Hk. cbn [mbind outcome_bind].
  f_equal. unfold keys_of. rewrite <- list_fmap_compose. done.
Qed.

(** ** The client *)

Section client.
Context `{Network} `{Workloads}.
Implicit Types k : @TaoSendRecv _ _.

(** What a client keeps, besides its configuration: four keys in its buffer, and
    no stop time before it finished. *)
Record tao_ok k k' : Prop := {
  to_conf : tc_conf k' = tc_conf k;
  to_keys : keys_ok (tc_keys_buff (tc_buffers k)) → keys_ok (tc_keys_buff (tc_buffers k'));
  to_stop : tc_stop (tc_counts k') = tc_stop (tc_counts k);
  to_finished : tc_finished (tc_counts k') = tc_finished (tc_counts k);
}.

#[export] Instance tao_ok_po : PreOrder tao_ok.
Proof.
  split; [by split|]. intros k1 k2 k3 [Hc Hk Hs Hf] [Hc' Hk' Hs' Hf']. split; try congruence. auto.
Qed.

Lemma free_ok {T} (p : Packet T) k k' : tao_ok k k' → tao_ok k (tc_free p k').
Proof. by intros []. Qed.

Lemma latency_ok k k' a t : tao_ok k k' → tao_ok k (tc_latency k' a t).
Proof. unfold tc_latency. destruct (rdtsc _). by intros []. Qed.

Lemma measure_ok k k' a t : tao_ok k k' → tao_ok k (tc_measure k' a t).
Proof. unfold tc_measure. destruct (tc_sampled k'); [apply latency_ok|done]. Qed.

Lemma recvd_ok k k' n : tao_ok k k' → tao_ok k (tc_one_recvd k' n).
Proof. by intros []. Qed.

Lemma less_ok k k' : tao_ok k k' → tao_ok k (tc_one_less k').
Proof. by intros []. Qed.

Hint Resolve free_ok latency_ok measure_ok recvd_ok less_ok : core.

Lemma list_read_ok k h list k' : tc_list_read k h list = Ret k' → tao_ok k k'.
Proof. unfold tc_list_read. intros Hr. inv_outcome. split; try done. cbn. intros Hk. by eapply tc_assoc_keys_ok. Qed.

Lemma recv_native_ok k packet k' : tc_recv_native k packet = Ret k' → tao_ok k k'.
Proof.
  unfold tc_recv_native. assert (tao_ok k k) as Hk by done. intros Hr. inv_outcome.
  destruct a; inv_outcome; eauto.
  - apply free_ok. case_decide; inv_outcome; [eauto|by eapply list_read_ok].
  - apply free_ok, less_ok. done.
  - apply free_ok. repeat case_decide; eauto.
Qed.

Lemma recv_invoke_ok k packet k' : tc_recv_invoke k packet = Ret k' → tao_ok k k'.
Proof.
  unfold tc_recv_invoke. assert (tao_ok k k) as Hk by done. intros Hr. inv_outcome.
  destruct a; inv_outcome; [eauto|]. apply free_ok. destruct (tc_sampled _); inv_outcome; eauto.
Qed.

Lemma burst_ok multi f k k' :
  (∀ k packet k', f k packet = Ret k' → tao_ok k k') → tc_burst multi f k = Ret k' → tao_ok k k'.
Proof.
  intros Hf. unfold tc_burst. destruct (recv_res _ _) as [[[rc net] [packets|]]| |];
    cbn [mbind outcome_bind]; [|by intros [= <-]|done..].
  set (k0 := mkTaoSendRecv _ _ _ _ _ _). assert (tao_ok k k0) as Hk0 by done. clearbody k0.
  intros Hb. apply (ofold_inv (tao_ok k) _ _ _ _) in Hb; [done| |done].
  intros k1 p k2 Hk1 Hk2. rewrite Hk1. by eapply Hf.
Qed.

Lemma generate_keys c b w curr b' w' :
  tc_generate c b w curr = Ret (b', w') → tc_keys_buff b' = tc_keys_buff b.
Proof.
  unfold tc_generate, tc_sample. destruct (zipf_sample _ _) as [[t td] r1], (zipf_sample _ r1) as [[y kd] r2].
  destruct (gen_u32 r2). intros Hg. repeat case_match; by inv_outcome.
Qed.

Lemma send_loop_ok fuel k k' : while_loop tc_may_send tc_send_one fuel k = Ret k' → tao_ok k k'.
Proof.
  apply (while_loop_inv tc_may_send tc_send_one (tao_ok k)); [|done].
  intros k1 k2 Hk1. unfold tc_send_one. destruct (rdtsc _) as [curr net]. intros Hs. inv_outcome.
  destruct a as [b w]. inv_outcome. rewrite Hk1. split; try done. cbn. by rewrite (generate_keys _ _ _ _ _ _ E).
Qed.

Lemma drop_single_ok k packet k' : tc_drop_single k packet = Ret k' → tao_ok k k'.
Proof.
  unfold tc_drop_single. assert (tao_ok k k) as Hk by done. intros Hr.
  destruct (tc_native _); inv_outcome; [eauto|]. destruct a; inv_outcome; eauto.
Qed.

Lemma drop_multi_ok k packet k' : tc_drop_multi k packet = Ret k' → tao_ok k k'.
Proof. unfold tc_drop_multi. assert (tao_ok k k) as Hk by done. intros Hr. inv_outcome. eauto. Qed.

(** A round keeps the buffer, and either the flag and the stop time or, with
    enough responses, it finishes the client. *)
Lemma tc_recv_ok k k' :
  tc_recv k = Ret k' →
  tc_conf k' = tc_conf k ∧ (keys_ok (tc_keys_buff (tc_buffers k)) → keys_ok (tc_keys_buff (tc_buffers k'))) ∧
  (tc_stop (tc_counts k') = tc_stop (tc_counts k) ∧ tc_finished (tc_counts k') = tc_finished (tc_counts k) ∨
   tc_responses (tc_conf k) <= tc_recvd (tc_counts k') ∧ tc_finished (tc_counts k') = true).
Proof.
  unfold tc_recv. case_decide as Hd.
  - destruct (tc_burst false tc_drop_single k) as [k1| |] eqn:E1; cbn [mbind outcome_bind]; [|done..].
    apply burst_ok in E1; [|by apply drop_single_ok]. intros Hr.
    assert (tao_ok k k') as [Hc Hk Hs Hf]; [|by split_and!; [done|done|left]].
    destruct (tc_native _); [|by injection Hr as <-]. apply burst_ok in Hr; [by rewrite E1|by apply drop_multi_ok].
  - destruct (tc_burst _ _ k) as [k1| |] eqn:E1; cbn [mbind outcome_bind]; [|done..].
    apply burst_ok in E1; [|by destruct (tc_native _); [apply recv_native_ok|apply recv_invoke_ok]].
    destruct E1 as [Hc Hk Hs Hf]. case_decide as Hr.
    + destruct (rdtsc _) as [now net]. intros [= <-]. split_and!; [done|done|right]. by rewrite <- Hc.
    + intros [= <-]. split_and!; [done|done|by left].
Qed.

Definition tc_rounds (fuel n : nat) k : outcome (@TaoSendRecv _ _) :=
  ofold (λ k _, tc_execute fuel k) k (seq 0 n).

(** What holds of a client after any number of rounds. *)
Record tc_reached (c : TaoConf) k : Prop := {
  tr_conf : tc_conf k = c;
  tr_keys : keys_ok (tc_keys_buff (tc_buffers k));
  tr_stop : tc_finished (tc_counts k) = false → tc_stop (tc_counts k) = 0;
}.

Lemma tc_send_ok fuel k k' :
  tc_send fuel k = Ret k' →
  tc_conf k' = tc_conf k ∧ (keys_ok (tc_keys_buff (tc_buffers k)) → keys_ok (tc_keys_buff (tc_buffers k'))) ∧
  tc_stop (tc_counts k') = tc_stop (tc_counts k) ∧
  (tc_requests (tc_conf k) <= tc_sent (tc_counts k) → tc_finished (tc_counts k') = true).
Proof.
  unfold tc_send. case_decide as Hd; [by intros [= <-]|]. intros [Hc Hk Hs Hf]%send_loop_ok. split_and!; [done..|lia].
Qed.

Lemma tc_execute_reached c fuel k k' : tc_reached c k → tc_execute fuel k = Ret k' → tc_reached c k'.
Proof.
  intros [Hc Hk Hs]. unfold tc_execute. destruct (tc_finished (tc_counts k)) eqn:Hf; [intros [= <-]; by split; rewrite ?Hf|].
  destruct (tc_send fuel k) as [k1| |] eqn:E; cbn [mbind outcome_bind]; [|done..].
  apply tc_send_ok in E as (Hc1 & Hk1 & Hs1 & _). intros (Hc2 & Hk2 & Hs2)%tc_recv_ok.
  split; [congruence|auto|]. intros Hf'. destruct Hs2 as [[-> _]|[_ ?]]; [rewrite Hs1; auto|congruence].
Qed.

Lemma tc_rounds_reached fuel n w random k_dist t_dist native combined reqs assocs resps k :
  let k0 := TaoSendRecv_new w random k_dist t_dist native combined reqs assocs resps in
  tc_rounds fuel n k0 = Ret k → tc_reached (tc_conf k0) k.
Proof.
  intros k0 Hr. apply (ofold_inv (tc_reached (tc_conf k0)) _ _ _ _) in Hr; [done| |].
  - intros k1 i k2 H1 H2. by eapply tc_execute_reached.
  - subst k0. unfold TaoSendRecv_new. destruct (rdtsc _) as [start net]. split; [done| |done].
    exists (replicate 4 (replicate 8 0, replicate 8 0)). split; [by apply Forall_replicate|done].
Qed.

Lemma tc_rounds_finished fuel m k : tc_finished (tc_counts k) = true → tc_rounds fuel m k = Ret k.
Proof.
  intros Hf. unfold tc_rounds. generalize 0%nat. induction m as [|m IH]; intros i; [done|]. cbn [seq ofold].
  assert (tc_execute fuel k = Ret k) as -> by (unfold tc_execute; by rewrite Hf). apply IH.
Qed.

(** the TAO client does not wait for its last responses.  After any number
    of rounds, a client that is not finished has no stop time; in the round that
    finds all requests sent, it finishes whatever is still outstanding, no later
    round does anything, and unless all responses arrived by the end of that
    round its stop time is still zero. *)
Theorem tao_client_stops_early fuel n w random k_dist t_dist native combined reqs assocs resps k k' :
  tc_rounds fuel n (TaoSendRecv_new w random k_dist t_dist native combined reqs assocs resps) = Ret k →
  tc_finished (tc_counts k) = false → reqs <= tc_sent (tc_counts k) → tc_execute fuel k = Ret k' →
  tc_stop (tc_counts k) = 0 ∧ tc_finished (tc_counts k') = true ∧
  (∀ m, tc_rounds fuel m k' = Ret k') ∧
  (tc_recvd (tc_counts k') < resps → tc_stop (tc_counts k') = 0).
Proof.
  intros [Hc Hk Hs]%tc_rounds_reached Hf Hq He. specialize (Hs Hf). split; [done|].
  unfold tc_execute in He. rewrite Hf in He.
  destruct (tc_send fuel k) as [k1| |] eqn:E; cbn [mbind outcome_bind] in He; [|done..].
  apply tc_send_ok in E as (Hc1 & _ & Hs1 & Hf1). apply tc_recv_ok in He as (_ & _ & Hs2).
  assert (tc_requests (tc_conf k) = reqs ∧ tc_responses (tc_conf k) = resps) as [Hrq Hrs].
  { rewrite Hc. unfold TaoSendRecv_new. by destruct (rdtsc _). }
  rewrite Hrq in Hf1. specialize (Hf1 Hq). rewrite Hc1, Hrs in Hs2.
  assert (tc_finished (tc_counts k') = true) as Hf' by (destruct Hs2 as [[_ ->]|[_ ->]]; done).
  split_and!; [done|intros m; by apply tc_rounds_finished|]. intros Hlt. destruct Hs2 as [[-> _]|[? _]]; [congruence|lia].
Qed.

(** C20: the TAO client builds the keys that the extension builds, except for two
    objects.  Of the graph that [fill_tao] loads with [num] objects, let the
    client read the list of object [i] natively, after any number of rounds.
    Then it asks for the associations of the same four neighbours that the
    extension asks for, from the object before the first neighbour: that is
    object [i] unless [i] is one of the last two, whose neighbours start over
    from the beginning, where it is object 0, which has no associations. *)
Theorem tao_client_keys fuel n w random k_dist t_dist native combined reqs assocs resps k num i ver h :
  tc_rounds fuel n (TaoSendRecv_new w random k_dist t_dist native combined reqs assocs resps) = Ret k →
  in_width 32 (num + 1) → 1 ≤ i ≤ num →
  let list := list_bytes (tao_list num i) in
  let payload := list_payload ver (counter 10 i) (tao_list num i) in
  let left := if decide (i < num - 1) then i else 0 in
  let keys := concat (assoc_key (counter 8 left) [0; 0] <$> tao_list num i) in
  ¬ (len payload < 67) ∧
  tc_list_read k h payload =
    (w ← send_multiget (tc_link k) (res_tenant h) 2 18 4 keys (res_stamp h);
     Ret (mkTaoSendRecv (tc_conf k) (tc_with_keys (tc_buffers k) keys) w (tc_receiver k) (tc_multi_rx k)
            (tc_counts k))) ∧
  ∃ ext, (∀ id2, len id2 = 8 → assoc_keys (counter 8 i) [0; 0] id2 list = Ret ext) ∧
    (keys = ext ↔ i < num - 1).
Proof.
  intros [_ Hk _]%tc_rounds_reached Hn Hi. cbv zeta. set (left := if decide _ then i else 0).
  assert (1 ≤ num) as Hn1 by lia.
  assert (Z.max 0 (neighbour num i 1 - 1) = left) as Hleft.
  { unfold neighbour. rewrite wadd_id by (unfold in_width in *; lia). subst left. case_decide.
    - rewrite Z.mod_small by lia. lia.
    - destruct (decide (i = num - 1)) as [->|]; [by replace (num - 1 + 1) with num by lia; rewrite Z.mod_same by lia|].
      replace i with num by lia. destruct (decide (num = 1)) as [->|]; [done|].
      replace (num + 1) with (1 + 1 * num) by lia. rewrite Z.mod_add, Z.mod_small by lia. lia. }
  assert (in_width 32 left) as Hlw by (subst left; unfold in_width in *; case_decide; lia).
  assert (le_bytes 8 left = counter 8 left) as Hlc by by apply le_bytes_counter.
  set (a := mkAssociation (neighbour num i 1) 0).
  set (l := (λ x, mkAssociation (neighbour num i x) 0) <$> [2; 3; 4]).
  change (tao_list num i) with (a :: l).
  assert (in_width 64 (as_id a)) as Ha.
  { pose proof (neighbour_range num Hn1 i 1). unfold in_width in *. cbn [as_id a]. lia. }
  split_and!.
  - unfold list_payload. rewrite !len_app, len_le_bytes, len_counter, len_list_bytes by lia. by vm_compute.
  - unfold tc_list_read. rewrite (tc_assoc_keys_spec _ _ _ a l) by (done || by rewrite len_counter by lia).
    cbn [mbind outcome_bind]. cbn [as_id a]. by rewrite Hleft, Hlc.
  - eexists. split; [intros id2 H2; by apply assoc_keys_spec|].
    subst left. case_decide as Hd; [done|]. split; [|lia]. cbn [fmap list_fmap concat]. unfold assoc_key.
    rewrite <- !(assoc_L (++)). intros He. exfalso.
    assert (counter 8 0 = counter 8 i) as H0i by (apply app_inj_1 in He as [He _]; [done|done]).
    apply counter_inj in H0i; [lia|done|unfold in_width in *; lia].
Qed.
End client.

(** ** Witnesses *)

Definition ex_tao_client : @TaoSendRecv clock_net test_workloads :=
  @TaoSendRecv_new clock_net test_workloads clock_link 0 tt tt true false 32 50 100.

(** The first round fills the window with all requests; the second finishes. *)
Definition ex_tao_sent : @TaoSendRecv clock_net test_workloads :=
  ret_or ex_tao_client (@tc_rounds clock_net test_workloads 32 1 ex_tao_client).

Definition ex_tao_finished : @TaoSendRecv clock_net test_workloads :=
  ret_or ex_tao_client (@tc_execute clock_net test_workloads 32 ex_tao_sent).

Lemma tao_client_stops_early_witness :
  tc_outstanding (tc_counts ex_tao_finished) = 32 ∧ tc_recvd (tc_counts ex_tao_finished) = 0 ∧
  tc_stop (tc_counts ex_tao_sent) = 0 ∧ tc_finished (tc_counts ex_tao_finished) = true ∧
  (∀ m, @tc_rounds clock_net test_workloads 32 m ex_tao_finished = Ret ex_tao_finished) ∧
  (tc_recvd (tc_counts ex_tao_finished) < 100 → tc_stop (tc_counts ex_tao_finished) = 0).
Proof.
  split; [by vm_compute|]. split; [by vm_compute|].
  refine (@tao_client_stops_early clock_net test_workloads 32 1 clock_link 0 tt tt true false 32 50 100
            ex_tao_sent ex_tao_finished _ _ _ _).
  - refine (returns_ret ex_tao_client (@tc_rounds clock_net test_workloads 32 1 ex_tao_client) _). by vm_compute.
  - by vm_compute.
  - apply (bool_decide_unpack _). vm_compute. exact I.
  - refine (returns_ret ex_tao_client (@tc_execute clock_net test_workloads 32 ex_tao_sent) _). by vm_compute.
Defined.

Lemma tao_client_keys_witness :
  let h := RpcResponseHeader_new 95 SandstormGetRpc 7 in
  let keys := concat (assoc_key (counter 8 5) [0; 0] <$> tao_list 1000 5) in
  let k := ex_tao_client in
  ¬ (len (list_payload 3 (counter 10 5) (tao_list 1000 5)) < 67) ∧
  @tc_list_read clock_net test_workloads k h (list_payload 3 (counter 10 5) (tao_list 1000 5)) =
    (w ← @send_multiget clock_net (tc_link k) (res_tenant h) 2 18 4 keys (res_stamp h);
     Ret (mkTaoSendRecv (tc_conf k) (tc_with_keys (tc_buffers k) keys) w
            (tc_receiver k) (tc_multi_rx k) (tc_counts k))) ∧
  ∃ ext, (∀ id2, len id2 = 8 → assoc_keys (counter 8 5) [0; 0] id2 (list_bytes (tao_list 1000 5)) = Ret ext) ∧
    (keys = ext ↔ 5 < 1000 - 1).
Proof.
  intros h keys k. assert ((if decide (5 < 1000 - 1) then 5 else 0) = 5) as E by reflexivity.
  pose proof (@tao_client_keys clock_net test_workloads 32 0 clock_link 0 tt tt true false 32 50 100
                k 1000 5 3 h ltac:(reflexivity) ltac:(by split) ltac:(lia)) as Ht.
  cbv zeta in Ht. rewrite E in Ht. exact Ht.
Defined.
