(* ===== verification/AggrClient.v ===== *)
(** * AggrClient: the aggregation client

    Models splinter/src/bin/client/aggregate.rs: reads a list of keys and then
    the values under these keys, natively, or invokes the extension aggregate,
    which the server may push back to it.  What is only printed is left out. *)

From stdpp Require Import strings.
From S2P Require Import Prelude Bits Packed Headers Packet Wire Rpc Alloc Tx HandlerSpecs.
From S2P Require Import CommitSpecs Bufs Context ContextSpecs Ext Task Dispatch DispatchSpecs.
From S2P Require Import Proxy Client DB Programs ExtSpecs Float Kayak KayakSpecs.
From S2P Require Import Loaders LoadersSpecs LoadSpecs.

Definition AGGR_RECORD_SIZE : Z := 139.

Section aggr_client.
Context `{Network} `{Loader} `{Workloads} {G : Type}.

Record AggregateConf := mkAggregateConf {
  ag_native : bool;
  ag_requests : Z;
  ag_start : Z;
  ag_responses : Z;
  ag_num : Z;
  ag_ord : Z;
}.

Record AggregateSendRecv := mkAggregateSendRecv {
  ag_conf : AggregateConf;
  ag_random : Rng;
  ag_k_dist : Zipf;
  ag_t_dist : Zipf;
  ag_sent : Z;
  ag_link : Link;
  ag_n_buff : bytes;
  ag_i_buff : bytes;
  ag_receiver : Receiver;
  ag_recvd : Z;
  ag_latencies : list Z;
  ag_outstanding : Z;
  ag_manager : @TaskManager _ G;
}.

(** The payload of the invocation. *)
Definition ag_payload (key_len num ord : Z) : bytes :=
  resize (str "aggregate" ++ le_bytes 8 1 ++ le_bytes 4 num ++ le_bytes 4 ord)
    (len (str "aggregate") + 8 + 4 + 4 + key_len).

Definition AggregateSendRecv_new (w : Link) (extensions : ExtensionManager) (random : Rng)
    (k_dist t_dist : Zipf) (use_invoke : bool) (key_len reqs num ord resps : Z) : AggregateSendRecv :=
  let (start, net) := rdtsc w.2 in
  mkAggregateSendRecv (mkAggregateConf (negb use_invoke) reqs start resps num ord) random k_dist t_dist
    0 (w.1, net) (replicate (Z.to_nat key_len) 0) (ag_payload key_len num ord) Receiver_new 0 [] 0
    (TaskManager_new extensions).

(** *** Parts of the state *)

Definition ag_with_link (k : AggregateSendRecv) (w : Link) : AggregateSendRecv :=
  mkAggregateSendRecv (ag_conf k) (ag_random k) (ag_k_dist k) (ag_t_dist k) (ag_sent k) w (ag_n_buff k)
    (ag_i_buff k) (ag_receiver k) (ag_recvd k) (ag_latencies k) (ag_outstanding k) (ag_manager k).

Definition ag_with_manager (k : AggregateSendRecv) (m : TaskManager) : AggregateSendRecv :=
  mkAggregateSendRecv (ag_conf k) (ag_random k) (ag_k_dist k) (ag_t_dist k) (ag_sent k) (ag_link k)
    (ag_n_buff k) (ag_i_buff k) (ag_receiver k) (ag_recvd k) (ag_latencies k) (ag_outstanding k) m.

Definition ag_with_counts (k : AggregateSendRecv) (sent recvd : Z) (latencies : list Z)
    (outstanding : Z) : AggregateSendRecv :=
  mkAggregateSendRecv (ag_conf k) (ag_random k) (ag_k_dist k) (ag_t_dist k) sent (ag_link k)
    (ag_n_buff k) (ag_i_buff k) (ag_receiver k) recvd latencies outstanding (ag_manager k).

Definition ag_with_buffs (k : AggregateSendRecv) (w : Link) (n i : bytes) (m : TaskManager) :
    AggregateSendRecv :=
  mkAggregateSendRecv (ag_conf k) (ag_random k) (ag_k_dist k) (ag_t_dist k) (ag_sent k) w n i
    (ag_receiver k) (ag_recvd k) (ag_latencies k) (ag_outstanding k) m.

(** *** Sending *)

Definition ag_sample (k : AggregateSendRecv) : AggregateSendRecv * (Z * bytes) :=
  let '(t, t_dist, random) := zipf_sample (ag_t_dist k) (ag_random k) in
  let '(key, k_dist, random) := zipf_sample (ag_k_dist k) random in
  (mkAggregateSendRecv (ag_conf k) random k_dist t_dist (ag_sent k) (ag_link k) (ag_n_buff k)
     (ag_i_buff k) (ag_receiver k) (ag_recvd k) (ag_latencies k) (ag_outstanding k) (ag_manager k),
   (wrap 32 t, le_bytes 4 (wrap 32 key))).

Definition ag_generate (k : AggregateSendRecv) (curr : Z) : outcome AggregateSendRecv :=
  let '(k, (t, key)) := ag_sample k in
  if ag_native (ag_conf k) then
    n ← copy_from_slice (ag_n_buff k) 0 4 key;
    w ← send_get (ag_link k) t 1 n curr;
    Ret (ag_with_buffs k w n (ag_i_buff k) (ag_manager k))
  else
    i ← copy_from_slice (ag_i_buff k) 25 29 key;
    m ← create_task (ag_manager k) curr i t 9;
    w ← send_invoke (ag_link k) t 9 i curr;
    Ret (ag_with_buffs k w (ag_n_buff k) i m).

Definition ag_may_send (k : AggregateSendRecv) : bool :=
  bool_decide (ag_outstanding k < 32) && bool_decide (get_queue_len (ag_manager k) < 32).

Definition ag_send_one (k : AggregateSendRecv) : outcome AggregateSendRecv :=
  let (curr, net) := rdtsc (ag_link k).2 in
  k ← ag_generate (ag_with_link k ((ag_link k).1, net)) curr;
  Ret (ag_with_counts k (ag_sent k +u64 1) (ag_recvd k) (ag_latencies k) (ag_outstanding k +u64 1)).

Definition ag_send (fuel : nat) (k : AggregateSendRecv) : outcome AggregateSendRecv :=
  if decide (ag_requests (ag_conf k) <= ag_sent k) then Ret k
  else while_loop ag_may_send ag_send_one fuel k.

(** *** Receiving *)

(** The first byte of every whole row of a hundred bytes, added up; then the sum
    is squared [ord - 1] times. *)
Fixpoint ag_column (rows : list bytes) : outcome bytes :=
  match rows with
  | [] => Ret []
  | row :: rows =>
      if decide (len row ≠ 100) then Ret []
      else b ← index row 0; cols ← ag_column rows; Ret (b :: cols)
  end.

Definition ag_aggregate (ord init : Z) (vec : bytes) : outcome Z :=
  rows ← chunks vec 100;
  cols ← ag_column rows;
  Ret (Nat.iter (Z.to_nat (ord - 1)) (λ a, wmul 64 a a) (foldl (wadd 64) init cols)).

(** The elements that the statistics look up. *)
Definition ag_measurements (k : AggregateSendRecv) : outcome AggregateSendRecv :=
  let (stop, net) := rdtsc (ag_link k).2 in
  let sorted := merge_sort Z.le (ag_latencies k) in
  _ ← index sorted (len sorted / 2);
  _ ← index sorted (len sorted * 99 / 100);
  Ret (ag_with_counts (ag_with_link k ((ag_link k).1, net)) (ag_sent k) (ag_recvd k) sorted
         (ag_outstanding k)).

Definition ag_free {T} (p : Packet T) (k : AggregateSendRecv) : AggregateSendRecv :=
  ag_with_link k ((ag_link k).1, mbuf_free (mbuf p) (ag_link k).2).

Definition ag_latency (k : AggregateSendRecv) (stamp : Z) : AggregateSendRecv :=
  let (now, net) := rdtsc (ag_link k).2 in
  ag_with_counts (ag_with_link k ((ag_link k).1, net)) (ag_sent k) (ag_recvd k)
    (ag_latencies k ++ [now -u64 stamp]) (ag_outstanding k).

Definition ag_one_less (k : AggregateSendRecv) : AggregateSendRecv :=
  ag_with_counts k (ag_sent k) (ag_recvd k) (ag_latencies k) (ag_outstanding k -u64 1).

Definition ag_one_recvd (k : AggregateSendRecv) : AggregateSendRecv :=
  ag_with_counts k (ag_sent k) (ag_recvd k +u64 1) (ag_latencies k) (ag_outstanding k).

(** The records of a pushed-back invocation: the list of keys, and the rest. *)
Definition ag_pushback (m : @TaskManager _ G) (timestamp : Z) (records : bytes) :
    outcome (@TaskManager _ G) :=
  '(key, record) ← split_at records 369;
  m ← update_rwset m timestamp key 369 8;
  update_rwset m timestamp record AGGR_RECORD_SIZE 30.

Definition ag_recv_commit (k : AggregateSendRecv) (packet : Packet UdpHeader) : outcome AggregateSendRecv :=
  p ← parse_header CommitResponse packet;
  h ← get_header p;
  let h := commitres_common h in
  let k := if decide (status h = RpcStatus_u8 StatusTxAbort) then k
           else if decide (status h = RpcStatus_u8 StatusOk) then ag_latency k (res_stamp h)
           else k in
  Ret (ag_free p (ag_one_recvd k)).

Definition ag_recv_native (k : AggregateSendRecv) (opcode : OpCode) (packet : Packet UdpHeader) :
    outcome AggregateSendRecv :=
  match opcode with
  | SandstormGetRpc =>
      p ← parse_header GetResponse packet;
      h ← get_header p;
      let h := getres_common h in
      pl ← get_payload p;
      '(_, keys) ← split_at pl 17;
      w ← send_multiget (ag_link k) (res_tenant h) 1 30 (ag_num (ag_conf k)) keys (res_stamp h);
      Ret (ag_free p (ag_with_link k w))
  | SandstormMultiGetRpc =>
      p ← parse_header MultiGetResponse packet;
      pl ← get_payload p;
      _ ← ag_aggregate (ag_ord (ag_conf k)) 0 pl;
      h ← get_header p;
      let h := mgetres_common h in
      w ← send_commit (ag_link k) (res_tenant h) 1 pl (res_stamp h) 30 100;
      Ret (ag_free p (ag_one_less (ag_with_link k w)))
  | _ => Ret (ag_free packet k)
  end.

Definition ag_recv_invoke (k : AggregateSendRecv) (opcode : OpCode) (packet : Packet UdpHeader) :
    outcome AggregateSendRecv :=
  match opcode with
  | SandstormInvokeRpc =>
      p ← parse_header InvokeResponse packet;
      h ← get_header p;
      let h := invokeres_common h in
      k ← (if decide (status h = RpcStatus_u8 StatusOk) then
             let k := ag_one_less (ag_one_recvd k) in
             let k := if decide (Z.land (ag_recvd k) 15 = 0) then ag_latency k (res_stamp h) else k in
             Ret (ag_with_manager k (delete_task (ag_manager k) (res_stamp h)))
           else if decide (status h = RpcStatus_u8 StatusPushback) then
             records ← get_payload p;
             m ← ag_pushback (ag_manager k) (res_stamp h) records;
             Ret (ag_one_less (ag_with_manager k m))
           else Ret k);
      Ret (ag_free p k)
  | _ => Ret (ag_free packet k)
  end.

Definition ag_recv_packet (k : AggregateSendRecv) (packet : Packet UdpHeader) : outcome AggregateSendRecv :=
  opcode ← parse_rpc_opcode packet;
  match opcode with
  | SandstormCommitRpc => ag_recv_commit k packet
  | _ => if ag_native (ag_conf k) then ag_recv_native k opcode packet else ag_recv_invoke k opcode packet
  end.

Definition ag_recv (k : AggregateSendRecv) : outcome AggregateSendRecv :=
  if decide (ag_responses (ag_conf k) <= ag_recvd k) then Ret k
  else
    '(rc, net, packets) ← recv_res (ag_receiver k) (ag_link k).2;
    let k := mkAggregateSendRecv (ag_conf k) (ag_random k) (ag_k_dist k) (ag_t_dist k) (ag_sent k)
               ((ag_link k).1, net) (ag_n_buff k) (ag_i_buff k) rc (ag_recvd k) (ag_latencies k)
               (ag_outstanding k) (ag_manager k) in
    k ← match packets with
        | Some packets => ofold ag_recv_packet k (rev packets)
        | None => Ret k
        end;
    if decide (ag_responses (ag_conf k) <= ag_recvd k) then ag_measurements k else Ret k.

Context (ext_gen : Extension → ProxyDB → G) (resume : Link → ProxyDB → G → ClientStep Link G).

Definition ag_execute (fuel : nat) (k : AggregateSendRecv) : outcome AggregateSendRecv :=
  k ← ag_send fuel k;
  k ← ag_recv k;
  let (start, net) := rdtsc (ag_link k).2 in
  let (stop, net) := rdtsc net in
  '(w, m, _) ← execute_task ext_gen resume ((ag_link k).1, net) (ag_manager k) start stop;
  Ret (ag_with_manager (ag_with_link k w) m).
End aggr_client.

(** * What the client does *)

(** The request of the client, for lists of twelve keys. *)
Definition aggr_request (ord : Z) (key : bytes) : bytes :=
  str "aggregate" ++ le_bytes 8 1 ++ le_bytes 4 12 ++ le_bytes 4 ord ++ key.

(** The record of the list of keys, and what is left of it when it is cut at the
    client's constant, which has no room for the version. *)
Definition list_record (ver : Z) (key list : bytes) : RwRecord := mkRwRecord SandstormRead ver key list.

Section pushback.
Context `{BytesCrate} `{Network} `{Loader} (tsc : nat → Z).

Lemma list_record_cut ver key list rest :
  len key = 8 → len list = 360 →
  split_at (encode_record (list_record ver key list) ++ rest) 369 =
    Ret (encode_record (list_record ver key (take 352 list)), drop 352 list ++ rest).
Proof.
  intros Hk Hl.
  assert (encode_record (list_record ver key list) ++ rest =
    encode_record (list_record ver key (take 352 list)) ++ (drop 352 list ++ rest)) as ->.
  { unfold encode_record. cbn [list_record rec_optype rec_version rec_key rec_object app].
    rewrite <- !(assoc_L (++)). do 3 f_equal. by rewrite (assoc_L (++)), take_drop. }
  apply split_at_app. unfold encode_record. cbn [list_record rec_optype rec_version rec_key rec_object].
  change (?x :: ?l) with ([x] ++ l). rewrite !len_app, len_le_bytes, Hk. change (len [_]) with 1.
  unfold len in *. rewrite length_take. lia.
Qed.

#[local] Instance aggr_db : DB ClientDB := client_db tsc.

(** The extension finds the truncated list in the cache and cannot split it. *)
Lemma aggr_start_panics ord key p w n ver value :
  len key = 8 → in_width 32 ord → proxy_args p = Ret (le_bytes 8 1 ++ le_bytes 4 12 ++ le_bytes 4 ord ++ key) →
  p_readset p = [mkKV ver key value] → len value = 352 →
  ∃ d, aggr_start (mkClientDB w p n) = (d, Panic) ∧ cd_link d = w ∧
    same_context p (cd_proxy d) ∧ p_readset (cd_proxy d) = p_readset p ∧
    p_writeset (cd_proxy d) = p_writeset p ∧ p_commit_payload (cd_proxy d) = p_commit_payload p.
Proof.
  intros Hk Ho Ha Hr Hv. unfold aggr_start.
  assert (db_args (mkClientDB w p n) = (mkClientDB w p n, Ret (le_bytes 8 1 ++ le_bytes 4 12 ++ le_bytes 4 ord ++ key)))
    as Hargs by by (cbn; rewrite Ha).
  estep Hargs.
  assert (split_at (le_bytes 8 1 ++ le_bytes 4 12 ++ le_bytes 4 ord ++ key) 8 =
    Ret (le_bytes 8 1, le_bytes 4 12 ++ le_bytes 4 ord ++ key)) as E1 by by apply split_at_app.
  lstep.
  assert (split_at (le_bytes 4 12 ++ le_bytes 4 ord ++ key) 4 = Ret (le_bytes 4 12, le_bytes 4 ord ++ key))
    as E2 by by apply split_at_app.
  lstep.
  assert (split_at (le_bytes 4 ord ++ key) 4 = Ret (le_bytes 4 ord, key)) as E3
    by (apply split_at_app; by rewrite len_le_bytes).
  lstep. unfold GET1.
  assert (search_cache (p_readset p) key = 0) as Hs.
  { rewrite Hr. unfold search_cache. cbn [search_cache_from kv_key]. by rewrite decide_True. }
  assert (∀ table, db_search_get table key (mkClientDB w p n) =
    (mkClientDB w (proxy_earn p (tsc n) (tsc (S n))) (S (S n)),
     Ret (false, true, Some (mkReadBuf value)))) as Hget.
  { intros table. cbn. unfold cd_call, search_get_in_cache. cbn [cd_proxy cd_link cd_clock]. rewrite Hs.
    cbn. unfold read_at. by rewrite Hr. }
  assert (split_at value (KEYLENGTH * or_bytes 0 0 (le_bytes 4 12)) = Panic) as E4.
  { change (KEYLENGTH * or_bytes 0 0 (le_bytes 4 12)) with 360. unfold split_at. by rewrite decide_False by lia. }
  eexists. split.
  - rewrite ebind_assoc, (ebind _ _ _ _ _ (Hget _)). cbn beta iota. unfold mbind, ext_bind, mret, ext_ret, lift. cbn beta iota.
    change (rb_read (mkReadBuf value)) with value. by rewrite E4.
  - by split_and!.
Qed.

(** C19: an aggregation that is pushed back is not computed.  A record that the
    server ships is its type, the version, the key and the value; the client
    cuts the list of twelve keys off after 369 bytes, which leaves the version
    out of account, and hands in the records of the values when the task is no
    longer waiting.  So the task becomes ready with the first 352 bytes of the
    list as its only record; resumed with them, the extension panics, and the
    client completes the task and commits the truncated read. *)
Theorem pushed_back_aggregate_fails tenant ts ord key ver list rest m k w start stop :
  let args := le_bytes 8 1 ++ le_bytes 4 12 ++ le_bytes 4 ord ++ key in
  let cut := list_record ver key (take 352 list) in
  len key = 8 → len list = 360 → in_width 32 ord → in_width 64 ver → is_bytes key → is_bytes list →
  tm_waiting m !! ts = Some k → tm_ready m = [] → cl_state k = INITIALIZED →
  cl_db k = ProxyDB_new tenant ts (str "aggregate" ++ args) 9 →
  ∃ k' t, ag_pushback m ts (encode_record (list_record ver key list) ++ rest) =
      Ret (mkTaskManager (tm_extensions m) [k'] (delete ts (tm_waiting m))) ∧
    p_readset (cl_db k') = [kv_of cut] ∧ p_writeset (cl_db k') = [] ∧
    (ext_aggregate AggrInit (mkClientDB w (cl_db k') 0)).2 = Panic ∧
    execute_task (λ _ _, AggrInit) (client_resume ext_aggregate) w
        (mkTaskManager (tm_extensions m) [k'] (delete ts (tm_waiting m))) start stop =
      (w ← send_commit w tenant 1 (encode_record cut) ts 8 352;
       Ret (w, mkTaskManager (tm_extensions m) [] (delete ts (tm_waiting m)), (COMPLETED, t))).
Proof.
  intros args cut Hk Hl Ho Hver Hkb Hlb Hm Hready Hst Hdb.
  assert (len (take 352 list) = 352) as H352 by (unfold len in *; rewrite length_take; lia).
  assert (record_wire 8 352 cut) as Hwire by (split; try done; by apply Forall_take).
  destruct (update_cache_encode 8 352 [] (cl_db k) cut) as (p & Hu & [Hpay Hr Hw] & Hctx & _);
    [by rewrite Hdb|done|done|].
  change (p_readset p = [kv_of cut]) in Hr. change (p_writeset p = []) in Hw.
  assert (p_commit_payload p = encode_record cut) as Hpay' by (rewrite Hpay; apply app_nil_r).
  set (k' := cli_with k (cl_state k) (cl_db_time k) p (cl_gen k)).
  assert (cli_update_cache k (encode_record cut) 8 = Ret k') as Hk' by by (unfold cli_update_cache; rewrite Hu).
  destruct Hctx as (Ht & Hid & Hreq & Hoff). rewrite Hdb in Ht, Hid, Hreq, Hoff.
  cbn [ProxyDB_new p_tenant p_parent_id p_req p_args_offset] in Ht, Hid, Hreq, Hoff.
  assert (proxy_args p = Ret args) as Hargs.
  { unfold proxy_args. rewrite Hreq, Hoff. by rewrite split_at_app. }
  destruct (aggr_start_panics ord key p w 0 (le_bytes 8 ver) (take 352 list)) as (d & Hd & Hdw & Hctx' & Hdr & Hdws & Hdp);
    [done..|].
  exists k', (cl_time k +u64 (stop -u64 start)).
  assert (ext_aggregate AggrInit (mkClientDB w p 0) = (d, Panic)) as Hext by exact Hd.
  destruct Hctx' as (Ht' & Hid' & Hreq' & Hoff').
  assert (cli_run (λ _ _, AggrInit) (client_resume ext_aggregate) w k' start stop =
    (w, mkCliContainer COMPLETED (cl_priority k) (cl_time k +u64 (stop -u64 start)) (cl_db_time k)
          (cd_proxy d) (cl_ext k) (Some AggrInit) (cl_id k), (COMPLETED, stop -u64 start))) as Hrun.
  { unfold cli_run. change (cl_state k') with (cl_state k). rewrite Hst, decide_True by done.
    cbn [cli_with cl_state cl_db]. change (cl_db k') with p.
    unfold client_resume. rewrite Hext, Hdw. done. }
  assert (proxy_commit w (cd_proxy d) = send_commit w tenant 1 (encode_record cut) ts 8 352) as Hcommit.
  { rewrite (commit_lengths 8 352 (mkTX [cut] []) w (cd_proxy d) (le_bytes 8 1)
      (le_bytes 4 12 ++ le_bytes 4 ord ++ key)); [|exact (Forall_cons_2 _ _ _ Hwire (Forall_nil_2 _))|lia|lia|done| |done|apply le_bytes_is_bytes
      |by rewrite Hdr|by rewrite Hdws].
    - by rewrite Ht', Hid', Ht, Hid, Hdp, Hpay'.
    - unfold proxy_args in *. by rewrite Hreq', Hoff'. }
  split_and!; [|done|done|by (change (cl_db k') with p; rewrite Hext)|].
  - unfold ag_pushback. rewrite (list_record_cut ver key list rest Hk Hl). cbn [mbind outcome_bind].
    assert (len (encode_record cut) = 369) as H369.
    { unfold encode_record. cbn [cut list_record rec_optype rec_version rec_key rec_object].
      change (?x :: ?l) with ([x] ++ l). rewrite !len_app, len_le_bytes, Hk, H352. done. }
    assert (update_rwset m ts (encode_record cut) 369 8 =
      Ret (mkTaskManager (tm_extensions m) [k'] (delete ts (tm_waiting m)))) as Hup.
    { unfold update_rwset. rewrite Hm, chunks_short by (rewrite H369; lia). cbn [mbind outcome_bind ofold].
      rewrite Hk'. cbn [mbind outcome_bind]. by rewrite Hready. }
    fold cut. rewrite Hup. cbn [mbind outcome_bind]. unfold update_rwset. cbn [tm_waiting]. by rewrite lookup_delete_eq.
  - unfold execute_task. cbn [tm_ready tm_extensions tm_waiting]. rewrite Hrun, decide_True by done.
    unfold cli_tear. cbn [cl_db]. rewrite Hcommit.
    by destruct (send_commit _ _ _ _ _ _ _).
Qed.
End pushback.

(** ** Witness *)

(** A client that invoked the aggregation of object 3's list, and an extension
    manager without extensions. *)
Definition ex_aggr_list : bytes := concat (replicate 12 (counter 30 5)).

Definition ex_aggr_args : bytes := le_bytes 8 1 ++ le_bytes 4 12 ++ le_bytes 4 1 ++ counter 8 3.

Definition ex_aggr_container : @CliContainer any_loader AggregateGen :=
  @mkCliContainer any_loader AggregateGen INITIALIZED REQUEST 0 0
    (ProxyDB_new 7 95 (str "aggregate" ++ ex_aggr_args) 9) [1; 2] None 95.

Definition ex_aggr_manager : @TaskManager any_loader AggregateGen :=
  @mkTaskManager any_loader AggregateGen (@ExtensionManager_new any_loader) [] {[95 := ex_aggr_container]}.

Lemma pushed_back_aggregate_fails_witness :
  let db := @client_db exact_bytes test_net (λ _, 0) in
  let cut := list_record 4 (counter 8 3) (take 352 ex_aggr_list) in
  ∃ k' t, @ag_pushback any_loader AggregateGen ex_aggr_manager 95
      (encode_record (list_record 4 (counter 8 3) ex_aggr_list) ++ [1; 2; 3]) =
      Ret (mkTaskManager (tm_extensions ex_aggr_manager) [k'] (delete 95 (tm_waiting ex_aggr_manager))) ∧
    p_readset (cl_db k') = [kv_of cut] ∧ p_writeset (cl_db k') = [] ∧
    (@ext_aggregate exact_bytes _ db AggrInit (mkClientDB ex_link (cl_db k') 0)).2 = Panic ∧
    @execute_task test_net any_loader AggregateGen (λ _ _, AggrInit)
        (@client_resume test_net AggregateGen (@ext_aggregate exact_bytes _ db)) ex_link
        (mkTaskManager (tm_extensions ex_aggr_manager) [k'] (delete 95 (tm_waiting ex_aggr_manager))) 3 5 =
      (w ← @send_commit test_net ex_link 7 1 (encode_record cut) 95 8 352;
       Ret (w, mkTaskManager (tm_extensions ex_aggr_manager) [] (delete 95 (tm_waiting ex_aggr_manager)),
         (COMPLETED, t))).
Proof.
  intros db cut.
  apply (@pushed_back_aggregate_fails exact_bytes test_net any_loader (λ _, 0) 7 95 1 (counter 8 3) 4
    ex_aggr_list [1; 2; 3] ex_aggr_manager ex_aggr_container ex_link 3 5); try reflexivity; try by split.
  - by apply counter_is_bytes.
  - apply Forall_concat, Forall_replicate. apply counter_is_bytes.
Defined.
