(* ===== verification/Reorder.v ===== *)
(** * Reorder: NetBricks' buffer for data that arrives out of order

    Models net/framework/src/state/reordered_buffer/reordered_buffer.rs, over
    the ring buffer of [Ring]: sequence numbers of 32 bits, and a doubly linked
    list of the segments that arrived, threaded through a vector by index, with
    -1 for no segment and freed nodes on a stack.  The argument [fuel] bounds
    the turns of each loop over the list. *)

From stdpp Require Import strings.
From S2P Require Import Prelude Ring Mpsc.

(** ** Segments *)

Record Segment := mkSegment {
  seg_prev : Z;
  seg_seq : Z;
  seg_length : Z;
  seg_next : Z;
  seg_idx : Z;
}.

Definition Segment_new (idx seq length : Z) : Segment := mkSegment (-1) seq length (-1) idx.

Record SegmentList := mkSegmentList {
  sl_storage : list Segment;
  sl_available : list Z;
  sl_head : Z;
  sl_tail : Z;
}.

Definition SegmentList_new (length : Z) : SegmentList :=
  mkSegmentList ((λ i, Segment_new i 0 0) <$> seqZ 0 length) (seqZ 0 length) (-1) (-1).

(** [storage[idx as usize]]: the index -1 is far out of range. *)
Definition seg_at (l : SegmentList) (idx : Z) : outcome Segment := index (sl_storage l) idx.

Definition seg_update (l : SegmentList) (idx : Z) (f : Segment → Segment) : outcome SegmentList :=
  s ← seg_at l idx;
  storage ← set_index (sl_storage l) idx (f s);
  Ret (mkSegmentList storage (sl_available l) (sl_head l) (sl_tail l)).

Definition set_prev (x : Z) (s : Segment) : Segment :=
  mkSegment x (seg_seq s) (seg_length s) (seg_next s) (seg_idx s).
Definition set_seq (x : Z) (s : Segment) : Segment :=
  mkSegment (seg_prev s) x (seg_length s) (seg_next s) (seg_idx s).
Definition set_length (x : Z) (s : Segment) : Segment :=
  mkSegment (seg_prev s) (seg_seq s) x (seg_next s) (seg_idx s).
Definition set_next (x : Z) (s : Segment) : Segment :=
  mkSegment (seg_prev s) (seg_seq s) (seg_length s) x (seg_idx s).

Definition set_head (l : SegmentList) (x : Z) : SegmentList :=
  mkSegmentList (sl_storage l) (sl_available l) x (sl_tail l).
Definition set_tail (l : SegmentList) (x : Z) : SegmentList :=
  mkSegmentList (sl_storage l) (sl_available l) (sl_head l) x.

Definition remove_node (l : SegmentList) (node : Z) : outcome SegmentList :=
  l ← seg_update l node (set_length 0);
  Ret (mkSegmentList (sl_storage l) (sl_available l ++ [node]) (sl_head l) (sl_tail l)).

Definition find_available_node (l : SegmentList) : SegmentList * Z :=
  match last (sl_available l) with
  | Some nidx =>
      (mkSegmentList (sl_storage l) (take (length (sl_available l) - 1) (sl_available l))
         (sl_head l) (sl_tail l), nidx)
  | None =>
      let idx := len (sl_storage l) in
      (mkSegmentList (sl_storage l ++ [Segment_new idx 0 0]) (sl_available l) (sl_head l) (sl_tail l),
       idx)
  end.

Definition insert_before_node (l : SegmentList) (next seq len : Z) : outcome (SegmentList * Z) :=
  let (l, idx) := find_available_node l in
  l ← seg_update l idx (λ s, set_next next (set_length len (set_seq seq s)));
  l ← (if decide (next ≠ -1) then
         n ← seg_at l next;
         let prev := seg_prev n in
         l ← seg_update l idx (set_prev prev);
         l ← seg_update l next (set_prev idx);
         if decide (prev ≠ -1) then seg_update l prev (set_next idx) else Ret (set_head l idx)
       else seg_update l idx (set_prev (-1)));
  Ret (l, idx).

Definition insert_after_node (l : SegmentList) (prev seq len : Z) : outcome (SegmentList * Z) :=
  let (l, idx) := find_available_node l in
  l ← seg_update l idx (λ s, set_prev prev (set_length len (set_seq seq s)));
  p ← seg_at l prev;
  l ← seg_update l idx (set_next (seg_next p));
  l ← seg_update l prev (set_next idx);
  s ← seg_at l idx;
  Ret (if decide (seg_next s = -1) then set_tail l idx else l, idx).

Definition insert_at_tail (l : SegmentList) (seq len : Z) : outcome (SegmentList * Z) :=
  let (l, idx) := find_available_node l in
  l ← seg_update l idx (λ s, set_prev (sl_tail l) (set_next (-1) (set_length len (set_seq seq s))));
  l ← seg_update l (sl_tail l) (set_next idx);
  Ret (set_tail l idx, idx).

Definition U16_MAX : Z := 65535.

(** The loop of [merge_at_idx]: [next] is its variable.  When the next segment
    does not overlap, a turn changes nothing. *)
Fixpoint merge_loop (fuel : nat) (l : SegmentList) (idx next : Z) : outcome SegmentList :=
  if decide (next = -1) then Ret l
  else
    match fuel with
    | O => Undef
    | S fuel =>
        s ← seg_at l idx;
        n ← seg_at l next;
        let end_ := seg_seq s +u32 seg_length s in
        if decide (end_ >= seg_seq n) then
          let merge_len := seg_length n -u64 (end_ -u32 seg_seq n) in
          let new_len := merge_len +u64 seg_length s in
          if decide (new_len <= U16_MAX) then
            l ← seg_update l idx (set_length (wrap 16 new_len));
            let to_free := next in
            t ← seg_at l to_free;
            let next := seg_next t in
            l ← seg_update l idx (set_next next);
            l ← (if decide (next ≠ -1) then seg_update l next (set_prev idx) else Ret l);
            l ← remove_node l to_free;
            merge_loop fuel l idx next
          else
            let max_len := wsub 16 U16_MAX (seg_length s) in
            l ← seg_update l idx (λ s, set_length (wadd 16 (seg_length s) max_len) s);
            l ← seg_update l next (λ n, set_length (wsub 16 (seg_length n) max_len) n);
            seg_update l next (λ n, set_seq (seg_seq n +u32 max_len) n)
        else merge_loop fuel l idx next
    end.

Definition merge_at_idx (fuel : nat) (l : SegmentList) (idx : Z) : outcome SegmentList :=
  s ← seg_at l idx;
  merge_loop fuel l idx (seg_next s).

(** The loop of [insert_segment]: where the segment went, or -1. *)
Fixpoint insert_loop (fuel : nat) (l : SegmentList) (idx seq len : Z) : outcome (SegmentList * Z) :=
  if decide (idx = -1) then Ret (l, idx)
  else
    match fuel with
    | O => Undef
    | S fuel =>
        s ← seg_at l idx;
        let end_ := seq +u32 len in
        let seg_end := seg_seq s +u32 seg_length s in
        if decide (seg_end = seq) then
          let new_len := seg_length s + len in
          if decide (new_len <= U16_MAX) then
            l ← seg_update l idx (set_length (wrap 16 new_len)); Ret (l, idx)
          else
            let max_len := wsub 16 U16_MAX (seg_length s) in
            l ← seg_update l idx (λ s, set_length (wadd 16 (seg_length s) max_len) s);
            '(l, _) ← insert_after_node l idx (seq +u32 max_len) (wsub 16 len max_len);
            Ret (l, idx)
        else if decide (seg_seq s >= end_) then insert_before_node l idx seq len
        else if decide (seg_seq s <= seq) then
          l ← seg_update l idx (λ s, set_length (wrap 16 (Z.max seg_end end_ -u32 seg_seq s)) s);
          Ret (l, idx)
        else insert_loop fuel l (seg_next s) seq len
    end.

(** It always returns a segment. *)
Definition insert_segment (fuel : nat) (l : SegmentList) (seq len : Z) : outcome (SegmentList * Z) :=
  if decide (sl_head l = -1) then
    '(l, idx) ← insert_before_node l (-1) seq len;
    Ret (set_tail (set_head l idx) idx, idx)
  else
    '(l, idx) ← insert_loop fuel l (sl_head l) seq len;
    if decide (idx = -1) then insert_at_tail l seq len
    else l ← merge_at_idx fuel l idx; Ret (l, idx).

Definition is_head (l : SegmentList) (seg : Z) : bool := bool_decide (sl_head l = seg).

Definition remove_head (l : SegmentList) : outcome SegmentList :=
  let head := sl_head l in
  s ← seg_at l head;
  remove_node (set_head l (seg_next s)) head.

Definition consume_head_data (fuel : nat) (l : SegmentList) (seq consumed : Z) :
    outcome (SegmentList * bool) :=
  let idx := sl_head l in
  s ← seg_at l idx;
  if decide (seg_seq s ≠ seq) then Ret (l, false)
  else
    let consume := consumed `min` seg_length s in
    l ← seg_update l idx (λ s, set_length (wsub 16 (seg_length s) consume)
                                 (set_seq (seg_seq s +u32 consume) s));
    s ← seg_at l idx;
    l ← (if decide (seg_length s = 0) then remove_head l else merge_at_idx fuel l idx);
    Ret (l, bool_decide (consume = consumed)).

Fixpoint clear_loop (fuel : nat) (l : SegmentList) (idx : Z) : outcome SegmentList :=
  if decide (idx = -1) then Ret l
  else
    match fuel with
    | O => Undef
    | S fuel =>
        s ← seg_at l idx;
        l ← remove_node l idx;
        clear_loop fuel l (seg_next s)
    end.

Definition sl_clear (fuel : nat) (l : SegmentList) : outcome SegmentList :=
  l ← clear_loop fuel l (sl_head l);
  Ret (set_tail (set_head l (-1)) (-1)).

Definition one_segment (l : SegmentList) : outcome bool :=
  if decide (sl_head l = -1) then Ret true
  else s ← seg_at l (sl_head l); Ret (bool_decide (seg_next s = -1)).

(** ** The buffer *)

(** Bytes written and available. *)
Inductive InsertionResult :=
| Inserted (written available : Z)
| OutOfMemory (written available : Z).

Inductive ReorderState := Closed | Connected | ConnectedOutOfOrder.

Record ReorderedBuffer := mkReorderedBuffer {
  rb_data : RingBuffer;
  rb_segments : SegmentList;
  rb_buffer_size : Z;
  rb_state : ReorderState;
  rb_head_seq : Z;
  rb_tail_seq : Z;
}.

Definition rb_available (b : ReorderedBuffer) : Z := available (rb_data b).

(** [None] is an error. *)
Definition new_with_segments (buffer_size segment_size : Z) : option ReorderedBuffer :=
  let rounded_bytes := round_to_power_of_2 buffer_size in
  ring_buffer ← RingBuffer_new rounded_bytes;
  Some (mkReorderedBuffer ring_buffer (SegmentList_new segment_size) rounded_bytes Closed 0 0).

Definition ReorderedBuffer_new (buffer_size : Z) : option ReorderedBuffer :=
  new_with_segments buffer_size (buffer_size / 64).

Definition rb_with_data (b : ReorderedBuffer) (r : RingBuffer) (tail_seq : Z) : ReorderedBuffer :=
  mkReorderedBuffer r (rb_segments b) (rb_buffer_size b) (rb_state b) (rb_head_seq b) tail_seq.

Definition rb_with_segments (b : ReorderedBuffer) (l : SegmentList) : ReorderedBuffer :=
  mkReorderedBuffer (rb_data b) l (rb_buffer_size b) (rb_state b) (rb_head_seq b) (rb_tail_seq b).

Definition rb_with_state (b : ReorderedBuffer) (st : ReorderState) : ReorderedBuffer :=
  mkReorderedBuffer (rb_data b) (rb_segments b) (rb_buffer_size b) st (rb_head_seq b) (rb_tail_seq b).

Definition rb_reset (fuel : nat) (b : ReorderedBuffer) : outcome ReorderedBuffer :=
  l ← sl_clear fuel (rb_segments b);
  Ret (mkReorderedBuffer (ring_clear (rb_data b)) l (rb_buffer_size b) Closed (rb_head_seq b)
         (rb_tail_seq b)).

Definition insertion (b : ReorderedBuffer) (written : Z) (data : bytes) : InsertionResult :=
  if decide (written = len data) then Inserted written (rb_available b)
  else OutOfMemory written (rb_available b).

Definition fast_path_insert (b : ReorderedBuffer) (data : bytes) :
    outcome (ReorderedBuffer * InsertionResult) :=
  '(r, written) ← write_at_tail (rb_data b) data;
  let b := rb_with_data b r (rb_tail_seq b +u32 wrap 32 written) in
  Ret (b, insertion b written data).

Definition rb_seq (b : ReorderedBuffer) (seq : Z) (data : bytes) :
    outcome (ReorderedBuffer * InsertionResult) :=
  match rb_state b with
  | Closed =>
      fast_path_insert (mkReorderedBuffer (rb_data b) (rb_segments b) (rb_buffer_size b) Connected
                          seq seq) data
  | _ => Panic
  end.

(** The loop of [add_head_to_seg_list]. *)
Fixpoint add_head_loop (fuel : nat) (l : SegmentList) (seq to_insert : Z) : outcome SegmentList :=
  if decide (to_insert > 0) then
    match fuel with
    | O => Undef
    | S fuel' =>
        let insert := U16_MAX `min` to_insert in
        '(l, _) ← insert_segment fuel l seq insert;
        add_head_loop fuel' l (seq +u32 insert) (to_insert - insert)
    end
  else Ret l.

Definition add_head_to_seg_list (fuel : nat) (b : ReorderedBuffer) : outcome ReorderedBuffer :=
  l ← add_head_loop fuel (rb_segments b) (rb_head_seq b) (available (rb_data b));
  Ret (rb_with_segments b l).

(** [out_of_order_insert] with data for the tail. *)
Definition insert_tail_data (fuel : nat) (b : ReorderedBuffer) (data : bytes) :
    outcome (ReorderedBuffer * InsertionResult) :=
  let seq := rb_tail_seq b in
  '(r, written) ← write_at_tail (rb_data b) data;
  let tail_seq := seq +u32 wrap 32 written in
  '(l, segment) ← insert_segment fuel (rb_segments b) seq (wrap 16 written);
  _ ← assert_ (is_head l segment = true);
  seg ← seg_at l segment;
  let seg_end := seg_seq seg +u32 seg_length seg in
  let incr := seg_end -u32 tail_seq in
  let written := if decide (wrap 32 written < incr) then incr else written in
  let b := rb_with_segments (rb_with_data b (seek_tail r incr) seg_end) l in
  one ← one_segment l;
  b ← (if one : bool then
         l ← sl_clear fuel l;
         Ret (rb_with_state (rb_with_segments b l) Connected)
       else Ret b);
  Ret (b, Inserted written (rb_available b)).

Definition out_of_order_insert (fuel : nat) (b : ReorderedBuffer) (seq : Z) (data : bytes) :
    outcome (ReorderedBuffer * InsertionResult) :=
  if decide (rb_tail_seq b = seq) then insert_tail_data fuel b data
  else if decide (rb_tail_seq b >= seq) then
    let offset := rb_tail_seq b -u32 seq in
    if decide (len data > offset) then
      data ← slice data offset (len data);
      insert_tail_data fuel b data
    else Ret (b, Inserted 0 (rb_available b))
  else
    let offset := seq -u32 rb_tail_seq b in
    '(r, written) ← write_at_offset_from_tail (rb_data b) offset data;
    '(l, _) ← insert_segment fuel (rb_segments b) seq (wrap 16 written);
    let b := rb_with_segments (rb_with_data b r (rb_tail_seq b)) l in
    Ret (b, insertion b written data).

Definition slow_path_insert (fuel : nat) (b : ReorderedBuffer) (seq : Z) (data : bytes) :
    outcome (ReorderedBuffer * InsertionResult) :=
  let end_ := seq +u32 wrap 32 (len data) in
  if decide (rb_tail_seq b > seq ∧ end_ > rb_tail_seq b) then
    let begin := rb_tail_seq b -u32 seq in
    data ← slice data begin (len data);
    fast_path_insert b data
  else if decide (end_ < rb_tail_seq b) then Ret (b, Inserted 0 (rb_available b))
  else
    b ← add_head_to_seg_list fuel (rb_with_state b ConnectedOutOfOrder);
    out_of_order_insert fuel b seq data.

Definition add_data (fuel : nat) (b : ReorderedBuffer) (seq : Z) (data : bytes) :
    outcome (ReorderedBuffer * InsertionResult) :=
  match rb_state b with
  | Connected =>
      if decide (seq = rb_tail_seq b) then fast_path_insert b data
      else slow_path_insert fuel b seq data
  | ConnectedOutOfOrder => out_of_order_insert fuel b seq data
  | Closed => Panic
  end.

(** The bytes read, and the buffer that they are read into. *)
Definition read_data_common (b : ReorderedBuffer) (data : bytes) :
    outcome (ReorderedBuffer * (Z * bytes)) :=
  '(r, (read, data)) ← read_from_head (rb_data b) data;
  Ret (mkReorderedBuffer r (rb_segments b) (rb_buffer_size b) (rb_state b)
         (rb_head_seq b +u32 wrap 32 read) (rb_tail_seq b), (read, data)).

Definition read_data (fuel : nat) (b : ReorderedBuffer) (data : bytes) :
    outcome (ReorderedBuffer * (Z * bytes)) :=
  match rb_state b with
  | Connected => read_data_common b data
  | ConnectedOutOfOrder =>
      let seq := rb_head_seq b in
      '(b, (read, data)) ← read_data_common b data;
      '(l, _) ← consume_head_data fuel (rb_segments b) seq (wrap 16 read);
      Ret (rb_with_segments b l, (read, data))
  | Closed => Ret (b, (0, data))
  end.

Definition is_established (b : ReorderedBuffer) : bool :=
  match rb_state b with Closed => false | _ => true end.
