(* ===== verification/ReorderSpecs.v ===== *)
(** * ReorderSpecs: what the buffer for out-of-order data delivers *)

From stdpp Require Import strings.
From S2P Require Import Prelude DB Ring Mpsc Reorder.

(** ** The unit tests of the source, in a small buffer *)

Definition test_buffer : ReorderedBuffer := default (mkReorderedBuffer (mkRingBuffer 0 0 0 0 [])
  (SegmentList_new 0) 0 Closed 0 0) (ReorderedBuffer_new 64).

Example test_in_order_insertion :
  ('(b, r0) ← rb_seq test_buffer 1232 (str "food");
   '(b, r1) ← add_data 9 b 1236 (str ": hamburger");
   '(b, (n, data)) ← read_data 9 b (replicate 16 0);
   Ret (r0, r1, n, data)) = Ret (Inserted 4 4, Inserted 11 15, 15, str "food: hamburger" ++ [0]).
Proof. by vm_compute. Qed.

Example test_out_of_order_insertion :
  ('(b, _) ← rb_seq test_buffer 1232 (str "food");
   '(b, r2) ← add_data 9 b 1247 (str " american");
   '(b, r1) ← add_data 9 b 1236 (str ": hamburger");
   '(b, (n, data)) ← read_data 9 b (replicate 24 0);
   '(b, r3) ← add_data 9 b 1226 [0; 1; 2];
   Ret (r2, r1, data, r3)) =
  Ret (Inserted 9 4, Inserted 11 24, str "food: hamburger american", Inserted 0 0).
Proof. by vm_compute. Qed.

Example test_overlapping_write :
  ('(b, _) ← rb_seq test_buffer 289 (str "hello wo");
   '(b, r1) ← add_data 9 b 294 (str " world");
   '(b, (n, data)) ← read_data 9 b (replicate 11 0);
   '(b, r2) ← add_data 9 b 289 (str "hello wo");
   Ret (r1, data, r2)) = Ret (Inserted 3 11, str "hello world", Inserted 0 0).
Proof. by vm_compute. Qed.

(** ** In-order data *)

Lemma fresh_buffer k :
  1 ≤ k ≤ 31 → ∃ b, ReorderedBuffer_new (2 ^ k) = Some b ∧ ring_wf (rb_data b) ∧
    content (rb_data b) = [] ∧ ring_mask (rb_data b) = 2 ^ k - 1 ∧ rb_state b = Closed ∧
    rb_segments b = SegmentList_new (2 ^ k / 64) ∧ ring_vec (rb_data b) = replicate (Z.to_nat (2 ^ k)) 0.
Proof.
  intros Hk. unfold ReorderedBuffer_new, new_with_segments.
  assert (2 ^ 1 ≤ 2 ^ k ≤ 2 ^ 63) as Hb by (split; apply Z.pow_le_mono_r; lia).
  assert (round_to_power_of_2 (2 ^ k) = 2 ^ k) as ->.
  { destruct (round_to_power_of_2_spec (2 ^ k)) as [-> _]; [lia|]. by rewrite Z.log2_up_pow2 by lia. }
  destruct (RingBuffer_new_spec k) as (r & Hr & Hwf & Hc & Hm); [lia|]. rewrite Hr.
  eexists. split; [done|]. split_and!; try done. cbn [rb_data].
  unfold RingBuffer_new in Hr. case_decide; [done|]. by injection Hr as <-.
Qed.

(** How much of a stream that starts at number [s] was received.  The numbers are
    of 32 bits, and wrap around. *)
Definition rb_received (s : Z) (b : ReorderedBuffer) : Z := rb_tail_seq b -u32 s.

(** How often the numbers have wrapped around. *)
Definition lap (x : Z) : Z := x / 2 ^ 32.

(** A piece that leaves no gap: it starts where the data received ends, or before
    and does not end there, in which case the numbers do not wrap around between its
    start and its end, or the end of what was received. *)
Definition no_gap (s : Z) (b : ReorderedBuffer) (i n : nat) : Prop :=
  let r := rb_received s b in
  Z.of_nat i = r ∨
  (Z.of_nat i < r ∧ Z.of_nat (i + n) ≠ r ∧ lap (s + Z.of_nat i) = lap (s + Z.of_nat (i + n) `max` r)).

(** A buffer that is fed the stream [S], which starts at number [s], without
    gaps, and what was read from it. *)
Inductive fed (k : Z) (fuel : nat) (s : Z) (S : bytes) : ReorderedBuffer → bytes → Prop :=
| fed_seq b0 n b r :
    ReorderedBuffer_new (2 ^ k) = Some b0 → rb_seq b0 s (take n S) = Ret (b, r) → fed k fuel s S b []
| fed_add b out i n b' r :
    fed k fuel s S b out → no_gap s b i n → (i + n ≤ length S)%nat →
    add_data fuel b (wrap 32 (s + Z.of_nat i)) (take n (drop i S)) = Ret (b', r) → fed k fuel s S b' out
| fed_read b out buf b' n data :
    fed k fuel s S b out → read_data fuel b buf = Ret (b', (n, data)) →
    fed k fuel s S b' (out ++ take (Z.to_nat n) data).

Lemma received_at s b x : 0 ≤ x < 2 ^ 32 → rb_tail_seq b = wrap 32 (s + x) → rb_received s b = x.
Proof.
  intros Hx Ht. unfold rb_received, wsub, wrap in *. rewrite Ht, Zminus_mod_idemp_l.
  replace (s + x - s) with x by lia. by apply Z.mod_small.
Qed.

Lemma wrap_lap a b x : a ≤ x ≤ b → lap a = lap b → wrap 32 x = x - 2 ^ 32 * lap a.
Proof.
  intros Hx Hl. unfold lap, wrap in *.
  pose proof (Z.div_le_mono a x (2 ^ 32) ltac:(lia) ltac:(lia)).
  pose proof (Z.div_le_mono x b (2 ^ 32) ltac:(lia) ltac:(lia)).
  assert (a / 2 ^ 32 = x / 2 ^ 32) as -> by lia. rewrite Z.mod_eq by lia. done.
Qed.

Section in_order.
Context (k : Z) (fuel : nat) (s : Z) (S : bytes) (Hk : 1 ≤ k ≤ 31) (Hs : 0 ≤ s < 2 ^ 32) (HS : len S < 2 ^ 32).

(** What a buffer that was fed the stream holds. *)
Record stream_ok (b : ReorderedBuffer) (out : bytes) : Prop := {
  so_wf : ring_wf (rb_data b);
  so_mask : ring_mask (rb_data b) = 2 ^ k - 1;
  so_state : rb_state b = Connected;
  so_list : sl_head (rb_segments b) = -1;
  so_received : 0 ≤ rb_received s b ≤ len S;
  so_tail : rb_tail_seq b = wrap 32 (s + rb_received s b);
  so_stream : out ++ content (rb_data b) = take (Z.to_nat (rb_received s b)) S;
}.

(** Data for the tail: as much as fits is taken. *)
Lemma fast_path_ok b out n :
  stream_ok b out → (Z.to_nat (rb_received s b) + n ≤ length S)%nat →
  ∃ b' r, fast_path_insert b (take n (drop (Z.to_nat (rb_received s b)) S)) = Ret (b', r) ∧
    stream_ok b' out.
Proof.
  intros [Hwf Hm Hst Hl Hr Htl Ho] Hn. unfold fast_path_insert.
  set (p := Z.to_nat (rb_received s b)) in *.
  set (d := take n (drop p S)).
  assert (len d = Z.of_nat n) as Hd by (unfold d, len; rewrite length_take, length_drop; lia).
  destruct (write_at_tail_spec (rb_data b) Hwf d) as (r & -> & Hwf' & Hm' & Hc). cbn [mbind outcome_bind].
  pose proof (available_range _ Hwf) as Hav. rewrite <- len_content in Hav by done.
  set (w := len d `min` _) in *.
  assert (0 ≤ w ≤ Z.of_nat n) as Hw by (unfold w; lia).
  set (b' := rb_with_data b r _). assert (rb_tail_seq b' = wrap 32 (s + (rb_received s b + w))) as Ht.
  { cbn. rewrite Htl at 1. unfold wadd, wrap. rewrite <- Zplus_mod. f_equal. lia. }
  assert (rb_received s b' = rb_received s b + w) as Hrec.
  { apply received_at; [|done]. unfold p, len in *. lia. }
  exists b'. eexists. split; [done|].
  split; cbn [b' rb_data rb_with_data rb_state rb_segments]; try done; [congruence| |by rewrite Hrec|].
  - rewrite Hrec. unfold p, len in *. lia.
  - rewrite Hc, (assoc_L (++)), Ho, Hrec.
    replace (Z.to_nat (rb_received s b + w)) with (p + Z.to_nat w)%nat by lia.
    unfold d. rewrite take_take. replace (Z.to_nat w `min` n)%nat with (Z.to_nat w) by lia.
    apply take_take_drop.
Qed.

Lemma add_ok b out i n :
  stream_ok b out → no_gap s b i n → (i + n ≤ length S)%nat →
  ∃ b' r, add_data fuel b (wrap 32 (s + Z.of_nat i)) (take n (drop i S)) = Ret (b', r) ∧ stream_ok b' out.
Proof.
  intros Hb Hi Hl. pose proof Hb as [Hwf Hm Hst Hh Hr Htl Ho]. unfold add_data. rewrite Hst.
  assert (len (take n (drop i S)) = Z.of_nat n) as Hd by (unfold len; rewrite length_take, length_drop; lia).
  destruct Hi as [Hi|(Hi & Hn & Hlap)].
  { rewrite decide_True by by rewrite Hi. replace i with (Z.to_nat (rb_received s b)) in * by lia.
    by apply fast_path_ok. }
  set (q := 2 ^ 32 * lap (s + Z.of_nat i)).
  assert (∀ x, Z.of_nat i ≤ x ≤ Z.of_nat (i + n) `max` rb_received s b → wrap 32 (s + x) = s + x - q) as Hq.
  { intros x Hx. eapply wrap_lap; [|exact Hlap]. lia. }
  assert (rb_tail_seq b = s + rb_received s b - q) as Ht by (rewrite Htl; apply Hq; lia).
  assert (0 ≤ rb_tail_seq b < 2 ^ 32) as Hw by (rewrite Htl; apply Z.mod_pos_bound; lia).
  assert (wrap 32 (s + Z.of_nat i) = s + Z.of_nat i - q) as -> by (apply Hq; lia).
  rewrite decide_False by lia. unfold slow_path_insert. rewrite Hd.
  assert (s + Z.of_nat i - q +u32 wrap 32 (Z.of_nat n) = s + Z.of_nat (i + n) - q) as ->.
  { rewrite <- (Hq (Z.of_nat (i + n))) by lia. unfold wadd, wrap. rewrite Zplus_mod_idemp_r.
    replace (s + Z.of_nat (i + n)) with (s + Z.of_nat i - q + Z.of_nat n + lap (s + Z.of_nat i) * 2 ^ 32)
      by (unfold q; lia). by rewrite Z_mod_plus_full. }
  assert (0 ≤ s + Z.of_nat i - q) as Hpos by (rewrite <- Hq by lia; apply Z.mod_pos_bound; lia).
  case_decide as Hov.
  - rewrite wsub_id by (unfold in_width; lia).
    replace (rb_tail_seq b - (s + Z.of_nat i - q)) with (rb_received s b - Z.of_nat i) by lia.
    set (p := rb_received s b - Z.of_nat i) in *.
    assert (slice (take n (drop i S)) p (Z.of_nat n) =
      Ret (take (n - Z.to_nat p) (drop (Z.to_nat (rb_received s b)) S))) as ->.
    { rewrite <- Hd. rewrite slice_to_end by (rewrite Hd; unfold p; lia). f_equal.
      rewrite skipn_firstn_comm, drop_drop. unfold p in *. do 2 f_equal; lia. }
    cbn [mbind outcome_bind]. apply fast_path_ok; [done|]. unfold p, len in *. lia.
  - case_decide as Hp; [|lia]. by eexists _, _.
Qed.

Lemma read_ok b out buf :
  stream_ok b out →
  ∃ b' n data, read_data fuel b buf = Ret (b', (n, data)) ∧ n = len (content (rb_data b)) `min` len buf ∧
    stream_ok b' (out ++ take (Z.to_nat n) data).
Proof.
  intros [Hwf Hm Hst Hh Hr Htl Ho]. unfold read_data, read_data_common, read_from_head. rewrite Hst.
  destruct (read_spec (rb_data b) Hwf buf (len buf) (len_nonneg buf)) as (r & -> & Hwf' & Hm' & Hc).
  pose proof (len_nonneg buf). pose proof (len_nonneg (content (rb_data b))).
  cbn [mbind outcome_bind]. set (n := len (content (rb_data b)) `min` len buf) in *.
  eexists _, _, _. split; [done|]. split; [done|].
  split; cbn [rb_data rb_state rb_segments]; try done; [congruence|].
  rewrite Hc. change (rb_received s _) with (rb_received s b).
  rewrite Z.min_r by (unfold n; lia).
  rewrite take_app_le by (unfold n, len in *; rewrite length_take; lia). rewrite take_take, Nat.min_id.
  by rewrite <- (assoc_L (++)), take_drop.
Qed.

Lemma fed_ok b out : fed k fuel s S b out → stream_ok b out.
Proof.
  induction 1 as [b0 n b r H0 Hr|b out i n b' r _ IH Hi Hl Ha|b out buf b' n data _ IH Hr].
  - destruct (fresh_buffer k Hk) as (b1 & H1 & Hwf & Hc & Hm & Hst & Hsl & _). rewrite H0 in H1. injection H1 as <-.
    unfold rb_seq in Hr. rewrite Hst in Hr.
    set (b1 := mkReorderedBuffer _ _ _ _ _ _) in Hr.
    assert (s = wrap 32 (s + 0)) as Hs0 by by rewrite Z.add_0_r, wrap_id.
    assert (rb_received s b1 = 0) as Hz by by apply received_at.
    assert (stream_ok b1 []) as Hb1.
    { split; try done; [by cbn; rewrite Hsl|rewrite Hz; pose proof (len_nonneg S); lia|by rewrite Hz|].
      rewrite Hz. cbn. by rewrite Hc. }
    destruct (fast_path_ok b1 [] (n `min` length S) Hb1) as (b2 & r2 & Hf & Hb2); [rewrite Hz; cbn; lia|].
    rewrite Hz, drop_0 in Hf. rewrite <- take_take, (take_ge S) in Hf by lia. rewrite Hf in Hr. by injection Hr as <- <-.
  - destruct (add_ok b out i n IH Hi Hl) as (b1 & r1 & Ha' & Hb). rewrite Ha in Ha'. by injection Ha' as <- <-.
  - destruct (read_ok b out buf IH) as (b1 & n1 & d1 & Hr' & _ & Hb). rewrite Hr in Hr'. by injection Hr' as <- <- <-.
Qed.
End in_order.

(** C21: without gaps, the buffer delivers the stream.  Of a stream of less than
    2^32 bytes that starts at any number, what was read and what is left to be read
    are together the stream up to the last position received, however little a full
    buffer takes of a piece.  That holds for pieces that start where the data
    received ends, also when the numbers wrap around, and for pieces that overlap
    with it in any way but two: they may not end exactly where it ends, and the
    numbers may not wrap around from their start to the last number of both.  Every
    further such piece and every read returns, and a read gives as much as is there
    and fits. *)
Theorem reorder_delivers_stream k fuel s S b out :
  1 ≤ k ≤ 31 → 0 ≤ s < 2 ^ 32 → len S < 2 ^ 32 → fed k fuel s S b out →
  out ++ content (rb_data b) = take (Z.to_nat (rb_received s b)) S ∧
  (∀ i n, no_gap s b i n → (i + n ≤ length S)%nat →
    ∃ b' r, add_data fuel b (wrap 32 (s + Z.of_nat i)) (take n (drop i S)) = Ret (b', r)) ∧
  (∀ buf, ∃ b' n data, read_data fuel b buf = Ret (b', (n, data)) ∧
    n = len (content (rb_data b)) `min` len buf).
Proof.
  intros Hk Hs HS Hf. pose proof (fed_ok k fuel s S Hk Hs HS b out Hf) as Hb.
  split; [by apply Hb|]. split.
  - intros i n Hi Hl. destruct (add_ok k fuel s S Hk HS b out i n Hb Hi Hl) as (b' & r & Ha & _). eauto.
  - intros buf. destruct (read_ok k fuel s S Hk b out buf Hb) as (b' & n & data & Hr & Hn & _). eauto 6.
Qed.

(** Across the wrap of the numbers the comparisons go wrong.  With 8 bytes received
    from number 2^32 - 8 on, a repetition of the last four with four new ones is
    taken for data far ahead, of which nothing fits; with 4 received, a repetition of
    these with eight new ones is taken for old data, and answered as if inserted.
    The new bytes are lost either way, until they are sent again. *)
Example reorder_overlap_across_wrap :
  ('(b, _) ← rb_seq test_buffer (2 ^ 32 - 8) (str "stream o");
   '(b, r) ← add_data 9 b (2 ^ 32 - 4) (str "am of by");
   Ret (r, available (rb_data b), rb_state b)) = Ret (OutOfMemory 0 8, 8, ConnectedOutOfOrder) ∧
  ('(b, _) ← rb_seq test_buffer (2 ^ 32 - 8) (str "stre");
   '(b, r) ← add_data 9 b (2 ^ 32 - 8) (str "stream of by");
   Ret (r, available (rb_data b))) = Ret (Inserted 0 4, 4).
Proof. split; by vm_compute. Qed.

(** a repeated segment breaks a buffer that was read empty.  When all that
    was received has been read and the last piece arrives again, the buffer
    answers that nothing was written and turns to its list of segments, which is
    empty: the next read, of any size, panics. *)
Theorem reorder_duplicate_panics k fuel s S b out n :
  1 ≤ k ≤ 31 → 0 ≤ s → s + len S < 2 ^ 32 → fed k fuel s S b out →
  content (rb_data b) = [] → (0 < n)%nat → Z.of_nat n ≤ rb_received s b →
  let i := (Z.to_nat (rb_received s b) - n)%nat in
  ∃ b', add_data fuel b (s + Z.of_nat i) (take n (drop i S)) = Ret (b', Inserted 0 0) ∧
    ∀ buf, read_data fuel b' buf = Panic.
Proof.
  intros Hk Hs HS Hf Hc Hn Hrn i. pose proof (len_nonneg S).
  pose proof (fed_ok k fuel s S Hk ltac:(lia) ltac:(lia) b out Hf) as [Hwf Hm Hst Hh Hr Htl Ho].
  rewrite wrap_id in Htl by (unfold in_width; lia).
  assert (available (rb_data b) = 0) as Hav by (rewrite <- len_content by done; by rewrite Hc).
  assert (len (take n (drop i S)) = Z.of_nat n) as Hd
    by (unfold i, len in *; rewrite length_take, length_drop; lia).
  assert (s + Z.of_nat i = rb_tail_seq b - Z.of_nat n) as Hseq by (unfold i; lia).
  assert (0 ≤ rb_tail_seq b - Z.of_nat n ∧ rb_tail_seq b < 2 ^ 32) as Hw by lia.
  exists (rb_with_state b ConnectedOutOfOrder). split.
  - unfold add_data. rewrite Hst, decide_False by lia. unfold slow_path_insert. rewrite Hd, Hseq.
    rewrite (wrap_id 32) by (unfold in_width; lia). rewrite wadd_id by (unfold in_width; lia).
    rewrite Z.sub_add, !decide_False by lia.
    unfold add_head_to_seg_list. cbn [rb_with_state rb_data rb_segments rb_head_seq]. rewrite Hav.
    assert (∀ seq, add_head_loop fuel (rb_segments b) seq 0 = Ret (rb_segments b)) as Hl by by destruct fuel.
    rewrite Hl. cbn [mbind outcome_bind]. unfold out_of_order_insert.
    cbn [rb_with_segments rb_with_state rb_tail_seq rb_data]. rewrite decide_False, decide_True by lia.
    rewrite Hd, wsub_id by (unfold in_width; lia). rewrite decide_False by lia.
    change (rb_available _) with (available (rb_data b)). by rewrite Hav.
  - intros buf. unfold read_data. cbn [rb_with_state rb_state]. unfold read_data_common, read_from_head.
    cbn [rb_with_state rb_data]. destruct (read_spec (rb_data b) Hwf buf (len buf) (len_nonneg buf)) as (r & -> & _).
    cbn [mbind outcome_bind]. unfold consume_head_data, seg_at.
    change (sl_head (rb_segments _)) with (sl_head (rb_segments b)). by rewrite Hh.
Qed.

(** ** Gaps *)

(** The cells from the head on. *)
Definition tape (r : RingBuffer) (i : Z) : Z := ring_at r (ring_head r + i).

(** Writing [d] at a distance from the tail. *)
Lemma tape_written r off d :
  ring_wf r → 0 ≤ off → available r + off + len d ≤ ring_mask r →
  ∃ vec, wrapped_write r (Z.land (ring_tail r +u64 off) (ring_mask r)) d = Ret (with_vec r vec, len d) ∧
    ring_wf (with_vec r vec) ∧
    ∀ i, 0 ≤ i < ring_size r → tape (with_vec r vec) i =
      if decide (available r + off ≤ i < available r + off + len d) then vec_at d (i - (available r + off))
      else tape r i.
Proof.
  intros Hr Hoff Hd. destruct (write_behind_tail r Hr off d Hoff Hd) as (vec & He & Hwf & Hkept & Hnew).
  exists vec. split; [done|]. split; [done|]. intros i Hi. unfold tape. cbn [with_vec ring_head].
  destruct (decide (i < available r + off)).
  - rewrite decide_False by lia. apply Hkept. lia.
  - specialize (Hnew (i - (available r + off))).
    replace (ring_head r + available r + off + (i - (available r + off))) with (ring_head r + i) in Hnew by lia.
    rewrite Hnew by lia. repeat case_decide; (done || lia).
Qed.

Lemma write_at_tail_tape r d :
  ring_wf r → available r + len d ≤ ring_mask r →
  ∃ r', write_at_tail r d = Ret (r', len d) ∧ ring_wf r' ∧ ring_mask r' = ring_mask r ∧ ring_size r' = ring_size r ∧
    available r' = available r + len d ∧
    ∀ i, 0 ≤ i < ring_size r → tape r' i =
      if decide (available r ≤ i < available r + len d) then vec_at d (i - available r) else tape r i.
Proof.
  intros Hr Hd. pose proof (len_nonneg d). destruct (tape_written r 0 d Hr) as (vec & He & Hwf & Ht); [lia..|].
  rewrite write_at_tail_eq by done. rewrite Z.min_l, take_all, He by lia. cbn [mbind outcome_bind].
  destruct (seek_tail_wf (with_vec r vec) Hwf (len d)) as [Hwf' Hav];
    [lia|change (available r + len d ≤ ring_mask r); lia|].
  exists (seek_tail (with_vec r vec) (len d)). split; [done|]. split_and!; [done..|].
  intros i Hi. change (tape (seek_tail (with_vec r vec) (len d)) i) with (tape (with_vec r vec) i).
  rewrite Ht by done. by rewrite Z.add_0_r.
Qed.

Lemma write_at_offset_tape r off d :
  ring_wf r → 0 ≤ off → available r + off + len d ≤ ring_mask r →
  ∃ r', write_at_offset_from_tail r off d = Ret (r', len d) ∧ ring_wf r' ∧ ring_mask r' = ring_mask r ∧
    ring_size r' = ring_size r ∧ available r' = available r ∧
    ∀ i, 0 ≤ i < ring_size r → tape r' i =
      if decide (available r + off ≤ i < available r + off + len d) then vec_at d (i - (available r + off))
      else tape r i.
Proof.
  intros Hr Hoff Hd. pose proof (len_nonneg d). pose proof (available_range r Hr).
  destruct (tape_written r off d Hr Hoff Hd) as (vec & He & Hwf & Ht).
  exists (with_vec r vec). split; [|by split_and!]. unfold write_at_offset_from_tail.
  pose proof (free_behind r Hr 0 ltac:(lia) ltac:(lia)) as Hf. rewrite tail_0 in Hf by done. rewrite Hf.
  rewrite decide_False by lia. rewrite (free_behind r Hr off) by lia. rewrite Z.min_l by lia.
  rewrite slice_ok by lia. cbn [mbind outcome_bind]. by rewrite drop_0, take_all by lia.
Qed.

Lemma content_tape r l :
  ring_wf r → available r = len l → (∀ i, 0 ≤ i < len l → tape r i = vec_at l i) → content r = l.
Proof. intros Hr Ha Ht. unfold content. rewrite Ha. apply window_cells_of. intros i Hi. by apply Ht. Qed.

Lemma vec_at_app l1 l2 i :
  0 ≤ i → vec_at (l1 ++ l2) i = if decide (i < len l1) then vec_at l1 i else vec_at l2 (i - len l1).
Proof.
  intros Hi. unfold vec_at, len. case_decide.
  - by rewrite lookup_app_l by lia.
  - rewrite lookup_app_r by lia. do 2 f_equal. lia.
Qed.

Lemma vec_at_zeros n i : vec_at (replicate n 0) i = 0.
Proof.
  unfold vec_at. destruct (replicate n 0 !! Z.to_nat i) eqn:E; [|done].
  by apply lookup_replicate in E as [-> _].
Qed.

Lemma vec_at_drop n l i : 0 ≤ i → vec_at (drop n l) i = vec_at l (Z.of_nat n + i).
Proof. intros Hi. unfold vec_at. rewrite lookup_drop. do 2 f_equal. lia. Qed.

(** *** A list of one segment *)

Lemma seg_at_range l i s : seg_at l i = Ret s → 0 ≤ i < len (sl_storage l).
Proof.
  unfold seg_at, index. case_decide; [|done]. destruct (sl_storage l !! Z.to_nat i) eqn:E; [|done].
  apply lookup_lt_Some in E. unfold len. lia.
Qed.

Lemma seg_update_spec l i s f :
  seg_at l i = Ret s →
  ∃ l', seg_update l i f = Ret l' ∧ seg_at l' i = Ret (f s) ∧
    (∀ j, j ≠ i → seg_at l' j = seg_at l j) ∧ sl_head l' = sl_head l ∧ sl_tail l' = sl_tail l ∧
    sl_available l' = sl_available l.
Proof.
  intros Hs. pose proof (seg_at_range _ _ _ Hs) as Hr. unfold seg_update. rewrite Hs. cbn [mbind outcome_bind].
  unfold set_index. rewrite decide_True by done. cbn [mbind outcome_bind].
  eexists. split; [done|]. unfold seg_at, index. cbn [sl_storage sl_head sl_tail sl_available].
  split_and!; [|intros j Hj|done..].
  - rewrite decide_True, list_lookup_insert_eq by (unfold len in *; lia). done.
  - case_decide; [|done]. by rewrite list_lookup_insert_ne by lia.
Qed.

(** The list holds the segment at [idx], which is its first and last. *)
Record only_segment (l : SegmentList) (idx seq len : Z) : Prop := {
  os_head : sl_head l = idx;
  os_index : idx ≠ -1;
  os_segment : ∃ prev i, seg_at l idx = Ret (mkSegment prev seq len (-1) i);
}.

Lemma only_one l idx seq len : only_segment l idx seq len → one_segment l = Ret true.
Proof.
  intros [Hh Hi (prev & i & Hs)]. unfold one_segment. rewrite Hh, decide_False, Hs by done. done.
Qed.

Lemma only_clear fuel l idx seq len :
  only_segment l idx seq len → (0 < fuel)%nat → ∃ l', sl_clear fuel l = Ret l' ∧ sl_head l' = -1.
Proof.
  intros [Hh Hi (prev & i & Hs)] Hf. unfold sl_clear. destruct fuel as [|fuel]; [lia|]. cbn [clear_loop].
  rewrite Hh, decide_False by done. rewrite Hs. cbn [mbind outcome_bind]. unfold remove_node.
  destruct (seg_update_spec l idx _ (set_length 0) Hs) as (l1 & -> & _). cbn [mbind outcome_bind seg_next].
  destruct fuel; (eexists; split; [done|done]).
Qed.

(** The first segment of a list. *)
Lemma only_first fuel l l1 idx s seq len :
  sl_head l = -1 → find_available_node l = (l1, idx) → seg_at l1 idx = Ret s →
  ∃ l', insert_segment fuel l seq len = Ret (l', idx) ∧ only_segment l' idx seq len.
Proof.
  intros Hh Hf Hs. unfold insert_segment. rewrite Hh, decide_True by done. unfold insert_before_node. rewrite Hf.
  destruct (seg_update_spec l1 idx s (λ s, set_next (-1) (set_length len (set_seq seq s))) Hs) as (l2 & -> & Hs2 & _).
  cbn [mbind outcome_bind]. rewrite decide_False by (intros []; done).
  destruct (seg_update_spec l2 idx _ (set_prev (-1)) Hs2) as (l3 & -> & Hs3 & _). cbn [mbind outcome_bind].
  eexists. split; [done|]. pose proof (seg_at_range _ _ _ Hs). split; [done|lia|]. by eexists _, _.
Qed.

Lemma fresh_node n : 0 ≤ n →
  ∃ l1 idx s, find_available_node (SegmentList_new n) = (l1, idx) ∧ seg_at l1 idx = Ret s.
Proof.
  intros Hn. unfold find_available_node, SegmentList_new. cbn [sl_available sl_storage sl_head sl_tail].
  destruct (last (seqZ 0 n)) as [i|] eqn:E.
  - eexists _, _, (Segment_new i 0 0). split; [done|]. unfold seg_at, index. cbn [sl_storage].
    rewrite last_lookup in E. apply lookup_seqZ in E as [-> Hi].
    rewrite decide_True, list_lookup_fmap, lookup_seqZ_lt by lia. cbn. do 2 f_equal. lia.
  - apply last_None in E. rewrite E. eexists _, _, _. split; [done|]. done.
Qed.

(** A segment that starts behind the start of the only one is taken to overlap
    with it. *)
Lemma only_extended fuel l idx a n seq len :
  only_segment l idx a n → (0 < fuel)%nat → 0 ≤ a ≤ seq → 0 ≤ n → 0 ≤ len → a < seq + len →
  a + n ≠ seq → a + n < 2 ^ 32 → seq + len < 2 ^ 32 → Z.max (a + n) (seq + len) - a ≤ 65535 →
  ∃ l', insert_segment fuel l seq len = Ret (l', idx) ∧
    only_segment l' idx a (Z.max (a + n) (seq + len) - a).
Proof.
  intros [Hh Hi (prev & i & Hs)] Hf Ha Hn Hl Hlt Hne Hw1 Hw2 Hmax. unfold insert_segment.
  rewrite Hh, decide_False by done. destruct fuel as [|fuel]; [lia|]. cbn [insert_loop].
  rewrite decide_False, Hs by done. cbn [mbind outcome_bind seg_seq seg_length].
  rewrite !(wadd_id 32 a n), !(wadd_id 32 seq len) by (unfold in_width; lia). rewrite !decide_False, decide_True by lia.
  destruct (seg_update_spec l idx _ (λ s, set_length (wrap 16 (Z.max (a + n) (seq + len) -u32 seg_seq s)) s) Hs)
    as (l1 & -> & Hs1 & _ & Hh1 & _). cbn [mbind outcome_bind]. rewrite decide_False by done.
  cbn [set_length seg_seq seg_prev seg_next seg_idx] in Hs1.
  rewrite (wsub_id 32), (wrap_id 16) in Hs1 by (unfold in_width; lia).
  unfold merge_at_idx. rewrite Hs1. cbn [mbind outcome_bind seg_next merge_loop].
  exists l1. split; [done|]. split; [congruence|done|]. by eexists _, _.
Qed.

(** *** Opening a gap and filling it *)

Section gap.
Context (k : Z) (fuel : nat) (s gap : Z) (d1 d2 d3 : bytes).
Context (Hk : 1 ≤ k ≤ 31) (Hfuel : (0 < fuel)%nat) (Hs : 0 ≤ s) (Hd1 : 0 < len d1) (Hgap : 0 < gap).

Abbreviation total := (len d1 + Z.max (gap + len d2) (len d3)).
Context (Hfit : total ≤ 2 ^ k - 1) (H16 : total ≤ 65535) (H32 : s + total < 2 ^ 32).

(** The buffer with [a] bytes available and the cells [f]. *)
Record holds (b : ReorderedBuffer) (a : Z) (f : Z → Z) : Prop := {
  ho_wf : ring_wf (rb_data b);
  ho_mask : ring_mask (rb_data b) = 2 ^ k - 1;
  ho_available : available (rb_data b) = a;
  ho_cells : ∀ i, 0 ≤ i < 2 ^ k → tape (rb_data b) i = f i;
  ho_head_seq : rb_head_seq b = s;
  ho_tail_seq : rb_tail_seq b = s + a;
}.

Definition cells1 (i : Z) : Z := if decide (i < len d1) then vec_at d1 i else 0.

Lemma holds_size b a f : holds b a f → ring_size (rb_data b) = 2 ^ k.
Proof. intros [Hwf Hm _ _ _ _]. pose proof (rw_mask _ Hwf). lia. Qed.

Lemma first_piece b0 :
  ReorderedBuffer_new (2 ^ k) = Some b0 →
  ∃ b1, rb_seq b0 s d1 = Ret (b1, Inserted (len d1) (len d1)) ∧ holds b1 (len d1) cells1 ∧
    rb_state b1 = Connected ∧ rb_segments b1 = SegmentList_new (2 ^ k / 64).
Proof.
  intros H0. pose proof (len_nonneg d2). pose proof (len_nonneg d3).
  destruct (fresh_buffer k Hk) as (b & Hb & Hwf & Hc & Hm & Hst & Hsl & Hv). rewrite H0 in Hb. injection Hb as <-.
  assert (available (rb_data b0) = 0) as Ha by (rewrite <- len_content by done; by rewrite Hc).
  destruct (write_at_tail_tape (rb_data b0) d1 Hwf) as (r & Hw & Hwf' & Hm' & Hs' & Ha' & Ht); [lia|].
  unfold rb_seq. rewrite Hst. unfold fast_path_insert. cbn [rb_data]. rewrite Hw. cbn [mbind outcome_bind].
  eexists. split.
  { unfold insertion. rewrite decide_True by done.
    change (rb_available _) with (available r). by rewrite Ha', Ha. }
  split; [|split; [done|exact Hsl]]. split; cbn [rb_data rb_with_data rb_head_seq rb_tail_seq]; try done; [congruence|lia| |].
  - intros i Hi. rewrite Ht by (pose proof (rw_mask _ Hwf); lia). rewrite Ha. unfold cells1.
      repeat case_decide; try lia; [by rewrite Z.sub_0_r|].
      unfold tape, ring_at. rewrite Hv. apply vec_at_zeros.
  - rewrite (wrap_id 32) by (unfold in_width; lia). apply wadd_id. unfold in_width. lia.
Qed.

Definition cells2 (i : Z) : Z :=
  if decide (len d1 + gap ≤ i < len d1 + gap + len d2) then vec_at d2 (i - (len d1 + gap)) else cells1 i.

Lemma gap_opened b1 :
  holds b1 (len d1) cells1 → rb_state b1 = Connected → rb_segments b1 = SegmentList_new (2 ^ k / 64) →
  ∃ b2 idx, add_data fuel b1 (s + len d1 + gap) d2 = Ret (b2, Inserted (len d2) (len d1)) ∧
    holds b2 (len d1) cells2 ∧ rb_state b2 = ConnectedOutOfOrder ∧
    only_segment (rb_segments b2) idx s (len d1 + gap + len d2).
Proof.
  intros Hh Hst Hsl. pose proof (holds_size _ _ _ Hh) as Hsize. destruct Hh as [Hwf Hm Ha Hcell Hhs Hts].
  pose proof (len_nonneg d2). pose proof (len_nonneg d3).
  unfold add_data. rewrite Hst, decide_False by lia. unfold slow_path_insert.
  rewrite (wrap_id 32), (wadd_id 32) by (unfold in_width; lia). rewrite !decide_False by lia.
  unfold add_head_to_seg_list. cbn [rb_with_state rb_data rb_segments rb_head_seq]. rewrite Ha, Hsl, Hhs.
  destruct (fresh_node (2 ^ k / 64)) as (l0 & idx & s0 & Hf & Hs0); [apply Z.div_pos; lia|].
  destruct (only_first fuel (SegmentList_new (2 ^ k / 64)) l0 idx s0 s (len d1) eq_refl Hf Hs0) as (l1 & Hl1 & Ho1).
  assert (add_head_loop fuel (SegmentList_new (2 ^ k / 64)) s (len d1) = Ret l1) as ->.
  { destruct fuel as [|n] eqn:En; [lia|]. cbn [add_head_loop]. rewrite decide_True by lia.
    rewrite Z.min_r by (unfold U16_MAX; lia). rewrite <- En, Hl1 in *. cbn [mbind outcome_bind].
    rewrite Z.sub_diag. by destruct n. }
  cbn [mbind outcome_bind]. unfold out_of_order_insert. cbn [rb_with_segments rb_with_state rb_tail_seq rb_data].
  rewrite Hts, !decide_False, (wsub_id 32) by (unfold in_width; lia).
  replace (s + len d1 + gap - (s + len d1)) with gap by lia.
  destruct (write_at_offset_tape (rb_data b1) gap d2 Hwf) as (r & -> & Hwf' & Hm' & Hs' & Ha' & Ht); [lia..|].
  cbn [mbind outcome_bind]. rewrite (wrap_id 16) by (unfold in_width; lia).
  change (rb_segments (rb_with_segments _ l1)) with l1.
  destruct (only_extended fuel l1 idx s (len d1) (s + len d1 + gap) (len d2) Ho1) as (l2 & -> & Ho2); [lia..|].
  cbn [mbind outcome_bind]. eexists _, idx. split.
  { unfold insertion. rewrite decide_True by done. change (rb_available _) with (available r). by rewrite Ha', Ha. }
  split; [|split; [done|]].
  - split; cbn [rb_data rb_with_data rb_with_segments rb_with_state rb_head_seq rb_tail_seq]; try done; [congruence..|].
    intros i Hi. rewrite Ht by lia. rewrite Ha. unfold cells2. case_decide; [done|]. by apply Hcell.
  - cbn [rb_segments rb_with_segments]. by replace (len d1 + gap + len d2) with (Z.max (s + len d1) (s + len d1 + gap + len d2) - s) by lia.
Qed.

Definition cells3 (i : Z) : Z :=
  if decide (len d1 ≤ i < len d1 + len d3) then vec_at d3 (i - len d1) else cells2 i.

(** What is delivered: a gap that [d3] does not fill reads as zeros. *)
Definition delivered : bytes :=
  d1 ++ d3 ++ replicate (Z.to_nat (gap - len d3)) 0 ++ drop (Z.to_nat (len d3 - gap)) d2.

Lemma len_delivered : len delivered = total.
Proof.
  unfold delivered. rewrite !len_app. unfold len. rewrite length_replicate, length_drop. lia.
Qed.

Lemma delivered_cells i : 0 ≤ i < total → cells3 i = vec_at delivered i.
Proof.
  intros Hi. pose proof (len_nonneg d2). pose proof (len_nonneg d3). unfold delivered.
  assert (len (replicate (Z.to_nat (gap - len d3)) 0) = Z.max 0 (gap - len d3)) as Hz
    by (unfold len; rewrite length_replicate; lia).
  unfold cells3, cells2, cells1. rewrite vec_at_app by lia.
  destruct (decide (i < len d1)); [repeat case_decide; (done || lia)|]. rewrite vec_at_app by lia.
  destruct (decide (i - len d1 < len d3)); [rewrite decide_True by lia; done|]. rewrite vec_at_app, Hz, vec_at_zeros by lia.
  destruct (decide (i - len d1 - len d3 < _)); [repeat case_decide; (done || lia)|].
  rewrite vec_at_drop by lia. repeat case_decide; try lia. f_equal. lia.
Qed.

Lemma gap_filled b2 idx :
  holds b2 (len d1) cells2 → rb_state b2 = ConnectedOutOfOrder →
  only_segment (rb_segments b2) idx s (len d1 + gap + len d2) →
  ∃ b3, add_data fuel b2 (s + len d1) d3 = Ret (b3, Inserted (Z.max (len d3) (gap + len d2 - len d3)) total) ∧
    content (rb_data b3) = delivered ∧ rb_state b3 = Connected ∧ rb_tail_seq b3 = s + total.
Proof.
  intros Hh Hst Ho. pose proof (holds_size _ _ _ Hh) as Hsize. destruct Hh as [Hwf Hm Ha Hcell Hhs Hts].
  pose proof (len_nonneg d2). pose proof (len_nonneg d3).
  unfold add_data. rewrite Hst. unfold out_of_order_insert. rewrite decide_True by done.
  unfold insert_tail_data. rewrite Hts.
  destruct (write_at_tail_tape (rb_data b2) d3 Hwf) as (r & -> & Hwf' & Hm' & Hs' & Ha' & Ht); [lia|].
  cbn [mbind outcome_bind]. rewrite (wrap_id 32), (wrap_id 16), (wadd_id 32) by (unfold in_width; lia).
  destruct (only_extended fuel (rb_segments b2) idx s (len d1 + gap + len d2) (s + len d1) (len d3) Ho)
    as (l1 & -> & Ho1); [lia..|].
  replace (Z.max (s + (len d1 + gap + len d2)) (s + len d1 + len d3) - s) with total in Ho1 by lia.
  cbn [mbind outcome_bind]. pose proof Ho1 as [Hh1 Hi1 (prev & j & Hs1)].
  unfold assert_, is_head. rewrite Hh1, bool_decide_true, decide_True by done. cbn [mbind outcome_bind].
  rewrite Hs1. cbn [mbind outcome_bind seg_seq seg_length]. rewrite (wadd_id 32), (wsub_id 32) by (unfold in_width; lia).
  rewrite (only_one _ _ _ _ Ho1). cbn [mbind outcome_bind].
  destruct (only_clear fuel l1 _ _ _ Ho1 Hfuel) as (l2 & -> & _). cbn [mbind outcome_bind].
  replace (s + total - (s + len d1 + len d3)) with (total - len d1 - len d3) by lia.
  destruct (seek_tail_wf r Hwf' (total - len d1 - len d3)) as [Hwf4 Hav4]; [lia..|].
  eexists. split.
  { change (rb_available _) with (available (seek_tail r (total - len d1 - len d3))). rewrite Hav4, Ha', Ha.
    do 3 f_equal; [case_decide; lia|lia]. }
  split; [|by split].
  - cbn [rb_data rb_with_data rb_with_segments rb_with_state]. apply content_tape; [done| |].
    + rewrite Hav4, len_delivered. lia.
    + rewrite len_delivered. intros i Hi. change (tape (seek_tail r _) i) with (tape r i).
      rewrite Ht, Ha by lia. rewrite <- delivered_cells by lia. unfold cells3. case_decide; [done|].
      apply Hcell. lia.
Qed.
End gap.

(** A piece that comes too early and whose last number is past the wrap is taken
    for old data. *)
Lemma early_across_wrap fuel b gap d :
  rb_state b = Connected → 0 ≤ rb_tail_seq b < 2 ^ 32 → 0 < gap → gap + len d < 2 ^ 32 →
  2 ^ 32 ≤ rb_tail_seq b + gap + len d →
  add_data fuel b (wrap 32 (rb_tail_seq b + gap)) d = Ret (b, Inserted 0 (rb_available b)).
Proof.
  intros Hst Ht Hg Hd Hw. pose proof (len_nonneg d). unfold add_data. rewrite Hst. set (t := rb_tail_seq b) in *.
  assert (wrap 32 (t + gap) ≠ t) as Hne.
  { unfold wrap. intros He. destruct (decide (t + gap < 2 ^ 32)); [rewrite Z.mod_small in He; lia|].
    replace (t + gap) with (t + gap - 2 ^ 32 + 1 * 2 ^ 32) in He by lia.
    rewrite Z_mod_plus_full, Z.mod_small in He; lia. }
  rewrite decide_False by done. unfold slow_path_insert.
  assert (wrap 32 (t + gap) +u32 wrap 32 (len d) = t + gap + len d - 2 ^ 32) as ->.
  { unfold wadd, wrap. rewrite <- Zplus_mod.
    replace (t + gap + len d) with (t + gap + len d - 2 ^ 32 + 1 * 2 ^ 32) by lia.
    rewrite Z_mod_plus_full, Z.mod_small; lia. }
  fold t. rewrite decide_False by lia. by rewrite decide_True by lia.
Qed.

Lemma first_written k s d :
  1 ≤ k ≤ 31 → 0 ≤ s → s + len d < 2 ^ 32 → len d ≤ 2 ^ k - 1 →
  ∃ b0 b1, ReorderedBuffer_new (2 ^ k) = Some b0 ∧ rb_seq b0 s d = Ret (b1, Inserted (len d) (len d)) ∧
    rb_state b1 = Connected ∧ rb_tail_seq b1 = s + len d ∧ rb_available b1 = len d.
Proof.
  intros Hk Hs Hw Hd. destruct (fresh_buffer k Hk) as (b0 & H0 & Hwf & Hc & Hm & Hst & _).
  assert (available (rb_data b0) = 0) as Ha by (rewrite <- len_content by done; by rewrite Hc).
  destruct (write_at_tail_tape (rb_data b0) d Hwf) as (r & E & _ & _ & _ & Ha' & _); [lia|].
  pose proof (len_nonneg d). exists b0. unfold rb_seq. rewrite Hst. unfold fast_path_insert. cbn [rb_data]. rewrite E.
  cbn [mbind outcome_bind]. eexists. split; [done|].
  split.
  { unfold insertion. rewrite decide_True by done. change (rb_available _) with (available r). by rewrite Ha', Ha. }
  split; [done|]. split; [|change (rb_available _) with (available r); by rewrite Ha', Ha].
  cbn [rb_with_data rb_tail_seq]. rewrite (wrap_id 32) by (unfold in_width; lia). apply wadd_id. unfold in_width. lia.
Qed.

(** C22: a gap is delivered whether it was filled or not.  After a first piece,
    one that comes [gap] bytes too early and one in between, whose numbers do not
    wrap around, the buffer delivers all three in order and is on its fast path
    again.  When the third piece covers the gap the stream is intact and what
    overlaps is dropped; when it is too short, the rest of the gap is delivered as
    bytes that were never received, zeros in a fresh buffer.  But when the number of
    the early piece or of its end is past the wrap, the piece is thrown away as if
    it were old. *)
Theorem reorder_gap k fuel s gap d1 d2 d3 :
  1 ≤ k ≤ 31 → (0 < fuel)%nat → 0 ≤ s → 0 < len d1 → 0 < gap →
  let total := len d1 + Z.max (gap + len d2) (len d3) in
  total ≤ 2 ^ k - 1 → total ≤ 65535 →
  (s + total < 2 ^ 32 → ∃ b0 b1 b2 b3, ReorderedBuffer_new (2 ^ k) = Some b0 ∧
    rb_seq b0 s d1 = Ret (b1, Inserted (len d1) (len d1)) ∧
    add_data fuel b1 (s + len d1 + gap) d2 = Ret (b2, Inserted (len d2) (len d1)) ∧
    add_data fuel b2 (s + len d1) d3 = Ret (b3, Inserted (Z.max (len d3) (gap + len d2 - len d3)) total) ∧
    content (rb_data b3) =
      d1 ++ d3 ++ replicate (Z.to_nat (gap - len d3)) 0 ++ drop (Z.to_nat (len d3 - gap)) d2 ∧
    rb_state b3 = Connected ∧ rb_tail_seq b3 = s + total) ∧
  (s + len d1 < 2 ^ 32 ≤ s + len d1 + gap + len d2 → ∃ b0 b1, ReorderedBuffer_new (2 ^ k) = Some b0 ∧
    rb_seq b0 s d1 = Ret (b1, Inserted (len d1) (len d1)) ∧
    add_data fuel b1 (wrap 32 (s + len d1 + gap)) d2 = Ret (b1, Inserted 0 (len d1))).
Proof.
  intros Hk Hf Hs Hd Hg total H1 H2. split.
  - intros H3. destruct (fresh_buffer k Hk) as (b0 & Hb0 & _).
    destruct (first_piece k fuel s gap d1 d2 d3 Hk Hf Hs Hd Hg H1 H2 H3 b0 Hb0) as (b1 & E1 & Hh1 & Hst1 & Hl1).
    destruct (gap_opened k fuel s gap d1 d2 d3 Hk Hf Hs Hd Hg H1 H2 H3 b1 Hh1 Hst1 Hl1)
      as (b2 & idx & E2 & Hh2 & Hst2 & Ho2).
    destruct (gap_filled k fuel s gap d1 d2 d3 Hk Hf Hs Hd Hg H1 H2 H3 b2 idx Hh2 Hst2 Ho2)
      as (b3 & E3 & Hc & Hst3 & Ht3).
    exists b0, b1, b2, b3. by split_and!.
  - intros [Hw1 Hw2]. pose proof (len_nonneg d2). pose proof (len_nonneg d3).
    destruct (first_written k s d1) as (b0 & b1 & Hb0 & E1 & Hst1 & Ht1 & Ha1); [lia..|].
    exists b0, b1. split; [done|]. split; [done|]. rewrite <- Ht1, <- Ha1. apply early_across_wrap; try done; lia.
Qed.

(** *** Two gaps *)

(** A node that is taken from a list without touching the node [idx]. *)
Lemma another_node l m idx s :
  sl_available l = seqZ 0 m → 0 ≤ m ≤ idx → seg_at l idx = Ret s →
  ∃ l1 j s', find_available_node l = (l1, j) ∧ j ≠ idx ∧ seg_at l1 j = Ret s' ∧ seg_at l1 idx = Ret s ∧
    sl_head l1 = sl_head l.
Proof.
  intros Ha Hm Hs. pose proof (seg_at_range _ _ _ Hs) as Hr. unfold find_available_node. rewrite Ha.
  destruct (last (seqZ 0 m)) as [i|] eqn:E.
  - rewrite last_lookup in E. apply lookup_seqZ in E as [Hi Hlt]. rewrite length_seqZ in *.
    destruct (lookup_lt_is_Some_2 (sl_storage l) (Z.to_nat i)) as [x Hx]; [unfold len in *; lia|].
    eexists _, i, x. split; [done|]. split; [lia|]. split; [|done].
    unfold seg_at, index. cbn [sl_storage]. rewrite decide_True by lia. by rewrite Hx.
  - eexists _, _, _. split; [done|]. unfold len in *. split; [lia|]. unfold seg_at, index in *. cbn [sl_storage sl_head].
    split; [|split; [|done]].
    + rewrite decide_True by lia. by rewrite Nat2Z.id, list_lookup_middle.
    + case_decide; [|done]. by rewrite lookup_app_l by lia.
Qed.

(** The first segment, and the nodes that are left. *)
Lemma fresh_first fuel n seq len :
  0 ≤ n → ∃ l' idx m i, insert_segment fuel (SegmentList_new n) seq len = Ret (l', idx) ∧
    sl_head l' = idx ∧ idx ≠ -1 ∧ seg_at l' idx = Ret (mkSegment (-1) seq len (-1) i) ∧
    sl_available l' = seqZ 0 m ∧ 0 ≤ m ≤ idx.
Proof.
  intros Hn.
  assert (∃ l1 idx m s, find_available_node (SegmentList_new n) = (l1, idx) ∧ seg_at l1 idx = Ret s ∧
    sl_available l1 = seqZ 0 m ∧ 0 ≤ m ≤ idx) as (l1 & idx & m & s & Hf & Hs & Ha & Hm).
  { unfold find_available_node, SegmentList_new. cbn [sl_available sl_storage sl_head sl_tail].
    destruct (last (seqZ 0 n)) as [i|] eqn:E.
    - rewrite last_lookup in E. apply lookup_seqZ in E as [Hi Hlt]. rewrite length_seqZ in *.
      eexists _, i, (n - 1), _. split; [done|]. unfold seg_at, index. cbn [sl_storage sl_available].
      split; [by rewrite decide_True, list_lookup_fmap, lookup_seqZ_lt by lia|]. split; [|lia].
      replace n with ((n - 1) + 1) at 2 by lia. rewrite seqZ_app by lia.
      rewrite take_app_length'; [done|]. rewrite length_seqZ. lia.
    - apply last_None in E. rewrite E. eexists _, 0, 0, _. split; [done|]. split_and!; [done|done|lia|lia]. }
  unfold insert_segment. cbn [SegmentList_new sl_head]. rewrite decide_True by done.
  unfold insert_before_node. rewrite Hf.
  destruct (seg_update_spec l1 idx s (λ s, set_next (-1) (set_length len (set_seq seq s))) Hs)
    as (l2 & -> & Hs2 & _ & _ & _ & Ha2).
  cbn [mbind outcome_bind]. rewrite decide_False by (intros []; done).
  destruct (seg_update_spec l2 idx _ (set_prev (-1)) Hs2) as (l3 & -> & Hs3 & _ & _ & _ & Ha3). cbn [mbind outcome_bind].
  pose proof (seg_at_range _ _ _ Hs). eexists _, idx, m, _. split; [done|]. split_and!; [done|lia|exact Hs3| |lia..].
  cbn [set_tail set_head sl_available]. congruence.
Qed.

(** A segment before the only one, with room between them, is inserted; then the
    merge does not end. *)
Lemma merge_spins fuel l idx next s n :
  seg_at l idx = Ret s → next ≠ -1 → seg_at l next = Ret n → seg_seq s +u32 seg_length s < seg_seq n →
  merge_loop fuel l idx next = Undef.
Proof.
  intros Hs Hne Hn Hlt. induction fuel as [|fuel IH]; cbn [merge_loop]; rewrite decide_False by done; [done|].
  rewrite Hs, Hn. cbn [mbind outcome_bind]. by rewrite decide_False by lia.
Qed.

Lemma insert_before_spins fuel l idx i m seq n a b :
  sl_head l = idx → idx ≠ -1 → seg_at l idx = Ret (mkSegment (-1) seq n (-1) i) →
  sl_available l = seqZ 0 m → 0 ≤ m ≤ idx → 0 ≤ a → 0 ≤ b → a + b < seq → 0 ≤ n → seq + n < 2 ^ 32 →
  insert_segment fuel l a b = Undef.
Proof.
  intros Hh Hi Hs Ha Hm Ha0 Hb0 Hlt Hn Hw. unfold insert_segment. rewrite Hh, decide_False by done.
  destruct fuel as [|fuel]; [cbn [insert_loop]; by rewrite decide_False|]. cbn [insert_loop].
  rewrite decide_False, Hs by done. cbn [mbind outcome_bind seg_seq seg_length].
  rewrite (wadd_id 32 seq n), (wadd_id 32 a b) by (unfold in_width; lia). rewrite decide_False, decide_True by lia.
  unfold insert_before_node. destruct (another_node l m idx _ Ha Hm Hs) as (l1 & j & s' & -> & Hj & Hs1 & Hsi & Hh1).
  destruct (seg_update_spec l1 j s' (λ s, set_next idx (set_length b (set_seq a s))) Hs1)
    as (l2 & -> & Hs2 & Ho2 & _). cbn [mbind outcome_bind]. rewrite decide_True by done.
  rewrite <- (Ho2 idx) in Hsi by done. rewrite Hsi. cbn [mbind outcome_bind seg_prev].
  destruct (seg_update_spec l2 j _ (set_prev (-1)) Hs2) as (l3 & -> & Hs3 & Ho3 & _). cbn [mbind outcome_bind].
  rewrite <- (Ho3 idx) in Hsi by done.
  destruct (seg_update_spec l3 idx _ (set_prev j) Hsi) as (l4 & -> & Hs4 & Ho4 & _). cbn [mbind outcome_bind].
  rewrite <- (Ho4 j) in Hs3 by done. rewrite decide_False by (intros []; done).
  cbn [mbind outcome_bind]. pose proof (seg_at_range _ _ _ Hs3). rewrite decide_False by lia.
  unfold merge_at_idx. change (seg_at (set_head l4 j)) with (seg_at l4). rewrite Hs3. cbn [mbind outcome_bind].
  erewrite merge_spins; [done|exact Hs3|done|exact Hs4|].
  cbn [set_prev set_next set_length set_seq seg_seq seg_length]. rewrite wadd_id by (unfold in_width; lia). lia.
Qed.

(** a second gap before the first hangs the buffer.  On a connection without
    pending data, let a piece arrive early, and then another one that is early
    too and ends before the first begins.  The first is recorded, and the second
    never returns: looking for segments to merge, the loop stands at the first
    piece for ever, whatever number of turns it is given. *)
Theorem reorder_two_gaps_hang k fuel s a b d1 d2 :
  1 ≤ k ≤ 31 → 0 ≤ s → s < a → a + len d1 < b → b - s + len d2 ≤ 2 ^ k - 1 → len d2 ≤ 65535 → len d1 ≤ 65535 →
  b + len d2 < 2 ^ 32 →
  ∃ b0 b1 b2, ReorderedBuffer_new (2 ^ k) = Some b0 ∧ rb_seq b0 s [] = Ret (b1, Inserted 0 0) ∧
    add_data fuel b1 b d2 = Ret (b2, Inserted (len d2) 0) ∧
    ∀ fuel', add_data fuel' b2 a d1 = Undef.
Proof.
  intros Hk Hs Hsa Hab Hfit H2 H1 Hw. pose proof (len_nonneg d1). pose proof (len_nonneg d2).
  destruct (fresh_buffer k Hk) as (b0 & Hb0 & Hwf & Hc & Hm & Hst & Hsl & _).
  assert (available (rb_data b0) = 0) as Ha by (rewrite <- len_content by done; by rewrite Hc).
  destruct (write_at_tail_tape (rb_data b0) [] Hwf) as (r1 & Hw1 & Hwf1 & Hm1 & _ & Ha1 & _);
    [change (len []) with 0; pose proof (Z.pow_pos_nonneg 2 k); lia|].
  rewrite Ha in Ha1. change (0 + len []) with 0 in Ha1. change (len []) with 0 in Hw1.
  destruct (write_at_offset_tape r1 (b - s) d2 Hwf1) as (r2 & Hw2 & Hwf2 & Hm2 & _ & Ha2 & _); [lia..|].
  destruct (write_at_offset_tape r2 (a - s) d1 Hwf2) as (r3 & Hw3 & _); [lia..|].
  destruct (fresh_first fuel (2 ^ k / 64) b (len d2)) as (l & idx & m & i & Hins & Hh & Hi & Hsg & Hav & Hmi);
    [apply Z.div_pos; lia|].
  exists b0, (mkReorderedBuffer r1 (rb_segments b0) (rb_buffer_size b0) Connected s s),
    (mkReorderedBuffer r2 l (rb_buffer_size b0) ConnectedOutOfOrder s s).
  split; [done|]. split; [|split].
  - unfold rb_seq. rewrite Hst. unfold fast_path_insert. cbn [rb_data]. rewrite Hw1. cbn [mbind outcome_bind].
    unfold rb_with_data, insertion, rb_available. cbn [rb_segments rb_buffer_size rb_state rb_head_seq rb_tail_seq rb_data].
    assert (s +u32 wrap 32 0 = s) as ->
      by (rewrite (wrap_id 32) by done; rewrite wadd_id; [lia|unfold in_width; lia]).
    by rewrite decide_True, Ha1.
  - unfold add_data. cbn [rb_state rb_tail_seq]. rewrite decide_False by lia. unfold slow_path_insert. cbn [rb_tail_seq].
    rewrite (wrap_id 32), (wadd_id 32) by (unfold in_width; lia). rewrite !decide_False by lia.
    unfold add_head_to_seg_list. cbn [rb_with_state rb_data rb_segments rb_head_seq]. rewrite Ha1.
    assert (add_head_loop fuel (rb_segments b0) s 0 = Ret (rb_segments b0)) as -> by by destruct fuel.
    cbn [mbind outcome_bind]. unfold out_of_order_insert, rb_with_segments, rb_with_data, rb_with_state.
    cbn [rb_tail_seq rb_data rb_segments rb_buffer_size rb_state rb_head_seq].
    rewrite !decide_False, (wsub_id 32) by (unfold in_width; lia). rewrite Hw2. cbn [mbind outcome_bind].
    rewrite (wrap_id 16), Hsl, Hins by (unfold in_width; lia). cbn [mbind outcome_bind].
    unfold insertion, rb_available. cbn [rb_data]. by rewrite decide_True, Ha2, Ha1.
  - intros fuel'. unfold add_data. cbn [rb_state]. unfold out_of_order_insert. cbn [rb_tail_seq rb_data rb_segments].
    rewrite !decide_False, (wsub_id 32) by (unfold in_width; lia). rewrite Hw3. cbn [mbind outcome_bind].
    rewrite (wrap_id 16) by (unfold in_width; lia).
    by rewrite (insert_before_spins fuel' l idx i m b (len d2) a (len d1)) by (done || lia).
Qed.

(** ** At concrete inputs *)

(** The numbers wrap around after eight bytes. *)
Definition ex_start : Z := 2 ^ 32 - 8.

Lemma reorder_delivers_stream_witness :
  ∃ b, fed 6 9 ex_start (str "hello world") b (str "hello wo") ∧
    (str "hello wo") ++ content (rb_data b) = take (Z.to_nat (rb_received ex_start b)) (str "hello world") ∧
    rb_received ex_start b = 11.
Proof.
  assert (∃ b0 b1 b2 b3 b4 r1 r2 r3 n data, ReorderedBuffer_new (2 ^ 6) = Some b0 ∧
    rb_seq b0 ex_start (take 8 (str "hello world")) = Ret (b1, r1) ∧
    read_data 9 b1 (replicate 16 0) = Ret (b2, (n, data)) ∧ take (Z.to_nat n) data = str "hello wo" ∧
    rb_received ex_start b2 = 8 ∧
    add_data 9 b2 (wrap 32 (ex_start + Z.of_nat 8)) (take 2 (drop 8 (str "hello world"))) = Ret (b3, r2) ∧
    rb_received ex_start b3 = 10 ∧
    add_data 9 b3 (wrap 32 (ex_start + Z.of_nat 9)) (take 2 (drop 9 (str "hello world"))) = Ret (b4, r3) ∧
    rb_received ex_start b4 = 11)
    as (b0 & b1 & b2 & b3 & b4 & r1 & r2 & r3 & n & data & H0 & H1 & H2 & Ht & Hr & H3 & Hr3 & H4 & Hr4).
  { eexists _, _, _, _, _, _, _, _, _, _. do 8 (split; [vm_compute; reflexivity|]). vm_compute. reflexivity. }
  assert (fed 6 9 ex_start (str "hello world") b4 (str "hello wo")) as Hf.
  { apply (fed_add 6 9 ex_start (str "hello world") b3 (str "hello wo") 9 2 b4 r3); [| |vm_compute; lia|exact H4].
    2:{ right. rewrite Hr3. split; [vm_compute; reflexivity|]. split; [vm_compute; discriminate|vm_compute; reflexivity]. }
    apply (fed_add 6 9 ex_start (str "hello world") b2 (str "hello wo") 8 2 b3 r2); [| |vm_compute; lia|exact H3].
    2:{ left. by rewrite Hr. }
    rewrite <- Ht. apply (fed_read 6 9 ex_start (str "hello world") b1 [] (replicate 16 0) b2 n data); [|exact H2].
    exact (fed_seq 6 9 ex_start (str "hello world") b0 8 b1 r1 H0 H1). }
  exists b4. split; [exact Hf|]. split; [|exact Hr4].
  apply (reorder_delivers_stream 6 9 ex_start (str "hello world") b4 (str "hello wo"));
    [lia|vm_compute; split; [discriminate|reflexivity]|vm_compute; reflexivity|exact Hf].
Defined.

Lemma reorder_gap_witness :
  (∃ b0 b1 b2 b3, ReorderedBuffer_new (2 ^ 6) = Some b0 ∧
    rb_seq b0 1232 (str "food") = Ret (b1, Inserted (len (str "food")) (len (str "food"))) ∧
    add_data 9 b1 (1232 + len (str "food") + 5) (str "ok") = Ret (b2, Inserted (len (str "ok")) (len (str "food"))) ∧
    add_data 9 b2 (1232 + len (str "food")) (str "is") =
      Ret (b3, Inserted (Z.max (len (str "is")) (5 + len (str "ok") - len (str "is"))) 11) ∧
    content (rb_data b3) = str "foodis" ++ [0; 0; 0] ++ str "ok") ∧
  (∃ b0 b1, ReorderedBuffer_new (2 ^ 6) = Some b0 ∧
    rb_seq b0 (2 ^ 32 - 10) (str "food") = Ret (b1, Inserted (len (str "food")) (len (str "food"))) ∧
    add_data 9 b1 (wrap 32 (2 ^ 32 - 10 + len (str "food") + 5)) (str "ok") = Ret (b1, Inserted 0 (len (str "food")))).
Proof.
  split.
  - destruct (reorder_gap 6 9 1232 5 (str "food") (str "ok") (str "is")) as [Hg _];
      [lia|lia|lia|vm_compute; reflexivity|lia|vm_compute; discriminate|vm_compute; discriminate|].
    destruct Hg as (b0 & b1 & b2 & b3 & H0 & H1 & H2 & H3 & H4 & _); [vm_compute; reflexivity|].
    exists b0, b1, b2, b3. exact (conj H0 (conj H1 (conj H2 (conj H3 H4)))).
  - destruct (reorder_gap 6 9 (2 ^ 32 - 10) 5 (str "food") (str "ok") (str "is")) as [_ Hg];
      [lia|lia|lia|vm_compute; reflexivity|lia|vm_compute; discriminate|vm_compute; discriminate|].
    exact (Hg ltac:(vm_compute; split; [reflexivity|discriminate])).
Defined.

Lemma reorder_two_gaps_hang_witness :
  ∃ b0 b1 b2, ReorderedBuffer_new (2 ^ 6) = Some b0 ∧ rb_seq b0 100 [] = Ret (b1, Inserted 0 0) ∧
    add_data 9 b1 120 (str "late") = Ret (b2, Inserted (len (str "late")) 0) ∧
    ∀ fuel', add_data fuel' b2 110 (str "early") = Undef.
Proof.
  apply (reorder_two_gaps_hang 6 9 100 110 120 (str "early") (str "late"));
    first [lia | vm_compute; reflexivity | vm_compute; discriminate].
Defined.

Lemma reorder_duplicate_panics_witness :
  ∃ b b', fed 6 9 289 (str "hello") b (str "hello") ∧
    add_data 9 b (289 + 2) (str "llo") = Ret (b', Inserted 0 0) ∧ ∀ buf, read_data 9 b' buf = Panic.
Proof.
  assert (∃ b0 b1 b2 r1 n data, ReorderedBuffer_new (2 ^ 6) = Some b0 ∧
    rb_seq b0 289 (take 5 (str "hello")) = Ret (b1, r1) ∧
    read_data 9 b1 (replicate 16 0) = Ret (b2, (n, data)) ∧ take (Z.to_nat n) data = str "hello" ∧
    rb_received 289 b2 = 5 ∧ content (rb_data b2) = [])
    as (b0 & b1 & b2 & r1 & n & data & H0 & H1 & H2 & Ht & Hr & Hc).
  { eexists _, _, _, _, _, _. split; [vm_compute; reflexivity|]. split; [vm_compute; reflexivity|].
    split; [vm_compute; reflexivity|]. split; [vm_compute; reflexivity|]. split; vm_compute; reflexivity. }
  assert (fed 6 9 289 (str "hello") b2 (str "hello")) as Hf.
  { pose proof (fed_read 6 9 289 (str "hello") b1 [] (replicate 16 0) b2 n data
      (fed_seq 6 9 289 (str "hello") b0 5 b1 r1 H0 H1) H2) as Hf.
    rewrite Ht in Hf. exact Hf. }
  destruct (reorder_duplicate_panics 6 9 289 (str "hello") b2 (str "hello") 3) as (b' & Ha & Hp);
    [lia|lia|vm_compute; reflexivity|exact Hf|exact Hc|lia|rewrite Hr; lia|].
  rewrite Hr in Ha. exists b2, b'. split; [exact Hf|]. split; [exact Ha|exact Hp].
Defined.
