(* ===== verification/Tcp.v ===== *)
(** * Tcp: the TCP header of the network framework

    Models net/framework/src/headers/tcp.rs.  As in [Headers], fields of two
    and four bytes hold the raw load of the wire bytes, and the accessors
    convert; the data offset and the flags live in single bytes. *)

From stdpp Require Import strings.
From S2P Require Import Prelude Bits Packed Headers.

Record TcpHeader := mkTcpHeader {
  tcp_src : Z;
  tcp_dst : Z;
  tcp_seq : Z;
  tcp_ack : Z;
  offset_to_ns : Z;
  tcp_flags : Z;
  tcp_window : Z;
  tcp_csum : Z;
  tcp_urgent : Z;
}.

#[export] Instance TcpHeader_packed : Packed TcpHeader := {|
  layout := [2; 2; 4; 4; 1; 1; 2; 2; 2]%nat;
  to_fields h := [tcp_src h; tcp_dst h; tcp_seq h; tcp_ack h; offset_to_ns h; tcp_flags h;
                  tcp_window h; tcp_csum h; tcp_urgent h];
  of_fields l :=
    let f i := nth i l 0 in
    mkTcpHeader (f 0%nat) (f 1%nat) (f 2%nat) (f 3%nat) (f 4%nat) (f 5%nat) (f 6%nat) (f 7%nat) (f 8%nat);
|}.

Definition CWR : Z := 0x80.
Definition ECE : Z := 0x40.
Definition URG : Z := 0x20.
Definition ACK : Z := 0x10.
Definition PSH : Z := 0x08.
Definition RST : Z := 0x04.
Definition SYN : Z := 0x02.
Definition FIN : Z := 0x01.

(** [!m] on [u8]. *)
Definition not8 (m : Z) : Z := Z.lxor m 0xff.

Definition with_offset_to_ns (h : TcpHeader) (x : Z) : TcpHeader :=
  mkTcpHeader (tcp_src h) (tcp_dst h) (tcp_seq h) (tcp_ack h) x (tcp_flags h) (tcp_window h)
    (tcp_csum h) (tcp_urgent h).

Definition with_tcp_flags (h : TcpHeader) (x : Z) : TcpHeader :=
  mkTcpHeader (tcp_src h) (tcp_dst h) (tcp_seq h) (tcp_ack h) (offset_to_ns h) x (tcp_window h)
    (tcp_csum h) (tcp_urgent h).

Definition TcpHeader_new : TcpHeader := mkTcpHeader 0 0 0 0 0 0 0 0 0.

Definition tcp_src_port (h : TcpHeader) : Z := bswap16 (tcp_src h).

Definition tcp_dst_port (h : TcpHeader) : Z := bswap16 (tcp_dst h).

Definition set_tcp_src_port (h : TcpHeader) (port : Z) : TcpHeader :=
  mkTcpHeader (bswap16 port) (tcp_dst h) (tcp_seq h) (tcp_ack h) (offset_to_ns h) (tcp_flags h)
    (tcp_window h) (tcp_csum h) (tcp_urgent h).

Definition set_tcp_dst_port (h : TcpHeader) (port : Z) : TcpHeader :=
  mkTcpHeader (tcp_src h) (bswap16 port) (tcp_seq h) (tcp_ack h) (offset_to_ns h) (tcp_flags h)
    (tcp_window h) (tcp_csum h) (tcp_urgent h).

Definition seq_num (h : TcpHeader) : Z := bswap32 (tcp_seq h).

Definition set_seq_num (h : TcpHeader) (seq : Z) : TcpHeader :=
  mkTcpHeader (tcp_src h) (tcp_dst h) (bswap32 seq) (tcp_ack h) (offset_to_ns h) (tcp_flags h)
    (tcp_window h) (tcp_csum h) (tcp_urgent h).

Definition ack_num (h : TcpHeader) : Z := bswap32 (tcp_ack h).

Definition set_ack_num (h : TcpHeader) (ack : Z) : TcpHeader :=
  mkTcpHeader (tcp_src h) (tcp_dst h) (tcp_seq h) (bswap32 ack) (offset_to_ns h) (tcp_flags h)
    (tcp_window h) (tcp_csum h) (tcp_urgent h).

Definition data_offset (h : TcpHeader) : Z := Z.shiftr (Z.land (offset_to_ns h) 0xf0) 4.

(** [offset << 4] on [u8] loses the upper four bits. *)
Definition set_data_offset (h : TcpHeader) (off : Z) : TcpHeader :=
  with_offset_to_ns h (Z.lor (Z.land (offset_to_ns h) 0x0f) (wrap 8 (Z.shiftl off 4))).

Definition ns_flag (h : TcpHeader) : bool := bool_decide (Z.land (offset_to_ns h) 0x01 = 1).
Definition set_ns (h : TcpHeader) : TcpHeader := with_offset_to_ns h (Z.lor (offset_to_ns h) 1).
Definition unset_ns (h : TcpHeader) : TcpHeader :=
  with_offset_to_ns h (Z.land (offset_to_ns h) (not8 0x1)).

(** The flags of the flags byte. *)
Definition cwr_flag (h : TcpHeader) : bool := bool_decide (Z.land (tcp_flags h) CWR ≠ 0).
Definition set_cwr_flag (h : TcpHeader) : TcpHeader := with_tcp_flags h (Z.lor (tcp_flags h) CWR).
Definition unset_cwr_flag (h : TcpHeader) : TcpHeader := with_tcp_flags h (Z.land (tcp_flags h) (not8 CWR)).
Definition ece_flag (h : TcpHeader) : bool := bool_decide (Z.land (tcp_flags h) ECE ≠ 0).
Definition set_ece_flag (h : TcpHeader) : TcpHeader := with_tcp_flags h (Z.lor (tcp_flags h) ECE).
Definition unset_ece_flag (h : TcpHeader) : TcpHeader := with_tcp_flags h (Z.land (tcp_flags h) (not8 ECE)).
Definition urg_flag (h : TcpHeader) : bool := bool_decide (Z.land (tcp_flags h) URG ≠ 0).
Definition set_urg_flag (h : TcpHeader) : TcpHeader := with_tcp_flags h (Z.lor (tcp_flags h) URG).
Definition unset_urg_flag (h : TcpHeader) : TcpHeader := with_tcp_flags h (Z.land (tcp_flags h) (not8 URG)).
Definition ack_flag (h : TcpHeader) : bool := bool_decide (Z.land (tcp_flags h) ACK ≠ 0).
Definition set_ack_flag (h : TcpHeader) : TcpHeader := with_tcp_flags h (Z.lor (tcp_flags h) ACK).
Definition unset_ack_flag (h : TcpHeader) : TcpHeader := with_tcp_flags h (Z.land (tcp_flags h) (not8 ACK)).
Definition psh_flag (h : TcpHeader) : bool := bool_decide (Z.land (tcp_flags h) PSH ≠ 0).
Definition set_psh_flag (h : TcpHeader) : TcpHeader := with_tcp_flags h (Z.lor (tcp_flags h) PSH).
Definition unset_psh_flag (h : TcpHeader) : TcpHeader := with_tcp_flags h (Z.land (tcp_flags h) (not8 PSH)).
Definition rst_flag (h : TcpHeader) : bool := bool_decide (Z.land (tcp_flags h) RST ≠ 0).
Definition set_rst_flag (h : TcpHeader) : TcpHeader := with_tcp_flags h (Z.lor (tcp_flags h) RST).
Definition unset_rst_flag (h : TcpHeader) : TcpHeader := with_tcp_flags h (Z.land (tcp_flags h) (not8 RST)).
Definition syn_flag (h : TcpHeader) : bool := bool_decide (Z.land (tcp_flags h) SYN ≠ 0).
Definition set_syn_flag (h : TcpHeader) : TcpHeader := with_tcp_flags h (Z.lor (tcp_flags h) SYN).
Definition unset_syn_flag (h : TcpHeader) : TcpHeader := with_tcp_flags h (Z.land (tcp_flags h) (not8 SYN)).
Definition fin_flag (h : TcpHeader) : bool := bool_decide (Z.land (tcp_flags h) FIN ≠ 0).
Definition set_fin_flag (h : TcpHeader) : TcpHeader := with_tcp_flags h (Z.lor (tcp_flags h) FIN).
Definition unset_fin_flag (h : TcpHeader) : TcpHeader := with_tcp_flags h (Z.land (tcp_flags h) (not8 FIN)).

Definition fmt_flags (h : TcpHeader) : string :=
  ("| " +:+ (if ns_flag h then "NS " else "") +:+ (if cwr_flag h then "CWR " else "")
    +:+ (if ece_flag h then "ECE " else "") +:+ (if urg_flag h then "URG " else "")
    +:+ (if ack_flag h then "ACK " else "") +:+ (if psh_flag h then "PSH " else "")
    +:+ (if rst_flag h then "RST " else "") +:+ (if syn_flag h then "SYN " else "")
    +:+ (if fin_flag h then "FIN " else "") +:+ "|")%string.

Definition window_size (h : TcpHeader) : Z := bswap16 (tcp_window h).

Definition set_window_size (h : TcpHeader) (wnd : Z) : TcpHeader :=
  mkTcpHeader (tcp_src h) (tcp_dst h) (tcp_seq h) (tcp_ack h) (offset_to_ns h) (tcp_flags h)
    (bswap16 wnd) (tcp_csum h) (tcp_urgent h).

Definition tcp_checksum (h : TcpHeader) : Z := bswap16 (tcp_csum h).

Definition set_tcp_checksum (h : TcpHeader) (csum : Z) : TcpHeader :=
  mkTcpHeader (tcp_src h) (tcp_dst h) (tcp_seq h) (tcp_ack h) (offset_to_ns h) (tcp_flags h)
    (tcp_window h) (bswap16 csum) (tcp_urgent h).

Definition urgent (h : TcpHeader) : Z := bswap16 (tcp_urgent h).

Definition set_urgent (h : TcpHeader) (u : Z) : TcpHeader :=
  mkTcpHeader (tcp_src h) (tcp_dst h) (tcp_seq h) (tcp_ack h) (offset_to_ns h) (tcp_flags h)
    (tcp_window h) (tcp_csum h) (bswap16 u).

#[export] Instance TcpHeader_endoffset : EndOffset TcpHeader := {|
  offset h := data_offset h * 4;
  hsize := 20;
  payload_size h frame_size := frame_size -u64 data_offset h * 4;
|}.

#[export] Instance TcpHeader_follows : Follows TcpHeader IpHeader := {}.

#[export] Instance TcpHeader_laws : PackedLaws TcpHeader.
Proof. packed_laws. Qed.

(** ** The accessors *)

(** The fields; the flags take the values 0 and 1. *)
Inductive TcpField :=
| TSrc | TDst | TSeq | TAck | TOffset | TNs | TCwr | TEce | TUrg | TAckFlag | TPsh | TRst | TSyn | TFin
| TWindow | TCsum | TUrgent.

#[export] Instance TcpField_eq_dec : EqDecision TcpField.
Proof. solve_decision. Defined.

Definition tcp_get (f : TcpField) (h : TcpHeader) : Z :=
  match f with
  | TSrc => tcp_src_port h | TDst => tcp_dst_port h | TSeq => seq_num h | TAck => ack_num h
  | TOffset => data_offset h | TNs => Z.b2z (ns_flag h) | TCwr => Z.b2z (cwr_flag h)
  | TEce => Z.b2z (ece_flag h) | TUrg => Z.b2z (urg_flag h) | TAckFlag => Z.b2z (ack_flag h)
  | TPsh => Z.b2z (psh_flag h) | TRst => Z.b2z (rst_flag h) | TSyn => Z.b2z (syn_flag h)
  | TFin => Z.b2z (fin_flag h) | TWindow => window_size h | TCsum => tcp_checksum h | TUrgent => urgent h
  end.

Definition tcp_set (f : TcpField) (h : TcpHeader) (v : Z) : TcpHeader :=
  let on := bool_decide (v ≠ 0) in
  match f with
  | TSrc => set_tcp_src_port h v | TDst => set_tcp_dst_port h v | TSeq => set_seq_num h v
  | TAck => set_ack_num h v | TOffset => set_data_offset h v
  | TNs => if on then set_ns h else unset_ns h
  | TCwr => if on then set_cwr_flag h else unset_cwr_flag h
  | TEce => if on then set_ece_flag h else unset_ece_flag h
  | TUrg => if on then set_urg_flag h else unset_urg_flag h
  | TAckFlag => if on then set_ack_flag h else unset_ack_flag h
  | TPsh => if on then set_psh_flag h else unset_psh_flag h
  | TRst => if on then set_rst_flag h else unset_rst_flag h
  | TSyn => if on then set_syn_flag h else unset_syn_flag h
  | TFin => if on then set_fin_flag h else unset_fin_flag h
  | TWindow => set_window_size h v | TCsum => set_tcp_checksum h v | TUrgent => set_urgent h v
  end.

Definition tcp_width (f : TcpField) : Z :=
  match f with
  | TSeq | TAck => 32
  | TSrc | TDst | TWindow | TCsum | TUrgent => 16
  | TOffset => 4
  | _ => 1
  end.

Lemma tcp_ok_fields h :
  packed_ok h → in_width 8 (offset_to_ns h) ∧ in_width 8 (tcp_flags h).
Proof.
  intros Hh. unfold packed_ok in Hh. cbn in Hh.
  repeat match goal with H : Forall2 _ (_ :: _) _ |- _ => inversion_clear H end. done.
Qed.

(** A fact about all bytes is checked on each. *)
Lemma all_bytes (P : Z → bool) :
  forallb P (seqZ 0 256) = true → ∀ x, in_width 8 x → P x = true.
Proof.
  intros H x Hx. rewrite forallb_forall in H. apply H. apply list_elem_of_In, elem_of_seqZ. exact Hx.
Qed.

(** The fields that share a byte with others. *)
Definition flag_fields : list TcpField := [TCwr; TEce; TUrg; TAckFlag; TPsh; TRst; TSyn; TFin].
Definition offset_fields : list TcpField := [TOffset; TNs].

Definition byte_header (x : Z) : TcpHeader := mkTcpHeader 0 0 0 0 x x 0 0 0.

(** Setting one field of a byte leaves a byte, is read back, and leaves the
    other fields. *)
Definition byte_laws (fields : list TcpField) (byte : TcpHeader → Z) (x : Z) : bool :=
  forallb (λ f, forallb (λ v,
    let h := tcp_set f (byte_header x) v in
    bool_decide (in_width 8 (byte h)) &&
    forallb (λ g, Z.eqb (tcp_get g h) (if decide (f = g) then v else tcp_get g (byte_header x))) fields)
    (seqZ 0 (2 ^ tcp_width f))) fields.

Lemma byte_laws_hold fields byte :
  forallb (byte_laws fields byte) (seqZ 0 256) = true →
  ∀ x f v, in_width 8 x → f ∈ fields → in_width (tcp_width f) v →
    let h := tcp_set f (byte_header x) v in
    in_width 8 (byte h) ∧
    ∀ g, g ∈ fields → tcp_get g h = if decide (f = g) then v else tcp_get g (byte_header x).
Proof.
  intros H x f v Hx Hf Hv h. pose proof (all_bytes _ H x Hx) as Hl. unfold byte_laws in Hl.
  rewrite forallb_forall in Hl. specialize (Hl f (proj1 (list_elem_of_In _ _) Hf)).
  rewrite forallb_forall in Hl. specialize (Hl v). fold h in Hl.
  apply andb_true_iff in Hl as [H1 H2]; [|by apply list_elem_of_In, elem_of_seqZ].
  split; [by apply bool_decide_eq_true in H1|]. intros g Hg. rewrite forallb_forall in H2.
  by apply Z.eqb_eq, H2, list_elem_of_In.
Qed.

Lemma flag_laws : forallb (byte_laws flag_fields tcp_flags) (seqZ 0 256) = true.
Proof. by vm_compute. Qed.

Lemma offset_laws : forallb (byte_laws offset_fields offset_to_ns) (seqZ 0 256) = true.
Proof. by vm_compute. Qed.

Ltac solve_in := solve [unfold flag_fields, offset_fields; repeat first [apply list_elem_of_here | apply list_elem_of_further]].

Ltac packed_cons := cbn; repeat match goal with |- Forall2 _ _ _ => constructor end.

Lemma bit_cases (v : Z) : in_width 1 v → v = 0 ∨ v = 1.
Proof. unfold in_width. lia. Qed.

(** every accessor of the TCP header reads what its setter wrote, and no
    setter disturbs another field: the nine flags, the data offset, and the
    fields in network order.  A header stays well formed, so that its wire bytes
    give it back. *)
Theorem tcp_accessors h f v :
  packed_ok h → in_width (tcp_width f) v →
  tcp_get f (tcp_set f h v) = v ∧ (∀ g, f ≠ g → tcp_get g (tcp_set f h v) = tcp_get g h) ∧
  packed_ok (tcp_set f h v) ∧ decode (encode (tcp_set f h v)) = tcp_set f h v.
Proof.
  intros Hh Hv.
  enough (packed_ok (tcp_set f h v) ∧ tcp_get f (tcp_set f h v) = v ∧
    (∀ g, f ≠ g → tcp_get g (tcp_set f h v) = tcp_get g h)) as (Hok & Hs & Ho)
    by (split_and!; [done..|by apply decode_encode]).
  pose proof (tcp_ok_fields h Hh) as [H1 H2]. unfold packed_ok in *. cbn in Hh.
  repeat match goal with H : Forall2 _ (_ :: _) _ |- _ => inversion_clear H end.
  destruct (decide (tcp_width f < 16)) as [Hw|Hw].
  - pose proof (byte_laws_hold _ _ flag_laws (tcp_flags h) f v H2) as Hf.
    pose proof (byte_laws_hold _ _ offset_laws (offset_to_ns h) f v H1) as Hn.
    destruct f; try done; cbn [tcp_width] in Hv; try (destruct (bit_cases v Hv) as [ -> | -> ]).
    all: first [destruct (Hf ltac:(solve_in) Hv) as [Hb Hg] | destruct (Hn ltac:(solve_in) Hv) as [Hb Hg]].
    all: split; [packed_cons; assumption|].
    all: split; [match goal with |- tcp_get ?g _ = _ => exact (Hg g ltac:(solve_in)) end|].
    all: intros g Hne; destruct g; first [by destruct Hne |
      match goal with |- tcp_get ?g _ = _ => exact (Hg g ltac:(solve_in)) end | reflexivity].
  - clear H1 H2. destruct f; try (by destruct Hw); cbn [tcp_width] in Hv; (split; [packed_cons|split]).
    all: try assumption; try (first [apply (bswap16_width v Hv) | apply (bswap32_width v Hv)]).
    all: try (intros g Hne; destruct g; first [by destruct Hne | reflexivity]).
    all: lazymatch type of Hv with
      in_width 16 _ => exact (bswap16_involutive v Hv) | _ => exact (bswap32_involutive v Hv) end.
Qed.

Lemma tcp_accessors_witness :
  let h := set_syn_flag (set_data_offset (set_seq_num TcpHeader_new 0xdeadbeef) 5) in
  tcp_get TAckFlag (tcp_set TAckFlag h 1) = 1 ∧ tcp_get TSeq (tcp_set TAckFlag h 1) = 0xdeadbeef ∧
  fmt_flags (tcp_set TAckFlag h 1) = "| ACK SYN |"%string.
Proof.
  intros h. destruct (tcp_accessors h TAckFlag 1) as (H1 & H2 & _);
    [apply (bool_decide_unpack _); vm_compute; exact I|apply (bool_decide_unpack _); vm_compute; exact I|].
  split; [exact H1|]. split; [|vm_compute; reflexivity]. rewrite (H2 TSeq) by discriminate. vm_compute. reflexivity.
Defined.
