(* ===== verification/Flow.v ===== *)
(** * Flow: the five-tuple of a connection

    Models net/framework/src/utils/flow.rs: IPv4 prefixes, and reading a flow
    from a packet and stamping it onto one.  The crate byteorder is the
    interface [ByteOrder]; the native checksum and hash functions are arguments. *)

From stdpp Require Import countable.
From S2P Require Import Prelude Bits Packed.

Record Flow := mkFlow {
  fl_src_ip : Z;
  fl_dst_ip : Z;
  fl_src_port : Z;
  fl_dst_port : Z;
  fl_proto : Z;
}.

#[export] Instance Flow_eq_dec : EqDecision Flow.
Proof. solve_decision. Defined.

#[export] Instance Flow_countable : Countable Flow.
Proof.
  refine (inj_countable' (λ f, (fl_src_ip f, fl_dst_ip f, fl_src_port f, fl_dst_port f, fl_proto f))
    (λ x, let '(a, b, c, d, e) := x in mkFlow a b c d e) _). by intros [].
Defined.

#[export] Instance Flow_packed : Packed Flow := {|
  layout := [4; 4; 2; 2; 1]%nat;
  to_fields f := [fl_src_ip f; fl_dst_ip f; fl_src_port f; fl_dst_port f; fl_proto f];
  of_fields l :=
    let f i := nth i l 0 in mkFlow (f 0%nat) (f 1%nat) (f 2%nat) (f 3%nat) (f 4%nat);
|}.

#[export] Instance Flow_laws : PackedLaws Flow.
Proof. packed_laws. Qed.

(** ** Prefixes *)

Record Ipv4Prefix := mkIpv4Prefix {
  pf_ip_address : Z;
  pf_prefix : Z;
  pf_mask : Z;
}.

(** [32 - prefix] is computed in [u8], and a shift of [u32] takes its distance
    modulo 32. *)
Definition Ipv4Prefix_new (address prefix : Z) : Ipv4Prefix :=
  let mask :=
    if decide (prefix = 0) then 0
    else
      let inv_pfx := wsub 8 32 prefix in
      Z.lxor (wrap 32 (Z.shiftl 1 (inv_pfx mod 32)) -u32 1) 0xffffffff in
  mkIpv4Prefix (Z.land address mask) prefix mask.

Definition in_range (p : Ipv4Prefix) (address : Z) : bool :=
  bool_decide (Z.land address (pf_mask p) = pf_ip_address p).

(** ** Flows and packets *)

(** The crate byteorder: big-endian integers of [n] bytes. *)
Class ByteOrder := {
  be_read : nat → bytes → Z;
  be_write : nat → Z → bytes;
}.

Class ByteOrderLaws `{ByteOrder} := {
  be_write_length : ∀ n v, length (be_write n v) = n;
  be_read_write : ∀ n v, in_width (8 * Z.of_nat n) v → be_read n (be_write n v) = v;
}.

(** [be.write(&mut bytes[a..b], v)] *)
Definition stamp_slice (bs : bytes) (a b : Z) (new : bytes) : outcome bytes :=
  _ ← slice bs a b;
  Ret (take (Z.to_nat a) bs ++ new ++ drop (Z.to_nat b) bs).

Definition IHL_TO_BYTE_FACTOR : Z := 4.

Definition port_start (bs : bytes) : outcome Z :=
  b ← index bs 0; Ret (Z.land b 0xf * IHL_TO_BYTE_FACTOR).

Definition ipv4_extract_flow `{ByteOrder} (bs : bytes) : outcome (option Flow) :=
  port_start ← port_start bs;
  proto ← index bs 9;
  src_ip ← be_read 4 <$> slice bs 12 16;
  dst_ip ← be_read 4 <$> slice bs 16 20;
  src_port ← be_read 2 <$> slice bs port_start (port_start + 2);
  dst_port ← be_read 2 <$> slice bs (port_start + 2) (port_start + 4);
  Ret (Some (mkFlow src_ip dst_ip src_port dst_port proto)).

Definition reverse_flow (f : Flow) : Flow :=
  mkFlow (fl_dst_ip f) (fl_src_ip f) (fl_dst_port f) (fl_src_port f) (fl_proto f).

(** [ipcsum] is the native checksum of the header. *)
Definition ipv4_stamp_flow `{ByteOrder} (ipcsum : bytes → Z) (f : Flow) (bs : bytes) : outcome bytes :=
  port_start ← port_start bs;
  bs ← stamp_slice bs 12 16 (be_write 4 (fl_src_ip f));
  bs ← stamp_slice bs 16 20 (be_write 4 (fl_dst_ip f));
  bs ← stamp_slice bs port_start (port_start + 2) (be_write 2 (fl_src_port f));
  bs ← stamp_slice bs (port_start + 2) (port_start + 4) (be_write 2 (fl_dst_port f));
  bs ← stamp_slice bs 10 12 (be_write 2 0);
  let csum := ipcsum bs in
  stamp_slice bs 10 12 (be_write 2 csum).

(** [hash] is the crate's hash of bytes, FNV. *)
Definition flow_as_u8 (f : Flow) : bytes := encode f.

Definition flow_hash (hash : bytes → Z) (f : Flow) : Z := hash (flow_as_u8 f).

Definition ipv4_flow_hash `{ByteOrder} (hash : bytes → Z) (bs : bytes) (_iv : Z) : outcome Z :=
  f ← ipv4_extract_flow bs;
  Ret (match f with Some flow => flow_hash hash flow | None => 0 end).

(** ** Prefixes match the leading bits *)

Lemma prefix_mask p :
  0 < p ≤ 32 →
  Z.lxor (wrap 32 (Z.shiftl 1 (wsub 8 32 p mod 32)) -u32 1) 0xffffffff = bf_mask (32 - p) p.
Proof.
  intros Hp. rewrite (wsub_id 8) by (unfold in_width; lia). rewrite Z.mod_small by lia.
  rewrite Z.shiftl_mul_pow2, Z.mul_1_l by lia.
  assert (0 < 2 ^ (32 - p) < 2 ^ 32) as Hw by (split; [apply Z.pow_pos_nonneg|apply Z.pow_lt_mono_r]; lia).
  rewrite wrap_id, wsub_id by (unfold in_width; lia). rewrite Z.sub_1_r, <- Z.ones_equiv.
  change 0xffffffff with (Z.ones 32). apply Z.bits_inj'. intros n Hn.
  rewrite Z.lxor_spec, bf_mask_testbit, !Z.testbit_ones by lia.
  replace (0 <=? n) with true by lia.
  destruct (Z.ltb_spec n (32 - p)), (Z.ltb_spec n 32); case_bool_decide; (done || lia).
Qed.

Lemma land_mask_div p a b :
  0 < p ≤ 32 → in_width 32 a → in_width 32 b →
  Z.land a (bf_mask (32 - p) p) = Z.land b (bf_mask (32 - p) p) ↔
  a / 2 ^ (32 - p) = b / 2 ^ (32 - p).
Proof.
  intros Hp Ha Hb.
  assert (∀ x, in_width 32 x → Z.land x (bf_mask (32 - p) p) = Z.shiftl (x / 2 ^ (32 - p)) (32 - p)) as Hl.
  { intros x Hx. rewrite <- Z.shiftr_div_pow2 by lia. bit_ext n. destruct (decide (n < 32 - p)).
    - rewrite shiftl_testbit, bool_decide_eq_false_2 by lia. by rewrite andb_false_r.
    - rewrite Z.shiftl_spec, Z.shiftr_spec by lia. replace (n - (32 - p) + (32 - p)) with n by lia.
      destruct (decide (n < 32)).
      + rewrite bool_decide_eq_true_2 by lia. by rewrite andb_true_r.
      + rewrite bool_decide_eq_false_2, andb_false_r by lia. symmetry. by apply (in_width_testbit 32); [|done|lia]. }
  rewrite !Hl by done. split; [|by intros ->]. rewrite !Z.shiftl_mul_pow2 by lia. intros He.
  apply Z.mul_cancel_r in He; [done|]. apply Z.pow_nonzero; lia.
Qed.

(** an address is in the range of a prefix of at most 32 bits when its
    leading bits are those of the prefix's address; the empty prefix contains
    every address. *)
Theorem prefix_matches_leading_bits address p a :
  0 ≤ p ≤ 32 → in_width 32 address → in_width 32 a →
  in_range (Ipv4Prefix_new address p) a = bool_decide (a / 2 ^ (32 - p) = address / 2 ^ (32 - p)).
Proof.
  intros Hp Ha Hb. unfold in_range, Ipv4Prefix_new. cbn [pf_mask pf_ip_address]. apply bool_decide_ext.
  case_decide as H0.
  - subst p. rewrite !Z.land_0_r. unfold in_width in *. rewrite !Z.div_small by lia. done.
  - rewrite prefix_mask by lia. apply land_mask_div; (done || lia).
Qed.

Lemma prefix_matches_leading_bits_witness :
  in_range (Ipv4Prefix_new 0xc0a80117 24) 0xc0a801fe = true ∧
  in_range (Ipv4Prefix_new 0xc0a80117 24) 0xc0a80217 = false.
Proof.
  split; (rewrite prefix_matches_leading_bits; [vm_compute; reflexivity|lia|split; vm_compute; easy..]).
Defined.

(** ** Stamping and extracting *)

Lemma stamp_slice_spec bs a b new :
  0 ≤ a ≤ b → b ≤ len bs → len new = b - a →
  ∃ bs', stamp_slice bs a b new = Ret bs' ∧ length bs' = length bs ∧ slice bs' a b = Ret new ∧
    ∀ i, (Z.of_nat i < a ∨ b ≤ Z.of_nat i) → bs' !! i = bs !! i.
Proof.
  intros Ha Hb Hn. unfold stamp_slice, slice at 1. rewrite decide_True by lia. cbn [mbind outcome_bind].
  assert (length (take (Z.to_nat a) bs) = Z.to_nat a) as Ht by (unfold len in *; rewrite length_take; lia).
  eexists. split; [done|]. split_and!.
  - rewrite !length_app, length_drop, Ht. unfold len in *. lia.
  - rewrite <- (app_nil_r (new ++ _)), <- (assoc_L (++)). apply slice_app; unfold len in *; [rewrite Ht|]; lia.
  - intros i Hi. destruct (decide (Z.of_nat i < a)).
    + rewrite lookup_app_l, lookup_take by lia. by rewrite decide_True by lia.
    + rewrite lookup_app_r, lookup_app_r, lookup_drop by (unfold len in *; lia). f_equal. unfold len in *. lia.
Qed.

Lemma slice_ext (l l' : bytes) a b :
  length l = length l' → 0 ≤ a → (∀ i, a ≤ Z.of_nat i < b → l !! i = l' !! i) → slice l a b = slice l' a b.
Proof.
  intros Hl Ha He. unfold slice, len. rewrite Hl. case_decide as Hc; [|done]. f_equal. apply list_eq. intros i.
  rewrite !lookup_take, !lookup_drop. case_decide; [|done]. apply He. lia.
Qed.

Lemma index_ext (l l' : bytes) i :
  l !! Z.to_nat i = l' !! Z.to_nat i → index l i = index l' i.
Proof. intros He. unfold index. by rewrite He. Qed.

(** Rewriting one slice of a packet keeps the bytes outside of it. *)
Ltac write_one bs' He Hl Hs Ho :=
  match goal with |- context [stamp_slice ?bs ?a ?b ?new] =>
    destruct (stamp_slice_spec bs a b new) as (bs' & He & Hl & Hs & Ho);
      [lia|unfold len in *; lia|unfold len; rewrite be_write_length; lia|];
    rewrite He; cbn [mbind outcome_bind] end.

(** A flow that is stamped onto a packet is extracted from it again, with
    the protocol of the packet, as long as the header has its full length; the
    checksum is that of the packet with a zero checksum, and all bytes but the
    addresses, the ports and the checksum stay as they were. *)
Lemma flow_stamped_is_extracted `{ByteOrderLaws} ipcsum f bs ps proto :
  packed_ok f → port_start bs = Ret ps → 20 ≤ ps → ps + 4 ≤ len bs → index bs 9 = Ret proto →
  ∃ zeroed bs', ipv4_stamp_flow ipcsum f bs = Ret bs' ∧
    ipv4_extract_flow bs' =
      Ret (Some (mkFlow (fl_src_ip f) (fl_dst_ip f) (fl_src_port f) (fl_dst_port f) proto)) ∧
    slice bs' 10 12 = Ret (be_write 2 (ipcsum zeroed)) ∧ slice zeroed 10 12 = Ret (be_write 2 0) ∧
    length bs' = length bs ∧ length zeroed = length bs ∧
    (∀ i, ¬ (10 ≤ Z.of_nat i < 12) → bs' !! i = zeroed !! i) ∧
    ∀ i, ¬ (10 ≤ Z.of_nat i < 20) → ¬ (ps ≤ Z.of_nat i < ps + 4) → bs' !! i = bs !! i.
Proof.
  intros Hf Hps H20 Hlen Hp. unfold ipv4_stamp_flow. rewrite Hps. cbn [mbind outcome_bind].
  write_one b1 E1 L1 S1 O1. write_one b2 E2 L2 S2 O2. write_one b3 E3 L3 S3 O3. write_one b4 E4 L4 S4 O4.
  write_one b5 E5 L5 S5 O5. write_one b6 E6 L6 S6 O6.
  unfold packed_ok in Hf. cbn in Hf. repeat match goal with H : Forall2 _ (_ :: _) _ |- _ => inversion_clear H end.
  assert (∀ i, (Z.of_nat i < 10 ∨ 20 ≤ Z.of_nat i) → (Z.of_nat i < ps ∨ ps + 4 ≤ Z.of_nat i) → b6 !! i = bs !! i) as Ho.
  { intros i Hi Hj. rewrite O6, O5, O4, O3, O2, O1 by lia. done. }
  exists b5, b6. split; [done|]. split_and!; [|done|done|congruence|congruence|intros i Hi; apply O6; lia|intros i Hi Hj; apply Ho; lia].
  assert (slice b6 12 16 = Ret (be_write 4 (fl_src_ip f))) as R1.
  { rewrite <- S1. apply slice_ext; [congruence|lia|]. intros i Hi. rewrite O6, O5, O4, O3, O2 by lia. done. }
  assert (slice b6 16 20 = Ret (be_write 4 (fl_dst_ip f))) as R2.
  { rewrite <- S2. apply slice_ext; [congruence|lia|]. intros i Hi. rewrite O6, O5, O4, O3 by lia. done. }
  assert (slice b6 ps (ps + 2) = Ret (be_write 2 (fl_src_port f))) as R3.
  { rewrite <- S3. apply slice_ext; [congruence|lia|]. intros i Hi. rewrite O6, O5, O4 by lia. done. }
  assert (slice b6 (ps + 2) (ps + 4) = Ret (be_write 2 (fl_dst_port f))) as R4.
  { rewrite <- S4. apply slice_ext; [congruence|lia|]. intros i Hi. rewrite O6, O5 by lia. done. }
  unfold ipv4_extract_flow.
  assert (port_start b6 = Ret ps) as ->.
  { rewrite <- Hps. unfold port_start. by rewrite (index_ext b6 bs) by (apply Ho; lia). }
  cbn [mbind outcome_bind]. rewrite (index_ext b6 bs), Hp by (apply Ho; lia). cbn [mbind outcome_bind].
  rewrite R1, R2, R3, R4. cbn [mbind outcome_bind fmap outcome_fmap]. by rewrite !be_read_write by done.
Qed.

(** Big-endian integers, as byteorder has them. *)
Definition be_instance : ByteOrder :=
  {| be_read n bs := le_val (rev bs); be_write n v := rev (le_bytes n v) |}.

Lemma be_instance_laws : @ByteOrderLaws be_instance.
Proof.
  split; intros n v; cbn.
  - by rewrite length_rev, le_bytes_length.
  - intros Hv. rewrite rev_involutive, le_val_bytes. by apply Z.mod_small.
Qed.
