(* ===== verification/Mergeable.v ===== *)
(** * Mergeable: NetBricks' per-flow state

    Models net/framework/src/state/{mergeable,cp_mergeable,dp_mergeable}.rs:
    a value per flow, which the data path updates through a cache and which is
    read on the data path itself ([DpMergeableStore]), by a control plane that
    shares the map under a lock ([MergeableStoreCP], [MergeableStoreDP]), or by
    one that receives the updates over a bounded channel
    ([CpMergeableStoreControlPlane], [CpMergeableStoreDataPath]).

    Maps behind an [Arc] are elements of a list, which the stores refer to by
    index.  Whether a lock can be taken without waiting is an argument. *)

From stdpp Require Import gmap.
From S2P Require Import Prelude Flow.

(** [HashMap::extend]: an entry replaces one that is there. *)
Definition map_extend {T} (m : gmap Flow T) (l : list (Flow * T)) : gmap Flow T :=
  foldl (λ m kv, <[kv.1 := kv.2]> m) m l.

Section stores.
Context {T : Type} (T_add : T → T → T) (T_default : T).

(** ** Read on the data path *)

Record DpMergeableStore := mkDpMergeableStore {
  dps_state : gmap Flow T;
  dps_cache : list (Flow * T);
  dps_cache_size : Z;
}.

(** [size] is the map's initial capacity. *)
Definition dps_with_cache_and_size (cache _size : Z) : DpMergeableStore :=
  mkDpMergeableStore ∅ [] cache.

Definition DpMergeableStore_new : DpMergeableStore := dps_with_cache_and_size (2 ^ 14) (2 ^ 24).

Definition dps_merge_cache (d : DpMergeableStore) : DpMergeableStore :=
  mkDpMergeableStore (map_extend (dps_state d) (dps_cache d)) [] (dps_cache_size d).

Definition dps_update (d : DpMergeableStore) (flow : Flow) (inc : T) : DpMergeableStore :=
  let d := mkDpMergeableStore (dps_state d) (dps_cache d ++ [(flow, inc)]) (dps_cache_size d) in
  if decide (len (dps_cache d) >= dps_cache_size d) then dps_merge_cache d else d.

Definition dps_remove (d : DpMergeableStore) (flow : Flow) : DpMergeableStore * T :=
  let d := dps_merge_cache d in
  (mkDpMergeableStore (delete flow (dps_state d)) (dps_cache d) (dps_cache_size d),
   default T_default (dps_state d !! flow)).

Definition dps_iter (d : DpMergeableStore) : DpMergeableStore * gmap Flow T :=
  let d := dps_merge_cache d in (d, dps_state d).

Definition dps_len (d : DpMergeableStore) : DpMergeableStore * Z :=
  let d := dps_merge_cache d in (d, Z.of_nat (size (dps_state d))).

Definition dps_is_empty (d : DpMergeableStore) : bool :=
  bool_decide (dps_state d = ∅ ∧ dps_cache d = []).

(** ** Read by a control plane over a channel *)

(** The channel of [sync_channel]: the batches on their way. *)
Record Channel := mkChannel {
  ch_queue : list (list (Flow * T));
  ch_bound : Z;
}.

(** A full channel refuses the batch; one without room only hands over to a
    receiver that waits, which none does here. *)
Definition try_send (c : Channel) (batch : list (Flow * T)) : Channel * bool :=
  if decide (len (ch_queue c) < ch_bound c) then (mkChannel (ch_queue c ++ [batch]) (ch_bound c), true)
  else (c, false).

Definition try_recv (c : Channel) : option (Channel * list (Flow * T)) :=
  match ch_queue c with
  | [] => None
  | batch :: rest => Some (mkChannel rest (ch_bound c), batch)
  end.

Record CpMergeableStoreDataPath := mkCpDataPath {
  cpd_cache : list (Flow * T);
  cpd_updates : Z;
  cpd_delay : Z;
}.

Record CpMergeableStoreControlPlane := mkCpControlPlane {
  cpc_flow_counters : gmap Flow T;
}.

Definition cp_update (c : Channel) (d : CpMergeableStoreDataPath) (flow : Flow) (inc : T) :
    Channel * CpMergeableStoreDataPath :=
  let cache := cpd_cache d ++ [(flow, inc)] in
  let updates := cpd_updates d +u64 1 in
  if decide (updates >= cpd_delay d) then
    let (c, _) := try_send c cache in
    (c, mkCpDataPath [] 0 (cpd_delay d))
  else (c, mkCpDataPath cache updates (cpd_delay d)).

Definition update_internal (p : CpMergeableStoreControlPlane) (v : list (Flow * T)) :
    CpMergeableStoreControlPlane :=
  mkCpControlPlane
    (foldl (λ m kv, <[kv.1 := T_add (default T_default (m !! kv.1)) kv.2]> m) (cpc_flow_counters p) v).

Definition cp_recv (c : Channel) (p : CpMergeableStoreControlPlane) :
    Channel * CpMergeableStoreControlPlane :=
  match try_recv c with
  | None => (c, p)
  | Some (c, v) => (c, update_internal p v)
  end.

Definition cp_get (p : CpMergeableStoreControlPlane) (flow : Flow) : T :=
  match cpc_flow_counters p !! flow with Some i => i | None => T_default end.

Definition cp_iter (p : CpMergeableStoreControlPlane) : gmap Flow T := cpc_flow_counters p.

Definition cp_len (p : CpMergeableStoreControlPlane) : Z := Z.of_nat (size (cpc_flow_counters p)).

Definition cp_is_empty (p : CpMergeableStoreControlPlane) : bool := bool_decide (cpc_flow_counters p = ∅).

Definition cp_remove (p : CpMergeableStoreControlPlane) (flow : Flow) : CpMergeableStoreControlPlane * T :=
  (mkCpControlPlane (delete flow (cpc_flow_counters p)), default T_default (cpc_flow_counters p !! flow)).

Definition new_cp_mergeable_store (delay channel_size : Z) :
    Channel * CpMergeableStoreDataPath * CpMergeableStoreControlPlane :=
  (mkChannel [] channel_size, mkCpDataPath [] 0 delay, mkCpControlPlane ∅).

(** ** Read by a control plane that shares the map *)

Definition MERGE_CACHE_SIZE : Z := 2 ^ 10.
Definition MAX_CACHE_SIZE : Z := 2 ^ 20.

(** The maps behind an [Arc<RwLock<HashMap>>]. *)
Abbreviation maps := (list (gmap Flow T)).

Record MergeableStoreCP := mkMergeableStoreCP {
  mcp_flow_counters : gmap Flow T;
  mcp_hashmaps : list nat;
}.

Record MergeableStoreDP := mkMergeableStoreDP {
  mdp_flow_counters : nat;
  mdp_cache : list (Flow * T);
  mdp_base_cache_size : Z;
  mdp_cache_size : Z;
  mdp_len : Z;
}.

Definition MergeableStoreCP_new : MergeableStoreCP := mkMergeableStoreCP ∅ [].

Definition dp_store_with_cache_and_size (ms : maps) (p : MergeableStoreCP) (cache _size : Z) :
    maps * MergeableStoreCP * MergeableStoreDP :=
  let hmap := length ms in
  (ms ++ [∅], mkMergeableStoreCP (mcp_flow_counters p) (mcp_hashmaps p ++ [hmap]),
   mkMergeableStoreDP hmap [] cache cache 0).

Definition dp_store (ms : maps) (p : MergeableStoreCP) : maps * MergeableStoreCP * MergeableStoreDP :=
  dp_store_with_cache_and_size ms p MERGE_CACHE_SIZE (2 ^ 10).

Definition hmap_to_vec (m : gmap Flow T) : list (Flow * T) := map_to_list m.

(** [readable] says of which maps the read lock is free. *)
Definition sync (ms : maps) (p : MergeableStoreCP) (readable : nat → bool) : MergeableStoreCP :=
  let copies := omap (λ h, if readable h then hmap_to_vec <$> ms !! h else None) (mcp_hashmaps p) in
  mkMergeableStoreCP (foldl map_extend ∅ copies) (mcp_hashmaps p).

Definition mcp_get (p : MergeableStoreCP) (flow : Flow) : T :=
  match mcp_flow_counters p !! flow with Some i => i | None => T_default end.

Definition mcp_iter (p : MergeableStoreCP) : gmap Flow T := mcp_flow_counters p.
Definition mcp_len (p : MergeableStoreCP) : Z := Z.of_nat (size (mcp_flow_counters p)).
Definition mcp_is_empty (p : MergeableStoreCP) : bool := bool_decide (mcp_flow_counters p = ∅).

(** The map [h] with the cache merged into it. *)
Definition mdp_merged (ms : maps) (d : MergeableStoreDP) : gmap Flow T :=
  map_extend (default ∅ (ms !! mdp_flow_counters d)) (mdp_cache d).

Definition mdp_drained (d : MergeableStoreDP) (g : gmap Flow T) : MergeableStoreDP :=
  mkMergeableStoreDP (mdp_flow_counters d) [] (mdp_base_cache_size d) (mdp_base_cache_size d)
    (Z.of_nat (size g)).

(** [writable] says whether the write lock is free. *)
Definition mdp_merge_cache (ms : maps) (d : MergeableStoreDP) (writable : bool) :
    maps * MergeableStoreDP :=
  if writable then
    let g := mdp_merged ms d in
    (<[mdp_flow_counters d := g]> ms, mdp_drained d g)
  else
    (ms, mkMergeableStoreDP (mdp_flow_counters d) (mdp_cache d) (mdp_base_cache_size d)
           (Z.max (wrap 64 (mdp_cache_size d * 2)) MAX_CACHE_SIZE) (mdp_len d)).

Definition mdp_update (ms : maps) (d : MergeableStoreDP) (writable : bool) (flow : Flow) (inc : T) :
    maps * MergeableStoreDP :=
  let d := mkMergeableStoreDP (mdp_flow_counters d) (mdp_cache d ++ [(flow, inc)])
             (mdp_base_cache_size d) (mdp_cache_size d) (mdp_len d) in
  if decide (len (mdp_cache d) >= mdp_cache_size d) then mdp_merge_cache ms d writable else (ms, d).

(** [write] waits for the lock, which no panic ever poisons. *)
Definition mdp_remove (ms : maps) (d : MergeableStoreDP) (flow : Flow) : maps * MergeableStoreDP * T :=
  let g := mdp_merged ms d in
  (<[mdp_flow_counters d := delete flow g]> ms, mdp_drained d g, default T_default (g !! flow)).

Definition mdp_length (d : MergeableStoreDP) : Z := mdp_len d.
Definition mdp_is_empty (d : MergeableStoreDP) : bool := bool_decide (mdp_len d ≠ 0).
End stores.

(** * What the stores keep *)

Section stores.
Context {T : Type} `{!EqDecision T} (T_add : T → T → T) (T_default : T).

(** The values of one flow in a list of updates. *)
Definition updates_of (f : Flow) (l : list (Flow * T)) : list T :=
  omap (λ kv, if decide (kv.1 = f) then Some kv.2 else None) l.

Lemma updates_of_app f l1 l2 : updates_of f (l1 ++ l2) = updates_of f l1 ++ updates_of f l2.
Proof. apply omap_app. Qed.

Lemma map_extend_app (m : gmap Flow T) l1 l2 :
  map_extend m (l1 ++ l2) = map_extend (map_extend m l1) l2.
Proof. apply foldl_app. Qed.

(** Extending a map keeps the last value of each flow. *)
Lemma map_extend_lookup (m : gmap Flow T) l f :
  map_extend m l !! f = match last (updates_of f l) with Some x => Some x | None => m !! f end.
Proof.
  induction l as [|[g x] l IH] using rev_ind; [done|].
  rewrite map_extend_app, updates_of_app. cbn. destruct (decide (g = f)) as [->|Hne]; cbn.
  - by rewrite last_snoc, lookup_insert_eq.
  - by rewrite app_nil_r, lookup_insert_ne.
Qed.

(** ** The data-path store is a map *)

Inductive DpOp := DpUpdate (f : Flow) (x : T) | DpRemove (f : Flow) | DpIter | DpLen | DpIsEmpty.

(** What an operation answers. *)
Inductive DpAnswer := DpNone | DpValue (x : T) | DpMap (m : gmap Flow T) | DpCount (n : Z) | DpBool (b : bool).

Definition dp_step (d : DpMergeableStore) (o : DpOp) : DpMergeableStore * DpAnswer :=
  match o with
  | DpUpdate f x => (dps_update d f x, DpNone)
  | DpRemove f => let (d, x) := dps_remove T_default d f in (d, DpValue x)
  | DpIter => let (d, m) := dps_iter d in (d, DpMap m)
  | DpLen => let (d, n) := dps_len d in (d, DpCount n)
  | DpIsEmpty => (d, DpBool (dps_is_empty d))
  end.

(** The specification: a map that an update overwrites. *)
Definition map_step (m : gmap Flow T) (o : DpOp) : gmap Flow T * DpAnswer :=
  match o with
  | DpUpdate f x => (<[f := x]> m, DpNone)
  | DpRemove f => (delete f m, DpValue (default T_default (m !! f)))
  | DpIter => (m, DpMap m)
  | DpLen => (m, DpCount (Z.of_nat (size m)))
  | DpIsEmpty => (m, DpBool (bool_decide (m = ∅)))
  end.

Fixpoint answers {S} (step : S → DpOp → S * DpAnswer) (s : S) (os : list DpOp) : list DpAnswer :=
  match os with
  | [] => []
  | o :: os => let (s, a) := step s o in a :: answers step s os
  end.

(** The map that a store stands for. *)
Definition dps_view (d : DpMergeableStore) : gmap Flow T := map_extend (dps_state d) (dps_cache d).

Lemma dps_view_empty d : dps_view d = ∅ ↔ dps_state d = ∅ ∧ dps_cache d = [].
Proof.
  unfold dps_view. split; [|by intros [-> ->]]. intros He.
  destruct (dps_cache d) as [|[f x] l] eqn:Ec; [done|]. exfalso.
  assert (map_extend (dps_state d) ((f, x) :: l) !! f = None) as Hn by by rewrite He.
  rewrite map_extend_lookup in Hn. cbn in Hn. rewrite decide_True in Hn by done.
  rewrite last_cons in Hn. by destruct (last _).
Qed.

Lemma dp_step_refines d o :
  let (d', a) := dp_step d o in let (m', a') := map_step (dps_view d) o in dps_view d' = m' ∧ a = a'.
Proof.
  destruct o as [f x|f| | |]; cbn; try done.
  - split; [|done]. unfold dps_update. cbn [dps_cache dps_cache_size dps_state].
    case_decide; unfold dps_merge_cache, dps_view; cbn [dps_state dps_cache];
      by rewrite ?map_extend_app.
  - split; [done|]. f_equal. apply bool_decide_ext. symmetry. apply dps_view_empty.
Qed.

Lemma dp_answers_refine os d m : dps_view d = m → answers dp_step d os = answers map_step m os.
Proof.
  revert d m. induction os as [|o os IH]; intros d m Hv; [done|]. cbn.
  pose proof (dp_step_refines d o) as Hs. rewrite Hv in Hs.
  destruct (dp_step d o) as [d' a], (map_step m o) as [m' a']. destruct Hs as [Hv' ->]. by rewrite (IH d' m').
Qed.

(** the store of the data path is a map.  Whatever the size of its cache,
    each sequence of updates, removals, lookups of all entries and questions for
    its size is answered as by a plain map, on which an update overwrites the
    value of its flow: nothing is added up. *)
Theorem dp_store_is_map cache size os :
  answers dp_step (dps_with_cache_and_size cache size) os = answers map_step ∅ os.
Proof. by apply dp_answers_refine. Qed.

(** ** The store behind a channel *)

Inductive CpEvent := CpUpdate (f : Flow) (x : T) | CpRecv.

(** The system of a data path and a control plane, with what was lost to a full
    channel and what was received. *)
Record cp_history := {
  ch_chan : @Channel T;
  ch_dp : @CpMergeableStoreDataPath T;
  ch_cp : @CpMergeableStoreControlPlane T;
  ch_lost : list (Flow * T);
  ch_received : list (Flow * T);
}.

Definition cp_event (h : cp_history) (e : CpEvent) : cp_history :=
  match e with
  | CpUpdate f x =>
      let (c, d) := cp_update (ch_chan h) (ch_dp h) f x in
      {| ch_chan := c; ch_dp := d; ch_cp := ch_cp h;
         ch_lost := ch_lost h ++
           (let batch := cpd_cache (ch_dp h) ++ [(f, x)] in
            if decide (cpd_updates (ch_dp h) +u64 1 >= cpd_delay (ch_dp h)) then
              if snd (try_send (ch_chan h) batch) then [] else batch
            else []);
         ch_received := ch_received h |}
  | CpRecv =>
      let (c, p) := cp_recv T_add T_default (ch_chan h) (ch_cp h) in
      {| ch_chan := c; ch_dp := ch_dp h; ch_cp := p; ch_lost := ch_lost h;
         ch_received := ch_received h ++ (match ch_queue (ch_chan h) with b :: _ => b | [] => [] end) |}
  end.

Definition cp_start (delay size : Z) : cp_history :=
  let '(c, d, p) := new_cp_mergeable_store delay size in
  {| ch_chan := c; ch_dp := d; ch_cp := p; ch_lost := []; ch_received := [] |}.

(** The updates among the events. *)
Definition cp_updates (es : list CpEvent) : list (Flow * T) :=
  omap (λ e, match e with CpUpdate f x => Some (f, x) | CpRecv => None end) es.

Lemma update_internal_get p l f :
  cp_get T_default (update_internal T_add T_default p l) f =
  foldl T_add (cp_get T_default p f) (updates_of f l).
Proof.
  unfold update_internal. revert p. induction l as [|[g x] l IH]; intros p; [done|]. cbn.
  specialize (IH (mkCpControlPlane (<[g := T_add (default T_default (cpc_flow_counters p !! g)) x]>
    (cpc_flow_counters p)))). cbn in IH. unfold updates_of in IH. rewrite IH. unfold cp_get. cbn.
  destruct (decide (g = f)) as [->|Hne]; cbn.
  - by rewrite lookup_insert_eq.
  - by rewrite lookup_insert_ne.
Qed.

(** Where the updates are. *)
Record cp_ok (delay size : Z) (h : cp_history) (us : list (Flow * T)) : Prop := {
  co_received : ∀ f, cp_get T_default (ch_cp h) f = foldl T_add T_default (updates_of f (ch_received h));
  co_order : sublist (ch_received h ++ concat (ch_queue (ch_chan h)) ++ cpd_cache (ch_dp h)) us;
  co_all : us ≡ₚ ch_received h ++ concat (ch_queue (ch_chan h)) ++ cpd_cache (ch_dp h) ++ ch_lost h;
  co_queue : len (ch_queue (ch_chan h)) ≤ Z.max 0 size;
  co_bound : ch_bound (ch_chan h) = size;
  co_delay : cpd_delay (ch_dp h) = delay;
  co_batches : Forall (λ b, len b = Z.max 1 delay) (ch_queue (ch_chan h));
  co_lossless : ch_lost h = [] ∨ (size + 1) * Z.max 1 delay ≤ len us;
  co_cache : cpd_updates (ch_dp h) = len (cpd_cache (ch_dp h)) ∧ len (cpd_cache (ch_dp h)) < Z.max 1 delay;
}.

Lemma cp_event_ok delay size h us e :
  delay < 2 ^ 64 → 0 ≤ size → cp_ok delay size h us →
  cp_ok delay size (cp_event h e) (us ++ cp_updates [e]).
Proof.
  intros Hd64 Hsz [Hg Ho Ha Hq Hb Hd Hbs Hl [Hu Hc]].
  assert (∀ us', len us ≤ len (us ++ us')) as Hmono by (intros us'; rewrite len_app; pose proof (len_nonneg us'); lia). destruct e as [f x|]; cbn.
  - unfold cp_update. rewrite Hu, Hd. pose proof (len_nonneg (cpd_cache (ch_dp h))).
    rewrite wadd_id by (unfold in_width; lia). case_decide as Hfull.
    + unfold try_send. case_decide as Hroom; cbn [ch_chan ch_dp ch_cp ch_lost ch_received snd ch_queue cpd_cache cpd_updates cpd_delay ch_bound].
      * split; cbn [ch_chan ch_dp ch_cp ch_lost ch_received ch_queue cpd_cache cpd_updates cpd_delay ch_bound]; try done.
        -- rewrite concat_app. cbn. rewrite !app_nil_r, !(assoc_L (++)) in *. by apply sublist_app.
        -- rewrite concat_app. cbn. rewrite !app_nil_r. rewrite Ha. by solve_Permutation.
        -- rewrite len_app. change (len [_]) with 1. lia.
        -- apply Forall_app. split; [done|]. repeat constructor. rewrite len_app. change (len [_]) with 1. lia.
        -- destruct Hl as [->|Hl]; [by left|right; specialize (Hmono [(f, x)]); lia].
        -- change (len []) with 0. lia.
      * split; cbn [ch_chan ch_dp ch_cp ch_lost ch_received ch_queue cpd_cache cpd_updates cpd_delay ch_bound]; try done.
        -- rewrite app_nil_r. apply sublist_inserts_r. etrans; [|exact Ho]. rewrite (assoc_L (++)). by apply sublist_inserts_r.
        -- rewrite Ha. by solve_Permutation.
        -- right. apply Permutation_length in Ha. rewrite !length_app in Ha.
           pose proof (len_concat _ _ Hbs). rewrite len_app. change (len [_]) with 1. unfold len in *. nia.
        -- change (len []) with 0. lia.
    + split; cbn [ch_chan ch_dp ch_cp ch_lost ch_received ch_queue cpd_cache cpd_updates cpd_delay ch_bound]; try done.
      * rewrite !(assoc_L (++)) in *. by apply sublist_app.
      * rewrite app_nil_r, Ha. by solve_Permutation.
      * rewrite app_nil_r. destruct Hl as [->|Hl]; [by left|right; specialize (Hmono [(f, x)]); lia].
      * rewrite len_app. change (len [_]) with 1. lia.
  - rewrite app_nil_r. unfold cp_recv, try_recv. destruct (ch_queue (ch_chan h)) as [|b q] eqn:Eq.
    + split; cbn; rewrite ?Eq, ?app_nil_r; try done.
    + cbn in Ho, Ha. split; cbn [ch_chan ch_dp ch_cp ch_lost ch_received ch_queue cpd_cache cpd_updates cpd_delay ch_bound]; try done.
      * intros f. rewrite update_internal_get, Hg, updates_of_app. by rewrite foldl_app.
      * by rewrite <- !(assoc_L (++)) in *.
      * rewrite Ha. by rewrite <- !(assoc_L (++)).
      * unfold len in *. cbn in Hq. lia.
      * by inversion Hbs.
Qed.

Lemma sublist_same_length {A} (l1 l2 : list A) : sublist l1 l2 → length l1 = length l2 → l1 = l2.
Proof.
  induction 1 as [|x l1 l2 _ IH|x l1 l2 Hl _]; cbn; intros He; [done|by rewrite IH by lia|].
  apply sublist_length in Hl. lia.
Qed.

(** the store behind a channel adds updates up, or loses them by the batch.
    The value of a flow is the sum, in their order, of the updates received; what
    was received, what is on its way and what is still cached are in the order in
    which they were made, and what is missing of the updates are the batches that
    met a full channel.  None are missing while all batches fit the channel. *)
Theorem cp_store_adds_up delay size es :
  delay < 2 ^ 64 → 0 ≤ size →
  let h := foldl cp_event (cp_start delay size) es in
  let kept := ch_received h ++ concat (ch_queue (ch_chan h)) ++ cpd_cache (ch_dp h) in
  (∀ f, cp_get T_default (ch_cp h) f = foldl T_add T_default (updates_of f (ch_received h))) ∧
  sublist kept (cp_updates es) ∧ cp_updates es ≡ₚ kept ++ ch_lost h ∧
  len (ch_queue (ch_chan h)) ≤ size ∧ len (cpd_cache (ch_dp h)) < Z.max 1 delay ∧
  (len (cp_updates es) < (size + 1) * Z.max 1 delay → kept = cp_updates es).
Proof.
  intros Hd Hsz h kept. assert (cp_ok delay size h (cp_updates es)) as [Hg Ho Ha Hq _ _ _ Hl [_ Hc]].
  { subst h. clear kept. induction es as [|e es IH] using rev_ind.
    - split; try done; [cbn; change (len []) with 0; lia|by left|cbn; change (len []) with 0; lia].
    - rewrite foldl_app. unfold cp_updates. rewrite omap_app. by apply cp_event_ok. }
  assert (cp_updates es ≡ₚ kept ++ ch_lost h) as Hp by (rewrite Ha; unfold kept; solve_Permutation).
  split_and!; [done..|lia|lia|]. intros Hlt. destruct Hl as [Hl|Hl]; [|lia].
  rewrite Hl, app_nil_r in Hp. apply sublist_same_length; [done|]. by rewrite Hp.
Qed.

(** ** The store behind a lock *)

(** An update, and whether the lock is free when the cache is full. *)
Definition mdp_updates (md : list (gmap Flow T) * MergeableStoreDP) (us : list (Flow * T * bool)) :
    list (gmap Flow T) * MergeableStoreDP :=
  foldl (λ md u, let '(f, x, w) := u in mdp_update (fst md) (snd md) w f x) md us.

Lemma mdp_update_spec (ms : list (gmap Flow T)) d m f x w :
  ms !! mdp_flow_counters d = Some m →
  let '(ms', d') := mdp_update ms d w f x in
  mdp_flow_counters d' = mdp_flow_counters d ∧
  ∃ merged, mdp_cache d ++ [(f, x)] = merged ++ mdp_cache d' ∧
    ms' !! mdp_flow_counters d = Some (map_extend m merged) ∧
    (∀ h, h ≠ mdp_flow_counters d → ms' !! h = ms !! h).
Proof.
  intros Hm. unfold mdp_update, mdp_merge_cache, mdp_merged, mdp_drained. cbn [mdp_cache mdp_cache_size mdp_flow_counters].
  rewrite Hm. apply lookup_lt_Some in Hm as Hlt.
  case_decide; [destruct w|]; cbn [mdp_flow_counters mdp_cache]; (split; [done|]).
  - eexists. rewrite app_nil_r. split; [done|]. rewrite list_lookup_insert_eq by done. split; [done|].
    intros h Hh. by rewrite list_lookup_insert_ne.
  - by exists [].
  - by exists [].
Qed.

Lemma mdp_updates_spec us (ms : list (gmap Flow T)) d m :
  ms !! mdp_flow_counters d = Some m →
  let '(ms', d') := mdp_updates (ms, d) us in
  mdp_flow_counters d' = mdp_flow_counters d ∧
  ∃ merged, mdp_cache d ++ us.*1 = merged ++ mdp_cache d' ∧
    ms' !! mdp_flow_counters d = Some (map_extend m merged) ∧
    (∀ h, h ≠ mdp_flow_counters d → ms' !! h = ms !! h).
Proof.
  revert ms d m. induction us as [|[[f x] w] us IH]; intros ms d m Hm; cbn.
  - split; [done|]. exists []. by rewrite app_nil_r.
  - pose proof (mdp_update_spec ms d m f x w Hm) as H1.
    destruct (mdp_update ms d w f x) as [ms1 d1]. destruct H1 as (Hd1 & l1 & Hl1 & Hm1 & Ho1).
    rewrite <- Hd1 in Hm1. pose proof (IH ms1 d1 _ Hm1) as H2. unfold mdp_updates in H2.
    destruct (foldl _ (ms1, d1) us) as [ms2 d2]. destruct H2 as (Hd2 & l2 & Hl2 & Hm2 & Ho2).
    split; [congruence|]. exists (l1 ++ l2). split; [|split].
    + rewrite (assoc_L (++) (mdp_cache d) [(f, x)]) || rewrite cons_middle, (assoc_L (++)).
      rewrite Hl1, <- !(assoc_L (++)). by rewrite Hl2.
    + rewrite map_extend_app. by rewrite <- Hd1.
    + intros h Hh. rewrite Ho2, Ho1 by congruence. done.
Qed.

Lemma map_extend_to_list (m m' : gmap Flow T) : map_extend m (map_to_list m') = m' ∪ m.
Proof.
  apply map_eq. intros f. rewrite map_extend_lookup, lookup_union.
  destruct (m' !! f) as [x|] eqn:E.
  - assert (∀ y, y ∈ updates_of f (map_to_list m') → y = x) as Hu.
    { intros y Hy. apply list_elem_of_omap in Hy as ([g z] & Hg & Hz). apply elem_of_map_to_list in Hg.
      cbn in Hz. case_decide; [|done]. subst. congruence. }
    assert (x ∈ updates_of f (map_to_list m')) as Hx.
    { apply list_elem_of_omap. exists (f, x). split; [by apply elem_of_map_to_list|]. cbn. by rewrite decide_True. }
    destruct (last (updates_of f (map_to_list m'))) as [y|] eqn:El.
    + apply last_Some_elem_of in El. rewrite (Hu y El). by destruct (m !! f).
    + apply last_None in El. rewrite El in Hx. by apply not_elem_of_nil in Hx.
  - destruct (last (updates_of f (map_to_list m'))) as [y|] eqn:El; [|by destruct (m !! f)].
    apply last_Some_elem_of, list_elem_of_omap in El as ([g z] & Hg & Hz). apply elem_of_map_to_list in Hg.
    cbn in Hz. case_decide; [|done]. subst. congruence.
Qed.

Lemma map_extend_union (m : gmap Flow T) l : map_extend m l = map_extend ∅ l ∪ m.
Proof.
  apply map_eq. intros f. rewrite lookup_union, !map_extend_lookup, lookup_empty.
  destruct (last (updates_of f l)); by destruct (m !! f).
Qed.

#[local] Arguments map_extend : simpl never.

(** the store behind a lock shows the last updates.  After a synchronisation
    a flow has the value of the last of its updates that was merged into a map
    whose lock was free, on whichever data path; the others, and those that are
    still in a cache, count for nothing, and a flow whose maps were locked is back
    at the default.  A removal gives back the last update on its own data path. *)
Theorem mergeable_shows_last cache1 cache2 size us1 us2 readable :
  let '(ms, p, d1) := dp_store_with_cache_and_size [] MergeableStoreCP_new cache1 size in
  let '(ms, p, d2) := dp_store_with_cache_and_size ms p cache2 size in
  let '(ms, d1) := mdp_updates (ms, d1) us1 in
  let '(ms, d2) := mdp_updates (ms, d2) us2 in
  ∃ merged1 merged2, us1.*1 = merged1 ++ mdp_cache d1 ∧ us2.*1 = merged2 ++ mdp_cache d2 ∧
    (∀ f, mcp_get T_default (sync ms p readable) f =
      default T_default (last (updates_of f
        ((if readable 0%nat then merged1 else []) ++ (if readable 1%nat then merged2 else []))))) ∧
    (∀ f, snd (mdp_remove T_default ms d2 f) = default T_default (last (updates_of f us2.*1))).
Proof.
  cbn. set (p := mkMergeableStoreCP ∅ [0%nat; 1%nat]).
  set (d1 := mkMergeableStoreDP 0 [] cache1 cache1 0). set (d2 := mkMergeableStoreDP 1 [] cache2 cache2 0).
  pose proof (mdp_updates_spec us1 [∅; ∅] d1 ∅ eq_refl) as H1.
  destruct (mdp_updates ([∅; ∅], d1) us1) as [ms1 d1']. destruct H1 as (Hd1 & l1 & Hl1 & Hm1 & Ho1).
  assert (ms1 !! mdp_flow_counters d2 = Some ∅) as H0 by (cbn; by rewrite Ho1).
  pose proof (mdp_updates_spec us2 ms1 d2 ∅ H0) as H2.
  destruct (mdp_updates (ms1, d2) us2) as [ms2 d2']. destruct H2 as (Hd2 & l2 & Hl2 & Hm2 & Ho2).
  exists l1, l2. split; [done|]. split; [done|]. cbn in Hm2, Hl2.
  assert (ms2 !! 0%nat = Some (map_extend ∅ l1)) as Hm1' by by rewrite Ho2.
  split; intros f.
  - unfold mcp_get, sync, hmap_to_vec. cbn [mcp_flow_counters mcp_hashmaps p omap list_omap].
    assert (∀ m, mcp_get T_default (mkMergeableStoreCP (map_extend ∅ m) []) f =
      default T_default (last (updates_of f m))) as Hg.
    { intros m. unfold mcp_get. cbn. rewrite map_extend_lookup, lookup_empty. by destruct (last _). }
    unfold mcp_get in Hg. cbn in Hg. rewrite Hm1', Hm2.
    destruct (readable 0%nat), (readable 1%nat); cbn; rewrite ?map_extend_to_list, ?(right_id_L ∅ (∪)), ?app_nil_r.
    + rewrite <- map_extend_union, <- map_extend_app. apply Hg.
    + apply Hg.
    + apply Hg.
    + by rewrite lookup_empty.
  - cbn. unfold mdp_merged. rewrite Hd2. cbn. rewrite Hm2. cbn.
    rewrite <- map_extend_app, <- Hl2, map_extend_lookup, lookup_empty. by destruct (last _).
Qed.
End stores.

(** Two updates to a batch and room for one: the second batch is lost. *)
Lemma cp_store_adds_up_witness :
  let f := mkFlow 1 2 3 4 6 in
  let h := foldl (cp_event Z.add 0) (cp_start 2 1)
    [CpUpdate f 1; CpUpdate f 10; CpUpdate f 100; CpUpdate f 1000; CpRecv; CpUpdate f 5] in
  cp_get 0 (ch_cp h) f = foldl Z.add 0 (updates_of f (ch_received h)) ∧ cp_get 0 (ch_cp h) f = 11 ∧
  ch_lost h = [(f, 100); (f, 1000)].
Proof.
  intros f h.
  destruct (cp_store_adds_up Z.add 0 2 1
    [CpUpdate f 1; CpUpdate f 10; CpUpdate f 100; CpUpdate f 1000; CpRecv; CpUpdate f 5]) as [Hg _]; [lia|lia|].
  split; [apply Hg|]. split; vm_compute; reflexivity.
Defined.
