(* ===== verification/Batch.v ===== *)
(** * Batch: NetBricks' packet batches and their operators

    Models net/framework/src/operators: batches of mbufs, and the operators
    that are stacked on them (parse, map, filter, transform, metadata, reset,
    deparse, compose, merge, receive, send), each with the traits [Act] and
    [BatchIterator], here the class [Batch].  Ports are the traits [PacketRx]
    and [PacketTx] (interface/mod.rs).

    Mbufs live in a [World] that also remembers which were taken from a pool or
    a port, freed and sent.  A closure is a function of its captured state. *)

From stdpp Require Import gmap.
From S2P Require Import Prelude Packed Headers Packet.

(** ** Mbufs in memory *)

Abbreviation ptr := Z (only parsing).

Record World := mkWorld {
  w_mbufs : gmap Z MBuf;
  (** The metadata slots behind each mbuf. *)
  w_slots : Z → Z → Z;
  w_taken : list ptr;
  w_freed : list ptr;
  w_sent : list ptr;
}.

(** The last reference to an mbuf frees it. *)
Definition mbuf_unref (ms : gmap Z MBuf) (p : ptr) : gmap Z MBuf :=
  match ms !! p with
  | Some m =>
      if decide (refcnt m > 1) then
        <[p := mkMBuf (data_off m) (refcnt m - 1) (pkt_len m) (data_len m) (buf m)]> ms
      else delete p ms
  | None => ms
  end.

(** [mbuf_free_bulk], which always answers 0. *)
Definition mbuf_free_bulk (w : World) (ps : list ptr) : World * Z :=
  (mkWorld (foldl mbuf_unref (w_mbufs w) ps) (w_slots w) (w_taken w) (w_freed w ++ ps) (w_sent w), 0).

(** [mbuf_alloc_bulk]: DPDK's pool, which may be exhausted. *)
Class MbufPool := mbuf_alloc_bulk : World → Z → Z → option (World * list ptr).

(** A port or queue: it is given a slice of pointers, and gives it back with
    the number received or sent, or an error. *)
Class PacketRx (Q : Type) := rx_recv : World → Q → list ptr → World * Q * (list ptr * option Z).
Class PacketTx (P : Type) := tx_send : World → P → list ptr → World * P * (list ptr * option Z).

(** ** Packets of a batch *)

(** [Packet<H, M>]: a pointer to an mbuf and two into its data. *)
Record PacketDescriptor (H : Type) := mkPacketDescriptor {
  pd_mbuf : ptr;
  pd_header : Z;
  pd_offset : Z;
}.

Arguments mkPacketDescriptor {_} _ _ _.
Arguments pd_mbuf {_} _.
Arguments pd_header {_} _.
Arguments pd_offset {_} _.

(** What a closure sees of a packet: its contents and its metadata slots. *)
Record Pkt (H : Type) := mkPkt {
  pk_packet : Packet H;
  pk_slots : Z → Z;
}.

Arguments mkPkt {_} _ _.
Arguments pk_packet {_} _.
Arguments pk_slots {_} _.

Definition load {H} (w : World) (d : PacketDescriptor H) : outcome (Pkt H) :=
  m ← unchecked (w_mbufs w !! pd_mbuf d);
  Ret (mkPkt (create_packet m (pd_header d) (pd_offset d)) (w_slots w (pd_mbuf d))).

Definition set_slots (w : World) (p : ptr) (s : Z → Z) : World :=
  mkWorld (w_mbufs w) (λ q, if decide (q = p) then s else w_slots w q) (w_taken w) (w_freed w) (w_sent w).

Definition store {H} (w : World) (d : PacketDescriptor H) (p : Pkt H) : World :=
  set_slots (mkWorld (<[pd_mbuf d := mbuf (pk_packet p)]> (w_mbufs w)) (w_slots w) (w_taken w) (w_freed w)
               (w_sent w)) (pd_mbuf d) (pk_slots p).

Definition HEADER_SLOT : Z := 0.
Definition OFFSET_SLOT : Z := HEADER_SLOT + 1.
Definition STACK_DEPTH_SLOT : Z := OFFSET_SLOT + 1.
Definition STACK_OFFSET_SLOT : Z := STACK_DEPTH_SLOT + 1.
Definition STACK_SIZE : Z := 0.
Definition FREEFORM_METADATA_SLOT : Z := STACK_OFFSET_SLOT + STACK_SIZE.
Definition METADATA_SLOTS : Z := 16.
Definition FREEFORM_METADATA_SIZE : Z := (METADATA_SLOTS - FREEFORM_METADATA_SLOT) * 8.

Definition write_slot (s : Z → Z) (i x : Z) : Z → Z := λ j, if decide (j = i) then x else s j.

Definition push_offset (s : Z → Z) (offset : Z) : option ((Z → Z) * Z) :=
  let depth := s STACK_DEPTH_SLOT in
  if decide (depth < STACK_SIZE) then
    let s := write_slot s STACK_DEPTH_SLOT (depth + 1) in
    Some (write_slot s (STACK_OFFSET_SLOT + depth) offset, depth + 1)
  else None.

Definition pop_offset (s : Z → Z) : option ((Z → Z) * Z) :=
  let depth := s STACK_DEPTH_SLOT in
  if decide (depth > 0) then
    Some (write_slot s STACK_DEPTH_SLOT (depth - 1), s (STACK_OFFSET_SLOT + (depth - 1)))
  else None.

(** Metadata of a type of [len words] words: [None] when it is too large. *)
Fixpoint write_words (s : Z → Z) (i : Z) (words : list Z) : Z → Z :=
  match words with
  | [] => s
  | x :: words => write_words (write_slot s i x) (i + 1) words
  end.

Definition write_metadata (s : Z → Z) (words : list Z) : option (Z → Z) :=
  if decide (8 * len words >= FREEFORM_METADATA_SIZE) then None
  else Some (write_words s FREEFORM_METADATA_SLOT words).

(** [restore_saved_header]; an offset of an address in the buffer is never
    null, so that 0 stands for the null pointer. *)
Definition restore_saved_header {H H2} (w : World) (d : PacketDescriptor H) : option (PacketDescriptor H2) :=
  let s := w_slots w (pd_mbuf d) in
  if decide (s HEADER_SLOT = 0) then None
  else Some (mkPacketDescriptor (pd_mbuf d) (s HEADER_SLOT) (s OFFSET_SLOT)).

(** ** PacketBatch *)

(** [array] is a vector of capacity [length pb_mem], of which the first
    [pb_len] elements are there. *)
Record PacketBatch := mkPacketBatch {
  pb_mem : list ptr;
  pb_len : Z;
  pb_scratch : list ptr;
  pb_parent_tasks : list Z;
}.

Definition pb_array (b : PacketBatch) : list ptr := take (Z.to_nat (pb_len b)) (pb_mem b).

(** [mem] is what the memory of the vector happens to hold. *)
Definition PacketBatch_new (mem : list ptr) : PacketBatch := mkPacketBatch mem 0 [] [].

Definition add_parent_task (b : PacketBatch) (task : Z) : PacketBatch :=
  mkPacketBatch (pb_mem b) (pb_len b) (pb_scratch b) (pb_parent_tasks b ++ [task]).

Definition pb_capacity (b : PacketBatch) : Z := len (pb_mem b).

Definition pb_available (b : PacketBatch) : Z := pb_len b.

(** [self.array.set_len(n)] *)
Definition pb_set_len (b : PacketBatch) (n : Z) : outcome PacketBatch :=
  if decide (0 ≤ n ≤ pb_capacity b) then
    Ret (mkPacketBatch (pb_mem b) n (pb_scratch b) (pb_parent_tasks b))
  else Undef.

(** The array with its elements replaced. *)
Definition pb_with_array (b : PacketBatch) (a : list ptr) : PacketBatch :=
  mkPacketBatch (a ++ drop (length a) (pb_mem b)) (pb_len b) (pb_scratch b) (pb_parent_tasks b).

Definition pb_with_scratch (b : PacketBatch) (s : list ptr) : PacketBatch :=
  mkPacketBatch (pb_mem b) (pb_len b) s (pb_parent_tasks b).

(** The [bool] is [Ok]/[Err]. *)
Definition alloc_packet_batch `{MbufPool} (w : World) (b : PacketBatch) (length cnt : Z) :
    outcome (World * PacketBatch * bool) :=
  if decide (pb_capacity b < cnt) then Ret (w, b, false)
  else
    match mbuf_alloc_bulk w length cnt with
    | None => Ret (w, b, false)
    | Some (w, ps) => b ← pb_set_len (pb_with_array b ps) cnt; Ret (w, b, true)
    end.

Definition allocate_batch_with_size `{MbufPool} (w : World) (b : PacketBatch) (length : Z) :=
  alloc_packet_batch w b length (pb_capacity b).

Definition allocate_partial_batch_with_size `{MbufPool} (w : World) (b : PacketBatch) (length cnt : Z) :=
  alloc_packet_batch w b length cnt.

Definition free_packet_batch (w : World) (b : PacketBatch) : outcome (World * PacketBatch * bool) :=
  if decide (pb_len b = 0) then Ret (w, b, true)
  else
    let (w, ret) := mbuf_free_bulk w (pb_array b) in
    b ← pb_set_len b 0;
    Ret (w, b, bool_decide (ret = 0)).

Definition deallocate_batch (w : World) (b : PacketBatch) : outcome (World * PacketBatch * bool) :=
  free_packet_batch w b.

(** [None] is an error; the batch then has its full capacity. *)
Definition recv_internal `{PacketRx Q} (w : World) (b : PacketBatch) (port : Q) :
    outcome (World * PacketBatch * Q * option Z) :=
  b ← pb_set_len b (pb_capacity b);
  let '(w, port, (ps, r)) := rx_recv w port (pb_array b) in
  let b := pb_with_array b ps in
  match r with
  | None => Ret (w, b, port, None)
  | Some recv => b ← pb_set_len b recv; Ret (w, b, port, Some recv)
  end.

Definition pb_recv `{PacketRx Q} (w : World) (b : PacketBatch) (port : Q) :
    outcome (World * PacketBatch * Q * option Z) :=
  '(w, b, ok) ← deallocate_batch w b;
  if ok : bool then recv_internal w b port else Ret (w, b, port, None).

(** The loop that drops packets: the array, the scratch vector, and the three
    indices. *)
Fixpoint drop_loop (fuel : nat) (a scratch : list ptr) (idxes : list Z) (orig new remove : Z) :
    outcome (list ptr * list ptr * (Z * Z * Z)) :=
  if decide (orig < len a ∧ remove < len idxes) then
    match fuel with
    | O => Undef
    | S fuel =>
        test_idx ← index idxes remove;
        _ ← assert_ (orig <= test_idx);
        x ← index a orig;
        if decide (orig = test_idx) then
          drop_loop fuel a (scratch ++ [x]) idxes (orig + 1) new (remove + 1)
        else
          a ← set_index a new x;
          drop_loop fuel a scratch idxes (orig + 1) (new + 1) remove
    end
  else Ret (a, scratch, (orig, new, remove)).

(** Copying the packets that are left. *)
Fixpoint copy_loop (fuel : nat) (a : list ptr) (orig new : Z) : outcome (list ptr * Z) :=
  if decide (orig < len a) then
    match fuel with
    | O => Undef
    | S fuel =>
        x ← index a orig;
        a ← set_index a new x;
        copy_loop fuel a (orig + 1) (new + 1)
    end
  else Ret (a, new).

Definition drop_packets_stable (w : World) (b : PacketBatch) (idxes : list Z) :
    outcome (World * PacketBatch * option Z) :=
  if decide (idxes = []) then Ret (w, b, Some 0)
  else
    let fuel := length (pb_array b) in
    '(a, scratch, (orig, new, remove)) ← drop_loop fuel (pb_array b) (pb_scratch b) idxes 0 0 0;
    '(a, new) ← copy_loop fuel a orig new;
    let b := pb_with_scratch (pb_with_array b a) scratch in
    if decide (remove < len idxes) then Ret (w, b, None)
    else
      b ← pb_set_len b new;
      if decide (scratch = []) then Ret (w, b, Some 0)
      else
        let (w, ret) := mbuf_free_bulk w scratch in
        Ret (w, pb_with_scratch b [], if decide (ret = 0) then Some (len scratch) else None).

Fixpoint consume_loop (fuel : nat) (a : list ptr) (new idx : Z) : outcome (list ptr) :=
  if decide (idx < len a) then
    match fuel with
    | O => Undef
    | S fuel => x ← index a idx; a ← set_index a new x; consume_loop fuel a (new + 1) (idx + 1)
    end
  else Ret a.

(** A port that claims to have sent more than it was given would wrap the length
    around, far beyond the capacity. *)
Definition consume_batch_partial (b : PacketBatch) (consumed : Z) : outcome PacketBatch :=
  a ← consume_loop (length (pb_array b)) (pb_array b) 0 consumed;
  pb_set_len (pb_with_array b a) (pb_len b - consumed).

Definition consume_batch (b : PacketBatch) : outcome PacketBatch := pb_set_len b 0.

Definition pb_send_q `{PacketTx P} (w : World) (b : PacketBatch) (port : P) :
    outcome (World * PacketBatch * P * option Z) :=
  if decide (pb_available b > 0) then
    let '(w, port, (ps, r)) := tx_send w port (pb_array b) in
    let b := pb_with_array b ps in
    match r with
    | None => Ret (w, b, port, None)
    | Some sent => b ← consume_batch_partial b sent; Ret (w, b, port, Some sent)
    end
  else Ret (w, b, port, Some 0).

(** ** The traits [Act] and [BatchIterator] *)

(** [H] is the header of the batch's packets.  [get_packet_batch] gives the
    batch at the bottom and how to put it back. *)
Class Batch (V : Type) (H : Type) := {
  act : World → V → outcome (World * V);
  done_ : World → V → outcome (World * V);
  send_q : ∀ P, PacketTx P → World → V → P → outcome (World * V * P * option Z);
  capacity : V → Z;
  drop_packets : World → V → list Z → outcome (World * V * option Z);
  clear_packets : V → outcome V;
  get_packet_batch : V → outcome (PacketBatch * (PacketBatch → V));
  get_task_dependencies : V → list Z;
  start : V → outcome Z;
  next_payload : World → V → Z → outcome (World * option (PacketDescriptor H));
}.

Arguments send_q {V H _ P _} _ _ _.

(** [PayloadEnumerator]: the loop over the packets, whose body gets the index
    and the packet and has a state.  The fuel is the number of packets. *)
Fixpoint enumerate {V H S} `{Batch V H}
    (body : World → S → Z → PacketDescriptor H → outcome (World * S))
    (fuel : nat) (w : World) (v : V) (idx : Z) (s : S) : outcome (World * S) :=
  '(w, item) ← next_payload w v idx;
  match item with
  | None => Ret (w, s)
  | Some d =>
      match fuel with
      | O => Undef
      | Datatypes.S fuel => '(w, s) ← body w s idx d; enumerate body fuel w v (idx + 1) s
      end
  end.

Definition for_each_packet {V H S} `{Batch V H}
    (body : World → S → Z → PacketDescriptor H → outcome (World * S)) (w : World) (v : V) (s : S) :
    outcome (World * S) :=
  '(b, _) ← get_packet_batch v;
  idx ← start v;
  enumerate body (length (pb_array b)) w v idx s.

(** ** The batch of mbufs itself *)

#[export] Instance PacketBatch_batch : Batch PacketBatch NullHeader := {|
  act w b := Ret (w, b);
  done_ w b := Ret (w, b);
  send_q P _ w b port := pb_send_q w b port;
  capacity b := pb_capacity b;
  drop_packets w b idxes := drop_packets_stable w b idxes;
  clear_packets b := consume_batch b;
  get_packet_batch b := Ret (b, λ b, b);
  get_task_dependencies b := pb_parent_tasks b;
  start b := Ret 0;
  next_payload w b idx :=
    if decide (idx < pb_len b) then
      p ← index (pb_array b) idx;
      m ← unchecked (w_mbufs w !! p);
      Ret (w, Some (mkPacketDescriptor p (data_address m 0) 0))
    else Ret (w, None);
|}.

(** ** Receiving *)

Record ReceiveBatch (Q : Type) := mkReceiveBatch {
  rc_parent : PacketBatch;
  rc_queue : Q;
  rc_received : Z;
}.

Arguments mkReceiveBatch {_} _ _ _.
Arguments rc_parent {_} _.
Arguments rc_queue {_} _.
Arguments rc_received {_} _.

Definition new_with_parent {Q} (parent : PacketBatch) (queue : Q) : ReceiveBatch Q :=
  mkReceiveBatch parent queue 0.

(** The batch of [ReceiveBatch::new] holds 32 mbufs, [mem] at the start. *)
Definition ReceiveBatch_new {Q} (mem : list ptr) (queue : Q) : ReceiveBatch Q :=
  mkReceiveBatch (PacketBatch_new mem) queue 0.

Definition rc_with_parent {Q} (r : ReceiveBatch Q) (b : PacketBatch) : ReceiveBatch Q :=
  mkReceiveBatch b (rc_queue r) (rc_received r).

Definition receive_act `{PacketRx Q} (w : World) (r : ReceiveBatch Q) : outcome (World * ReceiveBatch Q) :=
  '(w, b) ← act w (rc_parent r);
  '(w, b, q, x) ← pb_recv w b (rc_queue r);
  n ← expect x;
  Ret (w, mkReceiveBatch b q (rc_received r +u64 n)).

Definition receive_done {Q} (w : World) (r : ReceiveBatch Q) : outcome (World * ReceiveBatch Q) :=
  '(w, b, ok) ← deallocate_batch w (rc_parent r);
  _ ← assert_ (ok = true);
  Ret (w, rc_with_parent r b).

#[export] Instance ReceiveBatch_batch `{PacketRx Q} : Batch (ReceiveBatch Q) NullHeader := {|
  act := receive_act;
  done_ := receive_done;
  send_q P _ w r port :=
    '(w, b, port, n) ← send_q w (rc_parent r) port; Ret (w, rc_with_parent r b, port, n);
  capacity r := capacity (rc_parent r);
  drop_packets w r idxes :=
    '(w, b, n) ← drop_packets w (rc_parent r) idxes; Ret (w, rc_with_parent r b, n);
  clear_packets r := b ← clear_packets (rc_parent r); Ret (rc_with_parent r b);
  get_packet_batch r := Ret (rc_parent r, rc_with_parent r);
  get_task_dependencies r := get_task_dependencies (rc_parent r);
  start r := start (rc_parent r);
  next_payload w r idx := next_payload w (rc_parent r) idx;
|}.

(** ** Operators that pass everything on to their parent

    The macro [act!]: an operator with a parent, at which every operation but
    the iteration is done. *)
Section forward.
Context {V H H' U : Type} `{Batch V H} (get : U → V) (set : U → V → U).

Definition fwd_act (f : World → V → outcome (World * V)) (w : World) (u : U) : outcome (World * U) :=
  '(w, v) ← f w (get u); Ret (w, set u v).

Definition fwd_send_q {P} `{PacketTx P} (w : World) (u : U) (port : P) : outcome (World * U * P * option Z) :=
  '(w, v, port, n) ← send_q w (get u) port; Ret (w, set u v, port, n).

Definition fwd_drop_packets (w : World) (u : U) (idxes : list Z) : outcome (World * U * option Z) :=
  '(w, v, n) ← drop_packets w (get u) idxes; Ret (w, set u v, n).

Definition fwd_clear_packets (u : U) : outcome U := v ← clear_packets (get u); Ret (set u v).

Definition fwd_get_packet_batch (u : U) : outcome (PacketBatch * (PacketBatch → U)) :=
  '(b, put) ← get_packet_batch (get u); Ret (b, λ b, set u (put b)).

Definition forward (cap : U → Z) (act' done' : World → U → outcome (World * U))
    (next' : World → U → Z → outcome (World * option (PacketDescriptor H'))) : Batch U H' := {|
  act := act';
  done_ := done';
  send_q P _ := fwd_send_q;
  capacity := cap;
  drop_packets := fwd_drop_packets;
  clear_packets := fwd_clear_packets;
  get_packet_batch := fwd_get_packet_batch;
  get_task_dependencies u := get_task_dependencies (get u);
  start u := start (get u);
  next_payload := next';
|}.
End forward.

(** The iteration of an operator that changes each packet of its parent. *)
Definition map_payload {V H H'} `{Batch V H}
    (f : World → PacketDescriptor H → outcome (World * PacketDescriptor H')) (w : World) (v : V) (idx : Z) :
    outcome (World * option (PacketDescriptor H')) :=
  '(w, item) ← next_payload w v idx;
  match item with
  | Some d => '(w, d) ← f w d; Ret (w, Some d)
  | None => Ret (w, None)
  end.

(** [parse]: the payload of each packet read as the header [T]. *)
Record ParsedBatch (T V : Type) := mkParsedBatch { pa_parent : V }.
Arguments mkParsedBatch {_ _} _.
Arguments pa_parent {_ _} _.

Definition parse_descriptor {H} (T : Type) `{EndOffset H} `{EndOffset T} `{!Follows T H}
    (w : World) (d : PacketDescriptor H) : outcome (World * PacketDescriptor T) :=
  p ← load w d;
  q ← parse_header T (pk_packet p);
  Ret (w, mkPacketDescriptor (pd_mbuf d) (header q) (pkt_offset q)).

#[export] Instance ParsedBatch_batch {T V H} `{EndOffset H} `{EndOffset T} `{!Follows T H} `{Batch V H} :
    Batch (ParsedBatch T V) T :=
  forward pa_parent (λ _, mkParsedBatch) (λ u, capacity (pa_parent u))
    (fwd_act pa_parent (λ _, mkParsedBatch) act)
    (fwd_act pa_parent (λ _, mkParsedBatch) done_)
    (λ w u idx, map_payload (parse_descriptor T) w (pa_parent u) idx).

(** [deparse]: each packet back at the header before. *)
Record DeparsedBatch (V : Type) := mkDeparsedBatch { de_parent : V }.
Arguments mkDeparsedBatch {_} _.
Arguments de_parent {_} _.

Definition deparse_header_stack {H} (T : Type) (w : World) (d : PacketDescriptor H) :
    option (World * PacketDescriptor T) :=
  match pop_offset (w_slots w (pd_mbuf d)) with
  | None => None
  | Some (s, offset) =>
      Some (set_slots w (pd_mbuf d) s,
            mkPacketDescriptor (pd_mbuf d) (pd_header d - offset) (pd_offset d -u64 offset))
  end.

#[export] Instance DeparsedBatch_batch {T V H} `{!Follows H T} `{Batch V H} :
    Batch (DeparsedBatch V) T :=
  forward de_parent (λ _, mkDeparsedBatch) (λ u, capacity (de_parent u))
    (fwd_act de_parent (λ _, mkDeparsedBatch) act)
    (fwd_act de_parent (λ _, mkDeparsedBatch) done_)
    (λ w u idx, map_payload (λ w d, expect (deparse_header_stack T w d)) w (de_parent u) idx).

(** [reset]: each packet from its start. *)
Record ResetParsingBatch (V : Type) := mkResetParsingBatch { re_parent : V }.
Arguments mkResetParsingBatch {_} _.
Arguments re_parent {_} _.

Definition reset_descriptor {H} (w : World) (d : PacketDescriptor H) :
    outcome (World * PacketDescriptor NullHeader) :=
  p ← load w d;
  let q := reset (pk_packet p) in
  Ret (w, mkPacketDescriptor (pd_mbuf d) (header q) (pkt_offset q)).

#[export] Instance ResetParsingBatch_batch {V H} `{Batch V H} : Batch (ResetParsingBatch V) NullHeader :=
  forward re_parent (λ _, mkResetParsingBatch) (λ u, capacity (re_parent u))
    (fwd_act re_parent (λ _, mkResetParsingBatch) act)
    (fwd_act re_parent (λ _, mkResetParsingBatch) done_)
    (λ w u idx, map_payload reset_descriptor w (re_parent u) idx).

(** [compose]: a reset batch; erasing its type leaves no trace. *)
Record CompositionBatch (V : Type) := mkCompositionBatch { co_parent : ResetParsingBatch V }.
Arguments mkCompositionBatch {_} _.
Arguments co_parent {_} _.

Definition CompositionBatch_new {V} (parent : V) : CompositionBatch V :=
  mkCompositionBatch (mkResetParsingBatch parent).

#[export] Instance CompositionBatch_batch {V H} `{Batch V H} : Batch (CompositionBatch V) NullHeader :=
  forward co_parent (λ _, mkCompositionBatch) (λ u, capacity (co_parent u))
    (fwd_act co_parent (λ _, mkCompositionBatch) act)
    (fwd_act co_parent (λ _, mkCompositionBatch) done_)
    (λ w u idx, next_payload w (co_parent u) idx).

(** The header that was saved in the mbuf. *)
Record RestoreHeader (T V : Type) := mkRestoreHeader { rh_parent : V }.
Arguments mkRestoreHeader {_ _} _.
Arguments rh_parent {_ _} _.

#[export] Instance RestoreHeader_batch {T V H} `{Batch V H} : Batch (RestoreHeader T V) T :=
  forward rh_parent (λ _, mkRestoreHeader) (λ u, capacity (rh_parent u))
    (fwd_act rh_parent (λ _, mkRestoreHeader) act)
    (fwd_act rh_parent (λ _, mkRestoreHeader) done_)
    (λ w u idx, map_payload (λ w d, d' ← expect (restore_saved_header w d); Ret (w, d')) w (rh_parent u) idx).

(** ** Operators with a closure

    [F] is what the closure captures; [applied] keeps it from being run twice on
    the same packets. *)

Record MapBatch (V H F : Type) := mkMapBatch {
  mp_parent : V;
  mp_transformer : F → Pkt H → outcome F;
  mp_state : F;
  mp_applied : bool;
}.
Arguments mkMapBatch {_ _ _} _ _ _ _.
Arguments mp_parent {_ _ _} _.
Arguments mp_transformer {_ _ _} _.
Arguments mp_state {_ _ _} _.
Arguments mp_applied {_ _ _} _.

Definition MapBatch_new {V H F} (parent : V) (transformer : F → Pkt H → outcome F) (f : F) : MapBatch V H F :=
  mkMapBatch parent transformer f false.

Definition mp_with_parent {V H F} (u : MapBatch V H F) (v : V) : MapBatch V H F :=
  mkMapBatch v (mp_transformer u) (mp_state u) (mp_applied u).

Definition map_act {V H F} `{Batch V H} (w : World) (u : MapBatch V H F) : outcome (World * MapBatch V H F) :=
  if mp_applied u then Ret (w, u)
  else
    '(w, v) ← act w (mp_parent u);
    '(w, f) ← for_each_packet (λ w f _ d, p ← load w d; f ← mp_transformer u f p; Ret (w, f)) w v (mp_state u);
    Ret (w, mkMapBatch v (mp_transformer u) f true).

Definition map_done {V H F} `{Batch V H} (w : World) (u : MapBatch V H F) : outcome (World * MapBatch V H F) :=
  '(w, v) ← done_ w (mp_parent u);
  Ret (w, mkMapBatch v (mp_transformer u) (mp_state u) false).

#[export] Instance MapBatch_batch {V H F} `{Batch V H} : Batch (MapBatch V H F) H :=
  forward mp_parent mp_with_parent (λ u, capacity (mp_parent u))
    map_act map_done (λ w u idx, next_payload w (mp_parent u) idx).

(** A transformer may write to the packet. *)
Record TransformBatch (V H F : Type) := mkTransformBatch {
  tr_parent : V;
  tr_transformer : F → Pkt H → outcome (Pkt H * F);
  tr_state : F;
  tr_applied : bool;
}.
Arguments mkTransformBatch {_ _ _} _ _ _ _.
Arguments tr_parent {_ _ _} _.
Arguments tr_transformer {_ _ _} _.
Arguments tr_state {_ _ _} _.
Arguments tr_applied {_ _ _} _.

Definition TransformBatch_new {V H F} (parent : V) (transformer : F → Pkt H → outcome (Pkt H * F)) (f : F) :
    TransformBatch V H F :=
  mkTransformBatch parent transformer f false.

Definition tr_with_parent {V H F} (u : TransformBatch V H F) (v : V) : TransformBatch V H F :=
  mkTransformBatch v (tr_transformer u) (tr_state u) (tr_applied u).

Definition transform_act {V H F} `{Batch V H} (w : World) (u : TransformBatch V H F) :
    outcome (World * TransformBatch V H F) :=
  if tr_applied u then Ret (w, u)
  else
    '(w, v) ← act w (tr_parent u);
    '(w, f) ← for_each_packet
      (λ w f _ d, p ← load w d; '(p, f) ← tr_transformer u f p; Ret (store w d p, f)) w v (tr_state u);
    Ret (w, mkTransformBatch v (tr_transformer u) f true).

Definition transform_done {V H F} `{Batch V H} (w : World) (u : TransformBatch V H F) :
    outcome (World * TransformBatch V H F) :=
  '(w, v) ← done_ w (tr_parent u);
  Ret (w, mkTransformBatch v (tr_transformer u) (tr_state u) false).

#[export] Instance TransformBatch_batch {V H F} `{Batch V H} : Batch (TransformBatch V H F) H :=
  forward tr_parent tr_with_parent (λ u, capacity (tr_parent u))
    transform_act transform_done (λ w u idx, next_payload w (tr_parent u) idx).

(** Metadata that a generator computes from each packet, written behind the
    mbuf.  The generator of the mutable variant may write to the packet. *)
Record AddMetadataBatch (V H F : Type) := mkAddMetadataBatch {
  am_parent : V;
  am_generator : F → Pkt H → outcome (list Z * F);
  am_state : F;
  am_applied : bool;
}.
Arguments mkAddMetadataBatch {_ _ _} _ _ _ _.
Arguments am_parent {_ _ _} _.
Arguments am_generator {_ _ _} _.
Arguments am_state {_ _ _} _.
Arguments am_applied {_ _ _} _.

Definition AddMetadataBatch_new {V H F} (parent : V) (generator : F → Pkt H → outcome (list Z * F)) (f : F) :
    AddMetadataBatch V H F :=
  mkAddMetadataBatch parent generator f false.

Definition am_with_parent {V H F} (u : AddMetadataBatch V H F) (v : V) : AddMetadataBatch V H F :=
  mkAddMetadataBatch v (am_generator u) (am_state u) (am_applied u).

(** [packet.write_metadata(&metadata).unwrap()] *)
Definition put_metadata {H} (w : World) (d : PacketDescriptor H) (words : list Z) : outcome World :=
  s ← expect (write_metadata (w_slots w (pd_mbuf d)) words);
  Ret (set_slots w (pd_mbuf d) s).

Definition metadata_act {V H F} `{Batch V H} (w : World) (u : AddMetadataBatch V H F) :
    outcome (World * AddMetadataBatch V H F) :=
  if am_applied u then Ret (w, u)
  else
    '(w, v) ← act w (am_parent u);
    '(w, f) ← for_each_packet
      (λ w f _ d, p ← load w d; '(m, f) ← am_generator u f p; w ← put_metadata w d m; Ret (w, f)) w v (am_state u);
    Ret (w, mkAddMetadataBatch v (am_generator u) f true).

Definition metadata_done {V H F} `{Batch V H} (w : World) (u : AddMetadataBatch V H F) :
    outcome (World * AddMetadataBatch V H F) :=
  '(w, v) ← done_ w (am_parent u);
  Ret (w, mkAddMetadataBatch v (am_generator u) (am_state u) false).

#[export] Instance AddMetadataBatch_batch {V H F} `{Batch V H} : Batch (AddMetadataBatch V H F) H :=
  forward am_parent am_with_parent (λ u, capacity (am_parent u))
    metadata_act metadata_done (λ w u idx, next_payload w (am_parent u) idx).

Record MutableAddMetadataBatch (V H F : Type) := mkMutableAddMetadataBatch {
  mm_parent : V;
  mm_generator : F → Pkt H → outcome (list Z * Pkt H * F);
  mm_state : F;
  mm_applied : bool;
}.
Arguments mkMutableAddMetadataBatch {_ _ _} _ _ _ _.
Arguments mm_parent {_ _ _} _.
Arguments mm_generator {_ _ _} _.
Arguments mm_state {_ _ _} _.
Arguments mm_applied {_ _ _} _.

Definition MutableAddMetadataBatch_new {V H F} (parent : V)
    (generator : F → Pkt H → outcome (list Z * Pkt H * F)) (f : F) : MutableAddMetadataBatch V H F :=
  mkMutableAddMetadataBatch parent generator f false.

Definition mm_with_parent {V H F} (u : MutableAddMetadataBatch V H F) (v : V) : MutableAddMetadataBatch V H F :=
  mkMutableAddMetadataBatch v (mm_generator u) (mm_state u) (mm_applied u).

Definition mutable_metadata_act {V H F} `{Batch V H} (w : World) (u : MutableAddMetadataBatch V H F) :
    outcome (World * MutableAddMetadataBatch V H F) :=
  if mm_applied u then Ret (w, u)
  else
    '(w, v) ← act w (mm_parent u);
    '(w, f) ← for_each_packet
      (λ w f _ d, p ← load w d; '(m, p, f) ← mm_generator u f p; w ← put_metadata (store w d p) d m; Ret (w, f))
      w v (mm_state u);
    Ret (w, mkMutableAddMetadataBatch v (mm_generator u) f true).

Definition mutable_metadata_done {V H F} `{Batch V H} (w : World) (u : MutableAddMetadataBatch V H F) :
    outcome (World * MutableAddMetadataBatch V H F) :=
  '(w, v) ← done_ w (mm_parent u);
  Ret (w, mkMutableAddMetadataBatch v (mm_generator u) (mm_state u) false).

#[export] Instance MutableAddMetadataBatch_batch {V H F} `{Batch V H} :
    Batch (MutableAddMetadataBatch V H F) H :=
  forward mm_parent mm_with_parent (λ u, capacity (mm_parent u))
    mutable_metadata_act mutable_metadata_done
    (λ w u idx, next_payload w (mm_parent u) idx).

(** A filter collects the indices to drop; it runs on every [act]. *)
Record FilterBatch (V H F : Type) := mkFilterBatch {
  fi_parent : V;
  fi_filter : F → Pkt H → outcome (bool * F);
  fi_state : F;
  fi_capacity : Z;
  fi_remove : list Z;
}.
Arguments mkFilterBatch {_ _ _} _ _ _ _ _.
Arguments fi_parent {_ _ _} _.
Arguments fi_filter {_ _ _} _.
Arguments fi_state {_ _ _} _.
Arguments fi_capacity {_ _ _} _.
Arguments fi_remove {_ _ _} _.

Definition FilterBatch_new {V H F} `{Batch V H} (parent : V) (filter : F → Pkt H → outcome (bool * F)) (f : F) :
    FilterBatch V H F :=
  mkFilterBatch parent filter f (capacity parent) [].

Definition fi_with_parent {V H F} (u : FilterBatch V H F) (v : V) : FilterBatch V H F :=
  mkFilterBatch v (fi_filter u) (fi_state u) (fi_capacity u) (fi_remove u).

Definition filter_act {V H F} `{Batch V H} (w : World) (u : FilterBatch V H F) :
    outcome (World * FilterBatch V H F) :=
  '(w, v) ← act w (fi_parent u);
  '(w, (remove, f)) ← for_each_packet
    (λ w '(remove, f) idx d,
       p ← load w d; '(keep, f) ← fi_filter u f p; Ret (w, (if keep : bool then remove else remove ++ [idx], f)))
    w v (fi_remove u, fi_state u);
  '(w, v) ← (if decide (remove ≠ []) then '(w, v, n) ← drop_packets w v remove; _ ← expect n; Ret (w, v)
             else Ret (w, v));
  Ret (w, mkFilterBatch v (fi_filter u) f (fi_capacity u) []).

#[export] Instance FilterBatch_batch {V H F} `{Batch V H} : Batch (FilterBatch V H F) H :=
  forward fi_parent fi_with_parent fi_capacity filter_act (fwd_act fi_parent fi_with_parent done_)
    (λ w u idx, next_payload w (fi_parent u) idx).

(** ** Merging: one parent at a time *)

Record MergeBatch (V : Type) := mkMergeBatch {
  mg_parents : list V;
  mg_which : Z;
}.
Arguments mkMergeBatch {_} _ _.
Arguments mg_parents {_} _.
Arguments mg_which {_} _.

Definition MergeBatch_new {V} (parents : list V) : MergeBatch V := mkMergeBatch parents 0.

Definition merge {V} (batches : list V) : MergeBatch V := MergeBatch_new batches.

(** [self.parents[self.which]] and its update. *)
Definition mg_parent {V} (u : MergeBatch V) : outcome V := index (mg_parents u) (mg_which u).

Definition mg_with_parent {V} (u : MergeBatch V) (v : V) : MergeBatch V :=
  mkMergeBatch (<[Z.to_nat (mg_which u) := v]> (mg_parents u)) (mg_which u).

Definition merge_act {V H} `{Batch V H} (w : World) (u : MergeBatch V) : outcome (World * MergeBatch V) :=
  v ← mg_parent u; '(w, v) ← act w v; Ret (w, mg_with_parent u v).

Definition merge_done {V H} `{Batch V H} (w : World) (u : MergeBatch V) : outcome (World * MergeBatch V) :=
  v ← mg_parent u;
  '(w, v) ← done_ w v;
  let u := mg_with_parent u v in
  let next := mg_which u + 1 in
  Ret (w, mkMergeBatch (mg_parents u) (if decide (next = len (mg_parents u)) then 0 else next)).

(** Dependencies are sorted, and duplicates removed. *)
Fixpoint insert_sorted (x : Z) (l : list Z) : list Z :=
  match l with
  | [] => [x]
  | y :: l' => if decide (x ≤ y) then x :: l else y :: insert_sorted x l'
  end.

Fixpoint dedup (l : list Z) : list Z :=
  match l with
  | [] => []
  | x :: l' =>
      match l' with
      | [] => [x]
      | y :: _ => if decide (x = y) then dedup l' else x :: dedup l'
      end
  end.

Definition merge_dependencies {V H} `{Batch V H} (u : MergeBatch V) : list Z :=
  dedup (foldr insert_sorted [] (concat (get_task_dependencies <$> mg_parents u))).

#[export] Instance MergeBatch_batch {V H} `{Batch V H} : Batch (MergeBatch V) H := {|
  act := merge_act;
  done_ := merge_done;
  send_q P _ w u port :=
    v ← mg_parent u; '(w, v, port, n) ← send_q w v port; Ret (w, mg_with_parent u v, port, n);
  capacity u := foldl (λ acc v, acc `max` capacity v) 0 (mg_parents u);
  drop_packets w u idxes :=
    v ← mg_parent u; '(w, v, n) ← drop_packets w v idxes; Ret (w, mg_with_parent u v, n);
  clear_packets u := v ← mg_parent u; v ← clear_packets v; Ret (mg_with_parent u v);
  get_packet_batch u :=
    v ← mg_parent u; '(b, put) ← get_packet_batch v; Ret (b, λ b, mg_with_parent u (put b));
  get_task_dependencies := merge_dependencies;
  start u := v ← mg_parent u; start v;
  next_payload w u idx := v ← mg_parent u; next_payload w v idx;
|}.

(** ** Sending *)

Record SendBatch (P V : Type) := mkSendBatch {
  sb_port : P;
  sb_parent : V;
  sb_sent : Z;
}.
Arguments mkSendBatch {_ _} _ _ _.
Arguments sb_port {_ _} _.
Arguments sb_parent {_ _} _.
Arguments sb_sent {_ _} _.

Definition SendBatch_new {P V} (parent : V) (port : P) : SendBatch P V := mkSendBatch port parent 0.

Definition send_act {P V H} `{PacketTx P} `{Batch V H} (w : World) (u : SendBatch P V) :
    outcome (World * SendBatch P V) :=
  '(w, v) ← act w (sb_parent u);
  '(b, put) ← get_packet_batch v;
  '(w, b, port, x) ← pb_send_q w b (sb_port u);
  x ← expect x;
  '(w, v) ← done_ w (put b);
  Ret (w, mkSendBatch port v (sb_sent u +u64 x)).

#[export] Instance SendBatch_batch {P V H} `{PacketTx P} `{Batch V H} : Batch (SendBatch P V) NullHeader := {|
  act := send_act;
  done_ w u := Ret (w, u);
  send_q _ _ _ _ _ := Panic;
  capacity u := capacity (sb_parent u);
  drop_packets _ _ _ := Panic;
  clear_packets _ := Panic;
  get_packet_batch u :=
    '(b, put) ← get_packet_batch (sb_parent u); Ret (b, λ b, mkSendBatch (sb_port u) (put b) (sb_sent u));
  get_task_dependencies u := get_task_dependencies (sb_parent u);
  start _ := Panic;
  next_payload _ _ _ := Panic;
|}.

(** ** What a scheduler runs: [Executable] *)

Definition send_execute {P V H} `{PacketTx P} `{Batch V H} (w : World) (u : SendBatch P V) :
    outcome (World * SendBatch P V) := act w u.

(** Of a merge or a composition. *)
Definition batch_execute {V H} `{Batch V H} (w : World) (u : V) : outcome (World * V) :=
  '(w, u) ← act w u; done_ w u.

(** ** The virtual port (interface/port/virt_port.rs)

    It takes fresh mbufs from the pool, and frees what is sent.  The queues of a
    port share its statistics, which are its state. *)
Record VirtualQueue := mkVirtualQueue {
  vq_stats_rx : Z;
  vq_stats_tx : Z;
}.

#[export] Instance VirtualQueue_tx : PacketTx VirtualQueue := λ w q pkts,
  let n := len pkts in
  let q := mkVirtualQueue (vq_stats_rx q) (vq_stats_tx q +u64 n) in
  let (w, _) := mbuf_free_bulk w pkts in
  (w, q, (pkts, Some n)).

#[export] Instance VirtualQueue_rx `{MbufPool} : PacketRx VirtualQueue := λ w q pkts,
  let n := len pkts in
  let '(w, pkts, alloced) :=
    match mbuf_alloc_bulk w 60 n with Some (w, ps) => (w, ps, n) | None => (w, pkts, 0) end in
  (w, mkVirtualQueue (vq_stats_rx q +u64 alloced) (vq_stats_tx q), (pkts, Some alloced)).
