(* ===== verification/BatchSpecs.v ===== *)
(** * BatchSpecs: what the operators on packet batches do *)

From stdpp Require Import gmap.
From S2P Require Import Prelude Packed Headers Packet Batch.

(** ** Dropping packets *)

Definition pb_ok (b : PacketBatch) : Prop :=
  0 ≤ pb_len b ≤ pb_capacity b ∧ pb_scratch b = [].

(** Strictly increasing indices from [lo] on and below [hi]. *)
Fixpoint increasing (lo hi : Z) (l : list Z) : Prop :=
  match l with
  | [] => True
  | x :: l => lo ≤ x < hi ∧ increasing (x + 1) hi l
  end.

(** The elements whose index, from [i] on, is not among [idxes], and those whose
    index is. *)
Fixpoint without (i : Z) (l : list ptr) (idxes : list Z) : list ptr :=
  match l with
  | [] => []
  | x :: l => if decide (i ∈ idxes) then without (i + 1) l idxes else x :: without (i + 1) l idxes
  end.

Fixpoint picked (i : Z) (l : list ptr) (idxes : list Z) : list ptr :=
  match l with
  | [] => []
  | x :: l => if decide (i ∈ idxes) then x :: picked (i + 1) l idxes else picked (i + 1) l idxes
  end.

Lemma increasing_ge lo hi l x : increasing lo hi l → x ∈ l → lo ≤ x < hi.
Proof.
  revert lo. induction l as [|y l IH]; intros lo; [by intros _ ?%not_elem_of_nil|].
  intros [Hy Hl] [->|Hx]%elem_of_cons; [done|]. specialize (IH _ Hl Hx). lia.
Qed.

Lemma increasing_snoc lo hi l x :
  increasing lo hi l → (∀ y, y ∈ l → y < x) → lo ≤ x < hi → increasing lo hi (l ++ [x]).
Proof.
  revert lo. induction l as [|y l IH]; intros lo; cbn; [done|]. intros [Hy Hl] Hlt Hx.
  split; [done|]. apply IH; [done| |].
  - intros z Hz. apply Hlt. by right.
  - specialize (Hlt y (list_elem_of_here _ _)). lia.
Qed.

Lemma without_nil i l : without i l [] = l.
Proof. revert i. induction l as [|x l IH]; intros i; cbn; [done|]. by rewrite decide_False, IH by apply not_elem_of_nil. Qed.

(** Indices that are behind make no difference. *)
Lemma without_behind i l x idxes : x < i → without i l (x :: idxes) = without i l idxes.
Proof.
  revert i. induction l as [|y l IH]; intros i Hx; cbn; [done|]. rewrite IH by lia.
  destruct (decide (i ∈ idxes)); [by rewrite decide_True by by right|].
  by rewrite decide_False by (intros [?|?]%elem_of_cons; [lia|done]).
Qed.

Lemma picked_behind i l x idxes : x < i → picked i l (x :: idxes) = picked i l idxes.
Proof.
  revert i. induction l as [|y l IH]; intros i Hx; cbn; [done|]. rewrite IH by lia.
  destruct (decide (i ∈ idxes)); [by rewrite decide_True by by right|].
  by rewrite decide_False by (intros [?|?]%elem_of_cons; [lia|done]).
Qed.

Lemma without_picked i l idxes : without i l idxes ++ picked i l idxes ≡ₚ l.
Proof.
  revert i. induction l as [|x l IH]; intros i; cbn; [done|]. case_decide; cbn.
  - etrans; [symmetry; apply Permutation_middle|]. by constructor.
  - by constructor.
Qed.

Lemma picked_length i l idxes :
  increasing i (i + len l) idxes → len (picked i l idxes) = len idxes.
Proof.
  revert i idxes. induction l as [|x l IH]; intros i idxes Hi; cbn.
  - destruct idxes as [|y idxes]; [done|]. change (len []) with 0 in Hi. cbn in Hi. lia.
  - assert (i + len (x :: l) = i + 1 + len l) as He by (unfold len; cbn; lia). rewrite He in Hi.
    destruct idxes as [|y idxes].
    + rewrite decide_False by apply not_elem_of_nil. by apply IH.
    + cbn in Hi. destruct Hi as [Hy Hl]. destruct (decide (y = i)) as [->|Hne].
      * rewrite decide_True by apply list_elem_of_here. rewrite picked_behind by lia. pose proof (IH (i + 1) idxes Hl). unfold len in *. cbn. lia.
      * rewrite decide_False.
        -- rewrite IH; [done|]. split; [lia|done].
        -- intros [?|Hin]%elem_of_cons; [lia|]. apply (increasing_ge _ _ _ _ Hl) in Hin. lia.
Qed.

Lemma set_index_app (a : list ptr) x y r :
  set_index (a ++ y :: r) (len a) x = Ret (a ++ x :: r).
Proof.
  unfold set_index, len. rewrite decide_True by (rewrite length_app; cbn; lia).
  rewrite Nat2Z.id. f_equal. induction a as [|z a IH]; cbn; [done|]. by rewrite <- IH.
Qed.

Lemma index_app {A} (a : list A) x r i : i = len a → index (a ++ x :: r) i = Ret x.
Proof.
  intros ->. unfold index, len. rewrite decide_True by lia. by rewrite Nat2Z.id, list_lookup_middle.
Qed.

(** Moving an element over the gap [junk] to the front of it. *)
Lemma move_over (pre junk : list ptr) x rest :
  ∃ junk', length junk' = length junk ∧
    set_index (pre ++ junk ++ x :: rest) (len pre) x = Ret ((pre ++ [x]) ++ junk' ++ rest).
Proof.
  destruct junk as [|y junk].
  - exists []. split; [done|]. cbn. rewrite set_index_app. by rewrite <- (assoc_L (++)).
  - exists (junk ++ [x]). split; [rewrite length_app; cbn; lia|]. cbn. rewrite set_index_app.
    by rewrite <- !(assoc_L (++)).
Qed.

Lemma copy_loop_spec rest : ∀ pre junk fuel,
  (length rest ≤ fuel)%nat →
  ∃ junk', copy_loop fuel (pre ++ junk ++ rest) (len pre + len junk) (len pre) =
    Ret ((pre ++ rest) ++ junk', len pre + len rest) ∧ length junk' = length junk.
Proof.
  induction rest as [|x rest IH]; intros pre junk fuel Hf.
  - exists junk. rewrite app_nil_r. split; [|done].
    destruct fuel; cbn [copy_loop]; rewrite decide_False by (rewrite len_app; lia);
      change (len []) with 0; by rewrite app_nil_r, Z.add_0_r.
  - destruct fuel as [|fuel]; [cbn in Hf; lia|]. cbn [copy_loop].
    rewrite decide_True by (rewrite !len_app; unfold len; cbn; lia).
    rewrite (assoc_L (++) pre junk), index_app, <- (assoc_L (++)) by by rewrite len_app. cbn [mbind outcome_bind].
    destruct (move_over pre junk x rest) as (junk1 & Hj1 & ->). cbn [mbind outcome_bind].
    destruct (IH (pre ++ [x]) junk1 fuel) as (junk2 & He & Hj2); [cbn in Hf; lia|].
    exists junk2. split; [|congruence].
    assert (len junk1 = len junk) as Hl by (unfold len; lia).
    rewrite len_app, Hl in He. change (len [x]) with 1 in He.
    replace (len pre + len junk + 1) with (len pre + 1 + len junk) by lia. rewrite He. f_equal.
    rewrite <- !(assoc_L (++)). cbn. f_equal. unfold len. cbn. lia.
Qed.

Lemma drop_loop_spec rest : ∀ pre junk scratch before todo fuel,
  let orig := len pre + len junk in
  increasing orig (orig + len rest) todo → (length rest ≤ fuel)%nat →
  ∃ pre' junk' rest',
    drop_loop fuel (pre ++ junk ++ rest) scratch (before ++ todo) orig (len pre) (len before) =
      Ret (pre' ++ junk' ++ rest', scratch ++ picked orig rest todo,
           (len pre' + len junk', len pre', len (before ++ todo))) ∧
    pre' ++ rest' = pre ++ without orig rest todo ∧ (length rest' ≤ length rest)%nat ∧
    len pre' + len junk' + len rest' = orig + len rest.
Proof.
  induction rest as [|x rest IH]; intros pre junk scratch before todo fuel orig Hinc Hf.
  - destruct todo as [|t todo]; [|cbn in Hinc; change (len []) with 0 in Hinc; lia].
    exists pre, junk, []. rewrite !app_nil_r.
    split; [|split; [done|split; [done|unfold orig; lia]]].
    destruct fuel; cbn [drop_loop]; rewrite decide_False by lia; done.
  - assert (orig + len (x :: rest) = orig + 1 + len rest) as Hlen by (unfold len; cbn; lia). rewrite Hlen in Hinc.
    destruct todo as [|t todo].
    { exists pre, junk, (x :: rest). rewrite without_nil, app_nil_r. split; [|split; [done|split; [done|lia]]].
      assert (picked orig (x :: rest) [] = []) as ->.
      { clear. generalize (x :: rest). intros l. generalize orig. induction l as [|y l IH]; intros i; cbn; [done|].
        by rewrite decide_False, IH by apply not_elem_of_nil. }
      rewrite app_nil_r. destruct fuel; cbn [drop_loop]; rewrite decide_False by lia; done. }
    destruct fuel as [|fuel]; [cbn in Hf; lia|]. cbn [drop_loop].
    rewrite decide_True by (rewrite !len_app; unfold len; cbn; unfold orig, len; lia).
    rewrite index_app by done. cbn [mbind outcome_bind]. destruct Hinc as [Ht Hinc].
    unfold assert_. rewrite decide_True by lia. cbn [mbind outcome_bind].
    rewrite (assoc_L (++) pre junk), index_app, <- (assoc_L (++)) by (by rewrite len_app). cbn [mbind outcome_bind].
    cbn [without picked]. destruct (decide (orig = t)) as [<-|Hne].
    + rewrite !decide_True by apply list_elem_of_here. rewrite without_behind, picked_behind by lia.
      pose proof (IH pre (junk ++ [x]) (scratch ++ [x]) (before ++ [orig]) todo fuel) as IH'.
      assert (len pre + len (junk ++ [x]) = orig + 1) as Ho by (rewrite len_app; change (len [x]) with 1; unfold orig; lia).
      assert (len (before ++ [orig]) = len before + 1) as Hb by by rewrite len_app.
      cbn zeta in IH'. rewrite Ho, Hb in IH'.
      destruct IH' as (p & j & r & He & Hp & Hr & Hl); [done|cbn in Hf; lia|].
      rewrite <- !(assoc_L (++)) in He. cbn [app] in He.
      exists p, j, r. split; [rewrite He; by rewrite <- (assoc_L (++)) || done|]. split; [done|]. split; [cbn; lia|lia].
    + assert (orig ∉ t :: todo) as Hnot.
      { intros [?|Hin]%elem_of_cons; [done|]. apply (increasing_ge _ _ _ _ Hinc) in Hin. lia. }
      rewrite !(decide_False (P := orig ∈ t :: todo)) by done.
      destruct (move_over pre junk x rest) as (junk1 & Hj1 & ->). cbn [mbind outcome_bind].
      assert (len junk1 = len junk) as Hj by (unfold len; lia).
      destruct (IH (pre ++ [x]) junk1 scratch before (t :: todo) fuel) as (p & j & r & He & Hp & Hr & Hl);
        [rewrite len_app, Hj; change (len [x]) with 1; split; [lia|];
           by replace (len pre + 1 + len junk + len rest) with (orig + 1 + len rest) by (unfold orig; lia)
        |cbn in Hf; lia|].
      rewrite len_app, Hj in He, Hp, Hl. change (len [x]) with 1 in *.
      replace (len pre + 1 + len junk) with (orig + 1) in * by (unfold orig; lia).
      exists p, j, r. split; [exact He|]. rewrite <- (assoc_L (++)) in Hp. split; [done|].
      split; [cbn; lia|]. lia.
Qed.

(** The world after freeing, and the batch with other packets. *)
Definition freed (w : World) (ps : list ptr) : World := fst (mbuf_free_bulk w ps).

Lemma pb_array_len b : pb_ok b → len (pb_array b) = pb_len b.
Proof.
  intros [Hl _]. unfold pb_array, pb_capacity, len in *. rewrite length_take. lia.
Qed.

Lemma pb_with_array_spec b a :
  pb_ok b → length a = length (pb_array b) →
  pb_mem (pb_with_array b a) = a ++ drop (length a) (pb_mem b) ∧ pb_capacity (pb_with_array b a) = pb_capacity b.
Proof.
  intros Hb Ha. split; [done|]. pose proof (pb_array_len b Hb) as Hl. destruct Hb as [Hr _].
  unfold pb_with_array, pb_capacity, len in *. cbn. rewrite length_app, length_drop. lia.
Qed.

Lemma pb_shrunk b a a1 a2 n :
  pb_ok b → a = a1 ++ a2 → length a = length (pb_array b) → n = len a1 →
  ∃ b', pb_set_len (pb_with_array b a) n = Ret b' ∧ pb_array b' = a1 ∧ pb_ok b' ∧ pb_capacity b' = pb_capacity b ∧
    pb_parent_tasks b' = pb_parent_tasks b.
Proof.
  intros Hb -> Ha ->. destruct (pb_with_array_spec b (a1 ++ a2) Hb Ha) as [Hm Hc].
  pose proof (pb_array_len b Hb) as Hl. pose proof Hb as [Hr Hs]. unfold pb_set_len. rewrite Hc.
  assert (len a1 + len a2 = pb_len b) as Ht by (rewrite <- Hl; unfold len; rewrite <- Ha, length_app; lia).
  pose proof (len_nonneg a1). pose proof (len_nonneg a2). rewrite decide_True by lia.
  eexists. split; [done|]. split_and!; [|split; [|done]|done..].
  - unfold pb_array. cbn [pb_len pb_mem]. rewrite Hm, <- (assoc_L (++)). apply take_app_length'. unfold len. lia.
  - change (pb_capacity (mkPacketBatch _ _ _ _)) with (pb_capacity (pb_with_array b (a1 ++ a2))). rewrite Hc. cbn. lia.
Qed.

(** Dropping packets keeps the others in order.  Given increasing indices
    into the batch, exactly the packets at those indices are freed, in order, the
    others move together without changing places, the answer is the number of
    packets dropped, and nothing is left in the scratch space. *)
Lemma drop_packets_exact w b idxes :
  pb_ok b → increasing 0 (pb_len b) idxes →
  ∃ b', drop_packets_stable w b idxes = Ret (freed w (picked 0 (pb_array b) idxes), b', Some (len idxes)) ∧
    pb_array b' = without 0 (pb_array b) idxes ∧ pb_ok b' ∧ pb_capacity b' = pb_capacity b.
Proof.
  intros Hb Hi. pose proof (pb_array_len b Hb) as Hl. unfold drop_packets_stable. case_decide as Hn.
  { subst. exists b. rewrite without_nil. split; [|done]. f_equal. f_equal. f_equal.
    assert (∀ i l, picked i l [] = []) as ->.
    { intros i l. revert i. induction l as [|x l IH]; intros i; cbn; [done|]. by rewrite decide_False, IH by apply not_elem_of_nil. }
    unfold freed, mbuf_free_bulk. cbn. rewrite app_nil_r. by destruct w. }
  rewrite (proj2 Hb). set (a := pb_array b) in *. rewrite <- Hl in Hi.
  destruct (drop_loop_spec a [] [] [] [] idxes (length a)) as (p & j & r & He & Hp & Hr & Hlen); [done|done|].
  cbn [app] in He. change (len []) with 0 in *. cbn in Hlen.
  change (0 + 0) with 0 in *. rewrite He. cbn [mbind outcome_bind].
  destruct (copy_loop_spec r p j (length a)) as (j' & He' & Hj'); [lia|]. rewrite He'. cbn [mbind outcome_bind].
  rewrite decide_False by lia.
  destruct (pb_shrunk b ((p ++ r) ++ j') (p ++ r) j' (len p + len r)) as (b' & Hb' & Ha' & Hok & Hc & Ht);
    [done|done| |by rewrite len_app|].
  { fold a. rewrite !length_app. unfold len in *. lia. }
  assert (pb_set_len (pb_with_scratch (pb_with_array b ((p ++ r) ++ j')) (picked 0 a idxes)) (len p + len r) =
    Ret (pb_with_scratch b' (picked 0 a idxes))) as ->.
  { unfold pb_set_len in Hb' |- *. change (pb_capacity (pb_with_scratch ?b ?s)) with (pb_capacity b).
    case_decide; [|done]. by injection Hb' as <-. }
  cbn [mbind outcome_bind]. pose proof (picked_length 0 a idxes Hi) as Hpl.
  rewrite decide_False.
  2:{ intros Hz. rewrite Hz in Hpl. destruct idxes; [done|]. unfold len in Hpl. cbn in Hpl. lia. }
  exists b'. split; [|split; [by rewrite Ha', Hp|done]]. rewrite Hpl.
  assert (pb_with_scratch (pb_with_scratch b' (picked 0 a idxes)) [] = b') as ->; [|done].
  destruct Hok as [_ Hs]. destruct b'. cbn in *. by rewrite <- Hs.
Qed.

Lemma drop_packets_exact_witness :
  let b := mkPacketBatch [10; 11; 12; 13; 14] 4 [] [] in
  let w := mkWorld ∅ (λ _ _, 0) [] [] [] in
  ∃ b', drop_packets_stable w b [0; 2] = Ret (freed w [10; 12], b', Some 2) ∧ pb_array b' = [11; 13].
Proof.
  intros b w. destruct (drop_packets_exact w b [0; 2]) as (b' & H1 & H2 & _);
    [split; [split; vm_compute; discriminate|reflexivity]|cbn; lia|].
  exists b'. exact (conj H1 H2).
Defined.

(** ** The laws of a batch *)

(** What an operator keeps in its own state, and all mbufs that a batch holds. *)
Class BatchInv (V : Type) := {
  b_inv : V → Prop;
  b_total : V → list ptr;
}.

(** Between two worlds, mbufs were taken, freed and sent, and a holder's mbufs
    changed accordingly: none appeared from nowhere, got lost or was given away
    twice. *)
Definition flux (w : World) (l : list ptr) (w' : World) (l' : list ptr) : Prop :=
  ∃ t f s, w_taken w' = w_taken w ++ t ∧ w_freed w' = w_freed w ++ f ∧ w_sent w' = w_sent w ++ s ∧
    l ++ t ≡ₚ f ++ s ++ l'.

Definition same_logs (w w' : World) : Prop :=
  w_taken w' = w_taken w ∧ w_freed w' = w_freed w ∧ w_sent w' = w_sent w.

Lemma flux_refl w l l' : l ≡ₚ l' → flux w l w l'.
Proof. intros Hl. exists [], [], []. rewrite !app_nil_r. by rewrite Hl. Qed.

Lemma flux_logs w w' l l' : same_logs w w' → l ≡ₚ l' → flux w l w' l'.
Proof. intros (H1 & H2 & H3) Hl. exists [], [], []. rewrite !app_nil_r. by rewrite Hl. Qed.

Lemma flux_trans w l w1 l1 w2 l2 : flux w l w1 l1 → flux w1 l1 w2 l2 → flux w l w2 l2.
Proof.
  intros (t & f & s & Ht & Hf & Hs & Hp) (t' & f' & s' & Ht' & Hf' & Hs' & Hp').
  exists (t ++ t'), (f ++ f'), (s ++ s'). rewrite Ht', Ht, Hf', Hf, Hs', Hs, !(assoc_L (++)).
  split_and!; [done..|]. rewrite Hp. rewrite <- !(assoc_L (++)), Hp'. solve_Permutation.
Qed.

Lemma flux_frame w l w' l' o : flux w l w' l' → flux w (l ++ o) w' (l' ++ o).
Proof.
  intros (t & f & s & Ht & Hf & Hs & Hp). exists t, f, s. split_and!; [done..|].
  transitivity ((l ++ t) ++ o); [solve_Permutation|]. rewrite Hp. solve_Permutation.
Qed.

Lemma flux_perm w l1 l2 w' l1' l2' : l1 ≡ₚ l2 → l1' ≡ₚ l2' → flux w l1 w' l1' → flux w l2 w' l2'.
Proof.
  intros H1 H2 (t & f & s & Ht & Hf & Hs & Hp). exists t, f, s. split_and!; [done..|]. by rewrite <- H1, <- H2.
Qed.

(** A batch is a way to a [PacketBatch] at the bottom: dropping, sending and
    clearing are done there, iteration yields its packets, and acting accounts for
    every mbuf. *)
Class BatchLaws (V H : Type) `{!Batch V H, !BatchInv V} := {
  bl_bottom v :
    b_inv v → ∃ b put others, get_packet_batch v = Ret (b, put) ∧ pb_ok b ∧
      b_total v ≡ₚ pb_array b ++ others ∧
      ∀ b', pb_ok b' → b_inv (put b') ∧ b_total (put b') ≡ₚ pb_array b' ++ others ∧
        ∃ put', get_packet_batch (put b') = Ret (b', put');
  bl_drop w v idxes :
    drop_packets w v idxes =
      ('(b, put) ← get_packet_batch v; '(w, b, n) ← drop_packets_stable w b idxes; Ret (w, put b, n));
  bl_send P (HP : PacketTx P) w v (port : P) :
    send_q w v port =
      ('(b, put) ← get_packet_batch v; '(w, b, port, n) ← pb_send_q w b port; Ret (w, put b, port, n));
  bl_clear v :
    clear_packets v = ('(b, put) ← get_packet_batch v; b ← consume_batch b; Ret (put b));
  bl_start v : b_inv v → start v = Ret 0;
  bl_next w v idx w' o b put :
    b_inv v → get_packet_batch v = Ret (b, put) → 0 ≤ idx → next_payload w v idx = Ret (w', o) →
    same_logs w w' ∧
    match o with Some d => pb_array b !! Z.to_nat idx = Some (pd_mbuf d) | None => pb_len b ≤ idx end;
  bl_act w v w' v' :
    b_inv v → act w v = Ret (w', v') → b_inv v' ∧ flux w (b_total v) w' (b_total v');
  bl_done w v w' v' :
    b_inv v → done_ w v = Ret (w', v') → b_inv v' ∧ flux w (b_total v) w' (b_total v');
}.
