(* ===== verification/Pipeline.v ===== *)
(** * Pipeline: operators stacked on each other

    Every operator on packet batches obeys the laws of a batch ([BatchLaws]) when
    its parent does, so that what holds of all lawful batches holds of every
    stack of operators. *)

From stdpp Require Import gmap.
From S2P Require Import Prelude Packed Headers Packet Batch BatchSpecs.

(** ** Ports *)

(** What is received is taken; the rest of the slice may hold anything. *)
Class PacketRxLaws (Q : Type) `{!PacketRx Q} :=
  rx_law : ∀ w q sl w' q' sl' r, rx_recv w q sl = (w', q', (sl', r)) →
    length sl' = length sl ∧ w_freed w' = w_freed w ∧ w_sent w' = w_sent w ∧
    match r with
    | Some n => 0 ≤ n ≤ len sl ∧ w_taken w' = w_taken w ++ take (Z.to_nat n) sl'
    | None => w_taken w' = w_taken w
    end.

(** What a port has sent is its own, to free or to hand on. *)
Class PacketTxLaws (P : Type) `{!PacketTx P} :=
  tx_law : ∀ w p sl w' p' sl' r, tx_send w p sl = (w', p', (sl', r)) →
    sl' = sl ∧ w_taken w' = w_taken w ∧ ∃ f s, w_freed w' = w_freed w ++ f ∧ w_sent w' = w_sent w ++ s ∧
    match r with
    | Some n => 0 ≤ n ≤ len sl ∧ f ++ s = take (Z.to_nat n) sl
    | None => f = [] ∧ s = []
    end.

(** A pool that gives as many mbufs as it is asked for, or none. *)
Class MbufPoolLaws `{!MbufPool} :=
  pool_law : ∀ w l n w' ps, mbuf_alloc_bulk w l n = Some (w', ps) →
    len ps = n ∧ w_taken w' = w_taken w ++ ps ∧ w_freed w' = w_freed w ∧ w_sent w' = w_sent w.

#[export] Instance VirtualQueue_tx_laws : PacketTxLaws VirtualQueue.
Proof.
  intros w p sl w' p' sl' r. unfold tx_send, VirtualQueue_tx, mbuf_free_bulk. cbn.
  intros [= <- <- <- <-]. split; [done|]. split; [done|]. exists sl, []. cbn. rewrite !app_nil_r.
  split_and!; [done|done|apply len_nonneg|done|]. unfold len. by rewrite Nat2Z.id, firstn_all.
Qed.

#[export] Instance VirtualQueue_rx_laws `{MbufPoolLaws} : PacketRxLaws VirtualQueue.
Proof.
  intros w q sl w' q' sl' r. unfold rx_recv, VirtualQueue_rx.
  destruct (mbuf_alloc_bulk w 60 (len sl)) as [[w1 ps]|] eqn:E; intros [= <- <- <- <-].
  - apply pool_law in E as (Hl & Ht & Hf & Hs). split; [unfold len in *; lia|]. split; [done|]. split; [done|].
    split; [pose proof (len_nonneg sl); lia|]. rewrite Ht, <- Hl. unfold len. by rewrite Nat2Z.id, firstn_all.
  - split_and!; try done; [apply len_nonneg|]. by rewrite app_nil_r.
Qed.

(** ** Logs *)

Lemma same_logs_refl w : same_logs w w.
Proof. by split_and!. Qed.

Lemma same_logs_trans w1 w2 w3 : same_logs w1 w2 → same_logs w2 w3 → same_logs w1 w3.
Proof. intros (?&?&?) (?&?&?). split_and!; congruence. Qed.

Lemma same_logs_set_slots w p s : same_logs w (set_slots w p s).
Proof. by split_and!. Qed.

Lemma same_logs_store {H} w (d : PacketDescriptor H) p : same_logs w (store w d p).
Proof. by split_and!. Qed.

Create HintDb logs discriminated.
#[export] Hint Resolve same_logs_refl same_logs_set_slots same_logs_store : logs.

Lemma flux_freed w ps l l' : l ≡ₚ ps ++ l' → flux w l (freed w ps) l'.
Proof. intros Hl. exists [], ps, []. cbn. rewrite !app_nil_r. by split_and!. Qed.

(** ** The loop over the packets *)

Section loop.
Context {V H} `{BatchLaws V H}.

(** An invariant of the loop's index and state, with a body that only touches
    the contents of mbufs. *)
Lemma enumerate_ind {S} (P : Z → S → Prop) body v b put :
  b_inv v → get_packet_batch v = Ret (b, put) →
  (∀ w s i d w' s', 0 ≤ i < pb_len b → P i s → body w s i d = Ret (w', s') → same_logs w w' ∧ P (i + 1) s') →
  ∀ fuel w i s w' s', 0 ≤ i → P i s → enumerate body fuel w v i s = Ret (w', s') →
    same_logs w w' ∧ ∃ j, P j s'.
Proof.
  intros Hv Hb Hbody fuel. induction fuel as [|fuel IH]; intros w i s w' s' Hi HP He; cbn [enumerate] in He.
  all: destruct (next_payload w v i) as [[w1 [d|]]| |] eqn:E; try done; cbn in He.
  all: destruct (bl_next _ _ _ _ _ _ _ Hv Hb Hi E) as [Hl Hd]; try (injection He as <- <-; by eauto).
  - destruct (body w1 s i d) as [[w2 s2]| |] eqn:E2; try done. cbn in He.
    assert (0 ≤ i < pb_len b) as Hr.
    { apply lookup_lt_Some in Hd. unfold pb_array in Hd. rewrite length_take in Hd. lia. }
    destruct (Hbody _ _ _ _ _ _ Hr HP E2) as [Hl2 HP2].
    destruct (IH w2 (i + 1) s2 w' s' ltac:(lia) HP2 He) as [Hl3 HP3].
    split; [|done]. eapply same_logs_trans; [done|]. by eapply same_logs_trans.
Qed.

Lemma for_each_ind {S} (P : Z → S → Prop) body v b put w s w' s' :
  b_inv v → get_packet_batch v = Ret (b, put) →
  (∀ w s i d w' s', 0 ≤ i < pb_len b → P i s → body w s i d = Ret (w', s') → same_logs w w' ∧ P (i + 1) s') →
  P 0 s → for_each_packet body w v s = Ret (w', s') → same_logs w w' ∧ ∃ j, P j s'.
Proof.
  intros Hv Hb Hbody HP He. unfold for_each_packet in He. rewrite Hb, (bl_start v Hv) in He. cbn in He.
  by eapply enumerate_ind.
Qed.

Lemma for_each_logs {S} (body : World → S → Z → PacketDescriptor H → outcome (World * S)) v w s w' s' :
  b_inv v → (∀ w s i d w' s', body w s i d = Ret (w', s') → same_logs w w') →
  for_each_packet body w v s = Ret (w', s') → same_logs w w'.
Proof.
  intros Hv Hbody He. destruct (bl_bottom v Hv) as (b & put & others & Hb & _).
  eapply (for_each_ind (λ _ _, True)) in He as [Hl _]; [done|done|done| |done].
  intros w1 s1 i d w2 s2 _ _ E. split; [by eapply Hbody|done].
Qed.

(** Dropping packets frees exactly them. *)
Lemma drop_flux v b put w idxes w' v' n :
  b_inv v → get_packet_batch v = Ret (b, put) → increasing 0 (pb_len b) idxes →
  drop_packets w v idxes = Ret (w', v', n) →
  b_inv v' ∧ flux w (b_total v) w' (b_total v') ∧ n = Some (len idxes).
Proof.
  intros Hv Hb Hi He. rewrite bl_drop, Hb in He. cbn in He.
  destruct (bl_bottom v Hv) as (b0 & put0 & others & Hb0 & Hok & Ht & Hput). rewrite Hb in Hb0. injection Hb0 as <- <-.
  destruct (drop_packets_exact w b idxes Hok Hi) as (b' & Hd & Ha & Hok' & _). rewrite Hd in He. cbn in He.
  injection He as <- <- <-. destruct (Hput b' Hok') as (Hi' & Ht' & _). split; [done|]. split; [|done].
  apply flux_freed. rewrite Ht, Ht', Ha. rewrite <- (without_picked 0 (pb_array b) idxes) at 1. solve_Permutation.
Qed.
End loop.

(** ** The batch at the bottom *)

#[export] Instance PacketBatch_inv : BatchInv PacketBatch := {| b_inv := pb_ok; b_total := pb_array |}.

#[export] Instance PacketBatch_laws : BatchLaws PacketBatch NullHeader.
Proof.
  split; cbn.
  - intros b Hb. exists b, (λ b, b), []. rewrite app_nil_r. split_and!; try done.
    intros b' Hb'. rewrite app_nil_r. split_and!; eauto.
  - intros w b idxes. by destruct (drop_packets_stable w b idxes) as [[[]]| |].
  - intros P HP w b port. by destruct (pb_send_q w b port) as [[[[]]]| |].
  - intros b. by destruct (consume_batch b).
  - done.
  - intros w b idx w' o b' put Hb [= <- <-] Hi He. case_decide as Hlt.
    + destruct (index (pb_array b) idx) as [p| |] eqn:E; try done. cbn in He.
      destruct (w_mbufs w !! p) as [m|] eqn:Em; [|done]. cbn in He. injection He as <- <-. split; [apply same_logs_refl|].
      cbn. unfold index in E. rewrite decide_True in E by done.
      by destruct (pb_array b !! Z.to_nat idx); [injection E as ->|].
    + injection He as <- <-. split; [apply same_logs_refl|lia].
  - intros w b w' b' Hb [= <- <-]. split; [done|]. by apply flux_refl.
  - intros w b w' b' Hb [= <- <-]. split; [done|]. by apply flux_refl.
Qed.

Lemma free_batch_spec w b :
  pb_ok b → ∃ b', free_packet_batch w b = Ret (freed w (pb_array b), b', true) ∧ pb_ok b' ∧ pb_array b' = [] ∧
    pb_capacity b' = pb_capacity b.
Proof.
  intros Hb. pose proof (pb_array_len b Hb) as Hl. unfold free_packet_batch. case_decide as Hz.
  - exists b. rewrite Hz in Hl. assert (pb_array b = []) as -> by (destruct (pb_array b); [done|unfold len in Hl; cbn in Hl; lia]).
    split; [|done]. unfold freed, mbuf_free_bulk. cbn. rewrite app_nil_r. by destruct w.
  - unfold pb_set_len. cbn. rewrite decide_True by (destruct Hb; lia). cbn. eexists. split; [done|].
    destruct Hb as [Hr Hs]. unfold pb_ok, pb_array, pb_capacity in *. cbn. split_and!; try done; lia.
Qed.

Lemma recv_spec `{PacketRxLaws Q} w b (q : Q) w' b' q' r :
  pb_ok b → pb_array b = [] → recv_internal w b q = Ret (w', b', q', r) → r ≠ None →
  pb_ok b' ∧ flux w [] w' (pb_array b') ∧ w_freed w' = w_freed w.
Proof.
  intros [Hr Hs] He E Hn. unfold recv_internal in E.
  set (b1 := mkPacketBatch (pb_mem b) (pb_capacity b) (pb_scratch b) (pb_parent_tasks b)).
  assert (pb_set_len b (pb_capacity b) = Ret b1) as Hset.
  { unfold pb_set_len. rewrite decide_True; [done|]. unfold pb_capacity. pose proof (len_nonneg (pb_mem b)). lia. }
  rewrite Hset in E. cbn [mbind outcome_bind] in E.
  assert (pb_ok b1) as Hb1 by (split; [unfold b1, pb_capacity; cbn; pose proof (len_nonneg (pb_mem b)); lia|done]).
  destruct (rx_recv w q (pb_array b1)) as [[w1 q1] [sl [n|]]] eqn:Er; [|by injection E as <- <- <- <-].
  apply rx_law in Er as (Hl & Hf & Hsn & Hrange & Ht).
  rewrite pb_array_len in Hrange by done.
  destruct (pb_shrunk b1 sl (take (Z.to_nat n) sl) (drop (Z.to_nat n) sl) n) as (b2 & Hb2 & Ha2 & Hok2 & _);
    [done|by rewrite take_drop|done| |].
  { unfold len. rewrite length_take, Hl. pose proof (pb_array_len b1 Hb1). unfold len in *. lia. }
  rewrite Hb2 in E. cbn in E. injection E as <- <- <- <-. split; [done|]. split; [|done].
  exists (take (Z.to_nat n) sl), [], []. rewrite !app_nil_r. by rewrite Ha2.
Qed.

(** ** Receiving *)

#[export] Instance ReceiveBatch_inv {Q} : BatchInv (ReceiveBatch Q) :=
  {| b_inv r := pb_ok (rc_parent r); b_total r := pb_array (rc_parent r) |}.

Lemma receive_act_spec `{PacketRxLaws Q} w (r : ReceiveBatch Q) w' r' :
  pb_ok (rc_parent r) → receive_act w r = Ret (w', r') →
  pb_ok (rc_parent r') ∧ flux w (pb_array (rc_parent r)) w' (pb_array (rc_parent r')).
Proof.
  intros Hr E. unfold receive_act in E. cbn [act PacketBatch_batch mbind outcome_bind] in E. unfold pb_recv, deallocate_batch in E.
  destruct (free_batch_spec w (rc_parent r) Hr) as (b1 & Hf & Hb1 & Ha1 & _). rewrite Hf in E. cbn [mbind outcome_bind] in E.
  destruct (recv_internal _ b1 (rc_queue r)) as [[[[w2 b2] q2] x]| |] eqn:E2; try done. cbn in E.
  destruct x as [n|]; [|done]. cbn in E. injection E as <- <-. cbn.
  destruct (recv_spec _ _ _ _ _ _ _ Hb1 Ha1 E2) as (Hb2 & Hfl & _); [done|]. split; [done|].
  eapply flux_trans; [|exact Hfl]. apply flux_freed. by rewrite app_nil_r.
Qed.

Lemma receive_done_spec {Q} w (r : ReceiveBatch Q) w' r' :
  pb_ok (rc_parent r) → receive_done w r = Ret (w', r') →
  w' = freed w (pb_array (rc_parent r)) ∧ pb_ok (rc_parent r') ∧ pb_array (rc_parent r') = [].
Proof.
  intros Hr E. unfold receive_done, deallocate_batch in E.
  destruct (free_batch_spec w (rc_parent r) Hr) as (b1 & Hf & Hb1 & Ha1 & _). rewrite Hf in E. cbn in E.
  by injection E as <- <-.
Qed.

#[export] Instance ReceiveBatch_laws `{PacketRxLaws Q} : BatchLaws (ReceiveBatch Q) NullHeader.
Proof.
  split; cbn.
  - intros r Hr. exists (rc_parent r), (rc_with_parent r), []. rewrite app_nil_r. split_and!; try done.
    intros b' Hb'. rewrite app_nil_r. split_and!; eauto.
  - intros w r idxes. by destruct (drop_packets_stable w (rc_parent r) idxes) as [[[]]| |].
  - intros P HP w r port. by destruct (pb_send_q w (rc_parent r) port) as [[[[]]]| |].
  - intros r. by destruct (consume_batch (rc_parent r)).
  - done.
  - intros w r idx w' o b' put Hr [= <- <-] Hi He.
    by apply (bl_next (V:=PacketBatch) (H:=NullHeader) w (rc_parent r) idx w' o (rc_parent r) (λ b, b)).
  - apply receive_act_spec.
  - intros w r w' r' Hr E. destruct (receive_done_spec w r w' r' Hr E) as (-> & Hr' & Ha). split; [done|].
    apply flux_freed. by rewrite Ha, app_nil_r.
Qed.

(** ** Operators over a parent *)

(** The laws of an operator that forwards to its parent follow from those of the
    parent, given what [act], [done_] and the iteration do. *)
Section forward.
Context {V H H' U : Type} `{BatchLaws V H} (get : U → V) (set : U → V → U) (own : U → Prop).
Context (Hget : ∀ u v, get (set u v) = v) (Hown : ∀ u v, own u → own (set u v)).

Definition forward_inv : BatchInv U :=
  {| b_inv u := own u ∧ b_inv (get u); b_total u := b_total (get u) |}.

Definition step_law (f : World → U → outcome (World * U)) : Prop :=
  ∀ w u w' u', own u → b_inv (get u) → f w u = Ret (w', u') →
    own u' ∧ b_inv (get u') ∧ flux w (b_total (get u)) w' (b_total (get u')).

Lemma fwd_act_law f :
  (∀ w v w' v', b_inv v → f w v = Ret (w', v') → b_inv v' ∧ flux w (b_total v) w' (b_total v')) →
  step_law (fwd_act get set f).
Proof.
  intros Hf w u w' u' Ho Hi E. unfold fwd_act in E. destruct (f w (get u)) as [[w1 v1]| |] eqn:E1; try done.
  cbn in E. injection E as <- <-. rewrite Hget. destruct (Hf _ _ _ _ Hi E1). auto.
Qed.

Lemma forward_laws cap act' done' next' :
  step_law act' → step_law done' →
  (∀ w u idx w' o b put, b_inv (get u) → get_packet_batch (get u) = Ret (b, put) → 0 ≤ idx →
     next' w u idx = Ret (w', o) → same_logs w w' ∧
     match o with Some d => pb_array b !! Z.to_nat idx = Some (@pd_mbuf H' d) | None => pb_len b ≤ idx end) →
  @BatchLaws U H' (forward get set cap act' done' next') forward_inv.
Proof.
  intros Hact Hdone Hnext. split; cbn.
  - intros u [Ho Hi]. destruct (bl_bottom (get u) Hi) as (b & put & others & Hb & Hok & Ht & Hput).
    unfold fwd_get_packet_batch. rewrite Hb. cbn. exists b, (λ b, set u (put b)), others. split_and!; try done.
    intros b' Hb'. rewrite Hget. destruct (Hput b' Hb') as (Hi' & Ht' & put' & Hp').
    split; [by split; [apply Hown|]|]. split; [done|]. rewrite Hp'. cbn. eauto.
  - intros w u idxes. unfold fwd_drop_packets, fwd_get_packet_batch. rewrite bl_drop.
    destruct (get_packet_batch (get u)) as [[b put]| |]; try done. cbn.
    by destruct (drop_packets_stable w b idxes) as [[[]]| |].
  - intros P HP w u port. unfold fwd_send_q, fwd_get_packet_batch. rewrite bl_send.
    destruct (get_packet_batch (get u)) as [[b put]| |]; try done. cbn.
    by destruct (pb_send_q w b port) as [[[[]]]| |].
  - intros u. unfold fwd_clear_packets, fwd_get_packet_batch. rewrite bl_clear.
    destruct (get_packet_batch (get u)) as [[b put]| |]; try done. cbn. by destruct (consume_batch b).
  - intros u [_ Hi]. by apply bl_start.
  - intros w u idx w' o b put [_ Hi] Hb Hidx E. unfold fwd_get_packet_batch in Hb.
    destruct (get_packet_batch (get u)) as [[b0 put0]| |] eqn:Eb; try done. cbn in Hb. injection Hb as <- <-.
    by eapply Hnext.
  - intros w u w' u' [Ho Hi] E. destruct (Hact w u w' u' Ho Hi E) as (?&?&?). done.
  - intros w u w' u' [Ho Hi] E. destruct (Hdone w u w' u' Ho Hi E) as (?&?&?). done.
Qed.

(** The iteration of the parent, with each packet changed. *)
Lemma map_payload_law (f : World → PacketDescriptor H → outcome (World * PacketDescriptor H')) w v idx w' o b put :
  (∀ w d w' d', f w d = Ret (w', d') → same_logs w w' ∧ pd_mbuf d' = pd_mbuf d) →
  b_inv v → get_packet_batch v = Ret (b, put) → 0 ≤ idx → map_payload f w v idx = Ret (w', o) →
  same_logs w w' ∧
  match o with Some d => pb_array b !! Z.to_nat idx = Some (pd_mbuf d) | None => pb_len b ≤ idx end.
Proof.
  intros Hf Hv Hb Hi E. unfold map_payload in E. destruct (next_payload w v idx) as [[w1 [d|]]| |] eqn:E1; try done; cbn in E.
  - destruct (f w1 d) as [[w2 d2]| |] eqn:E2; try done. cbn in E. injection E as <- <-.
    destruct (bl_next _ _ _ _ _ _ _ Hv Hb Hi E1) as [Hl Hd]. destruct (Hf _ _ _ _ E2) as [Hl2 Hp].
    split; [by eapply same_logs_trans|]. by rewrite Hp.
  - injection E as <- <-. by apply (bl_next _ _ _ _ _ _ _ Hv Hb Hi E1).
Qed.
End forward.

(** Operators without a state of their own. *)
Ltac stateless :=
  apply (forward_laws _ _ (λ _, True)); try done;
    [apply fwd_act_law; [done|done|apply bl_act] | apply fwd_act_law; [done|done|apply bl_done] | cbn; intros w u idx w' o b put].

#[export] Instance ParsedBatch_inv {T V} `{BatchInv V} : BatchInv (ParsedBatch T V) := forward_inv pa_parent (λ _, True).

#[export] Instance ParsedBatch_laws {T V H} `{EndOffset H} `{EndOffset T} `{!Follows T H} `{!Batch V H, !BatchInv V, !BatchLaws V H} :
  BatchLaws (ParsedBatch T V) T.
Proof.
  stateless. apply map_payload_law. intros w1 d w2 d2 E. unfold parse_descriptor in E. inv_outcome. done.
Qed.

#[export] Instance DeparsedBatch_inv {V} `{BatchInv V} : BatchInv (DeparsedBatch V) := forward_inv de_parent (λ _, True).

#[export] Instance DeparsedBatch_laws {T V H} `{!Follows H T} `{!Batch V H, !BatchInv V, !BatchLaws V H} :
  BatchLaws (DeparsedBatch V) T.
Proof.
  stateless. apply map_payload_law. intros w1 d w2 d2 E. unfold deparse_header_stack in E.
  destruct (pop_offset _) as [[s off]|]; [|done]. cbn in E. injection E as <- <-. split; [apply same_logs_set_slots|done].
Qed.

#[export] Instance ResetParsingBatch_inv {V} `{BatchInv V} : BatchInv (ResetParsingBatch V) := forward_inv re_parent (λ _, True).

#[export] Instance ResetParsingBatch_laws {V H} `{!Batch V H, !BatchInv V, !BatchLaws V H} :
  BatchLaws (ResetParsingBatch V) NullHeader.
Proof. stateless. apply map_payload_law. intros w1 d w2 d2 E. unfold reset_descriptor in E. inv_outcome. done. Qed.

#[export] Instance CompositionBatch_inv {V} `{BatchInv V} : BatchInv (CompositionBatch V) := forward_inv co_parent (λ _, True).

#[export] Instance CompositionBatch_laws {V H} `{!Batch V H, !BatchInv V, !BatchLaws V H} :
  BatchLaws (CompositionBatch V) NullHeader.
Proof. stateless. exact (bl_next (V:=ResetParsingBatch V) (H:=NullHeader) w (co_parent u) idx w' o b put). Qed.

#[export] Instance RestoreHeader_inv {T V} `{BatchInv V} : BatchInv (RestoreHeader T V) := forward_inv rh_parent (λ _, True).

#[export] Instance RestoreHeader_laws {T V H} `{!Batch V H, !BatchInv V, !BatchLaws V H} : BatchLaws (RestoreHeader T V) T.
Proof.
  stateless. apply map_payload_law. intros w1 d w2 d2 E. unfold restore_saved_header in E.
  case_decide; [done|]. cbn in E. by injection E as <- <-.
Qed.

(** Operators that run a closure over the packets of the parent's [act]. *)
Section closures.
Context {V H : Type} `{BatchLaws V H}.

Lemma act_then_loop {S} (body : World → S → Z → PacketDescriptor H → outcome (World * S)) w v w1 v1 s w2 s2 :
  (∀ w s i d w' s', body w s i d = Ret (w', s') → same_logs w w') →
  b_inv v → act w v = Ret (w1, v1) → for_each_packet body w1 v1 s = Ret (w2, s2) →
  b_inv v1 ∧ flux w (b_total v) w2 (b_total v1).
Proof.
  intros Hbody Hv E1 E2. destruct (bl_act _ _ _ _ Hv E1) as [Hv1 Hfl]. split; [done|].
  eapply flux_trans; [exact Hfl|]. apply flux_logs; [|done]. by eapply for_each_logs.
Qed.
End closures.

(** The laws of an operator whose [act] runs a loop once. *)
Ltac closure_operator get E :=
  cbn; intros w u w' u' _ Hi E;
  match type of E with (if ?b then _ else _) = _ => destruct b end;
  [injection E as <- <-; split; [done|]; split; [done|]; by apply flux_refl|];
  let E1 := fresh "E1" in let E2 := fresh "E2" in
  destruct (act w (get u)) as [[w1 v1]| |] eqn:E1; try done; cbn in E;
  match type of E with context [for_each_packet ?b ?w1 ?v1 ?s] =>
    destruct (for_each_packet b w1 v1 s) as [[w2 f2]| |] eqn:E2 end; try done; cbn in E;
  injection E as <- <-; split; [done|]; cbn; refine (act_then_loop _ _ _ _ _ _ _ _ _ Hi E1 E2);
  clear; intros w s i d w' s' E; inv_outcome;
  repeat match goal with p : (_ * _)%type |- _ => destruct p; inv_outcome end.

(** And of one whose [done_] resets it. *)
Ltac closure_done get :=
  cbn; intros w u w' u' _ Hi E;
  let E1 := fresh "E1" in
  destruct (done_ w (get u)) as [[w1 v1]| |] eqn:E1; try done; cbn in E; injection E as <- <-;
  split; [done|]; exact (bl_done w (get u) _ _ Hi E1).

#[export] Instance MapBatch_inv {V H F} `{BatchInv V} : BatchInv (MapBatch V H F) := forward_inv mp_parent (λ _, True).

#[export] Instance MapBatch_laws {V H F} `{!Batch V H, !BatchInv V, !BatchLaws V H} : BatchLaws (MapBatch V H F) H.
Proof.
  apply (forward_laws _ _ (λ _, True)); try done.
  - unfold step_law, map_act. closure_operator (@mp_parent V H F) E. apply same_logs_refl.
  - unfold step_law, map_done. closure_done (@mp_parent V H F).
  - cbn. intros w u idx w' o b put. apply bl_next.
Qed.

#[export] Instance TransformBatch_inv {V H F} `{BatchInv V} : BatchInv (TransformBatch V H F) :=
  forward_inv tr_parent (λ _, True).

#[export] Instance TransformBatch_laws {V H F} `{!Batch V H, !BatchInv V, !BatchLaws V H} :
  BatchLaws (TransformBatch V H F) H.
Proof.
  apply (forward_laws _ _ (λ _, True)); try done.
  - unfold step_law, transform_act. closure_operator (@tr_parent V H F) E. apply same_logs_store.
  - unfold step_law, transform_done. closure_done (@tr_parent V H F).
  - cbn. intros w u idx w' o b put. apply bl_next.
Qed.

#[export] Instance AddMetadataBatch_inv {V H F} `{BatchInv V} : BatchInv (AddMetadataBatch V H F) :=
  forward_inv am_parent (λ _, True).

#[export] Instance AddMetadataBatch_laws {V H F} `{!Batch V H, !BatchInv V, !BatchLaws V H} :
  BatchLaws (AddMetadataBatch V H F) H.
Proof.
  apply (forward_laws _ _ (λ _, True)); try done.
  - unfold step_law, metadata_act. closure_operator (@am_parent V H F) E. unfold put_metadata in *. inv_outcome.
    apply same_logs_set_slots.
  - unfold step_law, metadata_done. closure_done (@am_parent V H F).
  - cbn. intros w u idx w' o b put. apply bl_next.
Qed.

#[export] Instance MutableAddMetadataBatch_inv {V H F} `{BatchInv V} : BatchInv (MutableAddMetadataBatch V H F) :=
  forward_inv mm_parent (λ _, True).

#[export] Instance MutableAddMetadataBatch_laws {V H F} `{!Batch V H, !BatchInv V, !BatchLaws V H} :
  BatchLaws (MutableAddMetadataBatch V H F) H.
Proof.
  apply (forward_laws _ _ (λ _, True)); try done.
  - unfold step_law, mutable_metadata_act. closure_operator (@mm_parent V H F) E. unfold put_metadata in *. inv_outcome.
    match goal with p : Pkt H |- _ =>
      exact (same_logs_trans _ _ _ (same_logs_store w d p) (same_logs_set_slots _ _ _)) end.
  - unfold step_law, mutable_metadata_done. closure_done (@mm_parent V H F).
  - cbn. intros w u idx w' o b put. apply bl_next.
Qed.

(** ** Filtering *)

#[export] Instance FilterBatch_inv {V H F} `{BatchInv V} : BatchInv (FilterBatch V H F) :=
  forward_inv fi_parent (λ u, fi_remove u = []).

(** The steps of a filter: the parent acts, the loop collects increasing indices,
    and the parent drops them. *)
Lemma filter_act_steps {V H F} `{BatchLaws V H} w (u : FilterBatch V H F) w' u' :
  fi_remove u = [] → b_inv (fi_parent u) → filter_act w u = Ret (w', u') →
  ∃ w1 v1 w2 b put, act w (fi_parent u) = Ret (w1, v1) ∧ b_inv v1 ∧ same_logs w1 w2 ∧
    get_packet_batch v1 = Ret (b, put) ∧ fi_remove u' = [] ∧
    ((w' = w2 ∧ fi_parent u' = v1) ∨
     ∃ idxes n, increasing 0 (pb_len b) idxes ∧ drop_packets w2 v1 idxes = Ret (w', fi_parent u', n)).
Proof.
  intros Ho Hi E. unfold filter_act in E. rewrite Ho in E.
  destruct (act w (fi_parent u)) as [[w1 v1]| |] eqn:E1; try done. cbn in E.
  match type of E with context [for_each_packet ?b ?w1 ?v1 ?s] =>
    destruct (for_each_packet b w1 v1 s) as [[w2 [remove f]]| |] eqn:E2 end; try done. cbn in E.
  destruct (bl_act _ _ _ _ Hi E1) as [Hi1 Hfl]. destruct (bl_bottom v1 Hi1) as (b & put & others & Hb & _).
  eapply (for_each_ind (λ i '(remove, _), increasing 0 (pb_len b) remove ∧ ∀ y, y ∈ remove → y < i)) in E2;
    [|done|exact Hb| |split; [done|by intros y ?%not_elem_of_nil]].
  2:{ clear. intros w [l f] i d w' [l' f'] Hi [Hinc Hlt] E. inv_outcome.
      match goal with p : (bool * F)%type |- _ => destruct p as [keep f2] end.
      injection E as <- <- <-. split; [apply same_logs_refl|]. destruct keep.
      - split; [done|]. intros y Hy. specialize (Hlt y Hy). lia.
      - split; [by apply increasing_snoc|]. intros y [Hy| ->%list_elem_of_singleton]%elem_of_app; [|lia].
        specialize (Hlt y Hy). lia. }
  destruct E2 as [Hl [j [Hinc _]]]. exists w1, v1, w2, b, put. split_and!; try done.
  - case_decide; [|by injection E as <- <-].
    destruct (drop_packets w2 v1 remove) as [[[w3 v3] n]| |]; try done. cbn in E. destruct n; [|done]. cbn in E.
    by injection E as <- <-.
  - case_decide; [|injection E as <- <-; by left].
    destruct (drop_packets w2 v1 remove) as [[[w3 v3] n]| |] eqn:E3; try done. cbn in E. destruct n; [|done]. cbn in E.
    injection E as <- <-. right. eauto.
Qed.

#[export] Instance FilterBatch_laws {V H F} `{!Batch V H, !BatchInv V, !BatchLaws V H} :
  BatchLaws (FilterBatch V H F) H.
Proof.
  apply (forward_laws _ _ (λ u, fi_remove u = [])); try done.
  - intros w u w' u' Ho Hi E.
    destruct (filter_act_steps w u w' u' Ho Hi E) as (w1 & v1 & w2 & b & put & E1 & Hi1 & Hl & Hb & Hr & Hcase).
    destruct (bl_act _ _ _ _ Hi E1) as [_ Hfl].
    assert (flux w (b_total (fi_parent u)) w2 (b_total v1)) as Hfl2
      by (eapply flux_trans; [exact Hfl|by apply flux_logs]).
    split; [done|]. destruct Hcase as [[-> ->]|(idxes & n & Hinc & E3)]; [done|].
    destruct (drop_flux v1 b put w2 idxes w' _ n Hi1 Hb Hinc E3) as (Hi3 & Hfl3 & _).
    split; [done|]. by eapply flux_trans.
  - apply fwd_act_law; [done|done|apply bl_done].
  - cbn. intros w u idx w' o b put. apply bl_next.
Qed.

(** ** Merging *)

#[export] Instance MergeBatch_inv {V} `{BatchInv V} : BatchInv (MergeBatch V) := {|
  b_inv u := Forall b_inv (mg_parents u) ∧ 0 ≤ mg_which u < len (mg_parents u);
  b_total u := concat (b_total <$> mg_parents u);
|}.

(** The current parent. *)
Lemma merge_split {V} `{BatchInv V} (u : MergeBatch V) :
  b_inv u →
  ∃ l1 v l2, mg_parents u = l1 ++ v :: l2 ∧ mg_which u = len l1 ∧ mg_parent u = Ret v ∧
    (∀ v', mg_with_parent u v' = mkMergeBatch (l1 ++ v' :: l2) (mg_which u)) ∧
    Forall b_inv l1 ∧ b_inv v ∧ Forall b_inv l2.
Proof.
  intros [Hi [H0 Hw]].
  destruct (lookup_lt_is_Some_2 (mg_parents u) (Z.to_nat (mg_which u))) as [v Hv]; [unfold len in *; lia|].
  apply list_elem_of_split_length in Hv as (l1 & l2 & Hp & Hl). exists l1, v, l2.
  split; [done|]. split; [unfold len; lia|]. split; [|split].
  - unfold mg_parent, index. rewrite decide_True by done. by rewrite Hp, Hl, list_lookup_middle.
  - intros v'. unfold mg_with_parent. rewrite Hp, Hl. f_equal. by rewrite insert_app_r_alt, Nat.sub_diag by done.
  - rewrite Hp in Hi. apply Forall_app in Hi as [Hi1 Hi]. by apply Forall_cons in Hi as [Hi Hi2].
Qed.

Section merge.
Context {V H : Type} `{BatchLaws V H}.

(** What happens to the current parent happens to the merge. *)
Lemma merge_parent_flux (u : MergeBatch V) l1 v l2 v' w w' which :
  mg_parents u = l1 ++ v :: l2 → Forall b_inv l1 → Forall b_inv l2 → b_inv v' →
  flux w (b_total v) w' (b_total v') → 0 ≤ which < len (mg_parents u) →
  b_inv (mkMergeBatch (l1 ++ v' :: l2) which) ∧
  flux w (b_total u) w' (b_total (mkMergeBatch (l1 ++ v' :: l2) which)).
Proof.
  intros Hp Hi1 Hi2 Hv' Hf Hr. cbn. rewrite Hp in *. split.
  - split; [by apply Forall_app; split; [|constructor]|]. rewrite !len_app in *. unfold len in *. cbn in *. lia.
  - rewrite !fmap_app, !concat_app. cbn.
    eapply (flux_perm _ (b_total v ++ (concat (b_total <$> l1) ++ concat (b_total <$> l2))) _ _
      (b_total v' ++ (concat (b_total <$> l1) ++ concat (b_total <$> l2)))); [solve_Permutation..|].
    by apply flux_frame.
Qed.

Lemma merge_bottom (u : MergeBatch V) :
  b_inv u → ∃ b put others, get_packet_batch u = Ret (b, put) ∧ pb_ok b ∧
    b_total u ≡ₚ pb_array b ++ others ∧
    ∀ b', pb_ok b' → b_inv (put b') ∧ b_total (put b') ≡ₚ pb_array b' ++ others ∧
      ∃ put', get_packet_batch (put b') = Ret (b', put').
Proof.
  intros Hu. destruct (merge_split u Hu) as (l1 & v & l2 & Hp & Hl & Hv & Hset & Hi1 & Hiv & Hi2).
  destruct Hu as [_ Hw]. cbn [get_packet_batch MergeBatch_batch]. rewrite Hv. cbn.
  destruct (bl_bottom v Hiv) as (b & put & others & Hb & Hok & Ht & Hput). rewrite Hb. cbn.
  exists b, (λ b, mg_with_parent u (put b)), (others ++ concat (b_total <$> l1) ++ concat (b_total <$> l2)).
  split; [done|]. split; [done|]. split.
  { rewrite Hp, fmap_app, concat_app. cbn. rewrite Ht. solve_Permutation. }
  intros b' Hb'. destruct (Hput b' Hb') as (Hi' & Ht' & put' & Hp'). rewrite Hset. cbn. split; [|split].
  - rewrite Hp in Hw. split; [by apply Forall_app; split; [|constructor]|].
    rewrite !len_app in *. unfold len in *. cbn in *. lia.
  - rewrite fmap_app, concat_app. cbn. rewrite Ht'. solve_Permutation.
  - unfold mg_parent. cbn. rewrite index_app by done. cbn. rewrite Hp'. cbn. eauto.
Qed.

Lemma merge_act_flux w (u : MergeBatch V) w' u' :
  b_inv u → merge_act w u = Ret (w', u') → b_inv u' ∧ flux w (b_total u) w' (b_total u').
Proof.
  intros Hu E. unfold merge_act in E.
  destruct (merge_split u Hu) as (l1 & v & l2 & Hp & Hl & Hv & Hset & Hi1 & Hiv & Hi2). rewrite Hv in E.
  cbn [mbind outcome_bind] in E. destruct (act w v) as [[w1 v1]| |] eqn:E1; try done.
  cbn [mbind outcome_bind] in E. rewrite Hset in E. injection E as <- <-.
  destruct (bl_act _ _ _ _ Hiv E1) as [Hiv1 Hf]. apply (merge_parent_flux u l1 v l2); try done. apply Hu.
Qed.

Lemma merge_done_flux w (u : MergeBatch V) w' u' :
  b_inv u → merge_done w u = Ret (w', u') → b_inv u' ∧ flux w (b_total u) w' (b_total u').
Proof.
  intros Hu E. unfold merge_done in E.
  destruct (merge_split u Hu) as (l1 & v & l2 & Hp & Hl & Hv & Hset & Hi1 & Hiv & Hi2). rewrite Hv in E.
  cbn [mbind outcome_bind] in E. destruct (done_ w v) as [[w1 v1]| |] eqn:E1; try done.
  cbn [mbind outcome_bind] in E. rewrite Hset in E. injection E as <- <-.
  destruct (bl_done _ _ _ _ Hiv E1) as [Hiv1 Hf]. cbn [mg_parents]. apply (merge_parent_flux u l1 v l2); try done.
  assert (len (l1 ++ v1 :: l2) = len (mg_parents u)) as -> by (rewrite Hp, !len_app; unfold len; cbn; lia).
  destruct Hu as [_ Hw]. case_decide; lia.
Qed.
End merge.

#[export] Instance MergeBatch_laws {V H} `{!Batch V H, !BatchInv V, !BatchLaws V H} : BatchLaws (MergeBatch V) H.
Proof.
  split; [apply merge_bottom| | | | | |apply merge_act_flux|apply merge_done_flux].
  all: cbn [get_packet_batch drop_packets send_q clear_packets start next_payload MergeBatch_batch].
  - intros w u idxes. destruct (mg_parent u) as [v| |]; try done. cbn. rewrite bl_drop.
    destruct (get_packet_batch v) as [[b put]| |]; try done. cbn. by destruct (drop_packets_stable w b idxes) as [[[]]| |].
  - intros P HP w u port. destruct (mg_parent u) as [v| |]; try done. cbn. rewrite bl_send.
    destruct (get_packet_batch v) as [[b put]| |]; try done. cbn. by destruct (pb_send_q w b port) as [[[[]]]| |].
  - intros u. destruct (mg_parent u) as [v| |]; try done. cbn. rewrite bl_clear.
    destruct (get_packet_batch v) as [[b put]| |]; try done. cbn. by destruct (consume_batch b).
  - intros u Hu. destruct (merge_split u Hu) as (l1 & v & l2 & _ & _ & Hv & _ & _ & Hiv & _). rewrite Hv. cbn.
    by apply bl_start.
  - intros w u idx w' o b put Hu Hb Hidx E.
    destruct (merge_split u Hu) as (l1 & v & l2 & _ & _ & Hv & _ & _ & Hiv & _). rewrite Hv in Hb, E. cbn in Hb, E.
    destruct (get_packet_batch v) as [[b0 put0]| |] eqn:Eb; try done. cbn in Hb. injection Hb as <- <-.
    by eapply bl_next; [|exact Eb| |].
Qed.

(** ** Batches that give up all their packets *)

(** When nothing is held, [act] fills the batch at the bottom only, and [done_]
    empties it. *)
Class BatchDrains (V H : Type) `{!Batch V H, !BatchInv V} := {
  bd_act w v w' v' b put :
    b_inv v → b_total v = [] → act w v = Ret (w', v') → get_packet_batch v' = Ret (b, put) →
    b_total v' ≡ₚ pb_array b;
  bd_done w v w' v' b put :
    b_inv v → get_packet_batch v = Ret (b, put) → b_total v ≡ₚ pb_array b → done_ w v = Ret (w', v') →
    b_total v' = [];
}.

#[export] Instance ReceiveBatch_drains `{PacketRxLaws Q} : BatchDrains (ReceiveBatch Q) NullHeader.
Proof.
  split; cbn.
  - by intros w r w' r' b put _ _ _ [= <- <-].
  - intros w r w' r' b put Hr _ _ E. by destruct (receive_done_spec w r w' r' Hr E) as (_ & _ & Ha).
Qed.

Section drains.
Context {V H : Type} `{BatchLaws V H, !BatchDrains V H}.

(** A batch that holds the packets at its bottom and nothing else. *)
Lemma bottom_alone (l a others : list ptr) : l ≡ₚ a ++ others → l ≡ₚ a → others = [].
Proof. intros H1 H2. rewrite H2 in H1. apply Permutation_length in H1. rewrite length_app in H1. by destruct others; cbn in H1; [|lia]. Qed.

Lemma empty_alone v b put :
  b_inv v → b_total v = [] → get_packet_batch v = Ret (b, put) → b_total v ≡ₚ pb_array b.
Proof.
  intros Hv Ht Hb. destruct (bl_bottom v Hv) as (b0 & put0 & others & Hb0 & _ & Ht0 & _).
  rewrite Hb in Hb0. injection Hb0 as <- <-. rewrite Ht in *. apply Permutation_nil_l in Ht0.
  symmetry in Ht0. apply app_eq_nil in Ht0 as [-> _]. done.
Qed.

Lemma put_alone v b put b' :
  b_inv v → get_packet_batch v = Ret (b, put) → b_total v ≡ₚ pb_array b → pb_ok b' →
  b_inv (put b') ∧ b_total (put b') ≡ₚ pb_array b' ∧ ∃ put', get_packet_batch (put b') = Ret (b', put').
Proof.
  intros Hv Hb Ht Hb'. destruct (bl_bottom v Hv) as (b0 & put0 & others & Hb0 & _ & Ht0 & Hput).
  rewrite Hb in Hb0. injection Hb0 as <- <-. destruct (Hput b' Hb') as (Hi & Ht' & Hp).
  assert (others = []) as -> by exact (bottom_alone _ _ _ Ht0 Ht). rewrite app_nil_r in Ht'. auto.
Qed.

Lemma drop_alone v b put w idxes w' v' n b' put' :
  b_inv v → get_packet_batch v = Ret (b, put) → b_total v ≡ₚ pb_array b → increasing 0 (pb_len b) idxes →
  drop_packets w v idxes = Ret (w', v', n) → get_packet_batch v' = Ret (b', put') → b_total v' ≡ₚ pb_array b'.
Proof.
  intros Hv Hb Ht Hi E Hb'. rewrite bl_drop, Hb in E. cbn in E.
  destruct (bl_bottom v Hv) as (b0 & put0 & others & Hb0 & Hok & _). rewrite Hb in Hb0. injection Hb0 as <- <-.
  destruct (drop_packets_exact w b idxes Hok Hi) as (b1 & Hd & _ & Hok1 & _). rewrite Hd in E. cbn in E.
  injection E as <- <- <-. destruct (put_alone v b put b1 Hv Hb Ht Hok1) as (_ & Ht1 & put1 & Hp1).
  rewrite Hb' in Hp1. by injection Hp1 as <- _.
Qed.

Context {H' U : Type} (get : U → V) (set : U → V → U) (own : U → Prop) (Hget : ∀ u v, get (set u v) = v).

Definition drain_act_law (f : World → U → outcome (World * U)) : Prop :=
  ∀ w u w' u' b put, own u → b_inv (get u) → b_total (get u) = [] → f w u = Ret (w', u') →
    get_packet_batch (get u') = Ret (b, put) → b_total (get u') ≡ₚ pb_array b.

Definition drain_done_law (f : World → U → outcome (World * U)) : Prop :=
  ∀ w u w' u' b put, own u → b_inv (get u) → get_packet_batch (get u) = Ret (b, put) →
    b_total (get u) ≡ₚ pb_array b → f w u = Ret (w', u') → b_total (get u') = [].

Lemma fwd_act_drains : drain_act_law (fwd_act get set act).
Proof.
  intros w u w' u' b put _ Hi Ht E Hb. unfold fwd_act in E.
  destruct (act w (get u)) as [[w1 v1]| |] eqn:E1; try done. cbn in E. injection E as <- <-. rewrite Hget in *.
  by eapply bd_act.
Qed.

Lemma fwd_done_drains : drain_done_law (fwd_act get set done_).
Proof.
  intros w u w' u' b put _ Hi Hb Ht E. unfold fwd_act in E.
  destruct (done_ w (get u)) as [[w1 v1]| |] eqn:E1; try done. cbn in E. injection E as <- <-. rewrite Hget in *.
  by eapply bd_done.
Qed.

Lemma forward_drains cap act' done' next' :
  drain_act_law act' → drain_done_law done' →
  @BatchDrains U H' (forward get set cap act' done' next') (forward_inv get own).
Proof.
  intros Ha Hd. split; cbn; unfold fwd_get_packet_batch.
  - intros w u w' u' b put [Ho Hi] Ht E Hb. destruct (get_packet_batch (get u')) as [[b0 put0]| |] eqn:Eb; try done.
    cbn in Hb. injection Hb as <- _. by eapply Ha.
  - intros w u w' u' b put [Ho Hi] Hb Ht E. destruct (get_packet_batch (get u)) as [[b0 put0]| |] eqn:Eb; try done.
    cbn in Hb. injection Hb as <- _. by eapply Hd.
Qed.
End drains.

Ltac stateless_drains :=
  apply (forward_drains _ _ (λ _, True)); [by apply fwd_act_drains|by apply fwd_done_drains].

#[export] Instance ParsedBatch_drains {T V H} `{EndOffset H} `{EndOffset T} `{!Follows T H}
    `{!Batch V H, !BatchInv V, !BatchLaws V H, !BatchDrains V H} : BatchDrains (ParsedBatch T V) T.
Proof. stateless_drains. Qed.

#[export] Instance DeparsedBatch_drains {T V H} `{!Follows H T}
    `{!Batch V H, !BatchInv V, !BatchLaws V H, !BatchDrains V H} : BatchDrains (DeparsedBatch V) T.
Proof. stateless_drains. Qed.

#[export] Instance ResetParsingBatch_drains {V H} `{!Batch V H, !BatchInv V, !BatchLaws V H, !BatchDrains V H} :
  BatchDrains (ResetParsingBatch V) NullHeader.
Proof. stateless_drains. Qed.

#[export] Instance CompositionBatch_drains {V H} `{!Batch V H, !BatchInv V, !BatchLaws V H, !BatchDrains V H} :
  BatchDrains (CompositionBatch V) NullHeader.
Proof. stateless_drains. Qed.

#[export] Instance RestoreHeader_drains {T V H} `{!Batch V H, !BatchInv V, !BatchLaws V H, !BatchDrains V H} :
  BatchDrains (RestoreHeader T V) T.
Proof. stateless_drains. Qed.

Ltac closure_drains get :=
  cbn; intros w u w' u' b put _ Hi Ht E Hb;
  match type of E with (if ?b then _ else _) = _ => destruct b end;
  [injection E as <- <-; by eapply empty_alone|];
  let E1 := fresh "E1" in
  destruct (act w (get u)) as [[w1 v1]| |] eqn:E1; try done; cbn in E;
  match type of E with context [for_each_packet ?b ?w1 ?v1 ?s] =>
    destruct (for_each_packet b w1 v1 s) as [[w2 f2]| |] end; try done; cbn in E;
  injection E as <- <-; exact (bd_act _ _ _ _ _ _ Hi Ht E1 Hb).

Ltac closure_done_drains get :=
  cbn; intros w u w' u' b put _ Hi Hb Ht E;
  let E1 := fresh "E1" in
  destruct (done_ w (get u)) as [[w1 v1]| |] eqn:E1; try done; cbn in E; injection E as <- <-;
  exact (bd_done _ _ _ _ _ _ Hi Hb Ht E1).

#[export] Instance MapBatch_drains {V H F} `{!Batch V H, !BatchInv V, !BatchLaws V H, !BatchDrains V H} :
  BatchDrains (MapBatch V H F) H.
Proof.
  apply (forward_drains _ _ (λ _, True)).
  - unfold drain_act_law, map_act. closure_drains (@mp_parent V H F).
  - unfold drain_done_law, map_done. closure_done_drains (@mp_parent V H F).
Qed.

#[export] Instance TransformBatch_drains {V H F} `{!Batch V H, !BatchInv V, !BatchLaws V H, !BatchDrains V H} :
  BatchDrains (TransformBatch V H F) H.
Proof.
  apply (forward_drains _ _ (λ _, True)).
  - unfold drain_act_law, transform_act. closure_drains (@tr_parent V H F).
  - unfold drain_done_law, transform_done. closure_done_drains (@tr_parent V H F).
Qed.

#[export] Instance AddMetadataBatch_drains {V H F} `{!Batch V H, !BatchInv V, !BatchLaws V H, !BatchDrains V H} :
  BatchDrains (AddMetadataBatch V H F) H.
Proof.
  apply (forward_drains _ _ (λ _, True)).
  - unfold drain_act_law, metadata_act. closure_drains (@am_parent V H F).
  - unfold drain_done_law, metadata_done. closure_done_drains (@am_parent V H F).
Qed.

#[export] Instance MutableAddMetadataBatch_drains {V H F}
    `{!Batch V H, !BatchInv V, !BatchLaws V H, !BatchDrains V H} : BatchDrains (MutableAddMetadataBatch V H F) H.
Proof.
  apply (forward_drains _ _ (λ _, True)).
  - unfold drain_act_law, mutable_metadata_act. closure_drains (@mm_parent V H F).
  - unfold drain_done_law, mutable_metadata_done. closure_done_drains (@mm_parent V H F).
Qed.

#[export] Instance FilterBatch_drains {V H F} `{!Batch V H, !BatchInv V, !BatchLaws V H, !BatchDrains V H} :
  BatchDrains (FilterBatch V H F) H.
Proof.
  apply (forward_drains _ _ (λ u, fi_remove u = [])); [|by apply fwd_done_drains].
  intros w u w' u' b' put' Ho Hi Ht E Hb'.
  destruct (filter_act_steps w u w' u' Ho Hi E) as (w1 & v1 & w2 & b & put & E1 & Hi1 & _ & Hb & _ & Hcase).
  pose proof (bd_act _ _ _ _ _ _ Hi Ht E1 Hb) as Ht1.
  destruct Hcase as [[_ Hu]|(idxes & n & Hinc & E3)].
  - rewrite Hu in *. rewrite Hb in Hb'. by injection Hb' as <- _.
  - exact (drop_alone v1 b put w2 idxes w' _ n b' put' Hi1 Hb Ht1 Hinc E3 Hb').
Qed.

Lemma concat_nil_inv {A} (l1 l2 : list (list A)) x :
  concat (l1 ++ x :: l2) = [] → concat l1 = [] ∧ x = [] ∧ concat l2 = [].
Proof. rewrite concat_app. cbn. intros [? [? ?]%app_eq_nil]%app_eq_nil. done. Qed.

Lemma concat_alone {A} (l1 l2 : list (list A)) x a :
  concat l1 = [] → concat l2 = [] → concat (l1 ++ x :: l2) = x ++ [] ∧ (x ≡ₚ a → concat (l1 ++ x :: l2) ≡ₚ a).
Proof. intros H1 H2. rewrite concat_app. cbn. rewrite H1, H2, app_nil_r. done. Qed.

#[export] Instance MergeBatch_drains {V H} `{!Batch V H, !BatchInv V, !BatchLaws V H, !BatchDrains V H} :
  BatchDrains (MergeBatch V) H.
Proof.
  split; cbn [act done_ get_packet_batch MergeBatch_batch].
  - intros w u w' u' b put Hu Ht E Hb. unfold merge_act in E.
    destruct (merge_split u Hu) as (l1 & v & l2 & Hp & Hl & Hv & Hset & _ & Hiv & _). rewrite Hv in E.
    cbn [mbind outcome_bind] in E. destruct (act w v) as [[w1 v1]| |] eqn:E1; try done.
    cbn [mbind outcome_bind] in E. rewrite Hset in E. injection E as <- <-.
    cbn in Ht |- *. rewrite Hp, fmap_app in Ht. cbn in Ht. apply concat_nil_inv in Ht as (H1 & H2 & H3).
    unfold mg_parent in Hb. cbn in Hb. rewrite index_app in Hb by done. cbn in Hb.
    destruct (get_packet_batch v1) as [[b1 put1]| |] eqn:Eb; try done. cbn in Hb. injection Hb as <- _.
    rewrite fmap_app. cbn. apply concat_alone; [done|done|]. by eapply bd_act.
  - intros w u w' u' b put Hu Hb Ht E. unfold merge_done in E.
    destruct (merge_split u Hu) as (l1 & v & l2 & Hp & Hl & Hv & Hset & _ & Hiv & _). rewrite Hv in E, Hb.
    cbn [mbind outcome_bind] in E, Hb. destruct (done_ w v) as [[w1 v1]| |] eqn:E1; try done.
    cbn [mbind outcome_bind] in E. rewrite Hset in E. injection E as <- <-. cbn in Ht |- *.
    destruct (get_packet_batch v) as [[b1 put1]| |] eqn:Eb; try done. cbn in Hb. injection Hb as <- _.
    destruct (bl_bottom v Hiv) as (b0 & put0 & others & Hb0 & _ & Ht0 & _). rewrite Eb in Hb0. injection Hb0 as <- <-.
    rewrite Hp, fmap_app, concat_app in Ht. cbn in Ht.
    assert (others ++ concat (b_total <$> l1) ++ concat (b_total <$> l2) = []) as Hn.
    { eapply bottom_alone; [|exact Ht]. rewrite Ht0. solve_Permutation. }
    apply app_eq_nil in Hn as [-> [H1 H2]%app_eq_nil]. rewrite app_nil_r in Ht0.
    rewrite fmap_app, concat_app. cbn. rewrite H1, H2, app_nil_r. by eapply (bd_done w v).
Qed.
