(* ===== verification/PipelineSpecs.v ===== *)
(** * PipelineSpecs: what a pipeline of operators does with its packets *)

From stdpp Require Import gmap.
From S2P Require Import Prelude Packed Headers Packet Batch BatchSpecs Pipeline.

(** ** Sending conserves mbufs *)

Lemma consume_copy fuel a new idx : consume_loop fuel a new idx = fst <$> copy_loop fuel a idx new.
Proof.
  revert a new idx. induction fuel as [|fuel IH]; intros a new idx; cbn; case_decide; try done.
  destruct (index a idx) as [x| |]; try done. cbn. destruct (set_index a new x); try done. cbn. apply IH.
Qed.

Lemma consume_spec b n :
  pb_ok b → 0 ≤ n ≤ pb_len b →
  ∃ b', consume_batch_partial b n = Ret b' ∧ pb_ok b' ∧ pb_array b' = drop (Z.to_nat n) (pb_array b).
Proof.
  intros Hb Hn. pose proof (pb_array_len b Hb) as Hl. unfold consume_batch_partial. rewrite consume_copy.
  set (a := pb_array b) in *.
  destruct (copy_loop_spec (drop (Z.to_nat n) a) [] (take (Z.to_nat n) a) (length a)) as (j & He & Hj);
    [rewrite length_drop; lia|].
  cbn [app] in He. change (len []) with 0 in He. rewrite take_drop in He.
  assert (len (take (Z.to_nat n) a) = n) as Ht by (unfold len in *; rewrite length_take; lia).
  rewrite Ht, !Z.add_0_l in He. rewrite He. cbn [fmap outcome_fmap mbind outcome_bind fst].
  assert (len (drop (Z.to_nat n) a) = pb_len b - n) as Hd by (unfold len in *; rewrite length_drop; lia).
  destruct (pb_shrunk b (drop (Z.to_nat n) a ++ j) (drop (Z.to_nat n) a) j (pb_len b - n))
    as (b' & Hb' & Ha' & Hok & _); [done|done| |by rewrite Hd|].
  { fold a. rewrite length_app, Hj, length_take, length_drop. unfold len in *. lia. }
  exists b'. by split.
Qed.

Lemma send_flux `{PacketTxLaws P} w b (port : P) w' b' port' n :
  pb_ok b → pb_send_q w b port = Ret (w', b', port', Some n) → pb_ok b' ∧ flux w (pb_array b) w' (pb_array b').
Proof.
  intros Hb E. unfold pb_send_q in E. case_decide; [|injection E as <- <- <- <-; split; [done|by apply flux_refl]].
  destruct (tx_send w port (pb_array b)) as [[w1 p1] [sl [sent|]]] eqn:Es; [|done].
  apply tx_law in Es as (-> & Ht & f & s & Hf & Hs & Hr & Hfs). rewrite pb_array_len in Hr by done.
  assert (pb_with_array b (pb_array b) = b) as Hid.
  { unfold pb_with_array, pb_array. rewrite length_take. destruct Hb as [Hb _]. unfold pb_capacity, len in Hb.
    rewrite Nat.min_l, take_drop by lia. by destruct b. }
  rewrite Hid in E. destruct (consume_spec b sent Hb Hr) as (b1 & Hc & Hok & Ha). rewrite Hc in E. cbn in E.
  injection E as <- <- <- <-. split; [done|]. exists [], f, s. rewrite !app_nil_r. split_and!; try done.
  by rewrite (assoc_L (++)), Hfs, Ha, take_drop.
Qed.

(** A pipeline, executed [n] times by the scheduler. *)
Fixpoint executes {P V H} `{PacketTx P, Batch V H} (n : nat) (w : World) (u : SendBatch P V) :
    outcome (World * SendBatch P V) :=
  match n with
  | O => Ret (w, u)
  | S n => '(w, u) ← send_execute w u; executes n w u
  end.

Section conserve.
Context {P V H} `{PacketTxLaws P} `{!Batch V H, !BatchInv V, !BatchLaws V H}.

Lemma send_steps w (u : SendBatch P V) w' u' :
  send_act w u = Ret (w', u') →
  ∃ w1 v1 b put w2 b2 n, act w (sb_parent u) = Ret (w1, v1) ∧ get_packet_batch v1 = Ret (b, put) ∧
    pb_send_q w1 b (sb_port u) = Ret (w2, b2, sb_port u', Some n) ∧ done_ w2 (put b2) = Ret (w', sb_parent u') ∧
    sb_sent u' = sb_sent u +u64 n.
Proof.
  intros E. unfold send_act in E. destruct (act w (sb_parent u)) as [[w1 v1]| |] eqn:E1; try done. cbn in E.
  destruct (get_packet_batch v1) as [[b put]| |] eqn:Eb; try done. cbn in E.
  destruct (pb_send_q w1 b (sb_port u)) as [[[[w2 b2] port] [n|]]| |] eqn:E2; try done. cbn in E.
  destruct (done_ w2 (put b2)) as [[w3 v3]| |] eqn:E3; try done. cbn in E. injection E as <- <-.
  by exists w1, v1, b, put, w2, b2, n.
Qed.

Lemma send_act_flux w (u : SendBatch P V) w' u' :
  b_inv (sb_parent u) → send_act w u = Ret (w', u') →
  b_inv (sb_parent u') ∧ flux w (b_total (sb_parent u)) w' (b_total (sb_parent u')).
Proof.
  intros Hi E. destruct (send_steps w u w' u' E) as (w1 & v1 & b & put & w2 & b2 & n & E1 & Eb & E2 & E3 & _).
  destruct (bl_act _ _ _ _ Hi E1) as [Hi1 Hf1].
  destruct (bl_bottom v1 Hi1) as (b0 & put0 & others & Hb0 & Hok & Ht & Hput). rewrite Eb in Hb0. injection Hb0 as <- <-.
  destruct (send_flux w1 b _ w2 b2 _ n Hok E2) as [Hok2 Hf2]. destruct (Hput b2 Hok2) as (Hi2 & Ht2 & _).
  destruct (bl_done _ _ _ _ Hi2 E3) as [Hi3 Hf3]. split; [done|].
  eapply flux_trans; [exact Hf1|]. eapply flux_trans; [|exact Hf3].
  eapply flux_perm; [symmetry; exact Ht|symmetry; exact Ht2|by apply flux_frame].
Qed.

Lemma send_act_drains `{!BatchDrains V H} w (u : SendBatch P V) w' u' :
  b_inv (sb_parent u) → b_total (sb_parent u) = [] → send_act w u = Ret (w', u') → b_total (sb_parent u') = [].
Proof.
  intros Hi Ht E. destruct (send_steps w u w' u' E) as (w1 & v1 & b & put & w2 & b2 & n & E1 & Eb & E2 & E3 & _).
  destruct (bl_act _ _ _ _ Hi E1) as [Hi1 _]. pose proof (bd_act _ _ _ _ _ _ Hi Ht E1 Eb) as Ht1.
  destruct (bl_bottom v1 Hi1) as (b0 & put0 & others & Hb0 & Hok & _). rewrite Eb in Hb0. injection Hb0 as <- <-.
  destruct (send_flux w1 b _ w2 b2 _ n Hok E2) as [Hok2 _].
  destruct (put_alone v1 b put b2 Hi1 Eb Ht1 Hok2) as (Hi2 & Ht2 & put2 & Hb2).
  exact (bd_done _ _ _ _ _ _ Hi2 Hb2 Ht2 E3).
Qed.
End conserve.

(** C23: pipelines conserve mbufs.  Stack any operators on sources that receive
    from a port, merged or not, and send what comes out: however often the pipeline
    runs, whatever its closures keep, change or drop and however little the port
    takes, every mbuf taken was freed or sent exactly once, and none are held between
    two runs. *)
Theorem pipeline_conserves_mbufs {P V H} `{PacketTxLaws P} `{!Batch V H, !BatchInv V, !BatchLaws V H, !BatchDrains V H}
    n w (u : SendBatch P V) w' u' :
  b_inv (sb_parent u) → b_total (sb_parent u) = [] → executes n w u = Ret (w', u') →
  b_total (sb_parent u') = [] ∧
  ∃ taken freed sent, w_taken w' = w_taken w ++ taken ∧ w_freed w' = w_freed w ++ freed ∧
    w_sent w' = w_sent w ++ sent ∧ taken ≡ₚ freed ++ sent.
Proof.
  intros Hi Ht E.
  assert (b_inv (sb_parent u') ∧ b_total (sb_parent u') = [] ∧ flux w [] w' []) as (_ & Ht' & t & f & s & Hf).
  { revert w u Hi Ht E. induction n as [|n IH]; intros w u Hi Ht E; cbn in E.
    - injection E as <- <-. split_and!; [done..|by apply flux_refl].
    - unfold send_execute in E. cbn [act SendBatch_batch] in E.
      destruct (send_act w u) as [[w1 u1]| |] eqn:E1; try done. cbn in E.
      destruct (send_act_flux w u w1 u1 Hi E1) as [Hi1 Hfl]. pose proof (send_act_drains w u w1 u1 Hi Ht E1) as Ht1.
      rewrite Ht, Ht1 in Hfl. destruct (IH w1 u1 Hi1 Ht1 E) as (? & ? & ?). split_and!; [done..|by eapply flux_trans]. }
  destruct Hf as (H1 & H2 & H3 & Hp). split; [done|]. exists t, f, s. split_and!; try done.
  rewrite app_nil_r in Hp. by cbn in Hp.
Qed.

(** ** A pipeline at work *)

(** A port that delivers the frames it has, and one that sends a packet at a
    time. *)
#[local] Instance frames_rx : PacketRx (list (ptr * MBuf)) := λ w q sl,
  let n := (length q `min` length sl)%nat in
  let got := take n q in
  (mkWorld (foldr (λ x m, <[x.1 := x.2]> m) (w_mbufs w) got) (w_slots w) (w_taken w ++ got.*1) (w_freed w) (w_sent w),
   drop n q, (got.*1 ++ drop n sl, Some (Z.of_nat n))).

Lemma frames_rx_laws : PacketRxLaws (list (ptr * MBuf)).
Proof.
  intros w q sl w' q' sl' r. unfold rx_recv, frames_rx. intros [= <- <- <- <-]. cbn.
  assert (length ((take (length q `min` length sl) q).*1) = length q `min` length sl)%nat as Hl
    by (rewrite length_fmap, length_take; lia).
  split; [rewrite length_app, length_drop, Hl; lia|]. split; [done|]. split; [done|]. split; [unfold len; lia|].
  rewrite Nat2Z.id. by rewrite take_app_length'.
Qed.

#[local] Instance one_tx : PacketTx unit := λ w p sl,
  (mkWorld (w_mbufs w) (w_slots w) (w_taken w) (w_freed w) (w_sent w ++ take 1 sl), p,
   (sl, Some (Z.of_nat (length (take 1 sl))))).

Lemma one_tx_laws : PacketTxLaws unit.
Proof.
  intros w p sl w' p' sl' r. unfold tx_send, one_tx. intros [= <- <- <- <-]. split; [done|]. split; [done|].
  exists [], (take 1 sl). cbn [w_freed w_sent]. rewrite app_nil_r. split; [done|]. split; [done|].
  split; [rewrite length_take; unfold len; lia|]. by destruct sl.
Qed.

#[local] Existing Instances frames_rx_laws one_tx_laws.

(** Three frames, of which the second is not IPv4. *)
Definition ip_frame : bytes := replicate 12 0 ++ [8; 0].
Definition arp_frame : bytes := replicate 12 0 ++ [8; 6].
Definition demo_mbuf (frame : bytes) : MBuf := mkMBuf 0 1 (len frame) (len frame) frame.

Definition demo_pipeline :=
  SendBatch_new (P := unit)
    (FilterBatch_new (H := MacHeader)
       (mkParsedBatch (T := MacHeader)
          (ReceiveBatch_new (replicate 4 0)
             [(1, demo_mbuf ip_frame); (2, demo_mbuf arp_frame); (3, demo_mbuf ip_frame)]))
       (λ (seen : nat) p, h ← get_header (pk_packet p); Ret (bool_decide (etype h = 0x0800), S seen)) 0%nat)
    tt.

Definition demo_world : World := mkWorld ∅ (λ _ _, 0) [] [] [].

Lemma pipeline_conserves_mbufs_witness :
  ∃ w' u', executes 2 demo_world demo_pipeline = Ret (w', u') ∧
    w_taken w' = [1; 2; 3] ∧ w_freed w' = [2; 3] ∧ w_sent w' = [1] ∧ b_total (sb_parent u') = [] ∧
    ∃ taken freed sent, w_taken w' = [] ++ taken ∧ w_freed w' = [] ++ freed ∧ w_sent w' = [] ++ sent ∧
      taken ≡ₚ freed ++ sent.
Proof.
  assert ((λ r, match r with Ret (w, _) => Some (w_taken w, w_freed w, w_sent w) | _ => None end)
    (executes 2 demo_world demo_pipeline) = Some ([1; 2; 3], [2; 3], [1])) as Hr by (vm_compute; reflexivity).
  destruct (executes 2 demo_world demo_pipeline) as [[w' u']| |] eqn:E; try discriminate Hr.
  injection Hr as H1 H2 H3. exists w', u'.
  destruct (pipeline_conserves_mbufs 2 demo_world demo_pipeline w' u') as [Ht Hc];
    [split; [reflexivity|split; [exact I|split; [split; vm_compute; discriminate|reflexivity]]]|reflexivity|exact E|].
  exact (conj eq_refl (conj H1 (conj H2 (conj H3 (conj Ht Hc))))).
Defined.

(** ** Filtering *)

(** The batch yields the packets [ds]. *)
Definition yields {V H} `{Batch V H, BatchInv V} (w : World) (v : V) (ds : list (PacketDescriptor H)) : Prop :=
  b_inv v ∧ start v = Ret 0 ∧ ∃ b put, get_packet_batch v = Ret (b, put) ∧ pb_array b = pd_mbuf <$> ds ∧
    ∀ idx, 0 ≤ idx → next_payload w v idx = Ret (w, ds !! Z.to_nat idx).

(** A filter's decisions on packets, one after the other. *)
Fixpoint decisions {H F} (filter : F → Pkt H → outcome (bool * F)) (w : World) (f : F)
    (ds : list (PacketDescriptor H)) : outcome (list bool * F) :=
  match ds with
  | [] => Ret ([], f)
  | d :: ds =>
      p ← load w d;
      '(keep, f) ← filter f p;
      '(keeps, f) ← decisions filter w f ds;
      Ret (keep :: keeps, f)
  end.

(** The elements that are kept, or those that are not. *)
Fixpoint select {A} (want : bool) (l : list A) (keeps : list bool) : list A :=
  match l, keeps with
  | x :: l, k :: keeps => if Bool.eqb k want then x :: select want l keeps else select want l keeps
  | _, _ => []
  end.

Fixpoint rejected (i : Z) (keeps : list bool) : list Z :=
  match keeps with
  | [] => []
  | k :: keeps => if k then rejected (i + 1) keeps else i :: rejected (i + 1) keeps
  end.

Lemma rejected_increasing keeps i : increasing i (i + len keeps) (rejected i keeps).
Proof.
  revert i. induction keeps as [|k keeps IH]; intros i; [done|]. cbn.
  assert (i + len (k :: keeps) = i + 1 + len keeps) as -> by (unfold len; cbn; lia). specialize (IH (i + 1)).
  pose proof (len_nonneg keeps). destruct k; [|by split; [lia|]].
  revert IH. generalize (rejected (i + 1) keeps) as l. intros [|y l]; [done|]. intros [Hy Hl]. split; [lia|done].
Qed.

Lemma rejected_not_elem keeps i x : x < i → x ∉ rejected i keeps.
Proof. intros Hx Hin. apply (increasing_ge _ _ _ _ (rejected_increasing keeps i)) in Hin. lia. Qed.

Lemma rejected_select l keeps i :
  length l = length keeps →
  without i l (rejected i keeps) = select true l keeps ∧ picked i l (rejected i keeps) = select false l keeps.
Proof.
  revert keeps i. induction l as [|x l IH]; intros [|k keeps] i Hl; try done. cbn in Hl. injection Hl as Hl.
  destruct (IH keeps (i + 1) Hl) as [H1 H2]. cbn. destruct k; cbn.
  - rewrite !decide_False by (apply rejected_not_elem; lia). by rewrite H1, H2.
  - rewrite !decide_True by apply list_elem_of_here. rewrite without_behind, picked_behind by lia. by rewrite H1, H2.
Qed.

Section filter.
Context {V H F : Type} `{!Batch V H, !BatchInv V, !BatchLaws V H} (filter : F → Pkt H → outcome (bool * F)).

(** The loop of the filter from a position on. *)
Definition filter_body : World → list Z * F → Z → PacketDescriptor H → outcome (World * (list Z * F)) :=
  λ w '(remove, f) idx d,
    p ← load w d; '(keep, f) ← filter f p; Ret (w, (if keep : bool then remove else remove ++ [idx], f)).

Lemma filter_loop ds w v : ∀ before f keeps f' remove fuel,
  (∀ idx, 0 ≤ idx → next_payload w v idx = Ret (w, (before ++ ds) !! Z.to_nat idx)) →
  decisions filter w f ds = Ret (keeps, f') → (length ds ≤ fuel)%nat →
  enumerate filter_body fuel w v (len before) (remove, f) = Ret (w, (remove ++ rejected (len before) keeps, f')).
Proof.
  induction ds as [|d ds IH]; intros before f keeps f' remove fuel Hnext Hd Hf; cbn in Hd.
  - injection Hd as <- <-. rewrite !app_nil_r in *.
    assert (next_payload w v (len before) = Ret (w, None)) as Hn.
    { rewrite Hnext by apply len_nonneg. unfold len. rewrite Nat2Z.id. by rewrite lookup_ge_None_2. }
    destruct fuel; cbn [enumerate]; by rewrite Hn.
  - destruct fuel as [|fuel]; [cbn in Hf; lia|]. cbn [enumerate].
    assert ((before ++ d :: ds) !! Z.to_nat (len before) = Some d) as Hat
      by (unfold len; by rewrite Nat2Z.id, list_lookup_middle).
    rewrite Hnext, Hat by apply len_nonneg. cbn.
    destruct (load w d) as [p| |]; try done. cbn in Hd |- *. destruct (filter f p) as [[keep f1]| |]; try done. cbn in Hd |- *.
    destruct (decisions filter w f1 ds) as [[ks f2]| |] eqn:E2; try done. cbn in Hd. injection Hd as <- <-.
    assert (len before + 1 = len (before ++ [d])) as Hl by by rewrite len_app. rewrite Hl.
    rewrite (IH (before ++ [d]) f1 ks f2 _ fuel); [|by rewrite <- (assoc_L (++))|done|cbn in Hf; lia].
    rewrite <- Hl. do 3 f_equal. destruct keep; cbn; [done|]. by rewrite <- (assoc_L (++)).
Qed.
End filter.

(** a filter frees what it rejects and keeps the rest in order.  When its
    parent has acted and yields some packets, [act] of the filter runs the closure
    over them once, in order, frees exactly the packets that it rejects, and leaves
    the others in the batch in their order. *)
Theorem filter_keeps {V H F} `{!Batch V H, !BatchInv V, !BatchLaws V H} w (u : FilterBatch V H F) w1 v1 ds keeps f' :
  b_inv u → act w (fi_parent u) = Ret (w1, v1) → yields w1 v1 ds →
  decisions (fi_filter u) w1 (fi_state u) ds = Ret (keeps, f') →
  ∃ v2 b put, act w u =
      Ret (freed w1 (select false (pd_mbuf <$> ds) keeps), mkFilterBatch v2 (fi_filter u) f' (fi_capacity u) []) ∧
    b_inv v2 ∧ get_packet_batch v2 = Ret (b, put) ∧ pb_array b = select true (pd_mbuf <$> ds) keeps.
Proof.
  intros [Ho Hi] Ha (Hi1 & Hs & b & put & Hb & Harr & Hnext) Hd.
  assert (length keeps = length ds) as Hk.
  { clear -Hd. revert keeps f' Hd. generalize (fi_state u) as f. induction ds as [|d ds IH]; intros f keeps f' Hd; cbn in Hd.
    - by injection Hd as <- _.
    - destruct (load w1 d); try done. cbn in Hd. destruct (fi_filter u f _) as [[k f1]| |]; try done. cbn in Hd.
      destruct (decisions (fi_filter u) w1 f1 ds) as [[ks f2]| |] eqn:E; try done. cbn in Hd. injection Hd as <- <-.
      cbn. f_equal. by eapply IH. }
  assert (length (pd_mbuf <$> ds) = length keeps) as Hlen by (rewrite length_fmap; lia).
  cbn [act FilterBatch_batch forward]. unfold filter_act. rewrite Ha, Ho. cbn [mbind outcome_bind].
  unfold for_each_packet. rewrite Hb, Hs. cbn [mbind outcome_bind].
  change (enumerate _ _ w1 v1 0 ([], fi_state u)) with
    (enumerate (filter_body (fi_filter u)) (length (pb_array b)) w1 v1 (len (@nil (PacketDescriptor H))) ([], fi_state u)).
  rewrite (filter_loop (fi_filter u) ds w1 v1 [] (fi_state u) keeps f' [] _ Hnext Hd) by (rewrite Harr, length_fmap; lia).
  cbn [mbind outcome_bind app]. change (len []) with 0.
  destruct (rejected_select (pd_mbuf <$> ds) keeps 0 Hlen) as [Hw Hp].
  destruct (bl_bottom v1 Hi1) as (b0 & put0 & others & Hb0 & Hok & _ & Hput). rewrite Hb in Hb0. injection Hb0 as <- <-.
  assert (increasing 0 (pb_len b) (rejected 0 keeps)) as Hinc.
  { rewrite <- (pb_array_len b Hok), Harr. unfold len. rewrite Hlen. apply (rejected_increasing keeps 0). }
  destruct (drop_packets_exact w1 b (rejected 0 keeps) Hok Hinc) as (b' & Hdr & Harr' & Hok' & _).
  rewrite Harr, Hw in Harr'. rewrite Harr, Hp in Hdr.
  case_decide as Hr.
  - rewrite bl_drop, Hb. cbn [mbind outcome_bind]. rewrite Hdr. cbn.
    destruct (Hput b' Hok') as (Hi2 & _ & put' & Hp'). by exists (put b'), b', put'.
  - assert (rejected 0 keeps = []) as Hr0 by (by destruct (rejected 0 keeps); [|destruct Hr]).
    rewrite Hr0 in Hdr. unfold drop_packets_stable in Hdr. rewrite decide_True in Hdr by done.
    injection Hdr as Hw1 _. rewrite <- Hw1. rewrite Hr0, without_nil in Hw.
    exists v1, b, put. cbn. split_and!; try done. by rewrite Harr.
Qed.

Lemma filter_keeps_witness :
  let u := FilterBatch_new (H := MacHeader)
    (mkParsedBatch (T := MacHeader)
       (ReceiveBatch_new (replicate 4 0)
          [(1, demo_mbuf ip_frame); (2, demo_mbuf arp_frame); (3, demo_mbuf ip_frame)]))
    (λ (seen : nat) p, h ← get_header (pk_packet p); Ret (bool_decide (etype h = 0x0800), S seen)) 0%nat in
  ∃ w1 v2 b put, act demo_world u = Ret (freed w1 [2], mkFilterBatch v2 (fi_filter u) 3%nat (fi_capacity u) []) ∧
    get_packet_batch v2 = Ret (b, put) ∧ pb_array b = [1; 3].
Proof.
  intros u. set (ds := (λ p, mkPacketDescriptor (H := MacHeader) p 0 0) <$> [1; 2; 3]).
  destruct (act demo_world (fi_parent u)) as [[w1 v1]| |] eqn:E; [|vm_compute in E; discriminate..].
  pose proof E as E'. vm_compute in E'. injection E' as Hw Hv.
  destruct (filter_keeps demo_world u w1 v1 ds [true; false; true] 3%nat) as (v2 & b & put & H1 & _ & H2 & H3).
  - split; [reflexivity|split; [exact I|split; [split; vm_compute; discriminate|reflexivity]]].
  - exact E.
  - split; [rewrite <- Hv; split; [exact I|split; [split; vm_compute; discriminate|reflexivity]]|].
    split; [rewrite <- Hv; reflexivity|]. rewrite <- Hv, <- Hw. eexists _, _. split; [reflexivity|].
    split; [reflexivity|]. intros idx Hi.
    destruct (decide (idx = 0)) as [->|]; [vm_compute; reflexivity|].
    destruct (decide (idx = 1)) as [->|]; [vm_compute; reflexivity|].
    destruct (decide (idx = 2)) as [->|]; [vm_compute; reflexivity|].
    rewrite (lookup_ge_None_2 ds) by (cbn; lia).
    cbn [next_payload ParsedBatch_batch forward map_payload pa_parent ReceiveBatch_batch rc_parent PacketBatch_batch].
    unfold map_payload. cbn. rewrite decide_False by lia. reflexivity.
  - rewrite <- Hw. vm_compute. reflexivity.
  - exists w1, v2, b, put. exact (conj H1 (conj H2 H3)).
Defined.

(** ** Merging takes turns *)

Section turns.
Context {V H : Type} `{!Batch V H}.

(** A task, run [n] times. *)
Fixpoint runs (n : nat) (w : World) (u : MergeBatch V) : outcome (World * MergeBatch V) :=
  match n with
  | O => Ret (w, u)
  | S n => '(w, u) ← batch_execute w u; runs n w u
  end.

(** Each batch, run once. *)
Fixpoint run_each (w : World) (vs : list V) : outcome (World * list V) :=
  match vs with
  | [] => Ret (w, [])
  | v :: vs => '(w, v) ← batch_execute w v; '(w, vs) ← run_each w vs; Ret (w, v :: vs)
  end.

Lemma merge_turn w before v todo :
  batch_execute w (mkMergeBatch (before ++ v :: todo) (len before)) =
  ('(w, v) ← batch_execute w v;
   Ret (w, mkMergeBatch (before ++ v :: todo) (if decide (todo = []) then 0 else len before + 1))).
Proof.
  unfold batch_execute. cbn [act done_ MergeBatch_batch]. unfold merge_act, merge_done.
  assert (∀ v, mg_parent (mkMergeBatch (before ++ v :: todo) (len before)) = Ret v) as Hp
    by (intros; unfold mg_parent; cbn; by apply index_app).
  assert (∀ v v', mg_with_parent (mkMergeBatch (before ++ v :: todo) (len before)) v' =
    mkMergeBatch (before ++ v' :: todo) (len before)) as Hs.
  { intros. unfold mg_with_parent, len. cbn. by rewrite Nat2Z.id, insert_app_r_alt, Nat.sub_diag. }
  rewrite Hp. cbn [mbind outcome_bind]. destruct (act w v) as [[w1 v1]| |]; try done. cbn [mbind outcome_bind].
  rewrite Hs, Hp. cbn [mbind outcome_bind]. destruct (done_ w1 v1) as [[w2 v2]| |]; try done. cbn [mbind outcome_bind].
  rewrite Hs. cbn [mg_which mg_parents]. rewrite len_app. do 3 f_equal. unfold len. cbn [length].
  repeat case_decide; subst; cbn in *; try lia; try done. by destruct todo; cbn in *; lia || done.
Qed.

Lemma merge_turns todo : ∀ w before, todo ≠ [] →
  runs (length todo) w (mkMergeBatch (before ++ todo) (len before)) =
  ('(w, vs) ← run_each w todo; Ret (w, mkMergeBatch (before ++ vs) 0)).
Proof.
  induction todo as [|v todo IH]; intros w before Hn; [done|]. cbn [length runs run_each]. rewrite merge_turn.
  destruct (batch_execute w v) as [[w1 v1]| |]; try done. cbn [mbind outcome_bind].
  destruct todo as [|v' todo]; [done|]. rewrite decide_False by done.
  assert (len before + 1 = len (before ++ [v1])) as -> by by rewrite len_app.
  rewrite (cons_middle v1 before), (assoc_L (++)), IH by done.
  destruct (run_each w1 (v' :: todo)) as [[w2 vs]| |]; try done. cbn [mbind outcome_bind].
  by rewrite <- (assoc_L (++)).
Qed.

(** merged batches take turns.  Running a merge as often as it has parents
    runs each parent once, in order, and leaves it ready for the next round;
    whatever a parent does, a panic included, is what the merge does. *)
Theorem merge_takes_turns w vs :
  vs ≠ [] → runs (length vs) w (merge vs) = ('(w, vs) ← run_each w vs; Ret (w, merge vs)).
Proof. apply (merge_turns vs w []). Qed.
End turns.

Lemma merge_takes_turns_witness :
  let r p := mkResetParsingBatch (ReceiveBatch_new (replicate 4 0) [(p, demo_mbuf ip_frame)]) in
  runs 2 demo_world (merge [r 1; r 2]) =
    ('(w, vs) ← run_each demo_world [r 1; r 2]; Ret (w, merge vs)).
Proof. intros r. apply (merge_takes_turns demo_world [r 1; r 2]). discriminate. Defined.
