(* ===== verification/NetSched.v ===== *)
(** * NetSched: NetBricks' schedulers

    Models net/framework/src/scheduler: the trait [Executable]; the embedded
    scheduler, which runs one task after the tasks that it depends on; and the
    standalone scheduler, which runs its tasks in turn and is commanded through a
    channel.

    A task changes a world.  The channel is a script: what each question for a
    command finds, [None] when there was none; at its end the other side is gone.
    A closure that the scheduler is told to run installs pipelines: it adds tasks.
    The clock is read from a source of its own. *)

From S2P Require Import Prelude.

Class Executable (W T : Type) := {
  execute : W → T → outcome (W * T);
  dependencies : T → list Z;
}.

(** ** The embedded scheduler *)

Section embedded.
Context {W T : Type} `{Executable W T}.

Record Runnable := mkRunnable {
  rn_task : T;
  rn_dependencies : list Z;
}.

Definition from_task (task : T) : Runnable := mkRunnable task (dependencies task).

Record EmbeddedScheduler := mkEmbeddedScheduler { es_tasks : list Runnable }.

Definition EmbeddedScheduler_new : EmbeddedScheduler := mkEmbeddedScheduler [].

(** The handle of a task is its position, from 1. *)
Definition es_add_task (s : EmbeddedScheduler) (task : T) : EmbeddedScheduler * Z :=
  let s := mkEmbeddedScheduler (es_tasks s ++ [from_task task]) in
  (s, len (es_tasks s)).

(** [self.tasks[task_id - 1].task.execute()] *)
Definition es_execute (w : W) (s : EmbeddedScheduler) (task_id : Z) : outcome (W * EmbeddedScheduler) :=
  r ← index (es_tasks s) (task_id -u64 1);
  '(w, task) ← execute w (rn_task r);
  tasks ← set_index (es_tasks s) (task_id -u64 1) (mkRunnable task (rn_dependencies r));
  Ret (w, mkEmbeddedScheduler tasks).

(** The recursion is bounded by nothing but the stack. *)
Fixpoint exec_task (fuel : nat) (w : W) (s : EmbeddedScheduler) (task_id : Z) :
    outcome (W * EmbeddedScheduler) :=
  match fuel with
  | O => Undef
  | S fuel =>
      r ← index (es_tasks s) (task_id -u64 1);
      '(w, s) ← ofold (λ '(w, s) dep,
        r ← index (es_tasks s) (task_id -u64 1);
        dep_task ← index (rn_dependencies r) dep;
        exec_task fuel w s dep_task) (w, s) (seqZ 0 (len (rn_dependencies r)));
      es_execute w s task_id
  end.

(** What [display_dependencies] prints: depths and tasks. *)
Fixpoint display_dependencies_internal (fuel : nat) (s : EmbeddedScheduler) (task_id depth : Z) :
    outcome (list (Z * Z)) :=
  match fuel with
  | O => Undef
  | S fuel =>
      r ← index (es_tasks s) (task_id -u64 1);
      lines ← ofold (λ lines dep,
        dep_task ← index (rn_dependencies r) dep;
        more ← display_dependencies_internal fuel s dep_task (depth +u64 1);
        Ret (lines ++ more)) [] (seqZ 0 (len (rn_dependencies r)));
      Ret (lines ++ [(depth, task_id)])
  end.

Definition display_dependencies (fuel : nat) (s : EmbeddedScheduler) (task_id : Z) : outcome (list (Z * Z)) :=
  display_dependencies_internal fuel s task_id 0.
End embedded.

Arguments Runnable : clear implicits.
Arguments EmbeddedScheduler : clear implicits.
Arguments mkRunnable {_} _ _.
Arguments mkEmbeddedScheduler {_} _.

(** ** The standalone scheduler *)

Section standalone.
Context {W T C : Type} `{Executable W T} (rdtsc_unsafe : C → Z * C).

Record TimedRunnable := mkTimedRunnable {
  tr_task : T;
  tr_cycles : Z;
  tr_last_run : Z;
}.

(** [Handshake] tells the other side that the scheduler has reached the barrier,
    and waits to be released. *)
Inductive SchedulerCommand :=
| Add (task : T)
| Run (f : W → outcome (W * list T))
| Execute
| Shutdown
| Handshake (barrier : W → outcome W).

Record StandaloneScheduler := mkStandaloneScheduler {
  run_q : list TimedRunnable;
  next_task : Z;
  sched_channel : list (option SchedulerCommand);
  sl_execute_loop : bool;
  sl_shutdown : bool;
  sl_clock : C;
}.

Definition StandaloneScheduler_new (channel : list (option SchedulerCommand)) (clock : C) : StandaloneScheduler :=
  mkStandaloneScheduler [] 0 channel false true clock.

Definition sl_with_queue (s : StandaloneScheduler) (q : list TimedRunnable) (clock : C) : StandaloneScheduler :=
  mkStandaloneScheduler q (next_task s) (sched_channel s) (sl_execute_loop s) (sl_shutdown s) clock.

Definition sl_with_channel (s : StandaloneScheduler) (ch : list (option SchedulerCommand)) : StandaloneScheduler :=
  mkStandaloneScheduler (run_q s) (next_task s) ch (sl_execute_loop s) (sl_shutdown s) (sl_clock s).

Definition sl_with_flags (s : StandaloneScheduler) (loop down : bool) : StandaloneScheduler :=
  mkStandaloneScheduler (run_q s) (next_task s) (sched_channel s) loop down (sl_clock s).

(** [Runnable::from_task], at the end of the queue; the handle. *)
Definition sl_add_task (s : StandaloneScheduler) (task : T) : StandaloneScheduler * Z :=
  let (now, clock) := rdtsc_unsafe (sl_clock s) in
  let s := sl_with_queue s (run_q s ++ [mkTimedRunnable task 0 now]) clock in
  (s, len (run_q s)).

(** [recv] waits for a command; [try_recv] does not. *)
Fixpoint recv_command (ch : list (option SchedulerCommand)) : option (SchedulerCommand * list (option SchedulerCommand)) :=
  match ch with
  | [] => None
  | None :: ch => recv_command ch
  | Some cmd :: ch => Some (cmd, ch)
  end.

Definition try_recv_command (ch : list (option SchedulerCommand)) :
    option SchedulerCommand * list (option SchedulerCommand) :=
  match ch with
  | [] => (None, [])
  | x :: ch => (x, ch)
  end.

Section requests.
(** [self.execute_loop()] *)
Context (exec : W → StandaloneScheduler → outcome (W * StandaloneScheduler)).

Definition handle_request (w : W) (s : StandaloneScheduler) (request : SchedulerCommand) :
    outcome (W * StandaloneScheduler) :=
  match request with
  | Add ex => Ret (w, (sl_add_task s ex).1)
  | Run f => '(w, tasks) ← f w; Ret (w, foldl (λ s t, (sl_add_task s t).1) s tasks)
  | Execute => exec w s
  | Shutdown => Ret (w, sl_with_flags s false true)
  | Handshake barrier => w ← barrier w; Ret (w, s)
  end.

(** The next task, which is charged for the time since [begin]; after the last
    one of the queue, a command if there is one.  The result is the time. *)
Definition execute_internal (w : W) (s : StandaloneScheduler) (begin : Z) :
    outcome (W * StandaloneScheduler * Z) :=
  r ← index (run_q s) (next_task s);
  '(w, task) ← execute w (tr_task r);
  let (time, clock) := rdtsc_unsafe (sl_clock s) in
  q ← set_index (run_q s) (next_task s) (mkTimedRunnable task (tr_cycles r +u64 (time -u64 begin)) time);
  let next := next_task s + 1 in
  if decide (next = len q) then
    let (cmd, ch) := try_recv_command (sched_channel s) in
    let s := mkStandaloneScheduler q 0 ch (sl_execute_loop s) (sl_shutdown s) clock in
    '(w, s) ← match cmd with Some cmd => handle_request w s cmd | None => Ret (w, s) end;
    Ret (w, s, time)
  else Ret (w, mkStandaloneScheduler q next (sched_channel s) (sl_execute_loop s) (sl_shutdown s) clock, time).
End requests.

(** [execute_loop], around its loop. *)
Definition start_loop (loop : W → StandaloneScheduler → Z → outcome (W * StandaloneScheduler)) (w : W)
    (s : StandaloneScheduler) : outcome (W * StandaloneScheduler) :=
  let (begin_time, clock) := rdtsc_unsafe (sl_clock s) in
  let s := mkStandaloneScheduler (run_q s) (next_task s) (sched_channel s) true (sl_shutdown s) clock in
  if decide (run_q s ≠ []) then loop w s begin_time else Ret (w, s).

(** The loop, whose fuel counts the tasks run; a command may start another loop
    inside. *)
Fixpoint execute_while (fuel : nat) (w : W) (s : StandaloneScheduler) (begin_time : Z) :
    outcome (W * StandaloneScheduler) :=
  if sl_execute_loop s then
    match fuel with
    | O => Undef
    | S fuel =>
        '(w, s, begin_time) ← execute_internal (start_loop (execute_while fuel)) w s begin_time;
        execute_while fuel w s begin_time
    end
  else Ret (w, s).

Definition execute_loop (fuel : nat) : W → StandaloneScheduler → outcome (W * StandaloneScheduler) :=
  start_loop (execute_while fuel).

Definition sl_execute_one (fuel : nat) (w : W) (s : StandaloneScheduler) : outcome (W * StandaloneScheduler) :=
  if decide (run_q s ≠ []) then
    let (begin_time, clock) := rdtsc_unsafe (sl_clock s) in
    '(w, s, _) ← execute_internal (execute_loop fuel) w (sl_with_queue s (run_q s) clock) begin_time;
    Ret (w, s)
  else Ret (w, s).

(** Commands are taken until a shutdown or until the other side is gone. *)
Fixpoint handle_requests_loop (fuel : nat) (n : nat) (w : W) (s : StandaloneScheduler) :
    outcome (W * StandaloneScheduler) :=
  if sl_shutdown s then Ret (w, s)
  else
    match recv_command (sched_channel s) with
    | None => Ret (w, sl_with_channel s [])
    | Some (cmd, ch) =>
        match n with
        | O => Undef
        | S n =>
            '(w, s) ← handle_request (execute_loop fuel) w (sl_with_channel s ch) cmd;
            handle_requests_loop fuel n w s
        end
    end.

Definition handle_requests (fuel : nat) (w : W) (s : StandaloneScheduler) : outcome (W * StandaloneScheduler) :=
  handle_requests_loop fuel (length (sched_channel s)) w (sl_with_flags s (sl_execute_loop s) false).
End standalone.

Arguments TimedRunnable : clear implicits.
Arguments SchedulerCommand : clear implicits.
Arguments StandaloneScheduler : clear implicits.
Arguments mkTimedRunnable {_} _ _ _.
Arguments mkStandaloneScheduler {_ _ _} _ _ _ _ _ _.
Arguments Add {_ _} _.
Arguments Run {_ _} _.
Arguments Execute {_ _}.
Arguments Shutdown {_ _}.
Arguments Handshake {_ _} _.

(** * What the schedulers do *)

(** ** The embedded scheduler *)

Section embedded.
Context {W T : Type} `{Executable W T}.

(** A scheduler to which tasks were added whose dependencies are handles of
    tasks added before. *)
Inductive built : EmbeddedScheduler T → Prop :=
| built_new : built EmbeddedScheduler_new
| built_add s task :
    built s → Forall (λ d, 1 ≤ d ≤ len (es_tasks s)) (dependencies task) → built (es_add_task s task).1.

(** The dependencies of all tasks. *)
Definition deps_of (s : EmbeddedScheduler T) : list (list Z) := rn_dependencies <$> es_tasks s.

(** Task [x] depends on [d]. *)
Definition depends (ds : list (list Z)) (x d : Z) : Prop := ∃ l, ds !! Z.to_nat (x - 1) = Some l ∧ d ∈ l.

Definition earlier (ds : list (list Z)) : Prop :=
  ∀ i l, ds !! i = Some l → Forall (λ d, 1 ≤ d ≤ Z.of_nat i) l.

Lemma built_earlier s : built s → earlier (deps_of s).
Proof.
  induction 1 as [|s task _ IH Hd]; intros i l Hl; [done|].
  unfold deps_of, es_add_task in Hl. cbn in Hl. rewrite fmap_app in Hl.
  apply lookup_app_Some in Hl as [Hl|[Hi Hl]]; [by eapply IH|].
  apply list_lookup_singleton_Some in Hl as [Hz <-]. rewrite length_fmap in *.
  eapply Forall_impl; [exact Hd|]. cbn. unfold len. lia.
Qed.

(** The tasks run for a task, in order: those run for each of its dependencies,
    and itself. *)
Fixpoint post_order (fuel : nat) (ds : list (list Z)) (x : Z) : list Z :=
  match fuel with
  | O => []
  | S fuel => (default [] (ds !! Z.to_nat (x - 1)) ≫= post_order fuel ds) ++ [x]
  end.

Lemma post_order_range fuel ds x y :
  earlier ds → 1 ≤ x ≤ len ds → y ∈ post_order fuel ds x → 1 ≤ y ≤ x ∧ rtc (depends ds) x y.
Proof.
  intros He. revert x y. induction fuel as [|fuel IH]; intros x y Hx Hy; [by apply elem_of_nil in Hy|].
  cbn in Hy. apply elem_of_app in Hy as [Hy|Hy%list_elem_of_singleton]; [|subst; split; [lia|constructor]].
  apply list_elem_of_bind in Hy as (d & Hy & Hd).
  destruct (ds !! Z.to_nat (x - 1)) as [l|] eqn:E; cbn in Hd; [|by apply elem_of_nil in Hd].
  pose proof (He _ _ E) as Hl. rewrite Forall_forall in Hl. specialize (Hl d Hd). unfold len in *.
  destruct (IH d y ltac:(lia) Hy) as [Hr Hp]. split; [lia|].
  eapply rtc_l; [|exact Hp]. by exists l.
Qed.

Lemma index_task {A} (l : list A) x : 1 ≤ x ≤ len l → len l < 2 ^ 64 → index l (x -u64 1) = expect (l !! Z.to_nat (x - 1)).
Proof.
  intros Hx Hl. unfold index. rewrite wsub_id by (unfold in_width; lia). by rewrite decide_True by lia.
Qed.

Definition run_all (w : W) (s : EmbeddedScheduler T) (xs : list Z) : outcome (W * EmbeddedScheduler T) :=
  ofold (λ '(w, s) x, es_execute w s x) (w, s) xs.

Lemma es_execute_deps w s x w' s' : es_execute w s x = Ret (w', s') → deps_of s' = deps_of s.
Proof.
  unfold es_execute, index. case_decide; [|done].
  destruct (es_tasks s !! _) as [r|] eqn:Er; cbn; [|done].
  destruct (execute w (rn_task r)) as [[w1 t]| |]; cbn; [|done..].
  unfold set_index. case_decide; cbn; [|done]. intros [= <- <-]. unfold deps_of. cbn.
  rewrite list_fmap_insert. cbn. apply list_insert_id. by rewrite list_lookup_fmap, Er.
Qed.

Lemma run_all_deps w s xs w' s' : run_all w s xs = Ret (w', s') → deps_of s' = deps_of s.
Proof.
  revert w s. induction xs as [|x xs IH]; intros w s; unfold run_all; cbn; [by intros [= <- <-]|].
  destruct (es_execute w s x) as [[w1 s1]| |] eqn:E; cbn; [|done..]. intros Hr.
  rewrite <- (es_execute_deps _ _ _ _ _ E). by eapply IH.
Qed.

Lemma run_all_app w s xs ys : run_all w s (xs ++ ys) = ('(w, s) ← run_all w s xs; run_all w s ys).
Proof. unfold run_all. rewrite ofold_app. by destruct (ofold _ _ xs) as [[]| |]. Qed.

(** Enough fuel is the handle itself. *)
Lemma exec_task_order fuel w s x :
  earlier (deps_of s) → len (es_tasks s) < 2 ^ 64 → 1 ≤ x ≤ len (es_tasks s) → (Z.to_nat x ≤ fuel)%nat →
  exec_task fuel w s x = run_all w s (post_order fuel (deps_of s) x).
Proof.
  revert w s x. induction fuel as [|fuel IH]; intros w s x He Hlen Hx Hf; [lia|].
  cbn [exec_task post_order]. rewrite index_task by done.
  destruct (lookup_lt_is_Some_2 (es_tasks s) (Z.to_nat (x - 1))) as [r Hr]; [unfold len in *; lia|].
  rewrite Hr. cbn [expect mbind outcome_bind].
  assert (deps_of s !! Z.to_nat (x - 1) = Some (rn_dependencies r)) as Hds
    by (unfold deps_of; by rewrite list_lookup_fmap, Hr).
  rewrite Hds. cbn [default]. rewrite run_all_app. cbn [from_option id].
  pose proof (He _ _ Hds) as Hd.
  enough (∀ pre post w1 s1, rn_dependencies r = pre ++ post → deps_of s1 = deps_of s →
    ofold (λ '(w, s) dep,
        r ← index (es_tasks s) (x -u64 1);
        dep_task ← index (rn_dependencies r) dep;
        exec_task fuel w s dep_task) (w1, s1) (seqZ (len pre) (len post)) =
    run_all w1 s1 (post ≫= post_order fuel (deps_of s))) as Hloop.
  { rewrite (Hloop [] _ w s) by done.
    destruct (run_all w s (rn_dependencies r ≫= _)) as [[w1 s1]| |]; [|done..].
    cbn [mbind outcome_bind]. unfold run_all. cbn. by destruct (es_execute w1 s1 x) as [[]| |]. }
  intros pre post. revert pre. induction post as [|d post IHp]; intros pre w1 s1 Hsplit Hs1; [done|].
  rewrite seqZ_cons by (unfold len; cbn; lia). cbn [ofold].
  assert (len (es_tasks s1) = len (es_tasks s)) as Hl1.
  { pose proof (f_equal length Hs1) as Hq. unfold deps_of in Hq. rewrite !length_fmap in Hq. unfold len. lia. }
  rewrite index_task by lia.
  assert (deps_of s1 !! Z.to_nat (x - 1) = Some (rn_dependencies r)) as Hds1 by by rewrite Hs1.
  unfold deps_of in Hds1. rewrite list_lookup_fmap in Hds1.
  destruct (es_tasks s1 !! Z.to_nat (x - 1)) as [r1|] eqn:Er1; [|done]. cbn in Hds1. injection Hds1 as Hr1.
  cbn [expect mbind outcome_bind]. rewrite Hr1, Hsplit.
  assert (index (pre ++ d :: post) (len pre) = Ret d) as ->.
  { unfold index, len. rewrite decide_True by lia. by rewrite Nat2Z.id, list_lookup_middle. }
  cbn [mbind outcome_bind]. rewrite Hsplit in Hd. apply Forall_app in Hd as [_ [Hd1 _]%Forall_cons].
  rewrite IH by (rewrite ?Hs1, ?Hl1; first [done | lia]). rewrite Hs1.
  cbn [mbind list_bind]. rewrite run_all_app.
  destruct (run_all w1 s1 (post_order fuel (deps_of s) d)) as [[w2 s2]| |] eqn:E2; [|done..].
  cbn [mbind outcome_bind]. replace (Z.succ (len pre)) with (len (pre ++ [d])) by (rewrite len_app; done).
  replace (Z.pred (len (d :: post))) with (len post) by (unfold len; cbn; lia).
  apply IHp; [by rewrite <- (assoc_L (++))|]. by rewrite (run_all_deps _ _ _ _ _ E2).
Qed.

Lemma post_order_fuel fuel fuel' ds x :
  earlier ds → 1 ≤ x ≤ len ds → (Z.to_nat x ≤ fuel)%nat → (Z.to_nat x ≤ fuel')%nat →
  post_order fuel ds x = post_order fuel' ds x.
Proof.
  intros He. revert fuel' x. induction fuel as [|fuel IH]; intros [|fuel'] x Hx Hf Hf'; try lia.
  cbn [post_order]. f_equal. destruct (ds !! Z.to_nat (x - 1)) as [l|] eqn:E; [|done]. cbn.
  pose proof (He _ _ E) as Hl. clear E. unfold len in *. induction Hl as [|d l Hd _ IHl]; [done|]. cbn.
  rewrite (IH fuel') by lia. by rewrite IHl.
Qed.

(** A dependency is run before what depends on it. *)
Lemma post_order_before fuel ds x i y d :
  earlier ds → 1 ≤ x ≤ len ds → (Z.to_nat x ≤ fuel)%nat →
  post_order fuel ds x !! i = Some y → depends ds y d →
  ∃ j, (j < i)%nat ∧ post_order fuel ds x !! j = Some d.
Proof.
  intros He. revert x i. induction fuel as [|fuel IH]; intros x i Hx Hf Hy Hd; [lia|].
  cbn [post_order] in *. set (l := default [] (ds !! Z.to_nat (x - 1))) in *.
  assert (Forall (λ d, 1 ≤ d ≤ x - 1) l) as Hl.
  { unfold l. destruct (ds !! Z.to_nat (x - 1)) as [l0|] eqn:E; [|by constructor]. cbn.
    eapply Forall_impl; [exact (He _ _ E)|]. cbn. lia. }
  assert (∀ l' k, Forall (λ d, 1 ≤ d ≤ x - 1) l' → (l' ≫= post_order fuel ds) !! k = Some y →
    ∃ j, (j < k)%nat ∧ (l' ≫= post_order fuel ds) !! j = Some d) as Hin.
  { intros l' k Hl'. revert k. induction Hl' as [|e l' He' _ IHl]; intros k Hk; [done|].
    cbn in Hk |- *. apply lookup_app_Some in Hk as [Hk|[Hge Hk]].
    - destruct (IH e k) as (j & Hj & Hjd); [lia|lia|done|done|]. exists j. split; [done|].
      by apply lookup_app_l_Some.
    - destruct (IHl _ Hk) as (j & Hj & Hjd). exists (length (post_order fuel ds e) + j)%nat.
      split; [lia|]. by rewrite lookup_app_r, Nat.add_sub' by lia. }
  apply lookup_app_Some in Hy as [Hy|[Hge Hy]].
  - destruct (Hin l i Hl Hy) as (j & Hj & Hjd). exists j. split; [done|]. by apply lookup_app_l_Some.
  - apply list_lookup_singleton_Some in Hy as [Hz <-]. destruct Hd as (l0 & Hl0 & Hd).
    assert (l = l0) as -> by (unfold l; by rewrite Hl0).
    assert (d ∈ l0 ≫= post_order fuel ds) as [j Hj]%list_elem_of_lookup.
    { apply list_elem_of_bind. exists d. split; [|done]. rewrite Forall_forall in Hl. specialize (Hl d Hd).
      destruct fuel; [lia|]. cbn. apply elem_of_app. right. by apply list_elem_of_singleton. }
    pose proof (lookup_lt_Some _ _ _ Hj). exists j. split; [lia|]. by apply lookup_app_l_Some.
Qed.

Lemma post_order_reaches fuel ds x y :
  earlier ds → 1 ≤ x ≤ len ds → (Z.to_nat x ≤ fuel)%nat → rtc (depends ds) x y → y ∈ post_order fuel ds x.
Proof.
  intros He Hx Hf Hr.
  assert (x ∈ post_order fuel ds x) as Hz by (destruct fuel; [lia|]; cbn; apply elem_of_app; right; by apply list_elem_of_singleton).
  enough (∀ z, rtc (depends ds) z y → z ∈ post_order fuel ds x → y ∈ post_order fuel ds x) as Hg by by apply (Hg x).
  intros z Hzy. clear Hr Hz. induction Hzy as [|z d y Hd _ IH]; intros Hz; [done|]. apply IH.
  apply list_elem_of_lookup in Hz as [i Hi].
  destruct (post_order_before fuel ds x i z d) as (j & _ & Hj); try done. by eapply list_elem_of_lookup_2.
Qed.

(** C25: a task is run after everything that it depends on.  In a scheduler to
    which tasks were added after the tasks that they depend on, running a task
    always comes to an end (the handle bounds the depth): it runs a list of tasks,
    fixed by the dependencies alone, in which all tasks that it depends on, directly
    or not, and no others, come before those that depend on them, and itself comes
    last.  If one of them panics, the rest is not run. *)
Theorem dependencies_run_first s x fuel :
  built s → len (es_tasks s) < 2 ^ 64 → 1 ≤ x ≤ len (es_tasks s) → (Z.to_nat x ≤ fuel)%nat →
  ∃ order,
    (∀ w, exec_task fuel w s x = ofold (λ '(w, s) y, es_execute w s y) (w, s) order) ∧
    last order = Some x ∧
    (∀ y, y ∈ order ↔ rtc (depends (deps_of s)) x y) ∧
    (∀ i y d, order !! i = Some y → depends (deps_of s) y d → ∃ j, (j < i)%nat ∧ order !! j = Some d).
Proof.
  intros Hb Hlen Hx Hf. pose proof (built_earlier s Hb) as He.
  assert (len (deps_of s) = len (es_tasks s)) as Hl by (unfold deps_of, len; by rewrite length_fmap).
  exists (post_order fuel (deps_of s) x). split_and!.
  - intros w. by apply exec_task_order.
  - destruct fuel; [lia|]. cbn. by rewrite last_snoc.
  - intros y. split; intros Hy.
    + by apply (post_order_range fuel) in Hy as [_ Hy]; [|done|lia].
    + apply post_order_reaches; [done|lia|done|done].
  - intros i y d. apply post_order_before; [done|lia|done].
Qed.

(** Tasks that wait for each other are never run: the recursion does not end. *)
Lemma cycle_never_returns (P : Z → Prop) fuel w s x :
  (∀ y, P y → 1 ≤ y ≤ len (es_tasks s) ∧ ∃ d ds, deps_of s !! Z.to_nat (y - 1) = Some (d :: ds) ∧ P d) →
  len (es_tasks s) < 2 ^ 64 → P x → exec_task fuel w s x = Undef.
Proof.
  intros HP Hlen. revert x. induction fuel as [|fuel IH]; intros x Hx; [done|]. cbn [exec_task].
  destruct (HP x Hx) as (Hr & d & ds & Hds & Hd). rewrite index_task by done.
  unfold deps_of in Hds. rewrite list_lookup_fmap in Hds.
  destruct (es_tasks s !! Z.to_nat (x - 1)) as [r|] eqn:Er; [|done]. cbn in Hds. injection Hds as Hds.
  cbn [expect mbind outcome_bind]. rewrite Hds, seqZ_cons by (unfold len; cbn; lia). cbn [ofold].
  rewrite index_task, Er by done. cbn [expect mbind outcome_bind]. rewrite Hds.
  change (index (d :: ds) 0) with (Ret d). cbn [mbind outcome_bind]. by rewrite IH.
Qed.
End embedded.

Section embedded_example.
(** Tasks that append their name to a log. *)
#[local] Instance logger : Executable (list Z) (Z * list Z) := {|
  execute w t := Ret (w ++ [t.1], t);
  dependencies t := t.2;
|}.

(** A diamond: its first task runs once for each path to it. *)
Definition diamond : EmbeddedScheduler (Z * list Z) :=
  foldl (λ s t, (es_add_task s t).1) EmbeddedScheduler_new [(10, []); (20, [1]); (30, [1]); (40, [2; 3])].

Example diamond_runs : exec_task 4 [] diamond 4 = Ret ([10; 20; 10; 30; 40], diamond).
Proof. vm_compute. reflexivity. Qed.

Lemma diamond_built : built diamond.
Proof. repeat constructor; cbn; unfold len; cbn; lia. Qed.

Lemma dependencies_run_first_witness :
  ∃ order, ofold (λ '(w, s) y, es_execute w s y) ([], diamond) order = Ret ([10; 20; 10; 30; 40], diamond) ∧
    last order = Some 4 ∧ (∀ y, y ∈ order ↔ rtc (depends (deps_of diamond)) 4 y).
Proof.
  destruct (dependencies_run_first diamond 4 4 diamond_built) as (order & He & Hl & Hr & _);
    [vm_compute; reflexivity|vm_compute; split; discriminate|apply le_n|].
  exists order. split; [rewrite <- He; vm_compute; reflexivity|]. split; [exact Hl|exact Hr].
Defined.
End embedded_example.

(** ** The standalone scheduler *)

Section standalone.
Context {W T C : Type} `{Executable W T} (rdtsc_unsafe : C → Z * C).

Abbreviation script := (list (option (SchedulerCommand W T))).

(** A turn of every task. *)
Fixpoint run_round (w : W) (ts : list T) : outcome (W * list T) :=
  match ts with
  | [] => Ret (w, [])
  | t :: ts =>
      '(w, t) ← execute w t;
      '(w, ts) ← run_round w ts;
      Ret (w, t :: ts)
  end.

(** What a scheduler does for a script of commands, without queue, counters and
    clock: rounds over the tasks, with a look for a command between two of them,
    once it was told to execute and has a task.  A script that ends while it
    executes leaves it running for ever. *)
Fixpoint serve (looping : bool) (w : W) (ts : list T) (ch : script) : outcome (W * list T * script) :=
  match ch with
  | [] => if looping then Undef else Ret (w, ts, [])
  | cmd :: ch =>
      '(w, ts) ← (if looping then run_round w ts else Ret (w, ts));
      match cmd with
      | None => serve looping w ts ch
      | Some (Add t) => serve looping w (ts ++ [t]) ch
      | Some (Run f) => '(w, new) ← f w; serve looping w (ts ++ new) ch
      | Some Execute => serve (looping || bool_decide (0 < len ts)) w ts ch
      | Some Shutdown => Ret (w, ts, ch)
      | Some (Handshake barrier) => w ← barrier w; serve looping w ts ch
      end
  end.

Definition tasks (s : StandaloneScheduler W T C) : list T := tr_task <$> run_q s.

Lemma add_tasks_spec new s :
  let s' := foldl (λ s t, (sl_add_task rdtsc_unsafe s t).1) s new in
  tasks s' = tasks s ++ new ∧ next_task s' = next_task s ∧ sched_channel s' = sched_channel s ∧
  sl_execute_loop s' = sl_execute_loop s ∧ sl_shutdown s' = sl_shutdown s.
Proof.
  revert s. induction new as [|t new IH]; intros s; cbn; [by rewrite app_nil_r|].
  destruct (IH (sl_add_task rdtsc_unsafe s t).1) as (Ht & Hr). cbn in Ht. rewrite Ht. unfold sl_add_task in *.
  destruct (rdtsc_unsafe (sl_clock s)) as [now clock]. split; [|exact Hr].
  unfold tasks. cbn. rewrite fmap_app. cbn. by rewrite <- (assoc_L (++)).
Qed.

(** A scheduler at the start of a round. *)
Record ready (looping : bool) (ts : list T) (ch : script) (s : StandaloneScheduler W T C) : Prop := {
  rd_tasks : tasks s = ts;
  rd_next : next_task s = 0;
  rd_channel : sched_channel s = ch;
  rd_loop : looping = true → sl_execute_loop s = true;
  rd_shutdown : sl_shutdown s = false;
}.

(** The rest of a round, and the look for a command after it. *)
Lemma rest_of_round before rest fuel w s begin :
  rest ≠ [] → tasks s = before ++ rest → next_task s = len before → sl_execute_loop s = true →
  match run_round w rest with
  | Ret (w', rest') =>
      ∃ s1 time, execute_while rdtsc_unsafe (length rest + fuel) w s begin =
        ('(w, s) ← match fst (try_recv_command (sched_channel s)) with
                   | Some cmd => handle_request rdtsc_unsafe (start_loop rdtsc_unsafe (execute_while rdtsc_unsafe fuel)) w' s1 cmd
                   | None => Ret (w', s1)
                   end;
         execute_while rdtsc_unsafe fuel w s time) ∧
        tasks s1 = before ++ rest' ∧ next_task s1 = 0 ∧ sched_channel s1 = snd (try_recv_command (sched_channel s)) ∧
        sl_execute_loop s1 = true ∧ sl_shutdown s1 = sl_shutdown s
  | Panic => execute_while rdtsc_unsafe (length rest + fuel) w s begin = Panic
  | Undef => True
  end.
Proof.
  revert before w s begin. induction rest as [|t rest IH]; intros before w s begin Hne Ht Hn Hl; [done|].
  cbn [run_round length Nat.add execute_while]. rewrite Hl. unfold execute_internal.
  assert (∃ r, run_q s !! length before = Some r ∧ tr_task r = t) as (r & Hr & Hrt).
  { assert (tasks s !! length before = Some t) as Hlk by (rewrite Ht; by apply list_lookup_middle).
    unfold tasks in Hlk. rewrite list_lookup_fmap in Hlk.
    destruct (run_q s !! length before) as [r|]; [|done]. injection Hlk as Hlk. by exists r. }
  assert (index (run_q s) (next_task s) = Ret r) as ->.
  { unfold index, len in *. rewrite Hn, decide_True by lia. by rewrite Nat2Z.id, Hr. }
  cbn [mbind outcome_bind]. rewrite Hrt. destruct (execute w t) as [[w1 t1]| |]; cbn [mbind outcome_bind]; [|done..].
  destruct (rdtsc_unsafe (sl_clock s)) as [time clock].
  pose proof (lookup_lt_Some _ _ _ Hr) as Hlt.
  unfold set_index. rewrite decide_True by (rewrite Hn; unfold len; lia). cbn [mbind outcome_bind].
  set (q := <[_ := _]> (run_q s)).
  assert (tr_task <$> q = before ++ t1 :: rest) as Hq.
  { unfold q. rewrite list_fmap_insert. cbn [tr_task]. unfold tasks in Ht. rewrite Ht, Hn. unfold len.
    rewrite Nat2Z.id. rewrite insert_app_r_alt, Nat.sub_diag by lia. done. }
  assert (len q = len before + 1 + len rest) as Hlq.
  { pose proof (f_equal len Hq) as He. rewrite len_app in He. unfold len in *. rewrite length_fmap in He. cbn in He. lia. }
  assert ((match rest with [] => True | _ => False end) ∨ 0 < len rest) as [Hend|Hmore] by (destruct rest; [by left|right; unfold len; cbn; lia]).
  - destruct rest; [|done]. cbn [run_round mbind outcome_bind]. rewrite Hn, Hlq, decide_True by (unfold len; cbn; lia).
    destruct (try_recv_command (sched_channel s)) as [cmd ch]. cbn [fst snd].
    eexists (mkStandaloneScheduler q 0 ch (sl_execute_loop s) (sl_shutdown s) clock), time.
    split_and!; try done. by destruct cmd as [cmd|]; [destruct (handle_request _ _ _ _ cmd) as [[]| |]|].
  - rewrite Hn, Hl, decide_False by lia. cbn [mbind outcome_bind].
    specialize (IH (before ++ [t1]) w1 (mkStandaloneScheduler q (len before + 1) (sched_channel s) true (sl_shutdown s) clock) time).
    rewrite <- !(assoc_L (++)) in IH. cbn [app] in IH.
    destruct (run_round w1 rest) as [[w2 rest']| |]; cbn [mbind outcome_bind].
    + destruct IH as (s1 & time1 & He & Ht1 & Hr1); [by intros ->|done|by rewrite len_app|done|].
      exists s1, time1. split; [|by rewrite Ht1, <- (assoc_L (++))]. exact He.
    + apply IH; [by intros ->|done|by rewrite len_app|done].
    + done.
Qed.

(** An execution that does what the specification says, and leaves a scheduler
    that was told to shut down. *)
Definition serves (r : outcome (W * list T * script)) (o : outcome (W * StandaloneScheduler W T C)) : Prop :=
  match r with
  | Ret (w, ts, ch) => ∃ s, o = Ret (w, s) ∧ tasks s = ts ∧ sched_channel s = ch
  | Panic => o = Panic
  | Undef => True
  end.

Definition serves_down (r : outcome (W * list T * script)) (o : outcome (W * StandaloneScheduler W T C)) : Prop :=
  match r with
  | Ret (w, ts, ch) =>
      ∃ s, o = Ret (w, s) ∧ tasks s = ts ∧ sched_channel s = ch ∧ sl_execute_loop s = false ∧ sl_shutdown s = true
  | Panic => o = Panic
  | Undef => True
  end.

Lemma serves_down_stays r o fuel time :
  serves_down r o → serves_down r ('(w, s) ← o; execute_while rdtsc_unsafe fuel w s time).
Proof.
  destruct r as [[[w ts] ch]| |]; cbn; [|by intros ->|done].
  intros (s & -> & Ht & Hc & Hl & Hd). exists s. cbn [mbind outcome_bind]. split_and!; try done.
  by destruct fuel; cbn [execute_while]; rewrite Hl.
Qed.

(** What a command does once a round is over. *)
Definition obey (fuel : nat) (cmd : option (SchedulerCommand W T)) (w : W) (s : StandaloneScheduler W T C) :
    outcome (W * StandaloneScheduler W T C) :=
  match cmd with
  | Some cmd => handle_request rdtsc_unsafe (start_loop rdtsc_unsafe (execute_while rdtsc_unsafe fuel)) w s cmd
  | None => Ret (w, s)
  end.

Lemma round_then r cmd ch w ts w1 ts1 n :
  ts ≠ [] → run_round w ts = Ret (w1, ts1) →
  (∀ fuel s time, (n ≤ fuel)%nat → ready true ts1 ch s →
     serves_down r ('(w, s) ← obey fuel cmd w1 s; execute_while rdtsc_unsafe fuel w s time)) →
  ∀ fuel s begin, (length ts + n ≤ fuel)%nat → ready true ts (cmd :: ch) s →
    serves_down r (execute_while rdtsc_unsafe fuel w s begin).
Proof.
  intros Hne Er Hk fuel s begin Hf [Ht Hn Hc Hl Hd].
  pose proof (rest_of_round [] ts (fuel - length ts) w s begin Hne Ht Hn (Hl eq_refl)) as Hr.
  rewrite Er, Hc in Hr. destruct Hr as (s1 & time & He & Ht1 & Hn1 & Hc1 & Hl1 & Hd1).
  replace (length ts + (fuel - length ts))%nat with fuel in He by lia. rewrite He.
  apply (Hk _ s1 time); [lia|]. split; try done. by rewrite Hd1.
Qed.

Lemma loop_serves ch w ts :
  ts ≠ [] → ∃ n, ∀ fuel s begin, (n ≤ fuel)%nat → ready true ts ch s →
    serves_down (serve true w ts ch) (execute_while rdtsc_unsafe fuel w s begin).
Proof.
  revert w ts. induction ch as [|cmd ch IH]; intros w ts Hne; [by exists 0%nat|]. cbn [serve].
  destruct (run_round w ts) as [[w1 ts1]| |] eqn:Er; cbn [mbind outcome_bind].
  2-3: exists (length ts); intros fuel s begin Hf [Ht Hn Hc Hl Hd];
    pose proof (rest_of_round [] ts (fuel - length ts) w s begin Hne Ht Hn (Hl eq_refl)) as Hr;
    replace (length ts + (fuel - length ts))%nat with fuel in Hr by lia; by rewrite Er in Hr.
  assert (ts1 ≠ []) as Hne1.
  { intros ->. destruct ts as [|t ts]; [done|]. cbn in Er.
    destruct (execute w t) as [[w2 t1]| |]; cbn in Er; [|done..]. by destruct (run_round w2 ts) as [[]| |]. }
  pose proof (λ r cmd n, round_then r cmd ch w ts w1 ts1 n Hne Er) as Hround.
  destruct cmd as [[t|f| | |barrier]|].
  - destruct (IH w1 (ts1 ++ [t])) as [n Hn']; [by destruct ts1|].
    exists (length ts + n)%nat. apply (Hround _ (Some (Add t))). intros fuel s time Hf [Ht Hn Hc Hl Hd].
    apply Hn'; [done|]. destruct (add_tasks_spec [t] s) as (Ht' & Hn'' & Hc' & Hl' & Hd').
    cbn [foldl] in *.
    split; rewrite ?Ht', ?Hn'', ?Hc', ?Hl', ?Hd'; try done. by rewrite Ht.
  - destruct (f w1) as [[w2 new]| |] eqn:Ef; cbn [mbind outcome_bind].
    2-3: exists (length ts + 0)%nat; apply (Hround _ (Some (Run f)));
      intros fuel s time _ _; cbn [obey handle_request]; by rewrite Ef.
    destruct (IH w2 (ts1 ++ new)) as [n Hn']; [by destruct ts1|].
    exists (length ts + n)%nat. apply (Hround _ (Some (Run f))). intros fuel s time Hf [Ht Hn Hc Hl Hd].
    cbn [obey handle_request]. rewrite Ef. cbn [mbind outcome_bind].
    apply Hn'; [done|]. destruct (add_tasks_spec new s) as (Ht' & Hn'' & Hc' & Hl' & Hd').
    split; rewrite ?Ht', ?Hn'', ?Hc', ?Hl', ?Hd'; try done. by rewrite Ht.
  - destruct (IH w1 ts1 Hne1) as [n Hn'].
    exists (length ts + n)%nat. apply (Hround _ (Some Execute)). intros fuel s time Hf [Ht Hn Hc Hl Hd].
    cbn [obey handle_request orb]. apply serves_down_stays. unfold start_loop.
    destruct (rdtsc_unsafe (sl_clock s)) as [begin clock]. rewrite decide_True.
    + apply Hn'; [done|]. by split.
    + cbn. intros Hq. unfold tasks in Ht. rewrite Hq in Ht. by subst.
  - exists (length ts + 0)%nat. apply (Hround _ (Some Shutdown)). intros fuel s time Hf [Ht Hn Hc Hl Hd].
    eapply (serves_down_stays (Ret (w1, ts1, ch)) (Ret (w1, sl_with_flags s false true))).
    exists (sl_with_flags s false true). done.
  - destruct (barrier w1) as [w2| |] eqn:Eb; cbn [mbind outcome_bind].
    2-3: exists (length ts + 0)%nat; apply (Hround _ (Some (Handshake barrier)));
      intros fuel s time _ _; cbn [obey handle_request]; by rewrite Eb.
    destruct (IH w2 ts1 Hne1) as [n Hn'].
    exists (length ts + n)%nat. apply (Hround _ (Some (Handshake barrier))). intros fuel s time Hf Hs.
    cbn [obey handle_request]. rewrite Eb. cbn [mbind outcome_bind]. by apply Hn'.
  - destruct (IH w1 ts1 Hne1) as [n Hn'].
    exists (length ts + n)%nat. apply (Hround _ None). intros fuel s time Hf Hs. by apply Hn'.
Qed.

Lemma idle_serves ch w ts :
  ∃ n, ∀ fuel m s, (n ≤ fuel)%nat → (length ch ≤ m)%nat → ready false ts ch s →
    serves (serve false w ts ch) (handle_requests_loop rdtsc_unsafe fuel m w s).
Proof.
  revert w ts. induction ch as [|cmd ch IH]; intros w ts.
  { exists 0%nat. intros fuel m s _ _ [Ht Hn Hc Hl Hd]. cbn [serve].
    destruct m; cbn [handle_requests_loop]; rewrite Hd, Hc; cbn; by eexists. }
  cbn [serve mbind outcome_bind]. destruct cmd as [cmd|].
  2:{ destruct (IH w ts) as [n Hn']. exists n. intros fuel m s Hf Hm [Ht Hn Hc Hl Hd].
    assert (ready false ts ch (sl_with_channel s ch)) as Hs by by split.
    specialize (Hn' fuel m _ Hf ltac:(cbn in Hm; lia) Hs).
    destruct m; [cbn in Hm; lia|]. cbn [handle_requests_loop] in *. rewrite Hd, Hc. cbn [recv_command].
    cbn [sl_with_channel sl_shutdown sched_channel] in Hn'. by rewrite Hd in Hn'. }
  assert (∀ r n, (∀ fuel m s, (n ≤ fuel)%nat → (length ch ≤ m)%nat → ready false ts ch s →
      serves r ('(w, s) ← handle_request rdtsc_unsafe (execute_loop rdtsc_unsafe fuel) w s cmd;
                handle_requests_loop rdtsc_unsafe fuel m w s)) →
    ∀ fuel m s, (n ≤ fuel)%nat → (length (Some cmd :: ch) ≤ m)%nat → ready false ts (Some cmd :: ch) s →
      serves r (handle_requests_loop rdtsc_unsafe fuel m w s)) as Hone.
  { intros r n Hk fuel m s Hf Hm [Ht Hn Hc Hl Hd]. destruct m as [|m]; [cbn in Hm; lia|].
    cbn [handle_requests_loop]. rewrite Hd, Hc. cbn [recv_command].
    apply Hk; [done|cbn in Hm; lia|]. by split. }
  destruct cmd as [t|f| | |barrier].
  - destruct (IH w (ts ++ [t])) as [n Hn']. exists n. apply Hone. intros fuel m s Hf Hm [Ht Hn Hc Hl Hd].
    cbn [handle_request mbind outcome_bind]. apply Hn'; [done..|].
    destruct (add_tasks_spec [t] s) as (Ht' & Hn'' & Hc' & Hl' & Hd').
    cbn [foldl] in *.
    split; rewrite ?Ht', ?Hn'', ?Hc', ?Hl', ?Hd'; try done. by rewrite Ht.
  - destruct (f w) as [[w2 new]| |] eqn:Ef; cbn [mbind outcome_bind].
    2-3: exists 0%nat; apply Hone; intros fuel m s _ _ _; cbn [handle_request]; by rewrite Ef.
    destruct (IH w2 (ts ++ new)) as [n Hn']. exists n. apply Hone. intros fuel m s Hf Hm [Ht Hn Hc Hl Hd].
    cbn [handle_request]. rewrite Ef. cbn [mbind outcome_bind]. apply Hn'; [done..|].
    destruct (add_tasks_spec new s) as (Ht' & Hn'' & Hc' & Hl' & Hd').
    split; rewrite ?Ht', ?Hn'', ?Hc', ?Hl', ?Hd'; try done. by rewrite Ht.
  - cbn [orb]. case_bool_decide as Hts.
    + destruct (loop_serves ch w ts) as [n Hn']; [by intros ->|]. exists n. apply Hone.
      intros fuel m s Hf Hm [Ht Hn Hc Hl Hd]. cbn [handle_request]. unfold execute_loop, start_loop.
      destruct (rdtsc_unsafe (sl_clock s)) as [begin clock]. rewrite decide_True
        by (cbn; intros Hq; unfold tasks in Ht; rewrite Hq in Ht; by subst).
      specialize (Hn' fuel (mkStandaloneScheduler (run_q s) (next_task s) (sched_channel s) true
        (sl_shutdown s) clock) begin Hf ltac:(by split)).
      destruct (serve true w ts ch) as [[[w1 ts1] ch1]| |]; [|by rewrite Hn'|done].
      destruct Hn' as (s1 & -> & Ht1 & Hc1 & _ & Hd1). exists s1. cbn [mbind outcome_bind].
      split; [|done]. by destruct m; cbn [handle_requests_loop]; rewrite Hd1.
    + destruct (IH w ts) as [n Hn']. exists n. apply Hone. intros fuel m s Hf Hm [Ht Hn Hc Hl Hd].
      cbn [handle_request]. unfold execute_loop, start_loop.
      destruct (rdtsc_unsafe (sl_clock s)) as [begin clock]. rewrite decide_False.
      2:{ cbn. intros Hq. destruct Hq. destruct (run_q s) eqn:E; [done|].
          destruct Hts. subst ts. unfold tasks, len. rewrite E. cbn. lia. }
      cbn [mbind outcome_bind]. apply Hn'; [done..|]. by split.
  - exists 0%nat. apply Hone. intros fuel m s _ _ [Ht Hn Hc Hl Hd]. cbn [handle_request mbind outcome_bind].
    exists (sl_with_flags s false true). by destruct m.
  - destruct (barrier w) as [w2| |] eqn:Eb; cbn [mbind outcome_bind].
    2-3: exists 0%nat; apply Hone; intros fuel m s _ _ _; cbn [handle_request]; by rewrite Eb.
    destruct (IH w2 ts) as [n Hn']. exists n. apply Hone. intros fuel m s Hf Hm Hs.
    cbn [handle_request]. rewrite Eb. cbn [mbind outcome_bind]. by apply Hn'.
Qed.

(** C24: a scheduler serves its commands between rounds.  From its creation on it
    does what [serve] says: it adds the tasks that it is told to add; once it was
    told to execute, and has a task, it runs its tasks in turn, each once in a
    round, and looks for one command after each round; a shutdown ends it at the
    end of a round, from however many nested loops, and leaves the commands
    behind it unread. *)
Theorem scheduler_serves w ch clock :
  ∃ n, ∀ fuel, (n ≤ fuel)%nat →
    serves (serve false w [] ch) (handle_requests rdtsc_unsafe fuel w (StandaloneScheduler_new ch clock)).
Proof.
  destruct (idle_serves ch w []) as [n Hn]. exists n. intros fuel Hf.
  apply (Hn fuel (length ch) (sl_with_flags _ _ false)); [done|done|]. by split.
Qed.

(** *** Termination *)

Definition command_returns (cmd : option (SchedulerCommand W T)) : Prop :=
  match cmd with
  | Some (Run f) => ∀ w, ∃ r, f w = Ret r
  | Some (Handshake barrier) => ∀ w, ∃ w', barrier w = Ret w'
  | _ => True
  end.

Section total.
Context (Htasks : ∀ w t, ∃ r, execute w t = Ret r).

Lemma round_returns w ts : ∃ r, run_round w ts = Ret r.
Proof.
  revert w. induction ts as [|t ts IH]; intros w; cbn; [by eexists|].
  destruct (Htasks w t) as [[w1 t1] ->]. cbn. destruct (IH w1) as [[w2 ts2] ->]. by eexists.
Qed.

Lemma serve_returns looping w ts ch :
  Forall command_returns ch → Some Shutdown ∈ ch → ∃ r, serve looping w ts ch = Ret r.
Proof.
  intros Hch. revert looping w ts. induction Hch as [|cmd ch Hcmd _ IH]; intros looping w ts Hin;
    [by apply elem_of_nil in Hin|]. cbn [serve].
  assert (∃ r, (if looping then run_round w ts else Ret (w, ts)) = Ret r) as [[w1 ts1] ->]
    by (destruct looping; [apply round_returns|by eexists]).
  cbn [mbind outcome_bind]. apply elem_of_cons in Hin as [<-|Hin]; [by eexists|].
  destruct cmd as [[t|f| | |barrier]|]; cbn in Hcmd; eauto.
  - destruct (Hcmd w1) as [[w2 new] ->]. cbn. eauto.
  - destruct (Hcmd w1) as [w2 ->]. cbn. eauto.
Qed.
End total.

(** a shutdown ends a scheduler.  When no task, closure or barrier fails, and
    a shutdown is among the commands, the scheduler returns, whatever the other
    commands are and whenever they come. *)
Theorem shutdown_ends_scheduler w ch clock :
  (∀ w t, ∃ r, execute w t = Ret r) → Forall command_returns ch → Some Shutdown ∈ ch →
  ∃ n, ∀ fuel, (n ≤ fuel)%nat →
    ∃ r, handle_requests rdtsc_unsafe fuel w (StandaloneScheduler_new ch clock) = Ret r.
Proof.
  intros Ht Hc Hs. destruct (idle_serves ch w []) as [n Hn]. exists n. intros fuel Hf.
  specialize (Hn fuel (length ch) (sl_with_flags (StandaloneScheduler_new ch clock) false false) Hf (le_n _)
    ltac:(by split)).
  destruct (serve_returns Ht false w [] ch Hc Hs) as [[[w1 ts] ch1] He]. rewrite He in Hn.
  destruct Hn as (s & Hr & _). by exists (w1, s).
Qed.

(** *** Accounting *)

Definition total_cycles (q : list (TimedRunnable T)) : Z := foldr (λ r a, tr_cycles r + a) 0 q.

Lemma total_cycles_app q1 q2 : total_cycles (q1 ++ q2) = total_cycles q1 + total_cycles q2.
Proof. unfold total_cycles. induction q1 as [|r q1 IH]; cbn; [done|]. rewrite IH. lia. Qed.

Definition never_executes (ch : script) : Prop := Some Execute ∉ ch.

Lemma wrap_add_eq a b a' : wrap 64 a = wrap 64 a' → wrap 64 (a + b) = wrap 64 (a' + b).
Proof. unfold wrap. intros He. rewrite <- Zplus_mod_idemp_l, He, Zplus_mod_idemp_l. done. Qed.

Lemma wrap_wrap a b : wrap 64 (wrap 64 a + b) = wrap 64 (a + b).
Proof. unfold wrap. by rewrite Zplus_mod_idemp_l. Qed.

Lemma add_tasks_cycles new (s : StandaloneScheduler W T C) :
  let s' := foldl (λ s t, (sl_add_task rdtsc_unsafe s t).1) s new in
  total_cycles (run_q s') = total_cycles (run_q s) ∧ ∀ r, r ∈ run_q s → r ∈ run_q s'.
Proof.
  revert s. induction new as [|t new IH]; intros s; [done|]. cbn.
  destruct (IH (sl_add_task rdtsc_unsafe s t).1) as [Ht Hi]. cbn zeta in *. rewrite Ht. unfold sl_add_task in *.
  destruct (rdtsc_unsafe (sl_clock s)) as [now clock]. cbn in *. split.
  - rewrite total_cycles_app. cbn. lia.
  - intros r Hr. apply Hi. apply elem_of_app. by left.
Qed.

Lemma handle_cycles exec w (s : StandaloneScheduler W T C) cmd w' s' :
  cmd ≠ Execute → handle_request rdtsc_unsafe exec w s cmd = Ret (w', s') →
  total_cycles (run_q s') = total_cycles (run_q s) ∧ sched_channel s' = sched_channel s ∧
  ∀ r, r ∈ run_q s → r ∈ run_q s'.
Proof.
  intros Hne. destruct cmd as [t|f| | |barrier]; cbn; try done.
  - intros [= <- <-]. destruct (add_tasks_cycles [t] s) as [Ht Hi]. destruct (add_tasks_spec [t] s) as (_ & _ & Hc & _).
    by cbn [foldl] in *.
  - destruct (f w) as [[w1 new]| |]; cbn; [|done..]. intros [= <- <-].
    destruct (add_tasks_cycles new s) as [Ht Hi]. by destruct (add_tasks_spec new s) as (_ & _ & Hc & _).
  - by intros [= <- <-].
  - destruct (barrier w) as [w1| |]; cbn; [|done..]. by intros [= <- <-].
Qed.

Lemma internal_cycles exec w (s : StandaloneScheduler W T C) begin w' s' time :
  never_executes (sched_channel s) →
  execute_internal rdtsc_unsafe exec w s begin = Ret (w', s', time) →
  wrap 64 (total_cycles (run_q s')) = wrap 64 (total_cycles (run_q s) + (time - begin)) ∧
  never_executes (sched_channel s') ∧ ∃ r, r ∈ run_q s' ∧ tr_last_run r = time.
Proof.
  intros Hch. unfold execute_internal, index.
  case_decide as Hnx; [|done]. destruct (run_q s !! _) as [r|] eqn:Er; cbn [expect mbind outcome_bind]; [|done].
  destruct (execute w (tr_task r)) as [[w1 t]| |]; cbn [mbind outcome_bind]; [|done..].
  destruct (rdtsc_unsafe (sl_clock s)) as [now clock]. unfold set_index.
  case_decide; cbn [mbind outcome_bind]; [|done]. set (r' := mkTimedRunnable t _ now).
  set (q := <[_ := r']> (run_q s)).
  assert (wrap 64 (total_cycles q) = wrap 64 (total_cycles (run_q s) + (now - begin))) as Hq.
  { unfold q. apply list_elem_of_split_length in Er as (q1 & q2 & Hqq & Hl1). rewrite Hqq, Hl1.
    rewrite insert_app_r_alt, Nat.sub_diag by lia. cbn. rewrite !total_cycles_app. unfold r'. cbn. unfold wadd, wsub.
    fold (total_cycles q2).
    replace (total_cycles q1 + (wrap 64 (tr_cycles r + wrap 64 (now - begin)) + total_cycles q2))
      with (wrap 64 (tr_cycles r + wrap 64 (now - begin)) + (total_cycles q1 + total_cycles q2)) by lia.
    rewrite wrap_wrap.
    replace (tr_cycles r + wrap 64 (now - begin) + (total_cycles q1 + total_cycles q2))
      with (wrap 64 (now - begin) + (tr_cycles r + total_cycles q1 + total_cycles q2)) by lia.
    rewrite wrap_wrap. f_equal. lia. }
  assert (r' ∈ q) as Hin.
  { apply list_elem_of_lookup. exists (Z.to_nat (next_task s)). unfold q.
    apply list_lookup_insert_eq. unfold len in *. lia. }
  case_decide.
  - destruct (sched_channel s) as [|[cmd|] ch] eqn:Ec; cbn [try_recv_command].
    + intros [= <- <- <-]. cbn. split; [done|]. split; [apply not_elem_of_nil|by exists r'].
    + destruct (handle_request _ exec w1 _ cmd) as [[w2 s2]| |] eqn:Eh; cbn [mbind outcome_bind]; [|done..].
      intros [= <- <- <-]. apply handle_cycles in Eh as (Ht & Hc & Hi).
      * cbn [run_q sched_channel] in *. rewrite Ht, Hc. split; [done|].
        split; [intros Hx; apply Hch; by right|]. exists r'. by split; [apply Hi|].
      * intros ->. apply Hch. by left.
    + intros [= <- <- <-]. cbn. split; [done|]. split; [intros Hx; apply Hch; by right|by exists r'].
  - intros [= <- <- <-]. cbn. by split; [|split; [|exists r']].
Qed.

Lemma while_cycles fuel w (s : StandaloneScheduler W T C) begin w' s' :
  never_executes (sched_channel s) → sl_execute_loop s = true →
  execute_while rdtsc_unsafe fuel w s begin = Ret (w', s') →
  ∃ r, r ∈ run_q s' ∧
    wrap 64 (total_cycles (run_q s')) = wrap 64 (total_cycles (run_q s) + (tr_last_run r - begin)).
Proof.
  revert w s begin. induction fuel as [|fuel IH]; intros w s begin Hch Hl; cbn [execute_while]; rewrite Hl; [done|].
  destruct (execute_internal _ _ w s begin) as [[[w1 s1] time]| |] eqn:Ei; cbn [mbind outcome_bind]; [|done..].
  apply internal_cycles in Ei as (Hc & Hch1 & r & Hr & Hrt); [|done]. intros He.
  destruct (sl_execute_loop s1) eqn:El.
  - destruct (IH w1 s1 time Hch1 El He) as (r' & Hr' & Ht'). exists r'. split; [done|]. rewrite Ht'.
    rewrite (wrap_add_eq _ _ _ Hc). f_equal. lia.
  - assert (s1 = s') as <- by (destruct fuel; cbn in He; rewrite El in He; by injection He).
    exists r. by rewrite Hrt.
Qed.

(** the time of a loop is charged to its tasks.  When no command starts a
    loop inside the loop, the counters of all tasks grow by the time from the
    start of the loop to the end of its last task, modulo 2^64: nothing is counted
    twice and nothing is left out, the time for commands included. *)
Theorem loop_time_is_charged fuel w (s : StandaloneScheduler W T C) w' s' :
  never_executes (sched_channel s) → run_q s ≠ [] →
  execute_loop rdtsc_unsafe fuel w s = Ret (w', s') →
  ∃ r, r ∈ run_q s' ∧
    wrap 64 (total_cycles (run_q s')) =
    wrap 64 (total_cycles (run_q s) + (tr_last_run r - (rdtsc_unsafe (sl_clock s)).1)).
Proof.
  intros Hch Hq. unfold execute_loop, start_loop. destruct (rdtsc_unsafe (sl_clock s)) as [begin clock].
  cbn [run_q fst]. rewrite decide_True by done. intros He. by apply while_cycles in He.
Qed.
End standalone.

Section standalone_example.
(** Tasks that append their name to a log, and a clock that ticks when it is read. *)
#[local] Instance namer : Executable (list Z) Z := {|
  execute w t := Ret (w ++ [t], t);
  dependencies t := [];
|}.

Definition tick (c : Z) : Z * Z := (c, c + 7).

Definition sched_script : list (option (SchedulerCommand (list Z) Z)) :=
  [None; Some (Run (λ w, Ret (w, [1; 2]))); Some Execute; None; Some (Add 3);
   Some (Handshake (λ w, Ret (w ++ [0]))); Some Execute; Some Shutdown; Some (Add 4)].

Example sched_runs :
  serve false [] [] sched_script = Ret ([1; 2; 1; 2; 1; 2; 3; 0; 1; 2; 3; 1; 2; 3], [1; 2; 3], [Some (Add 4)]).
Proof. vm_compute. reflexivity. Qed.

Lemma scheduler_serves_witness :
  ∃ fuel s, handle_requests tick fuel [] (StandaloneScheduler_new sched_script 0) =
    Ret ([1; 2; 1; 2; 1; 2; 3; 0; 1; 2; 3; 1; 2; 3], s) ∧ tasks s = [1; 2; 3].
Proof.
  destruct (scheduler_serves tick [] sched_script 0) as [n Hn]. exists n. specialize (Hn n (le_n n)).
  assert (serve false [] [] sched_script =
    Ret ([1; 2; 1; 2; 1; 2; 3; 0; 1; 2; 3; 1; 2; 3], [1; 2; 3], [Some (Add 4)])) as Hs
    by (vm_compute; reflexivity).
  rewrite Hs in Hn. destruct Hn as (s & He & Ht & _). exists s. split; [exact He|exact Ht].
Defined.

Lemma shutdown_ends_scheduler_witness :
  ∃ fuel r, handle_requests tick fuel [] (StandaloneScheduler_new sched_script 0) = Ret r.
Proof.
  destruct (shutdown_ends_scheduler tick [] sched_script 0) as [n Hn].
  - intros w t. exists (w ++ [t], t). reflexivity.
  - repeat constructor; intros w; eexists; reflexivity.
  - apply list_elem_of_lookup. exists 7%nat. reflexivity.
  - exists n. exact (Hn n (le_n n)).
Defined.

Definition timed : StandaloneScheduler (list Z) Z Z :=
  mkStandaloneScheduler [mkTimedRunnable 1 0 0; mkTimedRunnable 2 5 0] 0 [None; Some (Add 3); Some Shutdown] false
    false 100.

Lemma loop_time_is_charged_witness :
  ∃ w s r, execute_loop tick 9 [] timed = Ret (w, s) ∧ r ∈ run_q s ∧
    wrap 64 (total_cycles (run_q s)) = wrap 64 (5 + (tr_last_run r - 100)).
Proof.
  destruct (execute_loop tick 9 [] timed) as [[w s]| |] eqn:He; [|vm_compute in He; discriminate He..].
  exists w, s. destruct (loop_time_is_charged tick 9 [] timed w s) as (r & Hr & Ht).
  - intros Hx. apply list_elem_of_lookup in Hx as [[|[|[|i]]] Hx]; discriminate Hx.
  - discriminate.
  - exact He.
  - exists r. split; [reflexivity|]. split; [exact Hr|exact Ht].
Defined.
End standalone_example.
