(* ===== verification/Config.v ===== *)
(** * Config: the configuration of servers and clients

    Models db/src/config.rs: MAC addresses in text, and the configuration files,
    which the crate toml parses.  The numbers of 64-bit floating point, which are
    only passed on, are a parameter. *)

From Stdlib Require Import Ascii String.
From stdpp Require Import strings.
From S2P Require Import Prelude Packed Headers.

(** ** u8::from_str_radix, for base 16 *)

Definition hex_digit (a : ascii) : option Z :=
  let n := Z.of_N (Ascii.N_of_ascii a) in
  if decide (48 ≤ n ≤ 57) then Some (n - 48)
  else if decide (65 ≤ n ≤ 70) then Some (n - 55)
  else if decide (97 ≤ n ≤ 102) then Some (n - 87)
  else None.

(** Digits are multiplied and added with a check for overflow. *)
Fixpoint hex_digits (acc : Z) (s : string) : option Z :=
  match s with
  | EmptyString => Some acc
  | String a s =>
      d ← hex_digit a;
      if decide (16 * acc + d < 256) then hex_digits (16 * acc + d) s else None
  end.

(** A leading plus sign is accepted before digits. *)
Definition u8_from_hex (s : string) : option Z :=
  match s with
  | EmptyString => None
  | String "+" EmptyString => None
  | String "+" s => hex_digits 0 s
  | _ => hex_digits 0 s
  end.

(** [mac.split(':')] *)
Fixpoint split_colon (s : string) : list string :=
  match s with
  | EmptyString => [EmptyString]
  | String ":" s => EmptyString :: split_colon s
  | String a s =>
      match split_colon s with
      | piece :: pieces => String a piece :: pieces
      | [] => [String a EmptyString]
      end
  end.

(** Collecting results: all of them, or an error. *)
Definition parse_mac (mac : string) : outcome (option MacAddress) :=
  match mapM u8_from_hex (split_colon mac) with
  | Some bs =>
      if decide (len bs = 6) then m ← MacAddress_new_from_slice bs; Ret (Some m)
      else Ret None
  | None => Ret None
  end.

(** ** Configuration files *)

Record ServerConfig := mkServerConfig {
  mac_address : string;
  ip_address : string;
  udp_port : Z;
  nic_pci : string;
  client_mac : string;
  client_ip : string;
  num_tenants : Z;
  install_addr : string;
  workload : string;
  num_records : Z;
}.

Definition ServerConfig_default : ServerConfig :=
  mkServerConfig EmptyString EmptyString 0 EmptyString EmptyString EmptyString 0 EmptyString EmptyString 0.

Record ClientConfig (f64 : Type) := mkClientConfig {
  cl_mac_address : string;
  cl_ip_address : string;
  cl_nic_pci : string;
  server_mac_address : string;
  server_ip_address : string;
  server_udp_ports : Z;
  cl_num_tenants : Z;
  cl_install_addr : string;
  cl_workload : string;
  open_load : bool;
  use_invoke : bool;
  slo : Z;
  kayak_rloop_factor : Z;
  kayak_xloop_factor : Z;
  invoke_p : Z;
  cfg_max_out : Z;
  bimodal : bool;
  cfg_bimodal_interval : Z;
  order2 : Z;
  key_len : Z;
  value_len : Z;
  n_keys : Z;
  put_pct : Z;
  enable_scan : bool;
  scan_range : Z;
  skew : f64;
  tenant_skew : f64;
  num_reqs : Z;
  req_rate : Z;
  num_aggr : Z;
  cfg_order : Z;
  combined : bool;
  assocs_p : Z;
  long_pct : Z;
  yield_f : Z;
  bad_ptm : Z;
}.

Definition ClientConfig_default {f64} (zero : f64) : ClientConfig f64 :=
  mkClientConfig f64 EmptyString EmptyString EmptyString EmptyString EmptyString 0 0 EmptyString EmptyString
    false false 0 0 0 0 0 false 0 0 0 0 0 0 false 0 zero zero 0 0 0 0 false 0 0 0 0.

Arguments cl_mac_address {_} _.
Arguments server_mac_address {_} _.

(** The contents of the file, nothing when it cannot be read, go through
    [toml::from_str]; when that fails, the defaults are used. *)
Definition load_config {A} (from_str : string → option A) (default_config : A) (file : option string) : A :=
  match from_str (default EmptyString file) with
  | Some config => config
  | None => default_config
  end.

Definition ServerConfig_load (from_str : string → option ServerConfig) (file : option string) : ServerConfig :=
  load_config from_str ServerConfig_default file.

Definition ClientConfig_load {f64} (zero : f64) (from_str : string → option (ClientConfig f64))
    (file : option string) : ClientConfig f64 :=
  load_config from_str (ClientConfig_default zero) file.

Definition expect_mac (mac : string) : outcome MacAddress := m ← parse_mac mac; expect m.

Definition ServerConfig_parse_mac (c : ServerConfig) : outcome MacAddress := expect_mac (mac_address c).

Definition ServerConfig_parse_client_mac (c : ServerConfig) : outcome MacAddress := expect_mac (client_mac c).

Definition ClientConfig_parse_mac {f64} (c : ClientConfig f64) : outcome MacAddress := expect_mac (cl_mac_address c).

Definition ClientConfig_parse_server_mac {f64} (c : ClientConfig f64) : outcome MacAddress :=
  expect_mac (server_mac_address c).

(** ** Addresses in text *)

(** The text of an address, with capital or small digits. *)
Definition digit_hex (capital : bool) (d : Z) : ascii :=
  Ascii.ascii_of_N (Z.to_N (if decide (d < 10) then d + 48 else if capital then d + 55 else d + 87)).

Definition byte_hex (capital : bool * bool) (b : Z) : string :=
  String (digit_hex capital.1 (b / 16)) (String (digit_hex capital.2 (b mod 16)) EmptyString).

Definition mac_text (capitals : list (bool * bool)) (bs : list Z) : string :=
  String.concat ":" (zip_with byte_hex capitals bs).

Lemma hex_digit_text capital d : 0 ≤ d < 16 → hex_digit (digit_hex capital d) = Some d.
Proof.
  intros Hd. assert (d ∈ seqZ 0 16) as Hin by (apply elem_of_seqZ; lia).
  revert Hin. clear Hd. cbn. destruct capital; intros Hin;
    repeat (apply elem_of_cons in Hin as [->|Hin]; [reflexivity|]); by apply elem_of_nil in Hin.
Qed.

(** Neither a plus sign nor a colon. *)
Lemma digit_is_plain capital d :
  0 ≤ d < 16 → digit_hex capital d ≠ "+"%char ∧ digit_hex capital d ≠ ":"%char.
Proof.
  intros Hd. pose proof (hex_digit_text capital d Hd) as He. split; intros Hq; by rewrite Hq in He.
Qed.

Lemma hex_digits_first a s : a ≠ "+"%char → s ≠ EmptyString → u8_from_hex (String a s) = hex_digits 0 (String a s).
Proof.
  intros Ha Hs. unfold u8_from_hex. destruct a as [[] [] [] [] [] [] [] []]; try done; by destruct Ha.
Qed.

Lemma u8_from_hex_text capital b : in_width 8 b → u8_from_hex (byte_hex capital b) = Some b.
Proof.
  unfold in_width. change (2 ^ 8) with 256. intros Hb.
  pose proof (Z.div_mod b 16 ltac:(lia)). pose proof (Z.mod_pos_bound b 16 ltac:(lia)).
  assert (0 ≤ b / 16 < 16) as Hd by lia. unfold byte_hex.
  rewrite hex_digits_first; [|by apply digit_is_plain|done]. cbn [hex_digits].
  rewrite (hex_digit_text capital.1) by done. cbn [mbind option_bind]. rewrite decide_True by lia.
  rewrite (hex_digit_text capital.2) by done. cbn [mbind option_bind]. rewrite decide_True by lia. f_equal. lia.
Qed.

Lemma split_colon_cons a s :
  a ≠ ":"%char → ∃ piece pieces, split_colon s = piece :: pieces ∧ split_colon (String a s) = String a piece :: pieces.
Proof.
  intros Ha. assert (∃ piece pieces, split_colon s = piece :: pieces) as (piece & pieces & He).
  { destruct s as [|b s]; [by eexists _, _|]. cbn.
    destruct b as [[] [] [] [] [] [] [] []]; try (by eexists _, _); destruct (split_colon s); by eexists _, _. }
  exists piece, pieces. split; [done|]. cbn.
  destruct a as [[] [] [] [] [] [] [] []]; try (by rewrite He); by destruct Ha.
Qed.

Lemma byte_hex_app capital b s :
  (byte_hex capital b ++ s)%string =
    String (digit_hex capital.1 (b / 16)) (String (digit_hex capital.2 (b mod 16)) s).
Proof. done. Qed.

Lemma split_colon_byte capital b s :
  in_width 8 b → ∃ piece pieces, split_colon s = piece :: pieces ∧
    split_colon (byte_hex capital b ++ s) = (byte_hex capital b ++ piece)%string :: pieces.
Proof.
  unfold in_width. change (2 ^ 8) with 256. intros Hb.
  pose proof (Z.div_mod b 16 ltac:(lia)). pose proof (Z.mod_pos_bound b 16 ltac:(lia)).
  assert (0 ≤ b / 16 < 16) as Hd by lia.
  destruct (split_colon_cons (digit_hex capital.2 (b mod 16)) s) as (p & ps & H1 & H2); [by apply digit_is_plain|].
  destruct (split_colon_cons (digit_hex capital.1 (b / 16)) (String (digit_hex capital.2 (b mod 16)) s))
    as (p' & ps' & H3 & H4); [by apply digit_is_plain|].
  exists p, ps. split; [done|]. rewrite !byte_hex_app, H4. rewrite H2 in H3. injection H3 as <- <-. done.
Qed.

Lemma append_empty s : (s ++ EmptyString)%string = s.
Proof. induction s as [|a s IH]; [done|]. change (String a (s ++ EmptyString)%string = String a s). by rewrite IH. Qed.

Lemma split_colon_colon s : split_colon (String ":" s) = EmptyString :: split_colon s.
Proof. done. Qed.

Lemma split_mac_text capitals bs :
  is_bytes bs → length capitals = length bs → bs ≠ [] → split_colon (mac_text capitals bs) = zip_with byte_hex capitals bs.
Proof.
  intros Hb. revert capitals. induction Hb as [|b bs Hb _ IH]; intros [|c capitals] Hl Hne; try done.
  unfold mac_text in *. cbn [zip_with]. injection Hl as Hl. destruct bs as [|b' bs].
  - destruct capitals; [|done]. cbn [zip_with String.concat].
    destruct (split_colon_byte c b EmptyString Hb) as (p & ps & H1 & H2). rewrite append_empty in H2.
    injection H1 as <- <-. by rewrite append_empty in H2.
  - destruct capitals as [|c' capitals]; [done|].
    specialize (IH (c' :: capitals) Hl ltac:(done)). cbn [zip_with] in *.
    change (String.concat ":" (byte_hex c b :: byte_hex c' b' :: zip_with byte_hex capitals bs))
      with (byte_hex c b ++ String ":" (String.concat ":" (byte_hex c' b' :: zip_with byte_hex capitals bs)))%string.
    generalize dependent (String.concat ":" (byte_hex c' b' :: zip_with byte_hex capitals bs)).
    intros rest IH. destruct (split_colon_byte c b (String ":" rest) Hb) as (p & ps & H1 & H2).
    rewrite H2. rewrite split_colon_colon in H1. injection H1 as <- <-. by rewrite append_empty, IH.
Qed.

Lemma mapM_text capitals bs :
  is_bytes bs → length capitals = length bs → mapM u8_from_hex (zip_with byte_hex capitals bs) = Some bs.
Proof.
  intros Hb. revert capitals. induction Hb as [|b bs Hb _ IH]; intros [|c capitals] Hl; try done.
  cbn [zip_with mapM]. rewrite u8_from_hex_text by done. cbn [mbind option_bind]. injection Hl as Hl.
  by rewrite IH.
Qed.

(** a MAC address in text is read back.  Six bytes, written as two digits
    each, capital or small, and joined by colons, give the address with these
    bytes; text that does not give six bytes of a colon-separated list, or whose
    configuration could not be loaded, is an error, at which a server or client
    panics. *)
Theorem mac_reads_back (bs : bytes) capitals :
  is_bytes bs → length capitals = length bs → bs ≠ [] →
  (if decide (len bs = 6) then
     ∃ m, expect_mac (mac_text capitals bs) = Ret m ∧ MacAddress_new_from_slice bs = Ret m
   else expect_mac (mac_text capitals bs) = Panic) ∧
  ∀ (from_str : string → option ServerConfig) file,
    from_str (default EmptyString file) = None →
    ServerConfig_parse_mac (ServerConfig_load from_str file) = Panic.
Proof.
  intros Hb Hl Hne. split.
  - unfold expect_mac, parse_mac. rewrite split_mac_text, mapM_text by done. case_decide as H6; [|done].
    destruct bs as [|b0 [|b1 [|b2 [|b3 [|b4 [|b5 [|]]]]]]]; try (unfold len in H6; cbn in H6; lia). by eexists.
  - intros from_str file Hf. unfold ServerConfig_load, load_config. by rewrite Hf.
Qed.

Lemma mac_reads_back_witness :
  expect_mac "A1:b2:C3:d4:E5:f6" = Ret (mkMacAddress 161 178 195 212 229 246) ∧
  ServerConfig_parse_mac (ServerConfig_load (λ _, None) None) = Panic.
Proof.
  pose (caps := [(true, true); (false, false); (true, true); (false, false); (true, true); (false, false)]).
  destruct (mac_reads_back [161; 178; 195; 212; 229; 246] caps) as [Hm Hd].
  - apply (bool_decide_unpack _). vm_compute. exact I.
  - reflexivity.
  - discriminate.
  - split.
    + destruct Hm as (m & He & Hs). injection Hs as <-. exact He.
    + exact (Hd (λ _, None) None eq_refl).
Defined.

(** The unit tests, and what else passes for a number. *)
Example parse_mac_tests :
  (parse_mac "", parse_mac "A1:b2:C3:d4:E5:g6", parse_mac "A1:b2:C3:d4:E5: 6", parse_mac "A1:b2:C3:d4:E5",
   parse_mac ":::::") = (Ret None, Ret None, Ret None, Ret None, Ret None) ∧
  parse_mac "+1:2:003:4:5:6" = Ret (Some (mkMacAddress 1 2 3 4 5 6)).
Proof. split; reflexivity. Qed.
