(* ===== verification/NetConfig.v ===== *)
(** * NetConfig: the configuration of NetBricks

    Models net/framework/src/config (mod.rs, config_reader.rs) and
    [initialize_system] of scheduler/context.rs.  A TOML document is the tree
    that the crate toml makes of it; ports and queues of the network card are
    parameters.  What is only printed is left out, so that an error carries its
    fixed text. *)

From Stdlib Require Import Ascii String.
From stdpp Require Import strings gmap.
From S2P Require Import Prelude.

(** ** Results *)

Inductive Result (A : Type) :=
| Ok (a : A)
| Err (e : string).
Arguments Ok {_} _.
Arguments Err {_} _.

#[export] Instance Result_ret : MRet Result := @Ok.

#[export] Instance Result_bind : MBind Result := λ A B f m, match m with Ok a => f a | Err e => Err e end.

(** ** Configurations *)

Record PortConfiguration := mkPortConfiguration {
  port_name : string;
  rx_queues : list Z;
  tx_queues : list Z;
  rxd : Z;
  txd : Z;
  loopback : bool;
  tso : bool;
  csum : bool;
}.

Record NetbricksConfiguration := mkNetbricksConfiguration {
  name : string;
  secondary : bool;
  primary_core : Z;
  cores : list Z;
  strict : bool;
  ports : list PortConfiguration;
  pool_size : Z;
  cache_size : Z;
  dpdk_args : option string;
}.

Definition DEFAULT_POOL_SIZE : Z := 2048 - 1.
Definition DEFAULT_CACHE_SIZE : Z := 32.
Definition DEFAULT_SECONDARY : bool := false.
Definition DEFAULT_PRIMARY_CORE : Z := 0.
Definition DEFAULT_NAME : string := "zcsi".
Definition NUM_RXD : Z := 128.
Definition NUM_TXD : Z := 128.

Definition PortConfiguration_default : PortConfiguration :=
  mkPortConfiguration "" [] [] NUM_RXD NUM_TXD false false false.

Definition PortConfiguration_new_with_queues (n : string) (rx tx : list Z) : PortConfiguration :=
  mkPortConfiguration n rx tx NUM_RXD NUM_TXD false false false.

Definition PortConfiguration_new_with_name (n : string) : PortConfiguration :=
  mkPortConfiguration n [] [] NUM_RXD NUM_TXD false false false.

Definition NetbricksConfiguration_new_with_name (n : string) : NetbricksConfiguration :=
  mkNetbricksConfiguration n false 0 [] false [] DEFAULT_POOL_SIZE DEFAULT_CACHE_SIZE None.

Definition NetbricksConfiguration_default : NetbricksConfiguration := NetbricksConfiguration_new_with_name "".

(** ** TOML *)

#[warnings="-register-all"]
Inductive Value :=
| VString (s : string)
| VInteger (i : Z)
| VFloat
| VBoolean (b : bool)
| VDatetime
| VArray (vs : list Value)
| VTable (t : gmap string Value).

(** [Value::get]: nothing unless it is a table. *)
Definition vget (v : Value) (key : string) : option Value :=
  match v with VTable t => t !! key | _ => None end.

(** [as i32] and [as u32] of an [i64]. *)
Definition as_i32 (z : Z) : Z := wrap 32 (z + 2 ^ 31) - 2 ^ 31.

(** [str::parse::<i32>]: a sign, and digits without overflow. *)
Fixpoint parse_digits (sign acc : Z) (s : string) : option Z :=
  match s with
  | EmptyString => Some acc
  | String a s =>
      let d := Z.of_N (Ascii.N_of_ascii a) - 48 in
      let acc := 10 * acc + sign * d in
      if decide (0 ≤ d ≤ 9 ∧ - 2 ^ 31 ≤ acc < 2 ^ 31) then parse_digits sign acc s else None
  end.

Definition parse_i32 (s : string) : option Z :=
  match s with
  | EmptyString | String "+" EmptyString | String "-" EmptyString => None
  | String "+" s => parse_digits 1 0 s
  | String "-" s => parse_digits (-1) 0 s
  | _ => parse_digits 1 0 s
  end.

Fixpoint read_cores (error : string) (vs : list Value) : Result (list Z) :=
  match vs with
  | [] => Ok []
  | VInteger core :: vs => cs ← read_cores error vs; Ok (as_i32 core :: cs)
  | _ => Err error
  end.

Definition read_queue (queue : Value) : Result (list Z) :=
  match queue with
  | VArray queues => read_cores "Could not parse queue spec" queues
  | VInteger core => Ok [as_i32 core]
  | _ => Ok []
  end.

Definition read_integer (cast : Z → Z) (default_value : Z) (error : string) (v : option Value) : Result Z :=
  match v with
  | Some (VInteger i) => Ok (cast i)
  | None => Ok default_value
  | _ => Err error
  end.

Definition read_boolean (default_value : bool) (error : string) (v : option Value) : Result bool :=
  match v with
  | Some (VBoolean b) => Ok b
  | None => Ok default_value
  | _ => Err error
  end.

Definition read_port (value : Value) : Result PortConfiguration :=
  match value with
  | VTable port_def =>
      n ← match port_def !! "name" with
          | Some (VString n) => Ok n
          | _ => Err "Could not parse name for port"
          end;
      rxd ← read_integer as_i32 NUM_RXD "Could not parse number of rx descriptors" (port_def !! "rxd");
      txd ← read_integer as_i32 NUM_TXD "Could not parse number of tx descriptors" (port_def !! "txd");
      loopback ← read_boolean false "Could not parse loopback spec" (port_def !! "loopback");
      tso ← read_boolean false "Could not parse tso spec" (port_def !! "tso");
      csum ← read_boolean false "Could not parse csum spec" (port_def !! "checksum");
      let symmetric_queue := port_def !! "cores" in
      if decide (is_Some symmetric_queue ∧ (is_Some (port_def !! "rx_cores") ∨ is_Some (port_def !! "tx_cores"))) then
        Err "cores specified along with rx_cores and/or tx_cores for port"
      else
        rx ← match symmetric_queue with
             | Some v => read_queue v
             | None => match port_def !! "rx_cores" with Some v => read_queue v | None => Ok [] end
             end;
        tx ← match symmetric_queue with
             | Some _ => Ok rx
             | None => match port_def !! "tx_cores" with Some v => read_queue v | None => Ok [] end
             end;
        Ok (mkPortConfiguration n rx tx rxd txd loopback tso csum)
  | _ => Err "Could not understand port spec"
  end.

Fixpoint read_ports (vs : list Value) : Result (list PortConfiguration) :=
  match vs with
  | [] => Ok []
  | v :: vs => p ← read_port v; ps ← read_ports vs; Ok (p :: ps)
  end.

(** [None] stands for a document that the crate could not parse. *)
Definition read_configuration_from_str (document : option Value) : Result NetbricksConfiguration :=
  match document with
  | None => Err "Experienced parse errors in spec."
  | Some toml =>
      n ← match vget toml "name" with
          | Some (VString n) => Ok n
          | None => Ok DEFAULT_NAME
          | _ => Err "Could not parse name"
          end;
      master_lcore ←
        match vget toml "master_core" with
        | Some (VInteger core) => Ok (as_i32 core)
        | Some (VString core) =>
            match parse_i32 core with Some c => Ok c | None => Err "Could not parse as core" end
        | None => Ok DEFAULT_PRIMARY_CORE
        | _ => Err "Could not parse as core"
        end;
      pool_size ← read_integer (wrap 32) DEFAULT_POOL_SIZE "Could not parse pool size" (vget toml "pool_size");
      cache_size ← read_integer (wrap 32) DEFAULT_CACHE_SIZE "Could not parse cache size" (vget toml "cache_size");
      secondary ← read_boolean DEFAULT_SECONDARY "Could not parse secondary processor spec" (vget toml "secondary");
      cores ← match vget toml "cores" with
              | Some (VArray c) => read_cores "Could not parse core spec" c
              | None => Ok []
              | _ => Err "Cores is not an array"
              end;
      strict ← read_boolean false "Could not parse strict spec (should be boolean)" (vget toml "strict");
      ports ← match vget toml "ports" with
              | Some (VArray ports) => read_ports ports
              | None => Ok []
              | _ => Err "Ports is not an array"
              end;
      Ok (mkNetbricksConfiguration n secondary master_lcore cores strict ports pool_size cache_size None)
  end.

(** The file must be readable. *)
Definition read_configuration (from_str : string → option Value) (file : option string) :
    Result NetbricksConfiguration :=
  match file with
  | None => Err "Could not read file"
  | Some contents => read_configuration_from_str (from_str contents)
  end.

(** ** initialize_system *)

Section initialize.
Context {Port Queue : Type}.
Context (new_port_from_configuration : PortConfiguration → option Port).
Context (new_queue_pair : Port → Z → Z → option Queue).

Record NetBricksContext := mkNetBricksContext {
  ctx_ports : gmap string Port;
  ctx_rx_queues : gmap Z (list Queue);
  active_cores : list Z;
  siblings : gmap Z Queue;
}.

(** The receive queues of a port, each for its core. *)
Definition add_queue (port_instance : Port) (qs : gmap Z (list Queue)) (q : Z * Z) : Result (gmap Z (list Queue)) :=
  let '(rx_q, core) := q in
  match new_queue_pair port_instance rx_q rx_q with
  | Some q => Ok (<[core := default [] (qs !! core) ++ [q]]> qs)
  | None => Err "Queue on port could not be initialized"
  end.

Fixpoint rfold {A S} (f : S → A → Result S) (s : S) (l : list A) : Result S :=
  match l with
  | [] => Ok s
  | a :: l => s ← f s a; rfold f s l
  end.

(** [iter().enumerate()] *)
Definition enumerated {A} (l : list A) : list (Z * A) := zip (seqZ 0 (len l)) l.

Definition add_port (st : gmap string Port * gmap Z (list Queue)) (port : PortConfiguration) :
    Result (gmap string Port * gmap Z (list Queue)) :=
  let (ps, qs) := st in
  if decide (is_Some (ps !! port_name port)) then Err "Port appears twice in specification"
  else
    match new_port_from_configuration port with
    | None => Err "Port could not be initialized"
    | Some p =>
        qs ← rfold (add_queue p) qs (enumerated (rx_queues port));
        Ok (<[port_name port := p]> ps, qs)
    end.

(** The first queue of a core: [get(core).unwrap()[0]]. *)
Definition first_queue (qs : gmap Z (list Queue)) (core : Z) : outcome Queue :=
  q ← expect (qs !! core);
  index q 0.

Definition set_sibling (qs : gmap Z (list Queue)) (active : list Z) (sib : gmap Z Queue) (idx : Z) :
    outcome (gmap Z Queue) :=
  next ← index active (idx + 1);
  q ← first_queue qs next;
  core ← index active idx;
  Ret (<[core := q]> sib).

(** Each core gets the queue of the next one, the last that of the first.
    Without any core, the bound of the loop wraps around and the first turn
    panics. *)
Definition set_siblings (qs : gmap Z (list Queue)) (active : list Z) : outcome (gmap Z Queue) :=
  if decide (active = []) then Panic
  else
    sib ← ofold (set_sibling qs active) ∅ (seqZ 0 (len active - 1));
    first ← index active 0;
    q ← first_queue qs first;
    last ← index active (len active - 1);
    Ret (<[last := q]> sib).

Definition initialize_system (configuration : NetbricksConfiguration) : outcome (Result NetBricksContext) :=
  let cores : gset Z := list_to_set (cores configuration) in
  match rfold add_port (∅, ∅) (ports configuration) with
  | Err e => Ret (Err e)
  | Ok (ps, qs) =>
      let other_cores : gset Z := dom qs in
      if strict configuration && negb (bool_decide (other_cores ⊆ cores)) then
        Ret (Err "Strict configuration selected but core(s) appear in port configuration but not in cores")
      else
        let cores := if strict configuration then cores else cores ∪ other_cores in
        let active := merge_sort Z.le (elements cores) in
        sib ← set_siblings qs active;
        Ret (Ok (mkNetBricksContext ps qs active sib))
  end.
End initialize.

(** * What the configuration promises *)

(** ** Reading back *)

Definition in_i32 (z : Z) : Prop := - 2 ^ 31 ≤ z < 2 ^ 31.

Record port_ok (p : PortConfiguration) : Prop := {
  po_rx : Forall in_i32 (rx_queues p);
  po_tx : Forall in_i32 (tx_queues p);
  po_rxd : in_i32 (rxd p);
  po_txd : in_i32 (txd p);
}.

Record config_ok (c : NetbricksConfiguration) : Prop := {
  co_core : in_i32 (primary_core c);
  co_cores : Forall in_i32 (cores c);
  co_ports : Forall port_ok (ports c);
  co_pool : in_width 32 (pool_size c);
  co_cache : in_width 32 (cache_size c);
  co_args : dpdk_args c = None;
}.

(** How a configuration is written: a port with the same cores for both
    directions may name them once, and a field with its default value may be left
    out ([terse]). *)
Definition field {A} (terse : bool) (is_default : bool) (key : string) (v : A) (t : gmap string A) : gmap string A :=
  if terse && is_default then t else <[key := v]> t.

Definition core_list (cs : list Z) : Value := VArray (VInteger <$> cs).

Definition render_queues (once : bool) (p : PortConfiguration) (t : gmap string Value) : gmap string Value :=
  if once then <["cores" := core_list (rx_queues p)]> t
  else <["rx_cores" := core_list (rx_queues p)]> (<["tx_cores" := core_list (tx_queues p)]> t).

Definition render_port (terse : bool) (p : PortConfiguration) : Value :=
  VTable (
    <["name" := VString (port_name p)]> (
    field terse (bool_decide (rxd p = NUM_RXD)) "rxd" (VInteger (rxd p)) (
    field terse (bool_decide (txd p = NUM_TXD)) "txd" (VInteger (txd p)) (
    field terse (negb (loopback p)) "loopback" (VBoolean (loopback p)) (
    field terse (negb (tso p)) "tso" (VBoolean (tso p)) (
    field terse (negb (csum p)) "checksum" (VBoolean (csum p)) (
    render_queues (terse && bool_decide (rx_queues p = tx_queues p)) p ∅))))))).

Definition render (terse : bool) (c : NetbricksConfiguration) : Value :=
  VTable (
    field terse (bool_decide (name c = DEFAULT_NAME)) "name" (VString (name c)) (
    field terse (bool_decide (primary_core c = DEFAULT_PRIMARY_CORE)) "master_core" (VInteger (primary_core c)) (
    field terse (bool_decide (pool_size c = DEFAULT_POOL_SIZE)) "pool_size" (VInteger (pool_size c)) (
    field terse (bool_decide (cache_size c = DEFAULT_CACHE_SIZE)) "cache_size" (VInteger (cache_size c)) (
    field terse (negb (secondary c)) "secondary" (VBoolean (secondary c)) (
    field terse (bool_decide (cores c = [])) "cores" (core_list (cores c)) (
    field terse (negb (strict c)) "strict" (VBoolean (strict c)) (
    field terse (bool_decide (length (ports c) = 0%nat)) "ports" (VArray (render_port terse <$> ports c)) ∅)))))))).

Lemma field_ne {A} terse b key (v : A) t k : key ≠ k → field terse b key v t !! k = t !! k.
Proof. intros Hk. unfold field. destruct (terse && b); [done|]. by rewrite lookup_insert_ne. Qed.

Lemma field_eq {A} terse b key (v : A) t :
  field terse b key v t !! key = if terse && b then t !! key else Some v.
Proof. unfold field. destruct (terse && b); [done|]. by rewrite lookup_insert_eq. Qed.

Lemma queues_ne once p t k :
  k ≠ "cores" → k ≠ "rx_cores" → k ≠ "tx_cores" → render_queues once p t !! k = t !! k.
Proof. intros. unfold render_queues. destruct once; by rewrite !lookup_insert_ne. Qed.

Lemma as_i32_id z : in_i32 z → as_i32 z = z.
Proof. unfold in_i32, as_i32. intros Hz. rewrite wrap_id by (unfold in_width; lia). lia. Qed.

Lemma read_cores_list error cs : Forall in_i32 cs → read_cores error (VInteger <$> cs) = Ok cs.
Proof. induction 1 as [|c cs Hc _ IH]; [done|]. cbn in *. by rewrite IH, as_i32_id. Qed.

Lemma read_integer_field (terse : bool) cast d error z :
  cast z = z →
  read_integer cast d error (if terse && bool_decide (z = d) then None else Some (VInteger z)) = Ok z.
Proof. intros Hc. destruct terse; cbn; [|by rewrite Hc]. case_bool_decide; cbn; [by subst|by rewrite Hc]. Qed.

Lemma read_boolean_field (terse : bool) error b :
  read_boolean false error (if terse && negb b then None else Some (VBoolean b)) = Ok b.
Proof. by destruct terse, b. Qed.

(** Looking a key up in a table that was written. *)
Ltac look :=
  repeat match goal with
  | |- context [field ?ter ?b ?key ?v ?t !! ?k] =>
      first [rewrite (field_eq ter b key v t) | rewrite (field_ne ter b key v t k) by done]
  | |- context [<[?key := ?v]> ?t !! ?k] =>
      first [rewrite (lookup_insert_eq t key v) | rewrite (lookup_insert_ne t key k v) by done]
  | |- context [render_queues ?o ?p ?t !! ?k] => rewrite (queues_ne o p t k) by done
  | |- context [∅ !! ?k] => rewrite (lookup_empty k)
  end.

Lemma read_render_port terse p : port_ok p → read_port (render_port terse p) = Ok p.
Proof.
  intros [Hrx Htx Hrxd Htxd]. unfold read_port, render_port. look. cbn [mbind Result_bind].
  rewrite !read_integer_field by by apply as_i32_id. cbn [mbind Result_bind].
  rewrite !read_boolean_field. cbn [mbind Result_bind]. unfold render_queues.
  destruct (terse && bool_decide (rx_queues p = tx_queues p)) eqn:Eo; look; cbn [mbind Result_bind].
  - apply andb_true_iff in Eo as [_ Heq%bool_decide_eq_true].
    rewrite decide_False by (intros [_ [[]|[]]]; done). cbn. rewrite read_cores_list by done. cbn.
    destruct p. cbn in *. by subst.
  - rewrite decide_False by (intros [[] _]; done). cbn. rewrite !read_cores_list by done. cbn. by destruct p.
Qed.

Lemma read_render_ports terse ps : Forall port_ok ps → read_ports (render_port terse <$> ps) = Ok ps.
Proof.
  induction 1 as [|p ps Hp _ IH]; [done|]. rewrite fmap_cons. cbn [read_ports]. rewrite read_render_port by done.
  cbn [mbind Result_bind]. by rewrite IH.
Qed.

(** a configuration is read back from its TOML document, written out in full
    or without the fields that have their default value. *)
Theorem configuration_roundtrip terse c :
  config_ok c → read_configuration_from_str (Some (render terse c)) = Ok c.
Proof.
  intros [Hcore Hcores Hports Hpool Hcache Hargs]. unfold read_configuration_from_str, render. cbn [vget]. look.
  rewrite !read_integer_field by by apply wrap_id. rewrite !read_boolean_field.
  assert (match (if terse && bool_decide (name c = DEFAULT_NAME) then None else Some (VString (name c))) with
    | Some (VString n) => Ok n | None => Ok DEFAULT_NAME | _ => Err "Could not parse name" end = Ok (name c)) as ->.
  { destruct terse; cbn; [case_bool_decide as E; cbn; [by rewrite E|done]|done]. }
  cbn [mbind Result_bind].
  assert (match (if terse && bool_decide (primary_core c = DEFAULT_PRIMARY_CORE) then None
                 else Some (VInteger (primary_core c))) with
    | Some (VInteger core) => Ok (as_i32 core)
    | Some (VString core) =>
        match parse_i32 core with Some c => Ok c | None => Err "Could not parse as core" end
    | None => Ok DEFAULT_PRIMARY_CORE
    | _ => Err "Could not parse as core" end = Ok (primary_core c)) as ->.
  { destruct terse; cbn; [case_bool_decide as E; cbn; [by rewrite E|]|]; by rewrite as_i32_id. }
  cbn [mbind Result_bind].
  assert (match (if terse && bool_decide (cores c = []) then None else Some (core_list (cores c))) with
    | Some (VArray cs) => read_cores "Could not parse core spec" cs
    | None => Ok [] | _ => Err "Cores is not an array" end = Ok (cores c)) as ->.
  { destruct terse; cbn; [case_bool_decide as E; cbn; [by rewrite E|]|]; by apply read_cores_list. }
  cbn [mbind Result_bind].
  assert (match (if terse && bool_decide (length (ports c) = 0%nat) then None
                 else Some (VArray (render_port terse <$> ports c))) with
    | Some (VArray ps) => read_ports ps
    | None => Ok [] | _ => Err "Ports is not an array" end = Ok (ports c)) as ->.
  { pose proof (read_render_ports terse _ Hports) as Hp.
    destruct terse; cbn; [|done]. case_bool_decide as E; cbn; [|done]. by destruct (ports c). }
  cbn [mbind Result_bind]. destruct c. cbn in *. by subst.
Qed.

(** ** initialize_system *)

Section initialize.
Context {Port Queue : Type}.
Context (new_port : PortConfiguration → option Port).
Context (new_pair : Port → Z → Z → option Queue).

(** The receive queues that a core gets, in the order of the ports and of their
    queues. *)
Definition port_queues (core : Z) (p : PortConfiguration) : list Queue :=
  match new_port p with
  | Some port =>
      omap (λ '(i, c), if decide (c = core) then new_pair port i i else None) (enumerated (rx_queues p))
  | None => []
  end.

Definition queues_of (core : Z) (ps : list PortConfiguration) : list Queue := ps ≫= port_queues core.

(** No core has an empty list of queues. *)
Definition qs_ok (qs : gmap Z (list Queue)) : Prop := ∀ core, qs !! core ≠ Some [].

Lemma add_queues_spec port l qs qs' :
  qs_ok qs → rfold (add_queue new_pair port) qs l = Ok qs' →
  qs_ok qs' ∧ ∀ core,
    default [] (qs' !! core) = default [] (qs !! core) ++
      omap (λ '(i, c), if decide (c = core) then new_pair port i i else None) l ∧
    (core ∈ dom qs' ↔ core ∈ dom qs ∨ core ∈ l.*2).
Proof.
  revert qs. induction l as [|[i c] l IH]; intros qs Hok; cbn.
  - intros [= <-]. split; [done|]. intros core. rewrite app_nil_r. split; [done|]. split; [by left|].
    intros [Hc|Hc]; [done|by apply elem_of_nil in Hc].
  - destruct (new_pair port i i) as [q|] eqn:Eq; cbn; [|done]. intros Hr. apply IH in Hr as [Hok' Hq].
    2:{ intros core. destruct (decide (core = c)) as [->|]; [|by rewrite lookup_insert_ne].
        rewrite lookup_insert_eq. intros [= Hn]. by destruct (default [] (qs !! c)). }
    split; [done|]. intros core. destruct (Hq core) as [Hd Hi]. rewrite Hd, Hi. split.
    + destruct (decide (c = core)) as [->|].
      * rewrite lookup_insert_eq. cbn. by rewrite <- (assoc_L (++)).
      * by rewrite lookup_insert_ne.
    + rewrite dom_insert, elem_of_union, elem_of_singleton, elem_of_cons. tauto.
Qed.

Lemma enumerated_snd {A} (l : list A) : (enumerated l).*2 = l.
Proof.
  unfold enumerated. apply snd_zip. rewrite length_seqZ. unfold len. lia.
Qed.

Lemma add_ports_spec ps st ps' qs' :
  qs_ok st.2 → rfold (add_port new_port new_pair) st ps = Ok (ps', qs') →
  qs_ok qs' ∧ (∀ core,
    default [] (qs' !! core) = default [] (st.2 !! core) ++ queues_of core ps ∧
    (core ∈ dom qs' ↔ core ∈ dom st.2 ∨ ∃ p, p ∈ ps ∧ core ∈ rx_queues p)) ∧
  NoDup (port_name <$> ps).
Proof.
  intros Hok Hr.
  enough (qs_ok qs' ∧ (∀ core,
    default [] (qs' !! core) = default [] (st.2 !! core) ++ queues_of core ps ∧
    (core ∈ dom qs' ↔ core ∈ dom st.2 ∨ ∃ p, p ∈ ps ∧ core ∈ rx_queues p)) ∧
    NoDup (port_name <$> ps) ∧ ∀ p, p ∈ ps → st.1 !! port_name p = None) as (? & ? & ? & _) by done.
  revert st Hok Hr. induction ps as [|p ps IH]; intros [ports qs] Hok; cbn.
  - intros [= <- <-]. split_and!; [done| |constructor|intros p Hp; by apply elem_of_nil in Hp]. intros core.
    rewrite app_nil_r. split; [done|]. split; [by left|intros [?|(p & Hp & _)]; [done|by apply elem_of_nil in Hp]].
  - case_decide as Hn; [done|]. destruct (new_port p) as [port|] eqn:Ep; cbn; [|done].
    destruct (rfold (add_queue new_pair port) qs _) as [qs1|] eqn:Eq; cbn; [|done]. intros Hr.
    apply add_queues_spec in Eq as [Hok1 Hq1]; [|done].
    destruct (IH (<[port_name p := port]> ports, qs1) Hok1 Hr) as (Hok' & Hq & Hnd & Hnone).
    split; [done|]. split; [|split].
    + intros core. destruct (Hq core) as [Hd Hi], (Hq1 core) as [Hd1 Hi1]. cbn in Hd, Hi. rewrite Hd, Hi, Hd1, Hi1.
      rewrite enumerated_snd. split.
      2:{ split.
        - intros [[?|?]|(p0 & ? & ?)]; [by left|right; exists p; by split; [left|]|right; exists p0; by split; [right|]].
        - intros [?|(p0 & [ -> |?]%elem_of_cons & ?)]; [by left; left|by left; right|by right; exists p0]. } rewrite <- (assoc_L (++)). f_equal.
      unfold port_queues at 1. by rewrite Ep.
    + constructor; [|done]. intros (p' & Hp' & Hin)%list_elem_of_fmap. specialize (Hnone p' Hin). cbn in Hnone.
      by rewrite <- Hp', lookup_insert_eq in Hnone.
    + intros p' [->|Hin]%elem_of_cons; [by apply eq_None_not_Some|]. specialize (Hnone p' Hin). cbn in Hnone.
      by apply lookup_insert_None in Hnone as [? _].
Qed.

Lemma index_lookup {A} (l : list A) i x : index l i = Ret x ↔ 0 ≤ i ∧ l !! Z.to_nat i = Some x.
Proof.
  unfold index. case_decide; [|split; [done|lia]]. destruct (l !! Z.to_nat i) as [y|]; cbn; split; try done;
    [intros [= ->]|intros [_ [= ->]]|intros [_ ?]]; done.
Qed.

Definition first_of (l : option (list Queue)) : option Queue := l ≫= head.

Lemma first_queue_spec (qs : gmap Z (list Queue)) core q :
  first_queue qs core = Ret q ↔ first_of (qs !! core) = Some q.
Proof.
  unfold first_queue. destruct (qs !! core) as [l|]; cbn; [|split; discriminate].
  unfold index. rewrite decide_True by lia. change (Z.to_nat 0) with 0%nat.
  destruct l; cbn; split; intros Hq; try discriminate Hq; injection Hq as ->; done.
Qed.

(** The next core of a list, the first one after the last. *)
Definition next_core (active : list Z) (i : nat) : option Z := active !! ((i + 1) mod length active)%nat.

Lemma sibling_loop qs active n sib :
  NoDup active → 0 ≤ n → ofold (set_sibling qs active) ∅ (seqZ 0 n) = Ret sib →
  ∀ i core, Z.of_nat i < n → active !! i = Some core → ∃ next q,
    active !! (i + 1)%nat = Some next ∧ first_of (qs !! next) = Some q ∧ sib !! core = Some q.
Proof.
  intros Hnd Hn. revert sib. pattern n. apply natlike_ind; [intros sib _ i core Hi; lia| |done].
  clear n Hn. intros n Hpos IH sib.
  replace (Z.succ n) with (n + 1) by lia. rewrite seqZ_app, (seqZ_cons (0 + n)), (seqZ_nil _ (Z.pred 1)) by lia. rewrite ofold_app.
  destruct (ofold (set_sibling qs active) ∅ (seqZ 0 n)) as [sib0| |] eqn:E0; cbn [mbind outcome_bind]; [|done..].
  cbn [ofold]. unfold set_sibling at 1.
  destruct (index active (0 + n + 1)) as [next| |] eqn:En; cbn [mbind outcome_bind]; [|done..].
  destruct (first_queue qs next) as [q| |] eqn:Eqn; cbn [mbind outcome_bind]; [|done..].
  destruct (index active (0 + n)) as [core1| |] eqn:Ec; cbn [mbind outcome_bind]; [|done..].
  intros [= <-] i core Hi Hcore. apply index_lookup in En as [_ En]. apply index_lookup in Ec as [_ Ec].
  apply first_queue_spec in Eqn. destruct (decide (Z.of_nat i = n)) as [Hin|Hin].
  - exists next, q. replace (Z.to_nat (0 + n + 1)) with (i + 1)%nat in En by lia.
    replace (Z.to_nat (0 + n)) with i in Ec by lia. rewrite Ec in Hcore. injection Hcore as ->.
    by rewrite lookup_insert_eq.
  - destruct (IH sib0 eq_refl i core) as (next' & q' & Hn' & Hq' & Hs'); [lia|done|].
    exists next', q'. rewrite lookup_insert_ne; [done|]. intros ->.
    pose proof (NoDup_lookup _ _ _ _ Hnd Ec Hcore). lia.
Qed.

Lemma set_siblings_spec qs active sib :
  NoDup active → set_siblings qs active = Ret sib →
  ∀ i core, active !! i = Some core → ∃ next q, next_core active i = Some next ∧
    first_of (qs !! next) = Some q ∧ sib !! core = Some q.
Proof.
  intros Hnd. unfold set_siblings. case_decide as Hne; [done|].
  destruct (ofold _ ∅ (seqZ 0 (len active - 1))) as [sib1| |] eqn:El; cbn [mbind outcome_bind]; [|done..].
  destruct (index active 0) as [first| |] eqn:Ef; cbn [mbind outcome_bind]; [|done..].
  destruct (first_queue qs first) as [q0| |] eqn:Eq; cbn [mbind outcome_bind]; [|done..].
  destruct (index active (len active - 1)) as [last| |] eqn:Ela; cbn [mbind outcome_bind]; [|done..].
  intros [= <-]. apply index_lookup in Ef as [_ Ef]. apply index_lookup in Ela as [Hr Ela].
  apply first_queue_spec in Eq. pose proof (sibling_loop qs active _ sib1 Hnd Hr El) as Hs.
  intros i core Hi. pose proof (lookup_lt_Some _ _ _ Hi) as Hlt. unfold next_core.
  destruct (decide (Z.of_nat i = len active - 1)) as [Hil|Hil].
  - exists first, q0. replace (Z.to_nat (len active - 1)) with i in Ela by lia. rewrite Ela in Hi. injection Hi as ->.
    rewrite lookup_insert_eq. replace (i + 1)%nat with (length active) by (unfold len in Hil; lia).
    rewrite Nat.Div0.mod_same. by change (Z.to_nat 0) with 0%nat in Ef.
  - destruct (Hs i core) as (next & q & Hn & Hq & Hsib); [unfold len in *; lia|done|].
    exists next, q. rewrite Nat.mod_small by (apply lookup_lt_Some in Hn; lia). rewrite lookup_insert_ne; [done|].
    intros ->. pose proof (NoDup_lookup _ _ _ _ Hnd Ela Hi). lia.
Qed.

(** When a core lacks a queue, nobody can be its sibling. *)
Lemma set_siblings_total qs active :
  active ≠ [] → (∀ core, core ∈ active → is_Some (first_of (qs !! core))) → ∃ sib, set_siblings qs active = Ret sib.
Proof.
  intros Hne Hq. unfold set_siblings. rewrite decide_False by done.
  assert (∀ i, 0 ≤ i < len active → ∃ core q, index active i = Ret core ∧ first_queue qs core = Ret q) as Hi.
  { intros i Hi. destruct (lookup_lt_is_Some_2 active (Z.to_nat i)) as [core Hc]; [unfold len in Hi; lia|].
    destruct (Hq core) as [q Hqc]; [by eapply list_elem_of_lookup_2|]. exists core, q.
    split; [by apply index_lookup; split; [lia|]|by apply first_queue_spec]. }
  assert (0 < len active) as Hpos by (destruct active; [done|unfold len; cbn; lia]).
  assert (∃ sib, ofold (set_sibling qs active) ∅ (seqZ 0 (len active - 1)) = Ret sib) as [sib ->].
  { assert (∀ l sib, (∀ i, i ∈ l → 0 ≤ i < len active - 1) → ∃ sib', ofold (set_sibling qs active) sib l = Ret sib') as Hl.
    { induction l as [|i l IH]; intros sib Hin; [by exists sib|]. cbn [ofold].
      pose proof (Hin i ltac:(by left)) as Hir. assert (∃ sib1, set_sibling qs active sib i = Ret sib1) as [sib1 ->].
      { unfold set_sibling. destruct (Hi (i + 1)) as (next & q & -> & Hfq); [lia|]. cbn. rewrite Hfq.
        destruct (Hi i) as (core & q' & -> & _); [lia|]. by eexists. }
      apply IH. intros j Hj. apply Hin. by right. }
    apply Hl. intros i Hi'%elem_of_seqZ. lia. }
  cbn [mbind outcome_bind]. destruct (Hi 0) as (first & q & -> & Hfq); [lia|]. cbn [mbind outcome_bind]. rewrite Hfq.
  destruct (Hi (len active - 1)) as (last & q' & -> & _); [lia|]. by eexists.
Qed.

Lemma set_siblings_defined qs active : set_siblings qs active ≠ Undef (A := gmap Z Queue).
Proof.
  assert (∀ A (l : list A) i, index l i ≠ Undef) as Hi.
  { intros A l i. unfold index. case_decide; [|done]. by destruct (l !! _). }
  assert (∀ core, first_queue qs core ≠ Undef) as Hf.
  { intros core. unfold first_queue. destruct (qs !! core); [apply Hi|done]. }
  assert (∀ l sib, ofold (set_sibling qs active) sib l ≠ Undef) as Hl.
  { induction l as [|i l IH]; intros sib; [done|]. cbn [ofold].
    destruct (set_sibling qs active sib i) as [sib1| |] eqn:E; cbn; [apply IH|done|]. exfalso. revert E.
    unfold set_sibling. destruct (index active (i + 1)) as [next| |] eqn:E1; cbn; [|done|by apply Hi in E1].
    destruct (first_queue qs next) as [q| |] eqn:E2; cbn; [|done|by apply Hf in E2].
    destruct (index active i) as [core| |] eqn:E3; cbn; [done|done|by apply Hi in E3]. }
  unfold set_siblings. case_decide; [done|].
  destruct (ofold _ ∅ _) as [sib| |] eqn:E; cbn; [|done|by apply Hl in E].
  destruct (index active 0) as [first| |] eqn:E1; cbn; [|done|by apply Hi in E1].
  destruct (first_queue qs first) as [q| |] eqn:E2; cbn; [|done|by apply Hf in E2].
  destruct (index active (len active - 1)) as [last| |] eqn:E3; cbn; [done|done|by apply Hi in E3].
Qed.

Lemma not_subseteq_core (X Y : gset Z) : ¬ X ⊆ Y → ∃ core, core ∈ X ∧ core ∉ Y.
Proof.
  intros Hn. destruct (set_choose_or_empty (X ∖ Y)) as [[core Hc]|He].
  - apply elem_of_difference in Hc. by exists core.
  - destruct Hn. intros core Hc. destruct (decide (core ∈ Y)) as [|Hy]; [done|]. exfalso.
    apply (not_elem_of_empty (C := gset Z) core), He. by apply elem_of_difference.
Qed.

Lemma add_queues_err port l qs e :
  rfold (add_queue new_pair port) qs l = Err e → ∃ i, new_pair port i i = None.
Proof.
  revert qs. induction l as [|[i c] l IH]; intros qs; cbn; [done|].
  destruct (new_pair port i i) eqn:E; cbn; [apply IH|by exists i].
Qed.

Lemma add_ports_err ps st e :
  rfold (add_port new_port new_pair) st ps = Err e →
  (∃ p, p ∈ ps ∧ (new_port p = None ∨ ∃ port i, new_port p = Some port ∧ new_pair port i i = None)) ∨
  ¬ NoDup (port_name <$> ps) ∨ ∃ p, p ∈ ps ∧ is_Some (st.1 !! port_name p).
Proof.
  revert st. induction ps as [|p ps IH]; intros [ports qs]; cbn; [done|].
  case_decide as Hn; [intros _; right; right; exists p; by split; [left|]|].
  destruct (new_port p) as [port|] eqn:Ep; cbn; [|intros _; left; exists p; by split; [left|left]].
  destruct (rfold (add_queue new_pair port) qs _) as [qs1|e1] eqn:Eq; cbn.
  2:{ intros _. left. exists p. split; [by left|]. right. apply add_queues_err in Eq as [i Hi]. by exists port, i. }
  intros Hr. apply IH in Hr as [(p' & Hp' & Hx)|[Hnd|(p' & Hp' & Hx)]].
  - left. exists p'. by split; [right|].
  - right. left. rewrite NoDup_cons. by intros [_ ?].
  - cbn in Hx. destruct (decide (port_name p = port_name p')) as [He|He].
    + right. left. rewrite NoDup_cons. intros [Hnin _]. apply Hnin. rewrite He.
      by apply (list_elem_of_fmap_2 port_name).
    + right. right. rewrite lookup_insert_ne in Hx by done. exists p'. by split; [right|].
Qed.

Lemma elements_sorted_nodup (cs : gset Z) : NoDup (merge_sort Z.le (elements cs)).
Proof. rewrite merge_sort_Permutation. apply NoDup_elements. Qed.

(** C26: initialisation makes the cores a ring.  When the ports can be opened, the
    active cores are, in ascending order and once each, the configured ones and
    those to which a port gives a receive queue (which a strict configuration
    demands to be configured); each core gets the queues of the ports in their
    order; and the sibling of a core, from which it may steal packets, is the first
    queue of the next core, that of the last core the first one's.  When every
    configured core has a queue, and there is one, initialisation succeeds. *)
Theorem siblings_form_ring c :
  match initialize_system new_port new_pair c with
  | Ret (Ok ctx) =>
      StronglySorted Z.le (active_cores ctx) ∧ NoDup (active_cores ctx) ∧ NoDup (port_name <$> ports c) ∧
      (∀ core, core ∈ active_cores ctx ↔ core ∈ cores c ∨ ∃ p, p ∈ ports c ∧ core ∈ rx_queues p) ∧
      (∀ core, default [] (ctx_rx_queues ctx !! core) = queues_of core (ports c)) ∧
      ∀ i core, active_cores ctx !! i = Some core → ∃ next q qs,
        next_core (active_cores ctx) i = Some next ∧ queues_of next (ports c) = q :: qs ∧
        siblings ctx !! core = Some q
  | Ret (Err _) =>
      (∃ p, p ∈ ports c ∧ (new_port p = None ∨ ∃ port i, new_port p = Some port ∧ new_pair port i i = None)) ∨
      ¬ NoDup (port_name <$> ports c) ∨
      strict c = true ∧ ∃ p core, p ∈ ports c ∧ core ∈ rx_queues p ∧ core ∉ cores c
  | Panic =>
      (cores c = [] ∧ ∀ p, p ∈ ports c → rx_queues p = []) ∨ ∃ core, core ∈ cores c ∧ queues_of core (ports c) = []
  | Undef => False
  end.
Proof.
  unfold initialize_system. destruct (rfold (add_port new_port new_pair) (∅, ∅) (ports c)) as [[ps qs]|e] eqn:Er.
  2:{ apply add_ports_err in Er as [?|[?|(p & _ & [? Hp])]]; [by left|by right; left|done]. }
  apply add_ports_spec in Er as (Hok & Hq & Hnd); [|intros core; cbn; by rewrite lookup_empty].
  assert (∀ core, default [] (qs !! core) = queues_of core (ports c)) as Hqd.
  { intros core. destruct (Hq core) as [-> _]. cbn. by rewrite lookup_empty. }
  assert (∀ core, core ∈ dom qs ↔ ∃ p, p ∈ ports c ∧ core ∈ rx_queues p) as Hqi.
  { intros core. destruct (Hq core) as [_ ->]. cbn. rewrite dom_empty. split; [by intros [?%elem_of_empty|]|by right]. }
  destruct (strict c && _) eqn:Es; [|].
  { apply andb_true_iff in Es as [Hs Hsub%negb_true_iff%bool_decide_eq_false]. right. right. split; [done|].
    apply not_subseteq_core in Hsub as (core & Hin & Hout). apply Hqi in Hin as (p & Hp & Hc).
    exists p, core. split_and!; [done|done|]. intros Hx. apply Hout. by apply elem_of_list_to_set. }
  set (act := merge_sort Z.le _).
  assert (∀ core, core ∈ act ↔ core ∈ cores c ∨ ∃ p, p ∈ ports c ∧ core ∈ rx_queues p) as Hact.
  { intros core. unfold act. rewrite merge_sort_Permutation, elem_of_elements. rewrite <- Hqi.
    destruct (strict c); cbn in Es.
    - apply negb_false_iff, bool_decide_eq_true in Es. rewrite elem_of_list_to_set. split; [by left|].
      intros [?|Hx%Es]; [done|]. by apply elem_of_list_to_set in Hx.
    - by rewrite elem_of_union, elem_of_list_to_set. }
  destruct (set_siblings qs act) as [sib| |] eqn:Eb; cbn [mbind outcome_bind].
  - split_and!; [apply StronglySorted_merge_sort; apply _|apply elements_sorted_nodup|done..|].
    intros i core Hi. destruct (set_siblings_spec _ _ _ (elements_sorted_nodup _) Eb i core Hi) as (next & q & Hn & Hf & Hs).
    exists next, q. unfold first_of in Hf. rewrite <- Hqd. destruct (qs !! next) as [[|q' l]|]; cbn in Hf; try done.
    injection Hf as ->. by exists l.
  - destruct (decide (act = [])) as [Hnil|Hne].
    { left. rewrite Hnil in Hact. split.
      - destruct (cores c) as [|x l] eqn:E; [done|]. exfalso. apply (elem_of_nil x), Hact. left. by left.
      - intros p Hp. destruct (rx_queues p) as [|x l] eqn:E; [done|]. exfalso. apply (elem_of_nil x), Hact.
        right. exists p. split; [done|]. rewrite E. by left. }
    right. destruct (decide (Forall (λ core, is_Some (first_of (qs !! core))) act)) as [Hall|Hnot].
    { rewrite Forall_forall in Hall. destruct (set_siblings_total qs act Hne Hall) as [sib Hsib]. congruence. }
    apply first_failing in Hnot as (l1 & core & l2 & Hl & _ & Hnone); [|intros; apply _].
    assert (queues_of core (ports c) = []) as Hemp.
    { rewrite <- Hqd. unfold first_of in Hnone. destruct (qs !! core) as [[|q l]|]; cbn in *; try done. destruct Hnone. by eexists. }
    exists core. split; [|done]. assert (core ∈ act) as Hin by (rewrite Hl; apply elem_of_app; right; by left).
    apply Hact in Hin as [?|Hp]; [done|]. apply Hqi in Hp. apply elem_of_dom in Hp as [l Hp].
    rewrite <- Hqd, Hp in Hemp. cbn in Hemp. subst l. by apply Hok in Hp.
  - by apply set_siblings_defined in Eb.
Qed.
End initialize.

(** ** Examples *)

Definition ex_config : NetbricksConfiguration :=
  mkNetbricksConfiguration "kayak" false 3 [2; 0] false
    [PortConfiguration_new_with_queues "dpdk:eth0" [1; 2] [1; 2];
     mkPortConfiguration "dpdk:eth1" [0; 2] [] 256 NUM_TXD true false true] DEFAULT_POOL_SIZE 64 None.

Lemma ex_config_ok : config_ok ex_config.
Proof.
  assert (∀ l, bool_decide (Forall (λ z, - 2 ^ 31 ≤ z < 2 ^ 31) l) = true → Forall in_i32 l) as Hl
    by (intros l Hl; by apply bool_decide_eq_true in Hl).
  split; try reflexivity; try (apply Hl; vm_compute; reflexivity);
    try (split; vm_compute; (discriminate || reflexivity)).
  repeat (apply Forall_cons; split); [..|by apply Forall_nil]; split;
    first [apply Hl; vm_compute; reflexivity | split; vm_compute; (discriminate || reflexivity)].
Qed.

Lemma configuration_roundtrip_witness :
  read_configuration_from_str (Some (render true ex_config)) = Ok ex_config ∧
  read_configuration_from_str (Some (render false ex_config)) = Ok ex_config.
Proof.
  exact (conj (configuration_roundtrip true ex_config ex_config_ok) (configuration_roundtrip false ex_config ex_config_ok)).
Defined.

(** Ports by their names, queues by port and number; core 7 has no queue. *)
Definition ex_init (c : NetbricksConfiguration) :=
  initialize_system (λ p, Some (port_name p)) (λ p rx _, Some (p, rx)) c.

Example siblings_of_config :
  match ex_init ex_config with
  | Ret (Ok ctx) => (active_cores ctx, map_to_list (siblings ctx)) =
      ([0; 1; 2], [(2, ("dpdk:eth1"%string, 0)); (1, ("dpdk:eth0"%string, 1)); (0, ("dpdk:eth0"%string, 0))])
  | _ => False
  end.
Proof. vm_compute. reflexivity. Qed.

Example idle_core_panics :
  ex_init (mkNetbricksConfiguration "kayak" false 0 [7] false (ports ex_config) 1 1 None) = Panic.
Proof. vm_compute. reflexivity. Qed.
