(* ===== verification/ClosedLoop.v ===== *)
(** * ClosedLoop: what the closed-loop clients share

    The clients ycsb-t.rs, pushback.rs, auth.rs and checksum.rs of
    splinter/src/bin/client are written to one pattern: a task of the client's
    scheduler that sends until [MAX_CREDIT] requests are outstanding, receives
    what has come, and runs some of the extensions that were pushed back.  The
    pattern is written here once, against an interface of what differs: how a
    request is generated, and what is done with a packet.  The lines mapped are
    those of ycsb-t.rs. *)

From S2P Require Import Prelude Packed Headers Packet Wire Rpc Alloc Tx Bufs Ext Context Task.
From S2P Require Import Dispatch Proxy Client.

(** ** Counters *)

(** A client that does not count aborted transactions leaves that counter at 0. *)
Record Tally := mkTally {
  tl_recvd : Z;
  tl_aborted : Z;
  tl_latencies : list Z;
  tl_stop : Z;
  tl_sent : Z;
  tl_finished : bool;
  tl_outstanding : Z;
}.

Definition Tally_new : Tally := mkTally 0 0 [] 0 0 false 0.

(** [self.sent += 1; self.outstanding += 1] *)
Definition tl_one_sent (n : Tally) : Tally :=
  mkTally (tl_recvd n) (tl_aborted n) (tl_latencies n) (tl_stop n) (tl_sent n +u64 1) (tl_finished n)
    (tl_outstanding n +u64 1).

(** [self.outstanding -= 1] *)
Definition tl_one_less (n : Tally) : Tally :=
  mkTally (tl_recvd n) (tl_aborted n) (tl_latencies n) (tl_stop n) (tl_sent n) (tl_finished n)
    (tl_outstanding n -u64 1).

(** [self.recvd += 1], with the latency if there is one. *)
Definition tl_one_recvd (n : Tally) (latency : list Z) : Tally :=
  mkTally (tl_recvd n +u64 1) (tl_aborted n) (tl_latencies n ++ latency) (tl_stop n) (tl_sent n)
    (tl_finished n) (tl_outstanding n).

(** [self.aborted += 1], where [again] requests are outstanding again. *)
Definition tl_one_aborted (n : Tally) (again : Z) : Tally :=
  mkTally (tl_recvd n) (tl_aborted n +u64 1) (tl_latencies n) (tl_stop n) (tl_sent n) (tl_finished n)
    (tl_outstanding n +u64 again).

(** [self.stop = now; self.finished = true] *)
Definition tl_end (n : Tally) (now : Z) : Tally :=
  mkTally (tl_recvd n) (tl_aborted n) (tl_latencies n) now (tl_sent n) true (tl_outstanding n).

Definition CL_MAX_CREDIT : nat := 32.

Section closed.
Context `{Network} `{Loader} {G : Type}.

(** ** The common part of a client *)

Record Base := mkBase {
  cb_link : Link;
  cb_receiver : Receiver;
  cb_manager : @TaskManager _ G;
  cb_tally : Tally;
}.

Definition Base_new (w : Link) (extensions : ExtensionManager) : Base :=
  mkBase w Receiver_new (TaskManager_new extensions) Tally_new.

Definition cb_with_link (b : Base) (w : Link) : Base :=
  mkBase w (cb_receiver b) (cb_manager b) (cb_tally b).

Definition cb_with_manager (b : Base) (m : TaskManager) : Base :=
  mkBase (cb_link b) (cb_receiver b) m (cb_tally b).

Definition cb_with_tally (b : Base) (n : Tally) : Base :=
  mkBase (cb_link b) (cb_receiver b) (cb_manager b) n.

(** [cycles::rdtsc()] *)
Definition cb_clock (b : Base) : Z * Base :=
  let (t, net) := rdtsc (cb_link b).2 in (t, cb_with_link b ((cb_link b).1, net)).

(** [p.free_packet()] *)
Definition cb_free {T} (p : Packet T) (b : Base) : Base :=
  cb_with_link b ((cb_link b).1, mbuf_free (mbuf p) (cb_link b).2).

(** An invocation, and the task that would run it here if it is pushed back. *)
Definition cb_invoke (b : Base) (tenant name_length : Z) (request : bytes) (stamp : Z) : outcome Base :=
  m ← create_task (cb_manager b) stamp request tenant name_length;
  w ← send_invoke (cb_link b) tenant name_length request stamp;
  Ret (cb_with_manager (cb_with_link b w) m).

(** The extension was run by the server. *)
Definition cb_served (b : Base) (stamp : Z) (latency : Z) : Base :=
  cb_with_tally (cb_with_manager b (delete_task (cb_manager b) stamp))
    (tl_one_less (tl_one_recvd (cb_tally b) [latency])).

(** The extension was pushed back with what it had read and written. *)
Definition cb_pushed_back (b : Base) (stamp : Z) (records : bytes) (record_len key_len : Z) : outcome Base :=
  m ← update_rwset (cb_manager b) stamp records record_len key_len;
  Ret (cb_with_manager b m).

(** ** The pattern *)

Class ClosedClient (K : Type) := {
  cc_base : K → Base;
  cc_with_base : K → Base → K;
  cc_requests : K → Z;
  cc_responses : K → Z;
  (** Sends the next request, stamped with the time. *)
  cc_generate : K → Z → outcome K;
  (** Takes a packet that was received at a time. *)
  cc_packet : Z → K → Packet UdpHeader → outcome K;
  (** Whether the clock is read for every packet, and not once for a batch. *)
  cc_clock_each : K → bool;
}.

Section client.
Context {K : Type} `{!ClosedClient K}.

Definition cc_tally (k : K) : Tally := cb_tally (cc_base k).

Definition cc_queue (k : K) : Z := get_queue_len (cb_manager (cc_base k)).

Definition cc_count (k : K) (f : Tally → Tally) : K :=
  cc_with_base k (cb_with_tally (cc_base k) (f (cc_tally k))).

(** *** Sending *)

Definition cc_may_send (k : K) : bool :=
  bool_decide (tl_outstanding (cc_tally k) < Z.of_nat CL_MAX_CREDIT) &&
  bool_decide (cc_queue k < Z.of_nat CL_MAX_CREDIT).

Definition cc_send_one (k : K) : outcome K :=
  let (curr, b) := cb_clock (cc_base k) in
  k ← cc_generate (cc_with_base k b) curr;
  Ret (cc_count k tl_one_sent).

(** Every turn adds an outstanding request, so that [CL_MAX_CREDIT] turns are
    enough. *)
Definition cc_send (k : K) : outcome K :=
  if decide (cc_requests k <= tl_sent (cc_tally k)) then Ret k
  else while_loop cc_may_send cc_send_one CL_MAX_CREDIT k.

(** *** Receiving *)

(** Packets in the order in which they are taken. *)
Definition cc_packets (k : K) (packets : list (Packet UdpHeader)) : outcome K :=
  if cc_clock_each k then
    ofold (λ k p, let (curr, b) := cb_clock (cc_base k) in cc_packet curr (cc_with_base k b) p) k packets
  else
    let (curr, b) := cb_clock (cc_base k) in
    ofold (cc_packet curr) (cc_with_base k b) packets.

(** [packets.pop()] takes the batch from its end. *)
Definition cc_recv (k : K) : outcome K :=
  if decide (tl_finished (cc_tally k) = true ∧ tl_stop (cc_tally k) > 0) then Ret k
  else
    let b := cc_base k in
    '(rc, net, packets) ← recv_res (cb_receiver b) (cb_link b).2;
    let k := cc_with_base k (mkBase ((cb_link b).1, net) rc (cb_manager b) (cb_tally b)) in
    k ← match packets with
        | Some packets => cc_packets k (rev packets)
        | None => Ret k
        end;
    let n := cc_tally k in
    if decide (cc_responses k <= tl_recvd n +u64 tl_aborted n) then
      let (now, b) := cb_clock (cc_base k) in
      Ret (cc_count (cc_with_base k b) (λ n, tl_end n now))
    else Ret k.

(** *** Executable::execute *)

Context (ext_gen : Extension → ProxyDB → G) (resume : Link → ProxyDB → G → ClientStep Link G).

(** A task of the queue, if there is one, runs from one reading of the clock to
    the next. *)
Definition cc_execute_one (k : K) : outcome K :=
  if decide (cc_queue k = 0) then Ret k
  else
    let (start, b) := cb_clock (cc_base k) in
    let (stop, b) := cb_clock b in
    '(w, m, _) ← execute_task ext_gen resume (cb_link b) (cb_manager b) start stop;
    Ret (cc_with_base k (cb_with_manager (cb_with_link b w) m)).

(** [tasks] of the tasks that were pushed back are run in a turn. *)
Definition cc_execute (tasks : nat) (k : K) : outcome K :=
  k ← cc_send k;
  k ← cc_recv k;
  ofold (λ k _, cc_execute_one k) k (seq 0 tasks).

(** [n] turns. *)
Definition cc_run (tasks n : nat) (k : K) : outcome K :=
  ofold (λ k _, cc_execute tasks k) k (seq 0 n).
End client.
End closed.

Arguments Base {_ _} G.
Arguments ClosedClient {_ _} G K.
