(* ===== verification/YtClient.v ===== *)
(** * YtClient: the YCSB-T client

    Models splinter/src/bin/client/ycsb-t.rs, the client that ycsb-t-kayak.rs
    adds its controllers to.  All its requests are native, or all are invocations
    of the extension ycsbt; an aborted transaction is started again. *)

From S2P Require Import Prelude Packed Headers Packet Wire Rpc Alloc Tx Bufs Ext Context Task.
From S2P Require Import Dispatch Proxy Client DB Programs Float Kayak LoadClient ClosedLoop.

Section client.
Context `{Network} `{Loader} `{Workloads} {G : Type}.

(** ** The workload

    The source repeats the generator of ycsb-t-kayak.rs. *)

Definition yt_workload_new : Z → Z → Rng → Zipf → Zipf → YCSBT := YCSBT_new.

Definition yt_abc : YCSBT → outcome (YCSBT * YcsbOp) := abc.

(** ** The client *)

Record YtClient := mkYtClient {
  yt_base : Base G;
  yt_responses : Z;
  yt_start : Z;
  yt_master : bool;
  yt_workload : YCSBT;
  yt_requests : Z;
  yt_native : bool;
  yt_invoke_get : bytes;
  yt_invoke_get_modify : bytes;
  yt_ord : Z;
  yt_key_len : Z;
  yt_record_len : Z;
  yt_table_id : Z;
  yt_name_length : Z;
}.

(** The workload draws from the keys that are left when the aggregated ones are
    taken away; the distribution is created for them. *)
Definition YtClient_new (w : Link) (extensions : ExtensionManager) (y : YCSBT) (resps : Z) (master : bool)
    (use_invoke : bool) (key_len value_len reqs order : Z) : YtClient :=
  let (start, net) := rdtsc w.2 in
  mkYtClient (Base_new (w.1, net) extensions) resps start master y reqs (negb use_invoke)
    (invoke_get_payload key_len order) (invoke_get_modify_payload key_len order) order key_len
    (1 + 8 + key_len + value_len) 1 (len ycsbt_name).

Definition yt_with_base (k : YtClient) (b : Base G) : YtClient :=
  mkYtClient b (yt_responses k) (yt_start k) (yt_master k) (yt_workload k) (yt_requests k) (yt_native k)
    (yt_invoke_get k) (yt_invoke_get_modify k) (yt_ord k) (yt_key_len k) (yt_record_len k) (yt_table_id k)
    (yt_name_length k).

Definition yt_with_workload (k : YtClient) (y : YCSBT) (p_get p_put : bytes) : YtClient :=
  mkYtClient (yt_base k) (yt_responses k) (yt_start k) (yt_master k) y (yt_requests k) (yt_native k)
    p_get p_put (yt_ord k) (yt_key_len k) (yt_record_len k) (yt_table_id k) (yt_name_length k).

Definition yt_on_link (k : YtClient) (f : Link → outcome Link) : outcome YtClient :=
  w ← f (cb_link (yt_base k)); Ret (yt_with_base k (cb_with_link (yt_base k) w)).

Definition yt_count (k : YtClient) (f : Tally → Tally) : YtClient :=
  yt_with_base k (cb_with_tally (yt_base k) (f (cb_tally (yt_base k)))).

(** *** Sending *)

Definition yt_send_native (k : YtClient) (op : YcsbOp) (curr : Z) : outcome YtClient :=
  yt_on_link k (λ w,
    match op with
    | OpGet tenant key => send_get w tenant (yt_table_id k) key curr
    | OpMulti tenant multikey =>
        send_multiget w tenant (yt_table_id k) (wrap 16 (yt_key_len k)) 2 multikey curr
    end).

Definition yt_send_invoke (k : YtClient) (op : YcsbOp) (curr : Z) : outcome YtClient :=
  match op with
  | OpGet tenant key =>
      x ← slice key 0 4;
      p_get ← copy_from_slice (yt_invoke_get k) 13 17 x;
      b ← cb_invoke (yt_base k) tenant (yt_name_length k) p_get curr;
      Ret (yt_with_base (yt_with_workload k (yt_workload k) p_get (yt_invoke_get_modify k)) b)
  | OpMulti tenant multiget =>
      x ← slice multiget 0 4;
      p_put ← copy_from_slice (yt_invoke_get_modify k) 13 17 x;
      x ← slice multiget 30 34;
      p_put ← copy_from_slice p_put 43 47 x;
      b ← cb_invoke (yt_base k) tenant (yt_name_length k) p_put curr;
      Ret (yt_with_base (yt_with_workload k (yt_workload k) (yt_invoke_get k) p_put) b)
  end.

Definition yt_generate (k : YtClient) (curr : Z) : outcome YtClient :=
  '(y, op) ← yt_abc (yt_workload k);
  let k := yt_with_workload k y (yt_invoke_get k) (yt_invoke_get_modify k) in
  if yt_native k then yt_send_native k op curr else yt_send_invoke k op curr.

(** *** Native transactions *)

Definition yt_process_get_response (k : YtClient) (p : Packet GetResponse) : outcome YtClient :=
  h ← get_header p;
  record ← get_payload p;
  yt_on_link k (λ w, send_commit w (res_tenant (getres_common h)) (yt_table_id k) record
    (res_stamp (getres_common h)) 30 100).

(** The busy wait of the compute part is left out. *)
Definition yt_process_multiget_response (k : YtClient) (p : Packet MultiGetResponse) : outcome YtClient :=
  h ← get_header p;
  records ← get_payload p;
  commit_payload ← multiget_commit_payload records;
  yt_on_link k (λ w, send_commit w (res_tenant (mgetres_common h)) (yt_table_id k) commit_payload
    (res_stamp (mgetres_common h)) 30 100).

Definition yt_free {T} (p : Packet T) (k : YtClient) : YtClient := yt_with_base k (cb_free p (yt_base k)).

(** *** Receiving *)

(** Other responses count as an answer, too. *)
Definition yt_recv_native (k : YtClient) (packet : Packet UdpHeader) : outcome YtClient :=
  opcode ← parse_rpc_opcode packet;
  k ← match opcode with
      | SandstormGetRpc =>
          p ← parse_header GetResponse packet;
          h ← get_header p;
          k ← (if decide (status (getres_common h) = RpcStatus_u8 StatusOk)
               then yt_process_get_response k p else Ret k);
          Ret (yt_free p k)
      | SandstormMultiGetRpc =>
          p ← parse_header MultiGetResponse packet;
          h ← get_header p;
          k ← (if decide (status (mgetres_common h) = RpcStatus_u8 StatusOk)
               then yt_process_multiget_response k p else Ret k);
          Ret (yt_free p k)
      | _ => Ret (yt_free packet k)
      end;
  Ret (yt_count k tl_one_less).

Definition yt_recv_invoke (k : YtClient) (curr : Z) (packet : Packet UdpHeader) : outcome YtClient :=
  opcode ← parse_rpc_opcode packet;
  match opcode with
  | SandstormInvokeRpc =>
      p ← parse_header InvokeResponse packet;
      h ← get_header p;
      let h := invokeres_common h in
      let timestamp := res_stamp h in
      k ←
        (if decide (status h = RpcStatus_u8 StatusOk) then
           Ret (yt_with_base k (cb_served (yt_base k) timestamp (curr -u64 timestamp)))
         else if decide (status h = RpcStatus_u8 StatusPushback) then
           records ← get_payload p;
           b ← cb_pushed_back (yt_base k) timestamp records (yt_record_len k) (yt_key_len k);
           Ret (yt_count (yt_with_base k b) tl_one_less)
         else if decide (status h = RpcStatus_u8 StatusTxAbort) then
           pl ← get_payload p;
           let k := yt_count k (λ n, tl_one_aborted n 0) in
           yt_on_link k (λ w, send_invoke w (res_tenant h) (yt_name_length k) pl timestamp)
         else Ret k);
      Ret (yt_free p k)
  | _ => Ret (yt_free packet k)
  end.

(** An aborted transaction starts again: with its keys, or as an invocation whose
    payload gets the keys, thirty bytes apart. *)
Definition yt_restart (k : YtClient) (tenant timestamp : Z) (keys : bytes) : outcome YtClient :=
  if yt_native k then
    yt_on_link k (λ w,
      if decide (len keys = yt_key_len k) then send_get w tenant (yt_table_id k) keys timestamp
      else
        _ ← assert_ (yt_key_len k ≠ 0);
        let n_keys := wrap 32 (len keys / yt_key_len k) in
        send_multiget w tenant (yt_table_id k) (wrap 16 (yt_key_len k)) n_keys keys timestamp)
  else
    payload ← lc_retry_payload (yt_invoke_get_modify k) keys (yt_key_len k);
    let k := yt_with_workload k (yt_workload k) (yt_invoke_get k) payload in
    k ← yt_on_link k (λ w, send_invoke w tenant (yt_name_length k) payload timestamp);
    m ← create_task (cb_manager (yt_base k)) timestamp payload tenant (yt_name_length k);
    Ret (yt_with_base k (cb_with_manager (yt_base k) m)).

Definition yt_recv_commit (k : YtClient) (curr : Z) (packet : Packet UdpHeader) : outcome YtClient :=
  p ← parse_header CommitResponse packet;
  h ← get_header p;
  let h := commitres_common h in
  k ←
    (if decide (status h = RpcStatus_u8 StatusTxAbort) then
       keys ← get_payload p;
       k ← yt_restart k (res_tenant h) (res_stamp h) keys;
       Ret (yt_count k (λ n, tl_one_aborted n 1))
     else if decide (status h = RpcStatus_u8 StatusOk) then
       Ret (yt_count k (λ n, tl_one_recvd n [curr -u64 res_stamp h]))
     else Ret k);
  Ret (yt_free p k).

Definition yt_packet (curr : Z) (k : YtClient) (packet : Packet UdpHeader) : outcome YtClient :=
  opcode ← parse_rpc_opcode packet;
  match opcode with
  | SandstormCommitRpc => yt_recv_commit k curr packet
  | _ => if yt_native k then yt_recv_native k packet else yt_recv_invoke k curr packet
  end.

#[export] Instance yt_closed : ClosedClient G YtClient := {|
  cc_base := yt_base;
  cc_with_base := yt_with_base;
  cc_requests := yt_requests;
  cc_responses := yt_responses;
  cc_generate := yt_generate;
  cc_packet := yt_packet;
  cc_clock_each _ := false;
|}.
Definition yt_execute (ext_gen : Extension → ProxyDB → G) (resume : Link → ProxyDB → G → ClientStep Link G) :
    YtClient → outcome YtClient := cc_execute ext_gen resume CL_MAX_CREDIT.
End client.

Arguments YtClient {_ _ _} G.
