(* ===== verification/PbClient.v ===== *)
(** * PbClient: the client of the pushback workload

    Models splinter/src/bin/client/pushback.rs, the client that pushback-kayak.rs
    adds its controllers to: chains of dependent gets, all of them run by the
    extension pushback, or all of them followed by the client itself in native
    requests. *)

From S2P Require Import Prelude Packed Headers Packet Wire Rpc Alloc Tx Bufs Ext Context Task.
From S2P Require Import Dispatch Proxy Client DB Programs Float Kayak PushClient ClosedLoop.

(** Whether invocations carry an order drawn from a distribution. *)
Definition ORD_DIST : bool := false.

Section client.
Context `{Network} `{Loader} `{Orders} {G : Type}.

(** ** The workload

    The source repeats the generator of pushback-kayak.rs. *)

Definition pc_workload_new : Z → Z → Z → Rng → Zipf → Zipf → Normal → Pushback := Pushback_new.

Definition pc_abc : Pushback → outcome (Pushback * PushOp) := push_abc.

(** ** The client *)

Record PbClient := mkPbClient {
  pc_base : Base G;
  pc_responses : Z;
  pc_start : Z;
  pc_master : bool;
  pc_workload : Pushback;
  pc_requests : Z;
  pc_native : bool;
  pc_payload_pushback : bytes;
  pc_payload_put : bytes;
  pc_native_state : gmap Z PushbackState;
  pc_num : Z;
  pc_ord : Z;
  pc_key_len : Z;
  pc_record_len : Z;
}.

(** The workload is created without puts. *)
Definition PbClient_new (w : Link) (extensions : ExtensionManager) (rng : Rng) (key_rng tenant_rng : Zipf)
    (order_rng : Normal) (resps : Z) (master use_invoke : bool) (key_len value_len reqs number order : Z) :
    PbClient :=
  let (start, net) := rdtsc w.2 in
  mkPbClient (Base_new (w.1, net) extensions) resps start master
    (pc_workload_new key_len value_len 0 rng key_rng tenant_rng order_rng) reqs (negb use_invoke)
    (pushback_payload key_len number order) (put_payload key_len value_len) ∅ number order key_len
    (1 + 8 + key_len + value_len).

Definition pc_with_base (k : PbClient) (b : Base G) : PbClient :=
  mkPbClient b (pc_responses k) (pc_start k) (pc_master k) (pc_workload k) (pc_requests k) (pc_native k)
    (pc_payload_pushback k) (pc_payload_put k) (pc_native_state k) (pc_num k) (pc_ord k) (pc_key_len k)
    (pc_record_len k).

Definition pc_with_workload (k : PbClient) (y : Pushback) (p_get p_put : bytes) : PbClient :=
  mkPbClient (pc_base k) (pc_responses k) (pc_start k) (pc_master k) y (pc_requests k) (pc_native k)
    p_get p_put (pc_native_state k) (pc_num k) (pc_ord k) (pc_key_len k) (pc_record_len k).

Definition pc_with_native (k : PbClient) (m : gmap Z PushbackState) : PbClient :=
  mkPbClient (pc_base k) (pc_responses k) (pc_start k) (pc_master k) (pc_workload k) (pc_requests k)
    (pc_native k) (pc_payload_pushback k) (pc_payload_put k) m (pc_num k) (pc_ord k) (pc_key_len k)
    (pc_record_len k).

Definition pc_on_link (k : PbClient) (f : Link → outcome Link) : outcome PbClient :=
  w ← f (cb_link (pc_base k)); Ret (pc_with_base k (cb_with_link (pc_base k) w)).

Definition pc_count (k : PbClient) (f : Tally → Tally) : PbClient :=
  pc_with_base k (cb_with_tally (pc_base k) (f (cb_tally (pc_base k)))).

(** *** Sending *)

(** A native request starts a chain. *)
Definition pc_send_native (k : PbClient) (op : PushOp) (curr : Z) : outcome PbClient :=
  k ← pc_on_link k (λ w,
    match op with
    | PushGet tenant key _ => send_get w tenant 1 key curr
    | PushPut tenant key val _ => send_put w tenant 1 key val curr
    end);
  Ret (pc_with_native k (<[curr := PushbackState_new]> (pc_native_state k))).

Definition pc_send_invoke (k : PbClient) (op : PushOp) (curr : Z) : outcome PbClient :=
  match op with
  | PushGet tenant key ord =>
      p_get ← (if ORD_DIST then copy_from_slice (pc_payload_pushback k) 20 24 (le_bytes 4 ord)
               else Ret (pc_payload_pushback k));
      x ← slice key 0 4;
      p_get ← copy_from_slice p_get 24 28 x;
      b ← cb_invoke (pc_base k) tenant 8 p_get curr;
      Ret (pc_with_base (pc_with_workload k (pc_workload k) p_get (pc_payload_put k)) b)
  | PushPut tenant key _ _ =>
      x ← slice key 0 4;
      p_put ← copy_from_slice (pc_payload_put k) 18 22 x;
      b ← cb_invoke (pc_base k) tenant 8 p_put curr;
      Ret (pc_with_base (pc_with_workload k (pc_workload k) (pc_payload_pushback k) p_put) b)
  end.

Definition pc_generate (k : PbClient) (curr : Z) : outcome PbClient :=
  '(y, op) ← pc_abc (pc_workload k);
  let k := pc_with_workload k y (pc_payload_pushback k) (pc_payload_put k) in
  if pc_native k then pc_send_native k op curr else pc_send_invoke k op curr.

(** *** Receiving *)

(** A commit is over, whatever its status; the result is its time stamp, too. *)
Definition cb_commit_over (b : Base G) (curr : Z) (packet : Packet UdpHeader) : outcome (Base G * Z) :=
  p ← parse_header CommitResponse packet;
  h ← get_header p;
  let h := commitres_common h in
  let latency := if decide (status h = RpcStatus_u8 StatusTxAbort) then []
                 else if decide (status h = RpcStatus_u8 StatusOk) then [curr -u64 res_stamp h]
                 else [] in
  Ret (cb_free p (cb_with_tally b (tl_one_recvd (cb_tally b) latency)), res_stamp h).

Definition pc_recv_commit (k : PbClient) (curr : Z) (packet : Packet UdpHeader) : outcome PbClient :=
  '(b, timestamp) ← cb_commit_over (pc_base k) curr packet;
  let k := pc_with_base k b in
  Ret (if pc_native k then pc_with_native k (delete timestamp (pc_native_state k)) else k).

(** The response to an invocation: an answer, or the extension comes back. *)
Definition cb_invocation_over (b : Base G) (curr record_len key_len : Z) (packet : Packet UdpHeader) :
    outcome (Base G) :=
  p ← parse_header InvokeResponse packet;
  h ← get_header p;
  let h := invokeres_common h in
  let timestamp := res_stamp h in
  b ←
    (if decide (status h = RpcStatus_u8 StatusOk) then Ret (cb_served b timestamp (curr -u64 timestamp))
     else if decide (status h = RpcStatus_u8 StatusPushback) then
       records ← get_payload p;
       b ← cb_pushed_back b timestamp records record_len key_len;
       Ret (cb_with_tally b (tl_one_less (cb_tally b)))
     else Ret b);
  Ret (cb_free p b).

(** A get that the extension was waiting for. *)
Definition cb_resume_with (b : Base G) (record_len key_len : Z) (packet : Packet UdpHeader) : outcome (Base G) :=
  p ← parse_header GetResponse packet;
  h ← get_header p;
  records ← get_payload p;
  b ← cb_pushed_back b (res_stamp (getres_common h)) records record_len key_len;
  Ret (cb_free p b).

Definition pc_recv_invoke (k : PbClient) (curr : Z) (packet : Packet UdpHeader) : outcome PbClient :=
  opcode ← parse_rpc_opcode packet;
  b ← match opcode with
      | SandstormInvokeRpc => cb_invocation_over (pc_base k) curr (pc_record_len k) (pc_key_len k) packet
      | SandstormGetRpc => cb_resume_with (pc_base k) (pc_record_len k) (pc_key_len k) packet
      | _ => Ret (cb_free packet (pc_base k))
      end;
  Ret (pc_with_base k b).

(** A record of a chain: the next get, or the commit that ends it. *)
Definition pc_follow (k : PbClient) (tenant timestamp : Z) (st : PushbackState) (record : bytes) :
    outcome PbClient :=
  let val_len := wsub 64 (wsub 64 (pc_record_len k) (pc_key_len k)) 9 in
  '(st, next) ← native_next (pc_num k) (pc_key_len k) st record;
  let k := pc_with_native k (<[timestamp := st]> (pc_native_state k)) in
  match next with
  | NextGet key => pc_on_link k (λ w, send_get w tenant 1 key timestamp)
  | NextCommit payload =>
      k ← pc_on_link k (λ w, send_commit w tenant 1 payload timestamp (wrap 16 (pc_key_len k)) (wrap 16 val_len));
      Ret (pc_count k tl_one_less)
  | NextNone => Ret k
  end.

(** A response without a state, or one that is not [StatusOk], is dropped. *)
Definition pc_recv_native (k : PbClient) (packet : Packet UdpHeader) : outcome PbClient :=
  opcode ← parse_rpc_opcode packet;
  match opcode with
  | SandstormGetRpc =>
      p ← parse_header GetResponse packet;
      h ← get_header p;
      let h := getres_common h in
      k ← match pc_native_state k !! res_stamp h with
          | Some st =>
              if decide (status h = RpcStatus_u8 StatusOk) then
                record ← get_payload p; pc_follow k (res_tenant h) (res_stamp h) st record
              else Ret k
          | None => Ret k
          end;
      Ret (pc_with_base k (cb_free p (pc_base k)))
  | _ => Ret (pc_with_base k (cb_free packet (pc_base k)))
  end.

Definition pc_packet (curr : Z) (k : PbClient) (packet : Packet UdpHeader) : outcome PbClient :=
  opcode ← parse_rpc_opcode packet;
  match opcode with
  | SandstormCommitRpc => pc_recv_commit k curr packet
  | _ => if pc_native k then pc_recv_native k packet else pc_recv_invoke k curr packet
  end.

#[export] Instance pc_closed : ClosedClient G PbClient := {|
  cc_base := pc_base;
  cc_with_base := pc_with_base;
  cc_requests := pc_requests;
  cc_responses := pc_responses;
  cc_generate := pc_generate;
  cc_packet := pc_packet;
  cc_clock_each _ := false;
|}.
(** *** Send, recv and Executable::execute *)

Definition pc_send : PbClient → outcome PbClient := cc_send.

Definition pc_recv : PbClient → outcome PbClient := cc_recv.

Definition pc_execute (ext_gen : Extension → ProxyDB → G) (resume : Link → ProxyDB → G → ClientStep Link G) :
    PbClient → outcome PbClient := cc_execute ext_gen resume CL_MAX_CREDIT.
End client.

Arguments PbClient {_ _ _ _} G.
