(* ===== verification/AuthClient.v ===== *)
(** * AuthClient: the client of the extension auth

    Models splinter/src/bin/client/auth.rs.  An invocation carries the name of a
    user and a password whose first sixteen bytes are encrypted; a native client
    gets the user's hash and salt, hashes the password itself and commits.

    AES in IGE mode comes from the crate openssl and is the interface
    [AesEncrypt]: the ciphertext, and the initialisation vector that is left for
    the next call. *)

From stdpp Require Import strings.
From S2P Require Import Prelude Packed Headers Packet Wire Rpc Alloc Tx Bufs Ext Context Task.
From S2P Require Import Dispatch Proxy Client DB Programs Float Kayak Ycsb ClosedLoop PushClient PbClient.

Class AesEncrypt := aes_ige_encrypt : bytes → bytes → bytes → bytes * bytes.

Definition AUTH_RECORD_SIZE : Z := 79.

Section client.
Context `{Network} `{Loader} `{Workloads} `{Crypto} `{AesEncrypt} {G : Type}.

(** ** The workload

    The source repeats the generator of ycsb.rs. *)

Definition Auth_new : Z → Z → Z → Rng → Zipf → Zipf → Ycsb := Ycsb_new.

Definition auth_abc : Ycsb → outcome (Ycsb * YcsbRequest) := ycsb_abc.

(** ** The client *)

(** [au_iv] is the local variable [iv] of [send]. *)
Record AuthClient := mkAuthClient {
  au_base : Base G;
  au_responses : Z;
  au_start : Z;
  au_master : bool;
  au_workload : Ycsb;
  au_requests : Z;
  au_native : bool;
  au_payload_auth : bytes;
  au_payload_put : bytes;
  au_native_state : gmap Z bytes;
  au_key_len : Z;
  au_iv : bytes;
}.

Definition auth_name : bytes := str "auth".

Definition au_auth_payload (key_len value_len : Z) : bytes :=
  resize (auth_name ++ le_bytes 8 1) (len auth_name + 8 + key_len + value_len).

Definition AuthClient_new (w : Link) (extensions : ExtensionManager) (rng : Rng) (key_rng tenant_rng : Zipf)
    (resps : Z) (master use_invoke : bool) (key_len value_len reqs : Z) : AuthClient :=
  let (start, net) := rdtsc w.2 in
  mkAuthClient (Base_new (w.1, net) extensions) resps start master
    (Auth_new key_len value_len 0 rng key_rng tenant_rng) reqs (negb use_invoke)
    (au_auth_payload key_len value_len) (resize [] (len auth_name + 8 + 2 + key_len + value_len)) ∅ key_len [].

Definition au_with_base (k : AuthClient) (b : Base G) : AuthClient :=
  mkAuthClient b (au_responses k) (au_start k) (au_master k) (au_workload k) (au_requests k) (au_native k)
    (au_payload_auth k) (au_payload_put k) (au_native_state k) (au_key_len k) (au_iv k).

Definition au_with_workload (k : AuthClient) (y : Ycsb) (p_get p_put iv : bytes) : AuthClient :=
  mkAuthClient (au_base k) (au_responses k) (au_start k) (au_master k) y (au_requests k) (au_native k)
    p_get p_put (au_native_state k) (au_key_len k) iv.

Definition au_with_native (k : AuthClient) (m : gmap Z bytes) : AuthClient :=
  mkAuthClient (au_base k) (au_responses k) (au_start k) (au_master k) (au_workload k) (au_requests k)
    (au_native k) (au_payload_auth k) (au_payload_put k) m (au_key_len k) (au_iv k).

Definition au_on_link (k : AuthClient) (f : Link → outcome Link) : outcome AuthClient :=
  w ← f (cb_link (au_base k)); Ret (au_with_base k (cb_with_link (au_base k) w)).

Definition au_count (k : AuthClient) (f : Tally → Tally) : AuthClient :=
  au_with_base k (cb_with_tally (au_base k) (f (cb_tally (au_base k)))).

(** *** Sending *)

Definition au_send_native (k : AuthClient) (op : YcsbRequest) (curr : Z) : outcome AuthClient :=
  match op with
  | YGet tenant key =>
      k ← au_on_link k (λ w, send_get w tenant 1 key curr);
      Ret (au_with_native k (<[curr := key]> (au_native_state k)))
  | YPut tenant key val =>
      k ← au_on_link k (λ w, send_put w tenant 1 key val curr);
      Ret (au_with_native k (<[curr := key]> (au_native_state k)))
  end.

(** The payload of an invocation for a key, and the vector for the next one. *)
Definition au_request (p_get iv key : bytes) : outcome (bytes * bytes) :=
  x ← slice key 0 4;
  p_get ← copy_from_slice p_get 12 16 x;
  plain ← slice key 0 16;
  let (output, iv) := aes_ige_encrypt auth_key iv plain in
  p_get ← copy_from_slice p_get 42 58 output;
  Ret (p_get, iv).

Definition au_send_invoke (k : AuthClient) (op : YcsbRequest) (curr : Z) : outcome AuthClient :=
  match op with
  | YGet tenant key =>
      '(p_get, iv) ← au_request (au_payload_auth k) (au_iv k) key;
      b ← cb_invoke (au_base k) tenant 4 p_get curr;
      Ret (au_with_base (au_with_workload k (au_workload k) p_get (au_payload_put k) iv) b)
  | YPut tenant key _ =>
      x ← slice key 0 4;
      p_put ← copy_from_slice (au_payload_put k) 18 22 x;
      b ← cb_invoke (au_base k) tenant 4 p_put curr;
      Ret (au_with_base (au_with_workload k (au_workload k) (au_payload_auth k) p_put (au_iv k)) b)
  end.

Definition au_generate (k : AuthClient) (curr : Z) : outcome AuthClient :=
  '(y, op) ← auth_abc (au_workload k);
  let k := au_with_workload k y (au_payload_auth k) (au_payload_put k) (au_iv k) in
  if au_native k then au_send_native k op curr else au_send_invoke k op curr.

(** *** Receiving *)

Definition au_recv_invoke (k : AuthClient) (curr : Z) (packet : Packet UdpHeader) : outcome AuthClient :=
  opcode ← parse_rpc_opcode packet;
  b ← match opcode with
      | SandstormInvokeRpc => cb_invocation_over (au_base k) curr AUTH_RECORD_SIZE (au_key_len k) packet
      | _ => Ret (cb_free packet (au_base k))
      end;
  Ret (au_with_base k b).

(** The password that the client hashes: the key that it asked for, and zeros. *)
Definition au_password (known : option bytes) : outcome bytes :=
  let password := replicate 72 0 in
  match known with
  | Some key => copy_from_slice password 0 30 key
  | None => Ret password
  end.

(** The user's hash and salt; [inl] when the value has not their size.  The
    outcome of the comparison is thrown away by the source, and is the result
    here. *)
Definition au_check (k : AuthClient) (timestamp : Z) (payload : bytes) : outcome (option bool) :=
  '(_, value) ← split_at payload (au_key_len k + 9);
  if decide (len value ≠ 40) then Ret None
  else
    password ← au_password (au_native_state k !! timestamp);
    hash ← slice value 0 24;
    salt ← slice value 24 40;
    Ret (Some (bool_decide (bcrypt 1 salt password = hash))).

Definition au_recv_native (k : AuthClient) (packet : Packet UdpHeader) : outcome AuthClient :=
  opcode ← parse_rpc_opcode packet;
  match opcode with
  | SandstormGetRpc =>
      p ← parse_header GetResponse packet;
      h ← get_header p;
      let h := getres_common h in
      k ←
        (if decide (status h = RpcStatus_u8 StatusOk) then
           payload ← get_payload p;
           r ← au_check k (res_stamp h) payload;
           match r with
           | None => Ret k
           | Some _ =>
               k ← au_on_link k (λ w, send_commit w (res_tenant h) 1 payload (res_stamp h) 30 40);
               Ret (au_count (au_with_native k (delete (res_stamp h) (au_native_state k))) tl_one_less)
           end
         else Ret (au_count k tl_one_less));
      Ret (au_with_base k (cb_free p (au_base k)))
  | _ => Ret (au_with_base k (cb_free packet (au_base k)))
  end.

Definition au_packet (curr : Z) (k : AuthClient) (packet : Packet UdpHeader) : outcome AuthClient :=
  opcode ← parse_rpc_opcode packet;
  match opcode with
  | SandstormCommitRpc =>
      '(b, _) ← cb_commit_over (au_base k) curr packet;
      Ret (au_with_base k b)
  | _ => if au_native k then au_recv_native k packet else au_recv_invoke k curr packet
  end.

#[export] Instance au_closed : ClosedClient G AuthClient := {|
  cc_base := au_base;
  cc_with_base := au_with_base;
  cc_requests := au_requests;
  cc_responses := au_responses;
  cc_generate := au_generate;
  cc_packet := au_packet;
  cc_clock_each _ := false;
|}.

(** A burst starts from the fixed vector. *)
Definition au_send (k : AuthClient) : outcome AuthClient :=
  cc_send (au_with_workload k (au_workload k) (au_payload_auth k) (au_payload_put k) auth_iv).

Definition au_recv : AuthClient → outcome AuthClient := cc_recv.

Context (ext_gen : Extension → ProxyDB → G) (resume : Link → ProxyDB → G → ClientStep Link G).

Definition au_execute (k : AuthClient) : outcome AuthClient :=
  k ← au_send k;
  k ← au_recv k;
  cc_execute_one ext_gen resume k.
End client.

Arguments AuthClient {_ _ _} G.
