(* ===== verification/ChecksumClient.v ===== *)
(** * ChecksumClient: the client of the extension checksum

    Models splinter/src/bin/client/checksum.rs.  The value of a key is a list of
    keys; the objects under these are digested, by the extension, or by the
    client, which gets the list, then its objects, and commits.  The digests come
    from a crate and are part of the interface [Crypto]. *)

From stdpp Require Import strings.
From S2P Require Import Prelude Packed Headers Packet Wire Rpc Alloc Tx Bufs Ext Context Task.
From S2P Require Import Dispatch Proxy Client DB Programs Float Kayak ClosedLoop.

Definition CHECKSUM_ALGO : Z := 1.

Section client.
Context `{Network} `{Loader} `{Workloads} `{Crypto} {G : Type}.

(** ** The workload

    The source repeats the generator of ycsb-t-kayak.rs. *)

Definition CHECKSUM_new : Z → Z → Rng → Zipf → Zipf → YCSBT := YCSBT_new.

Definition checksum_abc : YCSBT → outcome (YCSBT * YcsbOp) := abc.

(** ** The client *)

Record ChecksumClient := mkChecksumClient {
  ck_base : Base G;
  ck_responses : Z;
  ck_begin : Z;
  ck_master : bool;
  ck_workload : YCSBT;
  ck_requests : Z;
  ck_native : bool;
  ck_invoke_get : bytes;
  ck_num : Z;
  ck_table_id : Z;
  ck_name_length : Z;
}.

Definition checksum_name : bytes := str "checksum".

(** The placeholder for the key has eight bytes, whatever the length of the keys
    is. *)
Definition ck_payload (key_len num : Z) : bytes :=
  resize (checksum_name ++ le_bytes 8 1 ++ le_bytes 4 num ++ replicate 8 0 ++ [CHECKSUM_ALGO])
    (len checksum_name + 8 + 4 + key_len + 1).

(** The workload is created without puts. *)
Definition ChecksumClient_new (w : Link) (extensions : ExtensionManager) (rng : Rng)
    (key_rng tenant_rng : Zipf) (resps : Z) (master use_invoke : bool) (key_len reqs num : Z) :
    ChecksumClient :=
  let (start, net) := rdtsc w.2 in
  mkChecksumClient (Base_new (w.1, net) extensions) resps start master
    (CHECKSUM_new key_len 0 rng key_rng tenant_rng) reqs (negb use_invoke) (ck_payload key_len num) num 1
    (len checksum_name).

Definition ck_with_base (k : ChecksumClient) (b : Base G) : ChecksumClient :=
  mkChecksumClient b (ck_responses k) (ck_begin k) (ck_master k) (ck_workload k) (ck_requests k)
    (ck_native k) (ck_invoke_get k) (ck_num k) (ck_table_id k) (ck_name_length k).

Definition ck_with_workload (k : ChecksumClient) (y : YCSBT) (p_get : bytes) : ChecksumClient :=
  mkChecksumClient (ck_base k) (ck_responses k) (ck_begin k) (ck_master k) y (ck_requests k)
    (ck_native k) p_get (ck_num k) (ck_table_id k) (ck_name_length k).

Definition ck_on_link (k : ChecksumClient) (f : Link → outcome Link) : outcome ChecksumClient :=
  w ← f (cb_link (ck_base k)); Ret (ck_with_base k (cb_with_link (ck_base k) w)).

Definition ck_count (k : ChecksumClient) (f : Tally → Tally) : ChecksumClient :=
  ck_with_base k (cb_with_tally (ck_base k) (f (cb_tally (ck_base k)))).

(** *** Sending *)

(** A request for two keys is not sent, but counts as one. *)
Definition ck_generate (k : ChecksumClient) (curr : Z) : outcome ChecksumClient :=
  '(y, op) ← checksum_abc (ck_workload k);
  let k := ck_with_workload k y (ck_invoke_get k) in
  match op with
  | OpGet tenant key =>
      if ck_native k then ck_on_link k (λ w, send_get w tenant (ck_table_id k) key curr)
      else
        x ← slice key 0 4;
        p_get ← copy_from_slice (ck_invoke_get k) 20 24 x;
        b ← cb_invoke (ck_base k) tenant (ck_name_length k) p_get curr;
        Ret (ck_with_base (ck_with_workload k y p_get) b)
  | OpMulti _ _ => Ret k
  end.

(** *** Native transactions *)

(** What the generator of [execute_task] returns; anything but 0 is a panic. *)
Definition checksum_generator (records : bytes) : outcome Z :=
  rs ← chunks records 139;
  r ← ofold (λ (r : Z + Z) record,
    match r with
    | inr code => Ret (inr code)
    | inl aggr =>
        '(_, vals) ← split_at record 39;
        if decide (len vals = 100) then
          result ← expect (ck_digest CHECKSUM_ALGO vals);
          b ← index result 0;
          Ret (inl (aggr +u64 b))
        else Ret (inr 2)
    end) (inl 0) rs;
  Ret (match r with inl _ => 0 | inr code => code end).

Definition checksum_execute_task (records : bytes) : outcome unit :=
  val ← checksum_generator records;
  assert_ (val = 0).

Definition ck_process_multiget_response (k : ChecksumClient) (p : Packet MultiGetResponse) :
    outcome ChecksumClient :=
  h ← get_header p;
  records ← get_payload p;
  _ ← checksum_execute_task records;
  ck_on_link k (λ w, send_commit w (res_tenant (mgetres_common h)) (ck_table_id k) records
    (res_stamp (mgetres_common h)) 30 100).

(** *** Receiving *)

Definition ck_free {T} (p : Packet T) (k : ChecksumClient) : ChecksumClient :=
  ck_with_base k (cb_free p (ck_base k)).

(** The keys in the record of a list. *)
Definition ck_list_keys (num : Z) (record : bytes) : outcome bytes :=
  '(_, keys) ← split_at record 17;
  '(keys, _) ← split_at keys (num * 30);
  Ret keys.

Definition ck_recv_native (k : ChecksumClient) (packet : Packet UdpHeader) : outcome ChecksumClient :=
  opcode ← parse_rpc_opcode packet;
  match opcode with
  | SandstormGetRpc =>
      p ← parse_header GetResponse packet;
      h ← get_header p;
      let h := getres_common h in
      k ← (if decide (status h = RpcStatus_u8 StatusOk) then
             record ← get_payload p;
             keys ← ck_list_keys (ck_num k) record;
             ck_on_link k (λ w,
               send_multiget w (res_tenant h) (ck_table_id k) 30 (ck_num k) keys (res_stamp h))
           else Ret k);
      Ret (ck_free p k)
  | SandstormMultiGetRpc =>
      p ← parse_header MultiGetResponse packet;
      h ← get_header p;
      k ← (if decide (status (mgetres_common h) = RpcStatus_u8 StatusOk)
           then ck_process_multiget_response k p else Ret k);
      Ret (ck_free p k)
  | _ => Ret (ck_free packet k)
  end.

(** A pushed-back extension is outstanding until its commit is answered. *)
Definition ck_recv_invoke (k : ChecksumClient) (curr : Z) (packet : Packet UdpHeader) :
    outcome ChecksumClient :=
  opcode ← parse_rpc_opcode packet;
  match opcode with
  | SandstormInvokeRpc =>
      p ← parse_header InvokeResponse packet;
      h ← get_header p;
      let h := invokeres_common h in
      let timestamp := res_stamp h in
      k ←
        (if decide (status h = RpcStatus_u8 StatusOk) then
           Ret (ck_with_base k (cb_served (ck_base k) timestamp (curr -u64 timestamp)))
         else if decide (status h = RpcStatus_u8 StatusPushback) then
           records ← get_payload p;
           b ← cb_pushed_back (ck_base k) timestamp records 139 30;
           Ret (ck_with_base k b)
         else if decide (status h = RpcStatus_u8 StatusTxAbort) then
           pl ← get_payload p;
           let k := ck_count k (λ n, tl_one_aborted n 0) in
           ck_on_link k (λ w, send_invoke w (res_tenant h) (ck_name_length k) pl timestamp)
         else Ret k);
      Ret (ck_free p k)
  | _ => Ret (ck_free packet k)
  end.

(** An aborted transaction is over, too. *)
Definition ck_recv_commit (k : ChecksumClient) (curr : Z) (packet : Packet UdpHeader) :
    outcome ChecksumClient :=
  p ← parse_header CommitResponse packet;
  h ← get_header p;
  let h := commitres_common h in
  let k :=
    if decide (status h = RpcStatus_u8 StatusTxAbort) then ck_count k (λ n, tl_one_aborted n 0)
    else if decide (status h = RpcStatus_u8 StatusOk)
         then ck_count k (λ n, tl_one_recvd n [curr -u64 res_stamp h])
    else k in
  Ret (ck_free p (ck_count k tl_one_less)).

Definition ck_packet (curr : Z) (k : ChecksumClient) (packet : Packet UdpHeader) : outcome ChecksumClient :=
  opcode ← parse_rpc_opcode packet;
  match opcode with
  | SandstormCommitRpc => ck_recv_commit k curr packet
  | _ => if ck_native k then ck_recv_native k packet else ck_recv_invoke k curr packet
  end.

#[export] Instance ck_closed : ClosedClient G ChecksumClient := {|
  cc_base := ck_base;
  cc_with_base := ck_with_base;
  cc_requests := ck_requests;
  cc_responses := ck_responses;
  cc_generate := ck_generate;
  cc_packet := ck_packet;
  cc_clock_each _ := false;
|}.
(** *** Send, recv and Executable::execute *)

Definition ck_send : ChecksumClient → outcome ChecksumClient := cc_send.

Definition ck_recv : ChecksumClient → outcome ChecksumClient := cc_recv.

Definition ck_execute (ext_gen : Extension → ProxyDB → G) (resume : Link → ProxyDB → G → ClientStep Link G) :
    ChecksumClient → outcome ChecksumClient := cc_execute ext_gen resume CL_MAX_CREDIT.
End client.

Arguments ChecksumClient {_ _ _} G.
