(* ===== verification/YcsbAbce.v ===== *)
(** * YcsbAbce: the closed-loop YCSB client

    Models splinter/src/bin/client/ycsb-abce.rs: the workloads of file [Ycsb],
    with range scans, by a client that keeps 32 requests outstanding.  It takes no
    extensions back. *)

From stdpp Require Import strings.
From S2P Require Import Prelude Packed Headers Packet Wire Rpc Alloc Tx Bufs Ext Context Task.
From S2P Require Import Dispatch Proxy Client DB Programs Float Kayak Ycsb ClosedLoop.

Section client.
Context `{Network} `{Workloads}.

(** The source repeats the generator of ycsb.rs. *)
Definition ab_workload_new : Z → Z → Z → Rng → Zipf → Zipf → Ycsb := Ycsb_new.

Definition ab_abc : Ycsb → outcome (Ycsb * YcsbRequest) := ycsb_abc.

Record YcsbABCE := mkYcsbABCE {
  ab_link : Link;
  ab_receiver : Receiver;
  ab_tally : Tally;
  ab_responses : Z;
  ab_start : Z;
  ab_master : bool;
  ab_workload : Ycsb;
  ab_requests : Z;
  ab_native : bool;
  ab_payload_get : bytes;
  ab_payload_put : bytes;
  ab_payload_scan : bytes;
  ab_enable_scan : bool;
}.

Definition ab_scan_payload (key_len range : Z) : bytes :=
  resize (str "scan" ++ le_bytes 8 1 ++ le_bytes 4 range) (len (str "scan") + 8 + 4 + key_len).

Definition YcsbABCE_new (w : Link) (y : Ycsb) (resps : Z) (master use_invoke enable_scan : bool)
    (key_len value_len scan_range reqs : Z) : YcsbABCE :=
  let (start, net) := rdtsc w.2 in
  mkYcsbABCE (w.1, net) Receiver_new Tally_new resps start master y reqs (negb use_invoke)
    (ys_get_payload key_len) (ys_put_payload key_len value_len) (ab_scan_payload key_len scan_range)
    enable_scan.

Definition ab_with (k : YcsbABCE) (w : Link) (n : Tally) : YcsbABCE :=
  mkYcsbABCE w (ab_receiver k) n (ab_responses k) (ab_start k) (ab_master k) (ab_workload k)
    (ab_requests k) (ab_native k) (ab_payload_get k) (ab_payload_put k) (ab_payload_scan k)
    (ab_enable_scan k).

Definition ab_with_workload (k : YcsbABCE) (y : Ycsb) (p_get p_put p_scan : bytes) : YcsbABCE :=
  mkYcsbABCE (ab_link k) (ab_receiver k) (ab_tally k) (ab_responses k) (ab_start k) (ab_master k) y
    (ab_requests k) (ab_native k) p_get p_put p_scan (ab_enable_scan k).

(** *** Sending *)

(** An invocation: the length of the extension's name, and the payload. *)
Definition ab_invocation (k : YcsbABCE) (op : YcsbRequest) : outcome (YcsbABCE * (Z * Z * bytes)) :=
  let y := ab_workload k in
  match op with
  | YGet tenant key =>
      x ← slice key 0 4;
      if ab_enable_scan k then
        p_scan ← copy_from_slice (ab_payload_scan k) 16 20 x;
        Ret (ab_with_workload k y (ab_payload_get k) (ab_payload_put k) p_scan, (tenant, 4, p_scan))
      else
        p_get ← copy_from_slice (ab_payload_get k) 11 15 x;
        Ret (ab_with_workload k y p_get (ab_payload_put k) (ab_payload_scan k), (tenant, 3, p_get))
  | YPut tenant key _ =>
      x ← slice key 0 4;
      p_put ← copy_from_slice (ab_payload_put k) 13 17 x;
      Ret (ab_with_workload k y (ab_payload_get k) p_put (ab_payload_scan k), (tenant, 3, p_put))
  end.

Definition ab_send_one (k : YcsbABCE) : outcome YcsbABCE :=
  let (curr, net) := rdtsc (ab_link k).2 in
  let w := ((ab_link k).1, net) in
  '(y, op) ← ab_abc (ab_workload k);
  let k := ab_with_workload k y (ab_payload_get k) (ab_payload_put k) (ab_payload_scan k) in
  '(k, w) ←
    (if ab_native k then w ← ys_native_request w op curr; Ret (k, w)
     else
       '(k, (tenant, name, payload)) ← ab_invocation k op;
       w ← send_invoke w tenant name payload curr;
       Ret (k, w));
  Ret (ab_with k w (tl_one_sent (ab_tally k))).

Definition ab_may_send (k : YcsbABCE) : bool := bool_decide (tl_outstanding (ab_tally k) < 32).

(** Every turn adds an outstanding request. *)
Definition ab_send (k : YcsbABCE) : outcome YcsbABCE :=
  if decide (ab_requests k <= tl_sent (ab_tally k)) then Ret k
  else while_loop ab_may_send ab_send_one 32 k.

(** *** Receiving *)

(** A response counts, with its latency, and gives its credit back. *)
Definition ab_answered (k : YcsbABCE) (m : MBuf) (curr stamp : Z) : YcsbABCE :=
  let n := ab_tally k in
  let n := mkTally (tl_recvd n) (tl_aborted n) (tl_latencies n ++ [curr -u64 stamp]) (tl_stop n) (tl_sent n)
             (tl_finished n) (tl_outstanding n) in
  ab_with k ((ab_link k).1, mbuf_free m (ab_link k).2) (tl_one_less n).

(** The response to an invocation is not looked at.  The response to the first
    get of a native scan is dropped without being freed. *)
Definition ab_packet (k : YcsbABCE) (packet : Packet UdpHeader) : outcome YcsbABCE :=
  let k := ab_with k (ab_link k) (tl_one_recvd (ab_tally k) []) in
  let (curr, net) := rdtsc (ab_link k).2 in
  let k := ab_with k ((ab_link k).1, net) (ab_tally k) in
  if ab_native k then
    opcode ← parse_rpc_opcode packet;
    match opcode with
    | SandstormGetRpc =>
        if ab_enable_scan k then Ret (ab_with k (ab_link k) (tl_one_less (ab_tally k)))
        else
          p ← parse_header GetResponse packet;
          h ← get_header p;
          Ret (ab_answered k (mbuf p) curr (res_stamp (getres_common h)))
    | SandstormPutRpc =>
        p ← parse_header PutResponse packet;
        h ← get_header p;
        Ret (ab_answered k (mbuf p) curr (res_stamp (putres_common h)))
    | _ => Ret (ab_with k ((ab_link k).1, mbuf_free (mbuf packet) (ab_link k).2) (ab_tally k))
    end
  else
    p ← parse_header InvokeResponse packet;
    h ← get_header p;
    Ret (ab_answered k (mbuf p) curr (res_stamp (invokeres_common h))).

Definition ab_recv (k : YcsbABCE) : outcome YcsbABCE :=
  let n := ab_tally k in
  if decide (ab_responses k <= tl_recvd n) then
    Ret (ab_with k (ab_link k)
           (mkTally (tl_recvd n) (tl_aborted n) (tl_latencies n) (tl_stop n) (tl_sent n) true (tl_outstanding n)))
  else
    '(rc, net, packets) ← recv_res (ab_receiver k) (ab_link k).2;
    let k := mkYcsbABCE ((ab_link k).1, net) rc n (ab_responses k) (ab_start k) (ab_master k)
               (ab_workload k) (ab_requests k) (ab_native k) (ab_payload_get k) (ab_payload_put k)
               (ab_payload_scan k) (ab_enable_scan k) in
    k ← match packets with
        | Some packets => ofold ab_packet k (rev packets)
        | None => Ret k
        end;
    let n := ab_tally k in
    if decide (ab_responses k <= tl_recvd n) then
      let (now, net) := rdtsc (ab_link k).2 in
      Ret (ab_with k ((ab_link k).1, net)
             (mkTally (tl_recvd n) (tl_aborted n) (tl_latencies n) now (tl_sent n) (tl_finished n)
                (tl_outstanding n)))
    else Ret k.

(** *** Executable::execute *)

Definition ab_execute (k : YcsbABCE) : outcome YcsbABCE := k ← ab_send k; ab_recv k.
End client.
