(* ===== verification/RateClients.v ===== *)
(** * RateClients: the clients with misbehaving extensions

    Models splinter/src/bin/client/long.rs and bad.rs: invocations of the
    extension get at a fixed rate, a few of them replaced by the extension long,
    which does not yield, or bad, which does not return.  The two sources differ
    in the name, the resolution of the coin and the payload. *)

From stdpp Require Import strings.
From S2P Require Import Prelude Packed Headers Packet Wire Rpc Alloc Tx Bufs Ext Context Task.
From S2P Require Import Dispatch Proxy Client DB Programs Float Kayak Ycsb.

Section clients.
Context `{Network} `{Workloads}.

(** ** The workload *)

Record Long := mkLong {
  lo_pct : Z;
  lo_rng : Rng;
  lo_key_rng : Zipf;
  lo_tenant_rng : Zipf;
  lo_key_buf : bytes;
}.

Definition Long_new (key_len pct : Z) (rng : Rng) (key_rng tenant_rng : Zipf) : Long :=
  mkLong pct rng key_rng tenant_rng (replicate (Z.to_nat key_len) 0).

(** Whether the request is a plain get, its tenant and its key. *)
Definition mix_abc (resolution : Z) (y : Long) : outcome (Long * (bool * Z * bytes)) :=
  let (r, rng) := gen_u32 (lo_rng y) in
  let is_get := bool_decide (r mod resolution >= wrap 32 (lo_pct y)) in
  let '(t, tenant_rng, rng) := zipf_sample (lo_tenant_rng y) rng in
  let '(k, key_rng, rng) := zipf_sample (lo_key_rng y) rng in
  key_buf ← copy_from_slice (lo_key_buf y) 0 4 (le_bytes 4 (wrap 32 k));
  Ret (mkLong (lo_pct y) rng key_rng tenant_rng key_buf, (is_get, wrap 32 t, key_buf)).

Definition long_abc : Long → outcome (Long * (bool * Z * bytes)) := mix_abc 100.

(** A [Bad] has the same fields, and counts in ten millionths. *)
Definition Bad : Type := Long.

Definition Bad_new : Z → Z → Rng → Zipf → Zipf → Bad := Long_new.

Definition bad_abc : Bad → outcome (Bad * (bool * Z * bytes)) := mix_abc 10000000.

(** ** The senders *)

Record LongSend := mkLongSend {
  ls_workload : Long;
  ls_link : Link;
  ls_requests : Z;
  ls_sent : Z;
  ls_rate_inv : Z;
  ls_start : Z;
  ls_next : Z;
  ls_payload_get : bytes;
  ls_payload_long : bytes;
}.

(** The other payload is that of bad. *)
Definition BadSend : Type := LongSend.

Definition long_payload (key_len yield_f : Z) : bytes :=
  resize (str "long" ++ le_bytes 8 1 ++ le_bytes 1 yield_f) (len (str "long") + 8 + 1 + key_len).

Definition bad_payload (key_len : Z) : bytes :=
  resize (str "bad" ++ le_bytes 8 1) (len (str "bad") + 8 + key_len).

(** A rate of zero divides by zero. *)
Definition rate_sender_new (w : Link) (y : Long) (cycles_per_second req_rate reqs key_len : Z)
    (payload : bytes) : outcome LongSend :=
  _ ← assert_ (req_rate ≠ 0);
  let (start, net) := rdtsc w.2 in
  Ret (mkLongSend y (w.1, net) reqs 0 (cycles_per_second / req_rate) start 0 (ys_get_payload key_len) payload).

Definition LongSend_new (w : Link) (y : Long) (cycles_per_second req_rate reqs key_len yield_f : Z) :
    outcome LongSend :=
  rate_sender_new w y cycles_per_second req_rate reqs key_len (long_payload key_len yield_f).

Definition BadSend_new (w : Link) (y : Bad) (cycles_per_second req_rate reqs key_len : Z) :
    outcome BadSend :=
  rate_sender_new w y cycles_per_second req_rate reqs key_len (bad_payload key_len).

(** The payload of an invocation gets the first four bytes of the key at [at]. *)
Definition rate_request (payload key : bytes) (at_ : Z) : outcome bytes :=
  x ← slice key 0 4;
  copy_from_slice payload at_ (at_ + 4) x.

(** The other extension has a name of [name] bytes, and its key at [at_]. *)
Definition rate_execute (abc : Long → outcome (Long * (bool * Z * bytes))) (name at_ : Z) (s : LongSend) :
    outcome LongSend :=
  if decide (ls_requests s <= ls_sent s) then Ret s
  else
    let (curr, net) := rdtsc (ls_link s).2 in
    let w := ((ls_link s).1, net) in
    if decide (curr >= ls_next s ∨ ls_next s = 0) then
      '(y, (is_get, tenant, key)) ← abc (ls_workload s);
      '(w, p_get, p_long) ←
        (if is_get : bool then
           p_get ← rate_request (ls_payload_get s) key 11;
           w ← send_invoke w tenant 3 p_get curr;
           Ret (w, p_get, ls_payload_long s)
         else
           p_long ← rate_request (ls_payload_long s) key at_;
           w ← send_invoke w tenant name p_long curr;
           Ret (w, ls_payload_get s, p_long));
      let sent := ls_sent s +u64 1 in
      Ret (mkLongSend y w (ls_requests s) sent (ls_rate_inv s) (ls_start s)
             (ls_start s +u64 wmul 64 sent (ls_rate_inv s)) p_get p_long)
    else
      Ret (mkLongSend (ls_workload s) w (ls_requests s) (ls_sent s) (ls_rate_inv s) (ls_start s)
             (ls_next s) (ls_payload_get s) (ls_payload_long s)).

Definition LongSend_execute : LongSend → outcome LongSend := rate_execute long_abc 4 13.

Definition BadSend_execute : BadSend → outcome BadSend := rate_execute bad_abc 3 11.

(** ** The receivers

    They are the receiver of file [Ycsb] for invocations. *)

Definition LongRecv_new (net : Net) (resps : Z) (master : bool) : YcsbRecv * Net :=
  YcsbRecv_new net resps master false.

Definition LongRecv_execute : YcsbRecv → Net → outcome (YcsbRecv * Net) := yr_execute.

Definition BadRecv_new : Net → Z → bool → YcsbRecv * Net := LongRecv_new.

Definition BadRecv_execute : YcsbRecv → Net → outcome (YcsbRecv * Net) := yr_execute.
End clients.
