(* ===== verification/ClosedSpecs.v ===== *)
(** * ClosedSpecs: the window of the closed-loop clients *)

From S2P Require Import Prelude Packed Headers Packet Wire Rpc Alloc Tx Bufs Ext Context Task.
From S2P Require Import Dispatch DispatchSpecs Proxy Client DB Programs ExtSpecs Float.
From S2P Require Import Kayak KayakSpecs PushClient PushSpecs LoadClient YcsbtWork LoadSpecs Ycsb HandlerSpecs.
From S2P Require Import ClosedLoop YtClient PbClient AuthClient ChecksumClient YcsbAbce.

(** ** Laws of the interface *)

Section laws.
Context `{Network} `{Loader} {G : Type}.

(** Sending a request leaves the counters, and the tasks that are ready, alone;
    receiving a packet leaves the number of requests sent alone. *)
Class ClosedLaws (K : Type) `{!ClosedClient G K} := {
  cc_base_with : ∀ k b, cc_base (cc_with_base k b) = b;
  cc_requests_with : ∀ k b, cc_requests (cc_with_base k b) = cc_requests k;
  cc_generate_law : ∀ k curr k', cc_generate k curr = Ret k' →
    cc_requests k' = cc_requests k ∧ cc_tally k' = cc_tally k ∧ cc_queue k' = cc_queue k;
  cc_packet_law : ∀ curr k p k', cc_packet curr k p = Ret k' →
    cc_requests k' = cc_requests k ∧ tl_sent (cc_tally k') = tl_sent (cc_tally k) ∧
    (in_width 64 (tl_outstanding (cc_tally k)) → in_width 64 (tl_outstanding (cc_tally k')));
}.

Context {K : Type} `{ClosedLaws K}.
Implicit Types k : K.

Definition cc_room k : nat := Z.to_nat (Z.of_nat CL_MAX_CREDIT - tl_outstanding (cc_tally k)).

Definition cc_turns (n : nat) k : outcome K := ofold (λ k _, cc_send_one k) k (seq 0 n).

Record cc_sent_more k k' (d : Z) : Prop := {
  cs_requests : cc_requests k' = cc_requests k;
  cs_queue : cc_queue k' = cc_queue k;
  cs_sent : tl_sent (cc_tally k') = tl_sent (cc_tally k) +u64 d;
  cs_out : tl_outstanding (cc_tally k') = tl_outstanding (cc_tally k) +u64 d;
}.

Lemma cc_count_tally k f : cc_tally (cc_count k f) = f (cc_tally k).
Proof. unfold cc_count, cc_tally. by rewrite cc_base_with. Qed.

Lemma cc_count_queue k f : cc_queue (cc_count k f) = cc_queue k.
Proof. unfold cc_count, cc_queue. by rewrite cc_base_with. Qed.

Lemma cc_count_requests k f : cc_requests (cc_count k f) = cc_requests k.
Proof. apply cc_requests_with. Qed.

Lemma cb_clock_base (b : Base G) :
  cb_tally (cb_clock b).2 = cb_tally b ∧ cb_manager (cb_clock b).2 = cb_manager b.
Proof. unfold cb_clock. by destruct (rdtsc _). Qed.

Lemma cc_send_one_more k k' : cc_send_one k = Ret k' → cc_sent_more k k' 1.
Proof.
  unfold cc_send_one. pose proof (cb_clock_base (cc_base k)) as [Ht Hm].
  destruct (cb_clock (cc_base k)) as [curr b]. cbn [snd] in Ht, Hm. intros Hk. inv_outcome.
  match goal with Hg : cc_generate _ _ = Ret _ |- _ => apply cc_generate_law in Hg as (Hr & Hta & Hq) end.
  unfold cc_tally, cc_queue in Hta, Hq. rewrite cc_base_with in Hta, Hq. rewrite cc_requests_with in Hr.
  split; rewrite ?cc_count_requests, ?cc_count_queue, ?cc_count_tally; unfold cc_queue, cc_tally; cbn.
  - done.
  - by rewrite Hq, Hm.
  - by rewrite Hta, Ht.
  - by rewrite Hta, Ht.
Qed.

(** The queue is not full. *)
Definition cc_open k : Prop := cc_queue k < Z.of_nat CL_MAX_CREDIT.

Lemma cc_may_send_room k : cc_open k → cc_may_send k = bool_decide (cc_room k ≠ 0%nat).
Proof.
  unfold cc_may_send, cc_open, cc_room. change (Z.of_nat CL_MAX_CREDIT) with 32. intros Hq.
  rewrite (bool_decide_true (cc_queue k < 32)), andb_true_r by done. apply bool_decide_ext. lia.
Qed.

Lemma cc_turns_more n k k' :
  in_width 64 (tl_outstanding (cc_tally k)) → in_width 64 (tl_sent (cc_tally k)) →
  cc_turns n k = Ret k' → cc_sent_more k k' (Z.of_nat n).
Proof.
  unfold cc_turns. generalize 0%nat. revert k. induction n as [|n IH]; intros k i Ho Hs; cbn [seq ofold].
  - intros [= <-]. split; try done; by rewrite wadd_id; rewrite Z.add_0_r.
  - destruct (cc_send_one k) as [k1| |] eqn:E; cbn [mbind outcome_bind]; [|done..]. intros Hk.
    apply cc_send_one_more in E as [Hr1 Hq1 Hs1 Ho1].
    apply IH in Hk as [Hr2 Hq2 Hs2 Ho2]; [|rewrite ?Ho1, ?Hs1; apply wrap_range; lia..].
    split; try congruence.
    + rewrite Hs2, Hs1, wadd_assoc by lia. f_equal. lia.
    + rewrite Ho2, Ho1, wadd_assoc by lia. f_equal. lia.
Qed.

Lemma cc_send_turns k :
  tl_sent (cc_tally k) < cc_requests k → in_width 64 (tl_outstanding (cc_tally k)) → cc_open k →
  cc_send k = cc_turns (cc_room k) k.
Proof.
  intros Hs Ho Hq. unfold cc_send. rewrite decide_False by lia. unfold cc_turns.
  apply (while_loop_turns cc_may_send cc_send_one
    (λ k, in_width 64 (tl_outstanding (cc_tally k)) ∧ cc_open k)).
  - intros k1 [_ Hq1]. by apply cc_may_send_room.
  - intros k1 k2 [Ho1 Hq1] Hr Hk. apply cc_send_one_more in Hk as [_ Hq2 _ Ho2].
    unfold cc_room, cc_open in *. rewrite Hq2. change (Z.of_nat CL_MAX_CREDIT) with 32 in *.
    rewrite wadd_id in Ho2 by (unfold in_width in *; lia). rewrite Ho2.
    split; [split; [unfold in_width in *; lia|done]|lia].
  - done.
  - unfold cc_room, in_width in *. lia.
Qed.

Lemma cc_send_closed k : cc_may_send k = false → cc_send k = Ret k.
Proof. intros Hm. unfold cc_send. case_decide; [done|]. cbn [while_loop CL_MAX_CREDIT]. by rewrite Hm. Qed.

(** A call of [send], as a whole. *)
Lemma cc_send_spec k k' :
  in_width 64 (tl_outstanding (cc_tally k)) → in_width 64 (tl_sent (cc_tally k)) → cc_send k = Ret k' →
  cc_requests k' = cc_requests k ∧ cc_queue k' = cc_queue k ∧
  let d := if decide (tl_sent (cc_tally k) < cc_requests k ∧ cc_open k) then Z.of_nat (cc_room k) else 0 in
  tl_outstanding (cc_tally k') = tl_outstanding (cc_tally k) + d ∧
  tl_sent (cc_tally k') = tl_sent (cc_tally k) +u64 d.
Proof.
  intros Ho Hs Hk. cbn zeta. case_decide as Hd.
  - destruct Hd as [Hr Hq]. rewrite cc_send_turns in Hk by done.
    apply cc_turns_more in Hk as [Hr' Hq' Hs' Ho']; [|done..]. split_and!; [done..| |done].
    rewrite Ho'. apply wadd_id. unfold cc_room, in_width in *. change (Z.of_nat CL_MAX_CREDIT) with 32. lia.
  - assert (cc_send k = Ret k) as Hn.
    { destruct (decide (cc_requests k <= tl_sent (cc_tally k))).
      - unfold cc_send. by rewrite decide_True.
      - apply cc_send_closed. unfold cc_may_send. apply andb_false_intro2, bool_decide_false.
        unfold cc_open in Hd. intros Hq. apply Hd. split; [lia|done]. }
    rewrite Hn in Hk. injection Hk as <-. split_and!; [done..|lia|]. by rewrite wadd_id; rewrite Z.add_0_r.
Qed.

(** *** Runs *)

(** What a round keeps. *)
Definition cc_kept k k' : Prop :=
  cc_requests k' = cc_requests k ∧ tl_sent (cc_tally k') = tl_sent (cc_tally k) ∧
  (in_width 64 (tl_outstanding (cc_tally k)) → in_width 64 (tl_outstanding (cc_tally k'))).

Lemma cc_kept_trans k1 k2 k3 : cc_kept k1 k2 → cc_kept k2 k3 → cc_kept k1 k3.
Proof. intros (Hr1 & Hs1 & Ho1) (Hr2 & Hs2 & Ho2). split_and!; [congruence..|auto]. Qed.

(** Changing what is not counted. *)
Lemma cc_kept_with k b : cb_tally b = cc_tally k → cc_kept k (cc_with_base k b).
Proof. intros Hb. unfold cc_kept, cc_tally. by rewrite cc_requests_with, cc_base_with, Hb. Qed.

Lemma cc_kept_clock k b t :
  cb_clock (cc_base k) = (t, b) → cc_kept k (cc_with_base k b).
Proof. intros Hb. apply cc_kept_with. unfold cc_tally. by rewrite <- (proj1 (cb_clock_base (cc_base k))), Hb. Qed.

Lemma cc_packets_kept k packets k' : cc_packets k packets = Ret k' → cc_kept k k'.
Proof.
  assert (∀ k curr b p k', cb_clock (cc_base k) = (curr, b) → cc_packet curr (cc_with_base k b) p = Ret k' →
    cc_kept k k') as Hone.
  { intros k1 curr b p k2 Hb%cc_kept_clock Hk2%cc_packet_law. by eapply cc_kept_trans. }
  unfold cc_packets. destruct (cc_clock_each k).
  - intros E. apply (ofold_inv (cc_kept k) _ _ _ _) in E; [done| |done].
    intros k2 p k3 Hk2 Hk3. destruct (cb_clock (cc_base k2)) as [curr b] eqn:Ec.
    eapply cc_kept_trans; [exact Hk2|]. by eapply Hone.
  - destruct (cb_clock (cc_base k)) as [curr b] eqn:Ec. apply cc_kept_clock in Ec. intros E.
    apply (ofold_inv (cc_kept k) _ _ _ _) in E; [done| |done].
    intros k2 p k3 Hk2 Hk3%cc_packet_law. by eapply cc_kept_trans.
Qed.

Lemma cc_recv_kept k k' : cc_recv k = Ret k' → cc_kept k k'.
Proof.
  unfold cc_recv. case_decide; [by intros [= <-]|].
  destruct (recv_res _ _) as [[[rc net] packets]| |]; cbn [mbind outcome_bind]; [|done..].
  set (k0 := cc_with_base k _).
  assert (cc_kept k k0) as Hk0 by by apply cc_kept_with.
  clearbody k0. intros Hk.
  destruct (match packets with Some _ => _ | None => _ end) as [k1| |] eqn:E; cbn [mbind outcome_bind] in Hk;
    [|done..].
  assert (cc_kept k k1) as Hk1.
  { destruct packets as [packets|]; [|by injection E as <-].
    eapply cc_kept_trans; [exact Hk0|]. by eapply cc_packets_kept. }
  case_decide; [|by injection Hk as <-].
  destruct (cb_clock (cc_base k1)) as [now b] eqn:Ec. apply cc_kept_clock in Ec. injection Hk as <-.
  eapply cc_kept_trans; [exact Hk1|]. eapply cc_kept_trans; [exact Ec|].
  unfold cc_kept. by rewrite cc_count_requests, cc_count_tally.
Qed.

Context (ext_gen : Extension → ProxyDB → G) (resume : Link → ProxyDB → G → ClientStep Link G).

Lemma cc_execute_one_kept k k' : cc_execute_one ext_gen resume k = Ret k' → cc_kept k k'.
Proof.
  unfold cc_execute_one. case_decide; [by intros [= <-]|].
  pose proof (cb_clock_base (cc_base k)) as [Ht _]. destruct (cb_clock (cc_base k)) as [start b]. cbn [snd] in Ht.
  pose proof (cb_clock_base b) as [Ht2 _]. destruct (cb_clock b) as [stop b2]. cbn [snd] in Ht2.
  destruct (execute_task _ _ _ _ _ _) as [[[w m] r]| |]; cbn [mbind outcome_bind]; [|done..].
  intros [= <-]. apply cc_kept_with. cbn. by rewrite Ht2, Ht.
Qed.

(** The requests that were configured, and what fills the window beyond them. *)
Definition cc_within k : Prop :=
  0 ≤ tl_sent (cc_tally k) ∧ tl_sent (cc_tally k) < Z.max 0 (cc_requests k) + Z.of_nat CL_MAX_CREDIT.

Lemma cc_send_within k k' :
  cc_requests k + 32 < 2 ^ 64 → in_width 64 (tl_outstanding (cc_tally k)) → cc_within k → cc_send k = Ret k' →
  cc_requests k' = cc_requests k ∧ cc_within k'.
Proof.
  unfold cc_within. change (Z.of_nat CL_MAX_CREDIT) with 32. intros Hr Ho [Hs0 Hs] Hk.
  apply cc_send_spec in Hk as (Hr' & _ & _ & Hs'); [|done|unfold in_width; lia].
  rewrite Hr', Hs'. split; [done|]. clear Hs' Hr'. case_decide as Hd; cycle 1.
  { rewrite wadd_id; rewrite Z.add_0_r; [done|unfold in_width; lia]. }
  assert (0 ≤ Z.of_nat (cc_room k) ≤ 32).
  { unfold cc_room, in_width in *. change (Z.of_nat CL_MAX_CREDIT) with 32. lia. }
  rewrite wadd_id by (unfold in_width; lia). lia.
Qed.
(** Whatever a client may be like between rounds. *)
Definition cc_good k : Prop := in_width 64 (tl_outstanding (cc_tally k)) ∧ cc_within k.

Lemma cc_kept_good k k' : cc_kept k k' → cc_good k → cc_good k'.
Proof. unfold cc_good, cc_within. intros (Hr & Hs & Ho) [Hw Hi]. by rewrite Hr, Hs; auto. Qed.

Lemma cc_send_good k k' :
  cc_requests k + 32 < 2 ^ 64 → cc_good k → cc_send k = Ret k' → cc_requests k' = cc_requests k ∧ cc_good k'.
Proof.
  intros Hr [Ho Hw] Hk. pose proof Hk as Hk2. apply cc_send_within in Hk2 as [Hr' Hw']; [|done..].
  split; [done|]. split; [|done].
  apply cc_send_spec in Hk as (_ & _ & Ho' & _); [|done|].
  - rewrite Ho'. clear Ho'. cbn zeta. unfold cc_room, in_width in *. change (Z.of_nat CL_MAX_CREDIT) with 32. case_decide; lia.
  - destruct Hw as [Hs0 Hs]. change (Z.of_nat CL_MAX_CREDIT) with 32 in Hs. unfold in_width. lia.
Qed.

Lemma cc_execute_good tasks k k' :
  cc_requests k + 32 < 2 ^ 64 → cc_good k → cc_execute ext_gen resume tasks k = Ret k' →
  cc_requests k' = cc_requests k ∧ cc_good k'.
Proof.
  intros Hr Hg Hk. unfold cc_execute in Hk.
  destruct (cc_send k) as [k1| |] eqn:E1; cbn [mbind outcome_bind] in Hk; [|done..].
  apply cc_send_good in E1 as [Hr1 Hg1]; [|done..].
  destruct (cc_recv k1) as [k2| |] eqn:E2; cbn [mbind outcome_bind] in Hk; [|done..].
  apply cc_recv_kept in E2.
  assert (cc_kept k1 k') as Hkept.
  { apply (ofold_inv (cc_kept k1) _ _ _ _) in Hk; [done| |done].
    intros k3 i k4 Hk3 Hk4%cc_execute_one_kept. by eapply cc_kept_trans. }
  split; [|by eapply cc_kept_good]. destruct Hkept as [-> _]. done.
Qed.
Lemma cc_run_good tasks n k k' :
  cc_requests k + 32 < 2 ^ 64 → cc_good k → cc_run ext_gen resume tasks n k = Ret k' →
  cc_requests k' = cc_requests k ∧ cc_good k'.
Proof.
  intros Hr Hg Hk.
  apply (ofold_inv (λ k', cc_requests k' = cc_requests k ∧ cc_good k') _ _ _ _) in Hk; [done| |done].
  intros k1 i k2 [Hr1 Hg1] Hk2%cc_execute_good; [|by rewrite Hr1|done]. by rewrite <- Hr1.
Qed.

(** C35: the closed-loop clients keep their window.  As long as fewer requests were
    sent than are configured, and the queue of pushed-back extensions is not full,
    a call of [send] takes exactly the turns that are missing to 32 outstanding
    requests, a request each, and ends; otherwise, and when the window is full, it
    sends nothing.  Since the window is filled whatever is configured, a client
    sends more than it is configured to, but, in any number of rounds and whatever
    it receives, at most 31 requests more. *)
Theorem closed_clients_keep_window k :
  cc_requests k + 32 < 2 ^ 64 → cc_good k →
  (tl_sent (cc_tally k) < cc_requests k → cc_open k →
    cc_send k = cc_turns (cc_room k) k ∧
    ∀ k', cc_turns (cc_room k) k = Ret k' →
      cc_may_send k' = false ∧
      tl_outstanding (cc_tally k') = Z.max 32 (tl_outstanding (cc_tally k)) ∧
      tl_sent (cc_tally k') = tl_sent (cc_tally k) + Z.of_nat (cc_room k)) ∧
  (cc_requests k ≤ tl_sent (cc_tally k) ∨ ¬ cc_open k ∨ 32 ≤ tl_outstanding (cc_tally k) → cc_send k = Ret k) ∧
  ∀ tasks n k', cc_run ext_gen resume tasks n k = Ret k' →
    tl_sent (cc_tally k') < Z.max 0 (cc_requests k) + 32.
Proof.
  intros Hr Hg. pose proof Hg as [Ho [Hs0 Hs]]. change (Z.of_nat CL_MAX_CREDIT) with 32 in Hs. split_and!.
  - intros Hreq Hq. split; [by apply cc_send_turns|]. intros k' Hk'.
    apply cc_turns_more in Hk' as [_ Hq' Hs' Ho']; [|done|unfold in_width; lia].
    assert (Z.of_nat (cc_room k) = Z.max 32 (tl_outstanding (cc_tally k)) - tl_outstanding (cc_tally k)) as Hroom.
    { unfold cc_room, in_width in *. change (Z.of_nat CL_MAX_CREDIT) with 32. lia. }
    assert (tl_outstanding (cc_tally k') = Z.max 32 (tl_outstanding (cc_tally k))) as Hout.
    { rewrite Ho', Hroom. rewrite wadd_id; unfold in_width in *; lia. }
    split_and!; [|done|rewrite Hs'; apply wadd_id; unfold in_width in *; lia].
    unfold cc_may_send. apply andb_false_intro1, bool_decide_false. rewrite Hout.
    change (Z.of_nat CL_MAX_CREDIT) with 32. lia.
  - intros [Hx|[Hx|Hx]].
    + unfold cc_send. by rewrite decide_True by lia.
    + apply cc_send_closed. unfold cc_may_send. by apply andb_false_intro2, bool_decide_false.
    + apply cc_send_closed. unfold cc_may_send. apply andb_false_intro1, bool_decide_false.
      change (Z.of_nat CL_MAX_CREDIT) with 32. lia.
  - intros tasks n k' Hk'. apply cc_run_good in Hk' as [Hr' [_ [_ Hs']]]; [|done..]. by rewrite <- Hr'.
Qed.
End laws.

Hint Mode ClosedLaws + + - + + : typeclass_instances.

(** ** The clients *)

(** Follows the calls to the end of a handler; what is left counts modulo 2^64. *)
Ltac follow := inv_outcome; repeat (repeat case_decide; repeat split_match; inv_outcome).
Ltac counted :=
  follow; cbn; split_and!; try done; intros; first [done | by apply wrap_range].

Section instances.
Context `{Network} `{Loader} `{Orders} `{Crypto} `{AesEncrypt} {G : Type}.

Lemma cb_invoke_keeps (b b' : Base G) tenant name request stamp :
  cb_invoke b tenant name request stamp = Ret b' →
  cb_tally b' = cb_tally b ∧ tm_ready (cb_manager b') = tm_ready (cb_manager b).
Proof. unfold cb_invoke. intros Hb. inv_outcome. split; [done|]. by eapply create_task_ready. Qed.

(** What a packet does to the counters. *)
Definition tally_kept (n n' : Tally) : Prop :=
  tl_sent n' = tl_sent n ∧ (in_width 64 (tl_outstanding n) → in_width 64 (tl_outstanding n')).

Lemma cb_pushed_back_tally (b b' : Base G) stamp records rl kl :
  cb_pushed_back b stamp records rl kl = Ret b' → cb_tally b' = cb_tally b.
Proof. unfold cb_pushed_back. intros Hb. by inv_outcome. Qed.

Ltac unpushed :=
  repeat match goal with Hb : cb_pushed_back _ _ _ _ _ = Ret _ |- _ => apply cb_pushed_back_tally in Hb; cbn in Hb end;
  cbn; repeat match goal with
  | Hb : cb_tally _ = _ |- _ => rewrite Hb; clear Hb
  end.

Lemma yt_packet_kept curr k p (k' : YtClient G) :
  yt_packet curr k p = Ret k' →
  yt_requests k' = yt_requests k ∧ tally_kept (cb_tally (yt_base k)) (cb_tally (yt_base k')).
Proof.
  unfold tally_kept.
  assert (∀ k', yt_recv_native k p = Ret k' → yt_requests k' = yt_requests k ∧
    tally_kept (cb_tally (yt_base k)) (cb_tally (yt_base k'))) as Hn.
  { unfold tally_kept, yt_recv_native, yt_process_get_response, yt_process_multiget_response, yt_on_link.
    intros k1 Hk. counted. }
  assert (∀ k', yt_recv_invoke k curr p = Ret k' → yt_requests k' = yt_requests k ∧
    tally_kept (cb_tally (yt_base k)) (cb_tally (yt_base k'))) as Hi.
  { unfold tally_kept, yt_recv_invoke, yt_on_link. intros k1 Hk. follow; unpushed; cbn; counted. }
  assert (∀ k', yt_recv_commit k curr p = Ret k' → yt_requests k' = yt_requests k ∧
    tally_kept (cb_tally (yt_base k)) (cb_tally (yt_base k'))) as Hc.
  { unfold tally_kept, yt_recv_commit, yt_restart, yt_on_link. intros k1 Hk. counted. }
  unfold yt_packet, tally_kept in *. intros Hk. inv_outcome. destruct a; try (by apply Hc);
    (destruct (yt_native k); [by apply Hn|by apply Hi]).
Qed.

(** The commit and the responses to invocations, as two of the clients take them. *)
Lemma cb_commit_over_kept (b b' : Base G) curr p t :
  cb_commit_over b curr p = Ret (b', t) → tally_kept (cb_tally b) (cb_tally b').
Proof. unfold tally_kept, cb_commit_over. intros Hb. counted. Qed.

Lemma cb_invocation_over_kept (b b' : Base G) curr rl kl p :
  cb_invocation_over b curr rl kl p = Ret b' → tally_kept (cb_tally b) (cb_tally b').
Proof. unfold tally_kept, cb_invocation_over. intros Hb. follow; unpushed; cbn; counted. Qed.

Lemma cb_resume_with_kept (b b' : Base G) rl kl p :
  cb_resume_with b rl kl p = Ret b' → tally_kept (cb_tally b) (cb_tally b').
Proof. unfold tally_kept, cb_resume_with. intros Hb. follow; unpushed; cbn; counted. Qed.

Lemma pc_follow_kept (k k' : PbClient G) tenant timestamp st record :
  pc_follow k tenant timestamp st record = Ret k' →
  pc_requests k' = pc_requests k ∧ tally_kept (cb_tally (pc_base k)) (cb_tally (pc_base k')).
Proof. unfold tally_kept, pc_follow, pc_on_link. intros Hk. counted. Qed.

Lemma pc_packet_kept curr k p (k' : PbClient G) :
  pc_packet curr k p = Ret k' →
  pc_requests k' = pc_requests k ∧ tally_kept (cb_tally (pc_base k)) (cb_tally (pc_base k')).
Proof.
  assert (∀ k', pc_recv_native k p = Ret k' → pc_requests k' = pc_requests k ∧
    tally_kept (cb_tally (pc_base k)) (cb_tally (pc_base k'))) as Hn.
  { intros k1 Hk. unfold pc_recv_native in Hk. follow;
      try match goal with Hf : pc_follow _ _ _ _ _ = Ret _ |- _ => apply pc_follow_kept in Hf as [Hf1 Hf2] end;
      done. }
  assert (∀ k', pc_recv_invoke k curr p = Ret k' → pc_requests k' = pc_requests k ∧
    tally_kept (cb_tally (pc_base k)) (cb_tally (pc_base k'))) as Hi.
  { intros k1 Hk. unfold pc_recv_invoke in Hk. inv_outcome. split; [done|]. cbn.
    destruct a; inv_outcome; first [done | by eapply cb_invocation_over_kept | by eapply cb_resume_with_kept]. }
  assert (∀ k', pc_recv_commit k curr p = Ret k' → pc_requests k' = pc_requests k ∧
    tally_kept (cb_tally (pc_base k)) (cb_tally (pc_base k'))) as Hc.
  { intros k1 Hk. unfold pc_recv_commit in Hk. inv_outcome. destruct a as [b t]. inv_outcome.
    destruct (pc_native k); (split; [done|by eapply cb_commit_over_kept]). }
  unfold pc_packet. intros Hk. inv_outcome. destruct a; try (by apply Hc);
    (destruct (pc_native k); [by apply Hn|by apply Hi]).
Qed.

Lemma au_packet_kept curr k p (k' : AuthClient G) :
  au_packet curr k p = Ret k' →
  au_requests k' = au_requests k ∧ tally_kept (cb_tally (au_base k)) (cb_tally (au_base k')).
Proof.
  assert (∀ k', au_recv_native k p = Ret k' → au_requests k' = au_requests k ∧
    tally_kept (cb_tally (au_base k)) (cb_tally (au_base k'))) as Hn.
  { unfold tally_kept, au_recv_native, au_on_link. intros k1 Hk. counted. }
  assert (∀ k', au_recv_invoke k curr p = Ret k' → au_requests k' = au_requests k ∧
    tally_kept (cb_tally (au_base k)) (cb_tally (au_base k'))) as Hi.
  { intros k1 Hk. unfold au_recv_invoke in Hk. inv_outcome. split; [done|]. cbn.
    destruct a; inv_outcome; first [done | by eapply cb_invocation_over_kept]. }
  unfold au_packet. intros Hk. inv_outcome. destruct a;
    try (destruct (au_native k); [by apply Hn|by apply Hi]).
  inv_outcome. destruct a as [b t]. inv_outcome. split; [done|by eapply cb_commit_over_kept].
Qed.

Lemma ck_packet_kept curr k p (k' : ChecksumClient G) :
  ck_packet curr k p = Ret k' →
  ck_requests k' = ck_requests k ∧ tally_kept (cb_tally (ck_base k)) (cb_tally (ck_base k')).
Proof.
  assert (∀ k', ck_recv_native k p = Ret k' → ck_requests k' = ck_requests k ∧
    tally_kept (cb_tally (ck_base k)) (cb_tally (ck_base k'))) as Hn.
  { unfold tally_kept, ck_recv_native, ck_process_multiget_response, ck_on_link. intros k1 Hk. counted. }
  assert (∀ k', ck_recv_invoke k curr p = Ret k' → ck_requests k' = ck_requests k ∧
    tally_kept (cb_tally (ck_base k)) (cb_tally (ck_base k'))) as Hi.
  { unfold tally_kept, ck_recv_invoke, ck_on_link. intros k1 Hk. follow; unpushed; cbn; counted. }
  assert (∀ k', ck_recv_commit k curr p = Ret k' → ck_requests k' = ck_requests k ∧
    tally_kept (cb_tally (ck_base k)) (cb_tally (ck_base k'))) as Hc.
  { unfold tally_kept, ck_recv_commit. intros k1 Hk. counted. }
  unfold ck_packet. intros Hk. inv_outcome. destruct a; try (by apply Hc);
    (destruct (ck_native k); [by apply Hn|by apply Hi]).
Qed.

(** A request that is generated changes the link, the workload and the tasks that
    wait. *)
Ltac generated :=
  inv_outcome; try done;
  match goal with Hb : cb_invoke _ _ _ _ _ = Ret _ |- _ =>
    apply cb_invoke_keeps in Hb as [Ht Hm]; cbn in *; by rewrite Ht, Hm end.

#[export] Instance yt_laws : ClosedLaws (YtClient G).
Proof.
  split; [done|done| |intros ????; apply yt_packet_kept].
  intros k curr k' Hk. cbn [cc_generate yt_closed] in Hk. unfold yt_generate in Hk.
  unfold cc_tally, cc_queue, get_queue_len. inv_outcome. destruct a as [y op]. destruct (yt_native k).
  - unfold yt_send_native, yt_on_link in Hk. generated.
  - unfold yt_send_invoke in Hk. destruct op; generated.
Qed.

#[export] Instance pc_laws : ClosedLaws (PbClient G).
Proof.
  split; [done|done| |intros ????; apply pc_packet_kept].
  intros k curr k' Hk. cbn [cc_generate pc_closed] in Hk. unfold pc_generate in Hk.
  unfold cc_tally, cc_queue, get_queue_len. inv_outcome. destruct a as [y op]. destruct (pc_native k).
  - unfold pc_send_native, pc_on_link in Hk. generated.
  - unfold pc_send_invoke in Hk. destruct op; generated.
Qed.

#[export] Instance au_laws : ClosedLaws (AuthClient G).
Proof.
  split; [done|done| |intros ????; apply au_packet_kept].
  intros k curr k' Hk. cbn [cc_generate au_closed] in Hk. unfold au_generate in Hk.
  unfold cc_tally, cc_queue, get_queue_len. inv_outcome. destruct a as [y op]. destruct (au_native k).
  - unfold au_send_native, au_on_link in Hk. destruct op; generated.
  - unfold au_send_invoke in Hk. destruct op; [|generated].
    destruct (au_request _ _ _) as [[p_get iv]| |]; cbn [mbind outcome_bind] in Hk; [|done..]. generated.
Qed.

#[export] Instance ck_laws : ClosedLaws (ChecksumClient G).
Proof.
  split; [done|done| |intros ????; apply ck_packet_kept].
  intros k curr k' Hk. cbn [cc_generate ck_closed] in Hk. unfold ck_generate, ck_on_link in Hk.
  unfold cc_tally, cc_queue, get_queue_len. inv_outcome. destruct a as [y op].
  destruct op; [|by injection Hk as <-]. destruct (ck_native k); generated.
Qed.
End instances.

(** ** Responses that are not expected, and responses that are lost *)

Section credits.
Context `{Network} `{Loader} `{Orders} {G : Type}.

(** An answer too many takes a credit that is not there: the counter wraps around,
    and the client never sends again. *)
Lemma extra_response_closes_window (k k' : YtClient G) p :
  yt_recv_native k p = Ret k' → tl_outstanding (cb_tally (yt_base k)) = 0 →
  tl_outstanding (cb_tally (yt_base k')) = 2 ^ 64 - 1 ∧ cc_send k' = Ret k'.
Proof.
  intros Hk Ho.
  assert (tl_outstanding (cb_tally (yt_base k')) = tl_outstanding (cb_tally (yt_base k)) -u64 1) as Hout.
  { unfold yt_recv_native, yt_process_get_response, yt_process_multiget_response, yt_on_link in Hk.
    follow; done. }
  rewrite Ho in Hout. change (0 -u64 1) with (2 ^ 64 - 1) in Hout. split; [done|].
  apply cc_send_closed. unfold cc_may_send. apply andb_false_intro1, bool_decide_false.
  unfold cc_tally. cbn [cc_base yt_closed]. by rewrite Hout.
Qed.

(** A get of a native chain that is answered with an error keeps its credit, and
    its state: nothing but the packet is gone. *)
Lemma failed_get_keeps_credit (k k' : PbClient G) (packet : Packet UdpHeader) p h :
  parse_rpc_opcode packet = Ret SandstormGetRpc → parse_header GetResponse packet = Ret p →
  get_header p = Ret h → status (getres_common h) ≠ RpcStatus_u8 StatusOk →
  pc_recv_native k packet = Ret k' →
  k' = pc_with_base k (cb_free p (pc_base k)) ∧ cb_tally (pc_base k') = cb_tally (pc_base k) ∧
  pc_native_state k' = pc_native_state k.
Proof.
  intros Ho Hp Hh Hst. unfold pc_recv_native. rewrite Ho. cbn [mbind outcome_bind]. rewrite Hp.
  cbn [mbind outcome_bind]. rewrite Hh. cbn [mbind outcome_bind].
  destruct (pc_native_state k !! _); [rewrite decide_False by done|]; by intros [= <-].
Qed.
End credits.

(** ** Witnesses *)

Section example.
#[local] Existing Instances clock_net any_loader test_workloads no_crypto.

Definition ex_checksum_client : @ChecksumClient clock_net any_loader test_workloads unit :=
  @ChecksumClient_new clock_net any_loader test_workloads unit clock_link (@ExtensionManager_new any_loader) 0 tt tt 34000000 true false 8 3 2.

Lemma closed_clients_keep_window_witness :
  cc_send ex_checksum_client = cc_turns 32 ex_checksum_client ∧
  ∀ k', cc_turns 32 ex_checksum_client = Ret k' →
    cc_may_send k' = false ∧ tl_outstanding (cc_tally k') = 32 ∧ tl_sent (cc_tally k') = 32.
Proof.
  refine (proj1 (@closed_clients_keep_window clock_net any_loader unit _ _ (@ck_laws clock_net any_loader test_workloads no_crypto unit)
    (λ _ _, tt) no_tasks ex_checksum_client _ _) _ _);
    [by vm_compute|unfold cc_good, cc_within; apply (bool_decide_unpack _); vm_compute; exact I|by vm_compute..].
Defined.
End example.
