(* ===== verification/AuthSpecs.v ===== *)
(** * AuthSpecs: the authentication client against the extension auth

    What the client of AuthClient sends, natively and by invocation, checked
    against the credentials that fill_auth loads (Loaders, DataSpecs) and the
    extension auth (Programs). *)

From S2P Require Import Prelude Bits Packed Headers Packet Wire Rpc Alloc Tx Table Store Handlers Bufs.
From S2P Require Import Context Ext Task Dispatch DispatchSpecs HandlerSpecs Proxy Client DB Programs DBSpecs.
From S2P Require Import ExtSpecs Float Kayak KayakSpecs Loaders LoadersSpecs DataSpecs YcsbtWork YcsbtSpecs.
From S2P Require Import PushClient PushSpecs LoadClient LoadSpecs Ycsb ClosedLoop AuthClient ClosedSpecs.

(** ** What rounds of a closed-loop client preserve *)

Section rounds.
Context `{Network} `{Loader} {G K : Type} `{!ClosedClient G K} (P : K → Prop).
Context (Pbase : ∀ k b, P k → P (cc_with_base k b)).
Context (Ppacket : ∀ curr k p k', cc_packet curr k p = Ret k' → P k → P k').
Context (Pgenerate : ∀ k curr k', cc_generate k curr = Ret k' → P k → P k').

Lemma cc_send_one_inv k k' : cc_send_one k = Ret k' → P k → P k'.
Proof.
  unfold cc_send_one, cc_count. destruct (cb_clock _) as [curr b]. intros Hk Hp. inv_outcome.
  eapply Pbase, Pgenerate; [done|]. by apply Pbase.
Qed.

Lemma cc_send_inv k k' : cc_send k = Ret k' → P k → P k'.
Proof.
  unfold cc_send. case_decide; [by intros [= <-]|]. intros Hk Hp.
  apply (while_loop_inv cc_may_send cc_send_one P) in Hk; [done| |done].
  intros k1 k2 Hp1 Hk2. by eapply cc_send_one_inv.
Qed.

Lemma cc_packets_inv k packets k' : cc_packets k packets = Ret k' → P k → P k'.
Proof.
  unfold cc_packets. intros E Hp. destruct (cc_clock_each k).
  - apply (ofold_inv P _ _ _ _) in E; [done| |done].
    intros k2 p k3 Hk2 Hk3. destruct (cb_clock _) as [curr b]. by eapply Ppacket, Pbase.
  - destruct (cb_clock _) as [curr b]. apply (ofold_inv P _ _ _ _) in E; [done| |by apply Pbase].
    intros k2 p k3 Hk2 Hk3. by eapply Ppacket.
Qed.

Lemma cc_recv_inv k k' : cc_recv k = Ret k' → P k → P k'.
Proof.
  unfold cc_recv, cc_count. case_decide; [by intros [= <-]|]. intros Hk Hp.
  destruct (recv_res _ _) as [[[rc net] packets]| |]; cbn [mbind outcome_bind] in Hk; [|done..].
  cbn zeta in Hk.
  set (k0 := cc_with_base k _) in Hk. assert (P k0) as Hk0 by by apply Pbase.
  clearbody k0. destruct (match packets with Some _ => _ | None => _ end) as [k1| |] eqn:E;
    cbn [mbind outcome_bind] in Hk; [|done..].
  assert (P k1) as Hk1.
  { destruct packets as [packets|]; [|by injection E as <-].
    by eapply cc_packets_inv. }
  case_decide; [|by injection Hk as <-].
  destruct (cb_clock (cc_base k1)) as [now b]. injection Hk as <-. by repeat apply Pbase.
Qed.

Lemma cc_execute_one_inv ext_gen resume k k' :
  cc_execute_one ext_gen resume k = Ret k' → P k → P k'.
Proof.
  unfold cc_execute_one. case_decide; [by intros [= <-]|].
  destruct (cb_clock (cc_base k)) as [start b]. destruct (cb_clock b) as [stop b2].
  destruct (execute_task _ _ _ _ _ _) as [[[w m] r]| |]; cbn [mbind outcome_bind]; [|done..].
  intros [= <-] Hp. by apply Pbase.
Qed.
End rounds.

(** ** The cipher *)

(** Decrypting with the vector that encryption started from gives the block
    back; what is left for the next block is a vector again. *)
Class AesLaws `{Crypto} `{AesEncrypt} : Prop := {
  aes_inverse : ∀ iv p, len iv = 32 → is_bytes iv → len p = 16 → is_bytes p →
    aes_ige_decrypt auth_key iv (aes_ige_encrypt auth_key iv p).1 = p;
  aes_block : ∀ iv p, len iv = 32 → is_bytes iv → len p = 16 → is_bytes p →
    len (aes_ige_encrypt auth_key iv p).1 = 16;
  aes_vector : ∀ iv p, len iv = 32 → is_bytes iv → len p = 16 → is_bytes p →
    len (aes_ige_encrypt auth_key iv p).2 = 32 ∧ is_bytes (aes_ige_encrypt auth_key iv p).2;
  aes_clear : ∀ iv c, len iv = 32 → is_bytes iv → len c = 16 →
    len (aes_ige_decrypt auth_key iv c) = 16;
}.

(** ** What the client sends *)

Section auth.
Context `{Network} `{Loader} `{Workloads} `{AesLaws} {G : Type}.
Implicit Types k : AuthClient G.

Definition auth_head : bytes := auth_name ++ le_bytes 8 1.

Lemma len_auth_head : len auth_head = 12.
Proof. done. Qed.

(** Between two requests: where the buffers of the client are. *)
Record au_ok k : Prop := {
  ao_key : ∃ x, yc_key_buf (au_workload k) = counter 30 x;
  ao_gets : yc_put_pct (au_workload k) = 0;
  ao_len : au_key_len k = 30;
  ao_payload : ∃ x c, len c = 16 ∧ au_payload_auth k = auth_head ++ counter 30 x ++ c ++ replicate 56 0;
}.

(** Within a burst, the vector as well. *)
Definition iv_ok k : Prop := len (au_iv k) = 32 ∧ is_bytes (au_iv k).

Lemma au_ok_same k k' :
  au_workload k' = au_workload k → au_payload_auth k' = au_payload_auth k → au_key_len k' = au_key_len k →
  au_ok k → au_ok k'.
Proof. intros E1 E2 E3 [Hk Hp Hl Ha]. split; by rewrite ?E1, ?E2, ?E3. Qed.

Lemma au_new_ok w extensions rng key_rng tenant_rng resps master use_invoke reqs :
  au_ok (AuthClient_new w extensions rng key_rng tenant_rng resps master use_invoke 30 72 reqs).
Proof.
  unfold AuthClient_new. destruct (rdtsc _) as [start net]. split; cbn [au_workload au_payload_auth].
  - by exists 0.
  - done.
  - done.
  - exists 0, (replicate 16 0). by split.
Qed.

(** The next operation asks for a key. *)
Lemma auth_abc_ok k :
  au_ok k → ∃ y x t, auth_abc (au_workload k) = Ret (y, YGet t (counter 30 x)) ∧ in_width 32 x ∧
    yc_key_buf y = counter 30 x ∧ yc_put_pct y = 0.
Proof.
  intros [[x0 Hk] Hp _ _]. unfold auth_abc, ycsb_abc. destruct (gen_u32 _) as [r rng].
  destruct (zipf_sample _ _) as [[t tz] rng1]. destruct (zipf_sample _ rng1) as [[x kz] rng2].
  rewrite Hk, Hp. pose proof (copy_key_first x0 [] (wrap 32 x)) as Hc. rewrite !app_nil_r in Hc. rewrite Hc.
  cbn [mbind outcome_bind]. rewrite bool_decide_true.
  2:{ change (wrap 32 0) with 0. pose proof (Z.mod_pos_bound r 100). lia. }
  eexists _, (wrap 32 x), _. split; [done|]. split; [by apply wrap_range|done].
Qed.

Lemma slice_counter n m x : (4 ≤ m ≤ n)%nat → slice (counter n x) 0 (Z.of_nat m) = Ret (counter m x).
Proof.
  intros Hm. unfold counter. replace (n - 4)%nat with ((m - 4) + (n - m))%nat by lia.
  rewrite replicate_add, (assoc_L (++)).
  apply (slice_app [] (le_bytes 4 x ++ replicate (m - 4) 0) (replicate (n - m) 0) 0 (Z.of_nat m)); [done|].
  unfold len. rewrite length_app, le_bytes_length, length_replicate. lia.
Qed.

Abbreviation encrypted iv x := (aes_ige_encrypt auth_key iv (counter 16 x)).1.
Abbreviation vector iv x := (aes_ige_encrypt auth_key iv (counter 16 x)).2.

Lemma counter_block x : len (counter 16 x) = 16 ∧ is_bytes (counter 16 x).
Proof. split; [apply len_counter; lia|apply counter_is_bytes]. Qed.

(** The payload of an invocation. *)
Lemma au_request_ok x0 c0 x iv :
  len c0 = 16 → len iv = 32 → is_bytes iv →
  au_request (auth_head ++ counter 30 x0 ++ c0 ++ replicate 56 0) iv (counter 30 x) =
    Ret (auth_head ++ counter 30 x ++ encrypted iv x ++ replicate 56 0, vector iv x).
Proof.
  intros Hc Hiv Hb. destruct (counter_block x) as [Hl Hx]. unfold au_request.
  assert (slice (counter 30 x) 0 4 = Ret (le_bytes 4 x)) as E4.
  { pose proof (slice_counter 30 4 x ltac:(lia)) as E. unfold counter at 2 in E. by rewrite app_nil_r in E. }
  rewrite E4. cbn [mbind outcome_bind].
  rewrite (copy_key auth_head x0 _ 12 x) by done. cbn [mbind outcome_bind].
  rewrite (slice_counter 30 16 x ltac:(lia) : slice _ 0 16 = _). cbn [mbind outcome_bind].
  pose proof (aes_block iv (counter 16 x) Hiv Hb Hl Hx) as Hout.
  destruct (aes_ige_encrypt auth_key iv (counter 16 x)) as [out iv']. cbn [fst snd] in *.
  rewrite (assoc_L (++) auth_head). rewrite (copy_at (auth_head ++ counter 30 x) c0 (replicate 56 0) out 42 58); [|..].
  - cbn [mbind outcome_bind]. by rewrite <- (assoc_L (++)).
  - by rewrite len_app, len_counter_30.
  - by rewrite len_app, len_counter_30, Hc.
  - by rewrite Hout, Hc.
Qed.

(** *** What a client preserves *)

Lemma au_generate_ok k curr k' :
  au_native k = true ∨ iv_ok k → au_generate k curr = Ret k' → au_ok k →
  au_ok k' ∧ au_native k' = au_native k ∧ (au_native k = true ∨ iv_ok k').
Proof.
  intros Hiv Hk Ho. destruct (auth_abc_ok k Ho) as (y & x & t & Ha & _ & Hkey & Hput).
  destruct Ho as [_ _ Hlen (x0 & c0 & Hc & Hp)]. unfold au_generate in Hk. rewrite Ha in Hk. cbn [mbind outcome_bind] in Hk.
  cbn zeta in Hk. cbn [au_native au_with_workload] in Hk. destruct (au_native k) eqn:En.
  - unfold au_send_native, au_on_link in Hk. inv_outcome. cbn. split; [|by split; [|left]].
    split; cbn; [by exists x|done|done|by exists x0, c0].
  - destruct Hiv as [|[Hl Hb]]; [done|]. unfold au_send_invoke in Hk.
    cbn [au_payload_auth au_iv au_with_workload] in Hk. rewrite Hp, (au_request_ok x0 c0 x _ Hc Hl Hb) in Hk.
    cbn [mbind outcome_bind] in Hk. inv_outcome. destruct (counter_block x) as [Hxl Hxb]. cbn. split_and!; [|done|].
    + split; cbn; [by exists x|done|done|]. exists x, (encrypted (au_iv k) x). split; [by apply aes_block|done].
    + right. by apply aes_vector.
Qed.

Lemma au_packet_same curr k p k' :
  au_packet curr k p = Ret k' →
  au_workload k' = au_workload k ∧ au_payload_auth k' = au_payload_auth k ∧
  au_native k' = au_native k ∧ au_key_len k' = au_key_len k.
Proof.
  unfold au_packet, au_recv_native, au_recv_invoke, au_on_link. intros Hk. by follow.
Qed.

(** A client between rounds; and in the middle of a burst. *)
Definition au_idle native k : Prop := au_ok k ∧ au_native k = native.

Definition au_burst native k : Prop := au_idle native k ∧ (native = true ∨ iv_ok k).

Lemma au_burst_starts native k :
  au_idle native k →
  au_burst native (au_with_workload k (au_workload k) (au_payload_auth k) (au_payload_put k) auth_iv).
Proof.
  intros [[Hk Hp Hl Ha] Hn]. split; [by split|]. right. split; [done|]. by apply (bool_decide_unpack _).
Qed.

Lemma au_burst_turn native k k' : cc_send_one k = Ret k' → au_burst native k → au_burst native k'.
Proof.
  apply cc_send_one_inv.
  - intros k1 b [[[Hk Hp Hl Ha] Hn] Hiv]. by split.
  - intros k1 curr k2 Hk [[Ho Hn] Hiv]. apply au_generate_ok in Hk as (Ho2 & Hn2 & Hiv2); [|by rewrite Hn|done].
    rewrite Hn in Hn2, Hiv2. by split.
Qed.

Lemma au_burst_turns native n k k' :
  cc_turns n k = Ret k' → au_burst native k → au_burst native k'.
Proof.
  intros Hk Hb. apply (ofold_inv (au_burst native) _ _ _ _) in Hk; [done| |done].
  intros k1 i k2 Hq1 E. by eapply au_burst_turn.
Qed.

Context (ext_gen : Extension → ProxyDB → G) (resume : Link → ProxyDB → G → ClientStep Link G).

Lemma au_execute_idle native k k' :
  au_execute ext_gen resume k = Ret k' → au_idle native k → au_idle native k'.
Proof.
  unfold au_execute. intros Hk Hi.
  destruct (au_send k) as [k1| |] eqn:E1; cbn [mbind outcome_bind] in Hk; [|done..].
  destruct (au_recv k1) as [k2| |] eqn:E2; cbn [mbind outcome_bind] in Hk; [|done..].
  assert (∀ k b, au_idle native k → au_idle native (au_with_base k b)) as Hbase.
  { intros k3 b [[Hk3 Hp Hl Ha] Hn]. by split. }
  assert (au_idle native k1) as Hq1.
  { apply (au_burst_starts native) in Hi. unfold au_send in E1.
    eapply (cc_send_inv (au_burst native)) in E1 as [? _]; [done| | |exact Hi].
    - intros k3 b [[[Hk3 Hp Hl Ha] Hn] Hiv]. by split.
    - intros k3 curr k4 E3 [[Ho Hn] Hiv]. apply au_generate_ok in E3 as (Ho2 & Hn2 & Hiv2); [|by rewrite Hn|done].
      rewrite Hn in Hn2, Hiv2. by split. }
  eapply (cc_execute_one_inv (au_idle native)) in Hk; [done|done|].
  eapply (cc_recv_inv (au_idle native)) in E2; [done|done| |exact Hq1].
  intros curr k3 p k4 (Hw & Ha & Hn & Hl)%au_packet_same [Ho Hn3].
  split; [by eapply au_ok_same|congruence].
Qed.

Definition au_rounds (n : nat) k : outcome (AuthClient G) := ofold (λ k _, au_execute ext_gen resume k) k (seq 0 n).

Lemma au_rounds_idle native n k k' : au_rounds n k = Ret k' → au_idle native k → au_idle native k'.
Proof.
  intros Hk Hi. apply (ofold_inv (au_idle native) _ _ _ _) in Hk; [done| |done].
  intros k1 i k2 Hq1 E. by eapply au_execute_idle.
Qed.

(** *** What the server and the client make of it *)

Context `{BytesCrateLaws} (tsc : nat → Z).
#[local] Hint Extern 0 (DB ServerDB) => exact (server_db tsc) : typeclass_instances.
#[local] Hint Extern 0 (DBSpec ServerDB) => exact (server_spec tsc) : typeclass_instances.

Context (Hbcrypt : ∀ cost salt password, len (bcrypt cost salt password) = 24)
  (Hbytes : ∀ cost salt password, is_bytes (bcrypt cost salt password)).

Lemma counter_72 x : counter 16 x ++ replicate 56 0 = counter 72 x.
Proof. unfold counter. rewrite <- (assoc_L (++)), <- replicate_add. done. Qed.

(** The client hashes what the loader hashed. *)
Lemma au_check_true k stamp i head :
  au_key_len k = 30 → au_native_state k !! stamp = Some (counter 30 i) → len head = 39 →
  au_check k stamp (head ++ (auth_object i).2) = Ret (Some true).
Proof.
  intros Hl Hst Hh. unfold au_check. rewrite Hl, Hst.
  rewrite (split_at_app head) by (by rewrite Hh). cbn [mbind outcome_bind]. unfold auth_object. cbn [snd].
  rewrite decide_False by (rewrite len_app, Hbcrypt, len_counter; lia).
  assert (au_password (Some (counter 30 i)) = Ret (counter 72 i)) as ->.
  { unfold au_password. change (replicate 72 0) with ([] ++ replicate 30 0 ++ replicate 42 0).
    rewrite copy_at; [|done|done|by rewrite len_counter_30].
    unfold counter. rewrite app_nil_l, <- (assoc_L (++)), <- replicate_add. done. }
  cbn [mbind outcome_bind].
  pose proof (slice_app [] (bcrypt 1 (counter 16 i) (counter 72 i)) (counter 16 i) 0 24 eq_refl) as Hs1.
  cbn [app] in Hs1. rewrite Hs1 by (rewrite Hbcrypt; lia). cbn [mbind outcome_bind].
  pose proof (slice_app (bcrypt 1 (counter 16 i) (counter 72 i)) (counter 16 i) [] 24 40) as Hs2.
  rewrite app_nil_r in Hs2. rewrite Hs2 by (rewrite ?Hbcrypt; done). cbn [mbind outcome_bind].
  by rewrite bool_decide_true.
Qed.

(** The reply to a get of an object of 40 bytes, as a record. *)
Lemma au_reply_record (s : Store) tn id tb l t key v space :
  tenant_of s id = Some tn → get_table tn tb = Some l →
  heap s !! l = Some t → stores t key v → 9 + len key + len v ≤ space →
  ∃ head, len head = 9 + len key ∧ (get_reply (store_find s id tb key) space).2.1 = head ++ v.
Proof.
  intros Htn Hl Ht (e & He & Hkv) Hsp. pose proof (len_nonneg key). pose proof (len_nonneg v).
  exists (OPTYPE_READ ++ le_bytes 8 (entry_version e) ++ key).
  split; [rewrite !len_app, len_le_bytes; change (len OPTYPE_READ) with 1; lia|].
  unfold store_find. rewrite Htn, Hl. cbn [mbind option_bind]. rewrite Ht, He. unfold get_reply. rewrite Hkv.
  assert (∀ pre n data, len data ≤ n → try_add (pre, n) data = (true, (pre ++ data, n - len data))) as Hadd.
  { intros pre n data Hd. unfold try_add. cbn [fst snd]. by rewrite decide_True. }
  assert (len OPTYPE_READ = 1) as Hop by done. assert (len (le_bytes 8 (entry_version e)) = 8) as Hver by done.
  rewrite (Hadd [] space OPTYPE_READ) by lia. cbn [fst snd].
  rewrite (Hadd _ _ (le_bytes 8 (entry_version e))) by lia. cbn [fst snd].
  rewrite (Hadd _ _ key) by lia. rewrite (Hadd _ _ v) by lia. cbn [fst snd].
  rewrite app_nil_l. by rewrite <- !(assoc_L (++)).
Qed.

Definition au_burst_start k : AuthClient G :=
  au_with_workload k (au_workload k) (au_payload_auth k) (au_payload_put k) auth_iv.

(** The password that the extension sees in a request that is encrypted with a
    vector. *)
Definition auth_seen (iv : bytes) (i : Z) : bytes :=
  aes_ige_decrypt auth_key auth_iv (encrypted iv i) ++ replicate 56 0.

(** C37: the authentication client authenticates, natively always and by
    invocation with the first request of a burst.  Take a client of 30-byte
    keys and 72-byte passwords after any number of rounds, and the request that it
    sends after [j] others of the next burst.  It is for some user [i], and on a
    store that fill_auth loaded with that user: natively it is a get of the
    user's object, and the client finds that the reply matches the password.  By
    invocation, its arguments name the user, and the extension yields once and
    answers whether the password that it sees, the client's encrypted with the
    vector that the requests before it left and decrypted with the fixed one,
    hashes to the same as the user's: for the first request it is the user's
    own, and the answer is success. *)
Theorem auth_clients_authenticate (s : Store) id num w extensions rng key_rng tenant_rng resps master
    use_invoke reqs n j k k1 curr k2 :
  store_wf s → in_width 32 (num + 1) →
  au_rounds n (AuthClient_new w extensions rng key_rng tenant_rng resps master use_invoke 30 72 reqs) = Ret k →
  cc_turns j (au_burst_start k) = Ret k1 → au_generate k1 curr = Ret k2 →
  ∃ s' tn i tenant, fill_auth s id 1 num = Ret s' ∧ tenant_of s' id = Some tn ∧ in_width 32 i ∧
    (use_invoke = false →
      send_get (cb_link (au_base k1)) tenant 1 (counter 30 i) curr = Ret (cb_link (au_base k2)) ∧
      (1 ≤ i ≤ num → ∀ space, 79 ≤ space →
        au_check k2 curr (get_reply (store_find s' id 1 (counter 30 i)) space).2.1 = Ret (Some true))) ∧
    (use_invoke = true → ∃ args,
      cb_invoke (au_base k1) tenant 4 (auth_name ++ args) curr = Ret (au_base k2) ∧
      (j = 0%nat → auth_seen (au_iv k1) i = counter 72 i) ∧
      (1 ≤ i ≤ num → ∀ d, sv_store d = s' → sv_tenant d = tn → ctx_args (sv_ctx d) = Ret args →
        ∃ d1 g, keeps d d1 ∧ ext_auth AuthInit d = (d1, Ret (GYield g)) ∧
          ∀ d2 : ServerDB, ext_auth g d2 =
            (_ ← db_resp (pack 1 (auth_status i (auth_seen (au_iv k1) i))); mret (GReturn 0)) d2)).
Proof.
  intros Hs Hn Hr Hj Hg.
  destruct (auth_loaded Hbcrypt Hbytes s id 1 num Hs Hn) as (s' & tn & l & t & Hf & Hwf & Htn & Hl & Ht & Hok & Hst).
  apply (au_rounds_idle (negb use_invoke)) in Hr.
  2:{ split; [apply au_new_ok|]. unfold AuthClient_new. by destruct (rdtsc _). }
  pose proof (au_burst_starts _ _ Hr) as Hb. fold (au_burst_start k) in Hb.
  assert (j = 0%nat → au_iv k1 = auth_iv) as Hiv0.
  { intros ->. cbn in Hj. by injection Hj as <-. }
  pose proof (au_burst_turns _ _ _ _ Hj Hb) as [[Ho Hna] Hiv].
  destruct (auth_abc_ok k1 Ho) as (y & i & tenant & Ha & Hi & _ & _).
  destruct Ho as [_ _ Hlen (x0 & c0 & Hc & Hp)]. exists s', tn, i, tenant. split_and!; [done..| |].
  - intros ->. cbn in Hna. unfold au_generate in Hg. rewrite Ha in Hg. cbn [mbind outcome_bind] in Hg.
    cbn zeta in Hg. cbn [au_native au_with_workload] in Hg. rewrite Hna in Hg.
    unfold au_send_native, au_on_link in Hg. cbn [au_base au_with_workload] in Hg.
    destruct (send_get _ _ _ _ _) as [w1| |]; cbn [mbind outcome_bind] in Hg; [|done..].
    injection Hg as <-. split; [done|]. intros Hin space Hsp.
    destruct (au_reply_record s' tn id 1 l t (counter 30 i) (auth_object i).2 space)
      as (head & Hh & ->); [done..|by apply Hst| |].
    { rewrite len_counter_30. unfold auth_object. cbn [snd]. rewrite len_app, Hbcrypt, len_counter; lia. }
    apply au_check_true; [done|cbn; apply lookup_insert_eq|by rewrite Hh, len_counter_30].
  - intros ->. cbn in Hna, Hiv. destruct Hiv as [|[Hvl Hvb]]; [done|].
    unfold au_generate in Hg. rewrite Ha in Hg. cbn [mbind outcome_bind] in Hg.
    cbn zeta in Hg. cbn [au_native au_with_workload] in Hg. rewrite Hna in Hg. unfold au_send_invoke in Hg.
    cbn [au_payload_auth au_iv au_with_workload] in Hg. rewrite Hp, (au_request_ok x0 c0 i _ Hc Hvl Hvb) in Hg.
    cbn [mbind outcome_bind au_base au_with_workload] in Hg.
    destruct (cb_invoke _ _ _ _ _) as [b1| |] eqn:Eb; cbn [mbind outcome_bind] in Hg; [|done..].
    injection Hg as <-. unfold auth_head in Eb. rewrite <- (assoc_L (++)) in Eb.
    eexists. split; [exact Eb|]. destruct (counter_block i) as [Hcl Hcb].
    pose proof (aes_block (au_iv k1) (counter 16 i) Hvl Hvb Hcl Hcb) as Hbl.
    assert (len auth_iv = 32 ∧ is_bytes auth_iv) as [Hfl Hfb] by (split; [done|by apply (bool_decide_unpack _)]).
    split.
    + intros E. unfold auth_seen. rewrite (Hiv0 E), aes_inverse by done. apply counter_72.
    + intros Hin d Hd Htd Hargs.
      destruct (stores_holds d 1 l t (counter 30 i) (auth_object i).2) as [ver Hv];
        [by rewrite Htd|by rewrite Hd|done|done|by apply Hst|].
      pose proof (auth_answers tsc Hbcrypt d 1 i (encrypted (au_iv k1) i ++ replicate 56 0) ver) as Hx.
      rewrite take_app_length', drop_app_length' in Hx by (unfold len in Hbl; lia).
      apply Hx; [done|by rewrite len_app, Hbl|by apply aes_clear|done|done].
Qed.
End auth.

(** ** A cipher for examples

    The chaining of IGE over a block cipher that adds one to every byte, and a
    hash that keeps the first 24 bytes of the password. *)

Definition toy_encrypt (key iv block : bytes) : bytes * bytes :=
  let mixed := (λ b, wrap 8 (b + 1)) <$> zip_with Z.lxor block (take 16 iv) in
  let out := zip_with Z.lxor mixed (drop 16 iv) in
  (out, out ++ block).

Definition toy_decrypt (key iv block : bytes) : bytes :=
  let mixed := (λ b, wrap 8 (b - 1)) <$> zip_with Z.lxor block (drop 16 iv) in
  zip_with Z.lxor mixed (take 16 iv).

Definition toy_aes : AesEncrypt := toy_encrypt.

Definition toy_crypto : Crypto := {|
  aes_ige_decrypt := toy_decrypt;
  bcrypt _ _ password := (wrap 8) <$> take 24 (password ++ replicate 24 0);
  digest_md5 _ := replicate 16 0;
  digest_sha1 _ := replicate 20 0;
  digest_sha256 _ := replicate 32 0;
  digest_sha512 _ := replicate 64 0;
|}.

Lemma lxor_width w a b : 0 ≤ w → in_width w a → in_width w b → in_width w (Z.lxor a b).
Proof.
  intros Hw Ha Hb. apply testbit_in_width; [done| |].
  - apply Z.lxor_nonneg. destruct Ha, Hb. lia.
  - intros n Hn. rewrite Z.lxor_spec, !(in_width_testbit w) by done. done.
Qed.

Lemma zip_lxor_bytes l1 l2 : is_bytes l1 → is_bytes l2 → is_bytes (zip_with Z.lxor l1 l2).
Proof.
  intros H1. revert l2. induction H1 as [|a l1 Ha _ IH]; intros [|b l2] H2; cbn; [by constructor..|].
  apply Forall_cons in H2 as [Hb H2]. constructor; [by apply lxor_width|by apply IH].
Qed.

Lemma toy_inverse (p a b : bytes) :
  length a = length p → length b = length p → is_bytes p → is_bytes a →
  zip_with Z.lxor ((λ b, wrap 8 (b - 1)) <$>
    zip_with Z.lxor (zip_with Z.lxor ((λ b, wrap 8 (b + 1)) <$> zip_with Z.lxor p a) b) b) a = p.
Proof.
  revert a b. induction p as [|x p IH]; intros [|y a] [|z b] Ha Hb; try done; cbn [fmap list_fmap zip_with].
  intros [Hx Hp]%Forall_cons [Hy Hya]%Forall_cons. f_equal; [|apply IH; [by injection Ha|by injection Hb|done..]].
  rewrite (Z.lxor_assoc _ z z), Z.lxor_nilpotent, Z.lxor_0_r.
  assert (wrap 8 (wrap 8 (Z.lxor x y + 1) - 1) = Z.lxor x y) as ->.
  { unfold wrap. rewrite Zminus_mod_idemp_l, Z.add_simpl_r. apply Z.mod_small. by apply lxor_width. }
  by rewrite Z.lxor_assoc, Z.lxor_nilpotent, Z.lxor_0_r.
Qed.

Lemma toy_aes_laws : @AesLaws toy_crypto toy_aes.
Proof.
  assert (∀ iv : bytes, len iv = 32 → length (take 16 iv) = 16%nat ∧ length (drop 16 iv) = 16%nat) as Hiv.
  { unfold len. intros iv Hl. rewrite length_take, length_drop. lia. }
  assert (∀ p : bytes, len p = 16 → length p = 16%nat) as Hp by (unfold len; lia).
  split; cbn [aes_ige_decrypt aes_ige_encrypt toy_crypto]; unfold aes_ige_encrypt, toy_aes, toy_encrypt, toy_decrypt; cbn [fst snd].
  - intros iv p (Ht & Hd)%Hiv Hb Hl%Hp Hpb. apply toy_inverse; [congruence..|done|by apply Forall_take].
  - intros iv p (Ht & Hd)%Hiv Hb Hl%Hp Hpb. unfold len. rewrite !length_zip_with, length_fmap, length_zip_with. lia.
  - intros iv p (Ht & Hd)%Hiv Hb Hl%Hp Hpb. split.
    + unfold len. rewrite length_app, !length_zip_with, length_fmap, length_zip_with. lia.
    + apply is_bytes_app. split; [|done]. apply zip_lxor_bytes; [|by apply Forall_drop].
      apply Forall_fmap, Forall_true. intros x. apply wrap_range. done.
  - intros iv c (Ht & Hd)%Hiv Hb Hl%Hp. unfold len. rewrite length_zip_with, length_fmap, length_zip_with. lia.
Qed.

Lemma toy_hash_len cost salt password : len (@bcrypt toy_crypto cost salt password) = 24.
Proof.
  cbn [bcrypt toy_crypto]. unfold len. rewrite length_fmap, length_take, length_app, length_replicate. lia.
Qed.

Section example.
#[local] Existing Instances clock_net any_loader test_workloads toy_crypto toy_aes toy_aes_laws exact_bytes exact_bytes_laws.

(** Users 1 and 2, encrypted one after the other: the server takes the second for
    an intruder. *)
Lemma second_request_of_burst_rejected :
  let iv2 := (toy_encrypt auth_key auth_iv (counter 16 1)).2 in
  auth_status 1 (auth_seen auth_iv 1) = AUTH_SUCCESSFUL ∧
  auth_status 2 (auth_seen iv2 2) = AUTH_UNSUCCESSFUL ∧
  auth_status 2 (auth_seen auth_iv 2) = AUTH_SUCCESSFUL.
Proof. vm_compute. split_and!; reflexivity. Qed.

Definition ex_auth_client : @AuthClient clock_net any_loader test_workloads unit :=
  AuthClient_new clock_link (@ExtensionManager_new any_loader) 0 tt tt 34000000 true true 30 72 2.

Definition ex_auth_sent : outcome (@AuthClient clock_net any_loader test_workloads unit) :=
  au_generate (au_burst_start ex_auth_client) 5.

Lemma auth_clients_authenticate_witness :
  ∃ k2 s' i tenant args, ex_auth_sent = Ret k2 ∧ fill_auth Store_new 7 1 1000 = Ret s' ∧
    cb_invoke (au_base (au_burst_start ex_auth_client)) tenant 4 (auth_name ++ args) 5 = Ret (au_base k2) ∧
    auth_seen auth_iv i = counter 72 i.
Proof.
  assert (match ex_auth_sent with Ret _ => true | _ => false end = true) as Hsent by (vm_compute; reflexivity).
  destruct ex_auth_sent as [k2| |] eqn:E; [clear Hsent|discriminate Hsent..].
  destruct (auth_clients_authenticate (λ _ _, tt) no_tasks (λ _, 0)
    toy_hash_len ltac:(intros; apply Forall_fmap, Forall_true; intros; by apply wrap_range)
    Store_new 7 1000 clock_link (@ExtensionManager_new any_loader) 0 tt tt 34000000 true true 2 0 0
    ex_auth_client (au_burst_start ex_auth_client) 5 k2)
    as (s' & tn & i & tenant & Hf & _ & _ & _ & Hi); [apply Store_new_wf|by split|done|done|exact E|].
  destruct (Hi eq_refl) as (args & Hc & H0 & _). exists k2, s', i, tenant, args.
  split; [exact eq_refl|split; [exact Hf|split; [exact Hc|exact (H0 eq_refl)]]].
Defined.
End example.
