(* ===== verification/Lpm.v ===== *)
(** * Lpm: routing by longest prefix

    Models net/test/lpm/src/nf.rs, the network function that NetBricks is tested
    with: a routing table in the manner of DIR-24-8.  [tbl24] has an entry for
    the first 24 bits of an address: a gate, or, marked, the number of a block of
    256 entries of [tbl_long] for the last 8.

    A [Vec] of 2^24 zeros is its length and the entries that are not zero any
    more.  A [HashMap] is iterated in an order that is not specified, which is an
    argument. *)

From stdpp Require Import gmap.
From S2P Require Import Prelude Bits Packed Headers.

(** ** Vectors of zeros *)

Record ZeroVec := mkZeroVec { zv_len : Z; zv_cells : gmap Z Z }.

Definition zeros_of (n : Z) : ZeroVec := mkZeroVec n ∅.

Definition zv_cell (v : ZeroVec) (i : Z) : Z := default 0 (zv_cells v !! i).

Definition zv_get (v : ZeroVec) (i : Z) : outcome Z :=
  if decide (0 ≤ i < zv_len v) then Ret (zv_cell v i) else Panic.

Definition zv_set (v : ZeroVec) (i x : Z) : outcome ZeroVec :=
  if decide (0 ≤ i < zv_len v) then Ret (mkZeroVec (zv_len v) (<[i := x]> (zv_cells v))) else Panic.

(** [for j in a..b { v[j] = f(j) }] *)
Definition zv_fill (v : ZeroVec) (a b : Z) (f : Z → Z) : outcome ZeroVec :=
  ofold (λ v j, zv_set v j (f j)) v (seqZ a (b - a)).

(** ** The table *)

Definition TBL24_SIZE : Z := 2 ^ 24 + 1.

Definition RAW_SIZE : Z := 33.

Definition OVERFLOW_MASK : Z := 0x8000.

(** [!OVERFLOW_MASK] *)
Definition NOT_OVERFLOW : Z := Z.lxor 0xffff OVERFLOW_MASK.

Record IPLookup := mkIPLookup {
  tbl24 : ZeroVec;
  tbl_long : ZeroVec;
  current_tbl_long : Z;
  raw_entries : list (gmap Z Z);
}.

Definition IPLookup_new : IPLookup :=
  mkIPLookup (zeros_of TBL24_SIZE) (zeros_of TBL24_SIZE) 0 (replicate (Z.to_nat RAW_SIZE) ∅).

(** Lengths above 32 are out of range. *)
Definition lpm_insert (t : IPLookup) (ip len gate : Z) : outcome IPLookup :=
  m ← index (raw_entries t) len;
  Ret (mkIPLookup (tbl24 t) (tbl_long t) (current_tbl_long t)
         (<[Z.to_nat len := <[ip := gate]> m]> (raw_entries t))).

(** The octets of [Ipv4Addr::new], most significant first. *)
Definition insert_ipv4 (t : IPLookup) (ip : Z * Z * Z * Z) (len gate : Z) : outcome IPLookup :=
  let '(a, b, c, d) := ip in lpm_insert t (((a * 256 + b) * 256 + c) * 256 + d) len gate.

(** An entry of a prefix of at most 24 bits. *)
Definition short_entry (i : Z) (t : IPLookup) (kv : Z * Z) : outcome IPLookup :=
  let start := Z.shiftr kv.1 8 in
  let end_ := start + Z.shiftl 1 (24 - i) in
  v ← zv_fill (tbl24 t) start end_ (λ _, kv.2);
  Ret (mkIPLookup v (tbl_long t) (current_tbl_long t) (raw_entries t)).

(** An entry of a longer one: its block is allocated, or amended. *)
Definition long_entry (i : Z) (t : IPLookup) (kv : Z * Z) : outcome IPLookup :=
  let addr := kv.1 in
  t24entry ← zv_get (tbl24 t) (Z.shiftr addr 8);
  if decide (Z.land t24entry OVERFLOW_MASK = 0) then
    let ctlb := current_tbl_long t in
    let start := ctlb + Z.land addr 0xff in
    let end_ := start + Z.shiftl 1 (32 - i) in
    long ← zv_fill (tbl_long t) ctlb (ctlb + 256)
             (λ j, if decide (j < start ∨ j >= end_) then t24entry else kv.2);
    v ← zv_set (tbl24 t) (Z.shiftr addr 8) (Z.lor (wrap 16 (Z.shiftr ctlb 8)) OVERFLOW_MASK);
    Ret (mkIPLookup v long (ctlb + 256) (raw_entries t))
  else
    let start := Z.shiftl (Z.land t24entry NOT_OVERFLOW) 8 + Z.land addr 0xff in
    let end_ := start + Z.shiftl 1 (32 - i) in
    long ← zv_fill (tbl_long t) start end_ (λ _, kv.2);
    Ret (mkIPLookup (tbl24 t) long (current_tbl_long t) (raw_entries t)).

Section table.
(** The order in which a map is iterated. *)
Context (entries : gmap Z Z → list (Z * Z)).

Definition each_entry (f : Z → IPLookup → Z * Z → outcome IPLookup) (t : IPLookup) (i : Z) : outcome IPLookup :=
  m ← index (raw_entries t) i;
  ofold (f i) t (entries m).

Definition construct_table (t : IPLookup) : outcome IPLookup :=
  t ← ofold (each_entry short_entry) t (seqZ 0 25);
  ofold (each_entry long_entry) t (seqZ 25 (RAW_SIZE - 25)).
End table.

Definition lookup_entry (t : IPLookup) (ip : Z) : outcome Z :=
  t24entry ← zv_get (tbl24 t) (Z.shiftr ip 8);
  if decide (Z.land t24entry OVERFLOW_MASK > 0) then
    zv_get (tbl_long t) (Z.shiftl (Z.land t24entry NOT_OVERFLOW) 8 + Z.land ip 0xff)
  else Ret t24entry.

(** ** The network function

    Its routes are all of 32 bits and have gate 1. *)

Definition lpm_addresses : list (Z * Z * Z * Z) :=
   [(188, 19, 50, 135); (123, 19, 205, 58); (58, 218, 199, 165); (61, 90, 38, 155);
    (190, 179, 91, 29); (198, 23, 250, 66); (42, 103, 111, 67); (117, 197, 187, 144);
    (207, 198, 106, 183); (122, 90, 22, 43); (5, 167, 64, 38); (152, 166, 114, 31);
    (191, 81, 59, 58); (190, 175, 182, 182); (190, 237, 89, 70); (181, 21, 43, 134);
    (122, 171, 197, 247); (113, 212, 69, 195); (151, 74, 149, 41); (27, 28, 145, 139);
    (206, 169, 145, 35); (105, 103, 122, 43); (116, 45, 32, 133); (202, 109, 166, 177);
    (195, 53, 118, 92); (5, 167, 65, 10); (216, 151, 137, 247); (103, 56, 182, 207);
    (216, 151, 138, 92); (88, 250, 194, 52); (41, 232, 211, 169); (106, 215, 170, 250);
    (187, 3, 143, 162); (110, 85, 81, 79); (220, 111, 212, 68); (185, 151, 210, 156);
    (190, 179, 180, 225); (2, 92, 39, 245); (107, 191, 202, 53); (46, 161, 9, 22);
    (122, 117, 64, 197); (186, 133, 153, 160); (36, 255, 211, 72); (173, 234, 225, 96);
    (95, 68, 215, 116); (115, 84, 82, 217); (84, 164, 153, 138); (190, 50, 251, 94);
    (93, 105, 249, 221); (37, 21, 101, 156); (143, 0, 222, 235); (5, 167, 69, 45);
    (37, 191, 159, 133); (203, 134, 213, 65); (84, 211, 75, 56); (117, 248, 162, 119);
    (69, 178, 195, 20); (113, 189, 147, 99); (185, 84, 202, 52); (188, 143, 232, 190);
    (41, 221, 50, 102); (92, 82, 174, 27); (113, 55, 12, 76); (62, 211, 191, 202);
    (191, 82, 178, 107); (181, 23, 198, 10); (117, 196, 200, 35); (117, 198, 60, 179);
    (178, 136, 73, 133); (203, 130, 228, 60); (179, 41, 211, 34); (193, 92, 162, 10);
    (216, 151, 130, 236); (2, 185, 182, 1); (185, 148, 100, 45); (85, 105, 157, 175);
    (171, 80, 158, 237); (109, 165, 67, 16); (5, 167, 66, 53); (183, 165, 159, 231);
    (152, 232, 193, 27); (60, 184, 112, 190); (122, 163, 104, 12); (177, 213, 230, 190);
    (113, 146, 90, 33); (190, 49, 119, 180); (89, 187, 144, 19); (31, 168, 81, 84);
    (201, 254, 169, 36); (200, 71, 53, 112); (90, 189, 133, 179); (24, 219, 68, 17);
    (190, 178, 143, 49); (41, 105, 236, 253); (183, 60, 48, 25); (188, 143, 232, 254);
    (36, 97, 169, 81); (192, 99, 147, 251); (171, 233, 174, 141); (112, 227, 158, 252);
    (188, 143, 233, 59); (192, 209, 125, 92); (5, 167, 66, 37); (95, 215, 103, 88);
    (5, 167, 65, 50)].

Definition lpm_table (entries : gmap Z Z → list (Z * Z)) : outcome IPLookup :=
  t ← ofold (λ t ip, insert_ipv4 t ip 32 1) IPLookup_new lpm_addresses;
  construct_table entries t.

(** The group of a packet. *)
Definition lpm_group (t : IPLookup) (h : IpHeader) : outcome Z := lookup_entry t (ip_src h).

(** ** What a routing table promises *)

(** A route: an address, the length of its prefix, and a gate. *)
Definition Route : Type := Z * Z * Z.

Definition insert_routes (t : IPLookup) (routes : list Route) : outcome IPLookup :=
  ofold (λ t r, lpm_insert t r.1.1 r.1.2 r.2) t routes.

(** The gate that was given last to a prefix. *)
Definition last_gate (routes : list Route) (ip len : Z) : option Z :=
  foldl (λ gate r, if decide (r.1 = (ip, len)) then Some r.2 else gate) None routes.

(** The gate of the longest of the prefixes of at most [n] bits that an address
    has; 0 without any. *)
Fixpoint longest_prefix (routes : list Route) (ip : Z) (n : nat) : Z :=
  match last_gate routes (ip - ip mod 2 ^ (32 - Z.of_nat n)) (Z.of_nat n), n with
  | Some gate, _ => gate
  | None, O => 0
  | None, S n => longest_prefix routes ip n
  end.

Definition ex_lpm : outcome IPLookup :=
  t ← insert_ipv4 IPLookup_new (10, 1, 0, 0) 23 5;
  t ← insert_ipv4 t (10, 1, 1, 128) 25 6;
  t ← insert_ipv4 t (10, 1, 1, 200) 32 7;
  construct_table map_to_list t.

Definition ex_routes : list Route := [(167837696, 23, 5); (167838080, 25, 6); (167838152, 32, 7)].

Example ex_lpm_routes :
  (t ← ex_lpm; mapM (λ ip, lookup_entry t (167837696 + ip)) [0; 255; 256; 383; 384; 455; 456; 457; 512]) =
  Ret [5; 5; 5; 5; 6; 6; 7; 6; 0].
Proof. vm_compute. reflexivity. Qed.

Example ex_lpm_agrees :
  (λ ip, longest_prefix ex_routes (167837696 + ip) 32) <$> [0; 255; 256; 383; 384; 455; 456; 457; 512] =
  [5; 5; 5; 5; 6; 6; 7; 6; 0].
Proof. vm_compute. reflexivity. Qed.

(** * The table routes by longest prefix *)

(** ** Vectors *)

Lemma zv_get_ok v i : 0 ≤ i < zv_len v → zv_get v i = Ret (zv_cell v i).
Proof. intros Hi. unfold zv_get. by rewrite decide_True. Qed.

Lemma zv_set_spec v i x :
  0 ≤ i < zv_len v →
  ∃ v', zv_set v i x = Ret v' ∧ zv_len v' = zv_len v ∧
    ∀ j, zv_cell v' j = if decide (j = i) then x else zv_cell v j.
Proof.
  intros Hi. unfold zv_set. rewrite decide_True by done. eexists. split; [done|]. split; [done|].
  intros j. unfold zv_cell. cbn. case_decide as Hj; [subst; by rewrite lookup_insert_eq|].
  by rewrite lookup_insert_ne by done.
Qed.

Lemma zv_fill_spec v a b f :
  0 ≤ a → b ≤ zv_len v →
  ∃ v', zv_fill v a b f = Ret v' ∧ zv_len v' = zv_len v ∧
    ∀ j, zv_cell v' j = if decide (a ≤ j < b) then f j else zv_cell v j.
Proof.
  intros Ha. unfold zv_fill. remember (Z.to_nat (b - a)) as n eqn:Hn. revert a v Ha Hn.
  induction n as [|n IH]; intros a v Ha Hn Hb.
  - rewrite (seqZ_nil a) by lia. exists v. split_and!; [done..|]. intros j. by rewrite decide_False by lia.
  - rewrite (seqZ_cons a) by lia. cbn [ofold].
    destruct (zv_set_spec v a (f a)) as (v1 & -> & Hl & Hc); [lia|]. cbn [mbind outcome_bind].
    destruct (IH (Z.succ a) v1) as (v' & Hv' & Hl' & Hc'); [lia..|]. exists v'.
    rewrite Hl' in *. replace (Z.pred (b - a)) with (b - Z.succ a) by lia. split_and!; [done..|].
    intros j. rewrite Hc', Hc. repeat case_decide; try lia; subst; done.
Qed.

(** ** Marks *)

Lemma mask_bits n : 0 ≤ n → Z.testbit OVERFLOW_MASK n = (15 =? n).
Proof. intros Hn. change OVERFLOW_MASK with (2 ^ 15). by apply Z.pow2_bits_eqb. Qed.

Lemma gate_unmarked g : 0 ≤ g < 0x8000 → Z.land g OVERFLOW_MASK = 0.
Proof.
  intros Hg. apply Z.bits_inj'. intros n Hn. rewrite Z.land_spec, Z.bits_0, mask_bits by done.
  destruct (Z.eqb_spec 15 n) as [<-|]; [|apply andb_false_r]. by rewrite (in_width_testbit 15).
Qed.

Lemma block_marked c :
  0 ≤ c < 0x8000 →
  Z.land (Z.lor (wrap 16 c) OVERFLOW_MASK) OVERFLOW_MASK = 0x8000 ∧
  Z.land (Z.lor (wrap 16 c) OVERFLOW_MASK) NOT_OVERFLOW = c.
Proof.
  intros Hc. rewrite wrap_id by (unfold in_width; lia). split; apply Z.bits_inj'; intros n Hn;
    rewrite Z.land_spec, Z.lor_spec, mask_bits by done.
  - change 0x8000 with OVERFLOW_MASK. rewrite mask_bits by done. by destruct (Z.testbit c n), (15 =? n).
  - change NOT_OVERFLOW with (Z.ones 15). rewrite Z.testbit_ones_nonneg by done.
    destruct (Z.ltb_spec n 15).
    + by rewrite andb_true_r, (proj2 (Z.eqb_neq 15 n)), orb_false_r by lia.
    + by rewrite andb_false_r, (in_width_testbit 15).
Qed.

(** ** Routes

    What the entries entered so far, one after the other, make of an address. *)

Definition matches (ip : Z) (e : Z * (Z * Z)) : Prop := e.2.1 ≤ ip < e.2.1 + 2 ^ (32 - e.1).

#[global] Instance matches_dec ip e : Decision (matches ip e).
Proof. unfold matches. apply _. Defined.

Definition routed (es : list (Z * (Z * Z))) (ip : Z) : Z :=
  foldl (λ gate e, if decide (matches ip e) then e.2.2 else gate) 0 es.

Lemma route_snoc es e ip : routed (es ++ [e]) ip = if decide (matches ip e) then e.2.2 else routed es ip.
Proof. unfold routed. by rewrite foldl_app. Qed.

(** A prefix of [i] bits, and a gate that is not marked. *)
Record entry_fits (e : Z * (Z * Z)) : Prop := {
  ef_prefix : 0 ≤ e.1 ≤ 32;
  ef_addr : in_width 32 e.2.1;
  ef_aligned : e.2.1 mod 2 ^ (32 - e.1) = 0;
  ef_gate : 0 ≤ e.2.2 < 0x8000;
}.

Lemma in_24 a b : 0 ≤ b < 256 → Z.shiftr (256 * a + b) 8 = a ∧ Z.land (256 * a + b) 0xff = b.
Proof.
  intros Hb. rewrite Z.shiftr_div_pow2 by done. change (Z.land _ 0xff) with (Z.land (256 * a + b) (Z.ones 8)).
  rewrite Z.land_ones by done. change (2 ^ 8) with 256. split.
  - rewrite Z.mul_comm, Z.div_add_l by done. rewrite Z.div_small by done. lia.
  - rewrite Z.mul_comm, Z.add_comm, Z.mod_add by done. by apply Z.mod_small.
Qed.

Lemma split_24 x : in_width 32 x →
  ∃ a b, x = 256 * a + b ∧ 0 ≤ a < 2 ^ 24 ∧ 0 ≤ b < 256.
Proof.
  unfold in_width. intros Hx. exists (x / 256), (x mod 256). pose proof (Z.mod_pos_bound x 256).
  pose proof (Z.div_mod x 256). split_and!; lia.
Qed.

(** Short prefixes match whole blocks. *)
Lemma short_matches i k v a b :
  entry_fits (i, (k, v)) → i ≤ 24 → 0 ≤ b < 256 →
  0 ≤ Z.shiftr k 8 ∧ Z.shiftr k 8 + Z.shiftl 1 (24 - i) ≤ 2 ^ 24 ∧
  (matches (256 * a + b) (i, (k, v)) ↔ Z.shiftr k 8 ≤ a < Z.shiftr k 8 + Z.shiftl 1 (24 - i)).
Proof.
  intros [Hi Hk Hal _] H24 Hb. cbn [fst snd] in *. unfold matches. cbn [fst snd].
  rewrite Z.shiftl_mul_pow2, Z.mul_1_l by lia. rewrite Z.shiftr_div_pow2 by done. change (2 ^ 8) with 256.
  assert (2 ^ (32 - i) = 256 * 2 ^ (24 - i)) as Hp.
  { replace (32 - i) with (8 + (24 - i)) by lia. by rewrite Z.pow_add_r by lia. }
  assert (2 ^ 24 = 2 ^ i * 2 ^ (24 - i)) as Hp2 by (rewrite <- Z.pow_add_r by lia; f_equal; lia).
  rewrite Hp in *. pose proof (Z.pow_pos_nonneg 2 (24 - i)). pose proof (Z.pow_pos_nonneg 2 i).
  apply Z.div_exact in Hal; [|lia]. set (q := k / (256 * 2 ^ (24 - i))) in *.
  set (w := 2 ^ (24 - i)) in *. unfold in_width in Hk. change (2 ^ 32) with (256 * 2 ^ 24) in Hk.
  assert (k / 256 = w * q) as ->.
  { rewrite Hal. replace (256 * w * q) with (w * q * 256) by lia. by apply Z.div_mul. }
  assert (0 ≤ q < 2 ^ i) as Hq by nia. split_and!; nia.
Qed.

(** Long ones match within a block. *)
Lemma long_matches i a0 b0 g a b :
  entry_fits (i, (256 * a0 + b0, g)) → 25 ≤ i → 0 ≤ b0 < 256 → 0 ≤ b < 256 →
  b0 + Z.shiftl 1 (32 - i) ≤ 256 ∧ 1 ≤ Z.shiftl 1 (32 - i) ∧
  (matches (256 * a + b) (i, (256 * a0 + b0, g)) ↔ a = a0 ∧ b0 ≤ b < b0 + Z.shiftl 1 (32 - i)).
Proof.
  intros [Hi _ Hal _] H25 Hb0 Hb. cbn [fst snd] in *. unfold matches. cbn [fst snd].
  rewrite Z.shiftl_mul_pow2, Z.mul_1_l by lia.
  assert (256 = 2 ^ (i - 24) * 2 ^ (32 - i)) as Hp.
  { rewrite <- Z.pow_add_r by lia. replace (i - 24 + (32 - i)) with 8 by lia. done. }
  pose proof (Z.pow_pos_nonneg 2 (32 - i)). pose proof (Z.pow_pos_nonneg 2 (i - 24)).
  set (w := 2 ^ (32 - i)) in *. set (u := 2 ^ (i - 24)) in *.
  assert (b0 mod w = 0) as Hb0w.
  { rewrite Hp in Hal. replace (u * w * a0 + b0) with (b0 + (u * a0) * w) in Hal by lia.
    by rewrite Z.mod_add in Hal by lia. }
  apply Z.div_exact in Hb0w; [|lia]. set (q := b0 / w) in *.
  assert (0 ≤ q < u) by nia. assert (b0 + w ≤ 256) by nia. split_and!; [lia|lia|]. split; nia.
Qed.

(** ** The table after some entries *)

Record lpm_rep (t : IPLookup) (blocks : list Z) (es : list (Z * (Z * Z))) : Prop := {
  lr_24 : zv_len (tbl24 t) = TBL24_SIZE;
  lr_long : zv_len (tbl_long t) = TBL24_SIZE;
  lr_current : current_tbl_long t = 256 * len blocks;
  lr_nodup : NoDup blocks;
  lr_gate : ∀ a, 0 ≤ a < 2 ^ 24 → a ∉ blocks →
    0 ≤ zv_cell (tbl24 t) a < 0x8000 ∧ ∀ b, 0 ≤ b < 256 → routed es (256 * a + b) = zv_cell (tbl24 t) a;
  lr_block : ∀ c a, blocks !! c = Some a →
    zv_cell (tbl24 t) a = Z.lor (wrap 16 (Z.of_nat c)) OVERFLOW_MASK ∧
    ∀ b, 0 ≤ b < 256 → routed es (256 * a + b) = zv_cell (tbl_long t) (256 * Z.of_nat c + b);
}.

Lemma lpm_fresh raw : lpm_rep (mkIPLookup (zeros_of TBL24_SIZE) (zeros_of TBL24_SIZE) 0 raw) [] [].
Proof. split; try done; [apply NoDup_nil_2]. Qed.

Lemma short_entry_spec t es i kv :
  lpm_rep t [] es → entry_fits (i, kv) → i ≤ 24 →
  ∃ t', short_entry i t kv = Ret t' ∧ raw_entries t' = raw_entries t ∧ lpm_rep t' [] (es ++ [(i, kv)]).
Proof.
  intros [H24 Hl Hc Hn Hg _] He Hi. destruct kv as [k g]. unfold short_entry. cbn [fst snd].
  pose proof (λ a b, short_matches i k g a b He Hi) as Hm.
  destruct (Hm 0 0 ltac:(lia)) as (H0 & H1 & _).
  destruct (zv_fill_spec (tbl24 t) (Z.shiftr k 8) (Z.shiftr k 8 + Z.shiftl 1 (24 - i)) (λ _, g))
    as (v & Hv & Hvl & Hcell); [done|rewrite H24; unfold TBL24_SIZE; lia|].
  rewrite Hv. eexists. split; [done|]. split; [done|]. split; cbn [tbl24 tbl_long current_tbl_long]; try done.
  - by rewrite Hvl.
  - intros a Ha _. rewrite Hcell. destruct (Hg a Ha) as [Hr Hroute]; [apply not_elem_of_nil|].
    destruct He as [_ _ _ Hgate]. cbn [fst snd] in Hgate.
    split; [by case_decide|]. intros b Hb. rewrite route_snoc. cbn [fst snd].
    destruct (Hm a b Hb) as (_ & _ & Hiff). repeat case_decide; try tauto. by apply Hroute.
Qed.

(** Room for the entries of a block. *)
Lemma shift_block c : Z.shiftr (256 * c) 8 = c ∧ Z.shiftl c 8 = c * 256.
Proof.
  rewrite Z.shiftr_div_pow2, Z.shiftl_mul_pow2, Z.mul_comm by done. change (2 ^ 8) with 256.
  by rewrite Z.div_mul.
Qed.

Section long.
Context (t : IPLookup) (blocks : list Z) (es : list (Z * (Z * Z))) (Hrep : lpm_rep t blocks es).
Context (i a0 b0 g : Z) (Hfits : entry_fits (i, (256 * a0 + b0, g))) (H25 : 25 ≤ i).
Context (Ha0 : 0 ≤ a0 < 2 ^ 24) (Hb0 : 0 ≤ b0 < 256).

Lemma long_entry_amends :
  a0 ∈ blocks → len blocks ≤ 0x8000 →
  ∃ t', long_entry i t (256 * a0 + b0, g) = Ret t' ∧ raw_entries t' = raw_entries t ∧
    lpm_rep t' blocks (es ++ [(i, (256 * a0 + b0, g))]).
Proof.
  intros Hin Hmax. destruct Hrep as [H24 Hl Hc Hn Hg Hb].
  pose proof (λ a b, long_matches i a0 b0 g a b Hfits H25 Hb0) as Hm.
  destruct (Hm 0 0 ltac:(lia)) as (Hend & Hw & _). unfold long_entry. cbn [fst snd].
  destruct (in_24 a0 b0 Hb0) as [-> ->]. set (w := Z.shiftl 1 (32 - i)) in *.
  rewrite zv_get_ok by (rewrite H24; unfold TBL24_SIZE; lia). cbn [mbind outcome_bind].
  apply list_elem_of_lookup in Hin as [c Hlc]. destruct (Hb c a0 Hlc) as [Hcell Hroute].
  pose proof (lookup_lt_Some _ _ _ Hlc) as Hclt. unfold len in Hmax.
  destruct (block_marked (Z.of_nat c)) as [Hmark Hnum]; [lia|].
  rewrite Hcell, Hmark, Hnum, (proj2 (shift_block _)). rewrite decide_False by done.
  destruct (zv_fill_spec (tbl_long t) (Z.of_nat c * 256 + b0) (Z.of_nat c * 256 + b0 + w) (λ _, g))
    as (v & Hv & Hvl & Hlong); [lia|rewrite Hl; unfold TBL24_SIZE; lia|].
  rewrite Hv. eexists. split; [done|]. split; [done|].
  split; cbn [tbl24 tbl_long current_tbl_long]; try done; [by rewrite Hvl| |].
  - intros a Ha Hnin. destruct (Hg a Ha Hnin) as [Hr Hro]. split; [done|]. intros b Hbb.
    rewrite route_snoc. destruct (Hm a b Hbb) as (_ & _ & Hiff). rewrite decide_False; [by apply Hro|].
    rewrite Hiff. intros [-> _]. apply Hnin. apply list_elem_of_lookup. by exists c.
  - intros c' a Hc'. destruct (Hb c' a Hc') as [Hcell' Hroute']. split; [done|]. intros b Hbb.
    rewrite route_snoc, Hlong. destruct (Hm a b Hbb) as (_ & _ & Hiff). cbn [fst snd].
    assert (a = a0 ↔ c' = c) as Hac.
    { split; [|intros ->; congruence]. intros ->. by eapply (NoDup_lookup blocks). }
    destruct (decide (c' = c ∧ b0 ≤ b < b0 + w)) as [[-> Hbw]|Hno].
    + rewrite decide_True by tauto. by rewrite decide_True by lia.
    + rewrite decide_False by tauto. rewrite decide_False; [by apply Hroute'|]. intros Hj. apply Hno.
      assert (c' = c) as -> by lia. split; [done|lia].
Qed.

Lemma long_entry_allocates :
  a0 ∉ blocks → len blocks < 0x8000 →
  ∃ t', long_entry i t (256 * a0 + b0, g) = Ret t' ∧ raw_entries t' = raw_entries t ∧
    lpm_rep t' (blocks ++ [a0]) (es ++ [(i, (256 * a0 + b0, g))]).
Proof.
  intros Hin Hroom. destruct Hrep as [H24 Hl Hc Hn Hg Hb]. pose proof (len_nonneg blocks) as Hpos.
  pose proof (λ a b, long_matches i a0 b0 g a b Hfits H25 Hb0) as Hm.
  destruct (Hm 0 0 ltac:(lia)) as (Hend & Hw & _). unfold long_entry. cbn [fst snd].
  destruct (in_24 a0 b0 Hb0) as [-> ->]. set (w := Z.shiftl 1 (32 - i)) in *.
  rewrite zv_get_ok by (rewrite H24; unfold TBL24_SIZE; lia). cbn [mbind outcome_bind].
  destruct (Hg a0 Ha0 Hin) as [Hr Hroute]. rewrite gate_unmarked by done. rewrite decide_True by done.
  rewrite Hc, (proj1 (shift_block _)).
  destruct (zv_fill_spec (tbl_long t) (256 * len blocks) (256 * len blocks + 256)
    (λ j, if decide (j < 256 * len blocks + b0 ∨ j >= 256 * len blocks + b0 + w)
          then zv_cell (tbl24 t) a0 else g))
    as (v & Hv & Hvl & Hlong); [lia|rewrite Hl; unfold TBL24_SIZE; lia|].
  rewrite Hv. cbn [mbind outcome_bind].
  destruct (zv_set_spec (tbl24 t) a0 (Z.lor (wrap 16 (len blocks)) OVERFLOW_MASK)) as (v24 & -> & Hvl24 & Hset);
    [rewrite H24; unfold TBL24_SIZE; lia|].
  cbn [mbind outcome_bind]. eexists. split; [done|]. split; [done|].
  split; cbn [tbl24 tbl_long current_tbl_long]; [by rewrite Hvl24|by rewrite Hvl| | | |].
  - rewrite len_app. change (len [a0]) with 1. lia.
  - apply NoDup_app. split; [done|]. split; [|apply NoDup_singleton]. by intros x Hx ->%list_elem_of_singleton.
  - intros a Ha Hnin. rewrite not_elem_of_app, list_elem_of_singleton in Hnin. destruct Hnin as [Hnin Hne].
    rewrite Hset, decide_False by done. destruct (Hg a Ha Hnin) as [Hr' Hro]. split; [done|]. intros b Hbb.
    rewrite route_snoc. destruct (Hm a b Hbb) as (_ & _ & Hiff). rewrite decide_False; [by apply Hro|]. tauto.
  - intros c a Hca. rewrite Hset. apply lookup_snoc_Some in Hca as [[Hlt Hca]|[-> <-]].
    + destruct (Hb c a Hca) as [Hcell Hro].
      assert (a ≠ a0) by (intros ->; apply Hin; apply list_elem_of_lookup; by exists c).
      rewrite decide_False by done. split; [done|]. intros b Hbb.
      rewrite route_snoc, Hlong. destruct (Hm a b Hbb) as (_ & _ & Hiff).
      rewrite decide_False by tauto. rewrite decide_False by (unfold len; lia). by apply Hro.
    + rewrite decide_True by done. split; [done|]. intros b Hbb.
      rewrite route_snoc, Hlong. destruct (Hm a0 b Hbb) as (_ & _ & Hiff). cbn [fst snd].
      fold (len blocks). rewrite (decide_True (P := 256 * len blocks ≤ _ < _)) by lia.
      destruct (decide (b0 ≤ b < b0 + w)).
      * rewrite decide_True by tauto. by rewrite decide_False by lia.
      * rewrite decide_False by tauto. rewrite decide_True by lia. by apply Hroute.
Qed.
End long.

(** ** Inserting routes *)

Definition route_fits (r : Route) : Prop := entry_fits (r.1.2, (r.1.1, r.2)).

Lemma last_gate_snoc routes r ip n :
  last_gate (routes ++ [r]) ip n = if decide (r.1 = (ip, n)) then Some r.2 else last_gate routes ip n.
Proof. unfold last_gate. by rewrite foldl_app. Qed.

Lemma last_gate_elem routes ip n g : last_gate routes ip n = Some g → (ip, n, g) ∈ routes.
Proof.
  induction routes as [|r routes IH] using rev_ind; [done|]. rewrite last_gate_snoc, elem_of_app.
  case_decide as Hr; [|by auto]. intros [= <-]. right. destruct r as [r1 r2]. cbn in *. subst. by left.
Qed.

(** The map of the prefixes of a length. *)
Definition level (t : IPLookup) (i : Z) : gmap Z Z := default ∅ (raw_entries t !! Z.to_nat i).

Lemma insert_routes_spec routes :
  Forall route_fits routes →
  ∃ t, insert_routes IPLookup_new routes = Ret t ∧
    t = mkIPLookup (zeros_of TBL24_SIZE) (zeros_of TBL24_SIZE) 0 (raw_entries t) ∧
    length (raw_entries t) = 33%nat ∧ ∀ i k, 0 ≤ i ≤ 32 → level t i !! k = last_gate routes k i.
Proof.
  unfold insert_routes. induction routes as [|r routes IH] using rev_ind; intros Hr.
  - exists IPLookup_new. split_and!; [done..|]. intros i k Hi. unfold level. cbn [raw_entries IPLookup_new].
    destruct (replicate _ _ !! Z.to_nat i) as [m|] eqn:E; [apply lookup_replicate in E as [-> _]|]; by cbn [default from_option]; rewrite ?lookup_empty.
  - apply Forall_app in Hr as [Hr Hr1]. apply Forall_inv in Hr1 as [Hi _ _ _].
    destruct (IH Hr) as (t & Ht & E & Hl & Hg). rewrite ofold_app, Ht. cbn [mbind outcome_bind ofold].
    destruct r as [[ip n] g]. cbn [fst snd] in *. unfold lpm_insert, index. rewrite decide_True by lia.
    destruct (raw_entries t !! Z.to_nat n) as [m|] eqn:Em; [|apply lookup_ge_None in Em; lia].
    cbn [expect mbind outcome_bind]. eexists. split; [done|]. rewrite E. cbn [tbl24 tbl_long current_tbl_long raw_entries].
    split; [done|]. split; [by rewrite length_insert|]. intros i k Hi'. rewrite last_gate_snoc.
    specialize (Hg i k Hi'). unfold level in *. cbn [raw_entries fst snd].
    destruct (decide (i = n)) as [->|Hne].
    + rewrite list_lookup_insert_eq by lia. cbn [default from_option id]. rewrite Em in Hg. cbn in Hg.
      destruct (decide (k = ip)) as [->|Hk].
      * rewrite decide_True by done. by rewrite lookup_insert_eq.
      * rewrite decide_False by congruence. by rewrite lookup_insert_ne by done.
    + rewrite list_lookup_insert_ne by lia. rewrite decide_False by congruence. done.
Qed.

(** ** The order of the entries of a level does not matter *)

Section levels.
Context (entries : gmap Z Z → list (Z * Z)) (Hentries : ∀ m, entries m ≡ₚ map_to_list m).
Context (t0 : IPLookup) (Hfits : ∀ i k g, 0 ≤ i ≤ 32 → level t0 i !! k = Some g → entry_fits (i, (k, g))).

Definition level_entries (i : Z) : list (Z * (Z * Z)) := pair i <$> entries (level t0 i).

Definition levels (n : Z) : list (Z * (Z * Z)) := concat (level_entries <$> seqZ 0 n).

Lemma levels_next n : 0 ≤ n → levels (n + 1) = levels n ++ level_entries n.
Proof.
  intros Hn. unfold levels. rewrite seqZ_app, fmap_app, concat_app by lia. f_equal.
  replace (0 + n) with n by lia. rewrite (seqZ_cons n) by lia. rewrite seqZ_nil by lia. cbn. by rewrite app_nil_r.
Qed.

Lemma entry_prefix i k g ip :
  entry_fits (i, (k, g)) → matches ip (i, (k, g)) ↔ k = ip - ip mod 2 ^ (32 - i).
Proof.
  intros [Hi _ Hal _]. cbn [fst snd] in *. unfold matches. cbn [fst snd].
  pose proof (Z.pow_pos_nonneg 2 (32 - i)). set (w := 2 ^ (32 - i)) in *.
  apply Z.div_exact in Hal; [|lia]. pose proof (Z.div_mod ip w). pose proof (Z.mod_pos_bound ip w). split; [|lia].
  intros Hk. assert (k / w = ip / w); nia.
Qed.

Lemma route_level es i ip :
  0 ≤ i ≤ 32 →
  routed (es ++ level_entries i) ip = default (routed es ip) (level t0 i !! (ip - ip mod 2 ^ (32 - i))).
Proof.
  intros Hi. set (k0 := ip - _). unfold level_entries.
  assert (∀ l, (∀ k g, (k, g) ∈ l → level t0 i !! k = Some g) →
    (routed (es ++ (pair i <$> l)) ip = routed es ip ∧ (∀ g, (k0, g) ∉ l)) ∨
    ∃ g, level t0 i !! k0 = Some g ∧ routed (es ++ (pair i <$> l)) ip = g) as Hl.
  { induction l as [|[k g] l IH] using rev_ind; intros Hin.
    - left. cbn. rewrite app_nil_r. split; [done|]. intros g. apply not_elem_of_nil.
    - rewrite fmap_app, (assoc_L (++)). cbn [fmap list_fmap]. rewrite route_snoc. cbn [fst snd].
      assert (level t0 i !! k = Some g) as Hkg by (apply Hin, elem_of_app; right; by left).
      pose proof (entry_prefix i k g ip (Hfits i k g Hi Hkg)) as Hm. fold k0 in Hm.
      case_decide as Hd; [right; apply Hm in Hd as ->; by exists g|].
      destruct IH as [[-> Hno]|Hyes]; [|left|by right].
      + intros k' g' H'. apply Hin, elem_of_app. by left.
      + split; [done|]. intros g'. rewrite not_elem_of_app, list_elem_of_singleton. split; [done|].
        intros [= -> ->]. by apply Hd, Hm. }
  destruct (Hl (entries (level t0 i))) as [[-> Hno]|(g & -> & ->)]; [| |done].
  - intros k g. rewrite Hentries. apply elem_of_map_to_list.
  - destruct (level t0 i !! k0) as [g|] eqn:E; [|done]. destruct (Hno g).
    rewrite Hentries. by apply elem_of_map_to_list.
Qed.

Lemma route_levels routes ip n :
  (∀ i k, 0 ≤ i ≤ 32 → level t0 i !! k = last_gate routes k i) → (n ≤ 32)%nat →
  routed (levels (Z.of_nat n + 1)) ip = longest_prefix routes ip n.
Proof.
  intros Hraw. induction n as [|n IH]; intros Hn; rewrite levels_next, route_level, Hraw by lia.
  - cbn [longest_prefix]. by destruct (last_gate _ _ _).
  - cbn [longest_prefix]. rewrite <- IH by lia. rewrite (Nat2Z.inj_succ n), <- Z.add_1_r.
    by destruct (last_gate _ _ _).
Qed.
End levels.

(** ** Constructing the table *)

Lemma nodup_size (l : list Z) (X : gset Z) : NoDup l → (∀ a, a ∈ l → a ∈ X) → len l ≤ Z.of_nat (size X).
Proof.
  intros Hn Hl. unfold len. rewrite <- (size_list_to_set (C := gset Z) l) by done.
  assert (size (list_to_set l : gset Z) ≤ size X)%nat; [|lia].
  apply subseteq_size. intros a Ha%elem_of_list_to_set. auto.
Qed.

(** A loop over the entries of a level, and over levels. *)
Lemma level_loop (f : Z → IPLookup → Z * Z → outcome IPLookup) (R : IPLookup → list (Z * (Z * Z)) → Prop) i l :
  (∀ t es kv, kv ∈ l → R t es → ∃ t', f i t kv = Ret t' ∧ raw_entries t' = raw_entries t ∧ R t' (es ++ [(i, kv)])) →
  ∀ t es, R t es → ∃ t', ofold (f i) t l = Ret t' ∧ raw_entries t' = raw_entries t ∧ R t' (es ++ (pair i <$> l)).
Proof.
  intros Hf. induction l as [|kv l IH]; intros t es Ht; cbn [ofold fmap list_fmap].
  - exists t. by rewrite app_nil_r.
  - destruct (Hf t es kv) as (t1 & -> & E1 & H1); [by left|done|]. cbn [mbind outcome_bind].
    destruct (IH ltac:(intros; apply Hf; [by right|done]) t1 _ H1) as (t' & -> & E2 & H2).
    exists t'. rewrite <- (assoc_L (++)) in H2. split; [done|]. split; [congruence|done].
Qed.

Section construct.
Context (entries : gmap Z Z → list (Z * Z)) (Hentries : ∀ m, entries m ≡ₚ map_to_list m).
Context (t0 : IPLookup) (Hraw : length (raw_entries t0) = 33%nat).
Context (Hfits : ∀ i k g, 0 ≤ i ≤ 32 → level t0 i !! k = Some g → entry_fits (i, (k, g))).
Context (X : gset Z) (Hsmall : Z.of_nat (size X) ≤ 0x8000).
Context (HX : ∀ i k g, 25 ≤ i ≤ 32 → level t0 i !! k = Some g → Z.shiftr k 8 ∈ X).

Lemma levels_loop (f : Z → IPLookup → Z * Z → outcome IPLookup) (R : IPLookup → list (Z * (Z * Z)) → Prop) a n :
  0 ≤ a → 0 ≤ n → a + n ≤ 33 →
  (∀ i t es kv, a ≤ i < a + n → level t0 i !! kv.1 = Some kv.2 → R t es →
     ∃ t', f i t kv = Ret t' ∧ raw_entries t' = raw_entries t ∧ R t' (es ++ [(i, kv)])) →
  ∀ t, raw_entries t = raw_entries t0 → R t (levels entries t0 a) →
  ∃ t', ofold (each_entry entries f) t (seqZ a n) = Ret t' ∧ raw_entries t' = raw_entries t0 ∧
    R t' (levels entries t0 (a + n)).
Proof.
  intros Ha Hn Hle Hf t Ht HR. revert n Hn Hle Hf.
  apply (natlike_ind (λ n, a + n ≤ 33 → _ → _)); [|intros n Hn IH].
  - intros _ _. rewrite seqZ_nil by lia. exists t. by rewrite Z.add_0_r.
  - intros Hle Hf. destruct IH as (t1 & E1 & Ht1 & HR1); [lia|intros; apply Hf; [lia|done..]|].
    rewrite <- Z.add_1_r. rewrite seqZ_app by lia. rewrite (seqZ_cons (a + n)) by lia. rewrite (seqZ_nil (Z.succ _)) by lia.
    rewrite ofold_app, E1. cbn [mbind outcome_bind ofold]. unfold each_entry at 1, index.
    rewrite decide_True by lia. rewrite Ht1.
    destruct (raw_entries t0 !! Z.to_nat (a + n)) as [m|] eqn:Em; [|apply lookup_ge_None in Em; lia].
    cbn [expect mbind outcome_bind].
    assert (level t0 (a + n) = m) as Hm by (unfold level; by rewrite Em).
    destruct (level_loop f R (a + n) (entries m)) with (t := t1) (es := levels entries t0 (a + n))
      as (t' & -> & E2 & HR2); [|done|].
    + intros t2 es [k g] Hin HR2. rewrite Hentries, elem_of_map_to_list in Hin. apply Hf; [lia|by rewrite Hm|done].
    + cbn [mbind outcome_bind]. exists t'. split; [done|]. split; [congruence|].
      rewrite Z.add_assoc, levels_next by lia. unfold level_entries. by rewrite Hm.
Qed.

Definition long_rep (t : IPLookup) (es : list (Z * (Z * Z))) : Prop :=
  ∃ blocks, lpm_rep t blocks es ∧ ∀ a, a ∈ blocks → a ∈ X.

Lemma long_step i t es kv :
  25 ≤ i < 33 → level t0 i !! kv.1 = Some kv.2 → long_rep t es →
  ∃ t', long_entry i t kv = Ret t' ∧ raw_entries t' = raw_entries t ∧ long_rep t' (es ++ [(i, kv)]).
Proof.
  intros Hi Hkv (blocks & Hrep & Hb). destruct kv as [k g]. cbn [fst snd] in *.
  pose proof (Hfits i k g ltac:(lia) Hkv) as He. pose proof (HX i k g ltac:(lia) Hkv) as Hk.
  destruct (split_24 k (ef_addr _ He)) as (a0 & b0 & -> & Ha0 & Hb0). rewrite (proj1 (in_24 a0 b0 Hb0)) in Hk.
  destruct (decide (a0 ∈ blocks)) as [Hin|Hin].
  - destruct (long_entry_amends t blocks es Hrep i a0 b0 g He ltac:(lia) Ha0 Hb0 Hin) as (t' & E & Er & H').
    { pose proof (nodup_size blocks X (lr_nodup _ _ _ Hrep) Hb). lia. }
    exists t'. split; [done|]. split; [done|]. by exists blocks.
  - assert (∀ a, a ∈ blocks ++ [a0] → a ∈ X) as Hb'.
    { intros a [Ha| ->%list_elem_of_singleton]%elem_of_app; auto. }
    destruct (long_entry_allocates t blocks es Hrep i a0 b0 g He ltac:(lia) Ha0 Hb0 Hin) as (t' & E & Er & H').
    { assert (NoDup (blocks ++ [a0])) as Hnd.
      { apply NoDup_app. split; [apply Hrep|]. split; [|apply NoDup_singleton].
        by intros x Hx ->%list_elem_of_singleton. }
      pose proof (nodup_size _ X Hnd Hb') as Hs. rewrite len_app in Hs. change (len [a0]) with 1 in Hs. lia. }
    exists t'. split; [done|]. split; [done|]. by exists (blocks ++ [a0]).
Qed.

Lemma construct_spec :
  t0 = mkIPLookup (zeros_of TBL24_SIZE) (zeros_of TBL24_SIZE) 0 (raw_entries t0) →
  ∃ t, construct_table entries t0 = Ret t ∧ long_rep t (levels entries t0 33).
Proof.
  intros E0. unfold construct_table.
  destruct (levels_loop short_entry (λ t es, lpm_rep t [] es) 0 25) with (t := t0)
    as (t1 & E1 & Hr1 & HR1); [lia..| |done| |].
  - intros i t es [k g] Hi Hkv HR. apply short_entry_spec; [done|apply Hfits; [lia|done]|lia].
  - rewrite E0. apply lpm_fresh.
  - rewrite E1. cbn [mbind outcome_bind].
    destruct (levels_loop long_entry long_rep 25 8) with (t := t1) as (t2 & E2 & Hr2 & HR2); [lia..| |done| |].
    + intros i t es kv Hi. by apply long_step.
    + exists []. split; [done|]. intros a Ha. by apply not_elem_of_nil in Ha.
    + by exists t2.
Qed.
End construct.

(** The lookup reads what the representation says. *)
Lemma lookup_spec t X es ip :
  Z.of_nat (size X) ≤ 0x8000 → long_rep X t es → in_width 32 ip → lookup_entry t ip = Ret (routed es ip).
Proof.
  intros Hsmall (blocks & [H24 Hl Hc Hn Hg Hb] & HX) Hip. destruct (split_24 ip Hip) as (a & b & -> & Ha & Hbb).
  unfold lookup_entry. destruct (in_24 a b Hbb) as [-> ->].
  rewrite zv_get_ok by (rewrite H24; unfold TBL24_SIZE; lia). cbn [mbind outcome_bind].
  destruct (decide (a ∈ blocks)) as [[c Hlc]%list_elem_of_lookup|Hin].
  - destruct (Hb c a Hlc) as [-> Hro]. pose proof (lookup_lt_Some _ _ _ Hlc) as Hlt.
    pose proof (nodup_size blocks X Hn HX) as Hs. unfold len in Hs.
    destruct (block_marked (Z.of_nat c)) as [-> ->]; [lia|]. rewrite decide_True by done.
    rewrite (proj2 (shift_block _)). rewrite zv_get_ok by (rewrite Hl; unfold TBL24_SIZE; lia).
    rewrite Hro by done. do 2 f_equal. lia.
  - destruct (Hg a Ha Hin) as [Hr Hro]. rewrite gate_unmarked by done. rewrite decide_False by done. by rewrite Hro.
Qed.

(** ** The property *)

(** The blocks of the addresses of the routes that are longer than 24 bits. *)
Definition long_blocks (routes : list Route) : gset Z :=
  list_to_set ((λ r : Route, Z.shiftr r.1.1 8) <$> filter (λ r : Route, 24 < r.1.2) routes).

(** C30: the routing table of NetBricks' test network function routes by longest
    prefix.  Whatever routes are inserted, as long as their addresses have no bits
    behind their prefixes, their gates fit into 15 bits, and the routes of more than
    24 bits lie in at most 2^15 blocks of 256 addresses: inserting them and
    constructing the table succeeds, in whatever order the maps are iterated, and
    every lookup answers the gate given last to the longest prefix that the address
    has, 0 if it has none. *)
Theorem table_routes_by_longest_prefix (entries : gmap Z Z → list (Z * Z)) (routes : list Route) :
  (∀ m, entries m ≡ₚ map_to_list m) →
  Forall route_fits routes → Z.of_nat (size (long_blocks routes)) ≤ 2 ^ 15 →
  ∃ t, (t ← insert_routes IPLookup_new routes; construct_table entries t) = Ret t ∧
    ∀ ip, in_width 32 ip → lookup_entry t ip = Ret (longest_prefix routes ip 32).
Proof.
  intros He Hr Hs. destruct (insert_routes_spec routes Hr) as (t0 & -> & E0 & Hl & Hg). cbn [mbind outcome_bind].
  assert (∀ i k g, 0 ≤ i ≤ 32 → level t0 i !! k = Some g → (k, i, g) ∈ routes) as Hin.
  { intros i k g Hi Hk. rewrite Hg in Hk by done. by apply last_gate_elem. }
  assert (∀ i k g, 0 ≤ i ≤ 32 → level t0 i !! k = Some g → entry_fits (i, (k, g))) as Hfits.
  { intros i k g Hi Hk%Hin; [|done]. by apply (proj1 (Forall_forall _ _) Hr _ Hk). }
  destruct (construct_spec entries He t0 Hl Hfits (long_blocks routes) Hs) as (t & Ht & Hrep); [|done|].
  - intros i k g Hi Hk%Hin; [|lia]. unfold long_blocks. apply elem_of_list_to_set, list_elem_of_fmap.
    exists (k, i, g). split; [done|]. apply list_elem_of_filter. split; [cbn; lia|done].
  - exists t. split; [done|]. intros ip Hip. rewrite (lookup_spec t _ _ ip Hs Hrep Hip). f_equal.
    apply (route_levels entries He t0 Hfits routes ip 32); [done|lia].
Qed.

(** The routes of the network function. *)
Definition octets (ip : Z * Z * Z * Z) : Z := let '(a, b, c, d) := ip in ((a * 256 + b) * 256 + c) * 256 + d.

Definition lpm_routes : list Route := (λ ip, (octets ip, 32, 1)) <$> lpm_addresses.

Lemma lpm_routes_fit : Forall route_fits lpm_routes.
Proof.
  assert (forallb (λ r : Route, (0 <=? r.1.1) && (r.1.1 <? 2 ^ 32) && (r.1.2 =? 32) && (r.2 =? 1)) lpm_routes = true)
    as Hall by (vm_compute; reflexivity).
  rewrite forallb_forall in Hall. apply Forall_forall. intros [[k n] g] Hr%list_elem_of_In.
  apply Hall in Hr. cbn [fst snd] in Hr. rewrite !andb_true_iff, Z.leb_le, Z.ltb_lt, !Z.eqb_eq in Hr.
  destruct Hr as [[[H0 H1] ->] ->]. split; cbn [fst snd]; [lia|by split|apply Z.mod_1_r|lia].
Qed.

Lemma insert_addresses l t :
  ofold (λ t ip, insert_ipv4 t ip 32 1) t l = insert_routes t ((λ ip, (octets ip, 32, 1)) <$> l).
Proof.
  unfold insert_routes. revert t. induction l as [|[[[a b] c] d] l IH]; intros t; [reflexivity|].
  cbn [ofold fmap list_fmap].
  change (insert_ipv4 t (a, b, c, d) 32 1) with (lpm_insert t (octets (a, b, c, d)) 32 1). cbn [fst snd].
  destruct (lpm_insert _ _ _ _); cbn [mbind outcome_bind]; [apply IH|reflexivity..].
Qed.

Lemma lpm_table_routes entries :
  lpm_table entries = (t ← insert_routes IPLookup_new lpm_routes; construct_table entries t).
Proof. unfold lpm_table. rewrite insert_addresses. reflexivity. Qed.

Lemma table_routes_by_longest_prefix_witness :
  ∃ t, lpm_table map_to_list = Ret t ∧
    ∀ h, in_width 32 (src_ip h) → lpm_group t h = Ret (longest_prefix lpm_routes (ip_src h) 32).
Proof.
  destruct (table_routes_by_longest_prefix map_to_list lpm_routes) as (t & Ht & Hl);
    [done|apply lpm_routes_fit|apply Z.leb_le; vm_compute; reflexivity|].
  exists t. rewrite lpm_table_routes. split; [exact Ht|]. intros h Hh. apply Hl. by apply bswap32_width.
Defined.
