(* ===== verification/Maglev.v ===== *)
(** * Maglev: balancing load by consistent hashing

    Models net/test/maglev/src/nf.rs, a network function that NetBricks is tested
    with.  Every backend has a permutation of the slots of the lookup table, and
    the backends take turns to claim the first slot of theirs that is free.

    The crates fnv and twox-hash are the two hashes of a backend's name. *)

From Stdlib Require Import ZArith.
From stdpp Require Import gmap.
From S2P Require Import Prelude Flow.

Section maglev.
Context {Name : Type} (fnv_hash xx_hash : Name → Z).

(** ** Permutations *)

Definition offset_skip_for_name (name : Name) (lsize : Z) : outcome (Z * Z) :=
  _ ← assert_ (lsize ≠ 0);
  _ ← assert_ (lsize -u64 1 ≠ 0);
  Ret (xx_hash name mod lsize, fnv_hash name mod (lsize -u64 1) +u64 1).

Definition permutation_of (lsize offset skip : Z) : list Z :=
  (λ j, (offset +u64 wmul 64 j skip) mod lsize) <$> seqZ 0 lsize.

Definition generate_permutations (backends : list Name) (lsize : Z) : outcome (list (list Z)) :=
  mapM (λ n, '(offset, skip) ← offset_skip_for_name n lsize; Ret (permutation_of lsize offset skip)) backends.

(** ** The lookup table *)

Definition FREE : Z := 0x8000.

Record Lut := mkLut { ml_next : list Z; ml_entry : list Z; ml_n : Z }.

(** The first free slot of a permutation from a position on, and its position.
    Every turn moves on in the permutation, whose length is fuel enough. *)
Fixpoint free_slot (fuel : nat) (entry row : list Z) (next : Z) : outcome (Z * Z) :=
  c ← index row next;
  e ← index entry c;
  if decide (e ≠ FREE) then
    match fuel with O => Undef | S fuel => free_slot fuel entry row (next +u64 1) end
  else Ret (c, next).

(** A turn of a backend; none when the table is full, where the source breaks
    out of the loop. *)
Definition lut_turn (permutations : list (list Z)) (size : Z) (s : Lut) (i : Z) : outcome Lut :=
  if decide (ml_n s >= size) then Ret s
  else
    row ← index permutations i;
    next ← index (ml_next s) i;
    '(c, next) ← free_slot (length row) (ml_entry s) row next;
    entry ← set_index (ml_entry s) c i;
    nexts ← set_index (ml_next s) i (next +u64 1);
    Ret (mkLut nexts entry (ml_n s +u64 1)).

Definition lut_round (permutations : list (list Z)) (size : Z) (s : Lut) : outcome Lut :=
  ofold (lut_turn permutations size) s (seqZ 0 (len (ml_next s))).

(** A round claims a slot, if there is a backend: [size] rounds are enough. *)
Definition generate_lut (permutations : list (list Z)) (size : Z) : outcome (list Z) :=
  s ← while_loop (λ s, bool_decide (ml_n s < size)) (lut_round permutations size) (Z.to_nat size)
        (mkLut (replicate (length permutations) 0) (replicate (Z.to_nat size) FREE) 0);
  Ret (ml_entry s).

Record Maglev := mkMaglev { lut : list Z; lut_size : Z }.

Definition Maglev_new (backends : list Name) (lsize : Z) : outcome Maglev :=
  permutations ← generate_permutations backends lsize;
  entry ← generate_lut permutations lsize;
  Ret (mkMaglev entry lsize).

Definition maglev_lookup (m : Maglev) (hash : Z) : outcome Z :=
  _ ← assert_ (lut_size m ≠ 0);
  index (lut m) (hash mod lut_size m).

(** The group of a packet, remembered for its hash. *)
Definition maglev_group `{ByteOrder} (hash : bytes → Z) (m : Maglev) (cache : gmap Z Z) (payload : bytes) :
    outcome (Z * gmap Z Z) :=
  h ← ipv4_flow_hash hash payload 0;
  match cache !! h with
  | Some out => Ret (out, cache)
  | None => out ← maglev_lookup m h; Ret (out, <[h := out]> cache)
  end.
End maglev.

(** The example of the paper on Maglev: three backends, seven slots. *)
Example maglev_paper :
  generate_lut [permutation_of 7 3 4; permutation_of 7 0 2; permutation_of 7 3 1] 7 =
  Ret [1; 0; 1; 0; 2; 2; 0].
Proof. vm_compute. reflexivity. Qed.

(** Without a backend the loop does not end. *)
Example maglev_without_backends : generate_lut [] 7 = Undef.
Proof. reflexivity. Qed.

(** * The lookup table is complete and balanced *)

(** ** Counting in a list *)

Definition tally (x : Z) (l : list Z) : Z := len (filter (eq x) l).

Lemma tally_app x l1 l2 : tally x (l1 ++ l2) = tally x l1 + tally x l2.
Proof. unfold tally. by rewrite filter_app, len_app. Qed.

Lemma tally_cons x y l : tally x (y :: l) = (if decide (x = y) then 1 else 0) + tally x l.
Proof. unfold tally. rewrite filter_cons. unfold len. case_decide; cbn [length]; lia. Qed.

Lemma tally_replicate x n y : tally x (replicate n y) = if decide (x = y) then Z.of_nat n else 0.
Proof.
  induction n as [|n IH]; [by case_decide|]. cbn [replicate]. rewrite tally_cons, IH. case_decide; lia.
Qed.

Lemma tally_insert x l c y z :
  l !! c = Some y →
  tally x (<[c := z]> l) = tally x l - (if decide (x = y) then 1 else 0) + (if decide (x = z) then 1 else 0).
Proof.
  intros Hc. pose proof (lookup_lt_Some _ _ _ Hc) as Hlt. rewrite insert_take_drop by done.
  rewrite <- (take_drop_middle l c y Hc) at 3. rewrite !tally_app, !tally_cons. lia.
Qed.

Lemma tally_pos x l : 0 < tally x l → ∃ c, l !! c = Some x.
Proof.
  unfold tally. destruct (filter (eq x) l) as [|y k] eqn:E; [by unfold len; cbn; lia|]. intros _.
  assert (y ∈ filter (eq x) l) as [<- Hy]%list_elem_of_filter by (rewrite E; by left).
  by apply list_elem_of_lookup.
Qed.

(** How often the remainder [i] occurs below [n]. *)
Definition share (nb n i : Z) : Z := (n + (nb - 1 - i)) / nb.

Lemma share_next nb n i :
  0 ≤ n → 0 ≤ i < nb → share nb (n + 1) i = share nb n i + if decide (i = n mod nb) then 1 else 0.
Proof.
  intros Hn Hi. unfold share. pose proof (Z.div_mod n nb ltac:(lia)) as Hd. pose proof (Z.mod_pos_bound n nb ltac:(lia)).
  set (q := n / nb) in *. set (r := n mod nb) in *. rewrite Hd.
  replace (nb * q + r + 1 + (nb - 1 - i)) with (r - i + nb + q * nb) by lia.
  replace (nb * q + r + (nb - 1 - i)) with (r - i + nb - 1 + q * nb) by lia.
  rewrite !Z.div_add by lia. case_decide as He.
  - subst i. replace (r - r + nb) with nb by lia. rewrite Z.div_same by lia. rewrite (Z.div_small (nb - 1)) by lia. lia.
  - destruct (decide (r < i)).
    + rewrite !Z.div_small by lia. lia.
    + replace (r - i + nb) with (r - i + 1 * nb) by lia. replace (r - i + 1 * nb - 1) with (r - i - 1 + 1 * nb) by lia.
      rewrite !Z.div_add by lia. rewrite !Z.div_small by lia. lia.
Qed.

Lemma share_bounds nb n i : 0 ≤ n → 0 ≤ i < nb → n / nb ≤ share nb n i ≤ (n + nb - 1) / nb.
Proof. intros Hn Hi. unfold share. split; apply Z.div_le_mono; lia. Qed.

(** ** Filling the table *)

Section lut.
Context (size nb : Z) (permutations : list (list Z)).
Context (Hsize : 0 < size < 2 ^ 32) (Hnb : 0 < nb ≤ FREE) (Hrows : len permutations = nb).

(** Every row is a permutation of the slots. *)
Record row_ok (row : list Z) : Prop := {
  ro_len : len row = size;
  ro_slots : ∀ j c, row !! j = Some c → 0 ≤ c < size;
  ro_all : ∀ c, 0 ≤ c < size → ∃ j, row !! j = Some c;
}.

Context (Hperm : Forall row_ok permutations).

Record lut_ok (s : Lut) : Prop := {
  lo_next : len (ml_next s) = nb;
  lo_entry : len (ml_entry s) = size;
  lo_n : 0 ≤ ml_n s ≤ size;
  lo_values : ∀ c e, ml_entry s !! c = Some e → e = FREE ∨ 0 ≤ e < nb;
  lo_free : tally FREE (ml_entry s) = size - ml_n s;
  lo_share : ∀ i, 0 ≤ i < nb → tally i (ml_entry s) = share nb (ml_n s) i;
  lo_past : ∀ i row nx, permutations !! i = Some row → ml_next s !! i = Some nx →
    0 ≤ nx ≤ size ∧ ∀ j c, Z.of_nat j < nx → row !! j = Some c → ml_entry s !! Z.to_nat c ≠ Some FREE;
}.

Lemma lut_starts : lut_ok (mkLut (replicate (length permutations) 0) (replicate (Z.to_nat size) FREE) 0).
Proof.
  split; cbn [ml_next ml_entry ml_n].
  - unfold len in *. rewrite length_replicate. lia.
  - unfold len. rewrite length_replicate. lia.
  - lia.
  - intros c e [-> _]%lookup_replicate. by left.
  - rewrite tally_replicate, decide_True by done. lia.
  - intros i Hi. rewrite tally_replicate, decide_False by lia. unfold share. rewrite Z.div_small by lia. done.
  - intros i row nx _ [-> _]%lookup_replicate. split; [lia|]. intros j c Hj. lia.
Qed.

Lemma index_some {A} (l : list A) i x : 0 ≤ i → l !! Z.to_nat i = Some x → index l i = Ret x.
Proof. intros Hi Hl. unfold index. by rewrite decide_True, Hl. Qed.

Lemma free_slot_spec entry row fuel nx :
  row_ok row → len entry = size → 0 ≤ nx → size - nx ≤ Z.of_nat fuel →
  (∃ j c, nx ≤ Z.of_nat j ∧ row !! j = Some c ∧ entry !! Z.to_nat c = Some FREE) →
  ∃ j c, free_slot fuel entry row nx = Ret (c, Z.of_nat j) ∧ nx ≤ Z.of_nat j < size ∧
    row !! j = Some c ∧ entry !! Z.to_nat c = Some FREE ∧
    ∀ j' c', nx ≤ Z.of_nat j' < Z.of_nat j → row !! j' = Some c' → entry !! Z.to_nat c' ≠ Some FREE.
Proof.
  intros [Hl Hs _] He. revert nx. induction fuel as [|fuel IH]; intros nx Hnx Hf (j0 & c0 & Hj0 & Hr0 & Hc0);
    pose proof (lookup_lt_Some _ _ _ Hr0) as Hlt; unfold len in Hl; [lia|].
  destruct (lookup_lt_is_Some_2 row (Z.to_nat nx)) as [c Hc]; [lia|]. pose proof (Hs _ _ Hc) as Hcs.
  destruct (lookup_lt_is_Some_2 entry (Z.to_nat c)) as [e Hec]; [unfold len in He; lia|].
  cbn [free_slot]. rewrite (index_some row nx c) by done. cbn [mbind outcome_bind].
  rewrite (index_some entry c e) by (done || lia). cbn [mbind outcome_bind].
  destruct (decide (e = FREE)) as [->|Hne].
  - rewrite decide_False by tauto. exists (Z.to_nat nx), c. split_and!; [f_equal; f_equal; lia|lia|lia|done|done|lia].
  - rewrite decide_True by done. rewrite wadd_id by (unfold in_width; lia).
    destruct (IH (nx + 1)) as (j & c1 & Hfs & Hb & Hr & Hfree & Hbefore); [lia..| |].
    { exists j0, c0. split_and!; [|done..]. destruct (decide (Z.of_nat j0 = nx)) as [Heq|]; [|lia].
      subst nx. rewrite Nat2Z.id in Hc. congruence. }
    exists j, c1. split_and!; [done|lia..|done|done|]. intros j' c' Hj' Hr'.
    destruct (decide (Z.of_nat j' = nx)) as [<-|]; [|apply (Hbefore j' c'); [lia|done]].
    rewrite Nat2Z.id in Hc. congruence.
Qed.

(** A turn of the backend whose turn it is. *)
Lemma lut_turn_ok s i :
  lut_ok s → ml_n s < size → i = ml_n s mod nb →
  ∃ s', lut_turn permutations size s i = Ret s' ∧ lut_ok s' ∧ ml_n s' = ml_n s + 1.
Proof.
  intros [Hn He Hcount Hv Hf Hsh Hp] Hlt Hi. pose proof (Z.mod_pos_bound (ml_n s) nb ltac:(lia)) as Hib.
  rewrite <- Hi in Hib. unfold lut_turn. rewrite decide_False by lia.
  destruct (lookup_lt_is_Some_2 permutations (Z.to_nat i)) as [row Hrow]; [unfold len in Hrows; lia|].
  destruct (lookup_lt_is_Some_2 (ml_next s) (Z.to_nat i)) as [nx Hnx]; [unfold len in Hn; lia|].
  rewrite (index_some _ _ row), (index_some _ _ nx) by (done || lia). cbn [mbind outcome_bind].
  pose proof (proj1 (Forall_lookup _ _) Hperm _ _ Hrow) as Hro. destruct (Hp _ _ _ Hrow Hnx) as [Hnxb Hpast].
  destruct (free_slot_spec (ml_entry s) row (length row) nx Hro He) as (j & c & -> & Hj & Hjc & Hfree & Hbefore).
  { lia. } { pose proof (ro_len _ Hro). unfold len in *. lia. }
  { destruct (tally_pos FREE (ml_entry s)) as [c Hc]; [lia|]. pose proof (lookup_lt_Some _ _ _ Hc) as Hcl.
    destruct (ro_all _ Hro (Z.of_nat c)) as [j Hj]; [unfold len in He; lia|]. exists j, (Z.of_nat c).
    rewrite Nat2Z.id. split_and!; [|done..]. destruct (decide (nx ≤ Z.of_nat j)) as [|Hlow]; [done|].
    destruct (Hpast j (Z.of_nat c)); [lia|done|]. by rewrite Nat2Z.id. }
  cbn [mbind outcome_bind]. pose proof (ro_slots _ Hro _ _ Hjc) as Hcs.
  unfold set_index at 1. rewrite decide_True by lia. cbn [mbind outcome_bind].
  unfold set_index. rewrite decide_True by lia. cbn [mbind outcome_bind].
  rewrite !wadd_id by (unfold in_width; lia). eexists. split; [done|]. split; [|done].
  split; cbn [ml_next ml_entry ml_n].
  - unfold len in *. by rewrite length_insert.
  - unfold len in *. by rewrite length_insert.
  - lia.
  - intros c' e Hc'. apply list_lookup_insert_Some in Hc' as [(_ & <- & _)|[_ Hc']]; [by right|by eapply Hv].
  - rewrite (tally_insert _ _ _ FREE) by done. rewrite decide_True by done. rewrite decide_False by lia. lia.
  - intros k Hk. rewrite (tally_insert _ _ _ FREE) by done. rewrite decide_False by lia.
    rewrite Hsh, share_next by lia. rewrite <- Hi. lia.
  - assert (∀ c', ml_entry s !! c' ≠ Some FREE → <[Z.to_nat c:=i]> (ml_entry s) !! c' ≠ Some FREE) as Hkeep.
    { intros c' Hc' Hx. apply list_lookup_insert_Some in Hx as [(_ & Hx & _)|[_ Hx]]; [lia|done]. }
    intros k row' nx' Hrow' Hnx'. apply list_lookup_insert_Some in Hnx' as [(<- & <- & _)|[_ Hnx']].
    + assert (row' = row) as -> by congruence. split; [lia|]. intros j' c' Hj' Hr'.
      destruct (decide (j' = j)) as [->|Hne].
      * assert (c' = c) as -> by congruence. rewrite list_lookup_insert_eq by (unfold len in He; lia). intros [=]. lia.
      * apply Hkeep. destruct (decide (Z.of_nat j' < nx)); [by apply (Hpast j')|]. apply (Hbefore j'); [lia|done].
    + destruct (Hp _ _ _ Hrow' Hnx') as [Hb Hpast']. split; [done|]. intros j' c' Hj' Hr'. apply Hkeep. by apply (Hpast' j').
Qed.

Lemma seqZ_snoc k : 0 ≤ k → seqZ 0 (k + 1) = seqZ 0 k ++ [k].
Proof.
  intros Hk. rewrite seqZ_app by lia. done.
Qed.

Lemma lut_round_ok s :
  lut_ok s → ml_n s < size → ml_n s mod nb = 0 →
  ∃ s', lut_round permutations size s = Ret s' ∧ lut_ok s' ∧ ml_n s' = Z.min (ml_n s + nb) size.
Proof.
  intros Hs Hlt Hmod. unfold lut_round. rewrite (lo_next _ Hs).
  assert (∀ k, 0 ≤ k → k ≤ nb → ∃ s', ofold (lut_turn permutations size) s (seqZ 0 k) = Ret s' ∧ lut_ok s' ∧
    ml_n s' = Z.min (ml_n s + k) size) as Hk; [|by apply Hk; lia].
  apply (natlike_ind (λ k, k ≤ nb → _)).
  - intros _. exists s. split_and!; [done..|lia].
  - intros k Hk0 IH Hk. destruct IH as (s1 & E & H1 & Hn); [lia|].
    rewrite <- Z.add_1_r, seqZ_snoc by done. rewrite ofold_app, E. cbn [mbind outcome_bind ofold].
    destruct (decide (ml_n s1 < size)).
    + destruct (lut_turn_ok s1 k H1) as (s2 & -> & H2 & Hn2); [done| |].
      * assert (ml_n s1 = ml_n s + k) as -> by lia. pose proof (lo_n _ Hs).
        rewrite Z.add_mod, Hmod, Z.add_0_l, Z.mod_mod by lia. rewrite Z.mod_small; lia.
      * exists s2. split_and!; [done..|lia].
    + unfold lut_turn. rewrite decide_True by lia. exists s1. split_and!; [done..|lia].
Qed.

Lemma generate_lut_ok :
  ∃ entry, generate_lut permutations size = Ret entry ∧ len entry = size ∧
    Forall (λ e, 0 ≤ e < nb) entry ∧ ∀ i, 0 ≤ i < nb → tally i entry = share nb size i.
Proof.
  unfold generate_lut.
  assert (∀ fuel s, lut_ok s → (ml_n s mod nb = 0 ∨ ml_n s = size) → size - ml_n s ≤ Z.of_nat fuel →
    ∃ s', while_loop (λ s, bool_decide (ml_n s < size)) (lut_round permutations size) fuel s = Ret s' ∧
      lut_ok s' ∧ ml_n s' = size) as Hloop.
  { assert (∀ fuel s, lut_ok s → ml_n s = size →
      while_loop (λ s, bool_decide (ml_n s < size)) (lut_round permutations size) fuel s = Ret s) as Hdone.
    { intros [|fuel] s _ Hn; cbn [while_loop]; by rewrite bool_decide_false by lia. }
    induction fuel as [|fuel IH]; intros s Hs Hmod Hf; pose proof (lo_n _ Hs);
      (destruct (decide (ml_n s = size)) as [Heq|Hne]; [by exists s; rewrite Hdone|]); [lia|].
    cbn [while_loop]. rewrite bool_decide_true by lia.
    destruct (lut_round_ok s Hs) as (s1 & -> & H1 & Hn1); [lia|by destruct Hmod|].
    cbn [mbind outcome_bind]. apply IH; [done| |lia].
    destruct (decide (ml_n s + nb ≤ size)); [left|right; lia]. destruct Hmod as [Hmod|]; [|done].
    rewrite Hn1, Z.min_l by done. rewrite Z.add_mod, Hmod, Z.mod_same by lia. done. }
  destruct (Hloop (Z.to_nat size) _ lut_starts) as (s & -> & Hs & Hn); [by left|cbn; lia|].
  cbn [mbind outcome_bind]. exists (ml_entry s). destruct Hs as [_ He _ Hv Hf Hsh _]. rewrite Hn in *.
  split_and!; [done|done| |done]. apply Forall_lookup. intros c e Hc. destruct (Hv c e Hc) as [->|]; [|done].
  assert (0 < tally FREE (ml_entry s)); [|lia]. rewrite <- (take_drop_middle _ _ _ Hc), tally_app, tally_cons, decide_True by done.
  unfold tally. pose proof (len_nonneg (filter (eq FREE) (take c (ml_entry s)))).
  pose proof (len_nonneg (filter (eq FREE) (drop (S c) (ml_entry s)))). lia.
Qed.
End lut.

(** ** The permutations *)

Lemma permutation_of_ok size offset skip :
  0 < size < 2 ^ 32 → Z.coprime skip size → 0 ≤ offset < size → 0 ≤ skip < size →
  row_ok size (permutation_of size offset skip).
Proof.
  intros Hs Hp Ho Hk. unfold permutation_of.
  assert (∀ j c, ((λ j, (offset +u64 wmul 64 j skip) mod size) <$> seqZ 0 size) !! j = Some c ↔
    Z.of_nat j < size ∧ c = (offset + Z.of_nat j * skip) mod size) as Hl.
  { intros j c. rewrite list_lookup_fmap_Some. setoid_rewrite lookup_seqZ.
    assert (Z.of_nat j < size → offset +u64 wmul 64 (Z.of_nat j) skip = offset + Z.of_nat j * skip) as Hw.
    { intros Hj. unfold wmul. assert (0 ≤ Z.of_nat j * skip < (2 ^ 32 - 1) * (2 ^ 32 - 1)) by nia.
      rewrite wrap_id by (unfold in_width; lia). rewrite wadd_id; [done|unfold in_width; lia]. }
    split.
    - intros (x & -> & -> & Hj). rewrite Z.add_0_l. split; [done|]. by rewrite Hw.
    - intros [Hj ->]. exists (Z.of_nat j). rewrite Hw by done. by rewrite Z.add_0_l. }
  split.
  - unfold len. rewrite length_fmap, length_seqZ. lia.
  - intros j c [_ ->]%Hl. apply Z.mod_pos_bound. lia.
  - intros c Hc. destruct (Z.Bezout_coprime _ _ Hp) as (u & v & Huv).
    exists (Z.to_nat (((c - offset) * u) mod size)). apply Hl.
    pose proof (Z.mod_pos_bound ((c - offset) * u) size ltac:(lia)). rewrite Z2Nat.id by lia. split; [lia|].
    rewrite Zplus_mod, Zmult_mod_idemp_l, <- Zplus_mod.
    replace (offset + (c - offset) * u * skip) with (c + (- (c - offset) * v) * size) by nia.
    rewrite Z.mod_add by lia. by rewrite Z.mod_small.
Qed.

Section maglev.
Context {Name : Type} (fnv_hash xx_hash : Name → Z).

Lemma offset_skip_ok name size :
  2 ≤ size < 2 ^ 32 →
  offset_skip_for_name fnv_hash xx_hash name size =
    Ret (xx_hash name mod size, fnv_hash name mod (size - 1) + 1).
Proof.
  intros Hs. unfold offset_skip_for_name, assert_.
  assert (size -u64 1 = size - 1) as -> by (apply wsub_id; unfold in_width; lia).
  pose proof (Z.mod_pos_bound (fnv_hash name) (size - 1) ltac:(lia)).
  rewrite !decide_True by lia. cbn [mbind outcome_bind]. by rewrite wadd_id by (unfold in_width; lia).
Qed.

Lemma generate_permutations_ok backends size :
  Z.prime size → size < 2 ^ 32 →
  ∃ rows, generate_permutations fnv_hash xx_hash backends size = Ret rows ∧ len rows = len backends ∧
    Forall (row_ok size) rows.
Proof.
  intros Hp Hs. pose proof (Z.prime_ge_2 _ Hp) as H2. unfold generate_permutations.
  induction backends as [|b backends (rows & E & Hl & Hr)]; [by exists []|].
  cbn [mapM]. rewrite offset_skip_ok by lia. cbn [mbind outcome_bind]. rewrite E. cbn [mbind outcome_bind].
  pose proof (Z.mod_pos_bound (fnv_hash b) (size - 1) ltac:(lia)).
  eexists. split; [done|]. split; [unfold len in *; cbn [length]; lia|]. constructor; [|done].
  apply permutation_of_ok; [lia| |apply Z.mod_pos_bound; lia|lia].
  unfold Z.coprime. rewrite Z.gcd_comm. apply Z.coprime_prime_small; [done|lia].
Qed.

(** C31: the lookup table of Maglev is complete and balanced.  For a prime number of
    slots, as in the source, and between one and 2^15 backends, whatever their names
    hash to, building the table ends without a panic; every slot holds a backend,
    so that every hash is answered with one; and backend [i] has as many slots as
    there are numbers below the size with remainder [i]: no two backends differ by
    more than one. *)
Theorem maglev_is_balanced (backends : list Name) size :
  Z.prime size → size < 2 ^ 32 → 0 < len backends ≤ 2 ^ 15 →
  ∃ m, Maglev_new fnv_hash xx_hash backends size = Ret m ∧ len (lut m) = size ∧
    (∀ hash, ∃ i, maglev_lookup m hash = Ret i ∧ 0 ≤ i < len backends) ∧
    ∀ i, 0 ≤ i < len backends →
      tally i (lut m) = share (len backends) size i ∧
      size / len backends ≤ tally i (lut m) ≤ (size + len backends - 1) / len backends.
Proof.
  intros Hp Hs Hb. pose proof (Z.prime_ge_2 _ Hp) as H2.
  destruct (generate_permutations_ok backends size Hp Hs) as (rows & E & Hl & Hr).
  destruct (generate_lut_ok size (len backends) rows) as (entry & Ee & Hel & Hv & Hsh); [lia|unfold FREE; lia|done|done|].
  unfold Maglev_new. rewrite E. cbn [mbind outcome_bind]. rewrite Ee. cbn [mbind outcome_bind].
  eexists. split; [done|]. cbn [lut lut_size]. split; [done|]. split.
  - intros hash. unfold maglev_lookup, assert_. cbn [lut lut_size]. rewrite decide_True by lia. cbn [mbind outcome_bind].
    pose proof (Z.mod_pos_bound hash size ltac:(lia)).
    destruct (lookup_lt_is_Some_2 entry (Z.to_nat (hash mod size))) as [i Hi]; [unfold len in Hel; lia|].
    exists i. split; [apply index_some; [lia|done]|]. by apply (proj1 (Forall_lookup _ _) Hv _ _ Hi).
  - intros i Hi. rewrite Hsh by done. split; [done|]. apply share_bounds; lia.
Qed.
End maglev.

(** The size that the source uses. *)
Lemma prime_65537 : Z.prime 65537.
Proof.
  assert (forallb (λ n, negb (65537 mod n =? 0)) (seqZ 2 255) = true) as Hall by (vm_compute; reflexivity).
  rewrite forallb_forall in Hall.
  assert (∀ n, 2 ≤ n ≤ 256 → ¬ (n | 65537)) as Hsmall.
  { intros n Hn Hd%Z.mod_divide; [|lia]. specialize (Hall n). rewrite Hd in Hall. discriminate Hall.
    apply list_elem_of_In, elem_of_seqZ. lia. }
  split; [done|]. intros n Hn [m Hm]. destruct (decide (n ≤ 256)).
  - apply (Hsmall n); [lia|]. by exists m.
  - apply (Hsmall m); [nia|]. exists n. lia.
Qed.

Lemma maglev_is_balanced_witness :
  ∃ m, Maglev_new (λ n, n * 7919) (λ n, n * 104729) [11; 22; 33] 65537 = Ret m ∧ len (lut m) = 65537 ∧
    (∀ hash, ∃ i, maglev_lookup m hash = Ret i ∧ 0 ≤ i < 3) ∧
    ∀ i, 0 ≤ i < 3 → tally i (lut m) = share 3 65537 i ∧ 65537 / 3 ≤ tally i (lut m) ≤ (65537 + 3 - 1) / 3.
Proof.
  apply (maglev_is_balanced (λ n, n * 7919) (λ n, n * 104729) [11; 22; 33] 65537);
    [apply prime_65537|done|by split].
Defined.
