(* ===== verification/Nat.v ===== *)
(** * Nat: address translation and a firewall

    Models net/test/nat/src/nf.rs and net/test/acl-fw/src/nf.rs, two network
    functions that NetBricks is tested with: what they do with the flow of a
    packet, and the tables that they keep. *)

From stdpp Require Import gmap.
From S2P Require Import Prelude Bits Packed Flow.

(** ** Address translation *)

Definition MIN_PORT : Z := 1024.

Definition MAX_PORT : Z := 65535.

Record FlowUsed := mkFlowUsed { fu_flow : Flow; fu_time : Z; fu_used : bool }.

Definition FlowUsed_default : FlowUsed := mkFlowUsed (mkFlow 0 0 0 0 0) 0 false.

(** What the closure captures. *)
Record NatState := mkNatState {
  nat_hash : gmap Flow Flow;
  nat_vec : list FlowUsed;
  nat_next : Z;
}.

Definition nat_new : NatState :=
  mkNatState ∅ ((λ _, FlowUsed_default) <$> seqZ MIN_PORT (65535 - MIN_PORT)) 1024.

Section translate.
Context (ip : Z).

(** The flow that is stamped onto a packet of a flow; [None] leaves it alone. *)
Definition nat_flow (s : NatState) (flow : Flow) : outcome (NatState * option Flow) :=
  match nat_hash s !! flow with
  | Some out => Ret (s, Some out)
  | None =>
      if decide (nat_next s < MAX_PORT) then
        let assigned_port := nat_next s in
        old ← index (nat_vec s) assigned_port;
        vec ← set_index (nat_vec s) assigned_port (mkFlowUsed flow (fu_time old) true);
        let outgoing_flow := mkFlow ip (fl_dst_ip flow) assigned_port (fl_dst_port flow) (fl_proto flow) in
        let rev_flow := reverse_flow outgoing_flow in
        Ret (mkNatState (<[rev_flow := reverse_flow flow]> (<[flow := outgoing_flow]> (nat_hash s))) vec
               (wadd 16 (nat_next s) 1),
             Some outgoing_flow)
      else Ret (s, None)
  end.

(** The closure that transforms packets, on the payload of the Ethernet header. *)
Definition nat_packet `{ByteOrder} (ipcsum : bytes → Z) (s : NatState) (payload : bytes) : outcome (NatState * bytes) :=
  flow ← ipv4_extract_flow payload;
  match flow with
  | Some flow =>
      '(s, out) ← nat_flow s flow;
      match out with
      | Some out => payload ← ipv4_stamp_flow ipcsum out payload; Ret (s, payload)
      | None => Ret (s, payload)
      end
  | None => Ret (s, payload)
  end.

(** ** Reachable states

    Packets come from inside, whose destination is not the address of the
    translator, or belong to a flow that it knows. *)
Inductive nat_steps : NatState → NatState → Prop :=
| nat_here s : nat_steps s s
| nat_next_step s s1 flow out s2 :
    nat_steps s s1 → fl_dst_ip flow ≠ ip ∨ is_Some (nat_hash s1 !! flow) →
    nat_flow s1 flow = Ret (s2, out) → nat_steps s s2.

(** ** What the table holds *)

Record nat_ok (s : NatState) : Prop := {
  no_vec : len (nat_vec s) = 64511;
  no_next : MIN_PORT ≤ nat_next s ≤ 64511;
  no_out : ∀ f o, nat_hash s !! f = Some o → fl_dst_ip f ≠ ip →
    ∃ p, MIN_PORT ≤ p < nat_next s ∧ o = mkFlow ip (fl_dst_ip f) p (fl_dst_port f) (fl_proto f) ∧
      nat_hash s !! reverse_flow o = Some (reverse_flow f);
  no_port : ∀ f1 f2 o1 o2, nat_hash s !! f1 = Some o1 → nat_hash s !! f2 = Some o2 →
    fl_dst_ip f1 ≠ ip → fl_dst_ip f2 ≠ ip → fl_src_port o1 = fl_src_port o2 → f1 = f2;
  no_in : ∀ g r, nat_hash s !! g = Some r → fl_dst_ip g = ip → fl_dst_port g < nat_next s;
}.

Lemma nat_new_ok : nat_ok nat_new.
Proof. split; try done. Qed.

Lemma nat_flow_ok s f s' o :
  nat_ok s → fl_dst_ip f ≠ ip ∨ is_Some (nat_hash s !! f) → nat_flow s f = Ret (s', o) →
  nat_ok s' ∧ nat_hash s ⊆ nat_hash s' ∧ nat_hash s' !! f = o ∧ (nat_hash s !! f = o ∨ nat_next s < 64511).
Proof.
  intros [Hv Hn Ho Hp Hi] Hin. unfold nat_flow.
  destruct (nat_hash s !! f) as [out|] eqn:Ef; [intros [= <- <-]; by split_and!; [..|left]|].
  destruct Hin as [Hin|[? [=]]]. destruct (decide _) as [Hlt|Hge]; [|unfold MAX_PORT in Hge; lia].
  set (p := nat_next s) in *. intros Hs.
  destruct (index (nat_vec s) p) as [old| |] eqn:Eold; cbn [mbind outcome_bind] in Hs; [|done..].
  assert (p < 64511) as Hp2.
  { unfold index in Eold. rewrite decide_True in Eold by (unfold MIN_PORT in *; lia).
    destruct (nat_vec s !! Z.to_nat p) eqn:El; [|done]. apply lookup_lt_Some in El. unfold len in Hv. lia. }
  unfold set_index in Hs. rewrite decide_True in Hs by (unfold MIN_PORT in *; lia). cbn [mbind outcome_bind] in Hs.
  set (out := mkFlow ip (fl_dst_ip f) p (fl_dst_port f) (fl_proto f)) in *. injection Hs as <- <-.
  assert (nat_hash s !! reverse_flow out = None) as Hrev.
  { destruct (nat_hash s !! reverse_flow out) as [r|] eqn:Er; [|done]. apply Hi in Er; [|done]. cbn in Er. lia. }
  assert (reverse_flow out ≠ f) as Hne by (intros E; apply Hin; by rewrite <- E).
  assert (∀ g r, nat_hash s !! g = Some r →
    <[reverse_flow out:=reverse_flow f]> (<[f:=out]> (nat_hash s)) !! g = Some r) as Hmono.
  { intros g r Hg. rewrite !lookup_insert_ne; [done|congruence..]. }
  split_and!; [|by apply map_subseteq_spec|cbn [nat_hash]; by rewrite lookup_insert_ne, lookup_insert_eq by done|by right].
  assert (∀ g r, <[reverse_flow out:=reverse_flow f]> (<[f:=out]> (nat_hash s)) !! g = Some r →
    (g = reverse_flow out ∧ r = reverse_flow f) ∨ (g = f ∧ r = out) ∨ nat_hash s !! g = Some r) as Hinv.
  { intros g r [[<- <-]|[_ [[<- <-]|[_ Hg]]%lookup_insert_Some]]%lookup_insert_Some; auto. }
  split; cbn [nat_hash nat_vec nat_next].
  - unfold len in *. by rewrite length_insert.
  - rewrite wadd_id by (unfold in_width, MIN_PORT in *; lia). lia.
  - intros g r Hg Hgi. rewrite wadd_id by (unfold in_width, MIN_PORT in *; lia).
    apply Hinv in Hg as [[-> _]|[[-> ->]|Hg]]; [done|exists p|].
    + split; [lia|]. split; [done|]. by rewrite lookup_insert_eq.
    + destruct (Ho g r Hg Hgi) as (q & Hq & -> & Hr). exists q. split; [lia|]. split; [done|]. by apply Hmono.
  - assert (∀ g r, nat_hash s !! g = Some r → fl_dst_ip g ≠ ip → fl_src_port r ≠ p) as Hold.
    { intros g r Hg Hgi. destruct (Ho g r Hg Hgi) as (q & Hq & -> & _). cbn. lia. }
    intros f1 f2 o1 o2 H1 H2 Hi1 Hi2 He.
    apply Hinv in H1 as [[-> _]|[[-> ->]|H1]]; [done| |]; apply Hinv in H2 as [[-> _]|[[-> ->]|H2]]; try done.
    + by destruct (Hold f2 o2 H2 Hi2).
    + by destruct (Hold f1 o1 H1 Hi1).
    + by eapply Hp.
  - intros g r Hg Hgi. rewrite wadd_id by (unfold in_width, MIN_PORT in *; lia).
    apply Hinv in Hg as [[-> _]|[[-> _]|Hg]]; [cbn; lia|done|]. apply Hi in Hg; [lia|done].
Qed.

Lemma nat_steps_ok s s' : nat_steps s s' → nat_ok s → nat_ok s' ∧ nat_hash s ⊆ nat_hash s'.
Proof.
  induction 1 as [s|s s1 f o s2 _ IH Hf Hs]; intros Hok; [done|].
  destruct (IH Hok) as [H1 Hsub]. destruct (nat_flow_ok s1 f s2 o H1 Hf Hs) as (H2 & Hsub2 & _).
  split; [done|]. by etrans.
Qed.
End translate.

(** * Answers find their way back *)

Section nat.
Context `{ByteOrderLaws} (ipcsum : bytes → Z) (ip : Z) (Hip : in_width 32 ip).

(** An IP packet of a flow: its header has the full length, the ports are in the
    packet. *)
Record ip_packet (bs : bytes) (f : Flow) : Prop := {
  ip_ports : ∃ ps, port_start bs = Ret ps ∧ 20 ≤ ps ∧ ps + 4 ≤ len bs;
  ip_flow : ipv4_extract_flow bs = Ret (Some f);
  ip_fits : packed_ok f;
}.

Lemma ip_proto bs f : ip_packet bs f → index bs 9 = Ret (fl_proto f).
Proof.
  intros [_ Hf _]. unfold ipv4_extract_flow in Hf.
  destruct (port_start bs) as [ps| |]; cbn [mbind outcome_bind] in Hf; [|done..].
  destruct (index bs 9) as [proto| |]; cbn [mbind outcome_bind] in Hf; [|done..].
  by inv_outcome.
Qed.

(** Stamping makes a packet of another flow of the same protocol. *)
Lemma stamped_packet bs f o :
  ip_packet bs f → packed_ok o → fl_proto o = fl_proto f →
  ∃ bs', ipv4_stamp_flow ipcsum o bs = Ret bs' ∧ ip_packet bs' o.
Proof.
  intros Hb Ho Hp. pose proof (ip_proto bs f Hb) as Hproto. destruct Hb as [(ps & Hps & H20 & Hlen) _ _].
  destruct (flow_stamped_is_extracted ipcsum o bs ps (fl_proto f) Ho Hps H20 Hlen Hproto)
    as (z & bs' & Hs & He & _ & _ & Hl & _ & _ & Hk).
  exists bs'. split; [done|]. split; [|by rewrite He, <- Hp; destruct o|done].
  exists ps. split; [|by unfold len in *; rewrite Hl]. rewrite <- Hps. unfold port_start.
  by rewrite (index_ext bs' bs) by (apply Hk; lia).
Qed.

Lemma nat_packet_spec s bs f s' o :
  ip_packet bs f → nat_flow ip s f = Ret (s', Some o) → packed_ok o → fl_proto o = fl_proto f →
  ∃ bs', nat_packet ip ipcsum s bs = Ret (s', bs') ∧ ip_packet bs' o.
Proof.
  intros Hb Hn Ho Hp. destruct (stamped_packet bs f o Hb Ho Hp) as (bs' & Hs & Hb').
  exists bs'. split; [|done]. unfold nat_packet. rewrite (ip_flow _ _ Hb). cbn [mbind outcome_bind].
  rewrite Hn. cbn [mbind outcome_bind]. by rewrite Hs.
Qed.

(** Flows fit the types of their fields. *)
Lemma flow_fits f :
  packed_ok f ↔ in_width 32 (fl_src_ip f) ∧ in_width 32 (fl_dst_ip f) ∧ in_width 16 (fl_src_port f) ∧
    in_width 16 (fl_dst_port f) ∧ in_width 8 (fl_proto f).
Proof.
  unfold packed_ok. cbn. split.
  - intros Hf. repeat match goal with Hx : Forall2 _ (_ :: _) _ |- _ => inversion_clear Hx end. done.
  - intros (? & ? & ? & ? & ?). repeat (apply List.Forall2_cons; [done|]). apply List.Forall2_nil.
Qed.

(** A new flow is given the next port, as long as the table of ports has it. *)
Lemma nat_flow_new s f :
  nat_ok ip s → nat_hash s !! f = None →
  (nat_next s < 64511 → ∃ s' o, nat_flow ip s f = Ret (s', Some o)) ∧
  (nat_next s = 64511 → nat_flow ip s f = Panic).
Proof.
  intros [Hv Hn _ _ _] Hf. unfold nat_flow. rewrite Hf. unfold MIN_PORT, MAX_PORT in *.
  rewrite decide_True by lia. unfold index, set_index. split.
  - intros Hlt. destruct (lookup_lt_is_Some_2 (nat_vec s) (Z.to_nat (nat_next s))) as [old Hold]; [unfold len in Hv; lia|].
    rewrite decide_True by lia. rewrite Hold. cbn [expect mbind outcome_bind]. rewrite decide_True by lia.
    cbn [mbind outcome_bind]. eauto.
  - intros E. rewrite decide_True by lia. rewrite (lookup_ge_None_2 (nat_vec s)) by (unfold len in Hv; lia). done.
Qed.

(** C32: a flow that goes out is translated, and its answers find their way back.
    Take the translator after any packets that came from inside or belonged to
    flows it knew, and a packet from inside.  If its flow is known, or a port is
    left, the packet leaves with the translator's address and a port of its own
    as its source, and nothing else of its flow changed; and from then on,
    whatever passes, the flow keeps that port, no other flow gets it, and a packet
    that answers the flow that left comes out as an answer to the flow that came,
    leaving the tables alone.  Without a port left, a new flow panics: the table
    of ports has 64511 entries, not one for every port below 65535. *)
Theorem nat_answers_come_back s bs f :
  nat_steps ip nat_new s → ip_packet bs f → fl_dst_ip f ≠ ip →
  (is_Some (nat_hash s !! f) ∨ nat_next s < 64511 →
    ∃ s1 bs1 o, nat_packet ip ipcsum s bs = Ret (s1, bs1) ∧ ip_packet bs1 o ∧
      o = mkFlow ip (fl_dst_ip f) (fl_src_port o) (fl_dst_port f) (fl_proto f) ∧
      1024 ≤ fl_src_port o < 64511 ∧
      ∀ s2, nat_steps ip s1 s2 →
        (∀ bs2, ip_packet bs2 f → ∃ bs3, nat_packet ip ipcsum s2 bs2 = Ret (s2, bs3) ∧ ip_packet bs3 o) ∧
        (∀ bs2, ip_packet bs2 (reverse_flow o) →
          ∃ bs3, nat_packet ip ipcsum s2 bs2 = Ret (s2, bs3) ∧ ip_packet bs3 (reverse_flow f)) ∧
        (∀ f' o', f' ≠ f → fl_dst_ip f' ≠ ip → nat_hash s2 !! f' = Some o' → fl_src_port o' ≠ fl_src_port o)) ∧
  (nat_hash s !! f = None → nat_next s = 64511 → nat_packet ip ipcsum s bs = Panic).
Proof.
  intros Hs Hb Hin. destruct (nat_steps_ok ip _ _ Hs (nat_new_ok ip)) as [Hok _].
  split.
  2:{ intros Hf Hn. unfold nat_packet. rewrite (ip_flow _ _ Hb). cbn [mbind outcome_bind].
      by rewrite (proj2 (nat_flow_new s f Hok Hf) Hn). }
  intros Hroom.
  assert (∃ s1 o, nat_flow ip s f = Ret (s1, Some o)) as (s1 & o & Ho).
  { destruct (nat_hash s !! f) as [o|] eqn:Ef.
    - exists s, o. unfold nat_flow. by rewrite Ef.
    - destruct Hroom as [[? [=]]|Hlt]. by apply (nat_flow_new s f Hok Ef). }
  destruct (nat_flow_ok ip s f s1 (Some o) Hok (or_introl Hin) Ho) as (Hok1 & _ & Hfo & _).
  destruct (no_out _ _ Hok1 f o Hfo Hin) as (p & Hp & Eo & Hback). pose proof (no_next _ _ Hok1) as Hn1.
  unfold MIN_PORT in *. pose proof (proj1 (flow_fits f) (ip_fits _ _ Hb)) as (W1 & W2 & W3 & W4 & W5).
  assert (packed_ok o) as Hfits by (apply flow_fits; subst o; cbn; split_and!; [done..|unfold in_width; lia|done|done]).
  assert (fl_proto o = fl_proto f) as Hproto by by subst o.
  destruct (nat_packet_spec s bs f s1 o Hb Ho Hfits Hproto) as (bs1 & Hbs1 & Hpk1).
  exists s1, bs1, o. split; [done|]. split; [done|]. split; [by subst o|]. split; [subst o; cbn; lia|].
  intros s2 Hs2. destruct (nat_steps_ok ip _ _ Hs2 Hok1) as [Hok2 Hsub].
  assert (∀ g r, nat_hash s1 !! g = Some r → nat_flow ip s2 g = Ret (s2, Some r)) as Hknown.
  { intros g r Hg. unfold nat_flow. by rewrite (proj1 (map_subseteq_spec _ _) Hsub g r Hg). }
  split_and!.
  - intros bs2 Hb2. by apply (nat_packet_spec s2 bs2 f s2 o Hb2); [apply Hknown|..].
  - intros bs2 Hb2. apply (nat_packet_spec s2 bs2 (reverse_flow o) s2 (reverse_flow f) Hb2); [by apply Hknown| |by subst o].
    apply flow_fits. by split_and!.
  - intros f' o' Hne Hin' Hf' E. apply Hne. eapply (no_port _ _ Hok2); [exact Hf'| |done|done|exact E].
    by apply (proj1 (map_subseteq_spec _ _) Hsub).
Qed.
End nat.

(** A packet of a flow to a name server. *)
Definition ex_nat_packet : bytes :=
  [0x45; 0; 0; 24; 0; 0; 0; 0; 64; 17; 0; 0; 192; 168; 0; 5; 8; 8; 8; 8; 200; 0; 0; 53].

Definition ex_nat_flow : Flow := mkFlow 0xc0a80005 0x08080808 51200 53 17.

Lemma nat_answers_come_back_witness :
  let be := be_instance in
  ∃ s1 bs1 o, nat_packet 0x0a000001 (foldr Z.add 0) nat_new ex_nat_packet = Ret (s1, bs1) ∧ ip_packet bs1 o ∧
    fl_src_ip o = 0x0a000001 ∧
    ∀ bs2, ip_packet bs2 (reverse_flow o) →
      ∃ bs3, nat_packet 0x0a000001 (foldr Z.add 0) s1 bs2 = Ret (s1, bs3) ∧ ip_packet bs3 (reverse_flow ex_nat_flow).
Proof.
  intros be.
  destruct (proj1 (@nat_answers_come_back be be_instance_laws (foldr Z.add 0) 0x0a000001 ltac:(done) nat_new
    ex_nat_packet ex_nat_flow (nat_here _ _) ltac:(split; [exists 20; by vm_compute|by vm_compute|by apply flow_fits]) ltac:(done)))
    as (s1 & bs1 & o & Hp & Hb & Ho & _ & Hs); [by right|].
  exists s1, bs1, o. split; [done|]. split; [done|]. split; [by rewrite Ho|].
  apply (Hs s1 (nat_here _ _)).
Defined.
