(* ===== verification/Acl.v ===== *)
(** * Acl: a firewall

    Models net/test/acl-fw/src/nf.rs, a network function that NetBricks is tested
    with, and the method [flow] of net/framework/src/headers/ip.rs that it
    relies on. *)

From stdpp Require Import gmap.
From S2P Require Import Prelude Bits Packed Headers Flow.

(** ** IpHeader::flow *)

(** The bytes in memory from the header on; reading past them is undefined. *)
Definition ip_header_flow `{ByteOrder} (h : IpHeader) (memory : bytes) : outcome (option Flow) :=
  if decide ((protocol h = 6 ∨ protocol h = 17) ∧ payload_size h 0 >= 4) then
    let port_slice := drop (Z.to_nat (offset h)) memory in
    dst_port ← unchecked (match slice port_slice 0 2 with Ret p => Some p | _ => None end);
    src_port ← unchecked (match slice port_slice 2 4 with Ret p => Some p | _ => None end);
    Ret (Some (mkFlow (ip_src h) (ip_dst h) (be_read 2 src_port) (be_read 2 dst_port) (protocol h)))
  else Ret None.

(** ** Rules *)

Record Acl := mkAcl {
  acl_src_ip : option Ipv4Prefix;
  acl_dst_ip : option Ipv4Prefix;
  acl_src_port : option Z;
  acl_dst_port : option Z;
  acl_established : option bool;
  acl_drop : bool;
}.

(** A condition that is not given holds. *)
Definition when {A} (o : option A) (f : A → bool) : bool := match o with None => true | Some a => f a end.

Definition acl_five_tuple (a : Acl) (flow : Flow) : bool :=
  when (acl_src_ip a) (λ p, in_range p (fl_src_ip flow)) &&
  when (acl_dst_ip a) (λ p, in_range p (fl_dst_ip flow)) &&
  when (acl_src_port a) (λ p, bool_decide (fl_src_port flow = p)) &&
  when (acl_dst_port a) (λ p, bool_decide (fl_dst_port flow = p)).

Definition acl_matches (a : Acl) (flow : Flow) (connections : gset Flow) : bool :=
  if acl_five_tuple a flow then
    match acl_established a with
    | Some established =>
        let rev_flow := reverse_flow flow in
        Bool.eqb (bool_decide (flow ∈ connections) || bool_decide (rev_flow ∈ connections)) established
    | None => true
    end
  else false.

(** The closure that filters flows: the first rule that matches decides, and
    without one the packet is dropped. *)
Fixpoint acl_decide (acls : list Acl) (flow_cache : gset Flow) (flow : Flow) : gset Flow * bool :=
  match acls with
  | [] => (flow_cache, false)
  | acl :: acls =>
      if acl_matches acl flow flow_cache then
        (if acl_drop acl then flow_cache else {[flow]} ∪ flow_cache, negb (acl_drop acl))
      else acl_decide acls flow_cache flow
  end.

(** On a packet: without a flow the [unwrap] panics. *)
Definition acl_filter `{ByteOrder} (acls : list Acl) (flow_cache : gset Flow) (h : IpHeader) (memory : bytes) :
    outcome (gset Flow * bool) :=
  flow ← ip_header_flow h memory;
  flow ← expect flow;
  Ret (acl_decide acls flow_cache flow).

(** The flows that were let through, after packets of these flows. *)
Definition acl_run (acls : list Acl) (flows : list Flow) : gset Flow :=
  foldl (λ cache flow, (acl_decide acls cache flow).1) ∅ flows.

(** ** What the firewall lets through *)

(** The first rule of the list that matches. *)
Definition decides (acls : list Acl) (cache : gset Flow) (flow : Flow) (a : Acl) : Prop :=
  acl_matches a flow cache = true ∧
  ∃ before after, acls = before ++ (a :: after) ∧ Forall (λ b, acl_matches b flow cache = false) before.

(** The flow opens a connection: nothing was let through for it in either
    direction, and the rule that decides lets it through and does not ask that
    something was. *)
Definition opens (acls : list Acl) (cache : gset Flow) (flow : Flow) : Prop :=
  (flow ∉ cache) ∧ (reverse_flow flow ∉ cache) ∧
  ∃ a, decides acls cache flow a ∧ acl_five_tuple a flow = true ∧ acl_drop a = false ∧
    (acl_established a = None ∨ acl_established a = Some false).

Lemma reverse_involutive f : reverse_flow (reverse_flow f) = f.
Proof. by destruct f. Qed.

Section firewall.
Context (acls : list Acl).

(** Some packet of these opened the connection of the flow, at its time. *)
Definition opened (flows : list Flow) (f : Flow) : Prop :=
  ∃ pre g post, flows = pre ++ g :: post ∧ (g = f ∨ g = reverse_flow f) ∧ opens acls (acl_run acls pre) g.

Lemma opened_more flows f g : opened flows f → opened (flows ++ [g]) f.
Proof. intros (pre & h & post & -> & ?). exists pre, h, (post ++ [g]). by rewrite <- app_assoc. Qed.

Lemma opened_reverse flows f : opened flows (reverse_flow f) → opened flows f.
Proof.
  intros (pre & h & post & ? & Hf & ?). exists pre, h, post. rewrite reverse_involutive in Hf. tauto.
Qed.

Lemma acl_decide_spec l cache f :
  acl_decide l cache f = (cache, false) ∨
  ∃ a, decides l cache f a ∧ acl_drop a = false ∧ acl_decide l cache f = ({[f]} ∪ cache, true).
Proof.
  induction l as [|a l IH]; cbn [acl_decide]; [by left|]. destruct (acl_matches a f cache) eqn:Hm.
  - destruct (acl_drop a) eqn:Hd; [by left|]. right. exists a. split; [|done]. split; [done|]. by exists [], l.
  - destruct IH as [->|(b & (Hb & before & after & -> & Hn) & Hd & E)]; [by left|]. right. exists b.
    split; [|done]. split; [done|]. exists (a :: before), after. by split; [|constructor].
Qed.

Lemma admitted_opened flows f :
  (∀ h, h ∈ acl_run acls flows → opened flows h) → (acl_decide acls (acl_run acls flows) f).2 = true →
  opened (flows ++ [f]) f.
Proof.
  intros Hc Hd. set (cache := acl_run acls flows) in *.
  destruct (decide (f ∈ cache)) as [Hf|Hf]; [by apply opened_more, Hc|].
  destruct (decide (reverse_flow f ∈ cache)) as [Hr|Hr]; [by apply opened_more, opened_reverse, Hc|].
  destruct (acl_decide_spec acls cache f) as [E|(a & Ha & Hdrop & E)]; rewrite E in Hd; cbn in Hd; [done|].
  exists flows, f, []. split; [done|]. split; [by left|]. split; [done|]. split; [done|]. exists a.
  split; [done|]. destruct Ha as [Hm _]. unfold acl_matches in Hm.
  destruct (acl_five_tuple a f); [|done]. split; [done|]. split; [done|].
  destruct (acl_established a) as [[|]|]; [|by right|by left].
  apply eqb_prop, orb_true_iff in Hm as [Hm|Hm]; by apply bool_decide_eq_true in Hm.
Qed.

Lemma cache_opened flows h : h ∈ acl_run acls flows → opened flows h.
Proof.
  revert h. induction flows as [|f flows IH] using rev_ind; intros h; [by intros Hh%elem_of_empty|].
  unfold acl_run. rewrite foldl_snoc. fold (acl_run acls flows).
  destruct (acl_decide_spec acls (acl_run acls flows) f) as [E|(a & Ha & Hdrop & E)]; rewrite E; cbn [fst].
  - intros Hh. by apply opened_more, IH.
  - intros [->%elem_of_singleton|Hh]%elem_of_union; [|by apply opened_more, IH].
    apply admitted_opened; [done|]. by rewrite E.
Qed.

(** C33: nothing passes the firewall that was not asked for.  After packets of any
    flows, if a packet of a flow is let through, then that packet, or an earlier one
    of the same flow or of its reverse, opened the connection: when it came, nothing
    had been let through in either direction, and the first rule of the list that
    matched it, which decides, lets through and does not require that the connection
    is established (it says nothing about that, or requires that it is not). *)
Theorem firewall_admits_asked flows f :
  (acl_decide acls (acl_run acls flows) f).2 = true →
  ∃ pre g post, flows ++ [f] = pre ++ g :: post ∧ (g = f ∨ g = reverse_flow f) ∧ opens acls (acl_run acls pre) g.
Proof. apply admitted_opened, cache_opened. Qed.
End firewall.

(** Inside is 10.0.0.0/8; answers are let in. *)
Definition ex_acls : list Acl :=
  [mkAcl (Some (Ipv4Prefix_new 0x0a000000 8)) None None None None false;
   mkAcl None (Some (Ipv4Prefix_new 0x0a000000 8)) None None (Some true) false].

Definition ex_out : Flow := mkFlow 0x0a000001 0x08080808 5000 53 17.

Example ex_acl_answers :
  (acl_decide ex_acls (acl_run ex_acls []) (reverse_flow ex_out)).2 = false ∧
  (acl_decide ex_acls (acl_run ex_acls [ex_out]) (reverse_flow ex_out)).2 = true.
Proof. by vm_compute. Qed.

Lemma firewall_admits_asked_witness :
  ∃ pre g post, [ex_out] ++ [reverse_flow ex_out] = pre ++ g :: post ∧
    (g = reverse_flow ex_out ∨ g = reverse_flow (reverse_flow ex_out)) ∧ opens ex_acls (acl_run ex_acls pre) g.
Proof. apply (firewall_admits_asked ex_acls [ex_out] (reverse_flow ex_out)). vm_compute. reflexivity. Defined.

(** The ports of a packet, as the two ways to get its flow see them: the header's
    own method takes the first for the destination. *)
Example ip_header_flow_swaps_ports :
  let be := be_instance in
  let bs := [0x45; 0; 0; 24; 0; 0; 0; 0; 64; 17; 0; 0; 192; 168; 0; 5; 8; 8; 8; 8; 200; 0; 0; 53] in
  ipv4_extract_flow bs = Ret (Some (mkFlow 0xc0a80005 0x08080808 51200 53 17)) ∧
  ip_header_flow (decode (take 20 bs)) bs =
    Ret (Some (mkFlow 0xc0a80005 0x08080808 53 51200 17)).
Proof. vm_compute. split; reflexivity. Qed.
