(* ===== verification/GroupBy.v ===== *)
(** * GroupBy: the operator that splits a batch into groups

    Models net/framework/src/operators/group_by.rs.  A task takes the packets of
    its parent, asks a closure for the group of each, and puts it into the queue of
    that group; the groups are batches that receive from the queues.

    The queues (file Mpsc) are the interface [MpscQueues]: handles into a state of
    all queues, since the two ends of one share it. *)

From stdpp Require Import gmap.
From S2P Require Import Prelude Packed Headers Packet Batch BatchSpecs Pipeline.

Class MpscQueues (S P Q : Type) := {
  (** The batch of the consumer's end is over newly allocated memory. *)
  new_queue_pair : S → S * (P * ReceiveBatch Q);
  (** Whether the mbuf was taken. *)
  enqueue_one : S → P → ptr → S * bool;
}.

(** The header is where the packet's is, for [restore_saved_header]. *)
Definition save_header_and_offset {H} (w : World) (d : PacketDescriptor H) : World :=
  set_slots w (pd_mbuf d)
    (write_slot (write_slot (w_slots w (pd_mbuf d)) HEADER_SLOT (pd_header d)) OFFSET_SLOT (pd_offset d)).

Record GroupByProducer (V H P F : Type) := mkGroupByProducer {
  gp_parent : V;
  gp_producers : list P;
  gp_group_fn : F → Pkt H → outcome (Z * F);
  gp_captured : F;
}.
Arguments mkGroupByProducer {_ _ _ _} _ _ _ _.
Arguments gp_parent {_ _ _ _} _.
Arguments gp_producers {_ _ _ _} _.
Arguments gp_group_fn {_ _ _ _} _.
Arguments gp_captured {_ _ _ _} _.

Section group_by.
Context {V H P Q F S : Type} `{Batch V H} `{MpscQueues S P Q}.

(** The packet's handle is gone after [enqueue_one], whatever it answers. *)
Definition group_packet (fn : F → Pkt H → outcome (Z * F)) (producers : list P)
    (w : World) (s : F * S) (_ : Z) (d : PacketDescriptor H) : outcome (World * (F * S)) :=
  p ← load w d;
  '(group, f) ← fn s.1 p;
  let w := save_header_and_offset w d in
  producer ← index producers group;
  let '(qs, _) := enqueue_one s.2 producer (pd_mbuf d) in
  Ret (w, (f, qs)).

Definition group_by_execute (w : World) (qs : S) (u : GroupByProducer V H P F) :
    outcome (World * S * GroupByProducer V H P F) :=
  '(w, v) ← act w (gp_parent u);
  '(w, (f, qs)) ← for_each_packet (group_packet (gp_group_fn u) (gp_producers u)) w v (gp_captured u, qs);
  '(b, put) ← get_packet_batch v;
  b ← consume_batch b;
  '(w, v) ← done_ w (put b);
  Ret (w, qs, mkGroupByProducer v (gp_producers u) (gp_group_fn u) f).

Definition group_by_dependencies (u : GroupByProducer V H P F) : list Z := get_task_dependencies (gp_parent u).

(** ** The groups *)

Record GroupBy := mkGroupBy {
  gb_groups : Z;
  gb_consumers : gmap Z (ReceiveBatch Q);
  gb_task : Z;
}.

(** [add_task] is the scheduler's. *)
Definition GroupBy_new {Sched : Type} (add_task : Sched → GroupByProducer V H P F → option (Sched * Z))
    (sched : Sched) (qs : S) (parent : V) (groups : Z) (group_fn : F → Pkt H → outcome (Z * F)) (f : F) :
    outcome (Sched * S * GroupBy) :=
  let '(qs, producers, consumers) :=
    foldl (λ '(qs, producers, consumers) i,
      let '(qs, (prod, consumer)) := new_queue_pair qs in
      (qs, producers ++ [prod], <[i := consumer]> consumers)) (qs, [], ∅) (seqZ 0 groups) in
  '(sched, task) ← expect (add_task sched (mkGroupByProducer parent producers group_fn f));
  Ret (sched, qs, mkGroupBy groups consumers task).

(** A group can be taken once. *)
Definition get_group (g : GroupBy) (group : Z) : GroupBy * option (RestoreHeader H (ReceiveBatch Q)) :=
  match gb_consumers g !! group with
  | Some p =>
      (mkGroupBy (gb_groups g) (delete group (gb_consumers g)) (gb_task g),
       Some (mkRestoreHeader (rc_with_parent p (add_parent_task (rc_parent p) (gb_task g)))))
  | None => (g, None)
  end.

(** ** What it does with the packets *)

(** What each queue was given and took, in order. *)
Class MpscQueuesLaws := {
  queue_items : S → P → list ptr;
  enqueue_law : ∀ qs p x qs' ok, enqueue_one qs p x = (qs', ok) →
    queue_items qs' p = queue_items qs p ++ (if ok : bool then [x] else []) ∧
    ∀ p', p' ≠ p → queue_items qs' p' = queue_items qs p';
}.

(** A packet's mbuf, its group, and whether the queue of the group took it. *)
Definition Tag : Type := ptr * (Z * bool).

(** The mbufs of a group, in order. *)
Definition group_of (i : Z) (tags : list Tag) : list ptr :=
  tags ≫= λ t : Tag, if decide (t.2.1 = i) then (if t.2.2 then [t.1] else []) else [].

Lemma group_of_app i l1 l2 : group_of i (l1 ++ l2) = group_of i l1 ++ group_of i l2.
Proof. apply bind_app. Qed.

Section laws.
Context `{!BatchInv V, !BatchLaws V H} `{MpscQueuesLaws}.

(** A loop over all packets of a batch, with an invariant of the index. *)
Lemma enumerate_visits {A} (R : Z → A → Prop) body v b put :
  b_inv v → get_packet_batch v = Ret (b, put) →
  (∀ w s i d w' s', 0 ≤ i → pb_array b !! Z.to_nat i = Some (pd_mbuf d) → R i s → body w s i d = Ret (w', s') →
     same_logs w w' ∧ R (i + 1) s') →
  ∀ fuel w i s w' s', 0 ≤ i → R i s → enumerate body fuel w v i s = Ret (w', s') →
    same_logs w w' ∧ ∃ j, 0 ≤ j ∧ pb_len b ≤ j ∧ R j s'.
Proof.
  intros Hv Hb Hbody fuel. induction fuel as [|fuel IH]; intros w i s w' s' Hi HR He; cbn [enumerate] in He.
  all: destruct (next_payload w v i) as [[w1 [d|]]| |] eqn:E; try done; cbn in He.
  all: destruct (bl_next _ _ _ _ _ _ _ Hv Hb Hi E) as [Hl Hd]; try (injection He as <- <-; by eauto).
  destruct (body w1 s i d) as [[w2 s2]| |] eqn:E2; try done. cbn in He.
  destruct (Hbody _ _ _ _ _ _ Hi Hd HR E2) as [Hl2 HR2].
  destruct (IH w2 (i + 1) s2 w' s' ltac:(lia) HR2 He) as [Hl3 HR3].
  split; [|done]. eapply same_logs_trans; [done|]. by eapply same_logs_trans.
Qed.

(** What the queues have after the first [i] packets. *)
Definition grouped (b : PacketBatch) (producers : list P) (qs : S) (i : Z) (s : F * S) : Prop :=
  i ≤ len (pb_array b) ∧ ∃ tags : list Tag, tags.*1 = take (Z.to_nat i) (pb_array b) ∧
    Forall (λ t : Tag, 0 ≤ t.2.1 < len producers) tags ∧
    ∀ g p, producers !! g = Some p → queue_items s.2 p = queue_items qs p ++ group_of (Z.of_nat g) tags.

Lemma group_packet_groups b producers qs fn w s i d w' s' :
  NoDup producers → 0 ≤ i → pb_array b !! Z.to_nat i = Some (pd_mbuf d) → grouped b producers qs i s →
  group_packet fn producers w s i d = Ret (w', s') →
  same_logs w w' ∧ grouped b producers qs (i + 1) s'.
Proof.
  intros Hnd Hi Hd (Hle & tags & Ht & Hg & Hq) He. unfold group_packet in He.
  destruct (load w d) as [p| |]; cbn [mbind outcome_bind] in He; [|done..].
  destruct (fn s.1 p) as [[g f]| |]; cbn [mbind outcome_bind] in He; [|done..].
  destruct (index producers g) as [pr| |] eqn:Epr; cbn [mbind outcome_bind] in He; [|done..].
  unfold index in Epr. case_decide as Hg0; [|done]. destruct (producers !! Z.to_nat g) as [pr'|] eqn:El; [|done].
  cbn in Epr. injection Epr as ->.
  destruct (enqueue_one s.2 pr (pd_mbuf d)) as [qs' ok] eqn:Een. injection He as <- <-.
  destruct (enqueue_law _ _ _ _ _ Een) as [Hsame Hother].
  split; [apply same_logs_set_slots|]. pose proof (lookup_lt_Some _ _ _ Hd) as Hlt.
  pose proof (lookup_lt_Some _ _ _ El) as Hgl. split; [unfold len; lia|].
  exists (tags ++ [(pd_mbuf d, (g, ok))]). split; [|split].
  - rewrite fmap_app, Ht. replace (Z.to_nat (i + 1)) with (Datatypes.S (Z.to_nat i)) by lia.
    symmetry. by apply take_S_r.
  - apply Forall_app. split; [done|]. apply Forall_singleton. cbn. unfold len. lia.
  - intros k p' Hk. cbn [snd]. rewrite group_of_app. cbn. rewrite app_nil_r, (assoc_L (++)), <- (Hq k p' Hk).
    destruct (decide (g = Z.of_nat k)) as [->|Hne].
    + rewrite Nat2Z.id in El. assert (p' = pr) as -> by congruence. rewrite Hsame. done.
    + rewrite app_nil_r. apply Hother. intros ->.
      assert (k = Z.to_nat g) by (by eapply NoDup_lookup). lia.
Qed.

(** C34: group_by splits a batch.  When the task runs, every packet that its parent
    got, and no other, is put into the queue of the group that the closure names,
    in order; the batch is then emptied, so that none of these mbufs is freed,
    also not those that a full queue did not take. *)
Theorem group_by_splits w qs (u : GroupByProducer V H P F) w' qs' u' :
  b_inv (gp_parent u) → NoDup (gp_producers u) → group_by_execute w qs u = Ret (w', qs', u') →
  gp_producers u' = gp_producers u ∧
  ∃ w1 v1 b put w2 b2 tags,
    act w (gp_parent u) = Ret (w1, v1) ∧ get_packet_batch v1 = Ret (b, put) ∧
    tags.*1 = pb_array b ∧ Forall (λ t : Tag, 0 ≤ t.2.1 < len (gp_producers u)) tags ∧
    (∀ g p, gp_producers u !! g = Some p →
       queue_items qs' p = queue_items qs p ++ group_of (Z.of_nat g) tags) ∧
    same_logs w1 w2 ∧ pb_array b2 = [] ∧ done_ w2 (put b2) = Ret (w', gp_parent u').
Proof.
  intros Hi Hnd E. unfold group_by_execute in E.
  destruct (act w (gp_parent u)) as [[w1 v1]| |] eqn:E1; cbn [mbind outcome_bind] in E; [|done..].
  destruct (bl_act _ _ _ _ Hi E1) as [Hi1 _]. destruct (bl_bottom v1 Hi1) as (b & put & others & Hb & Hok & _).
  destruct (for_each_packet _ w1 v1 _) as [[w2 [f qs2]]| |] eqn:E2; cbn [mbind outcome_bind] in E; [|done..].
  rewrite Hb in E. cbn [mbind outcome_bind] in E.
  destruct (consume_batch b) as [b2| |] eqn:E3; cbn [mbind outcome_bind] in E; [|done..].
  destruct (done_ w2 (put b2)) as [[w3 v3]| |] eqn:E4; cbn [mbind outcome_bind] in E; [|done..].
  injection E as <- <- <-. cbn [gp_producers gp_parent]. split; [done|].
  unfold for_each_packet in E2. rewrite Hb, (bl_start v1 Hi1) in E2. cbn [mbind outcome_bind] in E2.
  apply (enumerate_visits (grouped b (gp_producers u) qs) _ v1 b put Hi1 Hb) in E2 as (Hl & j & Hj & Hlen & Hle & tags & Ht & Hg & Hq);
    [| |done|].
  - exists w1, v1, b, put, w2, b2, tags. split_and!; try done.
    + rewrite Ht. apply take_ge. rewrite <- (pb_array_len b Hok) in Hlen. unfold len in Hlen. lia.
    + unfold consume_batch, pb_set_len in E3. case_decide; [|done]. injection E3 as <-. done.
  - intros w0 s i d w0' s' Hi0 Hd HR He. by eapply group_packet_groups.
  - split; [apply len_nonneg|]. exists []. split; [done|]. split; [by constructor|].
    intros g p _. cbn. by rewrite app_nil_r.
Qed.
End laws.
End group_by.

(** ** An example: packets in turn into two queues, of which the second is full *)

Section example.
#[local] Instance two_queues : MpscQueues (list (bool * ptr)) bool unit := {|
  new_queue_pair s := (s, (false, ReceiveBatch_new (replicate 32 0) tt));
  enqueue_one s p x := if p then (s, false) else (s ++ [(p, x)], true);
|}.

#[local] Instance two_queues_laws : MpscQueuesLaws (S := list (bool * ptr)) (P := bool) (Q := unit).
Proof.
  refine {| queue_items s p := snd <$> filter (λ x, x.1 = p) s |}.
  intros s p x s' ok. unfold enqueue_one, two_queues. destruct p; intros [= <- <-].
  - split; [by rewrite app_nil_r|done].
  - split.
    + rewrite filter_app, fmap_app. f_equal.
    + intros p' Hp. destruct p'; [|done]. rewrite filter_app, fmap_app. cbn. by rewrite app_nil_r.
Defined.

Definition ex_group_mbuf : MBuf := mkMBuf 0 1 14 14 (replicate 14 0).

Definition ex_group_world : World :=
  mkWorld (list_to_map [(1, ex_group_mbuf); (2, ex_group_mbuf); (3, ex_group_mbuf)]) (λ _ _, 0) [1; 2; 3] [] [].

Definition ex_group_by : GroupByProducer PacketBatch NullHeader bool Z :=
  mkGroupByProducer (mkPacketBatch [1; 2; 3] 3 [] []) [false; true] (λ f _, Ret (f mod 2, f + 1)) 0.

Definition ex_group_run := group_by_execute (Q := unit) ex_group_world [] ex_group_by.

Lemma group_by_splits_witness :
  ∃ w' qs' u', ex_group_run = Ret (w', qs', u') ∧ queue_items (Q := unit) qs' false = [1; 3] ∧
    queue_items (Q := unit) qs' true = [] ∧ w_freed w' = [] ∧
    ∃ w1 v1 b put w2 b2 tags,
      act ex_group_world (gp_parent ex_group_by) = Ret (w1, v1) ∧ get_packet_batch v1 = Ret (b, put) ∧
      tags.*1 = pb_array b ∧ Forall (λ t : Tag, 0 ≤ t.2.1 < 2) tags ∧
      (∀ g p, [false; true] !! g = Some p →
         queue_items (Q := unit) qs' p = queue_items (Q := unit) [] p ++ group_of (Z.of_nat g) tags) ∧
      same_logs w1 w2 ∧ pb_array b2 = [] ∧ done_ w2 (put b2) = Ret (w', gp_parent u').
Proof.
  assert ((λ r, match r with Ret (w, qs, _) => Some (w_freed w, qs) | _ => None end) ex_group_run =
    Some ([], [(false, 1); (false, 3)])) as Hr by (vm_compute; reflexivity).
  destruct ex_group_run as [[[w' qs'] u']| |] eqn:E; try discriminate Hr. injection Hr as Hf ->.
  destruct (group_by_splits (Q := unit) ex_group_world [] ex_group_by w' [(false, 1); (false, 3)] u') as [_ Hs];
    [by split|by apply (bool_decide_unpack _)|exact E|].
  exists w', [(false, 1); (false, 3)], u'. split; [reflexivity|]. split; [reflexivity|]. split; [reflexivity|]. split; [done|]. exact Hs.
Defined.
End example.
