(* ===== verification/Watchdog.v ===== *)
(** * Watchdog: replacing a scheduler that is stuck

    Models the loop at the end of [main] in db/src/bin/server.rs, which looks for
    schedulers that have not made a decision for some time, together with the
    thread of such a scheduler, which runs [poll] of db/src/sched.rs (file Sched)
    all the while.  The queue and the responses of a scheduler are behind locks, its
    flag and its time stamp are atomic: every such access is a step, and the steps
    of the old thread, of the new one and of the watchdog interleave in any order.

    What a task does while it runs is left open: it may add tasks to its scheduler,
    take the responses, and then complete, yield or panic.  A panic ends the thread,
    and closes the channel for its commands: to stop it then panics the watchdog, which
    is the main thread, and with it the process.  The build feature "pushback" is
    off. *)

From S2P Require Import Prelude Packed Headers Packet Wire Rpc Task Sched.

(** A scheduler is looked at further when it is late. *)
Definition late (limit current latest : Z) : bool :=
  if decide (latest > current) then false
  else if decide (current - latest < limit) then false
  else true.

Section watchdog.
Context {T : Type} (priority : T → TaskPriority) (name : T → Z).
Implicit Types (rr : RoundRobin T) (t : T).

(** ** The thread of a scheduler *)

(** Where [poll] is: at the start of its loop, before it looks at the flag, before
    it takes a task, running one, or over, by returning or by a panic of a task. *)
Inductive Pc := PTop | PFlag | PTake | PRun (t : T) | PReturned | PPanicked (t : T).

Record Poller := mkPoller { pl_sched : RoundRobin T; pl_pc : Pc }.

Inductive Ev :=
| Started (t : T)
| Spawned (t : T)
| Sent (packets : list (Packet IpHeader))
| Answered (packets : list (Packet IpHeader))
| Finished (t : T) (res : option (Packet IpHeader)).

Inductive poll_step : Poller → option Ev → Poller → Prop :=
| poll_stamps rr current :
    poll_step (mkPoller rr PTop) None (mkPoller (set_latest rr current) PFlag)
| poll_checks rr :
    poll_step (mkPoller rr PFlag) None (mkPoller rr (if compromised rr then PReturned else PTake))
| poll_idles rr : waiting rr = [] →
    poll_step (mkPoller rr PTake) None (mkPoller rr PTop)
| poll_takes rr t q : waiting rr = t :: q →
    poll_step (mkPoller rr PTake) (Some (Started t)) (mkPoller (with_waiting rr q) (PRun t))
| run_spawns rr t new :
    poll_step (mkPoller rr (PRun t)) (Some (Spawned new)) (mkPoller (enqueue rr new) (PRun t))
| run_sends rr t :
    poll_step (mkPoller rr (PRun t)) (Some (Sent (responses rr))) (mkPoller (take_responses rr).2 (PRun t))
| run_answers rr t packets :
    poll_step (mkPoller rr (PRun t)) (Some (Answered packets)) (mkPoller (append_resps rr packets) (PRun t))
| run_completes rr t t' res : priority t' = priority t → name t' = name t →
    poll_step (mkPoller rr (PRun t)) (Some (Finished t' res))
      (mkPoller (with_responses rr (responses rr ++ option_list res)) PTop)
| run_yields rr t t' : priority t' = priority t → name t' = name t →
    poll_step (mkPoller rr (PRun t)) None (mkPoller (with_waiting rr (waiting rr ++ [t'])) PTop)
| run_panics rr t : priority t ≠ DISPATCH →
    poll_step (mkPoller rr (PRun t)) None (mkPoller rr (PPanicked t))
| run_panics_dispatcher rr t : priority t = DISPATCH →
    poll_step (mkPoller rr (PRun t)) (Some (Sent (responses rr))) (mkPoller (take_responses rr).2 (PPanicked t)).

(** The thread is dead; unwinding drops the task, and a dispatcher that is dropped
    sends the responses that its scheduler has by then. *)
Definition dead (pc : Pc) : Prop := match pc with PPanicked _ => True | _ => False end.

(** ** The watchdog *)

(** What it has in its hands, before it looks at the time stamp, empties the queue,
    takes the responses, drops the dispatchers, sets the flag, stops the old thread,
    starts the new one, sends it its set-up and the command to poll, waits for its
    scheduler and fills that, and hands over the responses; it is done, or it has
    panicked. *)
Inductive Watch :=
| WScan
| WLate
| WTasks (tasks : list T)
| WResps (tasks : list T) (resps : list (Packet IpHeader))
| WKept (tasks : list T) (resps : list (Packet IpHeader))
| WStop (tasks : list T) (resps : list (Packet IpHeader))
| WStart (tasks : list T) (resps : list (Packet IpHeader))
| WSetup (tasks : list T) (resps : list (Packet IpHeader))
| WExecute (tasks : list T) (resps : list (Packet IpHeader))
| WBoot (tasks : list T) (resps : list (Packet IpHeader))
| WAppend (resps : list (Packet IpHeader))
| WDone
| WCrashed (tasks : list T) (resps : list (Packet IpHeader)).

(** The new thread: not there; waiting for its set-up; set up, with a scheduler; or
    dead, because the set-up panicked. *)
Inductive NewThread :=
| NNone
| NIdle
| NReady (p : Poller)
| NFailed.

Record RaceState := mkRace { s_old : Poller; s_new : NewThread; s_watch : Watch }.

(** [retain]; a dispatcher that is dropped sends the responses that its scheduler
    has by then. *)
Definition not_dispatch (tasks : list T) : list T := filter (λ t, priority t ≠ DISPATCH) tasks.

Inductive Side := Old | New.

(** With the main thread, the process ends. *)
Definition crashed (w : Watch) : Prop := match w with WCrashed _ _ => True | _ => False end.

(** The new thread was sent its set-up, and the command to poll. *)
Definition setup_sent (w : Watch) : Prop := match w with WExecute _ _ | WBoot _ _ => True | _ => False end.
Definition execute_sent (w : Watch) : Prop := match w with WBoot _ _ | WAppend _ | WDone => True | _ => False end.

Inductive race_step (limit : Z) : RaceState → option (Side * Ev) → RaceState → Prop :=
| old_polls p o p' n w : poll_step p o p' → ¬ crashed w →
    race_step limit (mkRace p n w) (pair Old <$> o) (mkRace p' n w)
| new_polls q p o p' w : poll_step p o p' → execute_sent w →
    race_step limit (mkRace q (NReady p) w) (pair New <$> o) (mkRace q (NReady p') w)
| watch_looks q n current : late limit current (latest (pl_sched q)) = true →
    race_step limit (mkRace q n WScan) None (mkRace q n WLate)
| watch_dequeues rr pc n :
    race_step limit (mkRace (mkPoller rr pc) n WLate) None
      (mkRace (mkPoller (dequeue_all rr).2 pc) n (WTasks (dequeue_all rr).1))
| watch_collects rr pc n tasks :
    race_step limit (mkRace (mkPoller rr pc) n (WTasks tasks)) None
      (mkRace (mkPoller (take_responses rr).2 pc) n (WResps tasks (take_responses rr).1))
| watch_retains rr pc n tasks resps : Forall (λ t, priority t ≠ DISPATCH) tasks →
    race_step limit (mkRace (mkPoller rr pc) n (WResps tasks resps)) None
      (mkRace (mkPoller rr pc) n (WKept (not_dispatch tasks) resps))
| watch_drops rr pc n tasks resps : ¬ Forall (λ t, priority t ≠ DISPATCH) tasks →
    race_step limit (mkRace (mkPoller rr pc) n (WResps tasks resps)) (Some (Old, Sent (responses rr)))
      (mkRace (mkPoller (take_responses rr).2 pc) n (WKept (not_dispatch tasks) resps))
| watch_flags rr pc n tasks resps :
    race_step limit (mkRace (mkPoller rr pc) n (WKept tasks resps)) None
      (mkRace (mkPoller (set_compromised rr) pc) n (WStop tasks resps))
| watch_stops q n tasks resps : ¬ dead (pl_pc q) →
    race_step limit (mkRace q n (WStop tasks resps)) None (mkRace q n (WStart tasks resps))
| watch_stops_dead q n tasks resps : dead (pl_pc q) →
    race_step limit (mkRace q n (WStop tasks resps)) None (mkRace q n (WCrashed tasks resps))
| watch_starts q n tasks resps :
    race_step limit (mkRace q n (WStart tasks resps)) None (mkRace q NIdle (WSetup tasks resps))
| watch_sends q n tasks resps :
    race_step limit (mkRace q n (WSetup tasks resps)) None (mkRace q n (WExecute tasks resps))
| new_boots q w clock tid dispatcher : priority dispatcher = DISPATCH → setup_sent w →
    race_step limit (mkRace q NIdle w) None
      (mkRace q (NReady (mkPoller (enqueue (RoundRobin_new clock tid (core (pl_sched q))) dispatcher) PTop)) w)
| new_fails q w : setup_sent w → race_step limit (mkRace q NIdle w) None (mkRace q NFailed w)
| watch_executes q n tasks resps : n ≠ NFailed →
    race_step limit (mkRace q n (WExecute tasks resps)) None (mkRace q n (WBoot tasks resps))
| watch_executes_dead q tasks resps :
    race_step limit (mkRace q NFailed (WExecute tasks resps)) None (mkRace q NFailed (WCrashed tasks resps))
| watch_enqueues q rr pc tasks resps :
    race_step limit (mkRace q (NReady (mkPoller rr pc)) (WBoot tasks resps)) None
      (mkRace q (NReady (mkPoller (enqueue_many rr tasks) pc)) (WAppend resps))
| watch_appends q rr pc resps :
    race_step limit (mkRace q (NReady (mkPoller rr pc)) (WAppend resps)) None
      (mkRace q (NReady (mkPoller (append_resps rr resps) pc)) WDone).

Inductive race_steps (limit : Z) : RaceState → list (Side * Ev) → RaceState → Prop :=
| steps_nil s : race_steps limit s [] s
| steps_snoc s tr s1 o s2 :
    race_steps limit s tr s1 → race_step limit s1 o s2 → race_steps limit s (tr ++ option_list o) s2.

Lemma quiet_step limit s tr s1 s2 : race_steps limit s tr s1 → race_step limit s1 None s2 → race_steps limit s tr s2.
Proof. intros H1 H2. rewrite <- (app_nil_r tr). by apply (steps_snoc limit s tr s1 None). Qed.

(** ** Accounts *)

(** The requests among some tasks, by name. *)
Definition requests (l : list T) : list Z := name <$> filter (λ t, priority t = REQUEST) l.

(** With the one that a thread died of. *)
Definition running (pc : Pc) : list T := match pc with PRun t | PPanicked t => [t] | _ => [] end.

Definition on_thread (p : Poller) : list T := waiting (pl_sched p) ++ running (pl_pc p).

#[local] Arguments requests _ : simpl never.

(** What happened on a side. *)
Definition events (side : Side) (tr : list (Side * Ev)) : list Ev :=
  omap (λ e, match e.1, side with Old, Old | New, New => Some e.2 | _, _ => None end) tr.

Definition started (es : list Ev) : list T := omap (λ e, match e with Started t => Some t | _ => None end) es.
Definition spawned (es : list Ev) : list T := omap (λ e, match e with Spawned t => Some t | _ => None end) es.
Definition finished (es : list Ev) : list T := omap (λ e, match e with Finished t _ => Some t | _ => None end) es.
Definition answered (es : list Ev) : list (Packet IpHeader) :=
  es ≫= λ e, match e with Finished _ res => option_list res | Answered packets => packets | _ => [] end.
Definition sent (es : list Ev) : list (Packet IpHeader) :=
  es ≫= λ e, match e with Sent packets => packets | _ => [] end.

Lemma requests_app l k : requests (l ++ k) = requests l ++ requests k.
Proof. unfold requests. by rewrite filter_app, fmap_app. Qed.

Lemma requests_same t t' :
  priority t' = priority t → name t' = name t → requests [t'] = requests [t].
Proof. intros Hp Hn. unfold requests. rewrite !filter_cons, Hp. case_decide; cbn; by rewrite ?Hn. Qed.

Lemma requests_not_dispatch l : requests (not_dispatch l) = requests l.
Proof.
  unfold requests, not_dispatch. rewrite list_filter_filter. f_equal. apply list_filter_iff. intros t.
  split; [by intros []|]. intros ->. done.
Qed.

Lemma events_app side tr tr' : events side (tr ++ tr') = events side tr ++ events side tr'.
Proof. apply omap_app. Qed.

(** What a step does to a thread's accounts. *)
Lemma poll_step_accounts p o p' :
  poll_step p o p' →
  let es := option_list o in
  requests (on_thread p) ++ requests (spawned es) ≡ₚ requests (finished es) ++ requests (on_thread p') ∧
  responses (pl_sched p) ++ answered es = sent es ++ responses (pl_sched p') ∧
  compromised (pl_sched p') = compromised (pl_sched p).
Proof.
  assert (∀ t t' : T, priority t' = priority t → name t' = name t → requests [t'] = requests [t]) as Hsame
    by apply requests_same.
  destruct 1 as [rr current|rr|rr Hq|rr t q Hq|rr t new|rr t|rr t packets|rr t t' res Hp Hn|rr t t' Hp Hn|rr t Hp|rr t Hp];
    unfold on_thread; cbn; rewrite ?app_nil_r, ?requests_app; try done.
  - by destruct (compromised rr); rewrite ?app_nil_r.
  - rewrite Hq. split; [|done]. change (t :: q) with ([t] ++ q). rewrite requests_app. solve_Permutation.
  - split; [|done]. solve_Permutation.
  - rewrite (Hsame _ _ Hp Hn). split; [solve_Permutation|done].
  - by rewrite (Hsame _ _ Hp Hn).
Qed.

(** ** What a replacement does to requests and responses *)

(** The watchdog has just emptied the queue, wherever the thread was. *)
Definition emptied rr (pc : Pc) : RaceState := mkRace (mkPoller (dequeue_all rr).2 pc) NNone (WTasks
  (dequeue_all rr).1).

Definition tasks_in_hand (w : Watch) : list T :=
  match w with
  | WTasks tasks | WResps tasks _ | WKept tasks _ | WStop tasks _ | WStart tasks _ | WSetup tasks _
  | WExecute tasks _ | WBoot tasks _ | WCrashed tasks _ => tasks
  | _ => []
  end.

Definition resps_in_hand (w : Watch) : list (Packet IpHeader) :=
  match w with
  | WResps _ resps | WKept _ resps | WStop _ resps | WStart _ resps | WSetup _ resps | WExecute _ resps
  | WBoot _ resps | WAppend resps | WCrashed _ resps => resps
  | _ => []
  end.

Definition on_new (s : RaceState) : list T := match s_new s with NReady p => on_thread p | _ => [] end.
Definition new_responses (s : RaceState) : list (Packet IpHeader) :=
  match s_new s with NReady p => responses (pl_sched p) | _ => [] end.

(** How far it is. *)
Definition collected (w : Watch) : Prop := match w with WScan | WLate | WTasks _ => False | _ => True end.
Definition flagged (w : Watch) : Prop :=
  match w with WScan | WLate | WTasks _ | WResps _ _ | WKept _ _ => False | _ => True end.

(** It has yet to stop the old thread. *)
Definition before_stop (w : Watch) : Prop :=
  match w with WScan | WLate | WTasks _ | WResps _ _ | WKept _ _ | WStop _ _ => True | _ => False end.

(** What the new thread can be at, at each point. *)
Definition in_step (w : Watch) (n : NewThread) : Prop :=
  match w with
  | WSetup _ _ => n = NIdle
  | WExecute _ _ | WBoot _ _ => n ≠ NNone
  | WAppend _ | WDone => ∃ p, n = NReady p
  | WCrashed _ _ => n = NNone ∨ n = NFailed
  | _ => n = NNone
  end.

Record accounts rr (pc : Pc) (tr : list (Side * Ev)) (s : RaceState) : Prop := {
  ac_old : requests (running pc) ++ requests (spawned (events Old tr)) ≡ₚ
    requests (finished (events Old tr)) ++ requests (on_thread (s_old s));
  ac_new : requests (waiting rr) ++ requests (spawned (events New tr)) ≡ₚ
    requests (finished (events New tr)) ++ requests (tasks_in_hand (s_watch s)) ++ requests (on_new s);
  ac_responses : responses rr ++ answered (events Old tr) ++ answered (events New tr) ≡ₚ
    sent (events Old tr) ++ sent (events New tr) ++
      responses (pl_sched (s_old s)) ++ resps_in_hand (s_watch s) ++ new_responses s;
  ac_collected : collected (s_watch s) → ∃ l, answered (events Old tr) = l ++ responses (pl_sched (s_old s));
  ac_flagged : flagged (s_watch s) → compromised (pl_sched (s_old s)) = true;
  ac_step : in_step (s_watch s) (s_new s);
  ac_watch : s_watch s ≠ WScan ∧ s_watch s ≠ WLate;
}.

(** The two ways a ledger grows. *)
Lemma ledger {A} (a sp fin on sp' fin' on' rest : list A) :
  a ++ sp ≡ₚ fin ++ rest ++ on → on ++ sp' ≡ₚ fin' ++ on' →
  a ++ sp ++ sp' ≡ₚ (fin ++ fin') ++ rest ++ on'.
Proof.
  intros Ha Hon. rewrite (assoc_L (++)), Ha, <- !(assoc_L (++)), Hon. solve_Permutation.
Qed.

Lemma responses_grow es p p' o :
  responses (pl_sched p) ++ answered (option_list o) = sent (option_list o) ++ responses (pl_sched p') →
  (∃ l, answered es = l ++ responses (pl_sched p)) →
  ∃ l, answered (es ++ option_list o) = l ++ responses (pl_sched p').
Proof.
  intros E [l Hl]. exists (l ++ sent (option_list o)). unfold answered in *.
  rewrite bind_app, Hl, <- !(assoc_L (++)). by rewrite E.
Qed.

Lemma events_of_step side side' (o : option Ev) :
  events side (option_list (pair side' <$> o)) =
    match side, side' with Old, Old | New, New => option_list o | _, _ => [] end.
Proof. by destruct side, side', o. Qed.

Lemma accounts_start rr pc : accounts rr pc [] (emptied rr pc).
Proof. split; unfold on_new, new_responses; cbn; rewrite ?app_nil_r; try done. Qed.

Lemma spawned_app es es' : spawned (es ++ es') = spawned es ++ spawned es'.
Proof. apply omap_app. Qed.
Lemma finished_app es es' : finished (es ++ es') = finished es ++ finished es'.
Proof. apply omap_app. Qed.
Lemma answered_app es es' : answered (es ++ es') = answered es ++ answered es'.
Proof. apply bind_app. Qed.
Lemma sent_app es es' : sent (es ++ es') = sent es ++ sent es'.
Proof. apply bind_app. Qed.

Lemma old_accounts limit_rr pc tr p o p' n w :
  accounts limit_rr pc tr (mkRace p n w) → poll_step p o p' →
  accounts limit_rr pc (tr ++ option_list (pair Old <$> o)) (mkRace p' n w).
Proof.
  intros [Ho Hn Hr Hc Hf Hh Hw] Hp. apply poll_step_accounts in Hp as (Hq & Hresp & Hflag). cbn in *.
  split; cbn; rewrite ?events_app, ?events_of_step, ?app_nil_r; try done.
  - rewrite spawned_app, finished_app, !requests_app. exact (ledger _ _ _ _ _ _ _ [] Ho Hq).
  - rewrite answered_app, sent_app. unfold new_responses in *. cbn in *.
    transitivity ((responses limit_rr ++ answered (events Old tr) ++ answered (events New tr)) ++
      answered (option_list o)); [solve_Permutation|]. rewrite Hr.
    transitivity (sent (events Old tr) ++ sent (events New tr) ++
      (responses (pl_sched p) ++ answered (option_list o)) ++ resps_in_hand w ++
        match n with NReady p => responses (pl_sched p) | _ => [] end); [solve_Permutation|].
    rewrite Hresp. solve_Permutation.
  - intros Hcol. by eapply responses_grow, Hc.
  - intros Hfl. rewrite Hflag. by apply Hf.
Qed.

Lemma in_step_polls w p p' : in_step w (NReady p) → in_step w (NReady p').
Proof. destruct w; cbn; try done; [by intros [? ?]; eauto..|by intros [|]]. Qed.

Lemma new_accounts limit_rr pc tr q p o p' w :
  accounts limit_rr pc tr (mkRace q (NReady p) w) → poll_step p o p' →
  accounts limit_rr pc (tr ++ option_list (pair New <$> o)) (mkRace q (NReady p') w).
Proof.
  intros [Ho Hn Hr Hc Hf Hh Hw] Hp. apply poll_step_accounts in Hp as (Hq & Hresp & _).
  unfold on_new, new_responses in *.
  cbn in *. split; cbn; rewrite ?events_app, ?events_of_step, ?app_nil_r; try done.
  - rewrite spawned_app, finished_app, !requests_app. unfold on_new. cbn. exact (ledger _ _ _ _ _ _ _ _ Hn Hq).
  - rewrite answered_app, sent_app. unfold new_responses. cbn.
    transitivity ((responses limit_rr ++ answered (events Old tr) ++ answered (events New tr)) ++
      answered (option_list o)); [solve_Permutation|]. rewrite Hr.
    transitivity (sent (events Old tr) ++ sent (events New tr) ++ responses (pl_sched q) ++ resps_in_hand w ++
      (responses (pl_sched p) ++ answered (option_list o))); [solve_Permutation|].
    rewrite Hresp. solve_Permutation.
  - by eapply in_step_polls.
Qed.

(** The watchdog goes on without touching a scheduler. *)
Lemma accounts_quiet rr pc tr q n n' w w' :
  accounts rr pc tr (mkRace q n w) →
  tasks_in_hand w' = tasks_in_hand w → resps_in_hand w' = resps_in_hand w →
  on_new (mkRace q n' w') = on_new (mkRace q n w) → new_responses (mkRace q n' w') = new_responses (mkRace q n w) →
  collected w → flagged w → in_step w' n' → w' ≠ WScan ∧ w' ≠ WLate →
  accounts rr pc tr (mkRace q n' w').
Proof.
  intros [Ho Hn Hr Hc Hf Hh Hw] Et Er En Enr Hcol Hfl Hst Hw'. split; cbn in *; try done.
  - by rewrite Et, En, Hn.
  - by rewrite Er, Enr, Hr.
  - intros _. by apply Hc.
  - intros _. by apply Hf.
Qed.

(** So does a new thread that comes up, or dies. *)
Lemma accounts_boot rr pc tr q n' w :
  accounts rr pc tr (mkRace q NIdle w) → setup_sent w →
  requests (match n' with NReady p => on_thread p | _ => [] end) = [] →
  match n' with NReady p => responses (pl_sched p) | _ => [] end = [] → n' ≠ NNone →
  accounts rr pc tr (mkRace q n' w).
Proof.
  intros [Ho Hn Hr Hc Hf Hh Hw] Hs Hreq Hresp Hn'. split; cbn in *; try done.
  - rewrite Hn. unfold on_new. cbn. by rewrite Hreq.
  - rewrite Hr. unfold new_responses. cbn. by rewrite Hresp.
  - by destruct w.
Qed.

Lemma accounts_step limit rr pc tr s o s' :
  accounts rr pc tr s → race_step limit s o s' → accounts rr pc (tr ++ option_list o) s'.
Proof.
  intros Ha Hs. destruct Hs as [p o p' n w Hp Hw|q p o p' w Hp Hw|q n current Hl|rr0 pc0 n|rr0 pc0 n tasks
    |rr0 pc0 n tasks resps Hk|rr0 pc0 n tasks resps Hk|rr0 pc0 n tasks resps|q n tasks resps Hd|q n tasks resps Hd
    |q n tasks resps|q n tasks resps|q w clock tid dispatcher Hd Hs|q w Hs|q n tasks resps Hf|q tasks resps
    |q rr0 pc0 tasks resps|q rr0 pc0 resps].
  - by eapply old_accounts.
  - by eapply new_accounts.
  - destruct Ha as [_ _ _ _ _ _ [? _]]. done.
  - destruct Ha as [_ _ _ _ _ _ [_ ?]]. done.
  - destruct Ha as [Ho Hn Hr Hc Hf Hh Hw]. split; cbn in *; rewrite ?app_nil_r; try done.
    intros _. exists (answered (events Old tr)). by rewrite app_nil_r.
  - destruct Ha as [Ho Hn Hr Hc Hf Hh Hw]. split; cbn in *; rewrite ?app_nil_r; try done.
    by rewrite requests_not_dispatch.
  - destruct Ha as [Ho Hn Hr Hc Hf Hh Hw]. split; cbn in *; rewrite ?events_app, ?app_nil_r; try done.
    + by rewrite spawned_app, finished_app, app_nil_r, app_nil_r.
    + by rewrite requests_not_dispatch.
    + rewrite answered_app, sent_app. cbn. rewrite !app_nil_r, Hr. unfold new_responses. cbn. solve_Permutation.
    + intros _. exists (answered (events Old tr)). by rewrite answered_app.
  - destruct Ha as [Ho Hn Hr Hc Hf Hh Hw]. split; cbn in *; rewrite ?app_nil_r; done.
  - rewrite app_nil_r. pose proof (ac_step _ _ _ _ Ha). by eapply accounts_quiet.
  - rewrite app_nil_r. pose proof (ac_step _ _ _ _ Ha). eapply accounts_quiet; try done. by left.
  - rewrite app_nil_r. pose proof (ac_step _ _ _ _ Ha) as Hn. cbn in Hn. subst n. by eapply accounts_quiet.
  - rewrite app_nil_r. pose proof (ac_step _ _ _ _ Ha) as Hn. cbn in Hn. subst n. by eapply accounts_quiet.
  - rewrite app_nil_r. apply accounts_boot; try done. change (requests [dispatcher] = []). unfold requests. rewrite filter_cons.
    by rewrite decide_False by (rewrite Hd; discriminate).
  - rewrite app_nil_r. by apply accounts_boot.
  - rewrite app_nil_r. pose proof (ac_step _ _ _ _ Ha). by eapply accounts_quiet.
  - rewrite app_nil_r. eapply accounts_quiet; try done. by right.
  - destruct Ha as [Ho Hn Hr Hc Hf Hh Hw]. unfold on_new, new_responses, on_thread in *. cbn in *.
    split; cbn; rewrite ?app_nil_r; try done; [|by eexists].
    rewrite Hn. unfold on_new, on_thread. cbn. rewrite !requests_app. solve_Permutation.
  - destruct Ha as [Ho Hn Hr Hc Hf Hh Hw]. unfold on_new, new_responses, on_thread in *. cbn in *.
    split; cbn; rewrite ?app_nil_r; try done; [|by eexists].
    rewrite Hr. unfold new_responses. cbn. solve_Permutation.
Qed.

Lemma accounts_steps limit rr pc tr s : race_steps limit (emptied rr pc) tr s → accounts rr pc tr s.
Proof.
  remember (emptied rr pc) as s0 eqn:Es. induction 1 as [s|s tr s1 o s2 _ IH Hstep]; subst.
  - apply accounts_start.
  - eapply accounts_step; [by apply IH|done].
Qed.

(** A thread whose scheduler is marked takes no other task than the one that it was
    about to take. *)
Definition may_take (pc : Pc) : nat := match pc with PTake => 1 | _ => 0 end.

Lemma poll_step_takes p o p' :
  poll_step p o p' → compromised (pl_sched p) = true →
  (length (started (option_list o)) + may_take (pl_pc p') ≤ may_take (pl_pc p))%nat.
Proof. destruct 1; cbn; intros Hc; rewrite ?Hc; cbn; lia. Qed.

Lemma poll_step_flag p o p' : poll_step p o p' → compromised (pl_sched p') = compromised (pl_sched p).
Proof. intros Hp. by apply poll_step_accounts in Hp as (_ & _ & ?). Qed.

Lemma race_step_takes limit s o s' :
  race_step limit s o s' → compromised (pl_sched (s_old s)) = true →
  compromised (pl_sched (s_old s')) = true ∧
  (length (started (events Old (option_list o))) + may_take (pl_pc (s_old s')) ≤ may_take (pl_pc (s_old s)))%nat.
Proof.
  destruct 1 as [p o p' n w Hp Hw|q p o p' w Hp Hw|q n current Hl|rr0 pc0 n|rr0 pc0 n tasks
    |rr0 pc0 n tasks resps Hk|rr0 pc0 n tasks resps Hk|rr0 pc0 n tasks resps|q n tasks resps Hd|q n tasks resps Hd
    |q n tasks resps|q n tasks resps|q w clock tid dispatcher Hd Hs|q w Hs|q n tasks resps Hf|q tasks resps
    |q rr0 pc0 tasks resps|q rr0 pc0 resps]; cbn; intros Hc; rewrite ?events_of_step; cbn; try by split; [|lia].
  split; [by rewrite (poll_step_flag _ _ _ Hp)|by apply poll_step_takes].
Qed.

Lemma started_app es es' : started (es ++ es') = started es ++ started es'.
Proof. apply omap_app. Qed.

Lemma race_steps_takes limit s tr s' :
  race_steps limit s tr s' → compromised (pl_sched (s_old s)) = true →
  compromised (pl_sched (s_old s')) = true ∧
  (length (started (events Old tr)) + may_take (pl_pc (s_old s')) ≤ may_take (pl_pc (s_old s)))%nat.
Proof.
  intros Hs Hc. induction Hs as [s|s tr s1 o s2 _ IH Hstep]; [by split; [|cbn; lia]|].
  destruct (IH Hc) as [Hc1 Hl]. destruct (race_step_takes _ _ _ _ Hstep Hc1) as [Hc2 Hl2].
  split; [done|]. rewrite events_app, started_app, length_app. lia.
Qed.

(** *** The watchdog and dead threads *)

Lemma race_step_dead limit s o s' :
  race_step limit s o s' → dead (pl_pc (s_old s)) → before_stop (s_watch s) ∨ crashed (s_watch s) →
  dead (pl_pc (s_old s')) ∧ (before_stop (s_watch s') ∨ crashed (s_watch s')).
Proof.
  destruct 1 as [p o p' n w Hp Hw|q p o p' w Hp Hw|q n current Hl|rr0 pc0 n|rr0 pc0 n tasks
    |rr0 pc0 n tasks resps Hk|rr0 pc0 n tasks resps Hk|rr0 pc0 n tasks resps|q n tasks resps Hd|q n tasks resps Hd
    |q n tasks resps|q n tasks resps|q w clock tid dispatcher Hd Hs|q w Hs|q n tasks resps Hf|q tasks resps
    |q rr0 pc0 tasks resps|q rr0 pc0 resps]; cbn; intros Hc Hb; try by split; [|tauto].
  by destruct Hp.
Qed.

(** A thread that is dead before it is stopped is not replaced. *)
Lemma dead_is_not_replaced limit s tr s' :
  race_steps limit s tr s' → dead (pl_pc (s_old s)) → before_stop (s_watch s) → s_watch s' ≠ WDone.
Proof.
  intros Hs Hd Hb.
  enough (dead (pl_pc (s_old s')) ∧ (before_stop (s_watch s') ∨ crashed (s_watch s'))) as [_ H]
    by (intros E; rewrite E in H; by destruct H).
  induction Hs as [s|s tr s1 o s2 _ IH Hstep]; [by split; [|left]|].
  destruct (IH Hd Hb) as [H1 H2]. by eapply race_step_dead.
Qed.

(** The thread that it has to stop is alive, and the set-up of the new one did not
    panic. *)
Definition unharmed (s : RaceState) : Prop :=
  (before_stop (s_watch s) → ¬ dead (pl_pc (s_old s))) ∧ s_new s ≠ NFailed ∧ ¬ crashed (s_watch s).

(** How many steps the watchdog has ahead, with those of the new thread that it
    waits for. *)
Definition ahead (s : RaceState) : nat :=
  match s_watch s with
  | WScan | WLate => 11
  | WTasks _ => 10
  | WResps _ _ => 9
  | WKept _ _ => 8
  | WStop _ _ => 7
  | WStart _ _ => 6
  | WSetup _ _ => 5
  | WExecute _ _ => 4
  | WBoot _ _ => match s_new s with NReady _ => 2 | _ => 3 end
  | WAppend _ => 1
  | WDone | WCrashed _ _ => 0
  end.

Definition on_its_way (s : RaceState) : Prop :=
  (ahead s < 11)%nat ∧ unharmed s ∧ in_step (s_watch s) (s_new s).

(** Wherever the threads are, the next one can be taken, while the old thread does
    not move. *)
Lemma watchdog_goes_on limit s (dispatcher : T) :
  priority dispatcher = DISPATCH → on_its_way s → s_watch s ≠ WDone →
  ∃ o s', race_step limit s o s' ∧ on_its_way s' ∧ (ahead s' < ahead s)%nat ∧ pl_pc (s_old s') = pl_pc (s_old s).
Proof.
  intros Hd (Ha & (Hu & Hf & Hcr) & Hst) Hne.
  enough (∃ o s', race_step limit s o s' ∧ unharmed s' ∧ in_step (s_watch s') (s_new s') ∧
    (ahead s' < ahead s)%nat ∧ pl_pc (s_old s') = pl_pc (s_old s)) as (o & s' & H1 & H2 & H3 & H4 & H5).
  { exists o, s'. split; [done|]. split; [|done]. split_and!; [lia|done..]. }
  destruct s as [[rr pc] n [| |tasks|tasks resps|tasks resps|tasks resps|tasks resps|tasks resps|tasks resps
    |tasks resps|resps| |tasks resps]]; unfold ahead, unharmed in *; cbn in *; try lia; try done.
  - eexists _, _. split; [apply watch_collects|cbn]. split_and!; try done; tauto || lia.
  - destruct (decide (Forall (λ t, priority t ≠ DISPATCH) tasks)).
    + eexists _, _. split; [by apply watch_retains|cbn]. split_and!; try done; tauto || lia.
    + eexists _, _. split; [by apply watch_drops|cbn]. split_and!; try done; tauto || lia.
  - eexists _, _. split; [apply watch_flags|cbn]. split_and!; try done; tauto || lia.
  - eexists _, _. split; [apply watch_stops; cbn; tauto|cbn]. split_and!; try done; tauto || lia.
  - eexists _, _. split; [apply watch_starts|cbn]. split_and!; try done; tauto || lia.
  - subst n. eexists _, _. split; [apply watch_sends|cbn]. split_and!; try done; tauto || lia.
  - eexists _, _. split; [by apply watch_executes|cbn]. split_and!; try done; try tauto; destruct n; lia.
  - destruct n as [| |[r c]|]; [done| | |done].
    + eexists _, _. split; [by apply (new_boots _ _ _ 0 0 dispatcher)|cbn]. split_and!; try done; tauto || lia.
    + eexists _, _. split; [apply watch_enqueues|cbn]. split_and!; try done; tauto || lia || by eexists.
  - destruct Hst as [[r c] ->]. eexists _, _. split; [apply watch_appends|cbn].
    split_and!; try done; tauto || lia || by eexists.
Qed.

Lemma watchdog_finishes limit s (dispatcher : T) :
  priority dispatcher = DISPATCH → on_its_way s →
  ∃ tr s', race_steps limit s tr s' ∧ s_watch s' = WDone ∧ pl_pc (s_old s') = pl_pc (s_old s).
Proof.
  intros Hd Hs.
  enough (∀ n s1 tr, race_steps limit s tr s1 → on_its_way s1 → (ahead s1 ≤ n)%nat → pl_pc (s_old s1) = pl_pc
    (s_old s) →
    ∃ tr s', race_steps limit s tr s' ∧ s_watch s' = WDone ∧ pl_pc (s_old s') = pl_pc (s_old s)) as He.
  { by apply (He (ahead s) s []); [apply steps_nil|..]. }
  induction n as [|n IH]; intros s1 tr H1 Hw Ha Hp.
  - exists tr, s1. split; [done|]. split; [|done]. unfold ahead in Ha.
    destruct s1 as [q m []]; cbn in *; try lia; [destruct m; lia|done|by destruct Hw as (_ & (_ & _ & []) & _)].
  - destruct (decide (ahead s1 = 0)%nat) as [E|E]; [apply (IH s1 tr); [done..|lia|done]|].
    destruct (watchdog_goes_on limit s1 dispatcher Hd Hw) as (o & s2 & H2 & Hw2 & Ha2 & Hp2).
    { intros E'. unfold ahead in E. by rewrite E' in E. }
    apply (IH s2 (tr ++ option_list o)); [by eapply steps_snoc|done|lia|congruence].
Qed.

(** C27: replacing a scheduler loses only what its thread was at.  From the moment the
    watchdog has emptied the queue, wherever the old thread was, and in whatever
    order the old thread, the watchdog and the new thread then take their steps,
    panics of tasks and of the set-up included: the requests that were in the queue,
    and those that the new thread receives, are at all times completed by the new
    thread, in the watchdog's hands, or on the new thread, each once; what the old
    thread completes or still has (or died of) is the task that it was running and
    what came in after, and none of these reaches the new thread; every response is
    sent, in the watchdog's hands, or waiting on one of the two, on the old one only
    if it was produced after the queue was emptied.  Once the old scheduler is
    marked, its thread starts at most one more task.  The watchdog can finish, without
    the old thread moving, from wherever the old thread has not died before it was
    stopped and the set-up of the new one has not panicked; if the old thread has died
    before it was stopped, the watchdog never finishes. *)
Theorem watchdog_loses_only_what_runs limit rr pc tr s (dispatcher : T) :
  priority dispatcher = DISPATCH → race_steps limit (emptied rr pc) tr s →
  requests (waiting rr) ++ requests (spawned (events New tr)) ≡ₚ
    requests (finished (events New tr)) ++ requests (tasks_in_hand (s_watch s)) ++ requests (on_new s) ∧
  requests (running pc) ++ requests (spawned (events Old tr)) ≡ₚ
    requests (finished (events Old tr)) ++ requests (on_thread (s_old s)) ∧
  responses rr ++ answered (events Old tr) ++ answered (events New tr) ≡ₚ
    sent (events Old tr) ++ sent (events New tr) ++
      responses (pl_sched (s_old s)) ++ resps_in_hand (s_watch s) ++ new_responses s ∧
  (collected (s_watch s) → ∃ l, answered (events Old tr) = l ++ responses (pl_sched (s_old s))) ∧
  (flagged (s_watch s) → ∀ tr' s', race_steps limit s tr' s' → (length (started (events Old tr')) ≤ 1)%nat) ∧
  (unharmed s → ∃ tr' s', race_steps limit s tr' s' ∧ s_watch s' = WDone ∧ pl_pc (s_old s') = pl_pc (s_old s)) ∧
  (dead (pl_pc (s_old s)) → before_stop (s_watch s) → ∀ tr' s', race_steps limit s tr' s' → s_watch s' ≠ WDone).
Proof.
  intros Hd Hs. destruct (accounts_steps _ _ _ _ _ Hs) as [Ho Hn Hr Hc Hf Hh [Hw1 Hw2]].
  split_and!; [done..| | |].
  - intros Hfl tr' s' Hs'. destruct (race_steps_takes _ _ _ _ Hs' (Hf Hfl)) as [_ Hl].
    destruct (pl_pc (s_old s)); cbn in Hl; lia.
  - intros Hu. apply (watchdog_finishes limit s dispatcher Hd). split; [|done]. unfold ahead.
    destruct s as [q n []]; cbn in *; try lia; [done..|destruct n; lia].
  - intros Hdd Hb tr' s' Hs'. by eapply dead_is_not_replaced.
Qed.

(** ** The steps are those of [poll] *)

Inductive thread_steps : Poller → list Ev → Poller → Prop :=
| thread_nil p : thread_steps p [] p
| thread_cons p o p1 es p2 : poll_step p o p1 → thread_steps p1 es p2 → thread_steps p (option_list o ++ es) p2.

(** What a run may do to its scheduler: add tasks; maybe take the responses; answer. *)
Definition visible rr rr' : Prop :=
  ∃ new kept rs, (kept = responses rr ∨ kept = []) ∧
    rr' = with_responses (with_waiting rr (waiting rr ++ new)) (kept ++ rs).

Lemma thread_spawns new rr t p es :
  thread_steps (mkPoller (with_waiting rr (waiting rr ++ new)) (PRun t)) es p →
  thread_steps (mkPoller rr (PRun t)) ((Spawned <$> new) ++ es) p.
Proof.
  revert rr. induction new as [|x new IH]; intros rr Hs; cbn in *.
  - by rewrite app_nil_r, with_waiting_eta in Hs.
  - apply (thread_cons _ (Some (Spawned x))) with (mkPoller (enqueue rr x) (PRun t)); [constructor|].
    apply IH. unfold enqueue. cbn. by rewrite with_waiting_idem, <- (assoc_L (++)).
Qed.

Lemma thread_visible rr rr' t p es :
  visible rr rr' → thread_steps (mkPoller rr' (PRun t)) es p →
  ∃ es', thread_steps (mkPoller rr (PRun t)) es' p.
Proof.
  intros (new & kept & rs & Hk & ->) Hs.
  assert (thread_steps (mkPoller (with_responses (with_waiting rr (waiting rr ++ new)) kept) (PRun t))
    (option_list (Some (Answered rs)) ++ es) p) as H1 by (by eapply thread_cons; [apply run_answers|]).
  destruct Hk as [-> | ->].
  - eexists. apply (thread_spawns new). by destruct rr.
  - eexists. apply (thread_spawns new). eapply thread_cons; [apply run_sends|exact H1].
Qed.

Lemma poll_iter_steps {W} `{TaskOps W T} credit w rr previous current w' rr' previous' ctl :
  (∀ w rr t w' rr' t' st, t_run w rr t = Ret (w', rr', t', st) →
     visible rr rr' ∧ priority t' = priority t ∧ name t' = name t) →
  Sched.poll_iter false credit w rr previous current = Ret (w', rr', previous', ctl) →
  ∃ es, thread_steps (mkPoller rr PTop) es (mkPoller rr' (if ctl is Continue then PTop else PReturned)).
Proof.
  intros Hrun. unfold poll_iter. intros E.
  assert (∀ p es, thread_steps (mkPoller (set_latest rr current)
      (if compromised rr then PReturned else PTake)) es p → ∃ es, thread_steps (mkPoller rr PTop) es p) as Hstart.
  { intros p es Hs. eexists. eapply thread_cons; [apply poll_stamps|].
  eapply thread_cons; [apply poll_checks|exact Hs]. }
  change (compromised (set_latest rr current)) with (compromised rr) in E. destruct (compromised rr).
  { injection E as _ <- _ <-. by eapply Hstart, thread_nil. }
  destruct (waiting (set_latest rr current)) as [|t q] eqn:Eq.
  { injection E as _ <- _ <-. eapply Hstart, thread_cons; [by apply poll_idles|apply thread_nil]. }
  destruct (match t_priority t with DISPATCH => _ | REQUEST => _ end) as [[[isd ql] diff] prev].
  destruct (t_run w (with_waiting (set_latest rr current) q) t) as [[[[w1 rr1] t1] st]| |] eqn:Er;
    cbn [mbind outcome_bind] in E; [|done..].
  destruct (Hrun _ _ _ _ _ _ _ Er) as (Hv & Hp & Hn).
  assert (∀ p es, thread_steps (mkPoller rr1 (PRun t)) es p → ∃ es, thread_steps (mkPoller rr PTop) es p) as Hran.
  { intros p es Hs. destruct (thread_visible _ _ _ _ _ Hv Hs) as [es' Hs'].
    eapply Hstart, thread_cons; [by apply poll_takes|exact Hs']. }
  case_decide as Hst.
  - destruct (t_tear w1 t1) as [[w2 pkts]| |]; cbn [mbind outcome_bind] in E; [|done..].
    destruct (respond rr1 pkts) as [rr2| |] eqn:Eresp; cbn [mbind outcome_bind] in E; [|done..].
    injection E as _ <- _ <-. destruct pkts as [[req res]|]; cbn in Eresp.
    + destruct (fixup_header_length_fields res) as [res'| |]; cbn in Eresp; [|done..]. injection Eresp as <-.
      eapply Hran, thread_cons; [by apply (run_completes _ _ _ (Some res') Hp Hn)|apply thread_nil].
    + injection Eresp as <-. eapply Hran, thread_cons; [by apply (run_completes _ _ _ None Hp Hn)|].
      cbn. rewrite app_nil_r. destruct rr1. apply thread_nil.
  - cbn in E. injection E as _ <- _ <-.
    eapply Hran, thread_cons; [by apply (run_yields _ _ _ Hp Hn)|apply thread_nil].
Qed.
End watchdog.

(** ** An example: request 3 was running, and yields too late *)

Definition ex_stuck : RoundRobin (TaskPriority * Z) :=
  with_waiting (RoundRobin_new 5 77 10) [(REQUEST, 1); (DISPATCH, 0); (REQUEST, 2)].

Definition ex_left : Poller :=
  mkPoller (set_latest (set_compromised (with_waiting ex_stuck [(REQUEST, 3)])) 8) PReturned.

Definition ex_replaced : RaceState :=
  mkRace ex_left
    (NReady (mkPoller (with_waiting (RoundRobin_new 7 78 10) [(DISPATCH, 4); (REQUEST, 1); (REQUEST, 2)]) PTop)) WDone.

Lemma ex_replacement :
  race_steps fst snd 3 (emptied ex_stuck (PRun (REQUEST, 3))) [(Old, Sent [])] ex_replaced.
Proof.
  set (old := with_waiting ex_stuck []). set (tasks := [(REQUEST, 1); (REQUEST, 2)]).
  eapply quiet_step; [|apply (watch_appends _ _ _ _ (with_waiting (RoundRobin_new 7 78 10)
    [(DISPATCH, 4); (REQUEST, 1); (REQUEST, 2)]) PTop [])].
  eapply quiet_step; [|apply (watch_enqueues _ _ _ _ (with_waiting (RoundRobin_new 7 78 10) [(DISPATCH, 4)]) PTop
    tasks [])].
  eapply quiet_step; [|by apply (watch_executes fst snd 3)].
  eapply quiet_step; [|by apply (new_boots fst snd 3 ex_left (WExecute tasks []) 7 78 (DISPATCH, 4))].
  eapply quiet_step; [|apply (watch_sends fst snd 3)].
  eapply quiet_step; [|apply (watch_starts fst snd 3 _ NNone)].
  eapply quiet_step; [|apply (watch_stops fst snd 3); intros []].
  set (w := WStop tasks []).
  set (left := set_compromised (with_waiting ex_stuck [(REQUEST, 3)])).
  assert (¬ crashed w) as Hw by intros [].
  eapply quiet_step; [|exact (old_polls fst snd 3 _ None _ NNone w (poll_checks fst snd (set_latest left 8)) Hw)].
  eapply quiet_step; [|exact (old_polls fst snd 3 _ None _ NNone w (poll_stamps fst snd left 8) Hw)].
  eapply quiet_step; [|exact (old_polls fst snd 3 _ None _ NNone w
    (run_yields fst snd (set_compromised old) (REQUEST, 3) (REQUEST, 3) eq_refl eq_refl) Hw)].
  eapply quiet_step; [|apply (watch_flags _ _ _ old)].
  apply (steps_snoc _ _ _ _ [] (mkRace (mkPoller old (PRun (REQUEST, 3))) NNone (WResps (waiting ex_stuck) []))
    (Some (Old, Sent []))).
  - eapply quiet_step; [apply steps_nil|apply (watch_collects _ _ _ old)].
  - apply (watch_drops fst snd 3 old (PRun (REQUEST, 3)) NNone (waiting ex_stuck) []).
    intros [_ [Hd _]%Forall_cons]%Forall_cons. by apply Hd.
Qed.

(** Had request 3 panicked, the scheduler would not be replaced. *)
Lemma watchdog_loses_only_what_runs_witness :
  requests fst snd (on_thread (s_old ex_replaced)) = [3] ∧ requests fst snd (on_new ex_replaced) = [1; 2] ∧
  requests fst snd (waiting ex_stuck) ++ [] ≡ₚ [] ++ [] ++ requests fst snd (on_new ex_replaced) ∧
  (∃ tr s, race_steps fst snd 3 (emptied ex_stuck (PRun (REQUEST, 3))) tr s ∧ s_watch s = WDone) ∧
  ∀ tr s, race_steps fst snd 3 (emptied ex_stuck (PPanicked (REQUEST, 3))) tr s → s_watch s ≠ WDone.
Proof.
  split; [reflexivity|]. split; [reflexivity|]. split; [|split].
  - exact (proj1 (watchdog_loses_only_what_runs fst snd 3 ex_stuck (PRun (REQUEST, 3)) [(Old, Sent [])] ex_replaced
      (DISPATCH, 0) eq_refl ex_replacement)).
  - destruct (watchdog_loses_only_what_runs fst snd 3 ex_stuck (PRun (REQUEST, 3)) [] _ (DISPATCH, 0) eq_refl
      (steps_nil _ _ _ _)) as (_ & _ & _ & _ & _ & Hgo & _).
    destruct Hgo as (tr & s & Hs & Hd & _); [by split_and!; [intros _ []|discriminate|intros []]|].
    exists tr, s. by split.
  - exact (proj2 (proj2 (proj2 (proj2 (proj2 (proj2 (watchdog_loses_only_what_runs fst snd 3 ex_stuck
      (PPanicked (REQUEST, 3)) [] _ (DISPATCH, 0) eq_refl (steps_nil _ _ _ _))))))) I I).
Defined.
