(* ===== verification/Server.v ===== *)
(** * Server: the program that runs the database

    Models db/src/bin/server.rs and the rest of
    net/framework/src/scheduler/context.rs: loading the data and extensions of the
    configured workload; NetBricks' threads, one for every core, and the commands
    that they are sent; the set-up of a dispatcher and its scheduler on each; and the
    replacement of a scheduler that is late, as the main thread sees it (file
    Watchdog has it with the threads it races with).

    The signal handler for stack overflows, the logger, the thread of the installer
    and the thread-local copies of the machine-learning models are left out.  What
    Ipv4Addr::from_str makes of a text is an argument, and so are the identifiers
    of threads. *)

From Stdlib Require Import Ascii String.
From stdpp Require Import strings gmap.
From S2P Require Import Prelude Packed Headers Packet Rpc Alloc Store Handlers Programs Ext Context Task Master.
From S2P Require Import Sched Dispatch Loaders LoadSafety NetSched Config NetConfig Watchdog.

Lemma NoDup_replace {A} (l : list A) i x : NoDup l → x ∉ l → NoDup (<[i := x]> l).
Proof.
  rewrite !NoDup_alt. intros Hl Hx a b y Ha Hb.
  apply list_lookup_insert_Some in Ha as [(<- & <- & _)|[Hne Ha]], Hb as [(<- & Hy & _)|[Hne' Hb]]; try done.
  - exfalso. apply Hx. by eapply list_elem_of_lookup_2.
  - exfalso. subst. apply Hx. by eapply list_elem_of_lookup_2.
  - by apply (Hl a b y).
Qed.

(** ** Data and extensions *)

Section populate.
Context `{BytesCrate} `{Crypto} `{Loader} (fs : FS).
(** The rows of the data set, and the build feature "ml-model". *)
Context (rows : list bytes) (ml_model : bool).

Definition Database : Type := Store * ExtensionManager.

Definition each_tenant (num_tenants : Z) (f : Database → Z → outcome Database) (x : Database) : outcome Database :=
  ofold f x (one_to num_tenants).

Definition fill_and_load (fill : Store → Z → outcome Store) (x : Database) (tenant : Z) : outcome Database :=
  s ← fill x.1 tenant;
  em ← load_test fs x.2 tenant;
  Ret (s, em).

Definition populate (c : ServerConfig) (x : Database) : outcome Database :=
  let w := workload c in
  let records := num_records c in
  let each fill := each_tenant (num_tenants c) (fill_and_load fill) x in
  if bool_decide (w = "YCSB"%string) then each (λ s tenant, fill_test s tenant 1 records)
  else if bool_decide (w = "TAO"%string) then each (λ s tenant, fill_tao s tenant records)
  else if bool_decide (w = "AGGREGATE"%string) then each (λ s tenant, fill_aggregate s tenant 1 records)
  else if bool_decide (w = "PUSHBACK"%string) then each (λ s tenant, fill_test s tenant 1 records)
  else if bool_decide (w = "ANALYSIS"%string) then
    s ← fill_analysis rows x.1 (num_tenants c);
    x ← each_tenant (num_tenants c) (fill_and_load (λ s _, Ret s)) (s, x.2);
    _ ← assert_ (ml_model = true);
    Ret x
  else if bool_decide (w = "AUTH"%string) then each (λ s tenant, fill_auth s tenant 1 records)
  else if bool_decide (w = "MIX"%string) then
    s ← fill_mix rows x.1 (num_tenants c) records;
    x ← each_tenant (num_tenants c) (fill_and_load (λ s _, Ret s)) (s, x.2);
    _ ← assert_ (ml_model = true);
    Ret x
  else if bool_decide (w = "YCSBT"%string) then each (λ s tenant, fill_ycsb s tenant 1 records)
  else if bool_decide (w = "CHECKSUM"%string) then each (λ s tenant, fill_aggregate s tenant 1 records)
  else fill_and_load (λ s tenant, fill_test s tenant 100 0) x 100.

(** Whatever is configured, the loaders make the store, which is well-formed at the
    start. *)
Lemma populate_loads c x x' :
  rows_ok rows → bcrypt_ok → populate c x = Ret x' → rtc loads x.1 x'.1.
Proof.
  intros Hrows Hbc.
  assert (∀ fill, (∀ s tenant s', fill s tenant = Ret s' → rtc loads s s') →
    ∀ x tenant x', fill_and_load fill x tenant = Ret x' → rtc loads x.1 x'.1) as Hone.
  { intros fill Hf y tenant y'. unfold fill_and_load.
  destruct (fill y.1 tenant) as [s| |] eqn:E; cbn [mbind outcome_bind]; [|done..].
    destruct (load_test fs y.2 tenant); cbn [mbind outcome_bind]; [|done..]. intros [= <-]. by eapply Hf. }
  assert (∀ fill n, (∀ s tenant s', fill s tenant = Ret s' → rtc loads s s') →
    ∀ x x', each_tenant n (fill_and_load fill) x = Ret x' → rtc loads x.1 x'.1) as Heach.
  { intros fill n Hf. unfold each_tenant. generalize (one_to n) as l. induction l as [|t l IH]; intros y y'; cbn.
    - intros [= <-]. apply rtc_refl.
    - destruct (fill_and_load fill y t) as [y1| |] eqn:E; cbn [mbind outcome_bind]; [|done..]. intros Hy.
      etrans; [by eapply Hone|by eapply IH]. }
  assert (∀ s s', loads s s' → rtc loads s s') as Hl by (intros; by apply rtc_once).
  unfold populate. repeat case_bool_decide.
  all: try (apply Heach; intros s tenant s' Hs; apply Hl; eauto using loads; fail).
  all: try (apply Hone; intros s tenant s' Hs; apply Hl; eauto using loads; fail).
  - destruct (fill_analysis rows x.1 (num_tenants c)) as [s| |] eqn:E; cbn [mbind outcome_bind]; [|done..].
    destruct (each_tenant _ _ _) as [x1| |] eqn:E1; cbn [mbind outcome_bind]; [|done..].
    destruct (assert_ _); cbn [mbind outcome_bind]; [|done..]. intros [= <-].
    apply Heach in E1; [|intros s0 _ s1 [= <-]; apply rtc_refl]. etrans; [|exact E1]. apply Hl. eauto using loads.
  - destruct (fill_mix rows x.1 (num_tenants c) (num_records c)) as [s| |] eqn:E; cbn [mbind outcome_bind]; [|done..].
    destruct (each_tenant _ _ _) as [x1| |] eqn:E1; cbn [mbind outcome_bind]; [|done..].
    destruct (assert_ _); cbn [mbind outcome_bind]; [|done..]. intros [= <-].
    apply Heach in E1; [|intros s0 _ s1 [= <-]; apply rtc_refl]. etrans; [|exact E1]. apply Hl. eauto using loads.
Qed.

Theorem populated_store_wf `{!BytesCrateLaws} c em s em' :
  rows_ok rows → bcrypt_ok → populate c (Store_new, em) = Ret (s, em') → store_wf s.
Proof.
  intros Hr Hb Hp. apply populate_loads in Hp; [|done..]. cbn in Hp.
  assert (∀ s s', rtc loads s s' → store_wf s → store_wf s') as Hall.
  { induction 1; eauto using loads_safe. }
  by eapply Hall, Store_new_wf.
Qed.
End populate.

(** ** Configuring NetBricks *)

(** Eight cores, each with a queue pair of the one port. *)
Definition get_default_netbricks_config (c : ServerConfig) : NetbricksConfiguration :=
  let net_cores := [10; 11; 12; 13; 14; 15; 16; 17] in
  mkNetbricksConfiguration "server" false 19 net_cores true
    [mkPortConfiguration (nic_pci c) net_cores net_cores 256 256 false false false] (8192 - 1) 128 None.

(** ** The threads of NetBricks *)

(** The commands that were sent to a thread and not yet taken.  The channel is
    closed when the thread has died of a panic, which drops the receiver. *)
Inductive CommandChannel (W T : Type) :=
| Open (cmds : list (SchedulerCommand W T))
| Closed.
Arguments Open {W T}.
Arguments Closed {W T}.

(** The channels by their cores. *)
Abbreviation Channels W T := (gmap Z (CommandChannel W T)).

Section context.
Context {Port Queue W T : Type}.

(** A new thread, with a channel of its own; one that had the core before keeps the
    commands it was sent. *)
Definition start_scheduler (chs : Channels W T) (core : Z) : Channels W T := <[core := Open []]> chs.

Definition start_schedulers (ctx : NetBricksContext (Port := Port) (Queue := Queue)) (chs : Channels W T)
  : Channels W T :=
  foldl start_scheduler chs (active_cores ctx).

(** [sync_channel(8)]: the ninth command waits.  The result of a send is unwrapped:
    a closed channel panics. *)
Definition send_command (chs : Channels W T) (core : Z) (cmd : SchedulerCommand W T) : outcome (Channels W T) :=
  ch ← expect (chs !! core);
  match ch with
  | Closed => Panic
  | Open cmds => if decide (len cmds < 8) then Ret (<[core := Open (cmds ++ [cmd])]> chs) else Undef
  end.

(** What a pipeline is given: the ports of its core, the core, and its sibling. *)
Definition Pipeline : Type := list Queue → W → Z → Queue → outcome (W * list T).

Definition send_pipeline (ctx : NetBricksContext (Port := Port) (Queue := Queue)) (run : Pipeline) (chs
  : Channels W T)
    (core : Z) : outcome (Channels W T) :=
  let ports := default [] (ctx_rx_queues ctx !! core) in
  sibling ← expect (siblings ctx !! core);
  send_command chs core (Run (λ w, run ports w core sibling)).

(** [order] is the order in which the map of channels is iterated. *)
Definition add_pipeline_to_run (ctx : NetBricksContext (Port := Port) (Queue := Queue)) (order : list Z)
    (run : Pipeline) (chs : Channels W T) : outcome (Channels W T) :=
  ofold (send_pipeline ctx run) chs order.

(** The result is whether the core has a scheduler. *)
Definition add_pipeline_to_core (ctx : NetBricksContext (Port := Port) (Queue := Queue)) (core : Z)
    (run : Pipeline) (chs : Channels W T) : outcome (Channels W T * bool) :=
  match chs !! core with
  | Some _ => chs ← send_pipeline ctx run chs core; Ret (chs, true)
  | None => Ret (chs, false)
  end.

Definition execute_core (chs : Channels W T) (core : Z) : outcome (Channels W T) := send_command chs core Execute.

Definition execute_all (order : list Z) (chs : Channels W T) : outcome (Channels W T) := ofold execute_core chs order.

Definition stop_core (chs : Channels W T) (core : Z) : outcome (Channels W T) := send_command chs core Shutdown.

(** [stop], before it joins the threads. *)
Definition stop_all (order : list Z) (chs : Channels W T) : outcome (Channels W T) := ofold stop_core chs order.

(** The thread of a core takes its next command. *)
Definition take_command {C} (rdtsc_unsafe : C → Z * C) (exec : W → StandaloneScheduler W T C → outcome
  (W * StandaloneScheduler W T C))
    (chs : Channels W T) (core : Z) (w : W) (s : StandaloneScheduler W T C) : outcome
      (Channels W T * W * StandaloneScheduler W T C) :=
  ch ← expect (chs !! core);
  match ch with
  | Closed | Open [] => Undef
  | Open (cmd :: cmds) =>
      '(w, s) ← handle_request rdtsc_unsafe exec w s cmd; Ret (<[core := Open cmds]> chs, w, s)
  end.
End context.
Arguments Pipeline : clear implicits.

(** ** The server's schedulers *)

Definition GHETTO : Z := 20.

Section server.
Context `{Network} `{BytesCrate} `{Loader} {G : Type} {Port Queue : Type} (rxq : Queue → Z).
Context (ext_gen : Extension → Context → G) (resume : Store → Context → G → ExtStep G).
Context (parse_ip : string → option Z).
(** The thread that creates the n-th scheduler. *)
Context (get_thread_id : nat → Z).

Definition priority : AnyTask G → TaskPriority := @t_priority (Master * Net) _ (server_ops ext_gen resume).

#[local] Arguments priority _ : simpl never.

(** An [Arc<RoundRobin>] is a position in the list of all schedulers; the ports of
    their dispatchers are beside them. *)
Record Shared := mkShared {
  sh_scheds : list (RoundRobin (AnyTask G));
  sh_ports : list (Queue * Queue);
  sh_handles : list nat;
  sh_temp : list nat;
  sh_affinity : list (Z * Z);
  sh_net : Net;
}.

Record Server := mkServer { scheduler : nat }.

(** The head of [Dispatch::new]. *)
Definition new_dispatch (c : ServerConfig) (id clock : Z) : outcome Dispatch :=
  ip_src_addr ← expect (parse_ip (ip_address c));
  ip_dst_addr ← expect (parse_ip (client_ip c));
  mac_src_addr ← ServerConfig_parse_mac c;
  mac_dst_addr ← ServerConfig_parse_client_mac c;
  Ret (Dispatch_new (udp_port c) ip_src_addr ip_dst_addr mac_src_addr mac_dst_addr id clock).

(** [handles] is the list of all handles, or the one that a replacement waits for.
    With any other number of ports the process exits. *)
Definition setup_server (c : ServerConfig) (temp : bool) : Pipeline Queue Shared Server := λ ports w core sibling,
  _ ← assert_ (len ports = 1);
  port ← index ports 0;
  let n := length (sh_scheds w) in
  let (now, net) := rdtsc (sh_net w) in
  let sched := RoundRobin_new now (get_thread_id n) core in
  let (now, net) := rdtsc net in
  d ← new_dispatch c (rxq port) now;
  let sched := enqueue sched (ADispatch d) in
  Ret (mkShared (sh_scheds w ++ [sched]) (sh_ports w ++ [(port, sibling)])
         (if temp then sh_handles w else sh_handles w ++ [n]) (if temp then sh_temp w ++ [n] else sh_temp w)
         (sh_affinity w) net,
       [mkServer n]).

(** What [main] sends the threads to start the server. *)
Definition start_server (ctx : NetBricksContext (Port := Port) (Queue := Queue)) (c : ServerConfig)
    (order : list Z) : outcome (Channels Shared Server) :=
  let chs := start_schedulers ctx ∅ in
  chs ← add_pipeline_to_run ctx order (setup_server c false) chs;
  execute_all order chs.

(** A thread that was just started takes its first command; its second one starts
    the loop that polls. *)
Definition first_command (w : Shared) (chs : Channels Shared Server) (core : Z) :
    outcome (Shared * Channels Shared Server) :=
  '(chs, w, _) ← take_command (λ c : unit, (0, c)) (λ w s, Ret (w, s)) chs core w (StandaloneScheduler_new [] tt);
  Ret (w, chs).

Definition first_commands (threads : list Z) (w : Shared) (chs : Channels Shared Server) :
    outcome (Shared * Channels Shared Server) :=
  ofold (λ '(w, chs) core, first_command w chs core) (w, chs) threads.

(** ** The watchdog's scan *)

Definition with_sched (w : Shared) (n : nat) (rr : RoundRobin (AnyTask G)) : Shared :=
  mkShared (<[n := rr]> (sh_scheds w)) (sh_ports w) (sh_handles w) (sh_temp w) (sh_affinity w) (sh_net w).

(** A scheduler that is late; the new thread gets to its first command while the
    watchdog waits.  The configuration is loaded anew.  The dispatchers among the tasks are dropped, and find
    no responses to send. *)
Definition replace_scheduler (ctx : NetBricksContext (Port := Port) (Queue := Queue)) (c : ServerConfig)
    (w : Shared) (chs : Channels Shared Server) (i n : nat) (sched : RoundRobin (AnyTask G)) :
    outcome (Shared * Channels Shared Server) :=
  let '(tid, core) := (thread sched, core sched) in
  let '(tasks, sched) := dequeue_all sched in
  let '(resps, sched) := take_responses sched in
  let tasks := not_dispatch priority tasks in
  let w := with_sched w n (set_compromised sched) in
  let w := mkShared (sh_scheds w) (sh_ports w) (sh_handles w) [] (sh_affinity w ++ [(tid, GHETTO)]) (sh_net w) in
  chs ← stop_core chs core;
  let chs := start_scheduler chs core in
  '(chs, _) ← add_pipeline_to_core ctx core (setup_server c true) chs;
  chs ← execute_core chs core;
  '(w, chs) ← first_command w chs core;
  new ← expect (last (sh_temp w));
  let w := mkShared (sh_scheds w) (sh_ports w) (<[i := new]> (sh_handles w)) [] (sh_affinity w) (sh_net w) in
  sched ← expect (sh_scheds w !! new);
  Ret (with_sched w new (append_resps (enqueue_many sched tasks) resps), chs).

Definition scan_one (ctx : NetBricksContext (Port := Port) (Queue := Queue)) (c : ServerConfig) (limit : Z)
    (st : Shared * Channels Shared Server) (i : nat) : outcome (Shared * Channels Shared Server) :=
  let (w, chs) := st in
  n ← expect (sh_handles w !! i);
  sched ← expect (sh_scheds w !! n);
  let (current, net) := rdtsc (sh_net w) in
  let w := mkShared (sh_scheds w) (sh_ports w) (sh_handles w) (sh_temp w) (sh_affinity w) net in
  if late limit current (latest sched) then replace_scheduler ctx c w chs i n sched else Ret (w, chs).

Definition scan (ctx : NetBricksContext (Port := Port) (Queue := Queue)) (c : ServerConfig) (limit : Z)
    (w : Shared) (chs : Channels Shared Server) : outcome (Shared * Channels Shared Server) :=
  ofold (scan_one ctx c limit) (w, chs) (seq 0 (length (sh_handles w))).

(** ** Executing a server *)

(** [poll] loops until its scheduler is marked; the fuel counts the turns. *)
Fixpoint server_poll (pushback : bool) (credit : Z) (fuel : nat) (w : Master * Net) (rr : RoundRobin (AnyTask G))
    (previous : Z) : outcome (Master * Net * RoundRobin (AnyTask G)) :=
  let (current, net) := rdtsc w.2 in
  '(w, rr, previous, ctl) ←
    Sched.poll_iter (H := server_ops ext_gen resume) pushback credit (w.1, net) rr previous current;
  match ctl with
  | Return => Ret (w, rr)
  | Continue => match fuel with O => Undef | S fuel => server_poll pushback credit fuel w rr previous end
  end.

Definition server_execute (pushback : bool) (credit : Z) (fuel : nat) (m : Master) (w : Shared) (s : Server) :
    outcome (Master * Shared * Server) :=
  rr ← expect (sh_scheds w !! scheduler s);
  '(x, rr) ← server_poll pushback credit fuel (m, sh_net w) rr 0;
  let w := with_sched w (scheduler s) rr in
  Ret (x.1, mkShared (sh_scheds w) (sh_ports w) (sh_handles w) (sh_temp w) (sh_affinity w) x.2, s).

Definition server_dependencies (s : Server) : list Z := [].

(** A server whose scheduler is not marked never comes back. *)
Lemma server_polls_on pushback credit fuel w rr previous r :
  compromised rr = false → server_poll pushback credit fuel w rr previous ≠ Ret r.
Proof.
  revert w rr previous. induction fuel as [|fuel IH]; intros w rr previous Hc; cbn [server_poll];
    destruct (rdtsc w.2) as [current net];
    destruct (Sched.poll_iter _ _ _ rr previous current) as [[[[w' rr'] p'] ctl]| |] eqn:E;
    cbn [mbind outcome_bind]; try done;
    apply (poll_iter_order (H0 := server_laws ext_gen resume)) in E as (-> & Hc' & _); try done.
  by apply IH.
Qed.

(** One whose scheduler is marked comes back at once, having run nothing. *)
Lemma server_stops pushback credit fuel w rr previous :
  compromised rr = true →
  ∃ current net, server_poll pushback credit fuel w rr previous = Ret ((w.1, net), set_latest rr current).
Proof.
  intros Hc. assert (∀ current, compromised (set_latest rr current) = true) as Hc' by done.
  destruct fuel; cbn [server_poll]; destruct (rdtsc w.2) as [current net] eqn:E; exists current, net;
    unfold poll_iter; rewrite Hc'; done.
Qed.

(** ** Setting a scheduler up *)

Section setup.
Context (c : ServerConfig) (ip client : Z) (mac client_mac : MacAddress).

(** The addresses of the configuration can be read. *)
Record addresses : Prop := {
  ad_ip : parse_ip (ip_address c) = Some ip;
  ad_client : parse_ip (client_ip c) = Some client;
  ad_mac : ServerConfig_parse_mac c = Ret mac;
  ad_client_mac : ServerConfig_parse_client_mac c = Ret client_mac;
}.

Definition dispatcher (q : Queue) (clock : Z) : AnyTask G :=
  ADispatch (Dispatch_new (udp_port c) ip client mac client_mac (rxq q) clock).

(** The n-th scheduler, as it starts. *)
Definition fresh_sched (n : nat) (core : Z) (q : Queue) (created now : Z) : RoundRobin (AnyTask G) :=
  mkRoundRobin created false (get_thread_id n) core [dispatcher q now] [].

Lemma setup_server_spec temp q w core sib :
  addresses →
  ∃ created now net, setup_server c temp [q] w core sib = Ret
    (mkShared (sh_scheds w ++ [fresh_sched (length (sh_scheds w)) core q created now]) (sh_ports w ++ [(q, sib)])
       (if temp then sh_handles w else sh_handles w ++ [length (sh_scheds w)])
       (if temp then sh_temp w ++ [length (sh_scheds w)] else sh_temp w) (sh_affinity w) net,
     [mkServer (length (sh_scheds w))]).
Proof.
  intros [E1 E2 E3 E4]. unfold setup_server. cbn [assert_ decide len length mbind outcome_bind].
  destruct (rdtsc (sh_net w)) as [now net] eqn:Er. destruct (rdtsc net) as [now' net'] eqn:Er'.
  exists now, now', net'. unfold assert_. rewrite decide_True by done. cbn [mbind outcome_bind].
  change (index [q] 0) with (Ret q). cbn [mbind outcome_bind]. unfold new_dispatch.
  rewrite E1, E2, E3, E4. done.
Qed.

(** A thread that was sent a set-up and one more command. *)
Lemma first_command_spec temp q core sib w chs rest :
  addresses → chs !! core = Some (Open (Run (λ w, setup_server c temp [q] w core sib) :: rest)) →
  ∃ created now net, first_command w chs core = Ret
    (mkShared (sh_scheds w ++ [fresh_sched (length (sh_scheds w)) core q created now]) (sh_ports w ++ [(q, sib)])
       (if temp then sh_handles w else sh_handles w ++ [length (sh_scheds w)])
       (if temp then sh_temp w ++ [length (sh_scheds w)] else sh_temp w) (sh_affinity w) net,
     <[core := Open rest]> chs).
Proof.
  intros Ha E. destruct (setup_server_spec temp q w core sib Ha) as (created & now & net & Es).
  exists created, now, net. unfold first_command, take_command. rewrite E. cbn [expect mbind outcome_bind].
  unfold handle_request. cbn beta. rewrite Es. done.
Qed.
End setup.

(** ** A server that runs *)

Definition has_room {W T} (ch : CommandChannel W T) : Prop :=
  match ch with Open cmds => len cmds < 8 | Closed => True end.

(** The handles are of different schedulers on different cores, each with the
    queues of its core and a channel, which has room or is closed. *)
Record running_server (ctx : NetBricksContext (Port := Port) (Queue := Queue)) (w : Shared)
    (chs : Channels Shared Server) : Prop := {
  rs_nodup : NoDup (sh_handles w);
  rs_ports : length (sh_ports w) = length (sh_scheds w);
  rs_handle : ∀ i n, sh_handles w !! i = Some n → ∃ sched q sib ch,
    sh_scheds w !! n = Some sched ∧ sh_ports w !! n = Some (q, sib) ∧
    ctx_rx_queues ctx !! core sched = Some [q] ∧ siblings ctx !! core sched = Some sib ∧
    chs !! core sched = Some ch ∧ has_room ch;
  rs_cores : ∀ i j n m sched sched', sh_handles w !! i = Some n → sh_handles w !! j = Some m →
    sh_scheds w !! n = Some sched → sh_scheds w !! m = Some sched' → core sched = core sched' → i = j;
}.

(** ** What the start-up leaves *)

Section start.
(** DPDK opens the port and gives the queue pairs. *)
Context (open_port : PortConfiguration → Port) (queue_pair : Port → Z → Z → Queue) (c : ServerConfig).

Definition server_port : Port :=
  open_port (mkPortConfiguration (nic_pci c) (seqZ 10 8) (seqZ 10 8) 256 256 false false false).

(** The queue pair of the k-th core, and of the next one. *)
Definition core_queue (core : Z) : Queue := queue_pair server_port (core - 10) (core - 10).
Definition next_queue (core : Z) : Queue := core_queue (if decide (core = 17) then 10 else core + 1).

Definition init_server : outcome (Result (NetBricksContext (Port := Port) (Queue := Queue))) :=
  initialize_system (λ p, Some (open_port p)) (λ p rx tx, Some (queue_pair p rx tx)) (get_default_netbricks_config c).

Definition server_cores : list Z := seqZ 10 8.

Lemma default_init :
  ∃ ctx, init_server = Ret (Ok ctx) ∧ active_cores ctx = server_cores ∧
    ∀ core, core ∈ server_cores →
      ctx_rx_queues ctx !! core = Some [core_queue core] ∧ siblings ctx !! core = Some (next_queue core).
Proof.
  set (qs := list_to_map ((λ core, (core, [core_queue core])) <$> server_cores) : gmap Z (list Queue)).
  set (sib := list_to_map ((λ core, (core, next_queue core)) <$> server_cores) : gmap Z Queue).
  exists (mkNetBricksContext {[nic_pci c := server_port]} qs server_cores sib).
  split; [|split; [done|]].
  2:{ intros core Hc. unfold qs, sib. cbn [ctx_rx_queues siblings]. vm_compute in Hc.
      repeat (apply elem_of_cons in Hc as [->|Hc]; [by vm_compute|]). by apply elem_of_nil in Hc. }
  unfold init_server, initialize_system, get_default_netbricks_config.
  cbn [ports strict cores rfold add_port port_name].
  rewrite decide_False by (rewrite lookup_empty; by intros []).
  change [10; 11; 12; 13; 14; 15; 16; 17] with server_cores.
  change (open_port _) with server_port.
  cbn [rx_queues]. assert (rfold (add_queue (λ p rx tx, Some (queue_pair p rx tx)) server_port) ∅
    (enumerated server_cores) = Ok qs) as ->
    by (vm_compute; reflexivity).
  cbn [mbind Result_bind mret Result_ret].
  assert (merge_sort Z.le (elements (list_to_set server_cores : gset Z)) = server_cores) as -> by
    (vm_compute; reflexivity).
  rewrite bool_decide_eq_true_2 by (apply (bool_decide_unpack _); vm_compute; exact I). cbn [andb negb].
  assert (set_siblings qs server_cores = Ret sib) as -> by (vm_compute; reflexivity).
  reflexivity.
Qed.

Lemma started_channels (ctx : NetBricksContext (Port := Port) (Queue := Queue)) :
  active_cores ctx = server_cores → ∀ core, core ∈ server_cores →
  start_schedulers (W := Shared) (T := Server) ctx ∅ !! core = Some (Open []).
Proof.
  intros E core Hc. unfold start_schedulers. rewrite E. vm_compute in Hc.
  repeat (apply elem_of_cons in Hc as [->|Hc]; [by vm_compute|]). by apply elem_of_nil in Hc.
Qed.

(** Sending the threads one command each, in any order. *)
Lemma send_each (f : Z → SchedulerCommand Shared Server) (g : Channels Shared Server → Z → outcome
  (Channels Shared Server)) order chs :
  NoDup order → (∀ core, core ∈ order → ∃ cmds, chs !! core = Some (Open cmds) ∧ len cmds < 8) →
  (∀ chs core, core ∈ order → g chs core = send_command chs core (f core)) →
  ∃ chs', ofold g chs order = Ret chs' ∧
    (∀ core cmds, core ∈ order → chs !! core = Some (Open cmds) → chs' !! core = Some (Open (cmds ++ [f core]))) ∧
    (∀ core, core ∉ order → chs' !! core = chs !! core).
Proof.
  revert chs. induction order as [|core order IH]; intros chs Hnd Hch Hg.
  { exists chs. split; [done|]. split; [intros core cmds Hc; by apply elem_of_nil in Hc|done]. }
  apply NoDup_cons in Hnd as [Hni Hnd]. destruct (Hch core) as (ch & E & Hlen); [by left|].
  cbn [ofold]. rewrite Hg by by left. unfold send_command. rewrite E. cbn [expect mbind outcome_bind].
  rewrite decide_True by done. cbn [mbind outcome_bind].
  destruct (IH (<[core := Open (ch ++ [f core])]> chs)) as (chs' & Ho & Hin & Hout); [done| |by intros; apply Hg; right|].
  { intros core' Hc. destruct (decide (core = core')) as [->|]; [done|].
    destruct (Hch core') as (ch' & E' & Hl'); [by right|]. exists ch'. by rewrite lookup_insert_ne. }
  exists chs'. split; [done|]. split.
  - intros core' cmds [->|Hc]%elem_of_cons; [rewrite Hout, lookup_insert_eq, E by done; by intros [= ->]|].
    intros E'. apply Hin; [done|]. rewrite lookup_insert_ne; [done|]. by intros ->.
  - intros core' [Hne Hc]%not_elem_of_cons. rewrite Hout by done. by rewrite lookup_insert_ne.
Qed.

Definition setup_command (core : Z) : SchedulerCommand Shared Server :=
  Run (λ w, setup_server c false [core_queue core] w core (next_queue core)).

Lemma start_server_sends (ctx : NetBricksContext (Port := Port) (Queue := Queue)) order :
  active_cores ctx = server_cores →
  (∀ core, core ∈ server_cores →
     ctx_rx_queues ctx !! core = Some [core_queue core] ∧ siblings ctx !! core = Some (next_queue core)) →
  order ≡ₚ server_cores →
  ∃ chs, start_server ctx c order = Ret chs ∧
    ∀ core, core ∈ server_cores → chs !! core = Some (Open [setup_command core; Execute]).
Proof.
  intros Ea Hq Hp. assert (∀ core, core ∈ order ↔ core ∈ server_cores) as Hin by (intros core; by rewrite Hp).
  assert (NoDup order) as Hnd by (rewrite Hp; apply NoDup_seqZ).
  pose proof (started_channels ctx Ea) as H0c. unfold start_server.
  destruct (send_each setup_command (send_pipeline ctx (setup_server c false)) order (start_schedulers ctx ∅)) as
    (chs1 & E1 & H1c & _); [done|intros core Hc; exists []; split; [by apply H0c, Hin|done]| |].
  { intros chs core Hc%Hin. destruct (Hq core Hc) as [Eq Es]. unfold send_pipeline. by rewrite Eq, Es. }
  unfold add_pipeline_to_run. rewrite E1. cbn [mbind outcome_bind].
  destruct (send_each (λ _, Execute) execute_core order chs1) as (chs2 & E2 & H2c & _); [done| |done|].
  { intros core Hc. eexists. split; [apply H1c; [done|by apply H0c, Hin]|done]. }
  exists chs2. split; [done|]. intros core Hc. apply (H2c core [setup_command core]); [by apply Hin|].
  apply (H1c core []); [by apply Hin|by apply H0c].
Qed.

(** What the i-th thread to set up left. *)
Record thread_set_up ip client mac client_mac (w : Shared) (chs : Channels Shared Server) (i : nat) (core : Z)
  : Prop := {
  tu_sched : ∃ created now, sh_scheds w !! i =
    Some (fresh_sched c ip client mac client_mac i core (core_queue core) created now);
  tu_ports : sh_ports w !! i = Some (core_queue core, next_queue core);
  tu_channel : chs !! core = Some (Open [Execute]);
}.

Lemma threads_set_up ip client mac client_mac threads net chs :
  addresses c ip client mac client_mac → NoDup threads →
  (∀ core, core ∈ threads → chs !! core = Some (Open [setup_command core; Execute])) →
  ∃ w chs', first_commands threads (mkShared [] [] [] [] [] net) chs = Ret (w, chs') ∧
    sh_handles w = seq 0 (length threads) ∧ length (sh_scheds w) = length threads ∧
    length (sh_ports w) = length threads ∧
    (∀ core, core ∉ threads → chs' !! core = chs !! core) ∧
    ∀ i core, threads !! i = Some core → thread_set_up ip client mac client_mac w chs' i core.
Proof.
  intros Ha. unfold first_commands. induction threads as [|core threads IH] using rev_ind; intros Hnd Hch.
  { eexists _, _. split; [done|]. split_and!; [done..|]. intros i core Hi. by rewrite lookup_nil in Hi. }
  apply NoDup_app in Hnd as (Hnd & Hni & _). specialize (Hni core).
  destruct IH as (w & chs1 & E & Hh & Hl & Hp & Hout & Hin); [done|intros; apply Hch, elem_of_app; by left|].
  assert (core ∉ threads) as Hc by (intros Hc; by apply (Hni Hc), list_elem_of_singleton).
  rewrite ofold_app, E. cbn [mbind outcome_bind ofold].
  destruct (first_command_spec c ip client mac client_mac false (core_queue core) core
    (next_queue core) w chs1 [Execute] Ha)
    as (created & now & net' & E1); [by rewrite Hout, Hch by (done || apply elem_of_app; right; by left)|].
  rewrite E1. cbn [mbind outcome_bind]. eexists _, _. split; [done|]. cbn. rewrite !length_app, Hl, Hp. cbn.
  split_and!; [by rewrite Hh, seq_app|done..| |].
  - intros core' Hc'. rewrite lookup_insert_ne by (intros ->; apply Hc', elem_of_app; right; by left).
    apply Hout. intros ?. apply Hc', elem_of_app. by left.
  - intros i core' [Hi|[Hi Hi']]%lookup_app_Some.
    + destruct (Hin i core' Hi) as [(cr & nw & H1') H2' H3']. pose proof (lookup_lt_Some _ _ _ Hi). split; cbn.
      * exists cr, nw. by rewrite lookup_app_l by lia.
      * by rewrite lookup_app_l by lia.
      * rewrite lookup_insert_ne; [done|]. intros ->. apply Hc. by eapply list_elem_of_lookup_2.
    + apply list_lookup_singleton_Some in Hi' as [Hz <-]. assert (i = length threads) as -> by lia. split; cbn.
      * exists created, now. rewrite lookup_app_r by lia. by rewrite Hl, Nat.sub_diag.
      * rewrite lookup_app_r by lia. by rewrite Hp, Nat.sub_diag.
      * by rewrite lookup_insert_eq.
Qed.

Lemma set_up_runs (ctx : NetBricksContext (Port := Port) (Queue := Queue)) ip client mac client_mac threads w chs :
  (∀ core, core ∈ threads →
     ctx_rx_queues ctx !! core = Some [core_queue core] ∧ siblings ctx !! core = Some (next_queue core)) →
  NoDup threads → sh_handles w = seq 0 (length threads) → length (sh_ports w) = length (sh_scheds w) →
  (∀ i core, threads !! i = Some core → thread_set_up ip client mac client_mac w chs i core) →
  running_server ctx w chs.
Proof.
  intros Hq Hnd Hh Hp Hin.
  assert (∀ i n, sh_handles w !! i = Some n → n = i ∧ ∃ core, threads !! i = Some core) as Hi.
  { intros i n. rewrite Hh. intros [-> Hlt]%lookup_seq. split; [done|]. by apply lookup_lt_is_Some_2. }
  split; [rewrite Hh; apply NoDup_seq|done| |].
  - intros i n [-> [core Hc]]%Hi. destruct (Hin i core Hc) as [(cr & nw & H1') H2' H3'].
    destruct (Hq core) as [Q1 Q2]; [by eapply list_elem_of_lookup_2|].
    eexists _, _, _, _. by split_and!.
  - intros i j n m s s' [-> [core Hc]]%Hi [-> [core' Hc']]%Hi Hs Hs' He.
    destruct (Hin i core Hc) as [(cr & nw & E1) _ _], (Hin j core' Hc') as [(cr' & nw' & E2) _ _].
    rewrite Hs in E1. rewrite Hs' in E2. injection E1 as ->. injection E2 as ->. cbn in He. subst core'.
    by eapply NoDup_lookup.
Qed.

(** C29: the server starts with a dispatcher on every core.  When the addresses of
    the configuration can be read and the port and its queue pairs can be opened,
    NetBricks' initialisation gives every one of the cores 10 to 17 one queue pair
    and, as its sibling, that of the next core, so that no set-up stops the
    process; and in whatever order the threads are sent their pipelines and get to
    run them, there is then exactly one scheduler for each core, known to the
    watchdog, on the thread that created it, with nothing in its queue but a
    dispatcher for the core's own queue pair and its sibling's; and what the thread
    finds next is the command to start polling.  The comment above
    [get_default_netbricks_config] is of an older configuration (the parent on core
    0, one scheduler on core 1, one receive and one transmit queue), which is not
    what the code sets up. *)
Theorem server_starts ip client mac client_mac net order threads :
  addresses c ip client mac client_mac → order ≡ₚ server_cores → threads ≡ₚ server_cores →
  ∃ ctx chs w chs',
    init_server = Ret (Ok ctx) ∧ start_server ctx c order = Ret chs ∧
    first_commands threads (mkShared [] [] [] [] [] net) chs = Ret (w, chs') ∧
    sh_handles w = seq 0 8 ∧ length (sh_scheds w) = 8%nat ∧ running_server ctx w chs' ∧
    ∀ core, core ∈ server_cores → ∃ i created now,
      threads !! i = Some core ∧
      sh_scheds w !! i = Some (mkRoundRobin created false (get_thread_id i) core
        [ADispatch (Dispatch_new (udp_port c) ip client mac client_mac (rxq (core_queue core)) now)] []) ∧
      sh_ports w !! i = Some (core_queue core, next_queue core) ∧ chs' !! core = Some (Open [Execute]).
Proof.
  intros Ha Ho Ht. destruct default_init as (ctx & Ei & Ea & Hq).
  destruct (start_server_sends ctx order Ea Hq Ho) as (chs & Es & Hch).
  assert (NoDup threads) as Hnd by (rewrite Ht; apply NoDup_seqZ).
  destruct (threads_set_up ip client mac client_mac threads net chs Ha Hnd)
    as (w & chs' & Ef & Hh & Hl & Hp & _ & Hin); [intros core Hc; by apply Hch; rewrite <- Ht|].
  exists ctx, chs, w, chs'. assert (length threads = 8%nat) as E8 by by rewrite Ht.
  split_and!; [done..|by rewrite Hh, E8|lia| |].
  - apply (set_up_runs ctx ip client mac client_mac threads); [intros core Hc; apply Hq; by rewrite <- Ht|done..|lia|done].
  - intros core Hc. rewrite <- Ht in Hc.
    apply list_elem_of_lookup in Hc as [i Hi]. destruct (Hin i core Hi) as [(created & now & H1') H2' H3'].
    exists i, created, now. by split_and!.
Qed.
End start.

(** ** What a scan does *)

Section scan.
Context (ctx : NetBricksContext (Port := Port) (Queue := Queue)) (c : ServerConfig) (limit : Z).
Context (ip client : Z) (mac client_mac : MacAddress) (Hc : addresses c ip client mac client_mac).

(** A scheduler that was left alone, or replaced. *)
Definition left_alone (w w' : Shared) (i n : nat) (sched : RoundRobin (AnyTask G)) : Prop :=
  (∃ current, late limit current (latest sched) = false) ∧
  sh_handles w' !! i = Some n ∧ sh_scheds w' !! n = Some sched.

Definition replaced (w w' : Shared) (i n : nat) (sched : RoundRobin (AnyTask G)) : Prop :=
  (∃ current, late limit current (latest sched) = true) ∧
  ∃ n' q sib created now,
    sh_handles w' !! i = Some n' ∧ (length (sh_scheds w) ≤ n')%nat ∧
    sh_ports w !! n = Some (q, sib) ∧ sh_ports w' !! n' = Some (q, sib) ∧
    sh_scheds w' !! n' = Some (mkRoundRobin created false (get_thread_id n') (core sched)
      (dispatcher c ip client mac client_mac q now :: not_dispatch priority (waiting sched)) (responses sched)) ∧
    sh_scheds w' !! n = Some (mkRoundRobin (latest sched) true (thread sched) (core sched) [] []).

(** What a scan makes of a handle, with the channel of its core. *)
Definition dealt_with (w w' : Shared) (chs chs' : Channels Shared Server) (i n : nat)
    (sched : RoundRobin (AnyTask G)) : Prop :=
  (left_alone w w' i n sched ∧ chs' !! core sched = chs !! core sched) ∨
  (replaced w w' i n sched ∧ chs !! core sched ≠ Some Closed ∧ chs' !! core sched = Some (Open [Execute])).

(** A scheduler that is late and whose thread has died. *)
Definition late_and_dead (w : Shared) (chs : Channels Shared Server) (i n : nat)
    (sched : RoundRobin (AnyTask G)) : Prop :=
  sh_handles w !! i = Some n ∧ sh_scheds w !! n = Some sched ∧
  (∃ current, late limit current (latest sched) = true) ∧ chs !! core sched = Some Closed.

(** What else a step leaves as it was. *)
Record scan_frame (w w' : Shared) (chs chs' : Channels Shared Server) (i n : nat) (k : Z) : Prop := {
  sf_handles : ∀ j, j ≠ i → sh_handles w' !! j = sh_handles w !! j;
  sf_length : length (sh_handles w') = length (sh_handles w);
  sf_scheds : ∀ m, m ≠ n → (m < length (sh_scheds w))%nat → sh_scheds w' !! m = sh_scheds w !! m;
  sf_ports : ∀ m, (m < length (sh_scheds w))%nat → sh_ports w' !! m = sh_ports w !! m;
  sf_grows : (length (sh_scheds w) ≤ length (sh_scheds w'))%nat;
  sf_channels : ∀ k', k' ≠ k → chs' !! k' = chs !! k';
}.

Lemma replace_scheduler_dead w chs i n sched :
  chs !! core sched = Some Closed → replace_scheduler ctx c w chs i n sched = Panic.
Proof.
  intros Hch. unfold replace_scheduler. cbn [dequeue_all take_responses]. unfold stop_core, send_command at 1.
  cbn [core with_waiting with_responses]. by rewrite Hch.
Qed.

Lemma replace_scheduler_spec w chs i n sched q sib cmds current :
  late limit current (latest sched) = true → sh_handles w !! i = Some n → sh_scheds w !! n = Some sched →
  length (sh_ports w) = length (sh_scheds w) → sh_ports w !! n = Some (q, sib) →
  ctx_rx_queues ctx !! core sched = Some [q] → siblings ctx !! core sched = Some sib →
  chs !! core sched = Some (Open cmds) → len cmds < 8 →
  ∃ w' chs', replace_scheduler ctx c w chs i n sched = Ret (w', chs') ∧ chs' = <[core sched := Open [Execute]]> chs ∧
    replaced w w' i n sched ∧ scan_frame w w' chs chs' i n (core sched) ∧
    sh_handles w' = <[i := length (sh_scheds w)]> (sh_handles w) ∧
    length (sh_ports w') = length (sh_scheds w').
Proof.
  intros Hl Hh Hs Hlen Hp Hq Hsib Hch Hroom. unfold replace_scheduler. cbn [dequeue_all take_responses].
  unfold stop_core, send_command at 1. cbn [core with_waiting with_responses]. rewrite Hch.
  cbn [expect mbind outcome_bind].
  rewrite decide_True by done. cbn [mbind outcome_bind]. unfold start_scheduler, add_pipeline_to_core, send_pipeline.
  rewrite lookup_insert_eq, Hq, Hsib. cbn [expect mbind outcome_bind default]. unfold send_command at 1.
  rewrite lookup_insert_eq. cbn [expect mbind outcome_bind]. rewrite decide_True by done. cbn [mbind outcome_bind].
  unfold execute_core, send_command. rewrite lookup_insert_eq. cbn [expect mbind outcome_bind].
  rewrite decide_True by done. cbn [mbind outcome_bind app].
  change (id [q]) with [q]. set (marked := set_compromised (with_responses (with_waiting sched []) [])).
  set (chs1 := <[core sched := Open [Run _; Execute]]> _).
  destruct (first_command_spec c ip client mac client_mac true q (core sched) sib
    (mkShared (<[n := marked]> (sh_scheds w)) (sh_ports w) (sh_handles w) []
      (sh_affinity w ++ [(thread sched, GHETTO)]) (sh_net w)) chs1 [Execute] Hc)
    as (created & now & net & E); [by unfold chs1; rewrite lookup_insert_eq|].
  cbn in E. rewrite length_insert in E. cbn. rewrite E. cbn. pose proof (lookup_lt_Some _ _ _ Hs) as Hn.
  rewrite lookup_app_r by (rewrite length_insert; lia). rewrite length_insert, Nat.sub_diag. cbn.
  assert (∀ x y : RoundRobin (AnyTask G), <[length (sh_scheds w) := y]> (<[n := marked]> (sh_scheds w) ++ [x]) =
    <[n := marked]> (sh_scheds w) ++ [y]) as Hlast.
  { intros x y. rewrite insert_app_r_alt by (rewrite length_insert; lia). by rewrite length_insert, Nat.sub_diag. }
  unfold chs1, with_sched. rewrite !insert_insert_eq. cbn. rewrite Hlast. eexists _, _. split; [done|]. split; [done|]. cbn.
  split_and!.
  - split; [by exists current|]. exists (length (sh_scheds w)), q, sib, created, now. cbn. split_and!; try done.
    + apply list_lookup_insert_eq. by apply lookup_lt_Some in Hh.
    + rewrite lookup_app_r by lia. by rewrite Hlen, Nat.sub_diag.
    + rewrite lookup_app_r by (rewrite length_insert; lia). rewrite length_insert, Nat.sub_diag. done.
    + rewrite lookup_app_l by (rewrite length_insert; lia). by rewrite list_lookup_insert_eq.
  - split; cbn; [intros j Hj; by rewrite list_lookup_insert_ne|by rewrite length_insert| | | |].
    + intros m Hm Hm'. rewrite lookup_app_l by (rewrite length_insert; lia). by rewrite list_lookup_insert_ne.
    + intros m Hm. by rewrite lookup_app_l by lia.
    + rewrite length_app, length_insert. lia.
    + intros k' Hk'. by rewrite lookup_insert_ne.
  - done.
  - rewrite !length_app, length_insert. cbn. lia.
Qed.

(** Replacing one scheduler leaves the server running. *)
Lemma replaced_runs w chs w' chs' i n sched q sib :
  running_server ctx w chs → sh_handles w !! i = Some n → sh_scheds w !! n = Some sched →
  sh_ports w !! n = Some (q, sib) → ctx_rx_queues ctx !! core sched = Some [q] →
  siblings ctx !! core sched = Some sib →
  chs' = <[core sched := Open [Execute]]> chs → replaced w w' i n sched →
  scan_frame w w' chs chs' i n (core sched) → sh_handles w' = <[i := length (sh_scheds w)]> (sh_handles w) →
  length (sh_ports w') = length (sh_scheds w') → running_server ctx w' chs'.
Proof.
  intros [Hnd Hlen Hrun Hcore] Hh Hs Hp Hq Hsib -> Hr Hf Eh El.
  destruct Hr as (_ & n' & q' & sib' & created & now & Hh' & Hn' & Hp0 & Hp' & Hs' & _).
  rewrite Hp in Hp0. injection Hp0 as <- <-.
  assert (∀ j m s, j ≠ i → sh_handles w' !! j = Some m → sh_scheds w' !! m = Some s →
    sh_handles w !! j = Some m ∧ sh_scheds w !! m = Some s ∧ core s ≠ core sched ∧
    sh_ports w' !! m = sh_ports w !! m) as Hold.
  { intros j m s Hne Hj Hm. rewrite (sf_handles _ _ _ _ _ _ _ Hf j Hne) in Hj.
    destruct (Hrun j m Hj) as (s0 & _ & _ & _ & Hs0 & _).
    assert (m ≠ n) as Hmn by (intros ->; apply Hne; by eapply NoDup_lookup).
    pose proof (lookup_lt_Some _ _ _ Hs0) as Hlt. rewrite (sf_scheds _ _ _ _ _ _ _ Hf) in Hm by done.
    split_and!; [done|done| |by apply (sf_ports _ _ _ _ _ _ _ Hf)].
    intros He. apply Hne. by eapply (Hcore j i m n s sched). }
  split; [|done| |].
  - rewrite Eh. apply NoDup_replace; [done|]. intros Hin.
    apply list_elem_of_lookup in Hin as [j Hj]. destruct (Hrun j _ Hj) as (s & ? & ? & ? & Hs0 & _).
    apply lookup_lt_Some in Hs0. lia.
  - intros j m Hj. destruct (decide (j = i)) as [->|Hne].
    + rewrite Hh' in Hj. injection Hj as <-. eexists _, q, sib, (Open [Execute]).
      split_and!; [exact Hs'|done|done|done|by rewrite lookup_insert_eq|done].
    + pose proof Hj as Hj0. rewrite (sf_handles _ _ _ _ _ _ _ Hf j Hne) in Hj0.
      destruct (Hrun j m Hj0) as (s & q0 & sib0 & ch & Hs0 & Hp0 & Hq0 & Hb0 & Hc0 & Hr0).
      assert (m ≠ n) as Hmn by (intros ->; apply Hne; by eapply NoDup_lookup).
      assert (sh_scheds w' !! m = Some s) as Hs1.
      { rewrite (sf_scheds _ _ _ _ _ _ _ Hf); [done..|by apply lookup_lt_Some in Hs0]. }
      destruct (Hold j m s Hne Hj Hs1) as (_ & _ & Hco & Hpo).
      exists s, q0, sib0, ch. split_and!; [done|by rewrite Hpo|done|done|by rewrite lookup_insert_ne|done].
  - assert (∀ j m s, j ≠ i → sh_handles w' !! j = Some m → sh_scheds w' !! m = Some s → core s ≠ core sched)
      as Hne by (intros; by eapply Hold).
    intros a b na nb sa sb Ha Hb Hsa Hsb He.
    assert (∀ m s, sh_handles w' !! i = Some m → sh_scheds w' !! m = Some s → core s = core sched) as Hi.
    { intros m s Hm Hm'. rewrite Hh' in Hm. injection Hm as <-. rewrite Hs' in Hm'. by injection Hm' as <-. }
    destruct (decide (a = i)) as [->|Ha'], (decide (b = i)) as [->|Hb']; [done| | |].
    + destruct (Hne b nb sb Hb' Hb Hsb). rewrite <- He. by eapply Hi.
    + destruct (Hne a na sa Ha' Ha Hsa). rewrite He. by eapply Hi.
    + destruct (Hold a na sa Ha' Ha Hsa) as (? & ? & _), (Hold b nb sb Hb' Hb Hsb) as (? & ? & _).
      by eapply Hcore.
Qed.

Lemma scan_one_spec w chs i :
  running_server ctx w chs → (i < length (sh_handles w))%nat →
  ∃ n sched, sh_handles w !! i = Some n ∧ sh_scheds w !! n = Some sched ∧
    ((∃ w' chs', scan_one ctx c limit (w, chs) i = Ret (w', chs') ∧ dealt_with w w' chs chs' i n sched ∧
        scan_frame w w' chs chs' i n (core sched) ∧ running_server ctx w' chs') ∨
     (scan_one ctx c limit (w, chs) i = Panic ∧ late_and_dead w chs i n sched)).
Proof.
  intros Hrs Hi. pose proof Hrs as [Hnd Hlen Hrun Hcore].
  destruct (lookup_lt_is_Some_2 (sh_handles w) i Hi) as [n Hh].
  destruct (Hrun i n Hh) as (sched & q & sib & ch & Hs & Hp & Hq & Hsib & Hch & Hroom).
  exists n, sched. split; [done|]. split; [done|].
  unfold scan_one. rewrite Hh. cbn [expect mbind outcome_bind]. rewrite Hs. cbn [expect mbind outcome_bind].
  destruct (rdtsc (sh_net w)) as [current net]. set (w0 := mkShared _ _ _ _ _ net).
  assert (running_server ctx w0 chs) as Hrs0 by by split.
  destruct (late limit current (latest sched)) eqn:El.
  2:{ left. exists w0, chs. split; [done|]. split; [|by split].
      left. split; [|done]. split; [by exists current|by split]. }
  destruct ch as [cmds|].
  2:{ right. split; [by apply replace_scheduler_dead|]. split_and!; [done|done|by exists current|done]. }
  destruct (replace_scheduler_spec w0 chs i n sched q sib cmds current El Hh Hs Hlen Hp Hq Hsib Hch Hroom)
    as (w' & chs' & E & Ech & Hr & Hf & Eh & El'). left. rewrite E. exists w', chs'. split; [done|].
  split; [right; split; [done|split; [by rewrite Hch|by rewrite Ech, lookup_insert_eq]]|].
  split; [by destruct Hf|]. by eapply (replaced_runs w0 chs).
Qed.

(** The scan up to some handle: those before it are dealt with, the others are as
    they were. *)
Record scanned (w w' : Shared) (chs chs' : Channels Shared Server) (k : nat) : Prop := {
  sd_length : length (sh_handles w') = length (sh_handles w);
  sd_grows : (length (sh_scheds w) ≤ length (sh_scheds w'))%nat;
  sd_ports : ∀ m, (m < length (sh_scheds w))%nat → sh_ports w' !! m = sh_ports w !! m;
  sd_before : ∀ i n sched, (i < k)%nat → sh_handles w !! i = Some n → sh_scheds w !! n = Some sched →
    dealt_with w w' chs chs' i n sched;
  sd_after : ∀ i n sched, (k ≤ i)%nat → sh_handles w !! i = Some n → sh_scheds w !! n = Some sched →
    sh_handles w' !! i = Some n ∧ sh_scheds w' !! n = Some sched ∧ chs' !! core sched = chs !! core sched;
}.

Lemma scanned_next w w1 w2 chs chs1 chs2 k n sched :
  running_server ctx w chs → running_server ctx w1 chs1 → scanned w w1 chs chs1 k →
  sh_handles w !! k = Some n → sh_scheds w !! n = Some sched →
  dealt_with w1 w2 chs1 chs2 k n sched → scan_frame w1 w2 chs1 chs2 k n (core sched) →
  scanned w w2 chs chs2 (S k).
Proof.
  intros [Hnd _ _ Hcore] [Hnd1 _ _ _] [Sl Sg Sp Sb Sa] Hk Hs Hone [Fh Fl Fs Fp Fg Fc].
  pose proof (lookup_lt_Some _ _ _ Hs) as Hn.
  assert (∀ m, m ≠ n → is_Some (sh_scheds w1 !! m) → sh_scheds w2 !! m = sh_scheds w1 !! m) as Hkeep.
  { intros m Hm Hlt%lookup_lt_is_Some. by apply Fs. }
  assert (∀ j m s, j ≠ k → sh_handles w !! j = Some m → sh_scheds w !! m = Some s →
    m ≠ n ∧ chs2 !! core s = chs1 !! core s) as Hother.
  { intros j m s Hj Hm Hms. split; [intros ->; apply Hj; exact (NoDup_lookup _ _ _ _ Hnd Hm Hk)|].
    apply Fc. intros He. apply Hj. by eapply (Hcore j k m n s sched). }
  destruct (Sa k n sched (le_n k) Hk Hs) as (Hk1 & Hs1 & Hc1).
  split; [congruence|lia| | |].
  - intros m Hm. rewrite Fp by lia. by apply Sp.
  - intros i m rr Hi Hm Hrr. destruct (decide (i = k)) as [->|Hne].
    + assert (m = n) as -> by congruence. assert (rr = sched) as -> by congruence.
      destruct Hone as [[Hleft Hch]|[(Hl & n' & q & sib & cr & nw & H1' & H2' & H3' & H4) Hch]].
      * left. split; [done|]. by rewrite Hch.
      * right. split; [|by rewrite <- Hc1]. split; [done|]. exists n', q, sib, cr, nw. split; [done|].
        split; [lia|]. split; [by rewrite <- Sp by lia|done].
    + destruct (Hother i m rr Hne Hm Hrr) as [Hmn Hcc]. destruct (Sb i m rr ltac:(lia) Hm Hrr)
        as [[(Hl & Hh & Hs') Hch]|[(Hl & n' & q & sib & cr & nw & Hh & Hg & Hp & Hp' & Hs' & Ho) Hch]].
      * left. split; [|by rewrite Hcc]. split; [done|]. split; [by rewrite Fh by done|]. by rewrite Hkeep by eauto.
      * right. split; [|by rewrite Hcc]. split; [done|]. exists n', q, sib, cr, nw.
        assert (n' ≠ n) as Hn' by (intros ->; apply Hne; by eapply NoDup_lookup).
        split_and!; [by rewrite Fh by done|done|done|by rewrite Fp by exact
          (lookup_lt_Some _ _ _ Hs')|by rewrite Hkeep by eauto|
          by rewrite Hkeep by eauto].
  - intros i m rr Hi Hm Hrr. destruct (Sa i m rr ltac:(lia) Hm Hrr) as (Hh & Hs' & Hch).
    destruct (Hother i m rr ltac:(lia) Hm Hrr) as [Hmn Hcc].
    rewrite Fh by lia. rewrite Hkeep by eauto. by rewrite Hcc.
Qed.

Lemma scan_loop w chs k :
  running_server ctx w chs → (k ≤ length (sh_handles w))%nat →
  let r := ofold (scan_one ctx c limit) (w, chs) (seq 0 k) in
  (∃ w' chs', r = Ret (w', chs') ∧ running_server ctx w' chs' ∧ scanned w w' chs chs' k) ∨
  (r = Panic ∧ ∃ i n sched, late_and_dead w chs i n sched).
Proof.
  intros Hrun. induction k as [|k IH]; intros Hk; cbn zeta.
  { left. exists w, chs. split; [done|]. split; [done|]. split; try done. intros i n sched Hi. lia. }
  rewrite seq_S, ofold_app. destruct IH as [(w1 & chs1 & -> & Hrun1 & Hsc)|[-> Hd]]; [lia| |by right].
  cbn [mbind outcome_bind ofold]. rewrite Nat.add_0_l.
  destruct (scan_one_spec w1 chs1 k Hrun1) as (n & sched & Hh & Hs & Hone);
    [rewrite (sd_length _ _ _ _ _ Hsc); lia|].
  destruct (lookup_lt_is_Some_2 (sh_handles w) k) as [n0 Hn0]; [lia|].
  destruct (rs_handle _ _ _ Hrun k n0 Hn0) as (sched0 & _ & _ & _ & Hs0 & _).
  destruct (sd_after _ _ _ _ _ Hsc k n0 sched0 (le_n k) Hn0 Hs0) as (Hh1 & Hs1 & Hc1).
  assert (n = n0) as -> by congruence. assert (sched = sched0) as -> by congruence.
  destruct Hone as [(w2 & chs2 & -> & Hone & Hf & Hrun2)|[-> (_ & _ & Hl & Hd)]].
  - left. exists w2, chs2. split; [done|]. split; [done|].
    eapply scanned_next; [exact Hrun|exact Hrun1|exact Hsc|exact Hn0|exact Hs0|exact Hone|exact Hf].
  - right. split; [done|]. exists k, n0, sched0. split_and!; [done|done|done|by rewrite <- Hc1].
Qed.

(** C28: a scan of the watchdog replaces the schedulers that are late, and no others,
    or panics at one whose thread is dead.  On a server that runs, with the handles
    of different schedulers on different cores, the scan ends; a handle whose
    scheduler was in time still has it, unchanged; one whose scheduler was late has
    a new one, of a new thread on the same core, that starts with a dispatcher for
    the same queue pair and the same sibling, followed by the tasks that were
    waiting, in order, all but the old dispatcher, and that has the responses that
    were waiting; the old one is marked, so that its thread stops when it gets to
    look, and empty; and the new thread is left with the command to start polling.
    The server still runs.  But a thread that died of a panic closed its channel,
    and its scheduler is late for good: that the old thread is stopped by a command,
    whose sending is unwrapped, makes the scan panic, and with it the main thread;
    it panics in no other case. *)
Theorem scan_replaces_late w chs :
  running_server ctx w chs →
  (∃ w' chs', scan ctx c limit w chs = Ret (w', chs') ∧ running_server ctx w' chs' ∧
    length (sh_handles w') = length (sh_handles w) ∧
    ∀ i n sched, sh_handles w !! i = Some n → sh_scheds w !! n = Some sched →
      dealt_with w w' chs chs' i n sched) ∨
  (scan ctx c limit w chs = Panic ∧ ∃ i n sched, late_and_dead w chs i n sched).
Proof.
  intros Hrun. unfold scan.
  destruct (scan_loop w chs (length (sh_handles w)) Hrun (le_n _)) as [(w' & chs' & E & Hrun' & Hsc)|Hd]; [left|by right].
  exists w', chs'. split; [exact E|]. split; [done|]. split; [apply (sd_length _ _ _ _ _ Hsc)|].
  intros i n sched Hi Hs. apply (sd_before _ _ _ _ _ Hsc); [by eapply lookup_lt_Some|done..].
Qed.
End scan.
End server.

(** ** An example *)

(** Nothing arrives; the clock goes by tens. *)
Definition idle_net : Network := {|
  Net := Z;
  net_recv _ n := (Some [], n);
  net_steal _ n := (None, n);
  net_send ms n := (Some (len ms), n);
  mbuf_alloc n := (None, n);
  mbuf_free m n := n;
  rdtsc n := (n, n + 10);
|}.

Definition ex_server_config : ServerConfig :=
  mkServerConfig "3c:fd:fe:04:93:a2" "192.168.0.1" 0 "0000:04:00.1" "3c:fd:fe:04:c2:e2" "192.168.0.2" 8 "" "YCSB" 100.

Definition ex_parse_ip (s : string) : option Z :=
  if bool_decide (s = "192.168.0.1"%string) then Some 0xc0a80001 else Some 0xc0a80002.

Definition ex_server_mac : MacAddress := mkMacAddress 60 253 254 4 147 162.
Definition ex_client_mac : MacAddress := mkMacAddress 60 253 254 4 194 226.

Lemma ex_addresses : addresses ex_parse_ip ex_server_config 0xc0a80001 0xc0a80002 ex_server_mac ex_client_mac.
Proof. split; vm_compute; reflexivity. Qed.

Section example.
#[local] Existing Instances idle_net any_loader exact_bytes.

Lemma server_starts_witness :
  ∃ ctx chs w chs',
    init_server port_name (λ p rx tx, (p, rx)) ex_server_config = Ret (Ok ctx) ∧
    start_server (G := unit) snd ex_parse_ip Z.of_nat ctx ex_server_config server_cores = Ret chs ∧
    first_commands (rev server_cores) (mkShared [] [] [] [] [] 1000) chs = Ret (w, chs') ∧
    sh_handles w = seq 0 8 ∧ length (sh_scheds w) = 8%nat ∧ running_server ctx w chs' ∧
    ∃ i created now,
      rev server_cores !! i = Some 13 ∧
      sh_scheds w !! i = Some (mkRoundRobin created false (Z.of_nat i) 13
        [ADispatch (Dispatch_new 0 0xc0a80001 0xc0a80002 ex_server_mac ex_client_mac 3 now)] []) ∧
      sh_ports w !! i = Some (("0000:04:00.1"%string, 3), ("0000:04:00.1"%string, 4)) ∧ chs' !! 13 = Some (Open [Execute]).
Proof.
  destruct (server_starts (H := idle_net) (G := unit) snd ex_parse_ip Z.of_nat port_name (λ p rx _,
    (p, rx)) ex_server_config
    0xc0a80001 0xc0a80002 ex_server_mac ex_client_mac 1000 server_cores (rev server_cores) ex_addresses)
    as (ctx & chs & w & chs' & E1 & E2 & E3 & E4 & E5 & E6 & H); [done|symmetry; apply Permutation_rev|].
  exists ctx, chs, w, chs'. split_and!; [exact E1|exact E2|exact E3|exact E4|exact E5|exact E6|].
  exact (H 13 (proj2 (elem_of_seqZ 10 8 13) ltac:(lia))).
Defined.

(** Two schedulers, of which the first has not decided anything since time 0. *)
Definition ex_get_task : AnyTask unit :=
  AServer (TNative (Native_new REQUEST (GenGet (create_packet ex_mbuf 0 0) (create_packet ex_mbuf 0 0) None 1 30))).

Definition ex_dispatcher (id : Z) : AnyTask unit :=
  ADispatch (Dispatch_new 0 0xc0a80001 0xc0a80002 ex_server_mac ex_client_mac id 0).

Definition ex_running : Shared (G := unit) (Queue := Z) :=
  mkShared [mkRoundRobin 0 false 70 10 [ex_get_task; ex_dispatcher 0] []; mkRoundRobin 990 false 71 11 [ex_dispatcher 1] []]
    [(0, 1); (1, 0)] [0%nat; 1%nat] [] [] 1000.

Definition ex_net_context : NetBricksContext (Port := Z) (Queue := Z) :=
  mkNetBricksContext ∅ (<[10 := [0]]> {[11 := [1]]}) [10; 11] (<[10 := 1]> {[11 := 0]}).

Definition ex_channels : Channels (Shared (G := unit) (Queue := Z)) Server :=
  <[10 := Open [Execute]]> {[11 := Open [Execute]]}.

(** The thread of the late scheduler is dead. *)
Definition ex_dead_channels : Channels (Shared (G := unit) (Queue := Z)) Server := <[10 := Closed]> ex_channels.

Lemma ex_runs chs :
  chs = ex_channels ∨ chs = ex_dead_channels → running_server ex_net_context ex_running chs.
Proof.
  intros Hc.
  assert (∃ ch, chs !! 10 = Some ch ∧ has_room ch) as (ch & E & Hr) by (destruct Hc as [-> | ->]; by eexists).
  assert (chs !! 11 = Some (Open [Execute])) as E1 by by destruct Hc as [-> | ->].
  split; [by repeat constructor; rewrite ?list_elem_of_In; cbn; lia|done| |].
  - intros [|[|i]] n; [intros [= <-]|intros [= <-]|by intros [=]].
    + exists (mkRoundRobin 0 false 70 10 [ex_get_task; ex_dispatcher 0] []), 0, 1, ch. by repeat split.
    + exists (mkRoundRobin 990 false 71 11 [ex_dispatcher 1] []), 1, 0, (Open [Execute]). by repeat split.
  - intros [|[|i]] [|[|j]] n m s s' Hn Hm; try done; injection Hn as <-; injection Hm as <-;
      intros [= <-] [= <-]; try done; by intros [=].
Qed.

Definition ex_resume (s : Store) (c : Context) (g : unit) : ExtStep unit := ExtComplete s c.

Definition ex_scan chs :=
  scan (Port := Z) (λ q, q) (λ _ _, tt) ex_resume ex_parse_ip Z.of_nat ex_net_context ex_server_config 100 ex_running chs.

(** What the theorem says of a scan of the two schedulers. *)
Definition ex_scanned (chs : Channels (Shared (G := unit) (Queue := Z)) Server) : Prop :=
  (∃ w' chs', ex_scan chs = Ret (w', chs') ∧ running_server ex_net_context w' chs' ∧
    length (sh_handles w') = 2%nat ∧
    ∀ i n sched, sh_handles ex_running !! i = Some n → sh_scheds ex_running !! n = Some sched →
      dealt_with (λ q, q) (λ _ _, tt) ex_resume Z.of_nat ex_server_config 100 0xc0a80001 0xc0a80002 ex_server_mac
        ex_client_mac ex_running w' chs chs' i n sched) ∨
  (ex_scan chs = Panic ∧ ∃ i n sched, late_and_dead 100 ex_running chs i n sched).

Lemma scan_replaces_late_witness :
  match ex_scan ex_channels with
  | Ret (w, _) =>
      sh_handles w = [2; 1]%nat ∧
      waiting <$> sh_scheds w !! 2%nat = Some [ADispatch
        (Dispatch_new 0 0xc0a80001 0xc0a80002 ex_server_mac ex_client_mac 0 1020);
        ex_get_task]
  | _ => False
  end ∧
  ex_scan ex_dead_channels = Panic ∧
  ex_scanned ex_channels ∧ ex_scanned ex_dead_channels.
Proof.
  split; [vm_compute; by split|]. split; [by vm_compute|]. split.
  - exact (scan_replaces_late (λ q, q) (λ _ _, tt) ex_resume ex_parse_ip Z.of_nat ex_net_context ex_server_config 100
      0xc0a80001 0xc0a80002 ex_server_mac ex_client_mac ex_addresses ex_running ex_channels (ex_runs _ (or_introl eq_refl))).
  - exact (scan_replaces_late (λ q, q) (λ _ _, tt) ex_resume ex_parse_ip Z.of_nat ex_net_context ex_server_config 100
      0xc0a80001 0xc0a80002 ex_server_mac ex_client_mac ex_addresses ex_running ex_dead_channels
      (ex_runs _ (or_intror eq_refl))).
Defined.
End example.
